(* ===== verification/_CoqProject ===== *)
-Q . S2P
Prelude.v
StdModel.v
Float64.v
Json.v
Regex.v
Paths.v
DagNode.v
Workflow.v
OutputRef.v
Condition.v
ExecutorShared.v
DagCore.v
TopoLayers.v
ModelValidation.v
DagRun.v
RunTheorems.v
RunOrder.v
RunOutcome.v
RunNode.v
Database.v
RunStore.v
RunLifecycle.v
RunResume.v
RunStoreSpecs.v
EventStore.v
NodeSessions.v
StructuredOutput.v
Provider.v
EnvFiles.v
Process.v
Git.v
GitBranch.v
GitSpecs.v
WorktreeCopy.v
WorktreeCopySpecs.v
Isolation.v
WorktreeProvider.v
WorktreeCreate.v
Resolver.v
IsolationSpecs.v
WorktreeSpecs.v
WorktreePaths.v
WorktreeDestroy.v
SampleIsolation.v
ScriptDiscovery.v
NodeProc.v
ScriptNode.v
NodeStream.v
Beats.v
AiNode.v
AiSpec.v
AiWatch.v
ProviderResolve.v
ApprovalNode.v
AiGate.v
LoopNode.v
LoopSpec.v
GateResume.v
CliStream.v
AgentProc.v
AgentRetry.v
McpConfig.v
NativeTools.v
ClaudeCli.v
ClaudeProvider.v
CodexCli.v
CodexSchema.v
CodexProvider.v
JsonRpc.v
Skills.v
CopilotEvents.v
CopilotSession.v
CopilotSpecs.v
CopilotProvider.v
PiOptions.v
PiSession.v
PiProvider.v
OpencodeParts.v
OpencodeSession.v
OpencodeProvider.v
