(* ===== verification/Prelude.v ===== *)
(** * A verification development for harness-agent-rs

    harness-agent-rs runs workflows: directed acyclic graphs of nodes (prompts and
    commands for an AI agent, bash and script steps, loops, approvals, cancellations)
    that are parsed from YAML, layered, and executed layer by layer, in a git worktree
    of their own.  This library models what a workflow means
    ([crates/har-workflow-schema], [crates/har-dag-executor]), the store of runs and
    events ([crates/har-db]), the agent providers, their choice and their contract
    ([crates/har-provider], [crates/har-contract]), and where a conversation works
    ([crates/har-paths], [crates/har-git], [crates/har-isolation]), and proves what
    they promise.

    ** Files

    Every file models the source file it names, operation by operation, under the
    names of the source.

    The ground:
    - [Prelude] (this file): characters and strings, [result] and [outcome] (a value,
      or a panic), the parts of [str] and of the integer types the code uses, the
      shared lemmas and tactics.
    - [StdModel]: what the Rust standard library leaves open: the iteration order of a
      [HashMap] (class [HashMapOrder], any permutation), the Unicode tables of
      [to_lowercase] (class [UnicodeCase], its action on ASCII); [io::Error].
    - [Float64]: [f64] on the Standard Library's [SpecFloat], its comparisons, casts
      and [str::parse].
    - [Json]: [serde_json::Value]; its parser and printer are the class [SerdeJson].
    - [Regex]: the fragment of the [regex] crate the code uses.  Its documented
      leftmost-first semantics is the function [matches];
      a class [RegexEngine] stands for the engine, and an executable instance shows
      that it can be had.
    - [Paths]: [std::path] on Unix and [archon_paths.rs]; [EnvFiles]: [strip_cwd_env.rs]
      and [env_loader.rs], the variables of the process at its start.
    - [Process]: trees of calls to the surroundings, their runs in a world, and the
      logic to reason about every run: [always], [post], [only], [returns_if], [shows];
      and the lifting of a process into one with more calls.

    What a workflow is:
    - [DagNode]: [retry_schema.rs], [loop_schema.rs], [hooks_schema.rs],
      [dag_node.rs]: the node types, their deserialization and validation.
    - [Workflow]: [workflow.rs] and [workflow_run.rs]: workflows, their validation,
      node and run states.
    - [OutputRef]: [output_ref.rs], the resolution of a field of a node's output.
    - [Condition]: [condition_evaluator.rs], the language of [when:] conditions.
    - [ExecutorShared]: [executor_shared.rs]: classification of errors, summaries of
      failed subprocesses, variable substitution, completion signals, message sending,
      command files.
    - [ModelValidation]: [model_validation.rs]: model tiers and aliases.

    The run:
    - [DagCore]: the pure functions at the head of [dag_executor.rs]: shell quoting,
      output references in prompts, trigger rules, topological layers, retry settings,
      MCP failures.
    - [TopoLayers]: the theory of [build_topological_layers].
    - [DagRun]: [execute_dag_workflow] of [dag_executor.rs]: the run itself, as a
      computation that lists its effects.
    - [RunTheorems]: the shared lemmas about such computations, and the instances on
      which theorems about runs are applied.
    - [RunOrder], [RunOutcome], [RunNode]: what a run guarantees about the order of
      its nodes, about its end, and about each node.

    The node executors of [dag_executor.rs]:
    - [NodeProc]: their calls, the events they record, and worlds to run them in;
      [NodeStream]: the texts they show, and what AI nodes and loops share; [Beats]: the
      calls that decide what an executor does next.
    - [ScriptDiscovery]: [script_discovery.rs]; [ScriptNode]: bash and script nodes,
      subprocesses.
    - [AiNode]: AI nodes; [AiSpec], [AiWatch]: their abstract machine, and how often
      they look at the run.
    - [ApprovalNode]: approval nodes; [AiGate]: the AI nodes that handle a rejection.
    - [LoopNode], [LoopSpec]: loop nodes and their abstract machine; [GateResume]:
      what a gate stores and a resumed run reads back.
    - [ProviderResolve]: the provider, the model and the options of an AI node.

    Providers:
    - [Provider]: the contract of [har-contract/src/lib.rs] and the registry of
      [har-provider/src/lib.rs]; [StructuredOutput]: [structured_output.rs].
    - [CliStream]: [cli_stream/stream.rs], [stderr.rs] and [retry.rs]: lines of JSON from
      chunks of bytes, classes of errors; [AgentProc]: the calls of a provider that
      drives a command line; [AgentRetry]: the loop of attempts of Claude and Codex;
      [McpConfig]: [mcp/config.rs]; [NativeTools]: [claude/native_tools.rs] and
      [cli_stream/mcp_sidecar.rs]; [Skills]: [shared/skills.rs].
    - Claude: [ClaudeCli], its arguments and events; [ClaudeProvider], a query.
    - Codex: [CodexCli], its arguments and events; [CodexSchema], its schemas and servers;
      [CodexProvider], a query.
    - Copilot: [JsonRpc], frames and the client that several tasks share; [CopilotEvents]
      and [CopilotSession], a session; [CopilotSpecs], what it guarantees;
      [CopilotProvider], a query.
    - Pi: [PiOptions], [PiSession] and [PiProvider].
    - OpenCode: [OpencodeParts], configuration, agents and files; [OpencodeSession], the
      client of the server and a session; [OpencodeProvider], the shared server and a
      query.

    The store:
    - [Database]: [adapters.rs], [database.rs] and the adapters of [har-db]: dialects,
      tables, queries, transactions, and the interleaving of concurrent calls.
    - [RunStore]: [workflows.rs], the store of runs, and the records of
      [har-ledger/src/store.rs], with instances to evaluate it on.
    - [RunLifecycle]: the state machine of a run, its invariant, and the refinement of
      the one by any interleaving of calls of the store.
    - [RunResume], [RunStoreSpecs]: reading, resuming, creating, ending, locking and
      deleting runs, operation by operation.
    - [EventStore]: [workflow_events.rs], the store of events, and what a resumed run
      gets back from it.
    - [NodeSessions]: [node_artifact.rs] and [workflow_node_session.rs] of the schema
      crate, and [workflow_node_sessions.rs] of [har-db].

    Where a conversation works:
    - [Git]: the system calls, and [exec.rs], [types.rs] and [worktree.rs] of [har-git];
      [GitBranch]: [branch.rs] and [repo.rs]; [GitSpecs]: what they guarantee.
    - [WorktreeCopy], [WorktreeCopySpecs]: [worktree_copy.rs] of [har-isolation].
    - [Isolation]: its types, error texts, states of pull requests, and the interface
      of a provider; [WorktreeProvider] and [WorktreeCreate]: [providers/worktree.rs];
      [Resolver]: [resolver.rs].
    - [IsolationSpecs]: the resolver against the interface of a provider;
      [WorktreeSpecs], [WorktreePaths], [WorktreeDestroy]: what the worktree provider
      guarantees; [SampleIsolation]: concrete runs.

    ** How the parts interact

    [DagRun.execute_dag_workflow] calls [DagCore.build_topological_layers] once, then,
    per layer, one task per node: [run_node] checks the prior run, the trigger rule
    ([DagCore.check_trigger_rule]) and the condition ([Condition.evaluate_condition],
    which resolves fields with [OutputRef.resolve_node_output_field]) before it
    dispatches.  The retry loop classifies errors with [ExecutorShared.classify_error].
    A task reads only the outputs of the earlier layers, so the tasks of a layer are
    modelled one after the other; the list of their effects is one interleaving of
    what they do, and no theorem depends on which ([RunOrder.layer_order_irrelevant]
    for the outputs).

    A node executor is a process ([Process.proc]) over the calls of [NodeProc]: the
    store, the event bus, the platform, the providers, files, subprocesses and the
    clock.  An approval node calls AI nodes through the interface [AiNodes]; a loop
    pauses a run with the context that [GateResume] reads back when the run goes on.

    A call of the store is a program of [Database.prog]: a tree of queries and
    transactions, each answered at some time or failed by the connection.  A query is
    the meaning of its SQL text: a function of the time and the tables; the text of the
    fragments that vary with the dialect is kept beside it.  [Database.run] executes
    one call, [Database.interleave] a pool of concurrent ones.  A transaction keeps what
    its body did when it commits and drops it otherwise.  On PostgreSQL the calls are
    interleaved statement by statement, as READ COMMITTED allows: an open transaction
    sees what others commit meanwhile, keeps its own changes to itself, and locks the
    rows it changed.  On SQLite a transaction is one turn.

    The git wrapper and the copying of files are processes over [Git.host_call].  A
    method of the isolation crate is a process over [Isolation.iso_call]: those calls,
    lifted, and the calls of the isolation store and of the configuration loader.  The
    resolver calls a provider through the class [IsolationProvider]; [ProviderLaws] is
    what it needs from one, and [WorktreeSpecs] shows that the worktree provider, built
    on the git wrapper, keeps it.

    A query to a provider is a process over calls of its own: those of [AgentProc] for
    Claude, Codex and the parts they share, with those of the session for Copilot, Pi and
    OpenCode, to which the shared parts are lifted.  Claude and Codex instantiate the loop
    of [AgentRetry].  A Copilot session makes the requests whose answers [JsonRpc]
    describes; a Pi session reads lines and answers the requests of extensions; the
    queries to OpenCode share one server, whose count of users is a cell of the world.
    What a query yields, starts and stops is read off the trace of its calls; [shows]
    composes such observations.

    At its start the program runs [EnvFiles.strip_cwd_env] and then
    [EnvFiles.load_archon_env] on the variables of its process, from which the paths of
    [Paths] are derived.

    ** Interfaces

    What is not under the repository, or is a seam of its own, is a class whose
    operations the definitions call: [HashMapOrder], [UnicodeCase], [SerdeJson],
    [RegexEngine], [ProcessEnvironment] (the variables of the process, and what the
    build fixed), [CommandPromptDeps] (the seam of that name in the source),
    [NodeExecutors] (what a run calls to execute a node), [RunEnv] (what the store
    answers to a run), [SqlEngine] and [StoreText] (what a database engine and [chrono]
    add: the order of rows, the merge of JSON documents, the text of timestamps and of
    errors), [AiNodes] (the AI nodes behind a rejection), [OptionValues] (options as
    JSON), [StructuredText] (the repair of JSON, the compiler of schemas), [StdText]
    (the texts of numbers and of [Debug]), [CommitDates] (the dates of [chrono]),
    [Sha256], [IsolationProvider], [RawOsError] (the numbers of system errors),
    [JsonErrors] and [FrameErrors] (the texts of errors of parsers), [FloatText],
    [Alphanumeric], [UrlCrate], [Dotenv] and [HostDirs] (the crates [dotenvy] and
    [directories]).  Theorems hold for every instance; the witnesses use
    concrete ones.

    ** What the theorems show

    - Runs: a run returns exactly when its graph is acyclic; it runs the task of every
      node exactly once, with its dependencies final, and does nothing else but its
      prelude and its end; a node that did not complete blocks what needs it; the run is completed or failed in the store at most once, and exactly
      when its outputs say so; a stop between layers starts nothing more; gates, retry
      and backoff, sessions, resumption, the output of the run.
    - Layers: a schedule, as early as possible, that exists exactly for acyclic graphs.
    - AI nodes: when one completes, and that it is with the answer to its last query; how
      often it asks again and with what; that it returns, but for texts it cuts inside a
      character; how often it looks at the run.
    - Loops: what each query belongs to, when a loop completes, that one whose signal
      comes completes with the first stream that has it, that a gate is resumed where it
      paused.
    - Bash and script nodes: the one command they start, and that the text of the user
      never becomes part of a bash command; approval nodes: the gate, that only the store's
      answer or a rejection that was handled lets one through, and how each can fail.
    - Choice of a provider: precedence of node, workflow, preset and default; the
      registry; the objects found in a transcript.
    - Queries to agents: how often a program is started or a session opened and what is
      stopped again, that nothing follows the end of a query, what a query reads back
      from what the agent prints, that an error is told once; that frames are read back
      however they are cut, and that under every interleaving a request gets its own
      answer; that the handler of a tool runs exactly for a request for it, with arguments
      its schema accepts; that a cancellation is looked for before a session is started;
      which files of agents are left.
    - The environment: what is removed at the start, and which file wins.
    - Node sessions: what was written under a key is read back under it.
    - Conditions and output references: the evaluator against a relational semantics of
      the language, printing and reading back, the contract of field resolution, the
      longest numeric prefix.
    - Text that reaches a shell: quoting is undone by a POSIX shell's reading; user
      text is never substituted into a shell command.
    - Schemas: validation and deserialization accept exactly the well-formed data; the
      validation of a node leaves some declared bounds to others
      ([DagNode.unchecked_bounds]).
    - Model tiers and aliases: precedence of the layers, fallback of the tiers.
    - The store of runs: its table stays well formed and the status of a run follows
      its state machine under every interleaving of calls, but that on PostgreSQL a
      deletion may race with a resumption; a run that ended stays so;
      one resumption wins; an interrupted run can be resumed; the lock is exclusive;
      what each operation returns and leaves, failures included; a recorded output is
      the one restored.
    - Git: no error of a clone shows its token; the listing of worktrees is read back
      from what git prints; a project is found back from every path below it.
    - Isolation: a conversation works in a directory that was seen, and verified to
      belong to the repository where it is reused or adopted; what was created is
      recorded once; a created worktree has the branch of its request; paths of worktrees
      stay below their base; the paths of copies stay inside the two roots; a directory
      is deleted only after git removed it or said that something does not exist.
    - Places where the code departs from its own documentation are theorems too; they
      say so in their comments.

    ** Bounds and fuel

    [usize] and [u64] are [nat] and [N]; where a width matters (the [u32] cast of a
    token budget, the [u64] powers of a backoff, the counters of a loop, saturating
    products) it is written out.  Arithmetic panics on overflow, as in a build with
    overflow checks.  Fuel is used in the functions on strings and digits of [Prelude]
    and in the regular-expression matcher, by the length of the text; in
    [DagCore.layers_loop], by the number of nodes: [TopoLayers] proves that it is enough
    when the identifiers are distinct; and in [WorktreeCopy.copy_dir], by the depth of
    the tree: [WorktreeCopySpecs.copy_dir_returns] proves that every tree less deep is
    copied to its end.  Streams of a provider and directories are finite: what a
    process does with them is by recursion on them.

    ** Not modelled

    Log files and [tracing] output, whose failures the code ignores; the derived
    serializers of [serde]; the drivers, migrations, the connection and the notifications
    of the database; the spawning and the killing of the processes of agents, the HTTP
    server around the native tools, and the spawners of the tests; the queues and the
    contexts of [event_bridge.rs] and [ui_context_stub.rs], which nothing uses; the crates
    that hold no logic yet.  Paths are resolved lexically: what a symbolic link points to
    is only known through [canonicalize].  A panic ends a process where it happens: what
    unwinding drops (a permit, a child that is killed when it is dropped) is not part of
    its trace.  The store's calls on PostgreSQL are interleaved at the grain of its
    statements; locks are held on rows that were changed, and not on ranges. *)

From stdpp Require Export base tactics list gmap numbers strings sorting.

(** ** Characters and strings

    A Rust [char] is a Unicode scalar value, kept as an [N]; a [&str] or a
    [String] is the list of its characters.  Byte lengths (what Rust's
    [str::len] counts) are computed with [byte_len]. *)

Abbreviation char := N.
Abbreviation str := (list N).

(** Source literals are written as Rocq strings, whose bytes are UTF-8. *)
Fixpoint utf8_decode (bs : list N) : str :=
  match bs with
  | [] => []
  | b :: r =>
      if (b <? 128)%N then b :: utf8_decode r
      else if (b <? 224)%N then
        match r with
        | c :: r' => ((b - 192) * 64 + (c - 128))%N :: utf8_decode r'
        | _ => []
        end
      else if (b <? 240)%N then
        match r with
        | c :: d :: r' =>
            ((b - 224) * 4096 + (c - 128) * 64 + (d - 128))%N :: utf8_decode r'
        | _ => []
        end
      else
        match r with
        | c :: d :: e :: r' =>
            ((b - 240) * 262144 + (c - 128) * 4096 + (d - 128) * 64 + (e - 128))%N
              :: utf8_decode r'
        | _ => []
        end
  end.

Definition lit (s : string) : str :=
  utf8_decode (map Ascii.N_of_ascii (String.list_ascii_of_string s)).

(** A Unicode scalar value, which every [char] is. *)
Definition scalar (c : char) : Prop := (c < 55296 \/ 57344 <= c < 1114112)%N.

(** The two quote characters, and the backslash, for literals that hold them. *)
Definition dquote : char := 34%N.
Definition squote : char := 39%N.
Definition backslash : char := 92%N.

(** ** [Result], and computations that may panic *)

Inductive result (E A : Type) : Type :=
| Ok (a : A)
| Err (e : E).
Arguments Ok {E A} a.
Arguments Err {E A} e.

#[export] Instance result_ret E : MRet (result E) := fun A a => Ok a.
#[export] Instance result_bind E : MBind (result E) := fun A B f m =>
  match m with Ok a => f a | Err e => Err e end.
#[export] Instance result_fmap E : FMap (result E) := fun A B f m =>
  match m with Ok a => Ok (f a) | Err e => Err e end.

#[export] Instance Ok_inj E A : Inj (=) (=) (@Ok E A).
Proof. by intros a b [=]. Qed.

Definition map_err {E F A} (f : E -> F) (r : result E A) : result F A :=
  match r with Ok a => Ok a | Err e => Err (f e) end.
(** [Result::ok] and [Result::unwrap_or]. *)
Definition ok {E A} (r : result E A) : option A := match r with Ok a => Some a | Err _ => None end.
Definition unwrap_or {E A} (r : result E A) (d : A) : A := match r with Ok a => a | Err _ => d end.

Definition is_ok {E A} (r : result E A) : bool :=
  match r with Ok _ => true | Err _ => false end.

(** A call either returns or unwinds with a panic. *)
Inductive outcome (A : Type) : Type :=
| Ret (a : A)
| Panic.
Arguments Ret {A} a.
Arguments Panic {A}.

#[export] Instance outcome_ret : MRet outcome := fun A a => Ret a.
#[export] Instance outcome_bind : MBind outcome := fun A B f m =>
  match m with Ret a => f a | Panic => Panic end.

(** ** Character classes of the Rust standard library *)

Definition in_range (lo hi c : char) : bool := ((lo <=? c) && (c <=? hi))%N.
Definition is_ascii_digit (c : char) : bool := in_range 48 57 c.
Definition is_ascii_lowercase (c : char) : bool := in_range 97 122 c.
Definition is_ascii_uppercase (c : char) : bool := in_range 65 90 c.
Definition is_ascii_alphabetic (c : char) : bool :=
  is_ascii_lowercase c || is_ascii_uppercase c.
Definition is_ascii_alphanumeric (c : char) : bool :=
  is_ascii_alphabetic c || is_ascii_digit c.
Definition is_ascii (c : char) : bool := (c <? 128)%N.

(** [u8::is_ascii_whitespace]: tab, line feed, form feed, carriage return, space. *)
Definition is_ascii_whitespace (c : char) : bool :=
  ((c =? 9) || (c =? 10) || (c =? 12) || (c =? 13) || (c =? 32))%N.

(** [char::is_whitespace]: the Unicode [White_Space] property. *)
Definition is_whitespace (c : char) : bool :=
  in_range 9 13 c || (c =? 32)%N || (c =? 133)%N || (c =? 160)%N || (c =? 5760)%N
  || in_range 8192 8202 c || (c =? 8232)%N || (c =? 8233)%N || (c =? 8239)%N
  || (c =? 8287)%N || (c =? 12288)%N.

Definition to_ascii_lowercase (c : char) : char :=
  if is_ascii_uppercase c then (c + 32)%N else c.

(** ** Operations on [str] *)

Definition str_eqb (a b : str) : bool := bool_decide (a = b).
Definition is_empty {A} (s : list A) : bool := match s with [] => true | _ => false end.

Fixpoint strip_prefix (p s : str) : option str :=
  match p, s with
  | [], _ => Some s
  | a :: p', b :: s' => if (a =? b)%N then strip_prefix p' s' else None
  | _ :: _, [] => None
  end.

Definition starts_with (p s : str) : bool :=
  match strip_prefix p s with Some _ => true | None => false end.

(** [str::split_once]: around the first occurrence of a non-empty separator. *)
Fixpoint split_once (sep s : str) : option (str * str) :=
  match strip_prefix sep s with
  | Some r => Some ([], r)
  | None =>
      match s with
      | [] => None
      | c :: s' =>
          match split_once sep s' with
          | Some (a, b) => Some (c :: a, b)
          | None => None
          end
      end
  end.

(** [str::contains] with a string pattern. *)
Definition contains (sep s : str) : bool :=
  match split_once sep s with Some _ => true | None => false end.

(** [str::split] with a non-empty string pattern. *)
Fixpoint split_fuel (n : nat) (sep s : str) : list str :=
  match n with
  | O => [s]
  | S n' =>
      match split_once sep s with
      | Some (a, b) => a :: split_fuel n' sep b
      | None => [s]
      end
  end.
Definition split (sep s : str) : list str := split_fuel (length s) sep s.

(** [slice::join]. *)
Fixpoint join (sep : str) (l : list str) : str :=
  match l with
  | [] => []
  | [x] => x
  | x :: l' => x ++ sep ++ join sep l'
  end.

(** [str::replace] with a non-empty pattern. *)
Definition replace (pat to s : str) : str := join to (split pat s).

Fixpoint trim_start_matches (f : char -> bool) (s : str) : str :=
  match s with
  | c :: s' => if f c then trim_start_matches f s' else s
  | [] => []
  end.
Definition trim_start (s : str) : str := trim_start_matches is_whitespace s.
Definition trim_end (s : str) : str := rev (trim_start (rev s)).
Definition trim (s : str) : str := trim_end (trim_start s).

(** UTF-8 and UTF-16 widths of a character. *)
Definition utf8_width (c : char) : nat :=
  if (c <? 128)%N then 1 else if (c <? 2048)%N then 2
  else if (c <? 65536)%N then 3 else 4.
Definition utf16_width (c : char) : nat := if (c <? 65536)%N then 1 else 2.
Fixpoint byte_len (s : str) : nat :=
  match s with [] => 0 | c :: s' => utf8_width c + byte_len s' end.
Fixpoint utf16_len (s : str) : nat :=
  match s with [] => 0 | c :: s' => utf16_width c + utf16_len s' end.

(** [&s[..n]], a slice at a byte offset: panics when [n] is out of range or
    inside a character. *)
Fixpoint byte_prefix (n : nat) (s : str) : outcome str :=
  match n, s with
  | O, _ => Ret []
  | S _, [] => Panic
  | S _, c :: s' =>
      if Nat.leb (utf8_width c) n then
        match byte_prefix (n - utf8_width c) s' with
        | Ret p => Ret (c :: p)
        | Panic => Panic
        end
      else Panic
  end.

(** Decimal rendering of an unsigned integer. *)
Fixpoint digits_fuel (n : nat) (x : N) (acc : str) : str :=
  match n with
  | O => acc
  | S n' =>
      let acc' := (48 + x mod 10)%N :: acc in
      if (x <? 10)%N then acc' else digits_fuel n' (x / 10)%N acc'
  end.
Definition show_N (x : N) : str := digits_fuel (S (N.to_nat (N.log2 x))) x [].
Definition show_Z (z : Z) : str :=
  if (z <? 0)%Z then lit "-" ++ show_N (Z.to_N (- z)) else show_N (Z.to_N z).
Definition show_nat (x : nat) : str := show_N (N.of_nat x).
Definition show_bool (b : bool) : str := if b then lit "true" else lit "false".

(** Machine integers are kept as [N]. *)
Definition u32_max : N := (2 ^ 32 - 1)%N.
Definition u64_max : N := (2 ^ 64 - 1)%N.
Definition u64_saturating_mul (a b : N) : N := N.min (a * b) u64_max.

(** First value bound to a key, in an ordered association list. *)
Fixpoint assoc_get {V} (k : str) (l : list (str * V)) : option V :=
  match l with
  | [] => None
  | (k', v) :: l' => if bool_decide (k = k') then Some v else assoc_get k l'
  end.
(** [IndexMap::insert], and that of a [serde_json::Map]: an existing key keeps its
    place. *)
Fixpoint index_insert {V} (k : str) (v : V) (m : list (str * V)) : list (str * V) :=
  match m with
  | [] => [(k, v)]
  | (k', v') :: m' => if bool_decide (k = k') then (k', v) :: m' else (k', v') :: index_insert k v m'
  end.

(** [str::ends_with]. *)
Definition ends_with (p s : str) : bool := starts_with (rev p) (rev s).

(** The first occurrence of every entry, in order. *)
Fixpoint dedup (seen l : list str) : list str :=
  match l with
  | [] => []
  | f :: l => if bool_decide (f ∈ seen) then dedup seen l else f :: dedup (f :: seen) l
  end.

(** ** Automation *)

Create HintDb har.

(** Case analysis on every [match] and [if] of the goal, then cleaning up. *)
Ltac crush_match := repeat (case_match; simplify_eq/=); try done.

(** Decide closed boolean side conditions by evaluation. *)
Ltac by_compute := vm_compute; reflexivity.

(** ** Lemmas on strings *)

Lemma str_eqb_spec (a b : str) : str_eqb a b = true <-> a = b.
Proof. apply bool_decide_eq_true. Qed.

Lemma str_eqb_refl (a : str) : str_eqb a a = true.
Proof. by apply str_eqb_spec. Qed.

Lemma is_empty_spec {A} (l : list A) : is_empty l = true <-> l = [].
Proof. by destruct l. Qed.

Lemma strip_prefix_Some (p s r : str) : strip_prefix p s = Some r <-> s = p ++ r.
Proof.
  revert s; induction p as [|a p IH]; intros [|b s]; simpl.
  - naive_solver.
  - naive_solver.
  - naive_solver.
  - destruct (N.eqb_spec a b) as [->|Hne].
    + rewrite IH. split; [by intros ->|by intros [=]].
    + naive_solver.
Qed.

Lemma strip_prefix_app (p r : str) : strip_prefix p (p ++ r) = Some r.
Proof. by apply strip_prefix_Some. Qed.

Lemma starts_with_spec (p s : str) : starts_with p s = true <-> exists r, s = p ++ r.
Proof.
  unfold starts_with. destruct (strip_prefix p s) eqn:E.
  - apply strip_prefix_Some in E. naive_solver.
  - split; [done|]. intros [r Hr]. apply strip_prefix_Some in Hr. congruence.
Qed.

Lemma split_once_Some (sep s a b : str) :
  split_once sep s = Some (a, b) -> s = a ++ sep ++ b.
Proof.
  revert a b; induction s as [|c s IH]; intros a b; simpl.
  - destruct (strip_prefix sep []) eqn:E; [|done].
    apply strip_prefix_Some in E. intros [= <- <-]. done.
  - destruct (strip_prefix sep (c :: s)) eqn:E.
    + apply strip_prefix_Some in E. intros [= <- <-]. done.
    + destruct (split_once sep s) as [[a' b']|] eqn:E'; [|done].
      intros [= <- <-]. simpl. f_equal. by apply IH.
Qed.

(** The separator that is found is the first one. *)
Lemma split_once_first (sep s a b : str) :
  split_once sep s = Some (a, b) ->
  forall a' b', s = a' ++ sep ++ b' -> length a <= length a'.
Proof.
  revert a b; induction s as [|c s IH]; intros a b; simpl.
  - destruct (strip_prefix sep []) eqn:E; [|done].
    intros [= <- <-]. simpl. lia.
  - destruct (strip_prefix sep (c :: s)) eqn:E.
    + intros [= <- <-]. simpl. lia.
    + destruct (split_once sep s) as [[a0 b0]|] eqn:E'; [|done].
      intros [= <- <-] [|x a'] b' Hs; simpl in Hs.
      * apply strip_prefix_Some in Hs. congruence.
      * simplify_eq. simpl. apply le_n_S. by eapply IH.
Qed.

Lemma split_once_None (sep s : str) :
  split_once sep s = None <-> forall a b, s <> a ++ sep ++ b.
Proof.
  split.
  - induction s as [|c s IH]; simpl; intros Hn a b Hs.
    + destruct (strip_prefix sep []) eqn:E; [done|].
      destruct a, sep; simplify_eq/=.
    + destruct (strip_prefix sep (c :: s)) eqn:E; [done|].
      destruct (split_once sep s) as [[??]|]; [done|].
      destruct a as [|x a]; simpl in Hs.
      * apply strip_prefix_Some in Hs. congruence.
      * simplify_eq. by eapply IH.
  - intros H. destruct (split_once sep s) as [[a b]|] eqn:E; [|done].
    apply split_once_Some in E. by eapply H in E.
Qed.

Lemma contains_spec (sep s : str) :
  contains sep s = true <-> exists a b, s = a ++ sep ++ b.
Proof.
  unfold contains. destruct (split_once sep s) as [[a b]|] eqn:E.
  - apply split_once_Some in E. naive_solver.
  - rewrite split_once_None in E. naive_solver.
Qed.

(** The first occurrence of a separator of one character. *)
Lemma split_once_char (c : char) (a r : str) :
  c ∉ a -> split_once [c] (a ++ c :: r) = Some (a, r).
Proof.
  induction a as [|x a IH]; intros Hc; cbn [app split_once strip_prefix].
  - by rewrite N.eqb_refl.
  - apply not_elem_of_cons in Hc as [Hx Hc]. apply N.eqb_neq in Hx as ->. by rewrite IH.
Qed.

Lemma split_once_char_None (c : char) (a : str) : c ∉ a -> split_once [c] a = None.
Proof. intros Hc. apply split_once_None. intros u v ->. set_solver. Qed.

(** A single character occurs as a pattern when it is one of the characters. *)
Lemma contains_char (c : char) (s : str) : contains [c] s = true <-> In c s.
Proof.
  rewrite contains_spec. split.
  - intros (a & b & ->). apply in_app_iff. right. by left.
  - intros (a & b & ->)%in_split. by exists a, b.
Qed.

Lemma contains_false (sep s : str) :
  contains sep s = false <-> split_once sep s = None.
Proof. unfold contains. by destruct (split_once sep s) as [[??]|]. Qed.

Lemma contains_app_l (sep s1 s2 : str) :
  contains sep s1 = true -> contains sep (s1 ++ s2) = true.
Proof.
  rewrite !contains_spec. intros (a & b & ->). exists a, (b ++ s2).
  by rewrite <-!app_assoc.
Qed.

Lemma contains_app_r (sep s1 s2 : str) :
  contains sep s2 = true -> contains sep (s1 ++ s2) = true.
Proof.
  rewrite !contains_spec. intros (a & b & ->). exists (s1 ++ a), b.
  by rewrite <-!app_assoc.
Qed.

Lemma split_once_length (sep s a b : str) :
  sep <> [] -> split_once sep s = Some (a, b) -> length b < length s.
Proof.
  intros Hsep Hs. apply split_once_Some in Hs. subst s.
  destruct sep; [done|]. rewrite !length_app. simpl. lia.
Qed.

Lemma split_fuel_irrel (sep s : str) n m :
  sep <> [] -> length s <= n -> length s <= m ->
  split_fuel n sep s = split_fuel m sep s.
Proof.
  intros Hsep. revert s m; induction n as [|n IH]; intros s m Hn Hm.
  - destruct s; [|simpl in *; lia]. destruct m; [done|]. simpl.
    destruct sep; done.
  - destruct m as [|m].
    + destruct s; [|simpl in *; lia]. simpl. destruct sep; done.
    + simpl. destruct (split_once sep s) as [[a b]|] eqn:E; [|done].
      f_equal. apply split_once_length in E; [|done]. apply IH; lia.
Qed.

(** The equation that defines [split]. *)
Lemma split_unfold (sep s : str) :
  sep <> [] ->
  split sep s = match split_once sep s with
                | Some (a, b) => a :: split sep b
                | None => [s]
                end.
Proof.
  intros Hsep. unfold split.
  destruct s as [|c s]; [by destruct sep|].
  change (split_fuel (length (c :: s)) sep (c :: s)) with
    (match split_once sep (c :: s) with
     | Some (a, b) => a :: split_fuel (length s) sep b
     | None => [c :: s] end).
  destruct (split_once sep (c :: s)) as [[a b]|] eqn:E; [|done].
  f_equal. apply split_once_length in E; [|done]. simpl in E.
  apply split_fuel_irrel; [done|lia|lia].
Qed.

Lemma split_not_nil (sep s : str) : split sep s <> [].
Proof.
  unfold split. destruct s as [|c s]; [done|]. simpl.
  destruct (strip_prefix sep (c :: s)); [done|].
  by destruct (split_once sep s) as [[??]|].
Qed.

(** Induction over the pieces of a split. *)
Lemma split_ind (sep : str) (P : str -> Prop) :
  sep <> [] ->
  (forall s, split_once sep s = None -> P s) ->
  (forall s a b, split_once sep s = Some (a, b) -> P b -> P s) ->
  forall s, P s.
Proof.
  intros Hsep Hn Hs s.
  induction s as [s IH] using (induction_ltof1 _ (@length char)).
  destruct (split_once sep s) as [[a b]|] eqn:E; [|by apply Hn].
  eapply Hs; [done|]. apply IH. unfold ltof. by eapply split_once_length.
Qed.

Lemma split_once_char_Some (c : char) (s a b : str) :
  split_once [c] s = Some (a, b) -> c ∉ a.
Proof.
  intros Hs Hc. apply list_elem_of_In, in_split in Hc as (u & v & ->).
  pose proof (split_once_Some _ _ _ _ Hs) as E. rewrite <- app_assoc in E.
  pose proof (split_once_first _ _ _ _ Hs u (v ++ [c] ++ b) E) as H.
  rewrite length_app in H. cbn [length] in H. lia.
Qed.

Lemma split_char_absent (c : char) (s : str) : c ∉ s -> split [c] s = [s].
Proof. intros H. rewrite split_unfold by done. by rewrite split_once_char_None. Qed.

(** Splitting at a character. *)
Lemma split_app_char (c : char) (a b : str) :
  split [c] (a ++ c :: b) = split [c] a ++ split [c] b.
Proof.
  apply (split_ind [c]) with (s := a); [done|clear a; intros a E|clear a; intros a x y E IH].
  - assert (Hc : c ∉ a).
    { intros Hc%list_elem_of_In%contains_char. apply contains_false in E. congruence. }
    rewrite (split_char_absent c a Hc), split_unfold, split_once_char by done. done.
  - pose proof (split_once_Some _ _ _ _ E) as Ha. apply split_once_char_Some in E as Hx.
    rewrite (split_unfold [c] a), E by done. rewrite Ha, <- app_assoc. cbn [app].
    rewrite split_unfold, split_once_char by done. by rewrite IH.
Qed.

(** No piece holds the separator. *)
Lemma split_pieces (sep s : str) : sep <> [] -> Forall (fun x => contains sep x = false) (split sep s).
Proof.
  intros Hsep. apply (split_ind sep) with (s := s); [done|clear s; intros s E|clear s; intros s x y E IH].
  - rewrite split_unfold, E by done. repeat constructor. by apply contains_false.
  - rewrite split_unfold, E by done. constructor; [|done].
    apply not_true_iff_false. intros (u & v & ->)%contains_spec.
    pose proof (split_once_Some _ _ _ _ E) as Es. rewrite <- !app_assoc in Es.
    pose proof (split_once_first _ _ _ _ E u (v ++ sep ++ y) Es) as H.
    rewrite !length_app in H. destruct sep; [done|cbn [length] in H; lia].
Qed.

(** A pattern that shares no character with what stands between two texts is in one of
    them. *)
Lemma contains_around (p sep a b : str) :
  p <> [] -> sep <> [] -> (forall c, c ∈ sep -> c ∉ p) -> contains p (a ++ sep ++ b) = true ->
  contains p a = true \/ contains p b = true.
Proof.
  intros Hp Hsep Hdis (u & v & E)%contains_spec. rewrite !contains_spec.
  apply app_eq_inv in E as [(k & -> & E)|(k & -> & E)].
  - apply app_eq_inv in E as [(k' & -> & E)|(k' & -> & E)]; [|left; by exists u, k'].
    destruct k' as [|d k']; [left; exists u, []; by rewrite !app_nil_r|].
    destruct sep as [|c sep]; [done|]. cbn [app] in E. injection E as E _.
    destruct (Hdis c); [by left|]. rewrite E. set_solver.
  - right. clear Hsep. revert k E. induction sep as [|c sep IH]; intros k E; [by exists k, v|].
    destruct k as [|c' k].
    + destruct p as [|d p]; [done|]. cbn [app] in E. injection E as E _.
      destruct (Hdis c); [by left|rewrite E; by left].
    + cbn [app] in E. injection E as _ E. apply (IH (fun d Hd => Hdis d (list_elem_of_further _ _ _ Hd)) k E).
Qed.

(** No piece holds the character. *)
Lemma split_char_pieces (c : char) (s : str) : Forall (fun x => c ∉ x) (split [c] s).
Proof.
  apply (split_ind [c]) with (s := s); [done|clear s; intros s E|clear s; intros s x y E IH].
  - rewrite split_unfold, E by done. repeat constructor.
    intros Hc%list_elem_of_In%contains_char. apply contains_false in E. congruence.
  - rewrite split_unfold, E by done. constructor; [|done]. by eapply split_once_char_Some.
Qed.

Lemma join_cons (sep x : str) (l : list str) :
  l <> [] -> join sep (x :: l) = x ++ sep ++ join sep l.
Proof. by destruct l. Qed.

(** Replacing a pattern by a text that shares no character with it removes it. *)
Lemma replace_removes (p to s : str) :
  p <> [] -> to <> [] -> (forall c, c ∈ to -> c ∉ p) -> contains p (replace p to s) = false.
Proof.
  intros Hp Hto Hdis. apply not_true_iff_false. unfold replace.
  pose proof (split_pieces p s Hp) as H. induction H as [|x l Hx Hl IH]; [by destruct p|].
  destruct l as [|y l]; [cbn [join]; congruence|]. rewrite join_cons by done. intros Hc.
  apply contains_around in Hc as [Hc|Hc]; [congruence|by apply IH|done..].
Qed.

Lemma join_split (sep s : str) : sep <> [] -> join sep (split sep s) = s.
Proof.
  intros Hsep. pattern s. apply (split_ind sep); clear s; [done| |].
  - intros s Hs. by rewrite split_unfold, Hs.
  - intros s a b Hs IH. rewrite split_unfold, Hs by done.
    rewrite join_cons by apply split_not_nil. rewrite IH.
    symmetry. by apply split_once_Some.
Qed.

(** Replacing a pattern that does not occur changes nothing. *)
Lemma replace_absent (pat to s : str) :
  pat <> [] -> contains pat s = false -> replace pat to s = s.
Proof.
  intros Hp Hc. apply contains_false in Hc. unfold replace.
  by rewrite split_unfold, Hc.
Qed.

Lemma replace_unfold (pat to s : str) :
  pat <> [] ->
  replace pat to s = match split_once pat s with
                     | Some (a, b) => a ++ to ++ replace pat to b
                     | None => s
                     end.
Proof.
  intros Hp. unfold replace. rewrite split_unfold by done.
  destruct (split_once pat s) as [[a b]|]; [|done].
  by rewrite join_cons by apply split_not_nil.
Qed.

(** Two names that start with a mark, and hold it nowhere else, occur apart:
    replacing one leaves the occurrences of the other. *)
Lemma contains_replace_other (c : char) (w v to s : str) :
  c ∉ w -> c ∉ v -> strip_prefix w v = None -> strip_prefix v w = None ->
  contains (c :: v) s = true -> contains (c :: v) (replace (c :: w) to s) = true.
Proof.
  intros Hw Hv Hwv Hvw. pattern s. apply (split_ind (c :: w)); clear s; [done| |].
  { intros s Hs Hc. by rewrite replace_unfold, Hs. }
  intros s a b Hs IH Hc. rewrite replace_unfold, Hs by done.
  apply split_once_Some in Hs. subst s. apply contains_spec in Hc as (x & y & Hc).
  assert (contains (c :: v) a = true \/ contains (c :: v) b = true) as [Ha|Hb];
    [|by apply contains_app_l|by apply contains_app_r, contains_app_r, IH].
  apply app_eq_inv in Hc as [([|d k] & -> & Hk)|([|d k] & -> & Hk)]; simpl in Hk.
  - injection Hk as Hk. apply app_eq_inv in Hk as [(k & -> & _)|(k & -> & _)];
      rewrite strip_prefix_app in *; done.
  - injection Hk as <- Hk. apply app_eq_inv in Hk as [(k' & -> & Hk)|(k' & -> & Hk)].
    + destruct k' as [|d k']; simpl in Hk.
      * left. apply contains_spec. exists x, []. by rewrite !app_nil_r.
      * injection Hk as <- _. set_solver.
    + left. apply contains_spec. by exists x, k'.
  - injection Hk as Hk. apply app_eq_inv in Hk as [(k & -> & _)|(k & -> & _)];
      rewrite strip_prefix_app in *; done.
  - injection Hk as <- Hk. apply app_eq_inv in Hk as [(k' & -> & Hk)|(k' & -> & Hk)].
    + destruct k' as [|d k']; simpl in Hk.
      * right. apply contains_spec. by exists [], y.
      * injection Hk as <- _. set_solver.
    + right. apply contains_spec. exists k', y. by rewrite Hk.
Qed.

Lemma replace_self (pat s : str) : pat <> [] -> replace pat pat s = s.
Proof. apply join_split. Qed.

Lemma trim_start_matches_app (f : char -> bool) (a s : str) :
  forallb f a = true -> trim_start_matches f (a ++ s) = trim_start_matches f s.
Proof.
  induction a as [|c a IH]; simpl; [done|].
  intros [Hc Ha]%andb_prop. rewrite Hc. auto.
Qed.

(** What is trimmed is a prefix of matching characters, and the rest starts
    with a character that does not match. *)
Lemma trim_start_matches_spec (f : char -> bool) (s : str) :
  exists a, s = a ++ trim_start_matches f s /\ forallb f a = true
    /\ match trim_start_matches f s with [] => True | c :: _ => f c = false end.
Proof.
  induction s as [|c s (a & Hs & Ha & Hr)]; simpl.
  - by exists [].
  - destruct (f c) eqn:E.
    + exists (c :: a). simpl. rewrite <-Hs, E, Ha. done.
    + by exists [].
Qed.

Lemma trim_start_cons c s : is_whitespace c = true -> trim_start (c :: s) = trim_start s.
Proof. unfold trim_start. simpl. by intros ->. Qed.

Lemma trim_space_l c s : is_whitespace c = true -> trim (c :: s) = trim s.
Proof. intros Hc. unfold trim. by rewrite trim_start_cons. Qed.

Lemma trim_start_app_cases a b :
  trim_start (a ++ b) = trim_start a ++ b \/
  trim_start a = [] /\ trim_start (a ++ b) = trim_start b.
Proof.
  induction a as [|c a IH]; [by right|]. unfold trim_start in *. simpl.
  destruct (is_whitespace c); [apply IH|by left].
Qed.

Lemma trim_start_white b : forallb is_whitespace b = true -> trim_start b = [].
Proof.
  intros Hb. rewrite <-(app_nil_r b). unfold trim_start. by rewrite trim_start_matches_app.
Qed.

Lemma trim_end_white a b : forallb is_whitespace b = true -> trim_end (a ++ b) = trim_end a.
Proof.
  intros Hb. unfold trim_end, trim_start. rewrite rev_app_distr, trim_start_matches_app; [done|].
  apply forallb_forall. intros c Hc%in_rev. rewrite forallb_forall in Hb. auto.
Qed.

(** White space around a text does not change its trimmed form. *)
Lemma trim_pad a m b :
  forallb is_whitespace a = true -> forallb is_whitespace b = true ->
  trim (a ++ m ++ b) = trim m.
Proof.
  intros Ha Hb. unfold trim. unfold trim_start at 1. rewrite trim_start_matches_app by done.
  fold (trim_start (m ++ b)).
  destruct (trim_start_app_cases m b) as [->|[Hm ->]]; [by apply trim_end_white|].
  by rewrite Hm, trim_start_white.
Qed.

(** [trim_end] cuts white space off the end. *)
Lemma trim_end_spec s :
  exists b, s = trim_end s ++ b /\ forallb is_whitespace b = true
    /\ match rev (trim_end s) with [] => True | c :: _ => is_whitespace c = false end.
Proof.
  unfold trim_end, trim_start.
  destruct (trim_start_matches_spec is_whitespace (rev s)) as (a & Hs & Ha & Hr).
  exists (rev a). rewrite <-rev_app_distr, <-Hs, rev_involutive. split; [done|]. split.
  - apply forallb_forall. intros c Hc%in_rev. rewrite forallb_forall in Ha. auto.
  - by rewrite rev_involutive.
Qed.

Lemma trim_trim_end s : trim (trim_end s) = trim s.
Proof.
  destruct (trim_end_spec s) as (b & Hs & Hb & _). rewrite Hs at 2.
  by rewrite <-(trim_pad [] (trim_end s) b).
Qed.

Lemma trim_end_app a b :
  trim_end b <> [] -> trim_end (a ++ b) = a ++ trim_end b.
Proof.
  intros Hb. unfold trim_end in *. rewrite rev_app_distr.
  destruct (trim_start_app_cases (rev b) (rev a)) as [->|[Hn _]].
  - by rewrite rev_app_distr, rev_involutive.
  - by rewrite Hn in Hb.
Qed.

(** Trimming only removes characters. *)
Lemma trim_Forall (P : char -> Prop) s : Forall P s -> Forall P (trim s).
Proof.
  intros Hs. unfold trim.
  destruct (trim_start_matches_spec is_whitespace s) as (a & Ha & _).
  destruct (trim_end_spec (trim_start s)) as (b & Hb & _).
  unfold trim_start in *. rewrite Ha, Hb in Hs. rewrite !Forall_app in Hs. tauto.
Qed.

(** A text between two characters that are not white space is trimmed to itself. *)
Lemma trim_wrapped (c d : char) (s : str) :
  is_whitespace c = false -> is_whitespace d = false ->
  trim (c :: s ++ [d]) = c :: s ++ [d].
Proof.
  intros Hc Hd. unfold trim, trim_end, trim_start. cbn [trim_start_matches]. rewrite Hc.
  change (c :: s ++ [d]) with ((c :: s) ++ [d]).
  rewrite rev_app_distr. cbn [rev app trim_start_matches]. rewrite Hd.
  change (d :: rev s ++ [c]) with ([d] ++ rev (c :: s)).
  by rewrite rev_app_distr, rev_involutive.
Qed.

Lemma byte_len_app (a b : str) : byte_len (a ++ b) = byte_len a + byte_len b.
Proof. induction a; simpl; lia. Qed.

Lemma utf16_len_app (a b : str) : utf16_len (a ++ b) = utf16_len a + utf16_len b.
Proof. induction a; simpl; lia. Qed.

Lemma utf8_width_pos (c : char) : 1 <= utf8_width c <= 4.
Proof. unfold utf8_width. crush_match; lia. Qed.

Lemma utf16_width_pos (c : char) : 1 <= utf16_width c <= 2.
Proof. unfold utf16_width. crush_match; lia. Qed.

Lemma length_le_byte_len (s : str) : length s <= byte_len s.
Proof. induction s as [|c s IH]; simpl; [lia|]. pose proof (utf8_width_pos c). lia. Qed.

(** Slicing at a byte offset succeeds exactly at a character boundary. *)
Lemma byte_prefix_Ret (n : nat) (s p : str) :
  byte_prefix n s = Ret p <-> exists r, s = p ++ r /\ byte_len p = n.
Proof.
  split.
  - revert n p; induction s as [|c s IH]; intros [|n] p; simpl; try done.
    + intros [= <-]. by exists [].
    + intros [= <-]. by exists (c :: s).
    + destruct (utf8_width c) as [|w] eqn:Ew.
      { pose proof (utf8_width_pos c). lia. }
      simpl. destruct (Nat.leb_spec w n) as [Hle|]; [|done].
      destruct (byte_prefix (n - w) s) as [p'|] eqn:E; [|done].
      intros [= <-]. apply IH in E as (r & -> & Hl).
      exists r. simpl. split; [done|]. lia.
  - intros (r & -> & <-). induction p as [|c p IH]; [by destruct r|].
    pose proof (utf8_width_pos c). change (byte_len (c :: p)) with (utf8_width c + byte_len p).
    destruct (utf8_width c + byte_len p) as [|n] eqn:En; [lia|].
    change (byte_prefix (S n) ((c :: p) ++ r)) with
      (if Nat.leb (utf8_width c) (S n) then
         match byte_prefix (S n - utf8_width c) (p ++ r) with
         | Ret q => Ret (c :: q) | Panic => Panic end
       else Panic).
    rewrite (proj2 (Nat.leb_le _ _)) by lia.
    replace (S n - utf8_width c) with (byte_len p) by lia. by rewrite IH.
Qed.

Lemma find_app {A} (f : A -> bool) (a b : list A) :
  List.find f (a ++ b)
  = match List.find f a with Some x => Some x | None => List.find f b end.
Proof. induction a as [|x a IH]; simpl; [done|]. by destruct (f x). Qed.

(** ** Lemmas on association lists and maps *)

Lemma assoc_get_Some_In {V} (k : str) (l : list (str * V)) v :
  assoc_get k l = Some v -> In (k, v) l.
Proof.
  induction l as [|[k' v'] l IH]; simpl; [done|].
  case_bool_decide; naive_solver.
Qed.

Lemma assoc_get_app {V} k (a b : list (str * V)) :
  assoc_get k (a ++ b) = match assoc_get k a with Some v => Some v | None => assoc_get k b end.
Proof. induction a as [|[k' v] a IH]; simpl; [done|]. by case_bool_decide. Qed.

Lemma assoc_get_None {V} (k : str) (l : list (str * V)) :
  assoc_get k l = None <-> ~ In k (map fst l).
Proof.
  induction l as [|[k' v'] l IH]; simpl; [naive_solver|].
  case_bool_decide; naive_solver.
Qed.

(** Insertions into an [IndexMap]. *)
Lemma index_insert_new {V} k (v : V) m : assoc_get k m = None -> index_insert k v m = m ++ [(k, v)].
Proof.
  induction m as [|[k' v'] m IH]; cbn [assoc_get index_insert]; [done|].
  case_bool_decide; [done|]. intros Hm. by rewrite IH.
Qed.
Lemma index_insert_keys {V} k (v : V) m :
  map fst (index_insert k v m) = if bool_decide (k ∈ map fst m) then map fst m else map fst m ++ [k].
Proof.
  induction m as [|[k' v'] m IH]; cbn [index_insert map].
  { rewrite bool_decide_false; [done|apply not_elem_of_nil]. }
  rewrite (bool_decide_ext (k ∈ _ :: _) (k = k' \/ k ∈ map fst m)) by apply elem_of_cons.
  destruct (decide (k = k')) as [->|Hne].
  - rewrite !bool_decide_true by tauto. done.
  - rewrite (bool_decide_false (k = k')) by done. cbn [map fst]. rewrite IH.
    destruct (decide (k ∈ map fst m)); [by rewrite !bool_decide_true by tauto|].
    by rewrite !bool_decide_false by tauto.
Qed.
Lemma index_insert_NoDup {V} k (v : V) m : NoDup (map fst m) -> NoDup (map fst (index_insert k v m)).
Proof.
  intros H. rewrite index_insert_keys. case_bool_decide; [done|]. apply NoDup_app.
  split_and!; [done| |apply NoDup_singleton]. by intros x Hx ->%list_elem_of_singleton.
Qed.
Lemma index_insert_get {V} k (v : V) m n :
  assoc_get n (index_insert k v m) = if bool_decide (n = k) then Some v else assoc_get n m.
Proof.
  induction m as [|[k' v'] m IH]; cbn [index_insert assoc_get]; [done|].
  destruct (decide (k = k')) as [->|Hne].
  - rewrite bool_decide_true by done. cbn [assoc_get]. by case_bool_decide.
  - rewrite (bool_decide_false (k = k')) by done. cbn [assoc_get]. rewrite IH.
    destruct (decide (n = k')) as [->|]; [|by rewrite (bool_decide_false (n = k'))].
    by rewrite bool_decide_true, bool_decide_false by done.
Qed.

#[export] Hint Resolve utf8_width_pos utf16_width_pos split_not_nil : har.
Create Rewrite HintDb har_rw.
#[export] Hint Rewrite byte_len_app utf16_len_app : har_rw.
