(* ===== verification/StdModel.v ===== *)
(** * The parts of the Rust standard library whose result is not determined

    A [HashMap] is a finite map whose iteration order is unspecified: the class
    [HashMapOrder] gives the order of one run, and theorems hold for every
    instance.  [str::to_lowercase] follows the Unicode tables: the class
    [UnicodeCase] gives what the code relies on, its action on ASCII text. *)

From S2P Require Import Prelude.

(** [std::io]: the kinds of error the code tells apart, the rest by its two texts, and
    the errors, whose text is what the system says. *)
Module io.
Inductive ErrorKind : Type :=
| NotFound
| PermissionDenied
| IsADirectory
| OtherKind (debug description : str).
Definition kind_debug (k : ErrorKind) : str :=
  match k with
  | NotFound => lit "NotFound"
  | PermissionDenied => lit "PermissionDenied"
  | IsADirectory => lit "IsADirectory"
  | OtherKind debug _ => debug
  end.
Definition kind_display (k : ErrorKind) : str :=
  match k with
  | NotFound => lit "entity not found"
  | PermissionDenied => lit "permission denied"
  | IsADirectory => lit "is a directory"
  | OtherKind _ description => description
  end.
Record Error : Type := mk_Error { kind : ErrorKind; text : str }.
Definition is_not_found (e : Error) : bool :=
  match kind e with NotFound => true | _ => false end.
Definition is_dir_error (e : Error) : bool :=
  match kind e with IsADirectory => true | _ => false end.
End io.

(** What [std::env::set_var] and [std::env::remove_var] accept as the name of a variable,
    and the former as its value: they panic at anything else. *)
Definition settable_name (k : str) : bool :=
  negb (is_empty k) && forallb (fun c => negb (c =? 61)%N && negb (c =? 0)%N) k.
Definition settable_value (v : str) : bool := forallb (fun c => negb (c =? 0)%N) v.

Class HashMapOrder : Type := {
  hm_iter : forall {A : Type}, gmap str A -> list (str * A);
  hm_iter_perm : forall {A : Type} (m : gmap str A), hm_iter m ≡ₚ map_to_list m;
}.

#[export] Program Instance canonical_order : HashMapOrder :=
  {| hm_iter := fun A m => map_to_list m |}.
Solve Obligations with done.

Lemma hm_iter_elem `{HashMapOrder} {A} (m : gmap str A) k v :
  (k, v) ∈ hm_iter m <-> m !! k = Some v.
Proof. rewrite hm_iter_perm. apply elem_of_map_to_list. Qed.

Lemma hm_iter_NoDup `{HashMapOrder} {A} (m : gmap str A) : NoDup (hm_iter m).*1.
Proof. rewrite hm_iter_perm. apply NoDup_fst_map_to_list. Qed.

Lemma hm_iter_empty `{HashMapOrder} {A} : hm_iter (∅ : gmap str A) = [].
Proof. apply Permutation_nil. symmetry. rewrite hm_iter_perm. by rewrite map_to_list_empty. Qed.

Class UnicodeCase : Type := {
  to_lowercase : str -> str;
  (** ASCII characters are lowered one by one, whatever stands around them. *)
  to_lowercase_ascii_infix : forall a p b,
    forallb is_ascii p = true ->
    exists a' b', to_lowercase (a ++ p ++ b) = a' ++ map to_ascii_lowercase p ++ b';
  (** Text that is all ASCII becomes its ASCII lower case. *)
  to_lowercase_ascii : forall p,
    forallb is_ascii p = true -> to_lowercase p = map to_ascii_lowercase p;
}.

(** Lower case of the ASCII letters only. *)
#[export] Program Instance ascii_case : UnicodeCase :=
  {| to_lowercase := map to_ascii_lowercase |}.
Next Obligation.
  intros a p b _. exists (map to_ascii_lowercase a), (map to_ascii_lowercase b).
  by rewrite !map_app.
Qed.
Next Obligation. done. Qed.

(** Looking a key up in the iterated entries is looking it up in the map. *)
Lemma assoc_get_hm_iter `{HashMapOrder} {A} (m : gmap str A) k :
  assoc_get k (hm_iter m) = m !! k.
Proof.
  destruct (assoc_get k (hm_iter m)) as [v|] eqn:E.
  - apply assoc_get_Some_In in E. rewrite <-list_elem_of_In, hm_iter_elem in E. done.
  - apply assoc_get_None in E. symmetry. apply eq_None_not_Some. intros [v Hv].
    apply hm_iter_elem in Hv. apply E. rewrite <-list_elem_of_In.
    change k with (k, v).1. by apply list_elem_of_fmap_2.
Qed.

(** ** [slice::sort] on strings: the lexicographic order of their characters,
    which is the order of their UTF-8 bytes. *)
Fixpoint str_leb (a b : str) : bool :=
  match a, b with
  | [], _ => true
  | _ :: _, [] => false
  | x :: a', y :: b' => if (x <? y)%N then true else if (x =? y)%N then str_leb a' b' else false
  end.

Lemma str_leb_total a b : str_leb a b = true \/ str_leb b a = true.
Proof.
  revert b; induction a as [|x a IH]; intros [|y b]; simpl; auto.
  destruct (N.ltb_spec x y); [auto|]. destruct (N.ltb_spec y x); [auto|].
  assert (x = y) as -> by lia. rewrite N.eqb_refl. auto.
Qed.

Lemma str_leb_antisym a b : str_leb a b = true -> str_leb b a = true -> a = b.
Proof.
  revert b; induction a as [|x a IH]; intros [|y b]; simpl; try done.
  destruct (N.ltb_spec x y), (N.ltb_spec y x); try lia;
    destruct (N.eqb_spec x y), (N.eqb_spec y x); try done; try lia.
  intros. subst. f_equal. by apply IH.
Qed.

Lemma str_leb_trans a b c : str_leb a b = true -> str_leb b c = true -> str_leb a c = true.
Proof.
  revert b c; induction a as [|x a IH]; intros [|y b] [|z c]; simpl; try done.
  destruct (N.ltb_spec x y), (N.ltb_spec y z), (N.ltb_spec x z);
    destruct (N.eqb_spec x y), (N.eqb_spec y z), (N.eqb_spec x z); try done; try lia.
  apply IH.
Qed.

Definition str_le (a b : str) : Prop := str_leb a b = true.
#[export] Instance str_le_dec : RelDecision str_le.
Proof. intros a b. unfold str_le. apply _. Defined.
#[export] Instance str_le_total : Total str_le.
Proof. intros a b. apply str_leb_total. Qed.
#[export] Instance str_le_trans : Transitive str_le.
Proof. intros a b c. apply str_leb_trans. Qed.
#[export] Instance str_le_antisym : AntiSymm (=) str_le.
Proof. intros a b. apply str_leb_antisym. Qed.

Definition sort_strings (l : list str) : list str := merge_sort str_le l.

(** The sorted list depends on the elements only. *)
Lemma sort_strings_perm l1 l2 : l1 ≡ₚ l2 -> sort_strings l1 = sort_strings l2.
Proof.
  intros Hp. unfold sort_strings. apply (StronglySorted_unique str_le).
  - apply (StronglySorted_merge_sort _).
  - apply (StronglySorted_merge_sort _).
  - rewrite !merge_sort_Permutation. done.
Qed.

(** [str::split_whitespace], after the start of a word. *)
Definition word_of (word : str) : list str := if is_empty word then [] else [word].
Fixpoint words_after (word s : str) : list str :=
  match s with
  | [] => word_of word
  | c :: s => if is_whitespace c then word_of word ++ words_after [] s else words_after (word ++ [c]) s
  end.
Definition split_whitespace (s : str) : list str := words_after [] s.
