(* ===== verification/Float64.v ===== *)
(** * Rust's [f64]

    Binary64 numbers are the [spec_float] of the Standard Library, at precision
    53 and maximal exponent 1024.  The file gives the operations of the Rust
    standard library the source uses: conversion from a decimal literal
    (correctly rounded, to nearest, ties to even), comparisons, finiteness,
    addition, and the saturating [as u64] cast. *)

From S2P Require Import Prelude.
From Stdlib Require Import Floats.SpecFloat.

Abbreviation f64 := spec_float.

#[export] Instance f64_eq_dec : EqDecision f64.
Proof. solve_decision. Defined.

Definition prec : Z := 53.
Definition emax : Z := 1024.

Definition f64_nan : f64 := S754_nan.
Definition f64_infinity : f64 := S754_infinity false.
Definition f64_neg_infinity : f64 := S754_infinity true.
Definition f64_zero : f64 := S754_zero false.

(** The double nearest to [(-1)^neg * m * 10^e]. *)
Definition f64_of_decimal (neg : bool) (m : N) (e : Z) : f64 :=
  match m with
  | N0 => S754_zero neg
  | Npos p =>
      if (0 <=? e)%Z then
        match (Z.pos p * 10 ^ e)%Z with
        | Zpos q => binary_round prec emax neg q 0
        | _ => S754_zero neg
        end
      else
        let '(mz, ez, lz) := SFdiv_core_binary prec emax (Zpos p) 0 (10 ^ (- e))%Z 0 in
        binary_round_aux prec emax neg mz ez lz
  end.

(** The syntax of [f64::from_str]: an optional sign, digits with an optional
    point, an optional exponent; or one of three words, in any case. *)
Fixpoint span_digits (s : str) : str * str :=
  match s with
  | c :: s' =>
      if is_ascii_digit c then let '(d, r) := span_digits s' in (c :: d, r) else ([], s)
  | [] => ([], [])
  end.
Definition opt_sign (s : str) : str * str :=
  match s with
  | c :: s' => if ((c =? 43) || (c =? 45))%N then ([c], s') else ([], s)
  | [] => ([], [])
  end.
Definition digits_value (d : str) : N := foldl (fun a c => (10 * a + (c - 48))%N) 0%N d.
Definition is_minus (sgn : str) : bool := str_eqb sgn (lit "-").
Definition signed (neg : bool) (n : N) : Z := if neg then (- Z.of_N n)%Z else Z.of_N n.

(** The exponent part, and what follows it; [None] when it is malformed. *)
Definition parse_exponent (s : str) : option Z :=
  match s with
  | [] => Some 0%Z
  | c :: r =>
      if ((c =? 101) || (c =? 69))%N then
        let '(sgn, r1) := opt_sign r in
        let '(d, r2) := span_digits r1 in
        if negb (is_empty d) && is_empty r2
        then Some (signed (is_minus sgn) (digits_value d)) else None
      else None
  end.

Definition f64_words : list (str * f64) :=
  [(lit "inf", f64_infinity); (lit "infinity", f64_infinity); (lit "nan", f64_nan)].
Definition f64_negate (neg : bool) (x : f64) : f64 := if neg then SFopp x else x.

Definition f64_from_str (s : str) : option f64 :=
  let '(sgn, s1) := opt_sign s in
  match assoc_get (map to_ascii_lowercase s1) f64_words with
  | Some x => Some (f64_negate (is_minus sgn) x)
  | None =>
      let '(d1, r1) := span_digits s1 in
      let '(d2, r2) :=
        match r1 with
        | c :: r => if (c =? 46)%N then span_digits r else ([], r1)
        | [] => ([], [])
        end in
      if is_empty (d1 ++ d2) then None
      else
        e ← parse_exponent r2;
        Some (f64_of_decimal (is_minus sgn) (digits_value (d1 ++ d2))
                (e - Z.of_nat (length d2)))
  end.

(** [x as f64] for an integer [x]. *)
Definition f64_of_Z (z : Z) : f64 := binary_normalize prec emax z 0 false.

Definition f64_ltb (x y : f64) : bool := SFltb x y.
Definition f64_leb (x y : f64) : bool := SFleb x y.
Definition f64_eqb (x y : f64) : bool := SFeqb x y.
Definition f64_add (x y : f64) : f64 := SFadd prec emax x y.

Definition f64_is_finite (x : f64) : bool :=
  match x with
  | S754_zero _ | S754_finite _ _ _ => true
  | S754_infinity _ | S754_nan => false
  end.

(** [x as u64]: truncation towards zero, saturating, [NaN] to 0. *)
Definition f64_to_u64 (x : f64) : N :=
  match x with
  | S754_nan | S754_zero _ => 0%N
  | S754_infinity s => if s then 0%N else u64_max
  | S754_finite true _ _ => 0%N
  | S754_finite false m e =>
      N.min u64_max
        (match e with
         | Z0 => Npos m
         | Zpos p => N.shiftl (Npos m) (Npos p)
         | Zneg p => N.shiftr (Npos m) (Npos p)
         end)
  end.

Definition f64_to_u32 (x : f64) : N := N.min u32_max (f64_to_u64 x).

(** [x.fract() == 0.0]; the fraction of an infinity is [NaN]. *)
Definition f64_is_integer (x : f64) : bool :=
  match x with
  | S754_zero _ => true
  | S754_finite _ m e => (0 <=? e)%Z || (Zpos m mod 2 ^ (- e) =? 0)%Z
  | S754_infinity _ | S754_nan => false
  end.

(** [f64_ltb] and [f64_leb] are false on [NaN]. *)
(** Comparing the other way round. *)
Lemma SFcompare_swap x y : SFcompare y x = CompOpp <$> SFcompare x y.
Proof.
  destruct x as [[]|[]| |[] m1 e1], y as [[]|[]| |[] m2 e2]; try reflexivity; simpl;
    rewrite (Z.compare_antisym e1 e2); destruct (e1 ?= e2)%Z; simpl; try reflexivity;
    change (Pos.compare_cont Eq m2 m1) with (m2 ?= m1)%positive;
    change (Pos.compare_cont Eq m1 m2) with (m1 ?= m2)%positive;
    by rewrite (Pos.compare_antisym m1 m2).
Qed.

Lemma f64_leb_nan_l x : f64_leb f64_nan x = false.
Proof. done. Qed.

Lemma f64_leb_nan_r x : f64_leb x f64_nan = false.
Proof. by destruct x. Qed.

Lemma f64_ltb_nan_l x : f64_ltb f64_nan x = false.
Proof. done. Qed.

Lemma f64_ltb_nan_r x : f64_ltb x f64_nan = false.
Proof. by destruct x. Qed.

(** A positive number is not [<= 0], and the other way round for numbers. *)
Definition f64_positive (x : f64) : bool :=
  match x with
  | S754_infinity s => negb s
  | S754_finite s _ _ => negb s
  | S754_zero _ | S754_nan => false
  end.

Lemma f64_leb_zero (x : f64) :
  f64_leb x f64_zero = negb (f64_positive x) && negb (bool_decide (x = f64_nan)).
Proof. destruct x as [s|s| |s m e]; try destruct s; reflexivity. Qed.

Lemma f64_to_u64_bound (x : f64) : (f64_to_u64 x <= u64_max)%N.
Proof.
  destruct x as [s|[]| |[] m e]; simpl;
    first [apply N.le_0_l | apply N.le_refl | apply N.le_min_l].
Qed.

(** ** Integers are exact up to 2^53 *)

Lemma digits2_lower p : (2 ^ (Z.pos (digits2_pos p) - 1) <= Z.pos p)%Z.
Proof.
  induction p as [p IH|p IH|]; cbn [digits2_pos]; [..|done];
    rewrite Pos2Z.inj_succ; replace (Z.succ (Z.pos (digits2_pos p)) - 1)%Z
      with (Z.succ (Z.pos (digits2_pos p) - 1)) by lia; rewrite Z.pow_succ_r by lia; lia.
Qed.
Lemma digits2_bound p : (Z.pos p < 2 ^ 53)%Z -> (Z.pos (digits2_pos p) <= 53)%Z.
Proof.
  intros Hp. pose proof (digits2_lower p) as Hl.
  destruct (Z.le_gt_cases (Z.pos (digits2_pos p)) 53) as [|Hgt]; [done|].
  pose proof (Z.pow_le_mono_r 2 53 (Z.pos (digits2_pos p) - 1) ltac:(lia) ltac:(lia)). lia.
Qed.
Lemma digits2_shift p q : digits2_pos (Pos.iter xO p q) = (digits2_pos p + q)%positive.
Proof. induction q as [|q IH] using Pos.peano_ind; [cbn; lia|]. rewrite Pos.iter_succ. cbn. lia. Qed.
Lemma pos_shift p q : N.pos (Pos.iter xO p q) = N.shiftl (N.pos p) (N.pos q).
Proof.
  induction q as [|q IH] using Pos.peano_ind; [done|]. rewrite Pos.iter_succ.
  change (N.pos (Pos.iter xO p q)~0) with (2 * N.pos (Pos.iter xO p q))%N. rewrite IH.
  rewrite !N.shiftl_mul_pow2. replace (N.pos (Pos.succ q)) with (N.succ (N.pos q)) by lia.
  rewrite N.pow_succ_r'. lia.
Qed.

(** A mantissa of 53 digits is not rounded. *)
Lemma binary_round_aux_full m e :
  digits2_pos m = 53%positive -> (-1074 <= e <= 971)%Z ->
  binary_round_aux prec emax false (Z.pos m) e loc_Exact = S754_finite false m e.
Proof.
  intros Hm He. assert (fexp prec emax (53 + e) - e = 0)%Z as Hexp.
  { unfold fexp, emin, prec, emax. lia. }
  unfold binary_round_aux, shr_fexp. cbn [Zdigits2]. rewrite Hm, Hexp. cbn [shr shr_record_of_loc shr_m
    loc_of_shr_record round_nearest_even Zdigits2]. rewrite Hm, Hexp. cbn [shr shr_record_of_loc shr_m].
  replace (e <=? emax - prec)%Z with true; [done|]. symmetry. apply Z.leb_le. unfold emax, prec. lia.
Qed.

(** Casting an integer of at most 53 bits to [f64] and back. *)
Lemma f64_to_u64_of_Z n : (n < 2 ^ 53)%N -> f64_to_u64 (f64_of_Z (Z.of_N n)) = n.
Proof.
  destruct n as [|p]; [done|]. intros Hp. assert (Z.pos p < 2 ^ 53)%Z as Hz by lia.
  apply digits2_bound in Hz. assert (N.pos p <= u64_max)%N as Hmax by (unfold u64_max in *; lia).
  unfold f64_of_Z. cbn [Z.of_N binary_normalize]. unfold binary_round, shl_align.
  assert (fexp prec emax (Z.pos (digits2_pos p) + 0) - 0 = Z.pos (digits2_pos p) - 53)%Z as ->
    by (unfold fexp, emin, prec, emax; lia).
  assert (fexp prec emax (Z.pos (digits2_pos p) + 0) = Z.pos (digits2_pos p) - 53)%Z as ->
    by (unfold fexp, emin, prec, emax; lia).
  destruct (Z.pos (digits2_pos p) - 53)%Z as [|q|q] eqn:Hd; [|lia|].
  - rewrite binary_round_aux_full by lia. cbn [f64_to_u64]. lia.
  - rewrite binary_round_aux_full; [|rewrite digits2_shift; lia|lia]. cbn [f64_to_u64].
    rewrite pos_shift, N.shiftr_shiftl_l by lia. rewrite N.sub_diag, N.shiftl_0_r. lia.
Qed.

Example dec_1_5 : f64_of_decimal false 15 (-1) = S754_finite false 6755399441055744 (-52).
Proof. by_compute. Qed.
Example dec_0_1 : f64_of_decimal false 1 (-1) = S754_finite false 7205759403792794 (-56).
Proof. by_compute. Qed.
Example dec_big : f64_of_decimal false 9007199254740993 0 = f64_of_Z 9007199254740992.
Proof. by_compute. Qed.
Example cast_1500_5 : f64_to_u64 (f64_of_decimal false 15005 (-1)) = 1500%N.
Proof. by_compute. Qed.

(** ** Decimal literals *)

Definition all_digits (d : str) : bool := forallb is_ascii_digit d.
Definition stops_digits (s : str) : bool :=
  match s with c :: _ => negb (is_ascii_digit c) | [] => true end.

Lemma span_digits_app d r :
  all_digits d = true -> stops_digits r = true -> span_digits (d ++ r) = (d, r).
Proof.
  induction d as [|c d IH]; simpl.
  - intros _. destruct r as [|c r]; [done|]. simpl. by destruct (is_ascii_digit c).
  - intros [Hc Hd]%andb_prop Hr. by rewrite Hc, IH.
Qed.

Lemma span_digits_spec s :
  let '(d, r) := span_digits s in
  s = d ++ r /\ all_digits d = true /\ stops_digits r = true.
Proof.
  induction s as [|c s IH]; simpl; [done|].
  destruct (is_ascii_digit c) eqn:Hc.
  - destruct (span_digits s) as [d r]. destruct IH as (-> & Hd & Hr).
    simpl. by rewrite Hc, Hd.
  - simpl. by rewrite Hc.
Qed.

(** No longer prefix is made of digits. *)
Lemma span_digits_longest d r s1 s2 :
  span_digits (s1 ++ s2) = (d, r) -> all_digits s1 = true -> length s1 <= length d.
Proof.
  revert d; induction s1 as [|c s1 IH]; intros d; simpl; [lia|].
  intros Hs [Hc H1]%andb_prop. rewrite Hc in Hs.
  destruct (span_digits (s1 ++ s2)) as [d' r'] eqn:E. injection Hs as <- <-.
  simpl. specialize (IH d' eq_refl H1). lia.
Qed.

(** The grammar: a sign, digits with an optional point, an exponent. *)
Definition sign_text (s : str) : Prop := s = [] \/ s = [43%N] \/ s = [45%N].
Definition digits_text (d : str) : Prop := d <> [] /\ all_digits d = true.
Inductive mantissa_text : str -> Prop :=
| mt_int d : digits_text d -> mantissa_text d
| mt_point d d2 : digits_text d -> all_digits d2 = true -> mantissa_text (d ++ 46%N :: d2)
| mt_frac d : digits_text d -> mantissa_text (46%N :: d).
Definition exponent_mark (c : char) : Prop := c = 101%N \/ c = 69%N.
Inductive exponent_text : str -> Prop :=
| et_none : exponent_text []
| et_some c sgn d :
    exponent_mark c -> sign_text sgn -> digits_text d -> exponent_text (c :: sgn ++ d).
Inductive numeral : str -> Prop :=
| numeral_intro sgn m e :
    sign_text sgn -> mantissa_text m -> exponent_text e -> numeral (sgn ++ m ++ e).

Lemma opt_sign_app sgn s :
  sign_text sgn -> (forall c s', s = c :: s' -> c <> 43%N /\ c <> 45%N) ->
  opt_sign (sgn ++ s) = (sgn, s).
Proof.
  intros Hs Hn. destruct Hs as [->|[-> | ->]]; [|done|done]. simpl.
  destruct s as [|c s]; [done|]. destruct (Hn c s eq_refl) as [H1 H2]. simpl.
  apply N.eqb_neq in H1 as ->. by apply N.eqb_neq in H2 as ->.
Qed.

Lemma opt_sign_spec s : let '(sgn, r) := opt_sign s in s = sgn ++ r /\ sign_text sgn.
Proof.
  unfold sign_text. destruct s as [|c s]; simpl; [auto|].
  destruct (N.eqb_spec c 43) as [->|]; simpl; [auto|].
  destruct (N.eqb_spec c 45) as [->|]; simpl; auto.
Qed.

Lemma digit_not_special c :
  is_ascii_digit c = true -> c <> 43%N /\ c <> 45%N /\ c <> 46%N /\ c <> 101%N /\ c <> 69%N.
Proof. unfold is_ascii_digit, in_range. intros [H1%N.leb_le H2%N.leb_le]%andb_prop. lia. Qed.

Lemma digits_text_cons d : digits_text d ->
  exists c d', d = c :: d' /\ is_ascii_digit c = true /\ all_digits d' = true.
Proof.
  intros [Hne Hd]. destruct d as [|c d']; [done|]. simpl in Hd.
  apply andb_prop in Hd as [Hc Hd]. eauto.
Qed.

(** A mantissa starts with a digit or a point. *)
Lemma mantissa_head m :
  mantissa_text m -> exists c m', m = c :: m' /\ c <> 43%N /\ c <> 45%N
    /\ (c = 46%N \/ is_ascii_digit c = true).
Proof.
  intros [d Hd|d d2 Hd _|d _]; [..|by exists 46%N, d; split_and!; auto].
  all: apply digits_text_cons in Hd as (c & d' & -> & Hc & _);
    destruct (digit_not_special c Hc) as (? & ? & ?); simpl; eauto 10.
Qed.

(** Every numeral is accepted by [f64::from_str]. *)
Lemma parse_exponent_text e : exponent_text e -> exists z, parse_exponent e = Some z.
Proof.
  intros [|c sgn d Hc Hs [Hne Hd]]; [by eexists|]. simpl.
  replace ((c =? 101)%N || (c =? 69)%N) with true by (by destruct Hc as [-> | ->]).
  rewrite opt_sign_app; [|done|].
  - rewrite <-(app_nil_r d), span_digits_app by done. destruct d; [done|]. simpl. by eexists.
  - intros x s' ->. simpl in Hd. apply andb_prop in Hd as [Hx _].
    destruct (digit_not_special x Hx) as (? & ? & _). done.
Qed.

Lemma exponent_stops e : exponent_text e -> stops_digits e = true.
Proof. by intros [|c sgn d [-> | ->] _ _]. Qed.

Lemma f64_from_str_numeral s : numeral s -> exists x, f64_from_str s = Some x.
Proof.
  intros [sgn m e Hs Hm He]. unfold f64_from_str.
  rewrite opt_sign_app; [|done|].
  2:{ intros c s'. destruct (mantissa_head m Hm) as (x & m' & -> & ? & ? & _). simpl.
      by intros [= <- _]. }
  destruct (assoc_get _ _); [by eexists|].
  assert (exists d1 d2 r1, span_digits (m ++ e) = (d1, r1) /\ d1 ++ d2 <> [] /\
    match r1 with c :: r => if (c =? 46)%N then span_digits r else ([], r1)
             | [] => ([], []) end = (d2, e)) as (d1 & d2 & r1 & -> & Hne & ->).
  { pose proof (exponent_stops e He) as Hst. destruct Hm as [d [Hne Hd]|d d2 [Hne Hd] H2|d [Hne Hd]].
    - exists d, [], e. rewrite span_digits_app by done. split; [done|].
      split; [by rewrite app_nil_r|]. destruct He as [|c ? ? [-> | ->]]; done.
    - exists d, d2, (46%N :: d2 ++ e). rewrite <-app_assoc. simpl.
      rewrite span_digits_app by done. split; [done|]. split; [by destruct d|].
      by rewrite span_digits_app.
    - exists [], d, (46%N :: d ++ e). simpl. split; [done|]. split; [done|].
      by rewrite span_digits_app. }
  destruct (d1 ++ d2); [done|]. simpl.
  destruct (parse_exponent_text e He) as [z ->]. simpl. by eexists.
Qed.

(** ** Decimal numbers read back *)

Lemma digits_value_app a b :
  digits_value (a ++ b) = (digits_value a * 10 ^ N.of_nat (length b) + digits_value b)%N.
Proof.
  unfold digits_value. rewrite foldl_app. generalize (foldl (fun x c => (10 * x + (c - 48))%N) 0%N a).
  induction b as [|c b IH] using rev_ind; intros x; [simpl; lia|].
  rewrite !foldl_app, IH. cbn [foldl]. rewrite length_app. cbn [length].
  rewrite Nat2N.inj_add, N.pow_add_r. change (10 ^ N.of_nat 1)%N with 10%N. lia.
Qed.
Lemma all_digits_app a b : all_digits (a ++ b) = all_digits a && all_digits b.
Proof. apply forallb_app. Qed.

Lemma digits_fuel_spec n x acc :
  (x < 10 ^ N.of_nat n)%N ->
  exists d, digits_fuel n x acc = d ++ acc /\ all_digits d = true /\ digits_value d = x
            /\ (0 < n -> d <> []).
Proof.
  revert x acc. induction n as [|n IH]; intros x acc Hx.
  { change (10 ^ N.of_nat 0)%N with 1%N in Hx. exists []. repeat split; [cbn; lia|lia]. }
  assert (is_ascii_digit (48 + x mod 10)%N = true) as Hd.
  { pose proof (N.mod_lt x 10 ltac:(done)) as Hm. revert Hm. generalize (x mod 10)%N as m.
    intros m Hm. unfold is_ascii_digit, in_range.
    apply andb_true_intro. split; apply N.leb_le; lia. }
  cbn [digits_fuel]. destruct (N.ltb_spec x 10) as [Hlt|Hge].
  - exists [(48 + x mod 10)%N]. rewrite N.mod_small in * by lia. split; [done|].
    unfold all_digits, digits_value. cbn [forallb foldl]. rewrite Hd. repeat split; [lia|done].
  - destruct (IH (x / 10)%N ((48 + x mod 10)%N :: acc)) as (d & -> & Hall & Hval & Hne).
    { apply N.Div0.div_lt_upper_bound. rewrite Nat2N.inj_succ, N.pow_succ_r' in Hx. lia. }
    exists (d ++ [(48 + x mod 10)%N]). rewrite <- app_assoc. split; [done|].
    rewrite all_digits_app, Hall, digits_value_app, Hval. unfold digits_value, all_digits.
    cbn [forallb foldl length]. rewrite Hd. split; [done|]. split; [|by destruct d].
    change (10 ^ N.of_nat 1)%N with 10%N. pose proof (N.div_mod x 10 ltac:(done)) as Hdm.
    rewrite Hdm at 3. generalize (x / 10)%N (x mod 10)%N. clear. lia.
Qed.
Lemma show_N_spec x :
  all_digits (show_N x) = true /\ digits_value (show_N x) = x /\ show_N x <> [].
Proof.
  unfold show_N. destruct (digits_fuel_spec (S (N.to_nat (N.log2 x))) x []) as (d & -> & Ha & Hv & Hne).
  - rewrite Nat2N.inj_succ, N2Nat.id.
    destruct (N.eq_dec x 0%N) as [->|Hx]; [done|].
    pose proof (N.log2_spec x ltac:(lia)) as [_ H2]. eapply N.lt_le_trans; [exact H2|].
    apply N.pow_le_mono_l. lia.
  - rewrite app_nil_r. split_and!; [done|done|apply Hne; lia].
Qed.
