(* ===== verification/Json.v ===== *)
(** * JSON values

    The data type of [serde_json::Value], with the [preserve_order] feature the
    workspace selects: an object is the list of its entries in insertion order.
    The parser and the printer of [serde_json] are not part of the repository;
    they are the operations of the class [SerdeJson], with the documented laws
    the code relies on. *)

From S2P Require Import Prelude Float64.

Inductive number : Type :=
| PosInt (n : N)
| NegInt (z : Z)
| Float (x : f64).

Inductive value : Type :=
| Null
| Bool (b : bool)
| Number (n : number)
| String (s : str)
| Array (l : list value)
| Object (l : list (str * value)).

Abbreviation object := (list (str * value)).

#[export] Instance number_eq_dec : EqDecision number.
Proof. solve_decision. Defined.

(** Equality of documents, order of entries included. *)
#[export] Instance value_eq_dec : EqDecision value.
Proof.
  refine (fix go a b {struct a} : Decision (a = b) :=
    match a, b with
    | Null, Null => left eq_refl
    | Bool x, Bool y => cast_if (decide (x = y))
    | Number x, Number y => cast_if (decide (x = y))
    | String x, String y => cast_if (decide (x = y))
    | Array l, Array m => cast_if ((fix go_list l m : Decision (l = m) :=
        match l, m with
        | [], [] => left eq_refl
        | x :: l, y :: m => cast_if_and (go x y) (go_list l m)
        | _, _ => right _
        end) l m)
    | Object l, Object m => cast_if ((fix go_list l m : Decision (l = m) :=
        match l, m with
        | [], [] => left eq_refl
        | (k, x) :: l, (k', y) :: m => cast_if_and3 (decide (k = k')) (go x y) (go_list l m)
        | _, _ => right _
        end) l m)
    | _, _ => right _
    end); clear go; congruence.
Defined.

(** [Value::as_object], [Value::as_str], [Value::get] on a string key. *)
Definition as_object (v : value) : option object :=
  match v with Object l => Some l | _ => None end.
Definition as_str (v : value) : option str :=
  match v with String s => Some s | _ => None end.
Definition value_get (k : str) (v : value) : option value :=
  match v with Object l => assoc_get k l | _ => None end.

(** [Value::as_array], [Value::as_bool], [Value::as_f64], [Value::as_u64],
    [Value::as_i64]. *)
Definition as_array (v : value) : option (list value) :=
  match v with Array l => Some l | _ => None end.
Definition as_bool (v : value) : option bool :=
  match v with Bool b => Some b | _ => None end.
Definition value_as_f64 (v : value) : option f64 :=
  match v with
  | Number (PosInt n) => Some (f64_of_Z (Z.of_N n))
  | Number (NegInt z) => Some (f64_of_Z z)
  | Number (Float x) => Some x
  | _ => None
  end.
Definition as_u64 (v : value) : option N :=
  match v with Number (PosInt n) => Some n | _ => None end.
Definition value_as_i64 (v : value) : option Z :=
  match v with
  | Number (PosInt n) => if (n <? 2 ^ 63)%N then Some (Z.of_N n) else None
  | Number (NegInt z) => Some z
  | _ => None
  end.
Definition is_null (v : value) : bool := match v with Null => true | _ => false end.

(** A text of an object, and an entry under a literal key. *)
Definition obj_str (k : string) (o : object) : option str := assoc_get (lit k) o ≫= as_str.
Definition key (k : string) (v : value) : str * value := (lit k, v).

(** Induction that reaches into arrays and objects. *)
Section ValueInd.
Context (P : value -> Prop).
Hypothesis (HNull : P Null) (HBool : forall b, P (Bool b)) (HNumber : forall n, P (Number n))
  (HString : forall s, P (String s)) (HArray : forall l, Forall P l -> P (Array l))
  (HObject : forall o, Forall (fun e => P (snd e)) o -> P (Object o)).
Fixpoint value_nested_ind (v : value) : P v :=
  match v with
  | Null => HNull
  | Bool b => HBool b
  | Number n => HNumber n
  | String s => HString s
  | Array l =>
      HArray l ((fix go l := match l return Forall P l with
                             | [] => Forall_nil_2 _
                             | v :: l => Forall_cons_2 _ _ _ (value_nested_ind v) (go l)
                             end) l)
  | Object o =>
      HObject o ((fix go o := match o return Forall (fun e => P (snd e)) o with
                              | [] => Forall_nil_2 _
                              | e :: o => Forall_cons_2 _ _ _ (value_nested_ind (snd e)) (go o)
                              end) o)
  end.
End ValueInd.

(** [serde_json::from_str], [serde_json::to_string] and [Number::to_string]. *)
Class SerdeJson : Type := {
  from_str : str -> option value;
  to_string : value -> str;
  number_to_string : number -> str;
  (** No JSON text is empty. *)
  from_str_empty : from_str [] = None;
  (** The literals. *)
  to_string_null : to_string Null = lit "null";
}.

(** A parser and a printer that know a finite table of documents: the concrete
    instance the examples evaluate. *)
Program Definition table_json (docs : list (str * value)) : SerdeJson := {|
  from_str := fun s => if is_empty s then None else assoc_get s docs;
  to_string := fun v =>
    match v with Null => lit "null" | Bool b => show_bool b | String s => s | _ => [] end;
  number_to_string := fun n =>
    match n with PosInt n => show_N n | NegInt z => lit "-" ++ show_N (Z.to_N (- z)) | Float _ => [] end;
|}.
Solve Obligations with done.
