(* ===== verification/Regex.v ===== *)
(** * Regular expressions

    The patterns of the source are data of type [regex]; the engine that runs
    them (the [regex] crate) is the operation of the class [RegexEngine].  Its
    law is the crate's documented leftmost-first semantics: of the matches that
    start leftmost, the one a backtracking search that tries alternatives in
    order would find first, a greedy repetition preferring one more iteration
    and a lazy one preferring to stop. *)

From S2P Require Import Prelude.

Inductive regex : Type :=
| REps
| RClass (f : char -> bool)
| RSeq (r1 r2 : regex)
| RAlt (r1 r2 : regex)
| RStar (greedy : bool) (r : regex)
| RGroup (n : nat) (r : regex)
| RBos
| REos
| RBol
| REol.

(** Concrete syntax the patterns are written with. *)
Definition RChar (c : char) : regex := RClass (fun d => (c =? d)%N).
Definition RStr (s : str) : regex := foldr (fun c r => RSeq (RChar c) r) REps s.
Definition ROpt (r : regex) : regex := RAlt r REps.
Definition RPlus (r : regex) : regex := RSeq r (RStar true r).
Fixpoint RSeqs (l : list regex) : regex :=
  match l with [] => REps | [r] => r | r :: l' => RSeq r (RSeqs l') end.
Fixpoint RAlts (l : list regex) : regex :=
  match l with [] => REps | [r] => r | r :: l' => RAlt r (RAlts l') end.

(** [[a-zA-Z_]], [[a-zA-Z0-9_]] and [[a-zA-Z0-9_-]]. *)
Definition ident_start (c : char) : bool := is_ascii_alphabetic c || (c =? 95)%N.
Definition ident_char (c : char) : bool := is_ascii_alphanumeric c || (c =? 95)%N.
Definition ident_char_hyphen (c : char) : bool := ident_char c || (c =? 45)%N.

(** ** The documented semantics *)

(** A point of the search: the text before it (reversed), the text after it,
    and the groups captured so far, latest first. *)
Record point : Type := mk_point {
  p_before : str;
  p_rest : str;
  p_groups : list (nat * str);
}.

Definition at_bol (before : str) : bool :=
  match before with [] => true | c :: _ => (c =? 10)%N end.
Definition at_eol (rest : str) : bool :=
  match rest with [] => true | c :: _ => (c =? 10)%N end.

(** Repetition of a step, at most [n] times; every iteration has to consume. *)
Fixpoint star (step : point -> list point) (greedy : bool) (n : nat) (p : point)
  : list point :=
  match n with
  | O => [p]
  | S n' =>
      let more :=
        flat_map (fun q => if Nat.ltb (length (p_rest q)) (length (p_rest p))
                           then star step greedy n' q else []) (step p) in
      if greedy then more ++ [p] else p :: more
  end.

(** All the ways to match [r] at a point, in order of preference. *)
Fixpoint matches (r : regex) (p : point) : list point :=
  match r with
  | REps => [p]
  | RClass f =>
      match p_rest p with
      | c :: rest => if f c then [mk_point (c :: p_before p) rest (p_groups p)] else []
      | [] => []
      end
  | RSeq r1 r2 => flat_map (matches r2) (matches r1 p)
  | RAlt r1 r2 => matches r1 p ++ matches r2 p
  | RStar greedy r1 =>
      star (matches r1) greedy (length (p_rest p)) p
  | RGroup n r1 =>
      map (fun q => mk_point (p_before q) (p_rest q)
             ((n, rev (take (length (p_before q) - length (p_before p)) (p_before q)))
                :: p_groups q))
        (matches r1 p)
  | RBos => if is_empty (p_before p) then [p] else []
  | REos => if is_empty (p_rest p) then [p] else []
  | RBol => if at_bol (p_before p) then [p] else []
  | REol => if at_eol (p_rest p) then [p] else []
  end.

(** A match: the text skipped before it, the matched text, the groups, and the
    text after it. *)
Record re_match : Type := mk_match {
  m_skip : str;
  m_text : str;
  m_groups : list (nat * str);
  m_post : str;
}.

Fixpoint group_get (n : nat) (l : list (nat * str)) : option str :=
  match l with
  | [] => None
  | (k, s) :: l' => if Nat.eqb n k then Some s else group_get n l'
  end.
(** [Captures::get(n)], for [n > 0]. *)
Definition group (n : nat) (m : re_match) : option str := group_get n (m_groups m).

(** The leftmost match at or after a point; [skipped] is what the search has
    already passed over, reversed. *)
Fixpoint find_from (r : regex) (before skipped rest : str) : option re_match :=
  match matches r (mk_point before rest []) with
  | q :: _ =>
      Some (mk_match (rev skipped)
              (rev (take (length (p_before q) - length before) (p_before q)))
              (p_groups q) (p_rest q))
  | [] =>
      match rest with
      | [] => None
      | c :: rest' => find_from r (c :: before) (c :: skipped) rest'
      end
  end.

(** Whether a pattern may match the empty text. *)
Fixpoint nullable (r : regex) : bool :=
  match r with
  | RClass _ => false
  | RSeq r1 r2 => nullable r1 && nullable r2
  | RAlt r1 r2 => nullable r1 || nullable r2
  | RGroup _ r1 => nullable r1
  | REps | RStar _ _ | RBos | REos | RBol | REol => true
  end.

(** The successive non-overlapping matches of a pattern that does not match the
    empty text, and the text after the last of them. *)
Fixpoint iter_from (n : nat) (r : regex) (before rest : str) : list re_match * str :=
  match n with
  | O => ([], rest)
  | S n' =>
      match find_from r before [] rest with
      | None => ([], rest)
      | Some m =>
          let '(l, last) :=
            iter_from n' r (rev (m_skip m ++ m_text m) ++ before) (m_post m) in
          (m :: l, last)
      end
  end.

(** The operations of the engine: [Regex::captures], [Regex::captures_iter], the
    Unicode classes [\d] and [\w], and the simple case folding of [(?i)]. *)
Class RegexEngine : Type := {
  perl_digit : char -> bool;
  perl_digit_ascii : forall c, is_ascii c = true -> perl_digit c = is_ascii_digit c;
  perl_word : char -> bool;
  perl_word_ascii : forall c, is_ascii c = true -> perl_word c = ident_char c;
  fold_eq : char -> char -> bool;
  fold_eq_refl : forall c, fold_eq c c = true;
  fold_eq_ascii : forall c d, is_ascii c = true -> is_ascii d = true ->
    fold_eq c d = (to_ascii_lowercase c =? to_ascii_lowercase d)%N;
  captures : regex -> str -> option re_match;
  captures_iter : regex -> str -> list re_match * str;
  captures_leftmost_first : forall r s, captures r s = find_from r [] [] s;
  captures_iter_successive : forall r s,
    nullable r = false -> captures_iter r s = iter_from (length s) r [] s;
}.

#[export] Program Instance backtracking_engine : RegexEngine :=
  {| perl_digit := is_ascii_digit; perl_word := ident_char;
     fold_eq := fun c d => (to_ascii_lowercase c =? to_ascii_lowercase d)%N;
     captures := fun r s => find_from r [] [] s;
     captures_iter := fun r s => iter_from (length s) r [] s |}.
Solve Obligations with (first [done | intros; apply N.eqb_refl]).

Section Api.
Context {RE : RegexEngine}.

(** A literal character and a literal text under [(?i)]. *)
Definition RCharFold (c : char) : regex := RClass (fold_eq c).
Definition RStrFold (s : str) : regex :=
  foldr (fun c r => RSeq (RCharFold c) r) REps s.

Definition is_match (r : regex) (s : str) : bool :=
  match captures r s with Some _ => true | None => false end.

(** [Regex::replace_all] with a closure on the captures. *)
Definition replace_all (r : regex) (f : re_match -> str) (s : str) : str :=
  let '(l, last) := captures_iter r s in
  flat_map (fun m => m_skip m ++ f m) l ++ last.
End Api.

(** ** Lemmas *)

(** A match consumes the text it stands before, and nothing else. *)
Definition consumes (p q : point) : Prop :=
  exists w, p_rest p = w ++ p_rest q /\ p_before q = rev w ++ p_before p.

Lemma consumes_refl p : consumes p p.
Proof. by exists []. Qed.

Lemma consumes_trans p q r : consumes p q -> consumes q r -> consumes p r.
Proof.
  intros (w1 & H1 & H2) (w2 & H3 & H4). exists (w1 ++ w2).
  rewrite H1, H3, H4, H2, rev_app_distr, <-!app_assoc. done.
Qed.

#[export] Hint Resolve consumes_refl consumes_trans : har.

Lemma star_consumes step g n p q :
  (forall p q, In q (step p) -> consumes p q) -> In q (star step g n p) -> consumes p q.
Proof.
  intros Hstep. revert p; induction n as [|n IH]; intros p; simpl.
  { intros [<-|[]]. apply consumes_refl. }
  set (more := flat_map _ _).
  assert (In q more -> consumes p q) as Hmore.
  { unfold more. rewrite in_flat_map. intros (p' & H1 & H2).
    destruct (_ <? _); [|done]. eauto with har. }
  destruct g; simpl; [rewrite in_app_iff|].
  - intros [H|[<-|[]]]; auto with har.
  - intros [<-|H]; auto with har.
Qed.

Lemma matches_consume (r : regex) (p q : point) : In q (matches r p) -> consumes p q.
Proof.
  revert p q; induction r as [|f|r1 IH1 r2 IH2|r1 IH1 r2 IH2|g r IH|n r IH| | | |];
    intros p q; simpl.
  - intros [<-|[]]; auto with har.
  - destruct p as [b [|c rest] gs]; simpl; [done|].
    destruct (f c); [|done]. intros [<-|[]]. by exists [c].
  - rewrite in_flat_map. intros (p' & H1 & H2). eauto with har.
  - rewrite in_app_iff. intros [H|H]; auto.
  - apply star_consumes. auto.
  - rewrite in_map_iff. intros (p' & <- & H). apply IH in H as (w & H1 & H2).
    by exists w.
  - destruct (is_empty (p_before p)); [|done]. intros [<-|[]]; auto with har.
  - destruct (is_empty (p_rest p)); [|done]. intros [<-|[]]; auto with har.
  - destruct (at_bol (p_before p)); [|done]. intros [<-|[]]; auto with har.
  - destruct (at_eol (p_rest p)); [|done]. intros [<-|[]]; auto with har.
Qed.

(** A match cuts the text into what is skipped, what is matched, what follows. *)
Lemma find_from_cut (r : regex) before skipped rest m :
  find_from r before skipped rest = Some m ->
  rev skipped ++ rest = m_skip m ++ m_text m ++ m_post m.
Proof.
  revert before skipped; induction rest as [|c rest IH]; intros before skipped; simpl.
  - destruct (matches r (mk_point before [] [])) as [|q l] eqn:E; [done|].
    intros [= <-]. simpl.
    assert (consumes (mk_point before [] []) q) as (w & Hw & Hb).
    { eapply (matches_consume r). rewrite E. by left. }
    simpl in *. symmetry in Hw. apply app_eq_nil in Hw as [-> Hq]. rewrite Hq.
    simpl in Hb. rewrite Hb, Nat.sub_diag. done.
  - destruct (matches r (mk_point before (c :: rest) [])) as [|q l] eqn:E.
    + intros H. apply IH in H. simpl in H. by rewrite <-app_assoc in H.
    + intros [= <-]. simpl.
      assert (consumes (mk_point before (c :: rest) []) q) as (w & Hw & Hb).
      { eapply (matches_consume r). rewrite E. by left. }
      simpl in *. rewrite Hw, Hb, length_app, length_rev.
      replace (length w + length before - length before) with (length (rev w))
        by (rewrite length_rev; lia).
      by rewrite take_app_length, rev_involutive.
Qed.

(** ** Evaluating a pattern symbolically

    [first r p q]: the preferred way to match [r] at [p] ends at [q]. *)
Definition first (r : regex) (p q : point) : Prop := exists l, matches r p = q :: l.

Lemma first_eps p : first REps p p.
Proof. by exists []. Qed.

Lemma first_class f b c rest gs :
  f c = true -> first (RClass f) (mk_point b (c :: rest) gs) (mk_point (c :: b) rest gs).
Proof. intros Hf. exists []. simpl. by rewrite Hf. Qed.

Lemma first_seq r1 r2 p q q' :
  first r1 p q -> first r2 q q' -> first (RSeq r1 r2) p q'.
Proof. intros [l1 H1] [l2 H2]. eexists. simpl. rewrite H1. simpl. by rewrite H2. Qed.

Lemma first_alt_l r1 r2 p q : first r1 p q -> first (RAlt r1 r2) p q.
Proof. intros [l H]. eexists. simpl. by rewrite H. Qed.

Lemma first_alt_r r1 r2 p q : matches r1 p = [] -> first r2 p q -> first (RAlt r1 r2) p q.
Proof. intros H1 [l H]. exists l. simpl. by rewrite H1. Qed.

Lemma first_group n r b rest gs b' rest' gs' :
  first r (mk_point b rest gs) (mk_point b' rest' gs') ->
  first (RGroup n r) (mk_point b rest gs)
    (mk_point b' rest' ((n, rev (take (length b' - length b) b')) :: gs')).
Proof. intros [l H]. eexists. simpl. by rewrite H. Qed.

Lemma first_bos rest gs : first RBos (mk_point [] rest gs) (mk_point [] rest gs).
Proof. by exists []. Qed.

Lemma first_eos b gs : first REos (mk_point b [] gs) (mk_point b [] gs).
Proof. by exists []. Qed.

Lemma matches_str s b rest gs :
  matches (RStr s) (mk_point b rest gs) =
  match strip_prefix s rest with
  | Some r => [mk_point (rev s ++ b) r gs]
  | None => []
  end.
Proof.
  revert b rest; induction s as [|c s IH]; intros b [|d rest]; try done.
  change (RStr (c :: s)) with (RSeq (RChar c) (RStr s)). cbn [matches strip_prefix RChar p_rest].
  destruct (N.eqb_spec c d) as [<-|]; [|done]. cbn [flat_map p_before p_groups].
  rewrite app_nil_r, IH. destruct (strip_prefix s rest); [|done].
  simpl. by rewrite <-app_assoc.
Qed.

Lemma first_str s b rest gs :
  first (RStr s) (mk_point b (s ++ rest) gs) (mk_point (rev s ++ b) rest gs).
Proof. exists []. by rewrite matches_str, strip_prefix_app. Qed.

(** A text on whose first character a class stops. *)
Definition stops (f : char -> bool) (rest : str) : bool :=
  match rest with [] => true | c :: _ => negb (f c) end.

Lemma star_class_first f n b w rest gs :
  length w <= n -> forallb f w = true -> stops f rest = true ->
  exists l, star (matches (RClass f)) true n (mk_point b (w ++ rest) gs)
            = mk_point (rev w ++ b) rest gs :: l.
Proof.
  intros Hn Hw Hr. remember (matches (RClass f)) as step eqn:Hs.
  assert (forall b c r gs, f c = true ->
    step (mk_point b (c :: r) gs) = [mk_point (c :: b) r gs]) as Hgo.
  { intros ? c' ? ? Hc. subst step. simpl. by rewrite Hc. }
  assert (forall b gs, step (mk_point b rest gs) = []) as Hstop.
  { intros. subst step. simpl. destruct rest; [done|].
    simpl in Hr. apply negb_true_iff in Hr. by rewrite Hr. }
  clear Hs. revert b n Hn; induction w as [|c w IH]; intros b n Hn; simpl in Hw, Hn.
  - destruct n as [|n]; [by eexists|]. simpl. rewrite Hstop. by eexists.
  - apply andb_prop in Hw as [Hc Hw]. destruct n as [|n]; [lia|].
    destruct (IH Hw (c :: b) n) as [l Hl]; [lia|]. simpl. rewrite Hgo by done. simpl.
    rewrite (proj2 (Nat.ltb_lt _ _)) by lia. rewrite app_nil_r, Hl. simpl.
    eexists. by rewrite <-app_assoc.
Qed.

(** A greedy repetition of a class takes as many characters as it can. *)
Lemma first_star_class f b w rest gs :
  forallb f w = true -> stops f rest = true ->
  first (RStar true (RClass f)) (mk_point b (w ++ rest) gs) (mk_point (rev w ++ b) rest gs).
Proof.
  intros Hw Hr. apply star_class_first; [|done|done]. simpl. rewrite length_app. lia.
Qed.

Lemma find_from_first r before skipped rest b' rest' gs' :
  first r (mk_point before rest []) (mk_point b' rest' gs') ->
  find_from r before skipped rest =
    Some (mk_match (rev skipped) (rev (take (length b' - length before) b')) gs' rest').
Proof. intros [l Hl]. destruct rest; simpl find_from; by rewrite Hl. Qed.

(** The text a group records. *)
Lemma captured (w b : str) :
  rev (take (length (rev w ++ b) - length b) (rev w ++ b)) = w.
Proof.
  rewrite length_app. replace (length (rev w) + length b - length b) with (length (rev w)) by lia.
  by rewrite take_app_length, rev_involutive.
Qed.

Lemma first_group_captured n r b rest gs w rest' gs' :
  first r (mk_point b rest gs) (mk_point (rev w ++ b) rest' gs') ->
  first (RGroup n r) (mk_point b rest gs) (mk_point (rev w ++ b) rest' ((n, w) :: gs')).
Proof. intros Hr. apply (first_group n) in Hr. by rewrite captured in Hr. Qed.

#[export] Hint Resolve first_eps first_class first_seq first_bos first_eos first_str
  first_star_class first_group_captured : har.

(** What is matched and captured is made of characters of the text. *)
Section Captured.
Variable P : char -> Prop.

Definition point_all (p : point) : Prop :=
  Forall P (p_before p) /\ Forall P (p_rest p) /\ Forall (fun g => Forall P g.2) (p_groups p).

Lemma star_all step g n p q :
  (forall p q, In q (step p) -> point_all p -> point_all q) ->
  In q (star step g n p) -> point_all p -> point_all q.
Proof.
  intros Hstep. revert p; induction n as [|n IH]; intros p; simpl; [naive_solver|].
  set (more := flat_map _ _).
  assert (In q more -> point_all p -> point_all q) as Hmore.
  { unfold more. rewrite in_flat_map. intros (p' & H1 & H2) Hp.
    destruct (_ <? _); [|done]. eauto. }
  destruct g; simpl; [rewrite in_app_iff|]; simpl; naive_solver.
Qed.

Lemma matches_all r p q : In q (matches r p) -> point_all p -> point_all q.
Proof.
  revert p q; induction r as [|f|r1 IH1 r2 IH2|r1 IH1 r2 IH2|g r IH|n r IH| | | |];
    intros p q; simpl; try (case_match; simpl; naive_solver).
  - naive_solver.
  - destruct p as [b [|c rest] gs]; simpl; [done|]. destruct (f c); [|done].
    intros [<-|[]] (H1 & H2 & H3). apply Forall_cons in H2 as [Hc H2].
    split_and!; simpl; auto using Forall_cons_2.
  - rewrite in_flat_map. intros (p' & H1 & H2) Hp. eauto.
  - rewrite in_app_iff. intros [H|H]; eauto.
  - apply star_all. auto.
  - rewrite in_map_iff. intros (p' & <- & H) Hp. apply IH in H as (H1 & H2 & H3); [|done].
    split_and!; [done|done|]. simpl. constructor; [|done]. simpl.
    apply Forall_rev, Forall_take, H1.
Qed.

Definition match_all (m : re_match) : Prop :=
  Forall P (m_skip m) /\ Forall P (m_text m) /\ Forall (fun g => Forall P g.2) (m_groups m)
  /\ Forall P (m_post m).

Lemma find_from_all r before skipped rest m :
  find_from r before skipped rest = Some m ->
  Forall P before -> Forall P skipped -> Forall P rest -> match_all m.
Proof.
  revert before skipped; induction rest as [|c rest IH]; intros before skipped Hf Hb Hs Hr;
    simpl in Hf; destruct (matches r _) as [|q l] eqn:E; try done;
    [..|by apply Forall_cons in Hr as [? ?]; eapply IH in Hf; auto|].
  all: injection Hf as <-; assert (point_all q) as (H1 & H2 & H3)
    by (eapply (matches_all r); [rewrite E; by left|]; by split_and!).
  all: split_and!; simpl; auto using Forall_rev, Forall_take.
Qed.

Lemma iter_from_all n r before rest :
  Forall P before -> Forall P rest -> Forall match_all (iter_from n r before rest).1.
Proof.
  revert before rest; induction n as [|n IH]; intros before rest Hb Hr; simpl; [done|].
  destruct (find_from r before [] rest) as [m|] eqn:E; [|done].
  assert (match_all m) as Hm by (eapply find_from_all; eauto).
  destruct Hm as (H1 & H2 & H3 & H4).
  specialize (IH (rev (m_skip m ++ m_text m) ++ before) (m_post m)).
  destruct (iter_from n r _ _) as [l last]. simpl in *.
  constructor; [by split_and!|]. apply IH; [|done].
  apply Forall_app. split; [|done]. apply Forall_rev, Forall_app. done.
Qed.

Lemma group_all n m s : match_all m -> group n m = Some s -> Forall P s.
Proof.
  intros (_ & _ & Hg & _). unfold group. induction Hg as [|[k x] gs Hx _ IH]; simpl; [done|].
  destruct (n =? k); [|done]. by intros [= <-].
Qed.
End Captured.
