(* ===== verification/Paths.v ===== *)
(** * Paths

    [std::path] on Unix, for paths that are Unicode, and [archon_paths.rs] of
    [har-paths]: where the state of the program lives.

    A [PathBuf] is its text.  [components] is [Path::components]: repeated separators
    and inner [.] do not count, [..] is kept.  Two paths are equal, and one is a prefix
    of the other, by components; a test on the text of a path is one on strings. *)

From S2P Require Import Prelude.

(** ** [std::path] *)

Inductive Component : Type :=
| RootDir
| CurDir
| ParentDir
| Normal (name : str).
#[export] Instance Component_eq_dec : EqDecision Component.
Proof. solve_decision. Defined.

Definition slash : str := lit "/".
Definition is_absolute (p : str) : bool := starts_with slash p.

(** A piece between two separators that is no component. *)
Definition no_component (piece : str) : bool := is_empty piece || str_eqb piece (lit ".").
Definition component (piece : str) : Component :=
  if str_eqb piece (lit "..") then ParentDir else Normal piece.
Definition body_components (pieces : list str) : list Component :=
  map component (filter (fun x => negb (no_component x)) pieces).

Definition leading (first : str) : list Component :=
  if str_eqb first (lit ".") then [CurDir] else [component first].
Definition components (p : str) : list Component :=
  match split slash p with
  | [] | [[]] => []
  | [] :: rest => RootDir :: body_components rest
  | first :: rest => leading first ++ body_components rest
  end.

Definition path_eqb (a b : str) : bool := bool_decide (components a = components b).
(** [Path::strip_prefix], as components. *)
Fixpoint strip_components (base p : list Component) : option (list Component) :=
  match base, p with
  | [], _ => Some p
  | a :: base', b :: p' => if decide (a = b) then strip_components base' p' else None
  | _ :: _, [] => None
  end.
Definition path_starts_with (p base : str) : bool :=
  match strip_components (components base) (components p) with Some _ => true | None => false end.

(** [Path::join]: an absolute path replaces the whole. *)
Definition path_join (a b : str) : str :=
  if starts_with (lit "/") b then b
  else if is_empty a || str_eqb (drop (length a - 1) a) (lit "/") then a ++ b
  else a ++ lit "/" ++ b.

Definition component_str (c : Component) : str :=
  match c with RootDir => slash | CurDir => lit "." | ParentDir => lit ".." | Normal n => n end.
(** [PathBuf::from_iter], pushing component after component. *)
Definition from_components (cs : list Component) : str :=
  fold_left (fun p c => path_join p (component_str c)) cs [].

(** [Path::parent]: the text before the last component. *)
Definition drop_back (f : str -> bool) (l : list str) : list str :=
  rev ((fix drop l := match l with x :: l' => if f x then drop l' else l | [] => [] end) (rev l)).
Definition parent (p : str) : option str :=
  match split slash p with
  | first :: rest =>
      match rev (drop_back no_component rest) with
      | _ :: before =>
          match drop_back no_component (rev before) with
          | [] => Some (if is_empty first then slash else first)
          | l => Some (join slash (first :: l))
          end
      | [] => if is_empty first then None else Some []
      end
  | [] => None
  end.
(** [Path::file_name]: the last component, when it is a name. *)
Definition file_name (p : str) : option str :=
  match last (components p) with Some (Normal n) => Some n | _ => None end.

(** ** The environment of the process *)

(** [std::env::var], absent also when it is not Unicode; the home directory of
    [directories::BaseDirs], absent when there is none; [std::env::current_exe]. *)
Class ProcessEnvironment := {
  env_var : str -> option str;
  base_dirs_home : option str;
  current_exe : option str;
}.

Inductive ArchonPathError : Type :=
| ArchonHomeSetToUndefined
| InvalidCodebaseName (name : str).

Definition ArchonPathError_display (e : ArchonPathError) : str :=
  match e with
  | ArchonHomeSetToUndefined =>
      lit "ARCHON_HOME is set to the literal string " ++ [dquote] ++ lit "undefined"
      ++ [dquote]
      ++ lit ". This indicates a bug where an undefined value was coerced to a string. Unset ARCHON_HOME or provide a valid path."
  | InvalidCodebaseName name => lit "Invalid codebase name: " ++ name
  end.

Section Home.
Context {ENV : ProcessEnvironment}.

Definition is_docker : bool :=
  let workspace_path := default [] (env_var (lit "WORKSPACE_PATH")) in
  let home := default [] (env_var (lit "HOME")) in
  let archon_docker := default [] (env_var (lit "ARCHON_DOCKER")) in
  str_eqb workspace_path (lit "/workspace")
  || (str_eqb home (lit "/root") && negb (is_empty workspace_path))
  || str_eqb archon_docker (lit "true").

Definition home_dir : str :=
  match base_dirs_home with
  | Some h => h
  | None => match env_var (lit "HOME") with Some h => h | None => lit "/" end
  end.

Definition is_char (c : char) (x : char) : bool := (x =? c)%N.
(** [trim_start_matches('/').trim_start_matches('\\')]. *)
Definition trim_separators (s : str) : str :=
  trim_start_matches (is_char backslash) (trim_start_matches (is_char 47) s).

Definition expand_tilde (path : str) : str :=
  match strip_prefix (lit "~") path with
  | Some after =>
      let trimmed := trim_separators after in
      if is_empty trimmed then home_dir else path_join home_dir trimmed
  | None => path
  end.

Definition get_archon_home : result ArchonPathError str :=
  if is_docker then Ok (lit "/.archon")
  else
    match env_var (lit "ARCHON_HOME") with
    | Some env_home =>
        if str_eqb env_home (lit "undefined") then Err ArchonHomeSetToUndefined
        else Ok (expand_tilde env_home)
    | None => Ok (path_join home_dir (lit ".archon"))
    end.

(** ** Derived paths *)

Definition get_archon_workspaces_path : result ArchonPathError str :=
  h ← get_archon_home; Ok (path_join h (lit "workspaces")).
Definition get_archon_worktrees_path : result ArchonPathError str :=
  h ← get_archon_home; Ok (path_join h (lit "worktrees")).
Definition get_archon_config_path : result ArchonPathError str :=
  h ← get_archon_home; Ok (path_join h (lit "config.yaml")).
Definition get_home_workflows_path : result ArchonPathError str :=
  h ← get_archon_home; Ok (path_join h (lit "workflows")).
Definition get_home_commands_path : result ArchonPathError str :=
  h ← get_archon_home; Ok (path_join h (lit "commands")).
Definition get_home_scripts_path : result ArchonPathError str :=
  h ← get_archon_home; Ok (path_join h (lit "scripts")).
Definition get_legacy_home_workflows_path : result ArchonPathError str :=
  h ← get_archon_home; Ok (path_join (path_join h (lit ".archon")) (lit "workflows")).
Definition get_archon_env_path : result ArchonPathError str :=
  h ← get_archon_home; Ok (path_join h (lit ".env")).
Definition get_repo_archon_env_path (cwd : str) : str :=
  path_join (path_join cwd (lit ".archon")) (lit ".env").
Definition get_web_dist_dir (version : str) : result ArchonPathError str :=
  h ← get_archon_home; Ok (path_join (path_join h (lit "web-dist")) version).

Definition app_archon_base_path : str :=
  match env_var (lit "ARCHON_APP_BASE") with
  | Some base => path_join base (lit ".archon")
  | None =>
      match current_exe ≫= parent with
      | Some dir => path_join dir (lit ".archon")
      | None => lit ".archon"
      end
  end.
Definition get_default_commands_path : str :=
  path_join (path_join app_archon_base_path (lit "commands")) (lit "defaults").
Definition get_default_workflows_path : str :=
  path_join (path_join app_archon_base_path (lit "workflows")) (lit "defaults").
End Home.

(** ** Search paths *)

Definition get_command_folder_search_paths (configured_folder : option str) : list str :=
  [lit ".archon/commands"; lit ".archon/commands/defaults"]
  ++ match configured_folder with
     | Some folder =>
         if negb (is_empty folder) && negb (str_eqb folder (lit ".archon/commands"))
            && negb (str_eqb folder (lit ".archon/commands/defaults"))
         then [folder] else []
     | None => []
     end.
Definition get_workflow_folder_search_paths : list str := [lit ".archon/workflows"].

(** ** Projects *)

Definition is_safe_char (c : char) : bool :=
  is_ascii_alphanumeric c || (c =? 46)%N || (c =? 45)%N || (c =? 95)%N.
Definition is_safe_name (name : str) : bool := negb (is_empty name) && forallb is_safe_char name.

Definition is_dots (s : str) : bool := str_eqb s (lit ".") || str_eqb s (lit "..").

Definition parse_owner_repo (name : str) : option (str * str) :=
  match split slash name with
  | [owner; repo] =>
      if is_empty owner || is_empty repo then None
      else if is_dots owner || is_dots repo then None
      else if negb (is_safe_name owner) || negb (is_safe_name repo) then None
      else Some (owner, repo)
  | _ => None
  end.

Section Projects.
Context {ENV : ProcessEnvironment}.

Definition get_project_root (owner repo : str) : result ArchonPathError str :=
  w ← get_archon_workspaces_path; Ok (path_join (path_join w owner) repo).
Definition get_project_source_path (owner repo : str) : result ArchonPathError str :=
  p ← get_project_root owner repo; Ok (path_join p (lit "source")).
Definition get_project_worktrees_path (owner repo : str) : result ArchonPathError str :=
  p ← get_project_root owner repo; Ok (path_join p (lit "worktrees")).
Definition get_project_artifacts_path (owner repo : str) : result ArchonPathError str :=
  p ← get_project_root owner repo; Ok (path_join p (lit "artifacts")).
Definition get_project_logs_path (owner repo : str) : result ArchonPathError str :=
  p ← get_project_root owner repo; Ok (path_join p (lit "logs")).
Definition get_run_artifacts_path (owner repo workflow_run_id : str) : result ArchonPathError str :=
  p ← get_project_artifacts_path owner repo;
  Ok (path_join (path_join p (lit "runs")) workflow_run_id).
Definition get_run_log_path (owner repo workflow_run_id : str) : result ArchonPathError str :=
  p ← get_project_logs_path owner repo; Ok (path_join p (workflow_run_id ++ lit ".jsonl")).

(** [split(['/', '\\'])]: a separator is either character. *)
Definition split_separators (s : str) : list str :=
  split slash (map (fun c => if (c =? backslash)%N then 47%N else c) s).

Definition resolve_project_root_from_cwd (cwd : str) : result ArchonPathError (option str) :=
  workspaces ← get_archon_workspaces_path;
  match strip_prefix workspaces cwd with
  | None => Ok None
  | Some relative =>
      match filter (fun p => negb (is_empty p)) (split_separators (trim_separators relative)) with
      | owner :: repo :: _ => Ok (Some (path_join (path_join workspaces owner) repo))
      | _ => Ok None
      end
  end.
End Projects.

(** ** Components and joined paths *)

(** A name of one component. *)
Definition plain_name (n : str) : Prop :=
  n <> [] /\ 47%N ∉ n /\ is_dots n = false.

Lemma split_plain (n : str) : 47%N ∉ n -> split slash n = [n].
Proof. apply (split_char_absent 47). Qed.

Lemma body_app (a b : list str) : body_components (a ++ b) = body_components a ++ body_components b.
Proof. unfold body_components. by rewrite filter_app, map_app. Qed.

Lemma body_cons (x : str) (l : list str) :
  body_components (x :: l)
  = if no_component x then body_components l else component x :: body_components l.
Proof.
  unfold body_components. rewrite filter_cons. destruct (no_component x); case_decide as Hd; done.
Qed.

Lemma body_plain (n : str) : plain_name n -> body_components [n] = [Normal n].
Proof.
  intros (Hne & _ & Hd). unfold is_dots in Hd. apply orb_false_iff in Hd as [H1 H2].
  rewrite body_cons. unfold no_component, component. rewrite H1, H2. by destruct n.
Qed.

Lemma components_app (p b : str) :
  p <> [] -> components (p ++ slash ++ b) = components p ++ body_components (split slash b).
Proof.
  intros Hp. unfold components. change (slash ++ b) with (47%N :: b).
  unfold slash at 1. change (lit "/") with [47%N]. rewrite split_app_char.
  change [47%N] with slash.
  destruct (split slash p) as [|first rest] eqn:E; [by apply split_not_nil in E|].
  destruct (split slash b) as [|fb rb] eqn:Eb; [by apply split_not_nil in Eb|].
  cbn [app]. destruct first as [|c first].
  - destruct rest as [|r rest].
    + assert (H := join_split slash p). rewrite E in H. by rewrite <- H in Hp.
    + cbn [app]. by rewrite <- body_app.
  - by rewrite <- app_assoc, <- body_app.
Qed.

Lemma components_plain (n : str) : plain_name n -> components n = [Normal n].
Proof.
  intros H. pose proof (body_plain n H) as Hb. destruct H as (Hne & Hs & Hd).
  unfold components. rewrite split_plain by done. destruct n as [|c n]; [done|].
  unfold leading. unfold is_dots in Hd. apply orb_false_iff in Hd as [H1 H2]. rewrite H1.
  unfold component. by rewrite H2.
Qed.

Lemma no_slash_relative (n : str) : 47%N ∉ n -> is_absolute n = false.
Proof.
  intros Hn. destruct n as [|c n]; [done|]. apply not_elem_of_cons in Hn as [Hc _].
  unfold is_absolute, starts_with. change slash with [47%N]. cbn [strip_prefix].
  by apply N.eqb_neq in Hc as ->.
Qed.

Lemma path_join_relative (p n : str) :
  is_absolute n = false ->
  (p = [] /\ path_join p n = n)
  \/ (exists q, p = q ++ slash /\ path_join p n = q ++ slash ++ n)
  \/ (p <> [] /\ path_join p n = p ++ slash ++ n).
Proof.
  intros Hn. unfold path_join. unfold is_absolute in Hn. change (lit "/") with slash. rewrite Hn. clear Hn.
  destruct p as [|c p]; [by left|]. right. cbn [is_empty orb].
  destruct (str_eqb _ _) eqn:E; [left|by right].
  apply str_eqb_spec in E.
  pose proof (take_drop (length (c :: p) - 1) (c :: p)) as H. rewrite E in H.
  eexists. split; [exact (eq_sym H)|]. by rewrite <- H at 1; rewrite <- app_assoc.
Qed.
Lemma path_join_cases (p n : str) :
  47%N ∉ n ->
  (p = [] /\ path_join p n = n)
  \/ (exists q, p = q ++ slash /\ path_join p n = q ++ slash ++ n)
  \/ (p <> [] /\ path_join p n = p ++ slash ++ n).
Proof. intros H. by apply path_join_relative, no_slash_relative. Qed.

(** A relative path that does not start at [.] continues where it is joined. *)
Lemma components_relative (n : str) (ns : list str) :
  is_absolute n = false -> components n = map Normal ns ->
  body_components (split slash n) = map Normal ns.
Proof.
  unfold components. intros Hn.
  assert (Hf : forall r, split slash n = [] :: r -> r = []).
  { intros r E. destruct n as [|c n]; [by injection E as <-|]. destruct r as [|x r]; [done|].
    pose proof (join_split slash (c :: n) ltac:(done)) as J. rewrite E in J.
    rewrite join_cons in J by done. cbn [app] in J. rewrite <- J in Hn. done. }
  destruct (split slash n) as [|first rest] eqn:E; [done|]. destruct first as [|c first].
  - by rewrite (Hf rest eq_refl).
  - unfold leading. destruct (str_eqb (c :: first) (lit ".")) eqn:Ed; [by destruct ns|].
    intros <-. rewrite body_cons. unfold no_component. by rewrite Ed.
Qed.

Lemma components_join_relative (p n : str) (ns : list str) :
  is_absolute n = false -> components n = map Normal ns ->
  components (path_join p n) = components p ++ map Normal ns.
Proof.
  intros Hn Hc. pose proof (components_relative n ns Hn Hc) as Hb.
  destruct (path_join_relative p n Hn) as [[-> ->]|[(q & -> & ->)|[Hp ->]]]; [done| |].
  - destruct q as [|c q].
    + change ([] ++ slash ++ n) with (slash ++ n). unfold components at 1.
      change (slash ++ n) with ([] ++ 47%N :: n). change slash with [47%N] at 1.
      rewrite split_app_char. change [47%N] with slash. change (split slash []) with [@nil N].
      cbn [app]. destruct (split slash n) eqn:E; [by apply split_not_nil in E|]. by rewrite Hb.
    + rewrite (components_app (c :: q) n) by done. rewrite <- (app_nil_r slash) at 2.
      rewrite (components_app (c :: q) []) by done. rewrite Hb.
      change (body_components (split slash [])) with (@nil Component). by rewrite app_nil_r.
  - by rewrite components_app, Hb.
Qed.

Lemma components_join (p n : str) :
  plain_name n -> components (path_join p n) = components p ++ [Normal n].
Proof.
  intros H. apply (components_join_relative p n [n]); [apply no_slash_relative, H|].
  by apply components_plain.
Qed.

Lemma strip_components_app (b l : list Component) : strip_components b (b ++ l) = Some l.
Proof.
  induction b as [|a b IH]; [done|]. cbn [app strip_components]. by rewrite decide_True.
Qed.

(** A joined name stays below. *)
Lemma path_join_below (p n : str) : plain_name n -> path_starts_with (path_join p n) p = true.
Proof.
  intros H. unfold path_starts_with. by rewrite components_join, strip_components_app.
Qed.

(** ** Projects, proved *)

Definition safe_name (n : str) : Prop := plain_name n /\ Forall (fun c => is_safe_char c) n.

Lemma safe_char_neq (c d : char) (n : str) :
  Forall (fun c => is_safe_char c) n -> is_safe_char d = false -> d ∉ n.
Proof. intros Hn Hd Hin. rewrite Forall_forall in Hn. apply Hn in Hin. by rewrite Hd in Hin. Qed.

Lemma safe_name_spec (n : str) :
  safe_name n <-> is_empty n = false /\ is_dots n = false /\ is_safe_name n = true.
Proof.
  unfold safe_name, plain_name, is_safe_name. rewrite andb_true_iff, forallb_forall, negb_true_iff.
  split.
  - intros [(Hne & _ & Hd) Hf]. rewrite Forall_forall in Hf. destruct n; [done|].
    repeat split; [done|]. intros x Hx%list_elem_of_In. by apply Is_true_true, Hf.
  - intros (He & Hd & _ & Hf).
    assert (Forall (fun c => is_safe_char c) n).
    { apply Forall_forall. intros x Hx%list_elem_of_In. by apply Is_true_true, Hf. }
    split; [|done]. split; [by destruct n|split; [|done]]. by eapply (safe_char_neq 47).
Qed.

Lemma parse_owner_repo_spec (name owner repo : str) :
  parse_owner_repo name = Some (owner, repo) <->
  name = owner ++ slash ++ repo /\ safe_name owner /\ safe_name repo.
Proof.
  rewrite !safe_name_spec. unfold parse_owner_repo. split.
  - destruct (split slash name) as [|a [|b [|? ?]]] eqn:E; [done|done| |done].
    pose proof (join_split slash name ltac:(done)) as J. rewrite E in J. cbn [join] in J.
    destruct (is_empty a) eqn:Ea, (is_empty b) eqn:Eb, (is_dots a) eqn:Da, (is_dots b) eqn:Db,
      (is_safe_name a) eqn:Sa, (is_safe_name b) eqn:Sb; cbn [orb negb]; try discriminate.
    intros [= <- <-]. by rewrite <- J.
  - intros (-> & (Ea & Da & Sa) & Eb & Db & Sb).
    assert (Ha : safe_name owner) by (by apply safe_name_spec).
    assert (Hb : safe_name repo) by (by apply safe_name_spec).
    change (owner ++ slash ++ repo) with (owner ++ 47%N :: repo).
    change slash with [47%N]. rewrite split_app_char. change [47%N] with slash.
    rewrite !split_plain by (apply Ha || apply Hb). cbn [app].
    by rewrite Ea, Eb, Da, Db, Sa, Sb.
Qed.

(** The directory of a project, and everything the program puts there. *)
Definition path_within (p base : str) : Prop :=
  exists l, components p = components base ++ map Normal l.

Lemma path_within_starts (p base : str) : path_within p base -> path_starts_with p base = true.
Proof. intros [l E]. unfold path_starts_with. by rewrite E, strip_components_app. Qed.

Lemma path_within_refl p : path_within p p.
Proof. exists []. by rewrite app_nil_r. Qed.
Lemma path_within_join p base n : path_within p base -> plain_name n -> path_within (path_join p n) base.
Proof.
  intros [l E] Hn. exists (l ++ [n]). by rewrite components_join, E, map_app, app_assoc.
Qed.

(** A name with a safe suffix is still plain. *)
Lemma safe_name_app (a b : str) : safe_name a -> Forall (fun c => is_safe_char c) b ->
  (3 <= length (a ++ b)) -> safe_name (a ++ b).
Proof.
  intros [(Hne & Hs & Hd) Ha] Hb Hl.
  assert (Hab : Forall (fun c => is_safe_char c) (a ++ b)) by (by apply Forall_app).
  split; [split; [by destruct a|split; [by eapply (safe_char_neq 47)|]]|done].
  unfold is_dots. apply orb_false_iff.
  split; apply not_true_iff_false; intros E%str_eqb_spec; rewrite E in Hl; vm_compute in Hl; lia.
Qed.

Ltac safe_lit := apply safe_name_spec; repeat split; by_compute.

Lemma plain_lit (n : str) : is_empty n = false -> is_dots n = false -> is_safe_name n = true -> plain_name n.
Proof. intros. by apply safe_name_spec. Qed.
Ltac plain_lit := apply plain_lit; by_compute.

Lemma trim_separators_safe (s : str) :
  (forall c r, s = c :: r -> c <> 47%N /\ c <> backslash) -> trim_separators s = s.
Proof.
  intros H. destruct s as [|c r]; [done|]. destruct (H c r eq_refl) as [H1 H2].
  apply N.eqb_neq in H1, H2. unfold trim_separators. cbn [trim_start_matches].
  unfold is_char at 2. rewrite H1. cbn [trim_start_matches]. unfold is_char at 1. by rewrite H2.
Qed.

Definition unix_separator (c : char) : char := if (c =? backslash)%N then 47%N else c.
Lemma unix_separator_safe (n : str) : Forall (fun c => is_safe_char c) n -> map unix_separator n = n.
Proof.
  intros H. induction H as [|c n Hc Hn IH]; [done|]. cbn [map]. rewrite IH. f_equal.
  unfold unix_separator. destruct (N.eqb_spec c backslash) as [->|]; [|done]. by vm_compute in Hc.
Qed.

Section ProjectsProved.
Context {ENV : ProcessEnvironment}.

Lemma workspaces_join (w n : str) :
  get_archon_workspaces_path = Ok w -> 47%N ∉ n -> path_join w n = w ++ slash ++ n.
Proof.
  unfold get_archon_workspaces_path. destruct get_archon_home as [h|e]; [|done]. intros [= <-] Hn.
  assert (E : exists u, path_join h (lit "workspaces") = u ++ lit "workspaces").
  { destruct (path_join_cases h (lit "workspaces")) as [[-> ->]|[(q & -> & ->)|[_ ->]]].
    - apply (bool_decide_unpack _). by_compute.
    - by exists [].
    - exists (q ++ slash). by rewrite <- app_assoc.
    - exists (h ++ slash). by rewrite <- app_assoc. }
  destruct E as [u ->].
  destruct (path_join_cases (u ++ lit "workspaces") n Hn) as [[E _]|[(q & E & _)|[_ ->]]]; [| |done].
  - by destruct u.
  - apply (f_equal (@last char)) in E. rewrite last_app in E. rewrite last_app in E. done.
Qed.

Lemma join_after_name (w a n : str) :
  a <> [] -> 47%N ∉ a -> 47%N ∉ n -> path_join (w ++ slash ++ a) n = (w ++ slash ++ a) ++ slash ++ n.
Proof.
  intros Hne Ha Hn.
  destruct (path_join_cases (w ++ slash ++ a) n Hn) as [[E _]|[(q & E & _)|[_ ->]]]; [| |done].
  - by destruct w.
  - exfalso. apply (f_equal (@last char)) in E. rewrite app_assoc, !last_app in E.
    destruct (last a) as [c|] eqn:L; [|by apply last_None in L].
    injection E as ->. apply Ha. apply last_Some_elem_of in L. exact L.
Qed.

Lemma project_root_text (name owner repo w : str) :
  parse_owner_repo name = Some (owner, repo) -> get_archon_workspaces_path = Ok w ->
  get_project_root owner repo = Ok (w ++ slash ++ name).
Proof.
  intros (-> & [(Ho & Hs & _) _] & (_ & Hr & _) & _)%parse_owner_repo_spec Hw.
  unfold get_project_root. rewrite Hw. cbn [mbind result_bind].
  rewrite (workspaces_join w owner Hw Hs), join_after_name by done. by rewrite <- !app_assoc.
Qed.

(** A project parsed from [owner/repo] lives two names below the workspaces directory,
    its parts lie below it, and the directory is found back from the project itself
    and from every path below it. *)
Theorem project_round_trip (name owner repo w below : str) :
  parse_owner_repo name = Some (owner, repo) ->
  get_archon_workspaces_path = Ok w ->
  below = [] \/ starts_with slash below = true ->
  exists root, get_project_root owner repo = Ok root
    /\ components root = components w ++ [Normal owner; Normal repo]
    /\ resolve_project_root_from_cwd (root ++ below) = Ok (Some root)
    /\ (exists src wts art logs,
          get_project_source_path owner repo = Ok src /\ get_project_worktrees_path owner repo = Ok wts
          /\ get_project_artifacts_path owner repo = Ok art /\ get_project_logs_path owner repo = Ok logs
          /\ Forall (fun p => path_within p root) [src; wts; art; logs]).
Proof.
  intros Hp Hw Hb. pose proof Hp as (Hname & [Po So] & [Pr Sr])%parse_owner_repo_spec.
  eexists. split; [by apply project_root_text|].
  assert (Hjoin : path_join (path_join w owner) repo = w ++ slash ++ name).
  { pose proof (project_root_text _ _ _ _ Hp Hw) as E. unfold get_project_root in E. rewrite Hw in E.
    by injection E. }
  split_and!.
  - by rewrite <- Hjoin, !components_join, <- app_assoc.
  - unfold resolve_project_root_from_cwd. rewrite Hw. cbn [mbind result_bind].
    rewrite <- (app_assoc w), strip_prefix_app, Hname, <- !app_assoc.
    assert (Ht : trim_separators (slash ++ owner ++ slash ++ repo ++ below)
                 = owner ++ slash ++ repo ++ below).
    { change (slash ++ ?x) with (47%N :: x) at 1.
      transitivity (trim_separators (owner ++ slash ++ repo ++ below)); [done|].
      apply trim_separators_safe. destruct owner as [|c o]; [by destruct Po|].
      intros c' r [= <- _]. inversion_clear So. split; intros ->; by vm_compute in H. }
    rewrite Ht. unfold split_separators. fold unix_separator. rewrite !map_app.
    change (fun c => if (c =? backslash)%N then 47%N else c) with unix_separator.
    rewrite (unix_separator_safe owner), (unix_separator_safe repo) by done.
    change (map unix_separator slash) with [47%N]. change slash with [47%N]. cbn [app].
    rewrite split_app_char, (split_char_absent 47 owner) by apply Po.
    assert (Hl : exists l, split [47%N] (repo ++ map unix_separator below) = repo :: l).
    { destruct Hb as [->|[r ->]%starts_with_spec].
      - exists []. cbn [map]. rewrite app_nil_r. apply split_char_absent, Pr.
      - eexists. change slash with [47%N]. cbn [app map].
        change (unix_separator 47) with 47%N. rewrite split_app_char, (split_char_absent 47 repo) by apply Pr.
        done. }
    destruct Hl as [l ->]. cbn [app]. destruct Po as [Po _], Pr as [Pr _].
    rewrite (filter_cons_True _ owner), (filter_cons_True _ repo)
      by first [by destruct owner | by destruct repo].
    by rewrite Hjoin, Hname.
  - unfold get_project_source_path, get_project_worktrees_path, get_project_artifacts_path,
      get_project_logs_path.
    rewrite (project_root_text _ _ _ _ Hp Hw). cbn [mbind result_bind].
    do 4 eexists. split_and!; [done..|].
    repeat constructor; apply path_within_join; try apply path_within_refl; plain_lit.
Qed.
End ProjectsProved.

(** ** A concrete environment *)

Definition sample_env : ProcessEnvironment := {|
  env_var v := if str_eqb v (lit "HOME") then Some (lit "/home/u") else None;
  base_dirs_home := Some (lit "/home/u");
  current_exe := None;
|}.

Lemma project_round_trip_witness :
  exists root, @get_project_root sample_env (lit "o") (lit "r-1") = Ok root
    /\ components root
       = components (lit "/home/u/.archon/workspaces") ++ [Normal (lit "o"); Normal (lit "r-1")]
    /\ @resolve_project_root_from_cwd sample_env (root ++ lit "/worktrees/x") = Ok (Some root)
    /\ (exists src wts art logs,
          @get_project_source_path sample_env (lit "o") (lit "r-1") = Ok src
          /\ @get_project_worktrees_path sample_env (lit "o") (lit "r-1") = Ok wts
          /\ @get_project_artifacts_path sample_env (lit "o") (lit "r-1") = Ok art
          /\ @get_project_logs_path sample_env (lit "o") (lit "r-1") = Ok logs
          /\ Forall (fun p => path_within p root) [src; wts; art; logs]).
Proof.
  apply (@project_round_trip sample_env (lit "o/r-1")); [by_compute|by_compute|right; by_compute].
Defined.

(** The prefix test is one on text: a sibling of the workspaces directory whose name
    merely starts like it is taken for a directory below it, and an unrelated project
    root is returned. *)
Example resolve_project_root_sibling :
  @resolve_project_root_from_cwd sample_env (lit "/home/u/.archon/workspaces-old/o/r")
    = Ok (Some (lit "/home/u/.archon/workspaces/-old/o"))
  /\ path_starts_with (lit "/home/u/.archon/workspaces-old/o/r") (lit "/home/u/.archon/workspaces")
     = false.
Proof. split; by_compute. Qed.

Example path_samples :
  components (lit "./a//b/./../c/") = [CurDir; Normal (lit "a"); Normal (lit "b"); ParentDir; Normal (lit "c")]
  /\ map parent [lit "/a/b"; lit "/a"; lit "/"; lit "a"; []; lit "//a//b//"; lit "/."; lit "./"]
     = [Some (lit "/a"); Some (lit "/"); None; Some []; None; Some (lit "//a"); None; Some []]
  /\ from_components (components (lit "/a/./b//c")) = lit "/a/b/c".
Proof. split_and!; by_compute. Qed.
