(* ===== verification/DagNode.v ===== *)
(** * Workflow schema: the nodes of a DAG

    The crate [har-workflow-schema]: [dag_node.rs], [retry_schema.rs],
    [loop_schema.rs] and [hooks_schema.rs].  Structures become records whose
    fields carry the structure's name as a prefix, enumerations become
    inductive types, and the hand-written validation and deserialization code
    becomes functions on them.  The derived serde code that reads a structure
    field by field is not modelled: [RawDagNode] is the value it yields. *)

From S2P Require Import Prelude Float64 Json StdModel.

(** ** Retry configuration ([retry_schema.rs]) *)

Inductive OnError : Type := OnError_Transient | OnError_All.

(** [max_attempts] is a [u8]. *)
Record StepRetryConfig : Type := mk_StepRetryConfig {
  max_attempts : N;
  delay_ms : option f64;
  on_error : option OnError;
}.

Inductive StepRetryValidationError : Type :=
| MaxAttemptsOutOfRange
| DelayMsOutOfRange.

Definition f64_1000 : f64 := f64_of_Z 1000.
Definition f64_60000 : f64 := f64_of_Z 60000.

(** [StepRetryConfig::validate]. *)
Definition StepRetryConfig_validate (c : StepRetryConfig) : list StepRetryValidationError :=
  (if (max_attempts c <? 1)%N || (5 <? max_attempts c)%N
   then [MaxAttemptsOutOfRange] else [])
  ++ match delay_ms c with
     | Some delay =>
         if negb (f64_leb f64_1000 delay && f64_leb delay f64_60000)
         then [DelayMsOutOfRange] else []
     | None => []
     end.

Section RetryParse.
(** The derived [serde_json::from_value::<StepRetryConfig>]. *)
Variable from_value : value -> option StepRetryConfig.

(** [StepRetryConfig::parse]. *)
Definition StepRetryConfig_parse (v : value)
  : result (list StepRetryValidationError) StepRetryConfig :=
  match from_value v with
  | None => Err [MaxAttemptsOutOfRange]
  | Some config =>
      let errors := StepRetryConfig_validate config in
      if is_empty errors then Ok config else Err errors
  end.
End RetryParse.

(** ** Loop configuration ([loop_schema.rs]) *)

(** [max_iterations] is a [u32]. *)
Record LoopNodeConfig : Type := mk_LoopNodeConfig {
  loop_prompt : str;
  loop_until : str;
  max_iterations : N;
  fresh_context : bool;
  until_bash : option str;
  interactive : option bool;
  gate_message : option str;
}.

Inductive LoopValidationError : Type :=
| Loop_EmptyPrompt
| EmptyUntil
| MaxIterationsNotPositive
| InteractiveRequiresGateMessage.

(** [LoopNodeConfig::validate]. *)
Definition LoopNodeConfig_validate (c : LoopNodeConfig) : list LoopValidationError :=
  (if is_empty (loop_prompt c) then [Loop_EmptyPrompt] else [])
  ++ (if is_empty (loop_until c) then [EmptyUntil] else [])
  ++ (if (max_iterations c =? 0)%N then [MaxIterationsNotPositive] else [])
  ++ (if bool_decide (interactive c = Some true) then
        let missing :=
          match gate_message c with None => true | Some msg => is_empty msg end in
        if missing then [InteractiveRequiresGateMessage] else []
      else []).

Section LoopParse.
(** The derived [serde_json::from_value::<LoopNodeConfig>], with the text of
    its error. *)
Variable from_value : value -> result str LoopNodeConfig.

(** [LoopNodeConfig::parse]. *)
Definition LoopNodeConfig_parse (v : value)
  : result (list LoopValidationError) LoopNodeConfig :=
  match from_value v with
  | Err msg =>
      if contains (lit "prompt") msg then Err [Loop_EmptyPrompt]
      else if contains (lit "until") msg then Err [EmptyUntil]
      else Err [Loop_EmptyPrompt]
  | Ok config =>
      let errors := LoopNodeConfig_validate config in
      if is_empty errors then Ok config else Err errors
  end.
End LoopParse.

(** ** Hooks ([hooks_schema.rs]) *)

Inductive WorkflowHookEvent : Type :=
| PreToolUse | PostToolUse | PostToolUseFailure | Notification_
| UserPromptSubmit | SessionStart | SessionEnd | Stop | SubagentStart
| SubagentStop | PreCompact | PermissionRequest | Setup | TeammateIdle
| TaskCompleted | Elicitation | ElicitationResult | ConfigChange
| WorktreeCreate | WorktreeRemove | InstructionsLoaded.

#[export] Instance WorkflowHookEvent_eq_dec : EqDecision WorkflowHookEvent.
Proof. solve_decision. Defined.

(** [WorkflowHookEvent::as_str]. *)
Definition WorkflowHookEvent_as_str (e : WorkflowHookEvent) : str :=
  match e with
  | PreToolUse => lit "PreToolUse"
  | PostToolUse => lit "PostToolUse"
  | PostToolUseFailure => lit "PostToolUseFailure"
  | Notification_ => lit "Notification"
  | UserPromptSubmit => lit "UserPromptSubmit"
  | SessionStart => lit "SessionStart"
  | SessionEnd => lit "SessionEnd"
  | Stop => lit "Stop"
  | SubagentStart => lit "SubagentStart"
  | SubagentStop => lit "SubagentStop"
  | PreCompact => lit "PreCompact"
  | PermissionRequest => lit "PermissionRequest"
  | Setup => lit "Setup"
  | TeammateIdle => lit "TeammateIdle"
  | TaskCompleted => lit "TaskCompleted"
  | Elicitation => lit "Elicitation"
  | ElicitationResult => lit "ElicitationResult"
  | ConfigChange => lit "ConfigChange"
  | WorktreeCreate => lit "WorktreeCreate"
  | WorktreeRemove => lit "WorktreeRemove"
  | InstructionsLoaded => lit "InstructionsLoaded"
  end.

(** [WorkflowHookEvent::from_str]. *)
Definition WorkflowHookEvent_from_str (s : str) : result unit WorkflowHookEvent :=
  if str_eqb s (lit "PreToolUse") then Ok PreToolUse
  else if str_eqb s (lit "PostToolUse") then Ok PostToolUse
  else if str_eqb s (lit "PostToolUseFailure") then Ok PostToolUseFailure
  else if str_eqb s (lit "Notification") then Ok Notification_
  else if str_eqb s (lit "UserPromptSubmit") then Ok UserPromptSubmit
  else if str_eqb s (lit "SessionStart") then Ok SessionStart
  else if str_eqb s (lit "SessionEnd") then Ok SessionEnd
  else if str_eqb s (lit "Stop") then Ok Stop
  else if str_eqb s (lit "SubagentStart") then Ok SubagentStart
  else if str_eqb s (lit "SubagentStop") then Ok SubagentStop
  else if str_eqb s (lit "PreCompact") then Ok PreCompact
  else if str_eqb s (lit "PermissionRequest") then Ok PermissionRequest
  else if str_eqb s (lit "Setup") then Ok Setup
  else if str_eqb s (lit "TeammateIdle") then Ok TeammateIdle
  else if str_eqb s (lit "TaskCompleted") then Ok TaskCompleted
  else if str_eqb s (lit "Elicitation") then Ok Elicitation
  else if str_eqb s (lit "ElicitationResult") then Ok ElicitationResult
  else if str_eqb s (lit "ConfigChange") then Ok ConfigChange
  else if str_eqb s (lit "WorktreeCreate") then Ok WorktreeCreate
  else if str_eqb s (lit "WorktreeRemove") then Ok WorktreeRemove
  else if str_eqb s (lit "InstructionsLoaded") then Ok InstructionsLoaded
  else Err tt.

Definition WORKFLOW_HOOK_EVENTS : list WorkflowHookEvent :=
  [PreToolUse; PostToolUse; PostToolUseFailure; Notification_;
   UserPromptSubmit; SessionStart; SessionEnd; Stop; SubagentStart;
   SubagentStop; PreCompact; PermissionRequest; Setup; TeammateIdle;
   TaskCompleted; Elicitation; ElicitationResult; ConfigChange;
   WorktreeCreate; WorktreeRemove; InstructionsLoaded].

Record WorkflowHookMatcher : Type := mk_WorkflowHookMatcher {
  matcher : option str;
  response : gmap str value;
  hook_timeout : option f64;
}.

Inductive HookMatcherValidationError : Type := Hook_TimeoutNotPositive.

(** [WorkflowHookMatcher::validate]. *)
Definition WorkflowHookMatcher_validate (m : WorkflowHookMatcher)
  : list HookMatcherValidationError :=
  match hook_timeout m with
  | Some t => if f64_leb t f64_zero then [Hook_TimeoutNotPositive] else []
  | None => []
  end.

Inductive HookValidationError : Type := UnknownEvent (key valid : str).

(** The map from events to matchers: the latest binding of an event first. *)
Record WorkflowNodeHooks : Type := mk_WorkflowNodeHooks {
  hook_events : list (WorkflowHookEvent * list WorkflowHookMatcher);
}.

(** [WorkflowNodeHooks::get] and [WorkflowNodeHooks::insert]. *)
Definition WorkflowNodeHooks_get (h : WorkflowNodeHooks) (e : WorkflowHookEvent)
  : option (list WorkflowHookMatcher) :=
  snd <$> List.find (fun p => bool_decide (fst p = e)) (hook_events h).
Definition WorkflowNodeHooks_insert (h : WorkflowNodeHooks) (e : WorkflowHookEvent)
  (ms : list WorkflowHookMatcher) : WorkflowNodeHooks :=
  mk_WorkflowNodeHooks
    ((e, ms) :: List.filter (fun p => negb (bool_decide (fst p = e))) (hook_events h)).

Section HooksParse.
Context `{HashMapOrder}.
(** [serde_json::from_value] at the two types [parse] reads. *)
Variable map_from_value : value -> option (gmap str value).
Variable matchers_from_value : value -> option (list WorkflowHookMatcher).

(** One round of the loop over the entries of the map. *)
Definition hooks_parse_step
  (acc : list HookValidationError * WorkflowNodeHooks) (kv : str * value)
  : list HookValidationError * WorkflowNodeHooks :=
  let '(errors, events) := acc in
  let '(key, val) := kv in
  match WorkflowHookEvent_from_str key with
  | Ok event =>
      match matchers_from_value val with
      | Some matchers => (errors, WorkflowNodeHooks_insert events event matchers)
      | None => (errors, events)
      end
  | Err _ =>
      let valid_names :=
        join (lit ", ") (map WorkflowHookEvent_as_str WORKFLOW_HOOK_EVENTS) in
      (errors ++ [UnknownEvent key valid_names], events)
  end.

(** [WorkflowNodeHooks::parse]. *)
Definition WorkflowNodeHooks_parse (v : value)
  : result (list HookValidationError) WorkflowNodeHooks :=
  match map_from_value v with
  | None => Err []
  | Some m =>
      let '(errors, events) :=
        fold_left hooks_parse_step (hm_iter m) ([], mk_WorkflowNodeHooks []) in
      if is_empty errors then Ok events else Err errors
  end.
End HooksParse.

(** ** Node vocabulary ([dag_node.rs]) *)

Inductive TriggerRule : Type :=
| AllSuccess
| OneSuccess
| NoneFailedMinOneSuccess
| AllDone.

Definition TRIGGER_RULES : list TriggerRule :=
  [AllSuccess; OneSuccess; NoneFailedMinOneSuccess; AllDone].

Definition is_trigger_rule (v : str) : bool :=
  str_eqb v (lit "all_success") || str_eqb v (lit "one_success")
  || str_eqb v (lit "none_failed_min_one_success") || str_eqb v (lit "all_done").

Inductive EffortLevel : Type := Effort_Low | Effort_Medium | Effort_High | Effort_Max.

(** [budget_tokens] is a [u32]. *)
Inductive ThinkingConfig : Type :=
| Adaptive
| Enabled (budget_tokens : option N)
| Disabled.

#[export] Instance ThinkingConfig_eq_dec : EqDecision ThinkingConfig.
Proof. solve_decision. Defined.

(** The errors of [serde::de::Error] the deserializers raise. *)
Inductive de_error : Type :=
| Custom (msg : str)
| UnknownVariant (v : str)
| MissingField (f : str)
| InvalidType.

(** [map.next_value::<String>()] and [map.next_value::<i64>()]. *)
Definition next_string (v : value) : result de_error str :=
  match v with String s => Ok s | _ => Err InvalidType end.
Definition next_i64 (v : value) : result de_error Z :=
  match v with
  | Number (PosInt n) => if (n <? 2 ^ 63)%N then Ok (Z.of_N n) else Err InvalidType
  | Number (NegInt z) => if (- 2 ^ 63 <=? z)%Z then Ok z else Err InvalidType
  | _ => Err InvalidType
  end.

(** [ThinkingConfigVisitor::visit_str]. *)
Definition thinking_visit_str (v : str) : result de_error ThinkingConfig :=
  if str_eqb v (lit "adaptive") then Ok Adaptive
  else if str_eqb v (lit "enabled") then Ok (Enabled None)
  else if str_eqb v (lit "disabled") then Ok Disabled
  else Err (UnknownVariant v).

(** The loop of [visit_map] over the entries. *)
Fixpoint thinking_visit_entries (es : list (str * value))
  (type_str : option str) (budget_tokens_raw : option Z)
  : result de_error (option str * option Z) :=
  match es with
  | [] => Ok (type_str, budget_tokens_raw)
  | (key, v) :: es' =>
      if str_eqb key (lit "type") then
        s ← next_string v; thinking_visit_entries es' (Some s) budget_tokens_raw
      else if str_eqb key (lit "budgetTokens") then
        z ← next_i64 v; thinking_visit_entries es' type_str (Some z)
      else thinking_visit_entries es' type_str budget_tokens_raw
  end.

(** [ThinkingConfigVisitor::visit_map]; [v as u32] keeps the low 32 bits. *)
Definition thinking_visit_map (es : list (str * value)) : result de_error ThinkingConfig :=
  '(type_str, budget_tokens_raw) ← thinking_visit_entries es None None;
  match type_str with
  | None => Err (MissingField (lit "type"))
  | Some t =>
      if str_eqb t (lit "adaptive") then Ok Adaptive
      else if str_eqb t (lit "enabled") then
        match budget_tokens_raw with
        | None => Ok (Enabled None)
        | Some v =>
            if (v <=? 0)%Z then Err (Custom (lit "Number must be greater than 0"))
            else Ok (Enabled (Some (Z.to_N (v mod 2 ^ 32))))
        end
      else if str_eqb t (lit "disabled") then Ok Disabled
      else Err (UnknownVariant t)
  end.

(** [ThinkingConfig::deserialize]. *)
Definition ThinkingConfig_deserialize (v : value) : result de_error ThinkingConfig :=
  match v with
  | String s => thinking_visit_str s
  | Object es => thinking_visit_map es
  | _ => Err InvalidType
  end.

Record SandboxNetworkSettings : Type := mk_SandboxNetworkSettings {
  allowed_domains : option (list str);
  allow_managed_domains_only : option bool;
  allow_unix_sockets : option (list str);
  allow_all_unix_sockets : option bool;
  allow_local_binding : option bool;
  http_proxy_port : option f64;
  socks_proxy_port : option f64;
}.

Record SandboxFilesystemSettings : Type := mk_SandboxFilesystemSettings {
  allow_write : option (list str);
  deny_write : option (list str);
  deny_read : option (list str);
}.

Record SandboxRipgrepSettings : Type := mk_SandboxRipgrepSettings {
  ripgrep_command : str;
  ripgrep_args : option (list str);
}.

Record SandboxSettings : Type := mk_SandboxSettings {
  sandbox_enabled : option bool;
  auto_allow_bash_if_sandboxed : option bool;
  allow_unsandboxed_commands : option bool;
  sandbox_network : option SandboxNetworkSettings;
  sandbox_filesystem : option SandboxFilesystemSettings;
  ignore_violations : option (gmap str (list str));
  enable_weaker_nested_sandbox : option bool;
  enable_weaker_network_isolation : option bool;
  excluded_commands : option (list str);
  ripgrep : option SandboxRipgrepSettings;
  sandbox_extra : object;
}.

(** [max_turns] is a [u32]. *)
Record AgentDefinition : Type := mk_AgentDefinition {
  agent_description : str;
  agent_prompt : str;
  agent_model : option str;
  agent_tools : option (list str);
  agent_disallowed_tools : option (list str);
  agent_skills : option (list str);
  agent_max_turns : option N;
}.

Definition is_lower_or_digit (c : char) : bool := is_ascii_lowercase c || is_ascii_digit c.

(** The [while] loop of [is_valid_agent_id], on the remaining characters. *)
Fixpoint agent_id_tail (s : str) : bool :=
  match s with
  | [] => true
  | c :: s' =>
      if (c =? 45)%N then
        match s' with
        | nc :: _ => if is_lower_or_digit nc then agent_id_tail s' else false
        | [] => false
        end
      else if is_lower_or_digit c then agent_id_tail s'
      else false
  end.

Definition is_valid_agent_id (id : str) : bool :=
  if is_empty id then false
  else match id with
       | c :: s' => if is_lower_or_digit c then agent_id_tail s' else false
       | [] => false
       end.

Inductive ContextMode : Type := Fresh | Shared.

Record DagNodeBase : Type := mk_DagNodeBase {
  base_id : str;
  base_depends_on : list str;
  base_when : option str;
  trigger_rule : option TriggerRule;
  base_model : option str;
  base_provider : option str;
  base_context : option ContextMode;
  output_format : option object;
  allowed_tools : option (list str);
  denied_tools : option (list str);
  idle_timeout : option f64;
  base_retry : option StepRetryConfig;
  base_hooks : option WorkflowNodeHooks;
  base_mcp : option str;
  base_skills : option (list str);
  base_agents : option (gmap str AgentDefinition);
  base_effort : option EffortLevel;
  base_thinking : option ThinkingConfig;
  max_budget_usd : option f64;
  system_prompt : option str;
  fallback_model : option str;
  betas : option (list str);
  base_sandbox : option SandboxSettings;
  always_run : option bool;
  persist_session : option bool;
  output_type : option str;
}.

(** [DagNodeBase::default()], with an identifier and dependencies. *)
Definition base_default (id : str) (deps : list str) : DagNodeBase :=
  mk_DagNodeBase id deps None None None None None None None None None None None None
    None None None None None None None None None None None None.

(** [max_attempts] is a [u8]. *)
Record ApprovalOnReject : Type := mk_ApprovalOnReject {
  on_reject_prompt : str;
  on_reject_max_attempts : option N;
}.

Record ApprovalConfig : Type := mk_ApprovalConfig {
  approval_message : str;
  capture_response : option bool;
  on_reject : option ApprovalOnReject;
}.

Inductive ScriptRuntime : Type := Bun | Uv.

Record CommandNode : Type := mk_CommandNode { command_base : DagNodeBase; command : str }.
Record PromptNode : Type := mk_PromptNode { prompt_base : DagNodeBase; prompt : str }.
Record BashNode : Type := mk_BashNode {
  bash_base : DagNodeBase; bash : str; bash_timeout : option f64 }.
Record ScriptNode : Type := mk_ScriptNode {
  script_base : DagNodeBase;
  script : str;
  script_runtime : ScriptRuntime;
  script_deps : option (list str);
  script_timeout : option f64;
}.
Record LoopNode : Type := mk_LoopNode { loop_base : DagNodeBase; loop_config : LoopNodeConfig }.
Record ApprovalNode : Type := mk_ApprovalNode {
  approval_base : DagNodeBase; approval : ApprovalConfig }.
Record CancelNode : Type := mk_CancelNode { cancel_base : DagNodeBase; cancel : str }.

Inductive DagNode : Type :=
| Command (n : CommandNode)
| Prompt (n : PromptNode)
| Bash (n : BashNode)
| Script (n : ScriptNode)
| Loop (n : LoopNode)
| Approval (n : ApprovalNode)
| Cancel (n : CancelNode).

(** [DagNode::base], [DagNode::id] ([node_id]), [DagNode::depends_on]. *)
Definition base (node : DagNode) : DagNodeBase :=
  match node with
  | Command n => command_base n
  | Prompt n => prompt_base n
  | Bash n => bash_base n
  | Script n => script_base n
  | Loop n => loop_base n
  | Approval n => approval_base n
  | Cancel n => cancel_base n
  end.
Definition node_id (node : DagNode) : str :=
  match node with
  | Command n => base_id (command_base n)
  | Prompt n => base_id (prompt_base n)
  | Bash n => base_id (bash_base n)
  | Script n => base_id (script_base n)
  | Loop n => base_id (loop_base n)
  | Approval n => base_id (approval_base n)
  | Cancel n => base_id (cancel_base n)
  end.
Definition depends_on (node : DagNode) : list str :=
  match node with
  | Command n => base_depends_on (command_base n)
  | Prompt n => base_depends_on (prompt_base n)
  | Bash n => base_depends_on (bash_base n)
  | Script n => base_depends_on (script_base n)
  | Loop n => base_depends_on (loop_base n)
  | Approval n => base_depends_on (approval_base n)
  | Cancel n => base_depends_on (cancel_base n)
  end.

(** ** Deserialization of a node *)

Record RawDagNode : Type := mk_RawDagNode {
  raw_base : DagNodeBase;
  raw_command : option str;
  raw_prompt : option str;
  raw_bash : option str;
  raw_loop_config : option LoopNodeConfig;
  raw_approval : option ApprovalConfig;
  raw_cancel : option str;
  raw_script : option str;
  raw_runtime : option ScriptRuntime;
  raw_deps : option (list str);
  raw_timeout : option f64;
}.

(** [.as_deref().map(|s| !s.trim().is_empty()).unwrap_or(false)]. *)
Definition non_blank (o : option str) : bool :=
  match o with Some s => negb (is_empty (trim s)) | None => false end.

Definition has_command (r : RawDagNode) : bool := non_blank (raw_command r).
Definition has_prompt (r : RawDagNode) : bool := non_blank (raw_prompt r).
Definition has_bash (r : RawDagNode) : bool := non_blank (raw_bash r).
Definition has_loop (r : RawDagNode) : bool :=
  match raw_loop_config r with Some _ => true | None => false end.
Definition has_approval (r : RawDagNode) : bool :=
  match raw_approval r with Some _ => true | None => false end.
Definition has_cancel (r : RawDagNode) : bool := non_blank (raw_cancel r).
Definition has_script (r : RawDagNode) : bool := non_blank (raw_script r).

Definition mode_count (r : RawDagNode) : nat :=
  length (List.filter (fun b => b)
    [has_command r; has_prompt r; has_bash r; has_loop r; has_approval r;
     has_cancel r; has_script r]).

Definition trimmed (o : option str) : str :=
  match o with Some s => trim s | None => [] end.

(** [DagNode::deserialize], from the raw structure on. *)
Definition DagNode_deserialize (raw : RawDagNode) : result de_error DagNode :=
  if Nat.ltb 1 (mode_count raw) then
    Err (Custom (lit "'command', 'prompt', 'bash', 'loop', 'approval', 'cancel', and 'script' are mutually exclusive"))
  else if Nat.eqb (mode_count raw) 0 then
    match raw_bash raw, raw_prompt raw, raw_script raw with
    | Some _, _, _ => Err (Custom (lit "bash script cannot be empty"))
    | None, Some _, _ => Err (Custom (lit "prompt cannot be empty"))
    | None, None, Some _ => Err (Custom (lit "script cannot be empty"))
    | None, None, None =>
        Err (Custom (lit "must have either 'command', 'prompt', 'bash', 'loop', 'approval', 'cancel', or 'script'"))
    end
  else if has_command raw then
    Ok (Command (mk_CommandNode (raw_base raw) (trimmed (raw_command raw))))
  else if has_prompt raw then
    Ok (Prompt (mk_PromptNode (raw_base raw) (trimmed (raw_prompt raw))))
  else if has_bash raw then
    Ok (Bash (mk_BashNode (raw_base raw) (trimmed (raw_bash raw)) (raw_timeout raw)))
  else if has_script raw then
    match raw_runtime raw with
    | None => Err (Custom (lit "'runtime' is required for script nodes ('bun' or 'uv')"))
    | Some runtime =>
        Ok (Script (mk_ScriptNode (raw_base raw) (trimmed (raw_script raw)) runtime
                      (raw_deps raw) (raw_timeout raw)))
    end
  else
    match raw_approval raw with
    | Some a => Ok (Approval (mk_ApprovalNode (raw_base raw) a))
    | None =>
        if has_cancel raw then
          Ok (Cancel (mk_CancelNode (raw_base raw) (trimmed (raw_cancel raw))))
        else
          match raw_loop_config raw with
          | Some l => Ok (Loop (mk_LoopNode (raw_base raw) l))
          | None => Err InvalidType
          end
    end.

(** ** Type guards and field lists *)

Definition is_bash_node (n : DagNode) : bool := match n with Bash _ => true | _ => false end.
Definition is_loop_node (n : DagNode) : bool := match n with Loop _ => true | _ => false end.
Definition is_approval_node (n : DagNode) : bool :=
  match n with Approval _ => true | _ => false end.
Definition is_cancel_node (n : DagNode) : bool :=
  match n with Cancel _ => true | _ => false end.
Definition is_script_node (n : DagNode) : bool :=
  match n with Script _ => true | _ => false end.
Definition is_persistable_node (n : DagNode) : bool :=
  negb (is_loop_node n) && negb (is_approval_node n) && negb (is_cancel_node n)
  && negb (is_script_node n) && negb (is_bash_node n).

Definition BASH_NODE_AI_FIELDS : list str :=
  [lit "provider"; lit "model"; lit "context"; lit "output_format"; lit "allowed_tools";
   lit "denied_tools"; lit "hooks"; lit "mcp"; lit "skills"; lit "agents"; lit "effort";
   lit "thinking"; lit "maxBudgetUsd"; lit "systemPrompt"; lit "fallbackModel";
   lit "betas"; lit "sandbox"; lit "persist_session"].
Definition SCRIPT_NODE_AI_FIELDS : list str := BASH_NODE_AI_FIELDS.
Definition LOOP_NODE_AI_FIELDS : list str :=
  [lit "context"; lit "output_format"; lit "allowed_tools"; lit "denied_tools";
   lit "hooks"; lit "mcp"; lit "skills"; lit "agents"; lit "effort"; lit "thinking";
   lit "maxBudgetUsd"; lit "systemPrompt"; lit "fallbackModel"; lit "betas";
   lit "sandbox"; lit "persist_session"].

(** ** Validation *)

Inductive DagNodeValidationError : Type :=
| EmptyId
| MultipleModes
| NoMode
| EmptyBash
| EmptyPrompt
| EmptyScript
| InvalidCommandName (name : str)
| TimeoutNotPositive
| ScriptMissingRuntime
| LoopWithRetry
| IdleTimeoutNotPositive
| InvalidAgentId (id : str)
| ThinkingBudgetNotPositive
| AgentMaxTurnsNotPositive (id : str)
| AgentDescriptionEmpty (id : str)
| AgentPromptEmpty (id : str)
| ApprovalMaxAttemptsBelow1
| ApprovalMaxAttemptsAbove10
| MaxBudgetUsdNotPositive
| BetasEmpty
| BetasElementEmpty
| SkillsEmpty
| SkillsElementEmpty
| AgentsEmpty
| ProviderBlank
| McpEmpty
| SystemPromptEmpty
| FallbackModelEmpty
| OutputTypeEmpty.

Definition is_valid_command_name (name : str) : bool :=
  if is_empty name || starts_with [46%N] name then false
  else if contains [47%N] name || contains [backslash] name || contains (lit "..") name
  then false
  else true.

(** One push per condition that holds. *)
Definition push_if {E} (b : bool) (e : E) : list E := if b then [e] else [].
(** [if let Some(x) = o { .. }]. *)
Definition on_some {A E} (o : option A) (f : A -> list E) : list E :=
  match o with Some a => f a | None => [] end.

(** [t <= 0.0 || !t.is_finite()]. *)
Definition not_positive_finite (t : f64) : bool :=
  f64_leb t f64_zero || negb (f64_is_finite t).

(** The checks of one entry of [agents]. *)
Definition validate_agent (entry : str * AgentDefinition) : list DagNodeValidationError :=
  let '(key, agent) := entry in
  push_if (negb (is_valid_agent_id key)) (InvalidAgentId key)
  ++ push_if (is_empty (agent_description agent)) (AgentDescriptionEmpty key)
  ++ push_if (is_empty (agent_prompt agent)) (AgentPromptEmpty key)
  ++ push_if (bool_decide (agent_max_turns agent = Some 0%N)) (AgentMaxTurnsNotPositive key).

Section Validate.
Context `{HashMapOrder}.

(** The first half of [validate_dag_node]: thinking, provider, mcp, skills
    and agents. *)
Definition validate_base_options (b : DagNodeBase) : list DagNodeValidationError :=
  match base_thinking b with
  | Some (Enabled (Some 0%N)) => [ThinkingBudgetNotPositive]
  | _ => []
  end
  ++ on_some (base_provider b) (fun p => push_if (is_empty (trim p)) ProviderBlank)
  ++ on_some (base_mcp b) (fun m => push_if (is_empty m) McpEmpty)
  ++ on_some (base_skills b) (fun skills =>
       if is_empty skills then [SkillsEmpty]
       else flat_map (fun s => push_if (is_empty s) SkillsElementEmpty) skills)
  ++ on_some (base_agents b) (fun agents =>
       push_if (bool_decide (agents = ∅)) AgentsEmpty
       ++ flat_map validate_agent (hm_iter agents)).

(** Budget, prompts, betas and output type. *)
Definition validate_base_bounds (b : DagNodeBase) : list DagNodeValidationError :=
  on_some (max_budget_usd b) (fun x => push_if (f64_leb x f64_zero) MaxBudgetUsdNotPositive)
  ++ on_some (system_prompt b) (fun s => push_if (is_empty s) SystemPromptEmpty)
  ++ on_some (fallback_model b) (fun f => push_if (is_empty f) FallbackModelEmpty)
  ++ on_some (betas b) (fun bs =>
       if is_empty bs then [BetasEmpty]
       else flat_map (fun s => push_if (is_empty s) BetasElementEmpty) bs)
  ++ on_some (output_type b) (fun o => push_if (is_empty o) OutputTypeEmpty).

(** The checks that depend on the variant, and the idle timeout. *)
Definition validate_variant (node : DagNode) : list DagNodeValidationError :=
  match node with
  | Approval n =>
      on_some (on_reject (approval n)) (fun r =>
        on_some (on_reject_max_attempts r) (fun ma =>
          if (ma <? 1)%N then [ApprovalMaxAttemptsBelow1]
          else if (10 <? ma)%N then [ApprovalMaxAttemptsAbove10] else []))
  | Command n =>
      push_if (negb (is_valid_command_name (command n))) (InvalidCommandName (command n))
  | Bash n => on_some (bash_timeout n) (fun t => push_if (not_positive_finite t) TimeoutNotPositive)
  | Script n =>
      on_some (script_timeout n) (fun t => push_if (not_positive_finite t) TimeoutNotPositive)
  | Loop n =>
      match base_retry (loop_base n) with Some _ => [LoopWithRetry] | None => [] end
  | Prompt _ | Cancel _ => []
  end
  ++ on_some (idle_timeout (base node))
       (fun t => push_if (not_positive_finite t) IdleTimeoutNotPositive).

Definition validate_dag_node (node : DagNode) : list DagNodeValidationError :=
  let b := base node in
  if is_empty (trim (base_id b)) then [EmptyId]
  else validate_base_options b ++ validate_base_bounds b ++ validate_variant node.
End Validate.

(** ** Lemmas *)

Lemma push_if_nil {E} b (e : E) : push_if b e = [] <-> b = false.
Proof. by destruct b. Qed.

Lemma on_some_nil {A E} (o : option A) (f : A -> list E) :
  on_some o f = [] <-> forall a, o = Some a -> f a = [].
Proof. destruct o; naive_solver. Qed.

Lemma flat_map_nil {A B} (f : A -> list B) (l : list A) :
  flat_map f l = [] <-> Forall (fun a => f a = []) l.
Proof.
  induction l as [|a l IH]; simpl; [by split|].
  rewrite app_nil, IH, Forall_cons. done.
Qed.

Lemma is_empty_false {A} (l : list A) : is_empty l = false <-> l <> [].
Proof. by destruct l. Qed.

Create Rewrite HintDb errs.
#[export] Hint Rewrite @push_if_nil @on_some_nil @flat_map_nil @app_nil
  orb_false_iff negb_false_iff @is_empty_false bool_decide_eq_false : errs.

(** *** Agent identifiers are the kebab-case words *)

Definition kebab_segment (s : str) : Prop := s <> [] /\ forallb is_lower_or_digit s = true.
(** [^[a-z0-9]+(-[a-z0-9]+)*$]. *)
Definition kebab_case (s : str) : Prop :=
  exists segs, segs <> [] /\ Forall kebab_segment segs /\ s = join (lit "-") segs.

Lemma lower_or_digit_not_hyphen c : is_lower_or_digit c = true -> (c =? 45)%N = false.
Proof.
  unfold is_lower_or_digit, is_ascii_lowercase, is_ascii_digit, in_range.
  intros H. apply N.eqb_neq. intros ->. vm_compute in H. done.
Qed.

(** A tail that is accepted ends a segment and adds further ones. *)
Lemma agent_id_tail_split (s : str) :
  agent_id_tail s = true ->
  exists w segs, forallb is_lower_or_digit w = true /\ Forall kebab_segment segs
    /\ s = w ++ flat_map (fun g => lit "-" ++ g) segs.
Proof.
  induction s as [|c s IH]; simpl; [by exists [], []|].
  destruct (N.eqb_spec c 45) as [->|Hc].
  - destruct s as [|d s]; [done|].
    destruct (is_lower_or_digit d) eqn:Hd; [|done].
    intros (w & segs & Hw & Hsegs & Hs)%IH.
    exists [], (w :: segs). simpl. split; [done|]. split.
    + constructor; [|done]. split; [|done]. intros ->. simpl in Hs.
      destruct segs as [|g segs]; simpl in Hs; [done|].
      injection Hs as -> Hs. by vm_compute in Hd.
    + by rewrite Hs.
  - destruct (is_lower_or_digit c) eqn:Hlc; [|done].
    intros (w & segs & Hw & Hsegs & Hs)%IH.
    exists (c :: w), segs. simpl. rewrite Hlc, Hs. done.
Qed.

Lemma agent_id_tail_word (w s : str) :
  forallb is_lower_or_digit w = true -> agent_id_tail (w ++ s) = agent_id_tail s.
Proof.
  induction w as [|c w IH]; simpl; [done|].
  intros [Hc Hw]%andb_prop. rewrite (lower_or_digit_not_hyphen _ Hc), Hc. auto.
Qed.

Lemma agent_id_tail_segments (segs : list str) :
  Forall kebab_segment segs -> agent_id_tail (flat_map (fun g => lit "-" ++ g) segs) = true.
Proof.
  induction 1 as [|g segs [Hne Hg] Hs IH]; [done|].
  destruct g as [|c g]; [done|]. simpl in Hg. apply andb_prop in Hg as [Hc Hg].
  change (agent_id_tail ((lit "-" ++ c :: g) ++ flat_map (fun g => lit "-" ++ g) segs)
          = true).
  change (lit "-" ++ c :: g) with (45%N :: c :: g). simpl.
  rewrite Hc, (lower_or_digit_not_hyphen _ Hc). by rewrite agent_id_tail_word.
Qed.

Lemma join_hyphen (g : str) (segs : list str) :
  join (lit "-") (g :: segs) = g ++ flat_map (fun g => lit "-" ++ g) segs.
Proof.
  revert g; induction segs as [|h segs IH]; intros g; simpl; [by rewrite app_nil_r|].
  f_equal. exact (f_equal (app (lit "-")) (IH h)).
Qed.

Lemma agent_id_kebab (s : str) : is_valid_agent_id s = true <-> kebab_case s.
Proof.
  unfold is_valid_agent_id. split.
  - destruct s as [|c s]; simpl; [done|].
    destruct (is_lower_or_digit c) eqn:Hc; [|done].
    intros (w & segs & Hw & Hsegs & ->)%agent_id_tail_split.
    exists ((c :: w) :: segs). rewrite join_hyphen. split; [done|]. split; [|done].
    constructor; [|done]. split; [done|]. simpl. by rewrite Hc.
  - intros ([|g segs] & Hne & Hsegs & ->); [done|]. rewrite join_hyphen.
    inversion_clear Hsegs as [|?? [Hg Hgc] Hs].
    destruct g as [|c g]; [done|]. simpl in Hgc |- *.
    apply andb_prop in Hgc as [Hc Hgc]. rewrite Hc, agent_id_tail_word by done.
    by apply agent_id_tail_segments.
Qed.

(** *** What [validate_dag_node] accepts *)

Definition valid_command_name (name : str) : Prop :=
  name <> [] /\ head name <> Some 46%N /\ ~ In 47%N name /\ ~ In backslash name
  /\ contains (lit "..") name = false.

Definition positive_finite (t : f64) : Prop :=
  f64_is_finite t = true /\ f64_positive t = true.

Definition agent_wf (key : str) (a : AgentDefinition) : Prop :=
  kebab_case key /\ agent_description a <> [] /\ agent_prompt a <> []
  /\ agent_max_turns a <> Some 0%N.

Definition variant_wf (node : DagNode) : Prop :=
  match node with
  | Approval n => forall r ma, on_reject (approval n) = Some r ->
      on_reject_max_attempts r = Some ma -> (1 <= ma <= 10)%N
  | Command n => valid_command_name (command n)
  | Bash n => forall t, bash_timeout n = Some t -> positive_finite t
  | Script n => forall t, script_timeout n = Some t -> positive_finite t
  | Loop n => base_retry (loop_base n) = None
  | Prompt _ | Cancel _ => True
  end.

Record node_wf (node : DagNode) : Prop := {
  wf_id : trim (base_id (base node)) <> [];
  wf_thinking : base_thinking (base node) <> Some (Enabled (Some 0%N));
  wf_provider : forall p, base_provider (base node) = Some p -> trim p <> [];
  wf_mcp : forall m, base_mcp (base node) = Some m -> m <> [];
  wf_skills : forall l, base_skills (base node) = Some l ->
    l <> [] /\ Forall (fun s => s <> []) l;
  wf_agents : forall m, base_agents (base node) = Some m ->
    m <> ∅ /\ forall k a, m !! k = Some a -> agent_wf k a;
  wf_budget : forall x, max_budget_usd (base node) = Some x -> f64_leb x f64_zero = false;
  wf_system_prompt : forall s, system_prompt (base node) = Some s -> s <> [];
  wf_fallback_model : forall s, fallback_model (base node) = Some s -> s <> [];
  wf_betas : forall l, betas (base node) = Some l -> l <> [] /\ Forall (fun s => s <> []) l;
  wf_output_type : forall s, output_type (base node) = Some s -> s <> [];
  wf_variant : variant_wf node;
  wf_idle_timeout : forall t, idle_timeout (base node) = Some t -> positive_finite t;
}.

Lemma valid_command_name_spec (name : str) :
  is_valid_command_name name = true <-> valid_command_name name.
Proof.
  unfold is_valid_command_name, valid_command_name.
  rewrite <-!contains_char, !not_true_iff_false, <-is_empty_false.
  assert (starts_with [46%N] name = true <-> head name = Some 46%N) as Hdot.
  { destruct name as [|c name]; [done|]. unfold starts_with. cbn [strip_prefix head].
    destruct (N.eqb_spec 46 c); naive_solver. }
  destruct (starts_with [46%N] name), (is_empty name), (contains [47%N] name),
    (contains [backslash] name), (contains (lit "..") name); simpl; naive_solver.
Qed.

Lemma not_positive_finite_spec (t : f64) :
  not_positive_finite t = false <-> positive_finite t.
Proof.
  unfold not_positive_finite, positive_finite. rewrite orb_false_iff, negb_false_iff.
  destruct t as [|[]| |[]]; vm_compute; naive_solver.
Qed.

Lemma nonempty_words_nil {E} (e e' : E) (l : list str) :
  (if is_empty l then [e] else flat_map (fun s => push_if (is_empty s) e') l) = []
  <-> l <> [] /\ Forall (fun s => s <> []) l.
Proof.
  destruct l as [|x l]; [naive_solver|]. simpl is_empty. cbv iota.
  rewrite flat_map_nil, !Forall_forall. setoid_rewrite push_if_nil.
  setoid_rewrite is_empty_false. naive_solver.
Qed.

Lemma validate_agent_nil (k : str) (a : AgentDefinition) :
  validate_agent (k, a) = [] <-> agent_wf k a.
Proof.
  unfold validate_agent, agent_wf. autorewrite with errs.
  rewrite <-agent_id_kebab. naive_solver.
Qed.

Lemma validate_agents_nil `{HashMapOrder} (m : gmap str AgentDefinition) :
  flat_map validate_agent (hm_iter m) = []
  <-> forall k a, m !! k = Some a -> agent_wf k a.
Proof.
  rewrite flat_map_nil, Forall_forall. split.
  - intros Hf k a Hk. apply validate_agent_nil, Hf, hm_iter_elem. done.
  - intros Hf [k a] Hk. apply validate_agent_nil, Hf, hm_iter_elem. done.
Qed.

Lemma validate_base_options_nil `{HashMapOrder} (b : DagNodeBase) :
  validate_base_options b = [] <->
  base_thinking b <> Some (Enabled (Some 0%N))
  /\ (forall p, base_provider b = Some p -> trim p <> [])
  /\ (forall m, base_mcp b = Some m -> m <> [])
  /\ (forall l, base_skills b = Some l -> l <> [] /\ Forall (fun s => s <> []) l)
  /\ (forall m, base_agents b = Some m ->
        m <> ∅ /\ forall k a, m !! k = Some a -> agent_wf k a).
Proof.
  unfold validate_base_options. rewrite !app_nil, !on_some_nil.
  setoid_rewrite app_nil. setoid_rewrite push_if_nil.
  setoid_rewrite is_empty_false. setoid_rewrite nonempty_words_nil.
  setoid_rewrite validate_agents_nil. setoid_rewrite bool_decide_eq_false.
  assert (match base_thinking b with
          | Some (Enabled (Some 0%N)) => [ThinkingBudgetNotPositive] | _ => [] end = []
          <-> base_thinking b <> Some (Enabled (Some 0%N))) as ->; [|done].
  destruct (base_thinking b) as [[|[[]|]|]|]; naive_solver.
Qed.

Lemma validate_base_bounds_nil (b : DagNodeBase) :
  validate_base_bounds b = [] <->
  (forall x, max_budget_usd b = Some x -> f64_leb x f64_zero = false)
  /\ (forall s, system_prompt b = Some s -> s <> [])
  /\ (forall s, fallback_model b = Some s -> s <> [])
  /\ (forall l, betas b = Some l -> l <> [] /\ Forall (fun s => s <> []) l)
  /\ (forall s, output_type b = Some s -> s <> []).
Proof.
  unfold validate_base_bounds. rewrite !app_nil, !on_some_nil.
  setoid_rewrite push_if_nil. setoid_rewrite is_empty_false.
  setoid_rewrite nonempty_words_nil. done.
Qed.

Lemma validate_variant_nil (node : DagNode) :
  validate_variant node = [] <->
  variant_wf node /\ forall t, idle_timeout (base node) = Some t -> positive_finite t.
Proof.
  unfold validate_variant. rewrite app_nil, on_some_nil.
  setoid_rewrite push_if_nil. setoid_rewrite not_positive_finite_spec.
  apply and_iff_compat_r. destruct node; simpl; try (by split).
  - rewrite push_if_nil, negb_false_iff. apply valid_command_name_spec.
  - rewrite on_some_nil. setoid_rewrite push_if_nil.
    by setoid_rewrite not_positive_finite_spec.
  - rewrite on_some_nil. setoid_rewrite push_if_nil.
    by setoid_rewrite not_positive_finite_spec.
  - by destruct (base_retry (loop_base n)).
  - rewrite on_some_nil. setoid_rewrite on_some_nil. split.
    + intros Hn r ma Hr Hma. specialize (Hn r Hr ma Hma).
      destruct (N.ltb_spec ma 1); [done|]. destruct (N.ltb_spec 10 ma); [done|]. lia.
    + intros Hn r Hr ma Hma. specialize (Hn r ma Hr Hma).
      destruct (N.ltb_spec ma 1); [lia|]. destruct (N.ltb_spec 10 ma); [lia|]. done.
Qed.

(** *** What deserialization accepts *)

(** The node a raw structure with one mode field stands for. *)
Definition raw_denotes (raw : RawDagNode) (node : DagNode) : Prop :=
  base node = raw_base raw /\
  match node with
  | Command n => has_command raw = true /\ Some (command n) = trim <$> raw_command raw
  | Prompt n => has_prompt raw = true /\ Some (prompt n) = trim <$> raw_prompt raw
  | Bash n => has_bash raw = true /\ Some (bash n) = trim <$> raw_bash raw
      /\ bash_timeout n = raw_timeout raw
  | Script n => has_script raw = true /\ Some (script n) = trim <$> raw_script raw
      /\ Some (script_runtime n) = raw_runtime raw /\ script_deps n = raw_deps raw
      /\ script_timeout n = raw_timeout raw
  | Loop n => Some (loop_config n) = raw_loop_config raw
  | Approval n => Some (approval n) = raw_approval raw
  | Cancel n => has_cancel raw = true /\ Some (cancel n) = trim <$> raw_cancel raw
  end.

Lemma trimmed_Some (o : option str) x :
  non_blank o = true -> (trimmed o = x <-> Some x = trim <$> o).
Proof. destruct o; naive_solver. Qed.

Lemma deserialize_sound (raw : RawDagNode) (node : DagNode) :
  DagNode_deserialize raw = Ok node -> mode_count raw = 1 /\ raw_denotes raw node.
Proof.
  unfold DagNode_deserialize, raw_denotes.
  destruct (Nat.ltb_spec 1 (mode_count raw)); [done|].
  destruct (Nat.eqb_spec (mode_count raw) 0).
  { by destruct (raw_bash raw), (raw_prompt raw), (raw_script raw). }
  intros Hd. split; [lia|]. revert Hd.
  unfold has_command, has_prompt, has_bash, has_script, has_cancel.
  repeat case_match; intros; simplify_eq; simpl; repeat split; try done;
    by apply trimmed_Some.
Qed.

Lemma mode_count_bool raw :
  mode_count raw =
  Nat.b2n (has_command raw) + Nat.b2n (has_prompt raw) + Nat.b2n (has_bash raw)
  + Nat.b2n (has_loop raw) + Nat.b2n (has_approval raw) + Nat.b2n (has_cancel raw)
  + Nat.b2n (has_script raw).
Proof.
  unfold mode_count.
  by destruct (has_command raw), (has_prompt raw), (has_bash raw), (has_loop raw),
    (has_approval raw), (has_cancel raw), (has_script raw).
Qed.

Lemma deserialize_complete (raw : RawDagNode) (node : DagNode) :
  mode_count raw = 1 -> raw_denotes raw node -> DagNode_deserialize raw = Ok node.
Proof.
  intros Hm [Hb Hd]. unfold DagNode_deserialize. rewrite Hm. cbn [Nat.ltb Nat.leb Nat.eqb].
  rewrite mode_count_bool in Hm.
  assert (has_loop raw = true <-> is_Some (raw_loop_config raw)) as Hl.
  { unfold has_loop, is_Some. destruct (raw_loop_config raw); naive_solver. }
  assert (has_approval raw = true <-> is_Some (raw_approval raw)) as Ha.
  { unfold has_approval, is_Some. destruct (raw_approval raw); naive_solver. }
  assert (forall o, raw_approval raw = o -> has_approval raw = false -> o = None) as Hna.
  { unfold has_approval. intros [a|] ->; done. }
  destruct node as [[b c]|[b c]|[b c t]|[b c rt ds t]|[b l]|[b a]|[b c]]; simpl in *;
    subst b; destruct_and?.
  all: try (assert (has_loop raw = true) as ? by (apply Hl; eauto)).
  all: try (assert (has_approval raw = true) as ? by (apply Ha; eauto)).
  all: destruct (has_command raw) eqn:E1, (has_prompt raw) eqn:E2, (has_bash raw) eqn:E3,
    (has_script raw) eqn:E4, (has_cancel raw) eqn:E5, (has_approval raw) eqn:E6,
    (has_loop raw) eqn:E7; simpl in Hm; try lia; try done.
  all: try rewrite (Hna _ eq_refl) by done.
  all: unfold has_command, has_prompt, has_bash, has_script, has_cancel in *.
  all: repeat match goal with H : Some _ = trim <$> _ |- _ => apply trimmed_Some in H; [|done] end.
  all: repeat match goal with H : Some _ = raw_runtime _ |- _ => rewrite <-H end.
  all: try match goal with H : Some _ = raw_approval _ |- _ => rewrite <-H end.
  all: try match goal with H : Some _ = raw_loop_config _ |- _ => rewrite <-H end.
  all: by subst.
Qed.

(** *** Hooks *)

Lemma hook_event_from_as_str (e : WorkflowHookEvent) :
  WorkflowHookEvent_from_str (WorkflowHookEvent_as_str e) = Ok e.
Proof. destruct e; by_compute. Qed.

Lemma hook_event_as_from_str (s : str) (e : WorkflowHookEvent) :
  WorkflowHookEvent_from_str s = Ok e -> WorkflowHookEvent_as_str e = s.
Proof.
  unfold WorkflowHookEvent_from_str.
  repeat (case_match eqn:E;
    [apply str_eqb_spec in E as ->; intros [= <-]; reflexivity|clear E]).
  done.
Qed.

Lemma hook_event_known (s : str) :
  is_ok (WorkflowHookEvent_from_str s) = true
  <-> In s (map WorkflowHookEvent_as_str WORKFLOW_HOOK_EVENTS).
Proof.
  rewrite in_map_iff. split.
  - destruct (WorkflowHookEvent_from_str s) as [e|] eqn:E; [|done]. intros _.
    apply hook_event_as_from_str in E. exists e. split; [done|].
    destruct e; simpl; tauto.
  - intros (e & <- & _). by rewrite hook_event_from_as_str.
Qed.

Lemma hooks_get_insert h e e' ms :
  WorkflowNodeHooks_get (WorkflowNodeHooks_insert h e ms) e'
  = if bool_decide (e = e') then Some ms else WorkflowNodeHooks_get h e'.
Proof.
  unfold WorkflowNodeHooks_get, WorkflowNodeHooks_insert. simpl.
  case_bool_decide as Hd; [done|]. f_equal.
  induction (hook_events h) as [|[e'' l] evs IH]; [done|]. simpl.
  destruct (bool_decide_reflect (e'' = e)) as [->|]; simpl.
  - rewrite bool_decide_eq_false_2 by done. done.
  - by rewrite IH.
Qed.

Section HooksParseLemmas.
Context `{HashMapOrder}.
Variable matchers_from_value : value -> option (list WorkflowHookMatcher).

(** The matchers an entry list binds to an event. *)
Definition entry_matchers (l : list (str * value)) (e : WorkflowHookEvent)
  : option (list WorkflowHookMatcher) :=
  v ← assoc_get (WorkflowHookEvent_as_str e) l; matchers_from_value v.

Lemma hooks_parse_loop (l : list (str * value)) errs h :
  NoDup (l.*1) ->
  let '(errs', h') :=
    fold_left (hooks_parse_step matchers_from_value) l (errs, h) in
  (errs' = [] <-> errs = [] /\ Forall (fun kv => is_ok (WorkflowHookEvent_from_str kv.1) = true) l)
  /\ forall e, WorkflowNodeHooks_get h' e
     = match entry_matchers l e with
       | Some ms => Some ms
       | None => WorkflowNodeHooks_get h e
       end.
Proof.
  revert errs h; induction l as [|[k v] l IH]; intros errs h Hnd; simpl.
  { rewrite Forall_nil. naive_solver. }
  inversion_clear Hnd as [|?? Hk Hnd'].
  destruct (WorkflowHookEvent_from_str k) as [e0|] eqn:Ek; simpl.
  - pose proof (hook_event_as_from_str _ _ Ek) as Ek'.
    set (h0 := match matchers_from_value v with
               | Some ms => WorkflowNodeHooks_insert h e0 ms | None => h end).
    replace (match matchers_from_value v with
             | Some matchers => (errs, WorkflowNodeHooks_insert h e0 matchers)
             | None => (errs, h) end) with (errs, h0)
      by (unfold h0; by destruct (matchers_from_value v)).
    specialize (IH errs h0 Hnd').
    destruct (fold_left _ l (errs, h0)) as [errs' h'] eqn:Ef.
    destruct IH as [IH1 IH2]. split; [rewrite IH1, Forall_cons; simpl; rewrite Ek; naive_solver|].
    intros e. rewrite IH2. unfold entry_matchers. simpl.
    destruct (bool_decide_reflect (WorkflowHookEvent_as_str e = k)) as [He|Hne].
    + assert (assoc_get (WorkflowHookEvent_as_str e) l = None) as ->.
      { apply assoc_get_None. rewrite He, <-list_elem_of_In. done. }
      assert (e0 = e) as ->.
      { rewrite <-Ek' in He. apply (f_equal WorkflowHookEvent_from_str) in He.
        rewrite !hook_event_from_as_str in He. by injection He. }
      unfold h0. simpl. destruct (matchers_from_value v); simpl; [|done].
      rewrite hooks_get_insert, bool_decide_eq_true_2; done.
    + assert (WorkflowNodeHooks_get h0 e = WorkflowNodeHooks_get h e) as ->; [|done].
      unfold h0. destruct (matchers_from_value v); [|done].
      rewrite hooks_get_insert, bool_decide_eq_false_2; [done|]. by intros ->.
  - specialize (IH (errs ++ [UnknownEvent k
      (join (lit ", ") (map WorkflowHookEvent_as_str WORKFLOW_HOOK_EVENTS))]) h Hnd').
    destruct (fold_left _ l _) as [errs' h'] eqn:Ef.
    destruct IH as [IH1 IH2]. split.
    + rewrite IH1, Forall_cons. simpl. rewrite Ek.
      split; [intros [Hn _]; by destruct errs|by intros (_ & [=] & _)].
    + intros e1. rewrite IH2. unfold entry_matchers. simpl.
      rewrite bool_decide_eq_false_2; [done|]. intros He. rewrite <-He in Ek.
      by rewrite hook_event_from_as_str in Ek.
Qed.
End HooksParseLemmas.

(** ** Theorems *)

(** C38: [validate_dag_node] reports no error exactly for the nodes with a non-blank
    identifier and provider; a thinking budget that is not 0 and a cost cap that is not
    at or below 0; no empty text or list among the path of servers, the skills, agents,
    system prompt, fallback model, betas and output type; agents with kebab-case names,
    descriptions, prompts and a positive number of turns; a safe command name; 1 to 10 attempts after a
    rejection; finite positive timeouts; and no retry on a loop.  The order in which the
    map of agents is read does not matter.  Other bounds that are declared it leaves
    alone: see [unchecked_bounds]. *)
Theorem validate_dag_node_accepts `{HashMapOrder} (node : DagNode) :
  validate_dag_node node = [] <-> node_wf node.
Proof.
  unfold validate_dag_node.
  destruct (is_empty (trim (base_id (base node)))) eqn:Eid.
  - split; [done|]. intros [Hid]. by apply is_empty_spec in Eid.
  - rewrite !app_nil, validate_base_options_nil, validate_base_bounds_nil,
      validate_variant_nil. apply is_empty_false in Eid. split.
    + intros; destruct_and!. by constructor.
    + intros []. by split_and!.
Qed.

(** The bounds of the retry and of the loop, and the texts of an approval, are not
    checked: these nodes are accepted. *)
Definition retry_200 : StepRetryConfig := mk_StepRetryConfig 200 None None.
Definition endless_loop : LoopNodeConfig := mk_LoopNodeConfig [] [] 0 false None (Some true) None.
Definition base_retry_200 : DagNodeBase :=
  mk_DagNodeBase (lit "n") [] None None None None None None None None None (Some retry_200) None None
    None None None None None None None None None None None None.
Example unchecked_bounds `{HashMapOrder} :
  let named := base_default (lit "n") [] in
  StepRetryConfig_validate retry_200 = [MaxAttemptsOutOfRange]
  /\ validate_dag_node (Prompt (mk_PromptNode base_retry_200 (lit "p"))) = []
  /\ LoopNodeConfig_validate endless_loop
     = [Loop_EmptyPrompt; EmptyUntil; MaxIterationsNotPositive; InteractiveRequiresGateMessage]
  /\ validate_dag_node (Loop (mk_LoopNode named endless_loop)) = []
  /\ validate_dag_node (Approval (mk_ApprovalNode named
        (mk_ApprovalConfig [] None (Some (mk_ApprovalOnReject [] None))))) = [].
Proof. split_and!; by_compute. Qed.

(** A raw node deserializes to a node exactly when one mode field is set
    and non-blank (a script also needs its runtime), and the node is the one
    of that mode, with the base fields kept and the mode's text trimmed. *)
Theorem dag_node_deserialize_spec (raw : RawDagNode) (node : DagNode) :
  DagNode_deserialize raw = Ok node <-> mode_count raw = 1 /\ raw_denotes raw node.
Proof.
  split; [apply deserialize_sound|]. intros []. by apply deserialize_complete.
Qed.

(** The hand-written scanner [is_valid_agent_id] accepts the language of
    [^[a-z0-9]+(-[a-z0-9]+)*$]: non-empty segments of lower-case letters and
    digits joined by single hyphens. *)
Theorem is_valid_agent_id_kebab (id : str) :
  is_valid_agent_id id = true <-> kebab_case id.
Proof. apply agent_id_kebab. Qed.

(** Parsing hooks is strict on event names and only on them: it succeeds
    exactly when every key of the object is a known event, and the result binds
    an event to the matchers read from its entry; an entry whose matchers do not
    deserialize is dropped without an error. *)
Theorem hooks_parse_strict `{HashMapOrder} map_from_value matchers_from_value v m :
  map_from_value v = Some m ->
  (is_ok (WorkflowNodeHooks_parse map_from_value matchers_from_value v) = true <->
     forall k, is_Some (m !! k) -> In k (map WorkflowHookEvent_as_str WORKFLOW_HOOK_EVENTS))
  /\ forall h, WorkflowNodeHooks_parse map_from_value matchers_from_value v = Ok h ->
     forall e, WorkflowNodeHooks_get h e
               = (x ← m !! WorkflowHookEvent_as_str e; matchers_from_value x).
Proof.
  intros Hm. unfold WorkflowNodeHooks_parse. rewrite Hm.
  pose proof (hooks_parse_loop matchers_from_value (hm_iter m) []
                (mk_WorkflowNodeHooks []) (hm_iter_NoDup m)) as Hl.
  destruct (fold_left _ (hm_iter m) _) as [errs h']. destruct Hl as [He Hg].
  assert (forall e, assoc_get (WorkflowHookEvent_as_str e) (hm_iter m)
                    = m !! WorkflowHookEvent_as_str e) as Ha.
  { intros e. destruct (assoc_get _ _) as [x|] eqn:E.
    - apply assoc_get_Some_In in E. symmetry. by apply hm_iter_elem, list_elem_of_In.
    - apply assoc_get_None in E. symmetry. apply eq_None_not_Some. intros [x Hx].
      apply E, in_map_iff. exists (WorkflowHookEvent_as_str e, x). split; [done|].
      by apply list_elem_of_In, hm_iter_elem. }
  split.
  - transitivity (errs = []); [by destruct errs|]. rewrite He. split.
    + intros [_ Hf] k [x Hx]. apply hook_event_known.
      rewrite Forall_forall in Hf. apply (Hf (k, x)). by apply hm_iter_elem.
    + intros Hk. split; [done|]. apply Forall_forall. intros [k x] Hx.
      apply hook_event_known, Hk. simpl. apply hm_iter_elem in Hx. eauto.
  - destruct errs; [|done]. simpl. intros h [= <-] e. rewrite Hg.
    unfold entry_matchers. rewrite Ha. by destruct (x ← _; _).
Qed.

(** The parse succeeds on [{Stop: 3}] and the entry is lost. *)
Lemma hooks_parse_strict_witness :
  let m : gmap str value := {[ lit "Stop" := Bool true ]} in
  is_ok (WorkflowNodeHooks_parse (fun _ => Some m) (fun _ => None) Null) = true.
Proof.
  intros m.
  apply (hooks_parse_strict (fun _ => Some m) (fun _ => None) Null m eq_refl).
  intros k [x Hx]. unfold m in Hx. apply lookup_singleton_Some in Hx as [<- _].
  apply hook_event_known. by_compute.
Defined.

(** The number of thinking tokens is read as an [i64] and must be positive,
    but is then cut to its low 32 bits: the budget kept is the one written only
    when it fits in 32 bits. *)
Theorem thinking_budget_truncated (z : N) :
  (0 < z < 2 ^ 63)%N ->
  ThinkingConfig_deserialize
    (Object [(lit "type", String (lit "enabled"));
             (lit "budgetTokens", Number (PosInt z))])
  = Ok (Enabled (Some (z mod 2 ^ 32)%N)).
Proof.
  intros [Hpos Hlt]. unfold ThinkingConfig_deserialize, thinking_visit_map.
  cbn -[N.pow Z.pow lit str_eqb].
  rewrite str_eqb_refl. cbn -[N.pow Z.pow lit str_eqb].
  rewrite (proj2 (N.ltb_lt z (2 ^ 63)) Hlt).
  replace (str_eqb (lit "budgetTokens") (lit "type")) with false by by_compute.
  rewrite str_eqb_refl. cbn -[N.pow Z.pow lit str_eqb].
  replace (str_eqb (lit "enabled") (lit "adaptive")) with false by by_compute.
  rewrite str_eqb_refl.
  destruct (Z.leb_spec (Z.of_N z) 0); [lia|]. do 3 f_equal.
  rewrite <-(N2Z.id (z mod 2 ^ 32)). f_equal. rewrite N2Z.inj_mod. done.
Qed.

(** A budget of [2^32 + 1] tokens becomes a budget of one token. *)
Lemma thinking_budget_truncated_witness :
  ThinkingConfig_deserialize
    (Object [(lit "type", String (lit "enabled"));
             (lit "budgetTokens", Number (PosInt 4294967297))])
  = Ok (Enabled (Some 1%N)).
Proof. apply (thinking_budget_truncated 4294967297). split; reflexivity. Defined.
