(* ===== verification/Workflow.v ===== *)
(** * Workflow definitions and runs

    [workflow.rs] and [workflow_run.rs] of the crate [har-workflow-schema]: the
    statuses of a run, the captured output of a node, the approval context, the
    top-level workflow definition and its validation.  A timestamp
    ([chrono::DateTime]) is its number of microseconds. *)

From S2P Require Import Prelude Float64 Json StdModel DagNode.

(** ** Runs ([workflow_run.rs]) *)

Inductive WorkflowRunStatus : Type :=
| Run_Pending | Run_Running | Run_Completed | Run_Failed | Run_Cancelled | Run_Paused.

#[export] Instance WorkflowRunStatus_eq_dec : EqDecision WorkflowRunStatus.
Proof. solve_decision. Defined.

Definition TERMINAL_WORKFLOW_STATUSES : list WorkflowRunStatus :=
  [Run_Completed; Run_Failed; Run_Cancelled].
Definition RESUMABLE_WORKFLOW_STATUSES : list WorkflowRunStatus := [Run_Failed; Run_Paused].

Inductive WorkflowStepStatus : Type :=
| Step_Pending | Step_Running | Step_Completed | Step_Failed | Step_Skipped.

Inductive NodeState : Type :=
| State_Pending | State_Running | State_Completed | State_Failed | State_Skipped.

#[export] Instance NodeState_eq_dec : EqDecision NodeState.
Proof. solve_decision. Defined.

Inductive NodeOutput : Type :=
| Completed (output : str) (session_id : option str)
    (structured_output : option value) (declared_fields : option (list str))
| Running (output : str) (session_id : option str)
    (structured_output : option value) (declared_fields : option (list str))
| Failed (output : str) (session_id : option str) (error : str)
    (structured_output : option value) (declared_fields : option (list str))
| Pending (output : str)
| Skipped (output : str).

(** [NodeOutput::state], [output], [is_completed], [is_terminal]. *)
Definition state (o : NodeOutput) : NodeState :=
  match o with
  | Completed _ _ _ _ => State_Completed
  | Running _ _ _ _ => State_Running
  | Failed _ _ _ _ _ => State_Failed
  | Pending _ => State_Pending
  | Skipped _ => State_Skipped
  end.
Definition output (o : NodeOutput) : str :=
  match o with
  | Completed out _ _ _ | Running out _ _ _ | Failed out _ _ _ _
  | Pending out | Skipped out => out
  end.
Definition is_completed (o : NodeOutput) : bool :=
  match o with Completed _ _ _ _ => true | _ => false end.
Definition is_terminal (o : NodeOutput) : bool :=
  match o with
  | Completed _ _ _ _ | Failed _ _ _ _ _ | Skipped _ => true
  | _ => false
  end.

Definition assert_node_output_covers_node_state (s : NodeState) : NodeOutput :=
  match s with
  | State_Completed => Completed [] None None None
  | State_Running => Running [] None None None
  | State_Failed => Failed [] None [] None None
  | State_Pending => Pending []
  | State_Skipped => Skipped []
  end.

Record WorkflowRun : Type := mk_WorkflowRun {
  run_id : str;
  workflow_name : str;
  conversation_id : str;
  parent_conversation_id : option str;
  codebase_id : option str;
  run_status : WorkflowRunStatus;
  user_message : str;
  metadata : object;
  started_at : Z;
  completed_at : option Z;
  last_activity_at : option Z;
  working_path : option str;
  user_id : option str;
}.

Inductive ApprovalContextType : Type := Ctx_Approval | Ctx_InteractiveLoop.

Record ApprovalContext : Type := mk_ApprovalContext {
  ctx_node_id : str;
  ctx_message : str;
  approval_type : option ApprovalContextType;
  iteration : option f64;
  ctx_session_id : option str;
  ctx_capture_response : option bool;
  ctx_on_reject_prompt : option str;
  ctx_on_reject_max_attempts : option f64;
}.

Definition is_some_str (o : option value) : bool :=
  match o with Some v => match as_str v with Some _ => true | None => false end | None => false end.

(** [is_approval_context]. *)
Definition is_approval_context (v : value) : bool :=
  match as_object v with
  | None => false
  | Some obj =>
      is_some_str (assoc_get (lit "nodeId") obj) && is_some_str (assoc_get (lit "message") obj)
  end.

Inductive ArtifactType : Type := Pr | Commit | FileCreated | FileModified | Branch.

(** ** Definitions ([workflow.rs]) *)

Inductive ModelReasoningEffort : Type :=
| Reasoning_Minimal | Reasoning_Low | Reasoning_Medium | Reasoning_High | Reasoning_Xhigh.
Inductive WebSearchMode : Type := Search_Disabled | Search_Cached | Search_Live.
Inductive WorkflowRequirement : Type := Github.
Record WorkflowWorktreePolicy : Type := mk_WorkflowWorktreePolicy { worktree_enabled : option bool }.

Record WorkflowBase : Type := mk_WorkflowBase {
  wf_name : str;
  wf_description : str;
  wf_base_provider : option str;
  wf_model : option str;
  model_reasoning_effort : option ModelReasoningEffort;
  web_search_mode : option WebSearchMode;
  additional_directories : option (list str);
  wf_interactive : option bool;
  wf_effort : option EffortLevel;
  wf_base_thinking : option ThinkingConfig;
  wf_base_fallback_model : option str;
  wf_base_betas : option (list str);
  wf_sandbox : option SandboxSettings;
  wf_worktree : option WorkflowWorktreePolicy;
  mutates_checkout : option bool;
  persist_sessions : option bool;
  wf_tags : option (list str);
  wf_requires : option (list WorkflowRequirement);
}.

Record WorkflowDefinition : Type := mk_WorkflowDefinition {
  def_base : WorkflowBase;
  nodes : list DagNode;
}.

Inductive LoadCommandFailureReason : Type :=
| InvalidName | EmptyFile | NotFound | PermissionDenied | ReadError.

Inductive LoadCommandResult : Type :=
| Success (content : str)
| Failure (reason : LoadCommandFailureReason) (message : str).

Inductive WorkflowExecutionResult : Type :=
| Exec_Paused (success paused : bool) (workflow_run_id : str)
| Exec_Completed (success : bool) (workflow_run_id : str) (summary : option str)
| Exec_Failure (success : bool) (workflow_run_id : option str) (error : str).

(** The constructors [completed], [paused], [failure], and [is_success]. *)
Definition exec_completed (run : str) (summary : option str) : WorkflowExecutionResult :=
  Exec_Completed true run summary.
Definition exec_paused (run : str) : WorkflowExecutionResult := Exec_Paused true true run.
Definition exec_failure (run : option str) (error : str) : WorkflowExecutionResult :=
  Exec_Failure false run error.
Definition is_success (r : WorkflowExecutionResult) : bool :=
  match r with
  | Exec_Completed success _ _ => success
  | Exec_Paused success _ _ => success
  | Exec_Failure success _ _ => success
  end.

Inductive WorkflowSource : Type := Bundled | Global_ | Project.

Inductive WorkflowValidationError : Type :=
| NameEmpty
| DescriptionEmpty
| Workflow_ProviderBlank
| Workflow_FallbackModelEmpty
| TagsElementEmpty
| NodeError (index : nat) (errors : list DagNodeValidationError).

(** [validate_workflow_base]. *)
Definition validate_workflow_base (b : WorkflowBase) : list WorkflowValidationError :=
  push_if (is_empty (wf_name b)) NameEmpty
  ++ push_if (is_empty (wf_description b)) DescriptionEmpty
  ++ on_some (wf_base_provider b) (fun p => push_if (is_empty (trim p)) Workflow_ProviderBlank)
  ++ on_some (wf_base_fallback_model b) (fun f => push_if (is_empty f) Workflow_FallbackModelEmpty)
  ++ on_some (wf_tags b) (flat_map (fun t => push_if (is_empty t) TagsElementEmpty)).

Section ValidateDefinition.
Context `{HashMapOrder}.

(** The loop over the nodes, from index [i] on. *)
Fixpoint validate_nodes (i : nat) (ns : list DagNode) : list WorkflowValidationError :=
  match ns with
  | [] => []
  | node :: ns' =>
      let node_errors := validate_dag_node node in
      (if negb (is_empty node_errors) then [NodeError i node_errors] else [])
      ++ validate_nodes (S i) ns'
  end.

(** [validate_workflow_definition]. *)
Definition validate_workflow_definition (def : WorkflowDefinition)
  : list WorkflowValidationError :=
  validate_workflow_base (def_base def) ++ validate_nodes 0 (nodes def).
End ValidateDefinition.

(** ** Lemmas and theorems *)

Lemma state_covers (s : NodeState) : state (assert_node_output_covers_node_state s) = s.
Proof. by destruct s. Qed.

Lemma state_completed (o : NodeOutput) : is_completed o = true <-> state o = State_Completed.
Proof. by destruct o. Qed.

Record workflow_base_wf (b : WorkflowBase) : Prop := {
  wf_base_name : wf_name b <> [];
  wf_base_description : wf_description b <> [];
  wf_base_provider_ok : forall p, wf_base_provider b = Some p -> trim p <> [];
  wf_base_fallback_ok : forall f, wf_base_fallback_model b = Some f -> f <> [];
  wf_base_tags : forall l, wf_tags b = Some l -> Forall (fun t => t <> []) l;
}.

Lemma validate_workflow_base_nil (b : WorkflowBase) :
  validate_workflow_base b = [] <-> workflow_base_wf b.
Proof.
  unfold validate_workflow_base. rewrite !app_nil, !push_if_nil, !on_some_nil.
  setoid_rewrite push_if_nil. setoid_rewrite flat_map_nil. setoid_rewrite push_if_nil.
  setoid_rewrite is_empty_false.
  split; [intros; destruct_and!; by constructor|intros []; by split_and!].
Qed.

(** An error about node [i] is the error list of the [i]-th node, and every node
    with errors is reported. *)
Lemma validate_nodes_spec `{HashMapOrder} (ns : list DagNode) k i errs :
  NodeError i errs ∈ validate_nodes k ns
  <-> k <= i /\ errs <> [] /\ exists node, ns !! (i - k) = Some node /\ validate_dag_node node = errs.
Proof.
  revert k; induction ns as [|node ns IH]; intros k; simpl.
  - setoid_rewrite lookup_nil. set_solver.
  - rewrite elem_of_app, IH.
    destruct (validate_dag_node node) as [|e es] eqn:E; simpl.
    + split.
      * intros [[]%not_elem_of_nil|(Hk & Hne & n & Hn & He)].
        split; [lia|]. split; [done|]. exists n.
        replace (i - k) with (S (i - S k)) by lia. done.
      * intros (Hk & Hne & n & Hn & He). right.
        destruct (decide (i = k)) as [->|Hik].
        { rewrite Nat.sub_diag in Hn. simpl in Hn. naive_solver. }
        split; [lia|]. split; [done|]. exists n.
        replace (i - k) with (S (i - S k)) in Hn by lia. done.
    + rewrite list_elem_of_singleton. split.
      * intros [[= -> ->]|(Hk & Hne & n & Hn & He)].
        { rewrite Nat.sub_diag. simpl. eauto 10. }
        split; [lia|]. split; [done|]. exists n.
        replace (i - k) with (S (i - S k)) by lia. done.
      * intros (Hk & Hne & n & Hn & He).
        destruct (decide (i = k)) as [->|Hik].
        { rewrite Nat.sub_diag in Hn. simpl in Hn. left. congruence. }
        right. split; [lia|]. split; [done|]. exists n.
        replace (i - k) with (S (i - S k)) in Hn by lia. done.
Qed.

Lemma validate_nodes_nil `{HashMapOrder} (ns : list DagNode) k :
  validate_nodes k ns = [] <-> Forall (fun n => validate_dag_node n = []) ns.
Proof.
  revert k; induction ns as [|node ns IH]; intros k; simpl; [split; auto|].
  rewrite app_nil, IH, Forall_cons. destruct (validate_dag_node node); simpl; naive_solver.
Qed.

(** A workflow definition validates exactly when its base fields and every
    one of its nodes do. *)
Theorem validate_workflow_definition_accepts `{HashMapOrder} (def : WorkflowDefinition) :
  validate_workflow_definition def = []
  <-> workflow_base_wf (def_base def) /\ Forall node_wf (nodes def).
Proof.
  unfold validate_workflow_definition.
  rewrite app_nil, validate_workflow_base_nil, validate_nodes_nil.
  apply and_iff_compat_l. rewrite !Forall_forall.
  split; intros Hf n Hn; by apply validate_dag_node_accepts, Hf.
Qed.
