(* ===== verification/OutputRef.v ===== *)
(** * Output references

    [output_ref.rs] of the crate [har-dag-executor]: how a [$node.output.field]
    reference is resolved against the recorded output of the producer node, and
    the contract of its module documentation, stated as the relation
    [field_contract]. *)

From S2P Require Import Prelude Json Regex Workflow.

Inductive OutputRefErrorReason : Type :=
| NotInSchema | Unparseable | MissingKey | ProducerNotRun.

#[export] Instance OutputRefErrorReason_eq_dec : EqDecision OutputRefErrorReason.
Proof. solve_decision. Defined.

Record OutputRefError : Type := mk_OutputRefError {
  err_node_id : str;
  err_field : str;
  err_reason : OutputRefErrorReason;
}.

(** [OutputRefError::message_for], the text of its [Display]. *)
Definition message_for (node_id field : str) (reason : OutputRefErrorReason) : str :=
  let ref_str := lit "$" ++ node_id ++ lit ".output." ++ field in
  let head := lit "'" ++ ref_str ++ lit "' references field '" ++ field in
  match reason with
  | NotInSchema =>
      head ++ lit "', which is not declared in node '" ++ node_id
      ++ lit "'s output_format schema. Add '" ++ field
      ++ lit "' to the schema (and mark it optional if it can be absent), or fix the reference."
  | Unparseable =>
      head ++ lit "', but node '" ++ node_id
      ++ lit "'s output is not a JSON object, so the field cannot be read. Emit JSON containing '"
      ++ field ++ lit "', or reference '$" ++ node_id ++ lit ".output' (whole text) instead."
  | MissingKey =>
      head ++ lit "', but node '" ++ node_id ++ lit "'s JSON output has no such key. Emit '"
      ++ field ++ lit "' in the output, or fix the reference."
  | ProducerNotRun =>
      head ++ lit "', but node '" ++ node_id
      ++ lit "' did not run (skipped or pending), so it has no output to read. Guard this reference with a 'when:' condition, or fix the dependency."
  end.

Definition OutputRefError_to_string (e : OutputRefError) : str :=
  message_for (err_node_id e) (err_field e) (err_reason e).

Inductive FieldResolution : Type :=
| Field_Value (v : value)
| Field_Empty.

(** [FENCE_RE]: the text between the first code fence and the last one. *)
Definition any_char : regex := RClass (fun _ => true).
Definition white_space : regex := RClass is_whitespace.
Definition FENCE_RE : regex :=
  RSeqs [RBos; RStar false any_char; RStr (lit "```"); ROpt (RStr (lit "json"));
         RStar true white_space; RChar 10; RGroup 1 (RStar false any_char); RChar 10;
         RStar true white_space; RStr (lit "```"); RStar true any_char; REos].

Definition as_plain_object (v : value) : option object := as_object v.

(** The [properties] object of a schema, and its keys in order. *)
Definition declared_fields_from_schema (output_format : option value) : option (list str) :=
  format ← output_format;
  props ← value_get (lit "properties") format;
  props_obj ← as_plain_object props;
  Some (map fst props_obj).

Section Resolve.
Context `{RegexEngine} `{SerdeJson}.

Definition parse_output_object (text : str) : option object :=
  if is_empty text then None
  else
    let candidate :=
      match captures FENCE_RE text with
      | Some caps => default [] (group 1 caps)
      | None => text
      end in
    v ← from_str candidate; as_object v.

(** [declared_fields], [structured_output] and [output] of a producer that has
    run; [None] for the two states that have no such fields. *)
Definition producer_payload (o : NodeOutput)
  : option (option (list str) * option value * str) :=
  match o with
  | Completed out _ so df | Running out _ so df | Failed out _ _ so df =>
      Some (df, so, out)
  | Pending _ | Skipped _ => None
  end.

(** [resolve_node_output_field]. *)
Definition resolve_node_output_field (node_output : NodeOutput) (node_id field : str)
  : result OutputRefError FieldResolution :=
  match producer_payload node_output with
  | None => Err (mk_OutputRefError node_id field ProducerNotRun)
  | Some (declared_fields, structured_output, output_text) =>
      let structured_obj := v ← structured_output; as_plain_object v in
      match declared_fields with
      | Some decl =>
          if negb (existsb (str_eqb field) decl) then
            Err (mk_OutputRefError node_id field NotInSchema)
          else
            let obj := match structured_obj with
                       | Some o => Some o
                       | None => parse_output_object output_text
                       end in
            match obj with
            | None => Ok Field_Empty
            | Some obj =>
                match assoc_get field obj with
                | None | Some Null => Ok Field_Empty
                | Some v => Ok (Field_Value v)
                end
            end
      | None =>
          match structured_obj with
          | Some obj =>
              match assoc_get field obj with
              | None => Ok Field_Empty
              | Some v => Ok (Field_Value v)
              end
          | None =>
              match parse_output_object output_text with
              | None => Err (mk_OutputRefError node_id field Unparseable)
              | Some obj =>
                  match assoc_get field obj with
                  | None => Err (mk_OutputRefError node_id field MissingKey)
                  | Some v => Ok (Field_Value v)
                  end
              end
          end
      end
  end.

(** ** The contract of the module documentation

    What a producer offers to a field reference: a declared schema with the
    object read from it, a structured object without a schema, or its text. *)
Inductive producer : Type :=
| Did_not_run
| Declared (decl : list str) (obj : option object)
| Structured (obj : object)
| Schemaless (obj : option object).

Definition structured_object (so : option value) : option object := so ≫= as_plain_object.

Definition producer_of (o : NodeOutput) : producer :=
  match producer_payload o with
  | None => Did_not_run
  | Some (Some decl, so, text) =>
      Declared decl (match structured_object so with
                     | Some obj => Some obj | None => parse_output_object text end)
  | Some (None, so, text) =>
      match structured_object so with
      | Some obj => Structured obj
      | None => Schemaless (parse_output_object text)
      end
  end.

(** An object holds a value for a field, other than an explicit null. *)
Definition present (obj : option object) (field : str) (v : value) : Prop :=
  exists o, obj = Some o /\ assoc_get field o = Some v /\ v <> Null.
Definition absent_or_null (obj : option object) (field : str) : Prop :=
  match obj with
  | None => True
  | Some o => assoc_get field o = None \/ assoc_get field o = Some Null
  end.

Inductive field_contract (field : str) : producer -> OutputRefErrorReason + FieldResolution -> Prop :=
| fc_not_run :
    field_contract field Did_not_run (inl ProducerNotRun)
| fc_undeclared decl obj :
    field ∉ decl -> field_contract field (Declared decl obj) (inl NotInSchema)
| fc_declared_value decl obj v :
    field ∈ decl -> present obj field v ->
    field_contract field (Declared decl obj) (inr (Field_Value v))
| fc_declared_empty decl obj :
    field ∈ decl -> absent_or_null obj field ->
    field_contract field (Declared decl obj) (inr Field_Empty)
| fc_structured_value obj v :
    assoc_get field obj = Some v ->
    field_contract field (Structured obj) (inr (Field_Value v))
| fc_structured_empty obj :
    assoc_get field obj = None -> field_contract field (Structured obj) (inr Field_Empty)
| fc_text_unparseable :
    field_contract field (Schemaless None) (inl Unparseable)
| fc_text_value obj v :
    assoc_get field obj = Some v ->
    field_contract field (Schemaless (Some obj)) (inr (Field_Value v))
| fc_text_missing obj :
    assoc_get field obj = None ->
    field_contract field (Schemaless (Some obj)) (inl MissingKey).

(** The outcome of a resolution, without the reference an error repeats. *)
Definition resolution (r : result OutputRefError FieldResolution)
  : OutputRefErrorReason + FieldResolution :=
  match r with Ok f => inr f | Err e => inl (err_reason e) end.
End Resolve.

(** ** Lemmas and theorems *)

Lemma declared_mem (field : str) (decl : list str) :
  existsb (str_eqb field) decl = true <-> field ∈ decl.
Proof.
  rewrite existsb_exists, list_elem_of_In. setoid_rewrite str_eqb_spec. naive_solver.
Qed.

Lemma declared_not_mem (field : str) (decl : list str) :
  existsb (str_eqb field) decl = false <-> field ∉ decl.
Proof. rewrite <-declared_mem. by destruct (existsb _ _). Qed.

Section Theorems.
Context `{RegexEngine} `{SerdeJson}.

(** The table is a function: a producer and a field have one outcome. *)
Lemma field_contract_functional field p r1 r2 :
  field_contract field p r1 -> field_contract field p r2 -> r1 = r2.
Proof.
  unfold present, absent_or_null.
  intros [] Hc; inversion Hc; subst; unfold present, absent_or_null in *; naive_solver.
Qed.

Lemma resolve_satisfies_contract o id field :
  field_contract field (producer_of o) (resolution (resolve_node_output_field o id field)).
Proof.
  unfold resolve_node_output_field, producer_of, structured_object.
  destruct (producer_payload o) as [[[[decl|] so] text]|]; simpl; [|..|constructor].
  - destruct (existsb (str_eqb field) decl) eqn:Hd; simpl.
    + apply declared_mem in Hd.
      set (obj := match _ with Some _ => _ | None => _ end). clearbody obj.
      destruct obj as [obj|]; simpl; [|by constructor].
      destruct (assoc_get field obj) as [[]|] eqn:E; simpl; constructor; try done;
        solve [by exists obj|simpl; auto].
    + apply declared_not_mem in Hd. by constructor.
  - destruct (so ≫= as_plain_object) as [obj|]; simpl.
    + destruct (assoc_get field obj) eqn:E; simpl; by constructor.
    + destruct (parse_output_object text) as [obj|]; simpl; [|constructor].
      destruct (assoc_get field obj) eqn:E; simpl; by constructor.
Qed.

(** C36: [resolve_node_output_field] implements the resolution table of its
    module documentation: for every producer state, declared or undeclared
    field, structured payload or text, it returns exactly the outcome the
    table gives. *)
Theorem resolve_node_output_field_refines o id field r :
  resolution (resolve_node_output_field o id field) = r
  <-> field_contract field (producer_of o) r.
Proof.
  split.
  - intros <-. apply resolve_satisfies_contract.
  - apply field_contract_functional, resolve_satisfies_contract.
Qed.

(** An error repeats the reference it is about. *)
Lemma resolve_error_names_reference o id field e :
  resolve_node_output_field o id field = Err e ->
  err_node_id e = id /\ err_field e = field.
Proof. unfold resolve_node_output_field. intros He. repeat case_match; naive_solver. Qed.

(** No silent drop: a field of a producer without a schema and without a
    structured payload resolves only to a value its text holds under that very
    key, never to the empty string. *)
Theorem schemaless_field_never_dropped o id field so text r :
  producer_payload o = Some (None, so, text) ->
  structured_object so = None ->
  resolve_node_output_field o id field = Ok r ->
  exists obj v, parse_output_object text = Some obj
    /\ assoc_get field obj = Some v /\ r = Field_Value v.
Proof.
  intros Hp Hs. unfold resolve_node_output_field. rewrite Hp.
  change (so ≫= (fun v => as_plain_object v)) with (structured_object so).
  rewrite Hs. crush_match; naive_solver.
Qed.
End Theorems.

(** A fenced object whose key [k] is read, and one that has no such key. *)
Definition sample_json : SerdeJson :=
  table_json [(lit "{k:1}", Object [(lit "k", Number (PosInt 1))])].
Definition sample_text : str :=
  lit "Here it is:" ++ [10%N] ++ lit "```json" ++ [10%N] ++ lit "{k:1}" ++ [10%N] ++ lit "```".

Lemma schemaless_field_never_dropped_witness :
  exists r, @resolve_node_output_field backtracking_engine sample_json
              (Completed sample_text None None None) (lit "n") (lit "k") = Ok r
    /\ exists obj v, @parse_output_object backtracking_engine sample_json sample_text = Some obj
      /\ assoc_get (lit "k") obj = Some v /\ r = Field_Value v.
Proof.
  eexists. split; [by_compute|].
  eapply (@schemaless_field_never_dropped backtracking_engine sample_json
            (Completed sample_text None None None) (lit "n") (lit "k") None);
    [reflexivity|reflexivity|by_compute].
Defined.
