(* ===== verification/Condition.v ===== *)
(** * The condition evaluator

    [condition_evaluator.rs] of the crate [har-dag-executor]: the [when:]
    expressions of a node, evaluated against the outputs of the nodes upstream. *)

From S2P Require Import Prelude Float64 Json Regex Workflow OutputRef.
From Stdlib Require Import Floats.SpecFloat.

(** ** [parse_float_js] *)

Definition is_point (c : char) : bool := (c =? 46)%N.
Definition is_exponent_mark (c : char) : bool := ((c =? 101) || (c =? 69))%N.

(** The mantissa at the head of a text, and what follows it. *)
Definition scan_mantissa (s : str) : option (str * str) :=
  match s with
  | [] => None
  | c :: r =>
      if is_point c then
        let '(d, r') := span_digits r in
        if is_empty d then None else Some (c :: d, r')
      else
        let '(d, r') := span_digits s in
        if is_empty d then None
        else
          match r' with
          | p :: r'' =>
              if is_point p then let '(d2, r3) := span_digits r'' in Some (d ++ p :: d2, r3)
              else Some (d, r')
          | [] => Some (d, [])
          end
  end.

(** The exponent at the head of a text, empty when it has no digits. *)
Definition scan_exponent (s : str) : str :=
  match s with
  | c :: r =>
      if is_exponent_mark c then
        let '(sgn, r1) := opt_sign r in
        let '(d, _) := span_digits r1 in
        if is_empty d then [] else c :: sgn ++ d
      else []
  | [] => []
  end.

(** The longest numeric prefix, the slice [&s[..i]] of the code. *)
Definition numeric_prefix (s : str) : option str :=
  let '(sgn, s1) := opt_sign s in
  '(m, rest) ← scan_mantissa s1;
  Some (sgn ++ m ++ scan_exponent rest).

Definition parse_float_js (s0 : str) : f64 :=
  let s := trim_start_matches is_ascii_whitespace s0 in
  if is_empty s then f64_nan
  else if starts_with (lit "Infinity") s then f64_infinity
  else if starts_with (lit "-Infinity") s then f64_neg_infinity
  else if starts_with (lit "+Infinity") s then f64_infinity
  else
    match numeric_prefix s with
    | None => f64_nan
    | Some prefix => default f64_nan (f64_from_str prefix)
    end.

(** ** The result of an evaluation *)

Record EvaluationResult : Type := mk_EvaluationResult {
  ev_result : bool;
  ev_parsed : bool;
}.
Definition parsed_true : EvaluationResult := mk_EvaluationResult true true.
Definition parsed_false : EvaluationResult := mk_EvaluationResult false true.
Definition unparsed : EvaluationResult := mk_EvaluationResult false false.

(** ** [split_outside_quotes]

    Every step consumes at least one character when the separator is not empty,
    so the length of the text bounds the steps; the two separators the evaluator
    passes are [||] and [&&]. *)
Fixpoint soq_loop (fuel : nat) (sep : str) (in_quote : bool) (current chars : str)
  : list str :=
  match fuel with
  | O => [trim current]
  | S fuel' =>
      match chars with
      | [] => [trim current]
      | c :: rest =>
          if (c =? squote)%N then
            soq_loop fuel' sep (negb in_quote) (current ++ [c]) rest
          else if negb in_quote && Nat.leb (byte_len sep) (length chars)
                  && str_eqb (take (byte_len sep) chars) sep then
            trim current :: soq_loop fuel' sep in_quote [] (drop (byte_len sep) chars)
          else
            soq_loop fuel' sep in_quote (current ++ [c]) rest
      end
  end.
Definition split_outside_quotes (expr sep : str) : list str :=
  soq_loop (S (length expr)) sep false [] expr.

Section Evaluate.
Context `{RegexEngine} `{SerdeJson}.

(** ** [ATOM_PATTERN] *)
Definition re_ident : regex := RSeq (RClass ident_start) (RStar true (RClass ident_char)).
Definition re_node_id : regex :=
  RSeq (RClass ident_start) (RStar true (RClass ident_char_hyphen)).
Definition re_operator : regex :=
  RAlts [RStr (lit "=="); RStr (lit "!="); RStr (lit "<="); RStr (lit ">=");
         RStr (lit "<"); RStr (lit ">")].
Definition re_digits : regex := RPlus (RClass perl_digit).
Definition re_quoted : regex :=
  RSeqs [RChar squote; RGroup 5 (RStar true (RClass (fun c => negb (c =? squote)%N)));
         RChar squote].
Definition re_unquoted : regex :=
  RGroup 6 (RAlts [RSeqs [ROpt (RChar 45); re_digits; ROpt (RSeq (RChar 46) re_digits)];
                   RStr (lit "true"); RStr (lit "false")]).
Definition ATOM_PATTERN : regex :=
  RSeqs [RBos; RChar 36; RGroup 1 re_node_id; RChar 46; RGroup 2 re_ident;
         ROpt (RSeq (RChar 46) (RGroup 3 re_ident));
         RStar true (RClass is_whitespace); RGroup 4 re_operator;
         RStar true (RClass is_whitespace); RAlt re_quoted re_unquoted; REos].

(** [resolve_output_ref]. *)
Definition resolve_output_ref (node_id : str) (field : option str)
    (node_outputs : gmap str NodeOutput) : result OutputRefError str :=
  match node_outputs !! node_id with
  | None => Ok []
  | Some node_output =>
      match field with
      | None => Ok (output node_output)
      | Some field =>
          resolution ← resolve_node_output_field node_output node_id field;
          match resolution with
          | Field_Empty => Ok []
          | Field_Value v =>
              match v with
              | String s => Ok s
              | Number n => Ok (number_to_string n)
              | Bool b => Ok (show_bool b)
              | Null | Array _ | Object _ => Ok (to_string v)
              end
          end
      end
  end.

(** The comparison of an atom: textual, or numeric on two finite numbers. *)
Definition compare_values (operator actual expected : str) : option bool :=
  if str_eqb operator (lit "==") then Some (str_eqb actual expected)
  else if str_eqb operator (lit "!=") then Some (negb (str_eqb actual expected))
  else
    let actual_num := parse_float_js actual in
    let expected_num := parse_float_js expected in
    if f64_is_finite actual_num && f64_is_finite expected_num then
      if str_eqb operator (lit "<") then Some (f64_ltb actual_num expected_num)
      else if str_eqb operator (lit ">") then Some (f64_ltb expected_num actual_num)
      else if str_eqb operator (lit "<=") then Some (f64_leb actual_num expected_num)
      else if str_eqb operator (lit ">=") then Some (f64_leb expected_num actual_num)
      else None
    else None.

(** [evaluate_atom]. *)
Definition evaluate_atom (expr : str) (node_outputs : gmap str NodeOutput)
  : result OutputRefError EvaluationResult :=
  let trimmed := trim expr in
  match captures ATOM_PATTERN trimmed with
  | None => Ok unparsed
  | Some caps =>
      match group 1 caps, group 2 caps, group 4 caps with
      | Some node_id, Some segment1, Some operator =>
          let segment2 := group 3 caps in
          let quoted_value := group 5 caps in
          let unquoted_value := group 6 caps in
          let run (field : option str) :=
            match quoted_value, unquoted_value with
            | None, None => Ok unparsed
            | Some expected, _ | None, Some expected =>
                actual ← resolve_output_ref node_id field node_outputs;
                match compare_values operator actual expected with
                | Some true => Ok parsed_true
                | Some false => Ok parsed_false
                | None => Ok unparsed
                end
            end in
          if str_eqb segment1 (lit "output") then run segment2
          else
            match segment2 with
            | Some _ => Ok unparsed
            | None => run (Some segment1)
            end
      | _, _, _ => Ok unparsed
      end
  end.

(** The inner loop of [evaluate_condition], over the atoms of an OR clause:
    [Some r] when it returns from the function, [None] and the value of
    [or_clause_result] when it falls out of the loop. *)
Fixpoint evaluate_and_atoms (and_atoms : list str) (node_outputs : gmap str NodeOutput)
  : result OutputRefError (EvaluationResult + bool) :=
  match and_atoms with
  | [] => Ok (inr true)
  | atom :: rest =>
      eval ← evaluate_atom atom node_outputs;
      if negb (ev_parsed eval) then Ok (inl unparsed)
      else if negb (ev_result eval) then Ok (inr false)
      else evaluate_and_atoms rest node_outputs
  end.

(** The outer loop, over the OR clauses. *)
Fixpoint evaluate_or_clauses (or_clauses : list str) (node_outputs : gmap str NodeOutput)
  : result OutputRefError EvaluationResult :=
  match or_clauses with
  | [] => Ok parsed_false
  | or_clause :: rest =>
      r ← evaluate_and_atoms (split_outside_quotes or_clause (lit "&&")) node_outputs;
      match r with
      | inl early => Ok early
      | inr true => Ok parsed_true
      | inr false => evaluate_or_clauses rest node_outputs
      end
  end.

Definition evaluate_condition (expr : str) (node_outputs : gmap str NodeOutput)
  : result OutputRefError EvaluationResult :=
  let trimmed := trim expr in
  evaluate_or_clauses (split_outside_quotes trimmed (lit "||")) node_outputs.
End Evaluate.

(** ** Lemmas and theorems: splitting *)

(** Whether a position is quoted, after reading a text. *)
Definition in_quote_after (q : bool) (s : str) : bool :=
  foldl (fun q c => if (c =? squote)%N then negb q else q) q s.

(** Every occurrence of the separator in a text is quoted. *)
Definition only_quoted (sep : str) (q : bool) (s : str) : Prop :=
  forall x y, s = x ++ sep ++ y -> in_quote_after q x = true.

(** The reference: a text is cut at the unquoted separators, from the left. *)
Inductive quote_split (sep : str) : bool -> str -> list str -> Prop :=
| qs_last q s : only_quoted sep q s -> quote_split sep q s [s]
| qs_more q a s ps :
    only_quoted sep q a -> in_quote_after q a = false -> quote_split sep false s ps ->
    quote_split sep q (a ++ sep ++ s) (a :: ps).

Lemma quote_split_join sep q s ps : quote_split sep q s ps -> join sep ps = s.
Proof.
  induction 1 as [|q a s ps _ _ Hs IH]; [done|].
  rewrite join_cons by (by inversion Hs). by rewrite IH.
Qed.

Lemma in_quote_after_snoc q s c :
  in_quote_after q (s ++ [c]) =
  if (c =? squote)%N then negb (in_quote_after q s) else in_quote_after q s.
Proof. unfold in_quote_after. by rewrite foldl_app. Qed.

Section SplitLoop.
Variable sep : str.
Hypothesis sep_not_empty : sep <> [].
Hypothesis sep_ascii : forallb is_ascii sep = true.
Hypothesis sep_unquoted : squote ∉ sep.

Lemma sep_byte_len : byte_len sep = length sep.
Proof.
  clear sep_not_empty sep_unquoted. induction sep as [|c s IH]; [done|].
  simpl in *. apply andb_prop in sep_ascii as [Hc Hs]. rewrite IH by done.
  unfold utf8_width. unfold is_ascii in Hc. by rewrite Hc.
Qed.

(** The test of the loop is the test for a prefix. *)
Lemma sep_test chars :
  Nat.leb (byte_len sep) (length chars) && str_eqb (take (byte_len sep) chars) sep
  = starts_with sep chars.
Proof.
  rewrite sep_byte_len. apply eq_iff_eq_true.
  rewrite andb_true_iff, starts_with_spec, str_eqb_spec, Nat.leb_le. split.
  - intros [_ Ht]. exists (drop (length sep) chars).
    rewrite <-Ht at 1. by rewrite take_drop.
  - intros [r ->]. rewrite length_app, take_app_length. split; [lia|done].
Qed.

(** [current] read so far holds no unquoted separator, not even one that the
    text to come would complete. *)
Definition no_cut (q0 : bool) (current chars : str) : Prop :=
  forall x y, current ++ chars = x ++ sep ++ y ->
    length x < length current -> in_quote_after q0 x = true.

Lemma no_cut_step q0 current c rest :
  no_cut q0 current (c :: rest) ->
  (starts_with sep (c :: rest) = true -> in_quote_after q0 current = true) ->
  no_cut q0 (current ++ [c]) rest.
Proof.
  intros Hno Hc x y. rewrite <-app_assoc. simpl. rewrite length_app. simpl. intros Hx Hl.
  destruct (decide (length x = length current)) as [Hlen|]; [|apply (Hno _ _ Hx); lia].
  apply app_inj_1 in Hx as [<- Hs]; [|done].
  apply Hc, starts_with_spec. by exists y.
Qed.

Lemma no_cut_only_quoted q0 current chars :
  no_cut q0 current chars -> only_quoted sep q0 current.
Proof.
  intros Hno x y ->. apply (Hno x (y ++ chars)); [by rewrite <-!app_assoc|].
  rewrite !length_app. destruct sep; [done|simpl; lia].
Qed.

Lemma starts_with_not_quote rest : starts_with sep (squote :: rest) = false.
Proof.
  apply not_true_iff_false. rewrite starts_with_spec. intros [r Hr].
  destruct sep as [|c s]; [done|]. injection Hr as <- _. simpl in sep_unquoted. set_solver.
Qed.

Lemma soq_loop_spec fuel q0 current chars :
  length chars < fuel -> no_cut q0 current chars ->
  exists ps, soq_loop fuel sep (in_quote_after q0 current) current chars = map trim ps
    /\ quote_split sep q0 (current ++ chars) ps.
Proof.
  revert q0 current chars; induction fuel as [|fuel IH]; intros q0 current chars Hf Hno; [lia|].
  destruct chars as [|c rest].
  { exists [current]. split; [done|].
    apply no_cut_only_quoted in Hno. rewrite app_nil_r. by constructor. }
  assert (forall b, (starts_with sep (c :: rest) = true -> in_quote_after q0 current = true) ->
    in_quote_after q0 (current ++ [c]) = b ->
    exists ps, soq_loop fuel sep b (current ++ [c]) rest = map trim ps
      /\ quote_split sep q0 (current ++ c :: rest) ps) as Hstep.
  { intros b Hs <-. destruct (IH q0 (current ++ [c]) rest) as (ps & H1 & H2);
      [simpl in Hf; lia|by apply no_cut_step|].
    exists ps. by rewrite <-app_assoc in H2. }
  cbn [soq_loop]. rewrite <-andb_assoc, sep_test.
  destruct (N.eqb_spec c squote) as [->|Hc].
  { apply Hstep; [by rewrite starts_with_not_quote|].
    rewrite in_quote_after_snoc. by rewrite N.eqb_refl. }
  assert (in_quote_after q0 (current ++ [c]) = in_quote_after q0 current) as Hsame.
  { rewrite in_quote_after_snoc. by apply N.eqb_neq in Hc as ->. }
  destruct (in_quote_after q0 current) eqn:Hq; simpl; [by apply Hstep|].
  destruct (starts_with sep (c :: rest)) eqn:Hs; [|by apply Hstep].
  apply starts_with_spec in Hs as [r Hr]. rewrite Hr, sep_byte_len, drop_app_length.
  destruct (IH false [] r) as (ps & H1 & H2).
  { apply (f_equal length) in Hr. rewrite length_app in Hr. simpl in *.
    destruct sep; [done|simpl in Hr; lia]. }
  { intros x y _ Hx. simpl in Hx. lia. }
  exists (current :: ps). simpl. split; [by f_equal|].
  constructor; [by eapply no_cut_only_quoted|done|done].
Qed.
End SplitLoop.

(** [split_outside_quotes] cuts an expression at exactly the separators that
    stand outside single quotes, from left to right, and trims the pieces: the
    pieces joined by the separator are the expression again, each ends outside
    quotes but the last, and none holds an unquoted separator. *)
Theorem split_outside_quotes_spec (expr sep : str) :
  sep <> [] -> forallb is_ascii sep = true -> squote ∉ sep ->
  exists ps, split_outside_quotes expr sep = map trim ps
    /\ quote_split sep false expr ps /\ join sep ps = expr.
Proof.
  intros Hne Ha Hq. destruct (soq_loop_spec sep Hne Ha Hq (S (length expr)) false [] expr)
    as (ps & H1 & H2); [lia|intros x y _ Hx; simpl in Hx; lia|].
  exists ps. split; [done|]. split; [done|]. by eapply quote_split_join.
Qed.

Lemma split_outside_quotes_spec_witness :
  exists ps, split_outside_quotes (lit "$a.output == '1 && 2' && $b.output == 3") (lit "&&")
      = map trim ps
    /\ quote_split (lit "&&") false (lit "$a.output == '1 && 2' && $b.output == 3") ps
    /\ join (lit "&&") ps = lit "$a.output == '1 && 2' && $b.output == 3".
Proof.
  apply split_outside_quotes_spec; [done|by_compute|].
  apply (bool_decide_unpack _). by_compute.
Defined.

(** ** Lemmas and theorems: compound conditions *)

Section Compound.
Context `{RegexEngine} `{SerdeJson}.
Variable outs : gmap str NodeOutput.

(** The four outcomes of an atom. *)
Definition atom_val (b : bool) (a : str) : Prop :=
  evaluate_atom a outs = Ok (mk_EvaluationResult b true).
(** An atom that stops the evaluation: malformed, or an unresolvable reference. *)
Definition atom_stops (r : result OutputRefError EvaluationResult) (a : str) : Prop :=
  evaluate_atom a outs = r /\ (r = Ok unparsed \/ exists e, r = Err e).

Lemma evaluate_atom_outcomes a :
  atom_val true a \/ atom_val false a \/ exists r, atom_stops r a.
Proof.
  assert (forall r, evaluate_atom a outs = r ->
    r = Ok parsed_true \/ r = Ok parsed_false \/ r = Ok unparsed \/ exists e, r = Err e) as Hr.
  { intros r <-. unfold evaluate_atom. unfold mbind, result_bind.
    repeat case_match; eauto. }
  unfold atom_val, atom_stops.
  destruct (Hr _ eq_refl) as [Ho|[Ho|Ho]]; [by left|by right; left|].
  right; right. eauto.
Qed.

(** A clause is true when its atoms all are; false, or stopped, at its first
    atom that is not true. *)
Definition clause_atoms (c : str) : list str := split_outside_quotes c (lit "&&").
Definition clause_true (c : str) : Prop := Forall (atom_val true) (clause_atoms c).
Definition clause_false (c : str) : Prop :=
  exists pre a post, clause_atoms c = pre ++ a :: post
    /\ Forall (atom_val true) pre /\ atom_val false a.
Definition clause_stops (r : result OutputRefError EvaluationResult) (c : str) : Prop :=
  exists pre a post, clause_atoms c = pre ++ a :: post
    /\ Forall (atom_val true) pre /\ atom_stops r a.

(** The meaning of a disjunction: decided by its first clause that is not false. *)
Inductive disjunction (cs : list str) : result OutputRefError EvaluationResult -> Prop :=
| dis_true pre c post :
    cs = pre ++ c :: post -> Forall clause_false pre -> clause_true c ->
    disjunction cs (Ok parsed_true)
| dis_false : Forall clause_false cs -> disjunction cs (Ok parsed_false)
| dis_stops pre c post r :
    cs = pre ++ c :: post -> Forall clause_false pre -> clause_stops r c ->
    disjunction cs r.

Lemma and_atoms_true pre rest :
  Forall (atom_val true) pre ->
  evaluate_and_atoms (pre ++ rest) outs = evaluate_and_atoms rest outs.
Proof. induction 1 as [|a pre Ha _ IH]; [done|]. simpl. rewrite Ha. simpl. done. Qed.

Lemma clause_true_eval c :
  clause_true c -> evaluate_and_atoms (clause_atoms c) outs = Ok (inr true).
Proof. intros Hc. rewrite <-(app_nil_r (clause_atoms c)). by rewrite and_atoms_true. Qed.

Lemma clause_false_eval c :
  clause_false c -> evaluate_and_atoms (clause_atoms c) outs = Ok (inr false).
Proof.
  intros (pre & a & post & -> & Hp & Ha). rewrite and_atoms_true by done. simpl.
  by rewrite Ha.
Qed.

Lemma clause_stops_eval c r :
  clause_stops r c ->
  evaluate_and_atoms (clause_atoms c) outs
  = match r with Ok x => Ok (inl x) | Err e => Err e end.
Proof.
  intros (pre & a & post & -> & Hp & <- & Hr). rewrite and_atoms_true by done. simpl.
  destruct Hr as [->|[e ->]]; done.
Qed.

Lemma atoms_cases l :
  Forall (atom_val true) l
  \/ (exists pre a post, l = pre ++ a :: post /\ Forall (atom_val true) pre /\ atom_val false a)
  \/ (exists r pre a post, l = pre ++ a :: post
        /\ Forall (atom_val true) pre /\ atom_stops r a).
Proof.
  induction l as [|a l IH]; [by left; constructor|].
  destruct (evaluate_atom_outcomes a) as [Ha|[Ha|[r Ha]]].
  - destruct IH as [IH|[(pre & b & post & -> & Hp & Hb)|(r & pre & b & post & -> & Hp & Hb)]].
    + left. by constructor.
    + right; left. exists (a :: pre), b, post. split_and!; auto.
    + right; right. exists r, (a :: pre), b, post. split_and!; auto.
  - right; left. by exists [], a, l.
  - right; right. by exists r, [], a, l.
Qed.

Lemma or_clauses_false pre rest :
  Forall clause_false pre ->
  evaluate_or_clauses (pre ++ rest) outs = evaluate_or_clauses rest outs.
Proof.
  induction 1 as [|c pre Hc _ IH]; [done|].
  cbn [evaluate_or_clauses app]. fold (clause_atoms c). by rewrite (clause_false_eval _ Hc).
Qed.

Lemma disjunction_eval cs r : disjunction cs r -> evaluate_or_clauses cs outs = r.
Proof.
  intros [pre c post -> Hp Hc|Hp|pre c post r' -> Hp Hc].
  - rewrite or_clauses_false by done. cbn [evaluate_or_clauses]. fold (clause_atoms c).
    by rewrite (clause_true_eval _ Hc).
  - rewrite <-(app_nil_r cs). by rewrite or_clauses_false.
  - rewrite or_clauses_false by done. cbn [evaluate_or_clauses]. fold (clause_atoms c).
    rewrite (clause_stops_eval _ _ Hc). by destruct r'.
Qed.

Lemma disjunction_total cs : exists r, disjunction cs r.
Proof.
  induction cs as [|c cs [r IH]]; [eexists; by apply dis_false|].
  destruct (atoms_cases (clause_atoms c)) as [Hc|[Hc|[r' Hc]]].
  - eexists. by eapply (dis_true _ []).
  - exists r. destruct IH as [pre d post -> Hp Hd|Hp|pre d post r' -> Hp Hd].
    + eapply (dis_true _ (c :: pre)); [done| |done]. by constructor.
    + apply dis_false. by constructor.
    + eapply (dis_stops _ (c :: pre)); [done| |done]. by constructor.
  - exists r'. by eapply (dis_stops _ []).
Qed.
End Compound.

(** C35: a compound condition means the disjunction of its [||] clauses, each the
    conjunction of its [&&] atoms, with left-to-right short-circuit evaluation:
    it is true exactly when a clause whose atoms all hold comes after clauses
    that are false; a malformed atom or an unresolvable reference decides it
    exactly when no earlier atom or clause already has. *)
Theorem evaluate_condition_spec `{RegexEngine} `{SerdeJson} expr outs r :
  evaluate_condition expr outs = r
  <-> disjunction outs (split_outside_quotes (trim expr) (lit "||")) r.
Proof.
  unfold evaluate_condition. split; [|apply disjunction_eval].
  intros <-. destruct (disjunction_total outs (split_outside_quotes (trim expr) (lit "||")))
    as [r Hr].
  by rewrite (disjunction_eval _ _ _ Hr).
Qed.

(** ** Lemmas and theorems: atoms

    A comparison of a reference with a quoted text, and the way it is written. *)
Record atom : Type := mk_atom {
  a_node : str;
  a_field : option str;
  a_operator : str;
  a_value : str;
}.

Definition operators : list str :=
  [lit "=="; lit "!="; lit "<="; lit ">="; lit "<"; lit ">"].

Definition print_path (f : option str) : str :=
  match f with Some f => lit "." ++ f | None => [] end.
Definition print_atom (a : atom) : str :=
  lit "$" ++ a_node a ++ lit ".output" ++ print_path (a_field a)
  ++ lit " " ++ a_operator a ++ lit " " ++ [squote] ++ a_value a ++ [squote].

(** Identifiers, with and without hyphens. *)
Definition is_ident (chars : char -> bool) (s : str) : bool :=
  match s with c :: r => ident_start c && forallb chars r | [] => false end.

Record atom_wf (a : atom) : Prop := {
  wf_a_node : is_ident ident_char_hyphen (a_node a) = true;
  wf_a_field : forall f, a_field a = Some f -> is_ident ident_char f = true;
  wf_a_operator : a_operator a ∈ operators;
  wf_a_value : squote ∉ a_value a;
}.

Lemma first_ident chars (w rest b : str) gs :
  is_ident chars w = true -> stops chars rest = true ->
  first (RSeq (RClass ident_start) (RStar true (RClass chars)))
    (mk_point b (w ++ rest) gs) (mk_point (rev w ++ b) rest gs).
Proof.
  destruct w as [|c w]; [done|]. simpl. intros [Hc Hw]%andb_prop Hr.
  eapply first_seq; [by apply first_class|].
  rewrite <-app_assoc. by apply first_star_class.
Qed.

Lemma not_squote_class v :
  squote ∉ v -> forallb (fun c => negb (c =? squote)%N) v = true.
Proof.
  intros Hv. apply forallb_forall. intros c Hc%list_elem_of_In.
  apply negb_true_iff, N.eqb_neq. set_solver.
Qed.

Section Atoms.
Context `{RegexEngine} `{SerdeJson}.

Lemma first_operator op b rest gs :
  op ∈ operators -> stops (fun c => (c =? 61)%N) rest = true ->
  first re_operator (mk_point b (op ++ rest) gs) (mk_point (rev op ++ b) rest gs).
Proof.
  intros Hop Hr. unfold re_operator, first. cbn [RAlts matches]. rewrite !matches_str.
  assert (forall c r, rest = c :: r -> (61 =? c)%N = false) as Hc.
  { intros c r ->. simpl in Hr. rewrite N.eqb_sym. by apply negb_true_iff. }
  unfold operators in Hop. set_unfold in Hop.
  change (lit "==") with [61; 61]%N in *. change (lit "!=") with [33; 61]%N in *.
  change (lit "<=") with [60; 61]%N in *. change (lit ">=") with [62; 61]%N in *.
  change (lit "<") with [60]%N in *. change (lit ">") with [62]%N in *.
  destruct_or!; rewrite Hop; simpl; try by eexists.
  all: destruct rest as [|c r]; simpl; [by eexists|].
  all: specialize (Hc c r eq_refl); simpl in Hc; rewrite Hc; by eexists.
Qed.

Lemma first_path f b rest gs :
  (forall f', f = Some f' -> is_ident ident_char f' = true) ->
  stops ident_char rest = true -> stops (fun c => (c =? 46)%N) rest = true ->
  exists gs', first (ROpt (RSeq (RChar 46) (RGroup 3 re_ident)))
    (mk_point b (print_path f ++ rest) gs)
    (mk_point (rev (print_path f) ++ b) rest gs')
  /\ gs' = match f with Some f' => (3, f') :: gs | None => gs end.
Proof.
  intros Hf Hr1 Hr2. eexists. split; [|done]. destruct f as [f|]; simpl.
  - apply first_alt_l. eapply first_seq; [apply first_class; reflexivity|].
    rewrite <-app_assoc. apply first_group_captured, first_ident; auto.
  - apply first_alt_r; [|apply first_eps].
    destruct rest as [|c rest]; [done|]. cbn [stops] in Hr2.
    apply negb_true_iff in Hr2. rewrite N.eqb_sym in Hr2.
    cbn [matches RChar p_rest]. by rewrite Hr2.
Qed.

(** [ATOM_PATTERN] reads an atom back. *)
Lemma atom_pattern_captures a :
  atom_wf a ->
  exists m, captures ATOM_PATTERN (print_atom a) = Some m
    /\ m_groups m = [(5, a_value a); (4, a_operator a)]
         ++ (match a_field a with Some f => [(3, f)] | None => [] end)
         ++ [(2, lit "output"); (1, a_node a)].
Proof.
  intros [Hn Hf Hop Hv]. rewrite captures_leftmost_first.
  set (sp := lit " ").
  set (tail := [squote] ++ a_value a ++ [squote]).
  destruct (first_path (a_field a) (rev (lit "output") ++ 46%N :: rev (a_node a) ++ [36%N])
    (sp ++ a_operator a ++ sp ++ tail) [(2, lit "output"); (1, a_node a)])
    as (gs & Hpath & ->); [done|done|done|].
  eexists. split.
  { apply find_from_first. unfold ATOM_PATTERN, print_atom. simpl RSeqs.
    eapply first_seq; [apply first_bos|].
    eapply first_seq; [apply first_class; reflexivity|].
    eapply first_seq.
    { apply first_group_captured, first_ident; [done|]. done. }
    eapply first_seq; [apply first_class; reflexivity|].
    eapply first_seq.
    { change (lit "output" ++ print_path (a_field a) ++ lit " " ++ a_operator a ++ lit " "
        ++ [squote] ++ a_value a ++ [squote]) with
        (lit "output" ++ print_path (a_field a) ++ sp ++ a_operator a ++ sp ++ tail).
      apply (first_group_captured 2), (first_ident ident_char (lit "output")); [done|].
      destruct (a_field a); done. }
    eapply first_seq; [exact Hpath|].
    eapply first_seq; [apply (first_star_class is_whitespace _ sp); [done|]|].
    { unfold operators in Hop. set_unfold in Hop. destruct_or!; rewrite Hop; done. }
    eapply first_seq; [apply first_group_captured, first_operator; done|].
    eapply first_seq; [apply (first_star_class is_whitespace _ sp); done|].
    eapply first_seq; [|apply first_eos].
    apply first_alt_l. unfold re_quoted, tail. simpl RSeqs.
    eapply first_seq; [apply first_class; reflexivity|].
    eapply first_seq.
    { apply first_group_captured, first_star_class; [by apply not_squote_class|done]. }
    apply first_class. reflexivity. }
  simpl. by destruct (a_field a).
Qed.

(** The orderings of two numbers that satisfy an operator. *)
Definition orderings (operator : str) : list Datatypes.comparison :=
  default [] (assoc_get operator
    [(lit "<", [Lt]); (lit ">", [Gt]); (lit "<=", [Lt; Eq]); (lit ">=", [Gt; Eq])]).

(** What a comparison means: equality is of texts; an order is of the two numbers
    the texts start with, and means nothing when one of them is no finite number. *)
Definition comparison_meaning (operator actual expected : str) : option bool :=
  if decide (operator = lit "==") then Some (bool_decide (actual = expected))
  else if decide (operator = lit "!=") then Some (bool_decide (actual <> expected))
  else
    let x := parse_float_js actual in
    let y := parse_float_js expected in
    if f64_is_finite x && f64_is_finite y then
      Some (match SFcompare x y with
            | Some c => bool_decide (c ∈ orderings operator)
            | None => false
            end)
    else None.

Lemma compare_values_meaning operator actual expected :
  operator ∈ operators ->
  compare_values operator actual expected = comparison_meaning operator actual expected.
Proof.
  intros Hop. unfold comparison_meaning.
  repeat (apply elem_of_cons in Hop as [->|Hop]); [..|by apply elem_of_nil in Hop].
  1: by rewrite decide_True.
  1: { rewrite decide_False, decide_True by done. unfold compare_values. f_equal.
       unfold str_eqb. symmetry. apply bool_decide_not. }
  all: rewrite !decide_False by done; unfold compare_values;
    change (str_eqb _ (lit "==")) with false; change (str_eqb _ (lit "!=")) with false; cbv iota;
    destruct (f64_is_finite _ && f64_is_finite _); [|done];
    unfold f64_ltb, f64_leb, SFltb, SFleb.
  all: try rewrite (SFcompare_swap (parse_float_js actual)).
  all: by destruct (SFcompare (parse_float_js actual) (parse_float_js expected)) as [[]|].
Qed.

(** The meaning of an atom. *)
Definition atom_meaning (outs : gmap str NodeOutput) (a : atom)
  : result OutputRefError EvaluationResult :=
  actual ← resolve_output_ref (a_node a) (a_field a) outs;
  match comparison_meaning (a_operator a) actual (a_value a) with
  | Some b => Ok (mk_EvaluationResult b true)
  | None => Ok unparsed
  end.

Lemma print_atom_wrapped a : exists s, print_atom a = 36%N :: s ++ [squote].
Proof.
  exists (a_node a ++ lit ".output" ++ print_path (a_field a)
    ++ lit " " ++ a_operator a ++ lit " " ++ [squote] ++ a_value a).
  unfold print_atom. change (lit "$") with [36%N]. rewrite <-!app_assoc. reflexivity.
Qed.

Lemma trim_print_atom a : trim (print_atom a) = print_atom a.
Proof. destruct (print_atom_wrapped a) as [s ->]. by apply trim_wrapped. Qed.

Lemma evaluate_atom_print a outs :
  atom_wf a -> evaluate_atom (print_atom a) outs = atom_meaning outs a.
Proof.
  intros Ha. unfold evaluate_atom. rewrite trim_print_atom.
  destruct (atom_pattern_captures a Ha) as (m & -> & Hg).
  unfold group. rewrite Hg. unfold atom_meaning.
  destruct (a_field a); simpl; destruct (resolve_output_ref _ _ _); simpl; try done;
    rewrite <-compare_values_meaning by apply (wf_a_operator a Ha);
    by destruct (compare_values _ _ _) as [[]|].
Qed.
End Atoms.

(** ** Lemmas and theorems: printed conditions *)

(** A character stands only inside quotes. *)
Fixpoint quoted_only (c : char) (q : bool) (s : str) : bool :=
  match s with
  | [] => true
  | d :: s' =>
      if (d =? squote)%N then quoted_only c (negb q) s'
      else (q || negb (d =? c)%N) && quoted_only c q s'
  end.

Lemma quoted_only_app c q a b :
  quoted_only c q (a ++ b) = quoted_only c q a && quoted_only c (in_quote_after q a) b.
Proof.
  revert q; induction a as [|d a IH]; intros q; [done|]. simpl.
  destruct (d =? squote)%N; rewrite IH; [done|]. by rewrite andb_assoc.
Qed.

Lemma in_quote_after_app q a b :
  in_quote_after q (a ++ b) = in_quote_after (in_quote_after q a) b.
Proof. unfold in_quote_after. by rewrite foldl_app. Qed.

Lemma no_quote_after q s : squote ∉ s -> in_quote_after q s = q.
Proof.
  revert q; induction s as [|d s IH]; intros q Hs; [done|].
  apply not_elem_of_cons in Hs as [Hd Hs]. unfold in_quote_after in *. simpl.
  destruct (N.eqb_spec d squote); [congruence|auto].
Qed.

Lemma no_quote_only c q s : squote ∉ s -> q = true \/ c ∉ s -> quoted_only c q s = true.
Proof.
  intros Hs Hc. induction s as [|d s IH]; [done|].
  apply not_elem_of_cons in Hs as [Hd Hs]. simpl.
  destruct (N.eqb_spec d squote); [congruence|]. apply andb_true_iff. split.
  - destruct Hc as [->|Hc]; [done|]. apply not_elem_of_cons in Hc as [Hc _].
    destruct q; [done|]. simpl. apply negb_true_iff, N.eqb_neq. congruence.
  - apply IH; [done|]. destruct Hc as [|Hc]; [by left|right; set_solver].
Qed.

(** A piece of a condition: it ends outside quotes, it holds the separator's
    character only inside them, and it has no white space at its ends. *)
Record piece (c : char) (p : str) : Prop := {
  piece_only : quoted_only c false p = true;
  piece_closed : in_quote_after false p = false;
  piece_trimmed : exists a s b, p = a :: s ++ [b]
    /\ is_whitespace a = false /\ is_whitespace b = false;
}.

Definition spaces (p : str) : str := lit " " ++ p ++ lit " ".

Lemma trim_space_r p : trim (p ++ [32%N]) = trim p.
Proof. by apply (trim_pad [] p [32%N]). Qed.

Lemma piece_trim c p : piece c p -> trim p = p /\ trim (p ++ lit " ") = p
  /\ trim (lit " " ++ p) = p /\ trim (spaces p) = p.
Proof.
  intros [_ _ (a & s & b & -> & Ha & Hb)]. unfold spaces.
  change (lit " ") with [32%N].
  assert (trim (a :: s ++ [b]) = a :: s ++ [b]) as Ht by by apply trim_wrapped.
  split_and!; [done|by rewrite trim_space_r|..]; cbn [app]; rewrite trim_space_l by done;
    [done|]. by rewrite (trim_space_r (a :: s ++ [b]) : trim (a :: (s ++ [b]) ++ _) = _).
Qed.

Section Printed.
Variable c : char.
Hypothesis c_ascii : is_ascii c = true.
Hypothesis c_not_quote : (c =? squote)%N = false.
Hypothesis c_not_space : (32 =? c)%N = false.
Let sep : str := [c; c].

Lemma soq_loop_piece fuel q cur a rest :
  quoted_only c q a = true -> length a <= fuel ->
  soq_loop fuel sep q cur (a ++ rest)
  = soq_loop (fuel - length a) sep (in_quote_after q a) (cur ++ a) rest.
Proof.
  revert fuel q cur; induction a as [|d a IH]; intros fuel q cur Hq Hf; simpl in Hq, Hf.
  { by rewrite Nat.sub_0_r, app_nil_r. }
  destruct fuel as [|fuel]; [lia|]. cbn [app soq_loop].
  change (S fuel - length (d :: a)) with (fuel - length a).
  rewrite (app_assoc cur [d] a : cur ++ d :: a = (cur ++ [d]) ++ a).
  unfold in_quote_after in *. cbn [foldl].
  destruct (d =? squote)%N eqn:Hd; [apply IH; [done|lia]|].
  apply andb_prop in Hq as [Hdc Hq].
  rewrite <-andb_assoc. rewrite (sep_test sep) by (simpl; by rewrite c_ascii).
  unfold sep, starts_with. cbn [strip_prefix].
  destruct q; simpl negb; simpl andb; [apply IH; [done|lia]|].
  simpl in Hdc. apply negb_true_iff in Hdc. rewrite N.eqb_sym in Hdc. rewrite Hdc.
  apply IH; [done|lia].
Qed.
Definition closed_piece (p : str) : Prop :=
  quoted_only c false p = true /\ in_quote_after false p = false.

Lemma soq_loop_join ps : forall fuel p cur,
  Forall closed_piece (p :: ps) -> length (join sep (p :: ps)) < fuel ->
  soq_loop fuel sep false cur (join sep (p :: ps)) = trim (cur ++ p) :: map trim ps.
Proof.
  induction ps as [|p' ps IH]; intros fuel p cur Hps Hf;
    apply Forall_cons in Hps as [[Hp1 Hp2] Hps].
  - simpl join in *. rewrite <-(app_nil_r p) at 1.
    rewrite soq_loop_piece by (done || lia). rewrite Hp2.
    by destruct (fuel - length p).
  - rewrite join_cons in * by done. rewrite !length_app in Hf.
    change (length sep) with 2 in Hf.
    rewrite soq_loop_piece by (done || lia). rewrite Hp2.
    destruct (fuel - length p) as [|fuel'] eqn:Hf'; [lia|].
    unfold sep at 2. cbn [app soq_loop]. rewrite c_not_quote, <-andb_assoc.
    rewrite (sep_test sep) by (simpl; by rewrite c_ascii).
    unfold starts_with. change (c :: c :: join sep (p' :: ps)) with (sep ++ join sep (p' :: ps)).
    rewrite strip_prefix_app. simpl negb. simpl andb. cbn iota.
    rewrite (sep_byte_len sep) by (simpl; by rewrite c_ascii).
    rewrite drop_app_length.
    rewrite IH by (done || lia). done.
Qed.

Lemma split_join_closed p ps :
  Forall closed_piece (p :: ps) ->
  split_outside_quotes (join sep (p :: ps)) sep = map trim (p :: ps).
Proof. intros Hps. unfold split_outside_quotes. rewrite soq_loop_join; [done..|lia]. Qed.

(** The pieces of a text written with a space on each side of the separators. *)
Fixpoint spaced (p : str) (ps : list str) : list str :=
  match ps with
  | [] => [lit " " ++ p]
  | p' :: ps' => spaces p :: spaced p' ps'
  end.
Definition spaced_pieces (p : str) (ps : list str) : list str :=
  match ps with
  | [] => [p]
  | p' :: ps' => (p ++ lit " ") :: spaced p' ps'
  end.

Lemma closed_spaces a p b :
  a = [] \/ a = lit " " -> b = [] \/ b = lit " " -> closed_piece p ->
  closed_piece (a ++ p ++ b).
Proof.
  intros Ha Hb [H1 H2].
  assert (forall q x, x = [] \/ x = lit " " ->
    quoted_only c q x = true /\ in_quote_after q x = q) as Hx.
  { intros q x [->| ->]; [done|]. change (lit " ") with [32%N]. split; [|done].
    cbn [quoted_only]. rewrite c_not_space. by destruct q. }
  split.
  - rewrite !quoted_only_app, (proj1 (Hx _ _ Ha)), (proj2 (Hx _ _ Ha)), H1, H2.
    by rewrite (proj1 (Hx _ _ Hb)).
  - by rewrite !in_quote_after_app, (proj2 (Hx _ _ Ha)), H2, (proj2 (Hx _ _ Hb)).
Qed.

Lemma piece_closed_piece p : piece c p -> closed_piece p.
Proof. by intros []. Qed.

Lemma spaced_spec ps : forall p, Forall (piece c) (p :: ps) ->
  Forall closed_piece (spaced p ps) /\ map trim (spaced p ps) = p :: ps
  /\ join sep (spaced p ps) = lit " " ++ join (spaces sep) (p :: ps).
Proof.
  induction ps as [|p' ps IH]; intros p Hps; apply Forall_cons in Hps as [Hp Hps].
  - cbn [spaced map join]. destruct (piece_trim _ _ Hp) as (_ & _ & Ht & _).
    split; [|split; [by f_equal|done]]. constructor; [|done].
    pose proof (closed_spaces (lit " ") p []) as Hc. rewrite app_nil_r in Hc.
    apply Hc; auto using piece_closed_piece.
  - destruct (IH p' Hps) as (H1 & H2 & H3).
    destruct (piece_trim _ _ Hp) as (_ & _ & _ & Ht). cbn [spaced map]. split_and!.
    + constructor; [|done]. unfold spaces. apply closed_spaces; auto using piece_closed_piece.
    + by rewrite Ht, H2.
    + rewrite (join_cons (spaces sep)), (join_cons sep), H3 by (by destruct ps). unfold spaces.
      by rewrite <-!app_assoc.
Qed.

(** Splitting inverts joining, with a space on each side of the separator. *)
Lemma split_join p ps :
  Forall (piece c) (p :: ps) ->
  split_outside_quotes (join (spaces sep) (p :: ps)) sep = p :: ps.
Proof.
  intros Hps. pose proof Hps as [Hp Hps']%Forall_cons.
  destruct (piece_trim _ _ Hp) as (Ht & Htr & _).
  destruct ps as [|p' ps].
  - change (join (spaces sep) [p]) with (join sep [p]).
    rewrite split_join_closed by (constructor; auto using piece_closed_piece).
    simpl. by rewrite Ht.
  - destruct (spaced_spec ps p' Hps') as (H1 & H2 & H3).
    assert (join (spaces sep) (p :: p' :: ps)
            = join sep ((p ++ lit " ") :: spaced p' ps)) as ->.
    { rewrite (join_cons (spaces sep)), (join_cons sep), H3 by (by destruct ps). unfold spaces.
      by rewrite <-!app_assoc. }
    rewrite split_join_closed.
    + cbn [map]. by rewrite Htr, H2.
    + constructor; [|done]. apply (closed_spaces [] p (lit " ")); auto using piece_closed_piece.
Qed.
End Printed.

(** A text of pieces has no white space at its ends either. *)
Lemma join_wrapped c sep p ps :
  Forall (piece c) (p :: ps) ->
  exists a s b, join sep (p :: ps) = a :: s ++ [b]
    /\ is_whitespace a = false /\ is_whitespace b = false.
Proof.
  revert p; induction ps as [|p' ps IH]; intros p Hps;
    pose proof Hps as [[_ _ Hp] Hps']%Forall_cons; [done|].
  destruct (IH p' Hps') as (x & s & y & Hs & Hx & Hy).
  destruct Hp as (x' & s' & y' & Hp & Hx' & Hy').
  exists x', (s' ++ [y'] ++ sep ++ x :: s), y. split_and!; [|done|done].
  rewrite join_cons, Hs, Hp by done. by repeat (rewrite <-app_assoc; simpl).
Qed.

(** ** The round trip *)

(** A condition in disjunctive normal form, and the way it is written. *)
Definition print_clause (atoms : list atom) : str :=
  join (spaces (lit "&&")) (map print_atom atoms).
Definition print_condition (clauses : list (list atom)) : str :=
  join (spaces (lit "||")) (map print_clause clauses).

Section RoundTrip.
Context `{RegexEngine} `{SerdeJson}.
Variable outs : gmap str NodeOutput.

(** The meaning of a condition: Boolean, three-valued on atoms that do not
    compare, and stopping at an unresolvable reference. *)
Fixpoint clause_meaning (atoms : list atom) : result OutputRefError (EvaluationResult + bool) :=
  match atoms with
  | [] => Ok (inr true)
  | a :: rest =>
      r ← atom_meaning outs a;
      if negb (ev_parsed r) then Ok (inl unparsed)
      else if ev_result r then clause_meaning rest else Ok (inr false)
  end.
Fixpoint condition_meaning (clauses : list (list atom)) : result OutputRefError EvaluationResult :=
  match clauses with
  | [] => Ok parsed_false
  | c :: rest =>
      r ← clause_meaning c;
      match r with
      | inl stop => Ok stop
      | inr true => Ok parsed_true
      | inr false => condition_meaning rest
      end
  end.

Lemma ident_free c chars s :
  is_ident chars s = true -> ident_start c = false -> chars c = false -> c ∉ s.
Proof.
  destruct s as [|d s]; [done|]. simpl. intros [Hd Hs]%andb_prop H1 H2 Hin.
  apply elem_of_cons in Hin as [->|Hin]; [congruence|].
  rewrite forallb_forall in Hs. apply list_elem_of_In, Hs in Hin. congruence.
Qed.

Lemma print_atom_piece c a :
  c = 124%N \/ c = 38%N -> atom_wf a -> piece c (print_atom a).
Proof.
  intros Hc [Hn Hf Hop Hv].
  set (head := lit "$" ++ a_node a ++ lit ".output" ++ print_path (a_field a)
               ++ lit " " ++ a_operator a ++ lit " ").
  assert (print_atom a = head ++ [squote] ++ a_value a ++ [squote]) as Heq.
  { unfold print_atom, head. by rewrite <-!app_assoc. }
  assert (forall x, x = 124%N \/ x = 38%N \/ x = squote -> x ∉ head) as Hhead.
  { intros x Hx. unfold head. rewrite !not_elem_of_app.
    assert (x ∉ a_node a) by (apply (ident_free x _ _ Hn); destruct_or!; by subst x).
    assert (x ∉ print_path (a_field a)).
    { destruct (a_field a) as [f|]; [|apply not_elem_of_nil].
      apply not_elem_of_app. split; [destruct_or!; subst x; set_solver|].
      apply (ident_free x _ _ (Hf f eq_refl)); destruct_or!; by subst x. }
    assert (x ∉ a_operator a).
    { unfold operators in Hop. set_unfold in Hop.
      destruct_or!; rewrite Hop; subst x; apply (bool_decide_unpack _); by_compute. }
    split_and!; try done; destruct_or!; subst x; apply (bool_decide_unpack _); by_compute. }
  split.
  - rewrite Heq, !quoted_only_app, (no_quote_after false head) by auto.
    change (in_quote_after false [squote]) with true. rewrite no_quote_after by done.
    assert (quoted_only c false head = true) as ->.
    { apply no_quote_only; [auto|]. right. apply Hhead. tauto. }
    assert (quoted_only c true (a_value a) = true) as ->; [|done].
    apply no_quote_only; auto.
  - rewrite Heq, !in_quote_after_app, (no_quote_after false head) by auto.
    change (in_quote_after false [squote]) with true. by rewrite (no_quote_after true (a_value a)).
  - destruct (print_atom_wrapped a) as [s ->]. exists 36%N, s, squote. done.
Qed.
Lemma print_clause_piece a atoms :
  Forall atom_wf (a :: atoms) -> piece 124 (print_clause (a :: atoms)).
Proof.
  unfold print_clause. cbn [map].
  revert a; induction atoms as [|b atoms IH]; intros a Hwf;
    apply Forall_cons in Hwf as [Ha Hwf]; apply (print_atom_piece 124) in Ha; auto.
  destruct (IH b Hwf) as [H1 H2 _]. pose proof Ha as [H3 H4 _].
  assert (in_quote_after false (spaces (lit "&&")) = false) as Hq by done.
  split.
  - cbn [map]. rewrite join_cons by done. by rewrite !quoted_only_app, H3, H4, Hq, H1.
  - cbn [map]. rewrite join_cons by done. by rewrite !in_quote_after_app, H4, Hq, H2.
  - apply (join_wrapped 124). constructor; [done|].
    change (print_atom b :: map print_atom atoms) with (map print_atom (b :: atoms)).
    apply Forall_map. eapply Forall_impl; [exact Hwf|].
    intros ? ?. apply print_atom_piece; auto.
Qed.

Lemma evaluate_clause atoms :
  Forall atom_wf atoms ->
  evaluate_and_atoms (map print_atom atoms) outs = clause_meaning atoms.
Proof.
  induction 1 as [|a atoms Ha _ IH]; [done|]. simpl.
  rewrite evaluate_atom_print by done.
  destruct (atom_meaning outs a) as [[[] []]|]; simpl; auto.
Qed.

Lemma split_print_clause a atoms :
  Forall atom_wf (a :: atoms) ->
  split_outside_quotes (print_clause (a :: atoms)) (lit "&&") = map print_atom (a :: atoms).
Proof.
  intros Hwf. unfold print_clause. change (lit "&&") with [38%N; 38%N]. cbn [map].
  apply split_join; [done..|].
  change (print_atom a :: map print_atom atoms) with (map print_atom (a :: atoms)).
  apply Forall_map. eapply Forall_impl; [exact Hwf|].
  intros x Hx. apply print_atom_piece; auto.
Qed.

Lemma evaluate_clauses cls :
  Forall (fun c => c <> [] /\ Forall atom_wf c) cls ->
  evaluate_or_clauses (map print_clause cls) outs = condition_meaning cls.
Proof.
  induction 1 as [|c cls [Hne Hc] _ IH]; [done|]. cbn [map evaluate_or_clauses condition_meaning].
  destruct c as [|a c]; [done|]. rewrite split_print_clause, evaluate_clause by done.
  destruct (clause_meaning (a :: c)) as [[|[]]|]; simpl; auto.
Qed.

(** Reading a written condition: the text of any disjunction of
    conjunctions of comparisons, whose quoted values may hold [&&] and [||],
    evaluates to the meaning of that condition. *)
Theorem evaluate_print_condition c cls :
  Forall (fun c => c <> [] /\ Forall atom_wf c) (c :: cls) ->
  evaluate_condition (print_condition (c :: cls)) outs = condition_meaning (c :: cls).
Proof.
  intros Hcls. unfold evaluate_condition.
  assert (Forall (piece 124) (map print_clause (c :: cls))) as Hp.
  { apply Forall_map. eapply Forall_impl; [exact Hcls|].
    intros [|a x] [Hne Hx]; [done|]. by apply print_clause_piece. }
  assert (trim (print_condition (c :: cls)) = print_condition (c :: cls)) as ->.
  { destruct (join_wrapped 124 (spaces (lit "||")) (print_clause c) (map print_clause cls) Hp)
      as (a & s & b & Hs & Ha & Hb).
    unfold print_condition. cbn [map]. rewrite Hs. by apply trim_wrapped. }
  unfold print_condition. change (lit "||") with [124%N; 124%N]. cbn [map] in *.
  rewrite split_join by done.
  change (print_clause c :: map print_clause cls) with (map print_clause (c :: cls)).
  by apply evaluate_clauses.
Qed.
End RoundTrip.

Lemma evaluate_print_condition_witness :
  let outs : gmap str NodeOutput :=
    {[ lit "a" := Completed (lit "x && y") None None None;
       lit "b" := Completed (lit "85") None None None ]} in
  let c1 := [mk_atom (lit "a") None (lit "==") (lit "x && y");
             mk_atom (lit "b") None (lit "<") (lit "80")] in
  let c2 := [mk_atom (lit "b") None (lit ">=") (lit "85")] in
  @evaluate_condition backtracking_engine sample_json (print_condition [c1; c2]) outs
  = @condition_meaning backtracking_engine sample_json outs [c1; c2].
Proof.
  intros. apply evaluate_print_condition.
  repeat (constructor || (intros; discriminate) || by_compute
          || (apply (bool_decide_unpack _); by_compute)).
Defined.

(** ** Lemmas and theorems: numeric prefixes *)

Lemma scan_mantissa_sound s m r :
  scan_mantissa s = Some (m, r) -> s = m ++ r /\ mantissa_text m.
Proof.
  destruct s as [|c s]; [done|]. cbn [scan_mantissa]. unfold is_point.
  destruct (N.eqb_spec c 46) as [->|].
  - pose proof (span_digits_spec s) as Hs. destruct (span_digits s) as [d r'].
    destruct Hs as (-> & Hd & _). destruct d as [|x d]; [done|]. intros [= <- <-].
    split; [done|]. by constructor.
  - pose proof (span_digits_spec (c :: s)) as Hs. destruct (span_digits (c :: s)) as [d r'].
    destruct Hs as (-> & Hd & Hr). destruct d as [|x d]; [done|]. simpl is_empty. cbn iota.
    destruct r' as [|p r']; [intros [= <- <-]; split; [done|by constructor]|].
    destruct (N.eqb_spec p 46) as [->|]; [|intros [= <- <-]; split; [done|by constructor]].
    pose proof (span_digits_spec r') as Hs. destruct (span_digits r') as [d2 r3].
    destruct Hs as (-> & Hd2 & _). intros [= <- <-].
    split; [simpl; by rewrite <-app_assoc|]. by apply (mt_point (x :: d)).
Qed.

(** A mantissa followed by anything is found, perhaps prolonged; followed by an
    exponent mark, it is found as it is. *)
Lemma scan_mantissa_longest m x :
  mantissa_text m ->
  exists m' r, scan_mantissa (m ++ x) = Some (m', r) /\ length m <= length m'
    /\ (forall c y, x = c :: y -> exponent_mark c -> m' = m /\ r = x).
Proof.
  intros [d Hd|d d2 Hd H2|d Hd].
  1,2: apply digits_text_cons in Hd as (c & d' & -> & Hc & Hd');
    assert (all_digits (c :: d') = true) as Hall by (simpl; by rewrite Hc);
    destruct (digit_not_special c Hc) as (_ & _ & Hp & _); apply N.eqb_neq in Hp.
  - cbn [app scan_mantissa]. unfold is_point. rewrite Hp.
    change (c :: d' ++ x) with ((c :: d') ++ x).
    destruct (span_digits ((c :: d') ++ x)) as [e r] eqn:E.
    pose proof (span_digits_longest _ _ _ _ E Hall) as Hl.
    destruct e as [|e0 e]; [simpl in Hl; lia|]. simpl is_empty. cbn iota.
    assert (forall k y, x = k :: y -> exponent_mark k -> e0 :: e = c :: d' /\ r = x) as Hx.
    { intros k y -> Hk. rewrite span_digits_app in E; [by injection E as <- <-|done|].
      simpl. by destruct Hk as [-> | ->]. }
    destruct r as [|p r]; [eauto 10|]. destruct (N.eqb_spec p 46) as [->|]; [|eauto 10].
    destruct (span_digits r) as [d2 r3]. do 2 eexists. split; [done|]. split.
    { rewrite length_app. simpl in *. lia. }
    intros k y -> Hk. destruct (Hx _ _ eq_refl Hk) as [_ [= <- _]]. by destruct Hk.
  - rewrite <-app_assoc. cbn [app scan_mantissa]. unfold is_point. rewrite Hp.
    change (c :: d' ++ 46%N :: d2 ++ x) with ((c :: d') ++ 46%N :: d2 ++ x).
    rewrite span_digits_app by done. simpl is_empty. cbn iota. rewrite N.eqb_refl.
    destruct (span_digits (d2 ++ x)) as [e r] eqn:E.
    pose proof (span_digits_longest _ _ _ _ E H2) as Hl.
    do 2 eexists. split; [done|]. split; [simpl; rewrite !length_app; simpl; lia|].
    intros k y -> Hk. rewrite span_digits_app in E; [by injection E as <- <-|done|].
    simpl. by destruct Hk as [-> | ->].
  - destruct Hd as [Hne Hd]. cbn [app scan_mantissa]. change (is_point 46) with true. cbn iota.
    destruct (span_digits (d ++ x)) as [e r] eqn:E.
    pose proof (span_digits_longest _ _ _ _ E Hd) as Hl.
    destruct e as [|e0 e]; [destruct d; simpl in *; [done|lia]|].
    do 2 eexists. split; [done|]. split; [simpl in *; lia|].
    intros k y -> Hk. rewrite span_digits_app in E; [by injection E as <- <-|done|].
    simpl. by destruct Hk as [-> | ->].
Qed.

Lemma scan_exponent_sound s :
  exponent_text (scan_exponent s) /\ exists r, s = scan_exponent s ++ r.
Proof.
  destruct s as [|c s]; simpl; [split; [constructor|by exists []]|].
  unfold is_exponent_mark. destruct ((c =? 101)%N || (c =? 69)%N) eqn:Hc;
    [|split; [constructor|eauto]].
  pose proof (opt_sign_spec s) as Hs. destruct (opt_sign s) as [sgn r1]. destruct Hs as [-> Hs].
  pose proof (span_digits_spec r1) as Hd. destruct (span_digits r1) as [d r].
  destruct Hd as (-> & Hd & _). destruct d as [|d0 d]; simpl; [split; [constructor|eauto]|].
  split; [|exists r; by rewrite <-app_assoc].
  constructor; [|done|done].
  by apply orb_prop in Hc as [->%N.eqb_eq| ->%N.eqb_eq]; [left|right].
Qed.

Lemma scan_exponent_longest e x :
  exponent_text e -> length e <= length (scan_exponent (e ++ x)).
Proof.
  intros [|c sgn d Hc Hs [Hne Hd]]; simpl; [lia|].
  replace (is_exponent_mark c) with true by (by destruct Hc as [-> | ->]).
  rewrite <-app_assoc, opt_sign_app; [|done|].
  - destruct (span_digits (d ++ x)) as [d' r] eqn:E.
    pose proof (span_digits_longest _ _ _ _ E Hd) as Hl.
    destruct d' as [|d0 d']; [destruct d; simpl in *; [done|lia]|].
    simpl is_empty. cbn iota. simpl. rewrite !length_app. simpl in *. lia.
  - intros k s'. destruct d as [|k' d]; [done|]. intros [= -> _].
    simpl in Hd. apply andb_prop in Hd as [Hk _].
    destruct (digit_not_special k Hk) as (? & ? & _). done.
Qed.

Lemma numeric_prefix_sound s p :
  numeric_prefix s = Some p -> numeral p /\ exists r, s = p ++ r.
Proof.
  unfold numeric_prefix. pose proof (opt_sign_spec s) as Hs.
  destruct (opt_sign s) as [sgn s1]. destruct Hs as [-> Hs].
  destruct (scan_mantissa s1) as [[m rest]|] eqn:Hm; [|done]. intros [= <-].
  apply scan_mantissa_sound in Hm as [-> Hm].
  destruct (scan_exponent_sound rest) as [He [r Hr]].
  split; [by constructor|]. exists r. rewrite Hr at 1. by rewrite <-!app_assoc.
Qed.

Lemma numeric_prefix_longest p r :
  numeral p -> exists p', numeric_prefix (p ++ r) = Some p' /\ length p <= length p'.
Proof.
  intros [sgn m e Hs Hm He]. unfold numeric_prefix. rewrite <-!app_assoc.
  rewrite opt_sign_app; [|done|].
  2:{ intros c s'. destruct (mantissa_head m Hm) as (x & m' & -> & ? & ? & _). simpl.
      by intros [= <- _]. }
  destruct (scan_mantissa_longest m (e ++ r) Hm) as (m' & rest & -> & Hl & Hx).
  eexists. split; [done|].
  destruct He as [|c es d Hc Hes Hd]; [rewrite !length_app; simpl; lia|].
  destruct (Hx c ((es ++ d) ++ r) eq_refl Hc) as [-> ->].
  assert (exponent_text (c :: es ++ d)) as He by by constructor.
  pose proof (scan_exponent_longest _ r He). rewrite !length_app in *. simpl in *. lia.
Qed.

(** [parse_float_js] reads the longest prefix that is a decimal numeral, as
    JavaScript's [parseFloat] does: it is that prefix's correctly rounded value,
    and it is [NaN] when no prefix is a numeral. *)
Theorem parse_float_js_longest_prefix s0 :
  let s := trim_start_matches is_ascii_whitespace s0 in
  starts_with (lit "Infinity") s = false ->
  starts_with (lit "-Infinity") s = false ->
  starts_with (lit "+Infinity") s = false ->
  (exists p r x, s = p ++ r /\ numeral p /\ f64_from_str p = Some x
     /\ parse_float_js s0 = x
     /\ forall p' r', s = p' ++ r' -> numeral p' -> length p' <= length p)
  \/ (parse_float_js s0 = f64_nan /\ forall p r, s = p ++ r -> ~ numeral p).
Proof.
  intros s H1 H2 H3. unfold parse_float_js. fold s. rewrite H1, H2, H3.
  destruct (numeric_prefix s) as [p|] eqn:Hp.
  - left. pose proof (numeric_prefix_sound _ _ Hp) as [Hn [r Hr]].
    destruct (f64_from_str_numeral p Hn) as [x Hx].
    exists p, r, x. split_and!; [done|done|done| |].
    + destruct s as [|c s']; [done|]. simpl is_empty. cbn iota. by rewrite Hx.
    + intros p' r' Hs Hn'. destruct (numeric_prefix_longest p' r' Hn') as (q & Hq & Hl).
      rewrite <-Hs, Hp in Hq. by injection Hq as <-.
  - right. split; [by destruct (is_empty s)|]. intros p r Hs Hn.
    destruct (numeric_prefix_longest p r Hn) as (q & Hq & _). by rewrite <-Hs, Hp in Hq.
Qed.

Lemma parse_float_js_longest_prefix_witness :
  let s0 := lit " 2e1px" in
  let s := trim_start_matches is_ascii_whitespace s0 in
  (exists p r x, s = p ++ r /\ numeral p /\ f64_from_str p = Some x
     /\ parse_float_js s0 = x
     /\ forall p' r', s = p' ++ r' -> numeral p' -> length p' <= length p)
  \/ (parse_float_js s0 = f64_nan /\ forall p r, s = p ++ r -> ~ numeral p).
Proof. intros s0 s. apply (parse_float_js_longest_prefix s0); by_compute. Defined.
