(* ===== verification/ExecutorShared.v ===== *)
(** * Helpers shared by the executors

    [executor_shared.rs] of the crate [har-dag-executor]: the classification of
    errors, the summary of a failed subprocess, the detection of exhausted
    credits, the substitution of workflow variables, completion signals, the
    delivery of platform messages with its counter of unknown errors, and the
    search for a command file. *)

From S2P Require Import Prelude Json StdModel Regex Paths DagNode Workflow OutputRef.

(** ** Classification of errors *)

Inductive ErrorType : Type := Transient_ | Fatal_ | Unknown_.

#[export] Instance ErrorType_eq_dec : EqDecision ErrorType.
Proof. solve_decision. Defined.

Definition FATAL_PATTERNS : list str :=
  [lit "unauthorized"; lit "forbidden"; lit "invalid token"; lit "authentication failed";
   lit "permission denied"; lit "401"; lit "403"; lit "credit balance"; lit "auth error"].

Definition TRANSIENT_PATTERNS : list str :=
  [lit "timeout"; lit "econnrefused"; lit "econnreset"; lit "etimedout"; lit "rate limit";
   lit "too many requests"; lit "429"; lit "503"; lit "502"; lit "529"; lit "overloaded";
   lit "network error"; lit "socket hang up"; lit "exited with code"; lit "claude code crash"].

Definition matches_pattern (message : str) (patterns : list str) : bool :=
  existsb (fun p => contains p message) patterns.

Section Classify.
Context `{UnicodeCase}.

Definition classify_error (message : str) : ErrorType :=
  let lower := to_lowercase message in
  if matches_pattern lower FATAL_PATTERNS then Fatal_
  else if matches_pattern lower TRANSIENT_PATTERNS then Transient_
  else Unknown_.
End Classify.

(** ** The summary of a failed subprocess *)

Definition SUBPROCESS_ERROR_MAX_CHARS : nat := 2000.

(** [str::encode_utf16]: one code unit, or a surrogate pair. *)
Definition encode_utf16_char (c : char) : list N :=
  if (c <? 65536)%N then [c]
  else [(55296 + (c - 65536) / 1024)%N; (56320 + (c - 65536) mod 1024)%N].
Definition encode_utf16 (s : str) : list N := flat_map encode_utf16_char s.

Definition is_high_surrogate (u : N) : bool := in_range 55296 56319 u.
Definition is_low_surrogate (u : N) : bool := in_range 56320 57343 u.
Definition replacement_character : char := 65533%N.

(** [String::from_utf16_lossy]: an unpaired surrogate becomes U+FFFD. *)
Fixpoint from_utf16_lossy (us : list N) : str :=
  match us with
  | [] => []
  | u :: r =>
      if is_high_surrogate u then
        match r with
        | v :: r' =>
            if is_low_surrogate v
            then (65536 + (u - 55296) * 1024 + (v - 56320))%N :: from_utf16_lossy r'
            else replacement_character :: from_utf16_lossy r
        | [] => [replacement_character]
        end
      else if is_low_surrogate u then replacement_character :: from_utf16_lossy r
      else u :: from_utf16_lossy r
  end.

Definition utf16_tail (s : str) (max : nat) : option str :=
  let units := encode_utf16 s in
  if Nat.leb (length units) max then None
  else
    let start := length units - max in
    Some (from_utf16_lossy (drop start units)).

Record SubprocessLogFields : Type := mk_SubprocessLogFields {
  exit_code : option str;
  killed : bool;
  stderr_tail : option str;
}.
Record SubprocessFailure : Type := mk_SubprocessFailure {
  failure_user_message : str;
  log_fields : SubprocessLogFields;
}.
Record RawSubprocessError : Type := mk_RawSubprocessError {
  raw_message : option str;
  raw_stderr : option str;
  raw_stdout : option str;
  raw_code : option str;
  raw_killed : option bool;
  raw_cmd : option str;
}.

Definition newline : str := [10%N].
Definition truncation_suffix : str := newline ++ lit "…[truncated]".

(** What is shown of the message: without the line that holds the command. *)
Definition message_body (raw_message : str) : str :=
  if starts_with (lit "Command failed:") raw_message then
    trim (default [] (snd <$> split_once newline raw_message))
  else raw_message.

Definition format_subprocess_failure (err : RawSubprocessError) (label : str)
  : SubprocessFailure :=
  let stderr := trim (default [] (raw_stderr err)) in
  let raw_message := trim (default [] (raw_message err)) in
  let has_command_failed_prefix := starts_with (lit "Command failed:") raw_message in
  let body_after_prefix := message_body raw_message in
  let diagnostic :=
    if negb (is_empty stderr) then stderr
    else if negb (is_empty body_after_prefix) then body_after_prefix
    else if has_command_failed_prefix then lit "no diagnostic output"
    else lit "unknown error" in
  let truncated :=
    match utf16_tail diagnostic SUBPROCESS_ERROR_MAX_CHARS with
    | Some tail => tail ++ truncation_suffix
    | None => diagnostic
    end in
  let exit_suffix :=
    match raw_code err with Some code => lit " [exit " ++ code ++ lit "]" | None => [] end in
  let tail :=
    match utf16_tail stderr SUBPROCESS_ERROR_MAX_CHARS with
    | Some tail => Some tail
    | None => if negb (is_empty stderr) then Some stderr else None
    end in
  mk_SubprocessFailure (label ++ lit " failed" ++ exit_suffix ++ lit ": " ++ truncated)
    (mk_SubprocessLogFields (raw_code err) (default false (raw_killed err)) tail).

(** ** Exhausted credits *)

Definition SESSION_LIMIT_PATTERNS : list str :=
  [lit "hit your session limit"; lit "session limit reached"; lit "session limit has been reached"].
Definition CREDIT_EXHAUSTION_PATTERNS : list str :=
  [lit "you're out of extra usage"; lit "out of credits"; lit "credit balance";
   lit "insufficient credit"].

Section Credits.
Context `{RegexEngine} `{UnicodeCase}.

(** [(?i)resets\s+([^\n·.!]+)]. *)
Definition RESET_RE : regex :=
  RSeqs [RStrFold (lit "resets"); RPlus white_space;
         RGroup 1 (RPlus (RClass (fun c =>
           negb ((c =? 10) || (c =? 183) || (c =? 46) || (c =? 33))%N)))].
Definition extract_reset_time (text : str) : option str :=
  caps ← captures RESET_RE text; m ← group 1 caps; Some (trim m).

Definition detect_credit_exhaustion (text : str) : option str :=
  let lower := to_lowercase text in
  if existsb (fun p => contains p lower) SESSION_LIMIT_PATTERNS then
    Some (match extract_reset_time text with
          | Some rt =>
              lit "Claude session limit reached — resets " ++ rt
              ++ lit ". Abandon this run and retry after reset."
          | None =>
              lit "Claude session limit reached — abandon this run and retry when the session resets."
          end)
  else if existsb (fun p => contains p lower) CREDIT_EXHAUSTION_PATTERNS then
    Some (lit "Credit exhaustion detected — resume when credits reset")
  else None.
End Credits.

(** ** Workflow variables *)

Inductive BaseBranchEmptyError : Type := base_branch_empty.

Record SubstitutionResult : Type := mk_SubstitutionResult {
  sr_prompt : str;
  context_substituted : bool;
}.

(** [CONTEXT_VAR_PATTERN_STR]. *)
Definition CONTEXT_VAR_NAME_RE : regex :=
  RSeq (RChar 36)
    (RAlts [RStr (lit "CONTEXT"); RStr (lit "EXTERNAL_CONTEXT"); RStr (lit "ISSUE_CONTEXT")]).

Section Substitute.
Context `{RegexEngine}.

(** A name is replaced unless a word character follows it. *)
Definition context_var_ends (m : re_match) : bool :=
  match m_post m with c :: _ => negb (ident_char c) | [] => true end.

Definition substitute_context_vars (input replacement : str) : str * bool :=
  let '(l, last) := captures_iter CONTEXT_VAR_NAME_RE input in
  (flat_map (fun m => m_skip m ++ (if context_var_ends m then replacement else m_text m)) l
     ++ last,
   existsb context_var_ends l).

(** [str::replace] on [$NAME]. *)
Definition replace_var (name to s : str) : str := replace (lit "$" ++ name) to s.

Definition substitute_workflow_variables
    (prompt workflow_id user_message artifacts_dir base_branch docs_dir : str)
    (issue_context loop_user_input rejection_reason loop_prev_output : option str)
    (shell_safe : bool) : result BaseBranchEmptyError SubstitutionResult :=
  if is_empty base_branch && contains (lit "$BASE_BRANCH") prompt then Err base_branch_empty
  else
    let resolved_docs_dir := if is_empty docs_dir then lit "docs/" else docs_dir in
    let result := replace_var (lit "WORKFLOW_ID") workflow_id prompt in
    let result := replace_var (lit "ARTIFACTS_DIR") artifacts_dir result in
    let result := replace_var (lit "BASE_BRANCH") base_branch result in
    let result := replace_var (lit "DOCS_DIR") resolved_docs_dir result in
    let result :=
      if shell_safe then result
      else
        let result := replace_var (lit "USER_MESSAGE") user_message result in
        let result := replace_var (lit "ARGUMENTS") user_message result in
        let result := replace_var (lit "LOOP_USER_INPUT") (default [] loop_user_input) result in
        let result := replace_var (lit "REJECTION_REASON") (default [] rejection_reason) result in
        replace_var (lit "LOOP_PREV_OUTPUT") (default [] loop_prev_output) result in
    let '(result, has_context_variables) :=
      if shell_safe then
        let '(_, matched_any) := substitute_context_vars result [] in (result, matched_any)
      else substitute_context_vars result (default [] issue_context) in
    Ok (mk_SubstitutionResult result
          (has_context_variables && bool_decide (is_Some issue_context))).

Definition build_prompt_with_context
    (template workflow_id user_message artifacts_dir base_branch docs_dir : str)
    (issue_context : option str) : result BaseBranchEmptyError str :=
  r ← substitute_workflow_variables template workflow_id user_message artifacts_dir
        base_branch docs_dir issue_context None None None false;
  match issue_context with
  | Some ctx =>
      if negb (context_substituted r)
      then Ok (sr_prompt r ++ newline ++ newline ++ lit "---" ++ newline ++ newline ++ ctx)
      else Ok (sr_prompt r)
  | None => Ok (sr_prompt r)
  end.
End Substitute.

(** ** Completion signals

    [escape_regex] makes a pattern that matches the signal itself; the patterns
    are therefore built with the signal as a literal text. *)
Definition regex_special : list char := lit ".*+?^${}()|[]\".
Definition escape_regex (s : str) : str :=
  flat_map (fun c => if existsb (N.eqb c) regex_special then [backslash; c] else [c]) s.

(** [close] is a prefix of [open_inner], ignoring ASCII case; the prefix is a
    slice of bytes. *)
Definition eq_ignore_ascii_case (a b : str) : bool :=
  str_eqb (map to_ascii_lowercase a) (map to_ascii_lowercase b).
Definition close_is_backref_of_open (open_inner close : str) : outcome bool :=
  if is_empty close || Nat.ltb (byte_len open_inner) (byte_len close) then Ret false
  else
    prefix ← byte_prefix (byte_len close) open_inner;
    Ret (eq_ignore_ascii_case prefix close).

Section Signals.
Context `{RegexEngine}.

(** [[a-zA-Z]] and [[\w-]] under [(?i)]: K (U+212A) and the long s fold to letters. *)
Definition fold_letter (c : char) : bool :=
  is_ascii_alphabetic c || (c =? 8490)%N || (c =? 383)%N.
Definition word_hyphen (c : char) : bool := perl_word c || (c =? 45)%N.
Definition re_tag_name : regex :=
  RSeq (RClass fold_letter) (RStar true (RClass word_hyphen)).
(** The pattern of a tag, the signal and a closing tag, under [(?i)]; group 1 is
    all the text of the opening tag, group 2 the name in the closing one. *)
Definition xml_wrapped_re (signal : str) : regex :=
  RSeqs [RChar 60;
         RGroup 1 (RSeq re_tag_name (RStar true (RClass (fun c => negb (c =? 62)%N))));
         RChar 62; RStar true white_space; RStrFold signal; RStar true white_space;
         RStr (lit "</"); RGroup 2 re_tag_name; RChar 62].

Definition caps_is_backref (m : re_match) : outcome bool :=
  close_is_backref_of_open (default [] (group 1 m)) (default [] (group 2 m)).

(** The loop over the matches, up to the first that passes. *)
Fixpoint any_backref (l : list re_match) : outcome bool :=
  match l with
  | [] => Ret false
  | m :: l' =>
      b ← caps_is_backref m;
      if (b : bool) then Ret true else any_backref l'
  end.
Definition xml_wrapped_signal_match (output signal : str) : outcome bool :=
  any_backref (fst (captures_iter (xml_wrapped_re signal) output)).

(** The single pass of [replace_all]. *)
Fixpoint remove_backrefs (l : list re_match) (last : str) : outcome str :=
  match l with
  | [] => Ret last
  | m :: l' =>
      b ← caps_is_backref m;
      rest ← remove_backrefs l' last;
      Ret (m_skip m ++ (if (b : bool) then [] else m_text m) ++ rest)
  end.
Definition strip_xml_wrapped_signal (s signal : str) : outcome str :=
  let '(l, last) := captures_iter (xml_wrapped_re signal) s in remove_backrefs l last.

(** [SIGNAL[\s.,;:!?]*$] and [(?m)^\s*SIGNAL\s*$]. *)
Definition end_punctuation (c : char) : bool :=
  is_whitespace c || existsb (N.eqb c) (lit ".,;:!?").
Definition end_re (signal : str) : regex :=
  RSeqs [RStr signal; RStar true (RClass end_punctuation); REos].
Definition own_line_re (signal : str) : regex :=
  RSeqs [RBol; RStar true white_space; RStr signal; RStar true white_space; REol].

Definition detect_completion_signal (output signal : str) : outcome bool :=
  b ← xml_wrapped_signal_match output signal;
  if (b : bool) then Ret true
  else if is_match (end_re signal) output then Ret true
  else Ret (is_match (own_line_re signal) output).

(** [(?is)<promise>[\s\S]*?</promise>]. *)
Definition PROMISE_RE : regex :=
  RSeqs [RStrFold (lit "<promise>"); RStar false any_char; RStrFold (lit "</promise>")].

Definition strip_completion_tags (content : str) (until : option str) : outcome str :=
  let result := replace_all PROMISE_RE (fun _ => []) content in
  result ← match until with
           | Some signal => strip_xml_wrapped_signal result signal
           | None => Ret result
           end;
  Ret (trim result).
End Signals.

Definition inline_meta (c : char) : bool :=
  existsb (N.eqb c) (lit ";(){}&|<>$`' " ++ [dquote]).
Definition is_inline_script (script : str) : bool :=
  contains newline script || existsb inline_meta script.

(** ** Platform messages *)

Definition UNKNOWN_ERROR_THRESHOLD : N := 3.

Inductive SafeSendError : Type :=
| SendFatal (message : str)
| UnknownThreshold (n : N) (message : str).

Section SendMessage.
Context `{UnicodeCase}.

(** [safe_send_message]: [sent] is what the platform answered, [tracker] the
    counter the caller lends, if it lends one; the result comes with the
    counter as the call leaves it. *)
Definition safe_send_message (sent : result str unit) (tracker : option N)
  : result SafeSendError bool * option N :=
  match sent with
  | Ok _ => (Ok true, (fun _ => 0%N) <$> tracker)
  | Err err_str =>
      let error_type := classify_error err_str in
      if decide (error_type = Fatal_) then (Err (SendFatal err_str), (fun _ => 0%N) <$> tracker)
      else
        let tracker :=
          if decide (error_type = Unknown_) then tracker else (fun _ => 0%N) <$> tracker in
        if decide (error_type = Unknown_) then
          match tracker with
          | Some count =>
              let count := (count + 1)%N in
              if (UNKNOWN_ERROR_THRESHOLD <=? count)%N
              then (Err (UnknownThreshold UNKNOWN_ERROR_THRESHOLD err_str), Some count)
              else (Ok false, Some count)
          | None => (Ok false, None)
          end
        else (Ok false, tracker)
  end.

(** Successive messages of one stream, until one is an error. *)
Fixpoint send_all (sent : list (result str unit)) (count : N)
  : result SafeSendError (list bool) * N :=
  match sent with
  | [] => (Ok [], count)
  | s :: rest =>
      let '(r, t) := safe_send_message s (Some count) in
      let count := default count t in
      match r with
      | Err e => (Err e, count)
      | Ok b =>
          let '(rs, count) := send_all rest count in
          ((fun bs => b :: bs) <$> rs, count)
      end
  end.
End SendMessage.

(** ** Command files *)

Record MarkdownEntry : Type := mk_MarkdownEntry {
  command_name : str;
  relative_path : str;
}.
Record LoadedConfig : Type := mk_LoadedConfig { load_default_commands : option bool }.
Inductive CommandLoadIoError : Type :=
| IoPermissionDenied (path : str)
| Io (path : str) (message : str).

(** The seam [CommandPromptDeps]: what the file system and the configuration
    answer during the call. *)
Class CommandPromptDeps : Type := {
  read_file : str -> result CommandLoadIoError (option str);
  find_markdown_files : str -> result CommandLoadIoError (list MarkdownEntry);
  home_commands_path : str;
  app_defaults_commands_path : str;
  load_config : str -> LoadedConfig;
  is_binary_build : bool;
  bundled_commands : gmap str str;
}.

(** [is_valid_command_name] of [executor_shared.rs]. *)
Definition is_valid_command_name (name : str) : bool :=
  if contains (lit "/") name || contains [backslash] name || contains (lit "..") name then false
  else if is_empty name || starts_with (lit ".") name then false
  else true.

Section LoadCommand.
Context `{CommandPromptDeps}.

Definition find_entry (name : str) (entries : list MarkdownEntry) : option MarkdownEntry :=
  List.find (fun e => str_eqb (command_name e) name) entries.

(** What is returned for the entry found in a search directory. *)
Definition load_entry (name dir : str) (entry : MarkdownEntry) : LoadCommandResult :=
  match read_file (path_join dir (relative_path entry)) with
  | Ok (Some content) =>
      if is_empty (trim content)
      then Failure EmptyFile (lit "Command file is empty: " ++ name ++ lit ".md")
      else Success content
  | Ok None =>
      Failure ReadError (lit "Error reading command " ++ name ++ lit ".md: file not found")
  | Err (IoPermissionDenied _) =>
      Failure PermissionDenied (lit "Permission denied reading command: " ++ name ++ lit ".md")
  | Err (Io _ message) =>
      Failure ReadError (lit "Error reading command " ++ name ++ lit ".md: " ++ message)
  end.

(** The loop over the search directories. *)
Fixpoint search_dirs (name : str) (dirs : list str) : option LoadCommandResult :=
  match dirs with
  | [] => None
  | dir :: dirs' =>
      match find_markdown_files dir with
      | Err _ => search_dirs name dirs'
      | Ok entries =>
          match find_entry name entries with
          | None => search_dirs name dirs'
          | Some entry => Some (load_entry name dir entry)
          end
      end
  end.

(** The bundled commands, or the files of the application defaults. *)
Definition load_default (name : str) : option LoadCommandResult :=
  if is_binary_build then Success <$> (bundled_commands !! name)
  else
    match find_markdown_files app_defaults_commands_path with
    | Err _ => None
    | Ok entries =>
        match find_entry name entries with
        | None => None
        | Some entry =>
            match read_file (path_join app_defaults_commands_path (relative_path entry)) with
            | Ok (Some content) =>
                if is_empty (trim content)
                then Some (Failure EmptyFile
                             (lit "App default command file is empty: " ++ name ++ lit ".md"))
                else Some (Success content)
            | Ok None | Err _ => None
            end
        end
    end.

Definition load_command_prompt (cwd name : str) (configured_folder : option str)
  : LoadCommandResult :=
  if negb (is_valid_command_name name) then
    Failure InvalidName (lit "Invalid command name (potential path traversal): " ++ name)
  else
    let config := load_config cwd in
    let relative_folders := get_command_folder_search_paths configured_folder in
    let dirs := map (path_join cwd) relative_folders ++ [home_commands_path] in
    match search_dirs name dirs with
    | Some r => r
    | None =>
        let load_default_commands := default true (load_default_commands config) in
        match (if load_default_commands then load_default name else None) with
        | Some r => r
        | None =>
            let all_search_paths :=
              if load_default_commands then relative_folders ++ [lit "app defaults"]
              else relative_folders in
            Failure NotFound
              (lit "Command prompt not found: " ++ name ++ lit ".md (searched: "
               ++ join (lit ", ") all_search_paths ++ lit ")")
        end
    end.
End LoadCommand.

(** ** Lemmas and theorems: errors *)

Lemma matches_pattern_spec s l :
  matches_pattern s l = true <-> exists p, p ∈ l /\ contains p s = true.
Proof.
  unfold matches_pattern. rewrite existsb_exists. setoid_rewrite list_elem_of_In. done.
Qed.

(** A fatal pattern decides, whatever its case and whatever else the message
    says: a message that holds one is fatal even when it also holds a transient
    pattern. *)
Theorem classify_error_fatal_first `{UnicodeCase} (a p b : str) :
  forallb is_ascii p = true -> map to_ascii_lowercase p ∈ FATAL_PATTERNS ->
  classify_error (a ++ p ++ b) = Fatal_.
Proof.
  intros Hp Hin. unfold classify_error.
  destruct (to_lowercase_ascii_infix a p b Hp) as (a' & b' & ->).
  replace (matches_pattern _ FATAL_PATTERNS) with true; [done|].
  symmetry. apply matches_pattern_spec. eexists. split; [exact Hin|].
  apply contains_spec. eauto.
Qed.

Lemma classify_error_fatal_first_witness :
  @classify_error ascii_case (lit "Timeout: " ++ lit "Unauthorized" ++ lit ", retry") = Fatal_.
Proof.
  apply classify_error_fatal_first; [by_compute|].
  apply (bool_decide_unpack _). by_compute.
Defined.

Lemma classify_error_empty `{UnicodeCase} : classify_error [] = Unknown_.
Proof. unfold classify_error. rewrite to_lowercase_ascii by done. reflexivity. Qed.

(** ** Lemmas and theorems: UTF-16 *)

Lemma small_scalars s : forallb (fun c => c <? 55296)%N s = true -> Forall scalar s.
Proof.
  intros Hs. apply Forall_forall. intros c Hc%list_elem_of_In. left.
  rewrite forallb_forall in Hs. by apply N.ltb_lt, Hs.
Qed.

Lemma encode_utf16_char_length c : length (encode_utf16_char c) = utf16_width c.
Proof. unfold encode_utf16_char, utf16_width. by destruct (c <? 65536)%N. Qed.

Lemma encode_utf16_length s : length (encode_utf16 s) = utf16_len s.
Proof.
  unfold encode_utf16. induction s as [|c s IH]; [done|]. simpl.
  by rewrite length_app, encode_utf16_char_length, IH.
Qed.

(** A scalar value is one unit that is not a surrogate, or a pair. *)
Lemma encode_utf16_char_cases c :
  scalar c ->
  (encode_utf16_char c = [c] /\ is_high_surrogate c = false /\ is_low_surrogate c = false)
  \/ exists u v, encode_utf16_char c = [u; v] /\ is_high_surrogate u = true
       /\ is_low_surrogate v = true /\ is_high_surrogate v = false
       /\ c = (65536 + (u - 55296) * 1024 + (v - 56320))%N.
Proof.
  unfold scalar, encode_utf16_char, is_high_surrogate, is_low_surrogate, in_range. intros Hc.
  destruct (N.ltb_spec c 65536).
  - left. split; [done|]. rewrite !andb_false_iff, !N.leb_gt. lia.
  - right. do 2 eexists. split; [done|].
    pose proof (N.div_mod (c - 65536) 1024 ltac:(done)).
    pose proof (N.mod_lt (c - 65536) 1024 ltac:(done)).
    assert ((c - 65536) / 1024 < 1024)%N by (apply N.Div0.div_lt_upper_bound; lia).
    set (q := ((c - 65536) / 1024)%N) in *. set (m := ((c - 65536) mod 1024)%N) in *.
    clearbody q m. rewrite !andb_true_iff, andb_false_iff, !N.leb_le, !N.leb_gt.
    split_and!; lia.
Qed.

Lemma from_utf16_encode s : Forall scalar s -> from_utf16_lossy (encode_utf16 s) = s.
Proof.
  unfold encode_utf16. induction 1 as [|c s Hc _ IH]; [done|]. simpl.
  destruct (encode_utf16_char_cases c Hc) as [(-> & H1 & H2)|(u & v & -> & H1 & H2 & _ & Hv)].
  - simpl. by rewrite H1, H2, IH.
  - simpl. by rewrite H1, H2, IH, <-Hv.
Qed.

(** Dropping code units leaves the units of a suffix, with perhaps the low half of
    a pair before them. *)
Lemma drop_encode k s :
  Forall scalar s -> k <= length (encode_utf16 s) ->
  exists a b, s = a ++ b /\
    (drop k (encode_utf16 s) = encode_utf16 b
     \/ exists v, is_low_surrogate v = true /\ is_high_surrogate v = false
          /\ drop k (encode_utf16 s) = v :: encode_utf16 b).
Proof.
  intros Hs. revert k; induction Hs as [|c s Hc Hs IH]; intros k Hk.
  { exists [], []. split; [done|]. left. destruct k; [done|]. simpl in Hk. lia. }
  destruct k as [|k]; [by exists [], (c :: s); auto|].
  change (encode_utf16 (c :: s)) with (encode_utf16_char c ++ encode_utf16 s) in *.
  assert (forall k, k <= length (encode_utf16 s) -> exists a b, c :: s = a ++ b /\
    (drop k (encode_utf16 s) = encode_utf16 b
     \/ exists v, is_low_surrogate v = true /\ is_high_surrogate v = false
          /\ drop k (encode_utf16 s) = v :: encode_utf16 b)) as IH'.
  { intros k' Hk'. destruct (IH k' Hk') as (a & b & -> & H). by exists (c :: a), b. }
  rewrite length_app in Hk.
  destruct (encode_utf16_char_cases c Hc) as [(Hu & _)|(u & v & Hu & _ & H2 & H3 & _)];
    rewrite Hu in *; simpl in *.
  - apply IH'. lia.
  - destruct k as [|k]; [|apply IH'; lia].
    exists [c], s. split; [done|]. right. eauto.
Qed.

(** The tail has exactly [max] code units; it is a suffix of the text, after a
    replacement character when the cut falls inside a surrogate pair. *)
Lemma utf16_tail_spec s max t :
  Forall scalar s -> utf16_tail s max = Some t ->
  utf16_len t = max /\ exists a b, s = a ++ b /\ (t = b \/ t = replacement_character :: b).
Proof.
  intros Hs. unfold utf16_tail. destruct (Nat.leb_spec (length (encode_utf16 s)) max) as [|Hm];
    [done|]. intros [= <-].
  destruct (drop_encode (length (encode_utf16 s) - max) s Hs) as (a & b & -> & Hd); [lia|].
  apply Forall_app in Hs as [_ Hb].
  assert (length (drop (length (encode_utf16 (a ++ b)) - max) (encode_utf16 (a ++ b))) = max)
    as Hl by (rewrite length_drop; lia).
  destruct Hd as [Hd|(v & H1 & H2 & Hd)]; rewrite Hd in *.
  - rewrite from_utf16_encode by done. rewrite encode_utf16_length in Hl. eauto 10.
  - simpl. rewrite H1, H2, from_utf16_encode by done.
    simpl in Hl. rewrite encode_utf16_length in Hl. split; [|eauto 10].
    simpl. by rewrite <-Hl.
Qed.

Lemma utf16_tail_None s max : utf16_tail s max = None <-> utf16_len s <= max.
Proof.
  unfold utf16_tail. rewrite encode_utf16_length.
  destruct (Nat.leb_spec (utf16_len s) max); split; done || lia.
Qed.

(** The documentation of [utf16_tail] says that a cut inside a surrogate pair
    moves forward to the next whole character; the code instead emits a
    replacement character there. *)
Theorem utf16_tail_splits_pair (c : char) (s : str) :
  scalar c -> (65536 <= c)%N -> Forall scalar s ->
  utf16_tail (c :: s) (S (utf16_len s)) = Some (replacement_character :: s).
Proof.
  intros Hc Hw Hs. unfold utf16_tail. rewrite encode_utf16_length. simpl utf16_len.
  unfold utf16_width. destruct (N.ltb_spec c 65536) as [|_]; [lia|].
  destruct (Nat.leb_spec (2 + utf16_len s) (S (utf16_len s))) as [|_]; [lia|].
  replace (2 + utf16_len s - S (utf16_len s)) with 1 by lia.
  change (encode_utf16 (c :: s)) with (encode_utf16_char c ++ encode_utf16 s).
  destruct (encode_utf16_char_cases c Hc) as [(Hu & _)|(u & v & Hu & _ & H1 & H2 & _)].
  - pose proof (encode_utf16_char_length c) as Hl. rewrite Hu in Hl. unfold utf16_width in Hl.
    destruct (N.ltb_spec c 65536); [lia|done].
  - rewrite Hu. simpl. by rewrite H1, H2, from_utf16_encode.
Qed.

Lemma utf16_tail_splits_pair_witness :
  utf16_tail (128512%N :: lit "ab") (S (utf16_len (lit "ab")))
  = Some (replacement_character :: lit "ab").
Proof.
  apply utf16_tail_splits_pair; [right; lia|lia|].
  apply small_scalars. by_compute.
Defined.

(** ** Lemmas and theorems: subprocess failures *)

(** Whatever a subprocess printed, the diagnostic shown to the user has at
    most 2000 UTF-16 code units before the truncation mark, and the logged tail
    of its standard error at most 2000. *)
Theorem format_subprocess_failure_bounded err label :
  (forall s, raw_stderr err = Some s -> Forall scalar s) ->
  (forall s, raw_message err = Some s -> Forall scalar s) ->
  let f := format_subprocess_failure err label in
  (exists head shown mark, failure_user_message f = head ++ shown ++ mark
     /\ head = label ++ lit " failed"
          ++ match raw_code err with Some c => lit " [exit " ++ c ++ lit "]" | None => [] end
          ++ lit ": "
     /\ utf16_len shown <= SUBPROCESS_ERROR_MAX_CHARS
     /\ (mark = [] \/ mark = truncation_suffix))
  /\ forall t, stderr_tail (log_fields f) = Some t -> utf16_len t <= SUBPROCESS_ERROR_MAX_CHARS.
Proof.
  intros Hse Hms f. subst f. unfold format_subprocess_failure.
  cbn [failure_user_message log_fields stderr_tail].
  set (stderr := trim (default [] (raw_stderr err))).
  set (message := trim (default [] (raw_message err))).
  assert (Forall scalar stderr) as Hs.
  { apply trim_Forall. destruct (raw_stderr err); simpl; [auto|constructor]. }
  assert (Forall scalar (message_body message)) as Hb.
  { assert (Forall scalar message) as Hm.
    { apply trim_Forall. destruct (raw_message err); simpl; [auto|constructor]. }
    unfold message_body. destruct (starts_with _ _); [|done]. apply trim_Forall.
    destruct (split_once newline message) as [[a b]|] eqn:E; simpl; [|constructor].
    apply split_once_Some in E. rewrite E, !Forall_app in Hm. tauto. }
  set (diagnostic := if negb (is_empty stderr) then stderr else _).
  assert (Forall scalar diagnostic) as Hd.
  { unfold diagnostic. destruct (is_empty stderr); [|done].
    destruct (is_empty (message_body message)); [|done].
    destruct (starts_with _ message); apply small_scalars; by_compute. }
  clearbody diagnostic. generalize SUBPROCESS_ERROR_MAX_CHARS as max. intros max. split.
  - eexists _, (default diagnostic (utf16_tail diagnostic max)),
      (match utf16_tail diagnostic max with Some _ => truncation_suffix | None => [] end).
    split; [|split; [reflexivity|]].
    + rewrite <-!app_assoc. do 4 f_equal. destruct (utf16_tail diagnostic max); [done|].
      by rewrite app_nil_r.
    + destruct (utf16_tail diagnostic max) as [t|] eqn:E; (split; [|auto]).
      * apply utf16_tail_spec in E as [Hl _]; [|done]. simpl. by rewrite Hl.
      * by apply utf16_tail_None in E.
  - intros t. destruct (utf16_tail stderr max) as [t'|] eqn:E.
    + apply utf16_tail_spec in E as [Hl _]; [|done]. intros [= <-]. by rewrite Hl.
    + apply utf16_tail_None in E. destruct (is_empty stderr); [done|]. by intros [= <-].
Qed.

Lemma format_subprocess_failure_bounded_witness :
  let err := mk_RawSubprocessError (Some (lit "boom")) None None (Some (lit "1")) None None in
  let f := format_subprocess_failure err (lit "bash") in
  (exists head shown mark, failure_user_message f = head ++ shown ++ mark
     /\ head = lit "bash" ++ lit " failed" ++ (lit " [exit " ++ lit "1" ++ lit "]") ++ lit ": "
     /\ utf16_len shown <= SUBPROCESS_ERROR_MAX_CHARS
     /\ (mark = [] \/ mark = truncation_suffix))
  /\ forall t, stderr_tail (log_fields f) = Some t -> utf16_len t <= SUBPROCESS_ERROR_MAX_CHARS.
Proof.
  intros err. apply (format_subprocess_failure_bounded err (lit "bash")); intros s; [done|].
  intros [= <-]. apply small_scalars. by_compute.
Defined.

Lemma message_body_skips_command cmd rest :
  10%N ∉ cmd ->
  starts_with (lit "Command failed:") (trim (lit "Command failed:" ++ cmd ++ newline ++ rest)) = true
  /\ message_body (trim (lit "Command failed:" ++ cmd ++ newline ++ rest)) = trim rest.
Proof.
  intros Hcmd. set (pre := lit "Command failed:").
  assert (forall x, trim (pre ++ x) = trim_end (pre ++ x)) as Ht by done.
  assert (forall x, exists y, trim_end (pre ++ x) = pre ++ y /\ exists b, x = y ++ b) as Hpre.
  { intros x. destruct (decide (trim_end x = [])) as [Hx|Hx].
    - exists []. destruct (trim_end_spec x) as (b & Hb & Hw & _). rewrite Hx in Hb. simpl in Hb.
      subst x. rewrite trim_end_white, app_nil_r by done. split; [done|eauto].
    - exists (trim_end x). rewrite trim_end_app by done. split; [done|].
      destruct (trim_end_spec x) as (b & Hb & _). eauto. }
  rewrite Ht. destruct (Hpre (cmd ++ newline ++ rest)) as (y & Hy & b & Hb).
  assert (starts_with pre (pre ++ y) = true) as Hs by (apply starts_with_spec; eauto).
  rewrite Hy. split; [done|]. unfold message_body. fold pre. rewrite Hs.
  assert (forall a, 10%N ∉ a -> 10%N ∉ pre ++ a) as Hnl.
  { intros a Ha. apply not_elem_of_app. split; [|done].
    apply (bool_decide_unpack _). by_compute. }
  destruct (decide (trim_end rest = [])) as [Hr|Hr].
  - destruct (trim_end_spec rest) as (w & Hw & Hww & _). rewrite Hr in Hw. simpl in Hw. subst w.
    assert (trim_end (pre ++ cmd ++ newline ++ rest) = trim_end (pre ++ cmd)) as Hc.
    { rewrite app_assoc. by apply trim_end_white. }
    rewrite Hc in Hy. destruct (Hpre cmd) as (y' & Hy' & b' & Hb').
    rewrite Hy' in Hy. apply app_inv_head in Hy as <-.
    unfold newline. rewrite split_once_char_None by (apply Hnl; subst cmd; set_solver). simpl.
    rewrite <-(trim_trim_end rest), Hr. done.
  - assert (trim_end (pre ++ cmd ++ newline ++ rest) = pre ++ cmd ++ newline ++ trim_end rest) as Hc.
    { rewrite !app_assoc. by rewrite trim_end_app. }
    rewrite Hc in Hy. apply app_inv_head in Hy as <-.
    unfold newline. rewrite (app_assoc pre cmd).
    change ([10%N] ++ trim_end rest) with (10%N :: trim_end rest).
    rewrite (split_once_char 10 (pre ++ cmd)) by auto. apply trim_trim_end.
Qed.

(** The body of an inline script, which stands in the first line of the
    message of a failed command, never reaches the user: the summary is the same
    whatever the command was. *)
Theorem format_subprocess_failure_hides_command err label cmd cmd' rest :
  10%N ∉ cmd -> 10%N ∉ cmd' ->
  let with_message c :=
    mk_RawSubprocessError (Some (lit "Command failed:" ++ c ++ newline ++ rest))
      (raw_stderr err) (raw_stdout err) (raw_code err) (raw_killed err) (raw_cmd err) in
  format_subprocess_failure (with_message cmd) label
  = format_subprocess_failure (with_message cmd') label.
Proof.
  intros H1 H2. cbv zeta. unfold format_subprocess_failure.
  cbn [raw_message raw_stderr raw_code raw_killed from_option id].
  destruct (message_body_skips_command cmd rest H1) as [-> ->].
  by destruct (message_body_skips_command cmd' rest H2) as [-> ->].
Qed.

Lemma format_subprocess_failure_hides_command_witness :
  let with_message c :=
    mk_RawSubprocessError (Some (lit "Command failed:" ++ c ++ newline ++ lit "exit"))
      None None None None None in
  format_subprocess_failure (with_message (lit " bash -c secret")) (lit "bash")
  = format_subprocess_failure (with_message []) (lit "bash").
Proof.
  apply (format_subprocess_failure_hides_command
           (mk_RawSubprocessError None None None None None None));
    apply (bool_decide_unpack _); by_compute.
Defined.

(** ** Lemmas and theorems: variables *)

Definition SAFE_VARIABLES : list str :=
  [lit "WORKFLOW_ID"; lit "ARTIFACTS_DIR"; lit "BASE_BRANCH"; lit "DOCS_DIR"].
Definition USER_VARIABLES : list str :=
  [lit "USER_MESSAGE"; lit "ARGUMENTS"; lit "LOOP_USER_INPUT"; lit "REJECTION_REASON";
   lit "LOOP_PREV_OUTPUT"; lit "CONTEXT"; lit "EXTERNAL_CONTEXT"; lit "ISSUE_CONTEXT"].

(** No safe name and no user name interfere. *)
Definition apart (w v : str) : bool :=
  bool_decide (36%N ∉ w) && bool_decide (36%N ∉ v)
  && negb (starts_with w v) && negb (starts_with v w).

Lemma variables_apart w v : w ∈ SAFE_VARIABLES -> v ∈ USER_VARIABLES -> apart w v = true.
Proof.
  assert (forallb (fun w => forallb (apart w) USER_VARIABLES) SAFE_VARIABLES = true) as H
    by by_compute.
  intros Hw%list_elem_of_In Hv%list_elem_of_In.
  rewrite forallb_forall in H. specialize (H w Hw). rewrite forallb_forall in H. auto.
Qed.

Lemma replace_var_keeps w v to s :
  w ∈ SAFE_VARIABLES -> v ∈ USER_VARIABLES ->
  contains (lit "$" ++ v) s = true -> contains (lit "$" ++ v) (replace_var w to s) = true.
Proof.
  intros Hw Hv. pose proof (variables_apart w v Hw Hv) as Ha. unfold apart in Ha.
  rewrite !andb_true_iff, !bool_decide_eq_true, !negb_true_iff in Ha.
  destruct Ha as [[[H1 H2] H3] H4]. unfold starts_with in *.
  apply (contains_replace_other 36 w v to s); [done|done| |].
  - by destruct (strip_prefix w v).
  - by destruct (strip_prefix v w).
Qed.

Lemma replace_var_absent name to s : 36%N ∉ s -> replace_var name to s = s.
Proof.
  intros Hs. apply replace_absent; [done|].
  apply contains_false, split_once_None.
  intros a b ->. apply Hs, elem_of_app. right. by left.
Qed.

(** A text without the first character of a pattern has no match. *)
Lemma find_from_absent c r before skipped rest :
  c ∉ rest -> find_from (RSeq (RChar c) r) before skipped rest = None.
Proof.
  revert before skipped; induction rest as [|d rest IH]; intros before skipped Hc; [done|].
  apply not_elem_of_cons in Hc as [Hd Hc]. cbn [find_from matches RChar p_rest].
  apply N.eqb_neq in Hd as ->. by apply IH.
Qed.

Section SubstituteTheorems.
Context `{RegexEngine}.

Lemma captures_iter_absent c r s :
  c ∉ s -> captures_iter (RSeq (RChar c) r) s = ([], s).
Proof.
  intros Hc. rewrite captures_iter_successive by done.
  destruct (length s) eqn:E; [done|]. cbn [iter_from]. by rewrite find_from_absent.
Qed.

Lemma substitute_context_vars_absent s rep :
  36%N ∉ s -> substitute_context_vars s rep = (s, false).
Proof. intros Hs. unfold substitute_context_vars, CONTEXT_VAR_NAME_RE. by rewrite captures_iter_absent. Qed.

(** [$BASE_BRANCH] without a base branch is an error, and the only one. *)
Theorem substitute_workflow_variables_error p w u a b d ic li rr lp safe e :
  substitute_workflow_variables p w u a b d ic li rr lp safe = Err e
  <-> b = [] /\ contains (lit "$BASE_BRANCH") p = true.
Proof.
  rewrite <-(is_empty_spec b), <-andb_true_iff.
  unfold substitute_workflow_variables.
  destruct (is_empty b && contains (lit "$BASE_BRANCH") p);
    [by destruct e|].
  destruct safe; destruct (substitute_context_vars _ _) as [r m]; by split.
Qed.

(** A template without a [$] is its own substitution, in both modes. *)
Theorem substitute_workflow_variables_identity p w u a b d ic li rr lp safe :
  36%N ∉ p ->
  substitute_workflow_variables p w u a b d ic li rr lp safe
  = Ok (mk_SubstitutionResult p false).
Proof.
  intros Hp. unfold substitute_workflow_variables.
  replace (contains (lit "$BASE_BRANCH") p) with false.
  2:{ symmetry. apply contains_false, split_once_None. intros x y ->.
      apply Hp. apply elem_of_app. right. by left. }
  rewrite andb_false_r, !(replace_var_absent _ _ p) by done.
  destruct safe; by rewrite substitute_context_vars_absent.
Qed.

(** A shell-safe substitution never puts user text into the script: the
    result is the same whatever the message, the loop input, the rejection
    reason and the context are, and every reference to one of them that the
    template holds is still there, for the shell to expand. *)
Theorem shell_safe_substitution p w u a b d ic li rr lp r :
  substitute_workflow_variables p w u a b d ic li rr lp true = Ok r ->
  (forall u' ic' li' rr' lp', exists r',
     substitute_workflow_variables p w u' a b d ic' li' rr' lp' true = Ok r'
     /\ sr_prompt r' = sr_prompt r)
  /\ (forall v, v ∈ USER_VARIABLES -> contains (lit "$" ++ v) p = true ->
        contains (lit "$" ++ v) (sr_prompt r) = true).
Proof.
  unfold substitute_workflow_variables.
  destruct (is_empty b && contains (lit "$BASE_BRANCH") p); [done|].
  set (s := replace_var _ _ (replace_var _ _ (replace_var _ _ (replace_var _ _ p)))).
  destruct (substitute_context_vars s []) as [x m]. intros [= <-]. split; [eauto|].
  intros v Hv Hc. cbn [sr_prompt]. unfold s.
  assert (forall w', In w' SAFE_VARIABLES -> w' ∈ SAFE_VARIABLES) as Hin
    by (intros; by apply list_elem_of_In).
  repeat (apply replace_var_keeps; [apply Hin; simpl; tauto|done|]). done.
Qed.

Lemma context_substituted_contains s rep out :
  substitute_context_vars s rep = (out, true) -> contains rep out = true.
Proof.
  unfold substitute_context_vars. destruct (captures_iter _ s) as [l last].
  intros [= <- Hex]. apply existsb_exists in Hex as (m & Hm & He).
  apply in_split in Hm as (l1 & l2 & ->). rewrite flat_map_app. cbn [flat_map].
  rewrite He. apply contains_app_l, contains_app_r, contains_app_l, contains_app_r.
  apply contains_spec. exists [], []. by rewrite app_nil_r.
Qed.

(** The issue context is never lost: a prompt built with one holds it,
    in place of a context variable or after the template. *)
Theorem build_prompt_keeps_context t w u a b d ctx p :
  build_prompt_with_context t w u a b d (Some ctx) = Ok p ->
  contains ctx p = true.
Proof.
  unfold build_prompt_with_context, substitute_workflow_variables.
  destruct (is_empty b && contains (lit "$BASE_BRANCH") t); [done|].
  set (s := replace_var (lit "LOOP_PREV_OUTPUT") _ _). clearbody s.
  cbn [from_option id default]. destruct (substitute_context_vars s ctx) as [x m] eqn:E.
  change (bool_decide (is_Some (Some ctx))) with true. unfold mbind, result_bind.
  destruct m; cbn [andb negb context_substituted sr_prompt]; intros <-%(inj Ok).
  - by eapply context_substituted_contains.
  - do 6 apply contains_app_r. apply contains_spec. exists [], []. by rewrite app_nil_r.
Qed.
End SubstituteTheorems.

Lemma substitute_workflow_variables_identity_witness :
  @substitute_workflow_variables backtracking_engine (lit "no variable") (lit "w") (lit "u") [] []
    [] (Some (lit "c")) None None None false = Ok (mk_SubstitutionResult (lit "no variable") false).
Proof.
  apply substitute_workflow_variables_identity. apply (bool_decide_unpack _). by_compute.
Defined.

Lemma shell_safe_substitution_witness :
  exists r,
    @substitute_workflow_variables backtracking_engine (lit "echo $USER_MESSAGE $BASE_BRANCH")
      (lit "w") (lit "; rm") [] (lit "main") [] None None None None true = Ok r
    /\ contains (lit "$" ++ lit "USER_MESSAGE") (sr_prompt r) = true.
Proof.
  eexists. split; [by_compute|].
  refine (proj2 (@shell_safe_substitution backtracking_engine
    (lit "echo $USER_MESSAGE $BASE_BRANCH") (lit "w") (lit "; rm") [] (lit "main") []
    None None None None _ _) (lit "USER_MESSAGE") _ _);
    [by_compute|apply list_elem_of_In; by left|by_compute].
Defined.

Lemma build_prompt_keeps_context_witness :
  exists p, @build_prompt_with_context backtracking_engine (lit "Fix: $CONTEXT") [] [] [] [] []
              (Some (lit "issue 7")) = Ok p /\ contains (lit "issue 7") p = true.
Proof.
  eexists. split; [by_compute|].
  apply (@build_prompt_keeps_context backtracking_engine (lit "Fix: $CONTEXT") [] [] [] [] []).
  by_compute.
Defined.

(** ** Lemmas and theorems: completion signals *)

Lemma byte_len_ascii s : Forall (fun c => is_ascii c = true) s -> byte_len s = length s.
Proof.
  induction 1 as [|c s Hc _ IH]; [done|]. simpl. rewrite IH. unfold utf8_width.
  unfold is_ascii in Hc. by rewrite Hc.
Qed.

(** On ASCII text the slice is a prefix of characters: the test holds when the
    closing name is a prefix of the opening tag, ignoring case. *)
Lemma close_is_backref_ascii open_inner close :
  Forall (fun c => is_ascii c = true) open_inner ->
  Forall (fun c => is_ascii c = true) close ->
  close_is_backref_of_open open_inner close
  = Ret (negb (is_empty close) && Nat.leb (length close) (length open_inner)
         && eq_ignore_ascii_case (take (length close) open_inner) close).
Proof.
  intros Ho Hc. unfold close_is_backref_of_open. rewrite !byte_len_ascii by done.
  destruct (is_empty close); [done|]. simpl. rewrite Nat.ltb_antisym.
  destruct (Nat.leb_spec (length close) (length open_inner)) as [Hl|]; [|done]. simpl.
  assert (byte_prefix (length close) open_inner = Ret (take (length close) open_inner)) as ->.
  { apply byte_prefix_Ret. exists (drop (length close) open_inner).
    split; [by rewrite take_drop|]. rewrite byte_len_ascii by (by apply Forall_take).
    rewrite length_take. lia. }
  done.
Qed.

Section SignalTheorems.
Context `{RegexEngine}.

Lemma any_backref_ascii l :
  Forall (match_all (fun c => is_ascii c = true)) l -> exists b, any_backref l = Ret b.
Proof.
  induction 1 as [|m l Hm _ [b IH]]; simpl; [by eexists|].
  unfold caps_is_backref.
  assert (forall n, Forall (fun c => is_ascii c = true) (default [] (group n m))) as Hg.
  { intros n. destruct (group n m) eqn:E; [|constructor]. simpl. by eapply group_all. }
  rewrite close_is_backref_ascii by done. simpl. case_match; eauto.
Qed.

(** The detection of a completion signal returns on every ASCII output,
    whatever the signal is. *)
Theorem detect_completion_signal_ascii output signal :
  forallb is_ascii output = true ->
  exists b, detect_completion_signal output signal = Ret b.
Proof.
  intros Ho. unfold detect_completion_signal, xml_wrapped_signal_match.
  rewrite captures_iter_successive by done.
  destruct (any_backref_ascii (iter_from (length output) (xml_wrapped_re signal) [] output).1)
    as [b Hb].
  { apply iter_from_all; [constructor|]. apply Forall_forall. intros c Hc%list_elem_of_In.
    rewrite forallb_forall in Ho. auto. }
  rewrite Hb. simpl. destruct b; [by eexists|]. destruct (is_match _ output); by eexists.
Qed.
End SignalTheorems.

Lemma detect_completion_signal_ascii_witness :
  exists b, @detect_completion_signal backtracking_engine (lit "<p>DONE</P>") (lit "DONE") = Ret b.
Proof. apply detect_completion_signal_ascii. by_compute. Defined.

(** The comparison of a closing name with an opening tag panics exactly when
    the name's length in bytes falls inside a character of the tag. *)
Theorem close_is_backref_panics open_inner close :
  close_is_backref_of_open open_inner close = Panic
  <-> close <> [] /\ byte_len close <= byte_len open_inner
      /\ forall p r, open_inner = p ++ r -> byte_len p <> byte_len close.
Proof.
  unfold close_is_backref_of_open. destruct close as [|c close]; [naive_solver|].
  cbn [is_empty orb]. destruct (Nat.ltb_spec (byte_len open_inner) (byte_len (c :: close))) as [|Hl].
  { split; [done|]. intros (_ & Hle & _). lia. }
  destruct (byte_prefix (byte_len (c :: close)) open_inner) as [p|] eqn:E.
  - split; [done|]. intros (_ & _ & Hno). apply byte_prefix_Ret in E as (r & Hr & Hp).
    by destruct (Hno p r).
  - split; [|done]. intros _. split; [done|]. split; [done|]. intros p r Hr Hp.
    assert (byte_prefix (byte_len (c :: close)) open_inner = Ret p) as E'
      by (apply byte_prefix_Ret; eauto).
    congruence.
Qed.

(** An output that makes it panic. *)
Example signal_panic :
  @detect_completion_signal backtracking_engine (lit "<aé>DONE</ab>") (lit "DONE") = Panic.
Proof. by_compute. Qed.

(** ** Lemmas and theorems: messages *)

Section SendTheorems.
Context `{UnicodeCase}.

Definition unknown_send (s : result str unit) : Prop :=
  exists m, s = Err m /\ classify_error m = Unknown_.
Definition fatal_send (s : result str unit) : Prop :=
  exists m, s = Err m /\ classify_error m = Fatal_.
(** Three consecutive unknown errors. *)
Definition three_unknown (l : list (result str unit)) : Prop :=
  exists pre a b c post, l = pre ++ a :: b :: c :: post
    /\ unknown_send a /\ unknown_send b /\ unknown_send c.

Lemma three_unknown_cons s l : three_unknown l -> three_unknown (s :: l).
Proof. intros (pre & a & b & c & post & -> & Hu). by exists (s :: pre), a, b, c, post. Qed.

Lemma three_unknown_swap a b l :
  unknown_send b -> three_unknown (a :: l) -> three_unknown (b :: l).
Proof.
  intros Hb (pre & x & y & z & post & Heq & Hx & Hy & Hz).
  destruct pre as [|p pre]; simplify_eq/=.
  - by exists [], b, y, z, post.
  - by exists (b :: pre), x, y, z, post.
Qed.

(** A send that is not an unknown error separates the runs before and after. *)
Lemma three_unknown_break k u s l :
  k < 3 -> ~ unknown_send s ->
  three_unknown (replicate k u ++ s :: l) <-> three_unknown l.
Proof.
  intros Hk Hs. split.
  - revert k Hk. assert (forall x y, three_unknown (x ++ s :: y) -> length x < 3 -> three_unknown y)
      as Hgo.
    { intros x y (pre & a & b & c & post & Heq & Ha & Hb & Hc) Hx.
      assert (exists z, pre = x ++ s :: z) as [z ->].
      { destruct x as [|x1 [|x2 [|x3 x]]], pre as [|p1 [|p2 [|p3 pre]]];
          simpl in *; simplify_eq; try done; try lia; eauto. }
      rewrite <-app_assoc in Heq. apply app_inv_head in Heq. simpl in Heq.
      injection Heq as ->. by exists z, a, b, c, post. }
    intros k Hk Ht. eapply Hgo; [exact Ht|]. by rewrite length_replicate.
  - intros Ht. induction k as [|k IH]; simpl; [by apply three_unknown_cons|].
    apply three_unknown_cons, IH. lia.
Qed.
Lemma unknown_not_fatal s : unknown_send s -> ~ fatal_send s.
Proof. intros (m & -> & Hm) (m' & [= <-] & Hm'). congruence. Qed.

(** One message: the counter counts consecutive unknown errors and stays below
    the threshold, or the call is an error. *)
Lemma safe_send_cases s count :
  (count < 3)%N ->
  (fatal_send s /\ exists m, safe_send_message s (Some count) = (Err (SendFatal m), Some 0%N))
  \/ (unknown_send s /\ count = 2%N /\ exists m,
        safe_send_message s (Some count) = (Err (UnknownThreshold 3 m), Some 3%N))
  \/ (unknown_send s /\ (count < 2)%N /\
        safe_send_message s (Some count) = (Ok false, Some (count + 1)%N))
  \/ (~ unknown_send s /\ ~ fatal_send s /\
        safe_send_message s (Some count) = (Ok (is_ok s), Some 0%N)).
Proof.
  intros Hc. unfold safe_send_message, unknown_send, fatal_send.
  destruct s as [[]|m]; [right; right; right; naive_solver|].
  destruct (classify_error m) eqn:E; simpl.
  - right; right; right. split_and!; [naive_solver congruence..|done].
  - left. eauto.
  - right. unfold UNKNOWN_ERROR_THRESHOLD. destruct (N.leb_spec 3 (count + 1)).
    + left. assert (count = 2%N) as -> by lia. eauto 10.
    + right; left. split; [eauto|]. split; [lia|done].
Qed.

Lemma send_all_ok l : forall k u,
  k < 3 -> unknown_send u ->
  is_ok (fst (send_all l (N.of_nat k))) = true
  <-> (forall s, s ∈ l -> ~ fatal_send s) /\ ~ three_unknown (replicate k u ++ l).
Proof.
  induction l as [|s l IH]; intros k u Hk Hu.
  { simpl. split; [|done]. intros _. split; [set_solver|].
    intros (pre & a & b & c & post & Heq & _). apply (f_equal length) in Heq.
    rewrite !length_app, length_replicate in Heq. simpl in Heq. lia. }
  cbn [send_all]. setoid_rewrite elem_of_cons.
  destruct (safe_send_cases s (N.of_nat k)) as
    [(Hf & m & ->)|[(Hs & H2 & m & ->)|[(Hs & H2 & ->)|(Hs & Hf & ->)]]]; [lia|..].
  - simpl. naive_solver.
  - simpl. split; [done|]. intros [_ Ht]. destruct Ht.
    replace k with 2 by lia. by exists [], u, u, s, l.
  - replace (default _ _) with (N.of_nat (S k)) by (simpl; lia).
    specialize (IH (S k) s ltac:(lia) Hs).
    destruct (send_all l (N.of_nat (S k))) as [rs count]. simpl.
    assert (is_ok ((fun bs : list bool => false :: bs) <$> rs) = is_ok rs) as -> by by destruct rs.
    simpl in IH. rewrite IH.
    assert (three_unknown (s :: replicate k s ++ l) <-> three_unknown (replicate k u ++ s :: l)) as ->.
    { destruct k as [|[|k]]; [done| |lia]. simpl.
      split; by apply three_unknown_swap. }
    pose proof (unknown_not_fatal s Hs). naive_solver.
  - simpl default. specialize (IH 0 u ltac:(lia) Hu).
    change (N.of_nat 0) with 0%N in IH.
    destruct (send_all l 0) as [rs count]. simpl.
    assert (is_ok ((fun bs : list bool => is_ok s :: bs) <$> rs) = is_ok rs) as -> by by destruct rs.
    simpl in IH. rewrite IH, three_unknown_break by done. naive_solver.
Qed.

(** A stream of messages runs to its end exactly when the platform answers
    none of them with a fatal error, and no three in a row with unknown errors:
    a transient error or a success in between starts the count again. *)
Theorem send_all_completes l :
  is_ok (fst (send_all l 0)) = true
  <-> (forall s, s ∈ l -> ~ fatal_send s) /\ ~ three_unknown l.
Proof.
  apply (send_all_ok l 0 (Err [])); [lia|].
  eexists. split; [done|apply classify_error_empty].
Qed.
End SendTheorems.

(** ** Lemmas and theorems: command files *)

(** The two checks of a command name, here and in the schema, agree. *)
Theorem is_valid_command_name_agrees name :
  is_valid_command_name name = DagNode.is_valid_command_name name.
Proof.
  unfold is_valid_command_name, DagNode.is_valid_command_name.
  change (lit "/") with [47%N]. change (lit ".") with [46%N].
  destruct (contains [47%N] name || contains [backslash] name || contains (lit "..") name);
    by destruct (is_empty name || starts_with [46%N] name).
Qed.

Section LoadTheorems.
Context `{CommandPromptDeps}.

Definition search_order (cwd : str) (configured_folder : option str) : list str :=
  map (path_join cwd) (get_command_folder_search_paths configured_folder)
  ++ [home_commands_path].
(** A directory that can be walked lists the command, at its first entry of
    that name. *)
Definition lists (name dir : str) (e : MarkdownEntry) : Prop :=
  exists entries, find_markdown_files dir = Ok entries /\ find_entry name entries = Some e.
Definition none_lists (name : str) (dirs : list str) : Prop :=
  forall d e, d ∈ dirs -> ~ lists name d e.
Definition defaults_enabled (cwd : str) : bool :=
  default true (load_default_commands (load_config cwd)).

(** The contract: a bad name is refused before anything is read; the first
    directory that lists the command decides, even when its file cannot be
    used; the defaults come last. *)
Inductive loads (cwd name : str) (folder : option str) : LoadCommandResult -> Prop :=
| loads_invalid :
    is_valid_command_name name = false ->
    loads cwd name folder
      (Failure InvalidName (lit "Invalid command name (potential path traversal): " ++ name))
| loads_file pre dir post e :
    is_valid_command_name name = true ->
    search_order cwd folder = pre ++ dir :: post ->
    none_lists name pre -> lists name dir e ->
    loads cwd name folder (load_entry name dir e)
| loads_default r :
    is_valid_command_name name = true ->
    none_lists name (search_order cwd folder) ->
    defaults_enabled cwd = true -> load_default name = Some r ->
    loads cwd name folder r
| loads_nothing message :
    is_valid_command_name name = true ->
    none_lists name (search_order cwd folder) ->
    (defaults_enabled cwd = true -> load_default name = None) ->
    message = lit "Command prompt not found: " ++ name ++ lit ".md (searched: "
      ++ join (lit ", ")
           (get_command_folder_search_paths folder
            ++ (if defaults_enabled cwd then [lit "app defaults"] else []))
      ++ lit ")" ->
    loads cwd name folder (Failure NotFound message).

Lemma lists_dec name dir : (exists e, lists name dir e) \/ forall e, ~ lists name dir e.
Proof.
  unfold lists. destruct (find_markdown_files dir) as [entries|]; [|right; naive_solver].
  destruct (find_entry name entries) eqn:E; [left; eauto|right; naive_solver].
Qed.

Lemma search_dirs_none name dirs : none_lists name dirs -> search_dirs name dirs = None.
Proof.
  induction dirs as [|d dirs IH]; intros Hn; [done|]. simpl.
  assert (search_dirs name dirs = None) as Hd
    by (apply IH; intros d' e Hin; apply (Hn _ _), elem_of_cons; auto).
  destruct (find_markdown_files d) as [entries|] eqn:E; [|done].
  destruct (find_entry name entries) as [e|] eqn:E'; [|done].
  destruct (Hn d e); [apply elem_of_cons; auto|by exists entries].
Qed.

Lemma search_dirs_found name pre dir post e :
  none_lists name pre -> lists name dir e ->
  search_dirs name (pre ++ dir :: post) = Some (load_entry name dir e).
Proof.
  intros Hn (entries & He & Hf). induction pre as [|d pre IH]; simpl.
  { by rewrite He, Hf. }
  assert (search_dirs name (pre ++ dir :: post) = Some (load_entry name dir e)) as Hd
    by (apply IH; intros d' e' Hin; apply (Hn _ _), elem_of_cons; auto).
  destruct (find_markdown_files d) as [es|] eqn:E; [|done].
  destruct (find_entry name es) as [e'|] eqn:E'; [|done].
  destruct (Hn d e'); [apply elem_of_cons; auto|by exists es].
Qed.

Lemma first_listing name dirs :
  none_lists name dirs \/
  exists pre dir post e, dirs = pre ++ dir :: post /\ none_lists name pre /\ lists name dir e.
Proof.
  induction dirs as [|d dirs IH]; [left; intros ? ? ?%elem_of_nil; done|].
  destruct (lists_dec name d) as [[e He]|Hd].
  { right. exists [], d, dirs, e. split_and!; [done| |done]. intros ? ? ?%elem_of_nil; done. }
  destruct IH as [IH|(pre & dir & post & e & -> & Hn & He)].
  - left. intros d' e [->|Hin]%elem_of_cons; [apply Hd|by apply IH].
  - right. exists (d :: pre), dir, post, e. split_and!; [done| |done].
    intros d' e' [->|Hin]%elem_of_cons; [apply Hd|by apply Hn].
Qed.

Lemma loads_result cwd name folder r :
  loads cwd name folder r -> load_command_prompt cwd name folder = r.
Proof.
  unfold load_command_prompt.
  change (map (path_join cwd) (get_command_folder_search_paths folder) ++ [home_commands_path])
    with (search_order cwd folder).
  intros [Hv|pre dir post e Hv Ho Hn He|r' Hv Hn Hd Hr|m Hv Hn Hd ->]; rewrite Hv; simpl negb;
    cbn iota; [done|..].
  - by rewrite Ho, (search_dirs_found name pre dir post e).
  - rewrite search_dirs_none by done. unfold defaults_enabled in Hd. by rewrite Hd, Hr.
  - rewrite search_dirs_none by done. fold (defaults_enabled cwd) in *.
    destruct (defaults_enabled cwd) eqn:E; [by rewrite Hd|].
    by rewrite app_nil_r.
Qed.

Lemma loads_total cwd name folder : exists r, loads cwd name folder r.
Proof.
  destruct (is_valid_command_name name) eqn:Hv; [|eexists; by constructor].
  destruct (first_listing name (search_order cwd folder))
    as [Hn|(pre & dir & post & e & Ho & Hn & He)].
  - destruct (defaults_enabled cwd) eqn:Hd; 
      [|eexists; eapply loads_nothing; [done|done|congruence|reflexivity]].
    destruct (load_default name) as [r|] eqn:Hr; [exists r; by eapply loads_default|].
    eexists. eapply loads_nothing; [done|done|by intros|reflexivity].
  - eexists. by eapply loads_file.
Qed.

(** [load_command_prompt] follows its documented precedence: repository
    commands, repository defaults, the configured folder, the home folder, then
    the bundled or application defaults; a name that could leave these folders
    is refused. *)
Theorem load_command_prompt_refines cwd name folder r :
  load_command_prompt cwd name folder = r <-> loads cwd name folder r.
Proof.
  split; [|apply loads_result]. intros <-.
  destruct (loads_total cwd name folder) as [r Hr]. by rewrite (loads_result _ _ _ _ Hr).
Qed.
End LoadTheorems.
