(* ===== verification/DagCore.v ===== *)
(** * The executor's pure core

    [dag_executor.rs] of the crate [har-dag-executor], lines 33 to 551: the
    constants, the parsing of MCP failures, the streaming policy, shell quoting,
    the substitution of output references, trigger rules, topological layers and
    the retry configuration of a node. *)

From S2P Require Import Prelude Float64 Json StdModel Regex DagNode Workflow OutputRef.
From S2P Require Import Paths ExecutorShared.

(** ** Constants *)

Definition CANCEL_CHECK_INTERVAL_MS : N := 10000.
Definition ACTIVITY_HEARTBEAT_INTERVAL_MS : N := 60000.
Definition DEFAULT_NODE_MAX_RETRIES : N := 2.
Definition DEFAULT_NODE_RETRY_DELAY_MS : N := 3000.
Definition STRUCTURED_OUTPUT_MAX_REASKS : N := 3.
Definition SUBPROCESS_DEFAULT_TIMEOUT : N := 120000.
Definition NODE_OUTPUT_FILE_THRESHOLD : N := 32768.
Definition STEP_IDLE_TIMEOUT_MS : N := (30 * 60 * 1000)%N.

(** ** MCP failures *)

Definition MCP_FAILURE_PREFIX : str := lit "MCP server connection failed: ".

Record McpFailureEntry : Type := mk_McpFailureEntry {
  mcp_name : str;
  mcp_segment : str;
}.

(** The loop over the segments, with the set of the names already seen. *)
Fixpoint mcp_entries (raws : list str) (seen : list str) : list McpFailureEntry :=
  match raws with
  | [] => []
  | raw :: rest =>
      let segment := trim raw in
      let name := trim (default [] (head (split (lit " (") segment))) in
      if is_empty name || existsb (str_eqb name) seen then mcp_entries rest seen
      else mk_McpFailureEntry name segment :: mcp_entries rest (name :: seen)
  end.

Definition parse_mcp_failure_server_names (message : str) : list McpFailureEntry :=
  match strip_prefix MCP_FAILURE_PREFIX message with
  | None => []
  | Some rest => mcp_entries (split (lit ", ") rest) []
  end.

(** [load_configured_mcp_server_names]: [read_to_string] is the file system, the
    result the set of the keys. *)
Definition load_configured_mcp_server_names `{SerdeJson}
    (read_to_string : str -> option str) (node_mcp_path : option str) (cwd : str) : gset str :=
  match node_mcp_path with
  | None => ∅
  | Some mcp_path =>
      let full_path :=
        if starts_with (lit "/") mcp_path then mcp_path else path_join cwd mcp_path in
      match read_to_string full_path with
      | None => ∅
      | Some raw =>
          match from_str raw with
          | None => ∅
          | Some parsed =>
              match as_object parsed with
              | Some obj => list_to_set (map fst obj)
              | None => ∅
              end
          end
      end
  end.

(** ** Streaming policy *)

Definition should_continue_streaming_for_status (status : option str) : bool :=
  match status with
  | Some s => str_eqb s (lit "running") || str_eqb s (lit "paused")
  | None => false
  end.

(** ** Shell quoting *)

Definition shell_quote (value : str) : str :=
  [squote] ++ replace [squote] [squote; backslash; squote; squote] value ++ [squote].

(** A file written on the way: its path and its contents. *)
Abbreviation file_writes := (list (str * str)).

Section Quoting.
(** Whether the file system accepts a write. *)
Variable write_ok : str -> str -> bool.

Definition shell_quote_or_file (value node_id : str) (field output_file_dir : option str)
  : str * file_writes :=
  match output_file_dir with
  | Some output_dir =>
      if (NODE_OUTPUT_FILE_THRESHOLD <? N.of_nat (byte_len value))%N then
        let filename :=
          match field with
          | Some f => node_id ++ lit "." ++ f ++ lit ".nodeoutput"
          | None => node_id ++ lit ".nodeoutput"
          end in
        let file_path := path_join output_dir filename in
        if write_ok file_path value
        then (lit "$(cat " ++ shell_quote file_path ++ lit ")", [(file_path, value)])
        else (shell_quote value, [])
      else (shell_quote value, [])
  | None => (shell_quote value, [])
  end.

(** ** Output references in a prompt

    [\$([a-zA-Z_][a-zA-Z0-9_-]* )\.output(?:\.([a-zA-Z_][a-zA-Z0-9_]* ))?]. *)
Definition re_field : regex :=
  RSeq (RClass ident_start) (RStar true (RClass ident_char)).
Definition NODE_OUTPUT_REF_RE : regex :=
  RSeqs [RChar 36;
         RGroup 1 (RSeq (RClass ident_start) (RStar true (RClass ident_char_hyphen)));
         RStr (lit ".output"); ROpt (RSeq (RChar 46) (RGroup 2 re_field))].

Context `{RegexEngine} `{SerdeJson}.

(** The closure of [replace_all]: what a reference becomes. *)
Definition substitute_ref (node_outputs : gmap str NodeOutput) (escaped_for_bash : bool)
    (output_file_dir : option str) (node_id : str) (field : option str) : str * file_writes :=
  let quoted_empty := if escaped_for_bash then [squote; squote] else [] in
  let quoted (s : str) (field : option str) :=
    if escaped_for_bash then shell_quote_or_file s node_id field output_file_dir else (s, []) in
  match node_outputs !! node_id with
  | None => (quoted_empty, [])
  | Some node_output =>
      match field with
      | None => quoted (output node_output) None
      | Some field =>
          match resolve_node_output_field node_output node_id field with
          | Ok Field_Empty => (quoted_empty, [])
          | Ok (Field_Value value) =>
              match value with
              | String s => quoted s (Some field)
              | Number n => (number_to_string n, [])
              | Bool b => (show_bool b, [])
              | other => quoted (to_string other) (Some field)
              end
          | Err err => (OutputRefError_to_string err, [])
          end
      end
  end.

Definition substitute_match (node_outputs : gmap str NodeOutput) (escaped_for_bash : bool)
    (output_file_dir : option str) (m : re_match) : str * file_writes :=
  substitute_ref node_outputs escaped_for_bash output_file_dir
    (default [] (group 1 m)) (group 2 m).

(** [substitute_node_output_refs], with the files it writes. *)
Definition substitute_node_output_refs (prompt : str) (node_outputs : gmap str NodeOutput)
    (escaped_for_bash : bool) (output_file_dir : option str) : str * file_writes :=
  let '(l, last) := captures_iter NODE_OUTPUT_REF_RE prompt in
  let sub := substitute_match node_outputs escaped_for_bash output_file_dir in
  (flat_map (fun m => m_skip m ++ (sub m).1) l ++ last, flat_map (fun m => (sub m).2) l).
End Quoting.

(** ** Trigger rules *)

Inductive TriggerResult : Type := Trigger_Run | Trigger_Skip.

#[export] Instance TriggerResult_eq_dec : EqDecision TriggerResult.
Proof. solve_decision. Defined.

Definition TriggerResult_as_str (t : TriggerResult) : str :=
  match t with Trigger_Run => lit "run" | Trigger_Skip => lit "skip" end.

Definition state_eqb (a b : NodeState) : bool := bool_decide (a = b).

Definition missing_upstream (id : str) : NodeOutput :=
  Failed [] None (lit "upstream '" ++ id ++ lit "' missing from outputs") None None.

Definition check_trigger_rule (node : DagNode) (node_outputs : gmap str NodeOutput)
  : TriggerResult :=
  let node_deps := depends_on node in
  if is_empty node_deps then Trigger_Run
  else
    let upstreams := map (fun id => default (missing_upstream id) (node_outputs !! id)) node_deps in
    let run (b : bool) := if b then Trigger_Run else Trigger_Skip in
    match default AllSuccess (trigger_rule (base node)) with
    | AllSuccess => run (forallb is_completed upstreams)
    | OneSuccess => run (existsb is_completed upstreams)
    | NoneFailedMinOneSuccess =>
        let any_failed := existsb (fun u => state_eqb (state u) State_Failed) upstreams in
        let any_succeeded := existsb is_completed upstreams in
        run (negb any_failed && any_succeeded)
    | AllDone =>
        run (forallb (fun u => negb (state_eqb (state u) State_Pending)
                               && negb (state_eqb (state u) State_Running)) upstreams)
    end.

(** ** Topological layers

    The two hash maps are only looked up and updated, never iterated. *)

Definition init_node (maps : gmap str nat * gmap str (list str)) (node : DagNode)
  : gmap str nat * gmap str (list str) :=
  let '(in_degree, dependents) := maps in
  let in_degree := <[node_id node := length (depends_on node)]> in_degree in
  let dependents :=
    foldl (fun m dep => <[dep := default [] (m !! dep) ++ [node_id node]]> m)
      dependents (depends_on node) in
  (in_degree, dependents).

(** [d - 1] on a [usize]: an underflow panics with overflow checks on. *)
Definition checked_pred (d : nat) : outcome nat :=
  match d with O => Panic | S d' => Ret d' end.

(** The loop over the dependents of one node. *)
Fixpoint decrement (deps : list str) (in_degree : gmap str nat) (next_ids : list str)
  : outcome (gmap str nat * list str) :=
  match deps with
  | [] => Ret (in_degree, next_ids)
  | dep_id :: rest =>
      new_degree ← match in_degree !! dep_id with
                   | Some d => checked_pred d
                   | None => Ret 0
                   end;
      let in_degree := <[dep_id := new_degree]> in_degree in
      decrement rest in_degree (if Nat.eqb new_degree 0 then next_ids ++ [dep_id] else next_ids)
  end.

(** The loop over the nodes of the layer just placed. *)
Fixpoint process_layer (layer : list DagNode) (dependents : gmap str (list str))
    (in_degree : gmap str nat) (next_ids : list str) : outcome (gmap str nat * list str) :=
  match layer with
  | [] => Ret (in_degree, next_ids)
  | node :: rest =>
      match dependents !! base_id (base node) with
      | Some deps =>
          '(in_degree, next_ids) ← decrement deps in_degree next_ids;
          process_layer rest dependents in_degree next_ids
      | None => process_layer rest dependents in_degree next_ids
      end
  end.

Definition find_node (nodes : list DagNode) (id : str) : option DagNode :=
  List.find (fun n => str_eqb (node_id n) id) nodes.

(** The [while] loop; [None] when the fuel runs out. *)
Fixpoint layers_loop (fuel : nat) (nodes : list DagNode) (dependents : gmap str (list str))
    (in_degree : gmap str nat) (ready : list DagNode) : option (outcome (list (list DagNode))) :=
  match fuel with
  | O => None
  | S fuel' =>
      match ready with
      | [] => Some (Ret [])
      | _ =>
          match process_layer ready dependents in_degree [] with
          | Panic => Some Panic
          | Ret (in_degree, next_ids) =>
              rest ← layers_loop fuel' nodes dependents in_degree
                       (omap (find_node nodes) next_ids);
              Some (rest ← rest; Ret (ready :: rest))
          end
      end
  end.

Definition initial_maps (nodes : list DagNode) : gmap str nat * gmap str (list str) :=
  foldl init_node (∅, ∅) nodes.
Definition initial_ready (nodes : list DagNode) (in_degree : gmap str nat) : list DagNode :=
  List.filter (fun n => Nat.eqb (default 0 (in_degree !! node_id n)) 0) nodes.

(** Every iteration places a node, so one more step than there are nodes is
    enough when the identifiers are distinct ([build_layers_terminates]). *)
Definition build_layers (nodes : list DagNode) : option (outcome (list (list DagNode))) :=
  let '(in_degree, dependents) := initial_maps nodes in
  layers ← layers_loop (S (length nodes)) nodes dependents in_degree
             (initial_ready nodes in_degree);
  Some (layers ← layers;
        let total_placed := length (concat layers) in
        if Nat.ltb total_placed (length nodes) then Panic else Ret layers).

Definition build_topological_layers (nodes : list DagNode) : outcome (list (list DagNode)) :=
  default Panic (build_layers nodes).

(** ** Retry configuration *)

Record RetryConfig : Type := mk_RetryConfig {
  max_retries : N;
  retry_delay_ms : N;
  retry_on_error : OnError;
}.

Definition get_effective_node_retry_config (node : DagNode) : RetryConfig :=
  match base_retry (base node) with
  | Some retry =>
      mk_RetryConfig (max_attempts retry)
        (default DEFAULT_NODE_RETRY_DELAY_MS (f64_to_u64 <$> delay_ms retry))
        (default OnError_Transient (on_error retry))
  | None => mk_RetryConfig DEFAULT_NODE_MAX_RETRIES DEFAULT_NODE_RETRY_DELAY_MS OnError_Transient
  end.

Definition is_transient_node_error `{UnicodeCase} (error_message : str) : bool :=
  bool_decide (classify_error error_message = Transient_).

(** ** Lemmas and theorems: shell quoting

    The reference is the POSIX shell's reading of a word made of single-quoted
    parts and escaped characters: [sh_read quoted s] is the text the word at the
    head of [s] stands for, and what follows it; a quote that is not closed is no
    word. *)
Fixpoint sh_read (quoted : bool) (s : str) : option (str * str) :=
  match s with
  | [] => if quoted then None else Some ([], [])
  | c :: r =>
      if quoted then
        if (c =? squote)%N then sh_read false r
        else '(w, rest) ← sh_read true r; Some (c :: w, rest)
      else if (c =? squote)%N then sh_read true r
      else if (c =? backslash)%N then
        match r with
        | d :: r' => '(w, rest) ← sh_read false r'; Some (d :: w, rest)
        | [] => None
        end
      else Some ([], s)
  end.

(** The text that follows does not prolong the word. *)
Definition sh_delimited (rest : str) : bool :=
  match rest with
  | c :: _ => negb ((c =? squote)%N || (c =? backslash)%N)
  | [] => true
  end.

Lemma sh_read_plain a s :
  squote ∉ a -> sh_read true (a ++ s) = ('(w, rest) ← sh_read true s; Some (a ++ w, rest)).
Proof.
  induction a as [|c a IH]; intros Ha.
  - simpl. by destruct (sh_read true s) as [[??]|].
  - apply not_elem_of_cons in Ha as [Hc Ha]. cbn [app sh_read].
    destruct (N.eqb_spec c squote); [congruence|]. rewrite IH by done.
    by destruct (sh_read true s) as [[??]|].
Qed.

Lemma sh_read_delimited rest : sh_delimited rest = true -> sh_read false rest = Some ([], rest).
Proof.
  destruct rest as [|c rest]; [done|]. cbn [sh_delimited sh_read].
  intros [H1 H2]%negb_true_iff%orb_false_elim. by rewrite H1, H2.
Qed.

Lemma shell_quote_round_trip_lemma value rest :
  sh_delimited rest = true ->
  sh_read false (shell_quote value ++ rest) = Some (value, rest).
Proof.
  intros Hr. unfold shell_quote.
  cut (sh_read true (replace [squote] [squote; backslash; squote; squote] value
                       ++ [squote] ++ rest) = Some (value, rest)).
  { intros H. rewrite <-!app_assoc. exact H. }
  pattern value. apply (split_ind [squote]); clear value; [done| |].
  - intros s Hs. rewrite replace_unfold, Hs by done.
    rewrite sh_read_plain.
    + cbn [app sh_read]. rewrite N.eqb_refl, sh_read_delimited by done.
      cbn. by rewrite app_nil_r.
    + intros Hin. apply list_elem_of_In, in_split in Hin as (x & y & ->).
      by apply (proj1 (split_once_None [squote] _)) with (a := x) (b := y) in Hs.
  - intros s a b Hs IH. rewrite replace_unfold, Hs by done.
    assert (squote ∉ a) as Ha.
    { intros Hin. apply list_elem_of_In, in_split in Hin as (x & y & Ha).
      pose proof (split_once_Some _ _ _ _ Hs) as Hs'.
      pose proof (split_once_first _ _ _ _ Hs x (y ++ [squote] ++ b)) as Hl.
      assert (s = x ++ [squote] ++ y ++ [squote] ++ b) as Hx
        by (rewrite Hs', Ha; by rewrite <-app_assoc).
      specialize (Hl Hx). rewrite Ha, length_app in Hl. cbn [length] in Hl. lia. }
    apply split_once_Some in Hs as ->.
    rewrite <-!app_assoc, sh_read_plain by done.
    cbn [app sh_read]. change ((squote =? squote)%N) with true.
    change ((backslash =? squote)%N) with false. change ((backslash =? backslash)%N) with true.
    cbn iota. cbn [app] in IH. rewrite IH. done.
Qed.

(** A quoted value is one shell word that reads back as exactly that value,
    whatever characters it holds, so that no part of it is run as a command. *)
Theorem shell_quote_round_trip value rest :
  sh_delimited rest = true ->
  sh_read false (shell_quote value ++ rest) = Some (value, rest).
Proof. apply shell_quote_round_trip_lemma. Qed.

Lemma shell_quote_round_trip_witness :
  sh_read false (shell_quote (lit "it's; rm -rf $HOME") ++ lit " && ls")
  = Some (lit "it's; rm -rf $HOME", lit " && ls").
Proof. apply shell_quote_round_trip. by_compute. Defined.

(** ** Lemmas and theorems: output references *)

Section RefTheorems.
Variable write_ok : str -> str -> bool.
Context `{RegexEngine} `{SerdeJson}.

(** A prompt without a [$] is left as it is, and writes no file. *)
Theorem substitute_node_output_refs_identity prompt outs bash dir :
  36%N ∉ prompt ->
  substitute_node_output_refs write_ok prompt outs bash dir = (prompt, []).
Proof.
  intros Hp. unfold substitute_node_output_refs, NODE_OUTPUT_REF_RE. cbn [RSeqs].
  by rewrite captures_iter_absent.
Qed.

(** The text a reference resolves to, when it is text. *)
Definition reference_text (outs : gmap str NodeOutput) (id : str) (field : option str)
  : option str :=
  match outs !! id with
  | None => Some []
  | Some o =>
      match field with
      | None => Some (output o)
      | Some f =>
          match resolve_node_output_field o id f with
          | Ok Field_Empty => Some []
          | Ok (Field_Value (Number _ | Bool _)) | Err _ => None
          | Ok (Field_Value (String s)) => Some s
          | Ok (Field_Value v) => Some (to_string v)
          end
      end
  end.

Lemma shell_quote_or_file_shape value id field dir :
  let '(text, writes) := shell_quote_or_file write_ok value id field dir in
  (text = shell_quote value /\ writes = [])
  \/ exists path, writes = [(path, value)] /\ write_ok path value = true
       /\ text = lit "$(cat " ++ shell_quote path ++ lit ")"
       /\ (NODE_OUTPUT_FILE_THRESHOLD < N.of_nat (byte_len value))%N.
Proof.
  unfold shell_quote_or_file. destruct dir as [dir|]; [|by left].
  destruct (N.ltb_spec NODE_OUTPUT_FILE_THRESHOLD (N.of_nat (byte_len value))); [|by left].
  destruct (write_ok _ value) eqn:E; [right; eauto 10|by left].
Qed.

(** In a bash script a reference to text becomes one quoted word that holds
    exactly the text, or, above the size threshold, a read of a file that was
    just written with exactly the text. *)
Theorem substitute_ref_bash_safe outs dir id field text :
  reference_text outs id field = Some text ->
  let '(s, writes) := substitute_ref write_ok outs true dir id field in
  (writes = [] /\ forall rest, sh_delimited rest = true ->
     sh_read false (s ++ rest) = Some (text, rest))
  \/ exists path, writes = [(path, text)] /\ write_ok path text = true
       /\ s = lit "$(cat " ++ shell_quote path ++ lit ")"
       /\ (NODE_OUTPUT_FILE_THRESHOLD < N.of_nat (byte_len text))%N.
Proof.
  unfold reference_text, substitute_ref. intros Ht.
  assert (forall value f, value = text ->
    let '(s, writes) := shell_quote_or_file write_ok value id f dir in
    (writes = [] /\ forall rest, sh_delimited rest = true ->
       sh_read false (s ++ rest) = Some (text, rest))
    \/ exists path, writes = [(path, text)] /\ write_ok path text = true
         /\ s = lit "$(cat " ++ shell_quote path ++ lit ")"
         /\ (NODE_OUTPUT_FILE_THRESHOLD < N.of_nat (byte_len text))%N) as Hq.
  { intros value f ->. pose proof (shell_quote_or_file_shape text id f dir) as Hs.
    destruct (shell_quote_or_file _ _ _ _ _) as [s w].
    destruct Hs as [[-> ->]|Hs]; [left|by right].
    split; [done|]. intros. by apply shell_quote_round_trip_lemma. }
  assert (text = [] -> ([] : file_writes) = [] /\ forall rest, sh_delimited rest = true ->
     sh_read false ([squote; squote] ++ rest) = Some (text, rest)) as He.
  { intros ->. split; [done|]. intros rest Hr.
    by apply (shell_quote_round_trip_lemma [] rest). }
  destruct (outs !! id) as [o|]; [|left; apply He; congruence].
  destruct field as [f|]; [|apply Hq; congruence].
  destruct (resolve_node_output_field o id f) as [[v|]|]; [|left; apply He; congruence|done].
  destruct v; try done; apply Hq; congruence.
Qed.

(** A reference that cannot be resolved does not fail the node, as the
    documentation of [substitute_node_output_refs] says it does: its error text
    stands in the prompt, in a bash script too, where it is not quoted. *)
Theorem unresolved_reference_inlined outs bash dir id field o e :
  outs !! id = Some o -> resolve_node_output_field o id field = Err e ->
  substitute_ref write_ok outs bash dir id (Some field)
  = (OutputRefError_to_string e, []).
Proof. intros Ho He. unfold substitute_ref. by rewrite Ho, He. Qed.
End RefTheorems.

Definition sample_outputs : gmap str NodeOutput :=
  {[ lit "plan" := Completed (lit "it's done") None None None; lit "old" := Skipped [] ]}.

Lemma substitute_node_output_refs_identity_witness :
  @substitute_node_output_refs (fun _ _ => true) backtracking_engine sample_json
    (lit "plain text") sample_outputs true None = (lit "plain text", []).
Proof.
  apply substitute_node_output_refs_identity. apply (bool_decide_unpack _). by_compute.
Defined.

Lemma substitute_ref_bash_safe_witness :
  let '(s, writes) := @substitute_ref (fun _ _ => true) backtracking_engine sample_json
    sample_outputs true None (lit "plan") None in
  (writes = [] /\ forall rest, sh_delimited rest = true ->
     sh_read false (s ++ rest) = Some (lit "it's done", rest))
  \/ exists path, writes = [(path, lit "it's done")] /\ true = true
       /\ s = lit "$(cat " ++ shell_quote path ++ lit ")"
       /\ (NODE_OUTPUT_FILE_THRESHOLD < N.of_nat (byte_len (lit "it's done")))%N.
Proof.
  apply (@substitute_ref_bash_safe (fun _ _ => true) backtracking_engine sample_json
           sample_outputs None (lit "plan") None).
  by_compute.
Defined.

Lemma unresolved_reference_inlined_witness :
  exists e, @substitute_ref (fun _ _ => true) backtracking_engine sample_json
    sample_outputs true None (lit "old") (Some (lit "x")) = (OutputRefError_to_string e, []).
Proof.
  eexists. apply (@unresolved_reference_inlined (fun _ _ => true) backtracking_engine sample_json
    sample_outputs true None (lit "old") (lit "x") (Skipped [])); by_compute.
Defined.

(** ** Lemmas and theorems: trigger rules *)

(** The state of a dependency; one without an output counts as failed. *)
Definition dep_state (outs : gmap str NodeOutput) (id : str) : NodeState :=
  match outs !! id with Some o => state o | None => State_Failed end.

Lemma dep_state_upstream outs id :
  state (default (missing_upstream id) (outs !! id)) = dep_state outs id.
Proof. unfold dep_state. by destruct (outs !! id). Qed.

(** The table of the four rules. *)
Definition rule_holds (rule : TriggerRule) (states : list NodeState) : Prop :=
  match rule with
  | AllSuccess => Forall (eq State_Completed) states
  | OneSuccess => Exists (eq State_Completed) states
  | NoneFailedMinOneSuccess =>
      Forall (fun s => s <> State_Failed) states /\ Exists (eq State_Completed) states
  | AllDone => Forall (fun s => s <> State_Pending /\ s <> State_Running) states
  end.

Lemma state_eqb_spec a b : state_eqb a b = true <-> a = b.
Proof. apply bool_decide_eq_true. Qed.

(** A node runs exactly when it has no dependency or its trigger rule holds
    of the states of its dependencies, a missing one counting as failed. *)
Theorem check_trigger_rule_spec node outs :
  check_trigger_rule node outs = Trigger_Run
  <-> depends_on node = []
      \/ rule_holds (default AllSuccess (trigger_rule (base node)))
           (map (dep_state outs) (depends_on node)).
Proof.
  unfold check_trigger_rule.
  destruct (depends_on node) as [|d ds]; [simpl; tauto|].
  cbn [is_empty]. cbn iota.
  assert (forall l P, Forall P (map (dep_state outs) l)
    <-> Forall (fun u => P (state u))
          (map (fun id => default (missing_upstream id) (outs !! id)) l)) as Hf.
  { intros l P. rewrite !Forall_map. apply Forall_proper; [|done].
    intros id. simpl. by rewrite dep_state_upstream. }
  assert (forall l P, Exists P (map (dep_state outs) l)
    <-> Exists (fun u => P (state u))
          (map (fun id => default (missing_upstream id) (outs !! id)) l)) as He.
  { intros l P. rewrite !Exists_exists. setoid_rewrite list_elem_of_fmap. split.
    - intros (x & (y & -> & Hy) & Hx). rewrite <-dep_state_upstream in Hx. eauto.
    - intros (x & (y & -> & Hy) & Hx). rewrite dep_state_upstream in Hx. eauto. }
  specialize (Hf (d :: ds)). specialize (He (d :: ds)).
  set (ups := map (fun id => default (missing_upstream id) (outs !! id)) (d :: ds)) in *.
  assert (forall b : bool, (if b then Trigger_Run else Trigger_Skip) = Trigger_Run <-> b = true)
    as Hb by by intros [].
  assert (forall l, forallb is_completed l = true <-> Forall (fun u => State_Completed = state u) l)
    as Hall.
  { intros l. rewrite forallb_forall, Forall_forall. setoid_rewrite list_elem_of_In.
    setoid_rewrite state_completed. naive_solver. }
  assert (existsb is_completed ups = true <-> Exists (fun u => State_Completed = state u) ups)
    as Hex.
  { rewrite existsb_exists, Exists_exists. setoid_rewrite list_elem_of_In.
    setoid_rewrite state_completed. naive_solver. }
  destruct (default AllSuccess (trigger_rule (base node))); rewrite Hb; simpl rule_holds;
    [rewrite Hall, <-(Hf (eq State_Completed))
    |rewrite Hex, <-(He (eq State_Completed))| |].
  - naive_solver.
  - naive_solver.
  - rewrite andb_true_iff, negb_true_iff, Hex, <-(He (eq State_Completed)).
    assert (existsb (fun u => state_eqb (state u) State_Failed) ups = false
      <-> Forall (fun s => s <> State_Failed) (map (dep_state outs) (d :: ds))) as ->;
      [|naive_solver].
    rewrite Hf. rewrite <-not_true_iff_false, existsb_exists, Forall_forall.
    setoid_rewrite list_elem_of_In. setoid_rewrite state_eqb_spec. naive_solver.
  - rewrite forallb_forall.
    assert (Forall (fun s => s <> State_Pending /\ s <> State_Running)
      (map (dep_state outs) (d :: ds))
      <-> forall u, In u ups -> negb (state_eqb (state u) State_Pending)
           && negb (state_eqb (state u) State_Running) = true) as <-; [|naive_solver].
    rewrite Hf. rewrite Forall_forall. setoid_rewrite list_elem_of_In.
    setoid_rewrite andb_true_iff. setoid_rewrite negb_true_iff.
    setoid_rewrite <-not_true_iff_false. setoid_rewrite state_eqb_spec. done.
Qed.

(** ** Lemmas and theorems: retry configuration *)

(** The effective retry configuration never asks for more than 255 retries,
    nor for a delay beyond 64 bits; a node without one gets the defaults. *)
Lemma effective_retry_bounds node :
  (forall r, base_retry (base node) = Some r -> max_attempts r <= 255)%N ->
  (max_retries (get_effective_node_retry_config node) <= 255
   /\ retry_delay_ms (get_effective_node_retry_config node) <= u64_max)%N.
Proof.
  unfold get_effective_node_retry_config. intros Hr.
  destruct (base_retry (base node)) as [r|]; [|by vm_compute; split].
  simpl. split; [by apply Hr|].
  destruct (delay_ms r); simpl; [apply f64_to_u64_bound|by vm_compute].
Qed.
