(* ===== verification/TopoLayers.v ===== *)
(** * Topological layers

    The correctness of [build_topological_layers]: with distinct identifiers it
    terminates; it returns exactly on the graphs whose dependencies are nodes and
    form no cycle, and panics on the others; the layers hold every node once,
    after all its dependencies, and no later than necessary. *)

From S2P Require Import Prelude DagNode DagCore.

(** Occurrences of an identifier. *)
Definition cnt (x : str) (l : list str) : nat := count_occ (decide_rel (=)) l x.

Lemma cnt_app x l1 l2 : cnt x (l1 ++ l2) = cnt x l1 + cnt x l2.
Proof. apply count_occ_app. Qed.

Lemma cnt_cons x y l : cnt x (y :: l) = (if decide (y = x) then 1 else 0) + cnt x l.
Proof. unfold cnt. simpl. by destruct (decide_rel (=) y x), (decide (y = x)). Qed.

Lemma cnt_In x l : 0 < cnt x l <-> x ∈ l.
Proof. unfold cnt. rewrite list_elem_of_In, (count_occ_In (decide_rel (=))). unfold gt. done. Qed.

Lemma cnt_not_In x l : x ∉ l -> cnt x l = 0.
Proof. rewrite <-cnt_In. lia. Qed.

(** ** The counters after the loop over some dependents *)

(** What the loop does to the counters of known identifiers: one less for each
    occurrence, no underflow, and the identifiers that reach zero, once each. *)
Lemma decrement_spec (known : str -> Prop) L : forall deg next,
  (forall x, x ∈ L -> known x) ->
  (forall x, known x -> exists d, deg !! x = Some d /\ cnt x L <= d) ->
  exists deg' new, decrement L deg next = Ret (deg', next ++ new)
    /\ NoDup new
    /\ (forall x, known x -> exists d, deg !! x = Some d /\ deg' !! x = Some (d - cnt x L))
    /\ (forall x, x ∈ new <-> x ∈ L /\ deg' !! x = Some 0).
Proof.
  induction L as [|y L IH]; intros deg next HL Hd; simpl.
  { exists deg, []. rewrite app_nil_r. split_and!; [done|constructor| |set_solver].
    intros x Hx. destruct (Hd x Hx) as (d & Hd' & _). exists d. by rewrite Nat.sub_0_r. }
  destruct (Hd y) as (dy & Hy & Hle); [by apply HL; left|].
  rewrite cnt_cons in Hle. destruct (decide (y = y)) as [_|]; [|done].
  rewrite Hy. destruct dy as [|dy]; [lia|]. simpl.
  set (next1 := if dy =? 0 then next ++ [y] else next).
  destruct (IH (<[y:=dy]> deg) next1) as (deg' & new & Heq & Hnd & Hdeg & Hnew).
  { intros x Hx. apply HL. by right. }
  { intros x Hx. destruct (Hd x Hx) as (d & Hdx & Hlx). rewrite cnt_cons in Hlx.
    destruct (decide (y = x)) as [->|Hne].
    - exists dy. rewrite lookup_insert_eq. split; [done|lia].
    - exists d. rewrite lookup_insert_ne by done. split; [done|lia]. }
  assert (forall x, known x -> exists d, deg !! x = Some d /\ deg' !! x = Some (d - cnt x (y :: L)))
    as Hdeg'.
  { intros x Hx. destruct (Hdeg x Hx) as (d & H1 & H2). destruct (Hd x Hx) as (d0 & H3 & _).
    exists d0. split; [done|]. rewrite cnt_cons. destruct (decide (y = x)) as [->|Hne].
    - rewrite lookup_insert_eq in H1. injection H1 as <-. rewrite H3 in Hy. injection Hy as ->.
      rewrite H2. done.
    - rewrite lookup_insert_ne in H1 by done. rewrite H3 in H1. injection H1 as <-.
      rewrite H2. done. }
  assert (y ∉ L <-> cnt y L = 0) as HyL by (rewrite <-cnt_In; lia).
  assert (deg' !! y = Some (dy - cnt y L)) as Hy'.
  { destruct (Hdeg' y) as (d & H1 & H2); [by apply HL; left|].
    rewrite H1 in Hy. injection Hy as ->. rewrite H2, cnt_cons.
    destruct (decide (y = y)); [|done]. done. }
  rewrite Heq. unfold next1. destruct (Nat.eqb_spec dy 0) as [->|Hdy].
  - exists deg', (y :: new). rewrite <-app_assoc. split_and!; [done| |done|].
    + constructor; [|done]. rewrite Hnew. intros [Hin _]. apply cnt_In in Hin. lia.
    + intros x. rewrite !elem_of_cons, Hnew. split.
      * intros [->|[Hin Hz]]; [|by auto]. split; [by left|]. rewrite Hy'. done.
      * intros [[->|Hin] Hz]; auto.
  - exists deg', new. split_and!; [done|done|done|].
    intros x. rewrite Hnew, elem_of_cons. split; [by intros []; auto|].
    intros [[->|Hin] Hz]; [|done]. split; [|done].
    rewrite Hy' in Hz. injection Hz as Hz. apply cnt_In. lia.
Qed.

Lemma decrement_app L1 L2 deg next :
  decrement (L1 ++ L2) deg next = ('(deg', next') ← decrement L1 deg next; decrement L2 deg' next').
Proof.
  revert deg next; induction L1 as [|y L1 IH]; intros deg next; [done|]. simpl.
  destruct (deg !! y) as [[|d]|]; simpl; by rewrite ?IH.
Qed.

(** The loop over a layer is one loop over all the dependents of its nodes. *)
Definition dependents_of (dependents : gmap str (list str)) (id : str) : list str :=
  default [] (dependents !! id).

Lemma process_layer_decrement layer dependents deg next :
  process_layer layer dependents deg next
  = decrement (flat_map (fun n => dependents_of dependents (base_id (base n))) layer) deg next.
Proof.
  revert deg next; induction layer as [|n layer IH]; intros deg next; simpl; [done|].
  rewrite decrement_app.
  assert (dependents_of dependents (base_id (base n))
          = default [] (dependents !! base_id (base n))) as -> by done.
  destruct (dependents !! base_id (base n)) as [deps|]; simpl; [|apply IH].
  destruct (decrement deps deg next) as [[deg' next']|]; simpl; [apply IH|done].
Qed.

Lemma base_id_node_id n : base_id (base n) = node_id n.
Proof. by destruct n. Qed.

(** ** The initial maps *)

Lemma init_dependents_spec id deps m x r :
  cnt x (dependents_of
    (foldl (fun m dep => <[dep := default [] (m !! dep) ++ [id]]> m) m deps) r)
  = cnt x (dependents_of m r) + (if decide (id = x) then cnt r deps else 0).
Proof.
  revert m; induction deps as [|d deps IH]; intros m; cbn [foldl].
  { destruct (decide (id = x)); simpl; lia. }
  rewrite IH, cnt_cons. unfold dependents_of at 1 2.
  destruct (decide (d = r)) as [->|Hne].
  - rewrite lookup_insert_eq. simpl default. rewrite cnt_app, cnt_cons. simpl.
    change (cnt x []) with 0. destruct (decide (id = x)); lia.
  - rewrite lookup_insert_ne by done. destruct (decide (id = x)); lia.
Qed.

Lemma initial_maps_snoc nodes n :
  initial_maps (nodes ++ [n]) = init_node (initial_maps nodes) n.
Proof. unfold initial_maps. by rewrite foldl_app. Qed.

Section Graph.
Variable nodes : list DagNode.
Hypothesis ids_distinct : NoDup (map node_id nodes).

Definition deps_of (id : str) : list str :=
  match find_node nodes id with Some n => depends_on n | None => [] end.
Definition is_node (id : str) : Prop := id ∈ map node_id nodes.
End Graph.

Lemma find_node_spec nodes n :
  NoDup (map node_id nodes) -> n ∈ nodes -> find_node nodes (node_id n) = Some n.
Proof.
  intros Hnd Hin. unfold find_node. induction nodes as [|m nodes IH]; [by apply elem_of_nil in Hin|].
  simpl in *. apply NoDup_cons in Hnd as [Hm Hnd].
  destruct (str_eqb (node_id m) (node_id n)) eqn:E.
  - apply str_eqb_spec in E. apply elem_of_cons in Hin as [->|Hin]; [done|].
    destruct Hm. rewrite E. by apply list_elem_of_fmap_2.
  - apply elem_of_cons in Hin as [->|Hin]; [by rewrite str_eqb_refl in E|]. by apply IH.
Qed.

Lemma find_node_id nodes id n : find_node nodes id = Some n -> node_id n = id /\ n ∈ nodes.
Proof.
  unfold find_node. intros Hf. apply find_some in Hf as [Hin He].
  apply str_eqb_spec in He. by rewrite list_elem_of_In.
Qed.

Lemma deps_of_snoc nodes n x :
  NoDup (map node_id (nodes ++ [n])) ->
  deps_of (nodes ++ [n]) x = if decide (node_id n = x) then depends_on n else deps_of nodes x.
Proof.
  intros Hnd. unfold deps_of. destruct (decide (node_id n = x)) as [<-|Hne].
  - rewrite find_node_spec; [done|done|]. apply elem_of_app. right. by left.
  - unfold find_node. rewrite find_app. destruct (List.find _ nodes); [done|]. simpl.
    destruct (str_eqb (node_id n) x) eqn:E; [|done]. by apply str_eqb_spec in E.
Qed.

(** A dependent stands in the list of [r] as often as it depends on [r]; a counter
    starts at the number of dependencies. *)
Lemma initial_maps_spec nodes :
  NoDup (map node_id nodes) ->
  (forall x r, cnt x (dependents_of (initial_maps nodes).2 r) = cnt r (deps_of nodes x))
  /\ (forall n, n ∈ nodes -> (initial_maps nodes).1 !! node_id n = Some (length (depends_on n))).
Proof.
  induction nodes as [|n nodes IH] using rev_ind; intros Hnd.
  { split; [done|]. intros n Hn. by apply elem_of_nil in Hn. }
  pose proof Hnd as Hnd'. rewrite map_app in Hnd'. apply NoDup_app in Hnd' as (Hnd1 & Hdis & _).
  destruct (IH Hnd1) as [H1 H2]. rewrite initial_maps_snoc. unfold init_node.
  destruct (initial_maps nodes) as [deg dependents]. simpl in *. split.
  - intros x r. rewrite init_dependents_spec, deps_of_snoc, H1 by done.
    destruct (decide (node_id n = x)) as [<-|]; [|lia].
    assert (deps_of nodes (node_id n) = []) as ->; [|done].
    unfold deps_of. destruct (find_node nodes (node_id n)) as [m|] eqn:E; [|done].
    apply find_node_id in E as [He Hm]. destruct (Hdis (node_id n)); [|by left].
    rewrite <-He. by apply list_elem_of_fmap_2.
  - intros m [Hm|Hm%list_elem_of_singleton]%elem_of_app.
    + rewrite lookup_insert_ne; [by apply H2|]. intros He. apply (Hdis (node_id m)).
      * by apply list_elem_of_fmap_2.
      * rewrite <-He. by left.
    + subst m. by rewrite lookup_insert_eq.
Qed.

(** ** The layers a reference computes

    Each layer holds the nodes that are not placed yet and whose dependencies all
    are. *)
Definition placed_deps (P : list str) (n : DagNode) : Prop :=
  forall d, d ∈ depends_on n -> d ∈ P.
Definition is_next_layer (nodes : list DagNode) (P : list str) (R : list DagNode) : Prop :=
  NoDup (map node_id R)
  /\ forall n, n ∈ R <-> n ∈ nodes /\ node_id n ∉ P /\ placed_deps P n.

Inductive layering (nodes : list DagNode) (P : list str) : list (list DagNode) -> Prop :=
| layering_nil : is_next_layer nodes P [] -> layering nodes P []
| layering_cons R ls :
    R <> [] -> is_next_layer nodes P R -> layering nodes (P ++ map node_id R) ls ->
    layering nodes P (R :: ls).

Lemma length_filter_cons_mem r rs (l : list str) :
  r ∉ rs ->
  length (filter (fun d => d ∈ r :: rs) l) = cnt r l + length (filter (fun d => d ∈ rs) l).
Proof.
  intros Hr. induction l as [|d l IH]; [done|].
  rewrite !filter_cons, cnt_cons.
  destruct (decide (d = r)) as [->|Hne].
  - rewrite decide_True by (by left). rewrite (decide_False (P := r ∈ rs)) by done. simpl. lia.
  - destruct (decide (d ∈ rs)) as [Hin|Hin].
    + rewrite decide_True by (by right). simpl. lia.
    + rewrite decide_False by (by intros [->|?]%elem_of_cons). lia.
Qed.

Section Loop.
Variable nodes : list DagNode.
Hypothesis ids_distinct : NoDup (map node_id nodes).
Let dependents := (initial_maps nodes).2.

Lemma deps_of_node n : n ∈ nodes -> deps_of nodes (node_id n) = depends_on n.
Proof. intros Hn. unfold deps_of. by rewrite find_node_spec. Qed.

(** The dependencies of a node that are not placed. *)
Definition remaining (P : list str) (id : str) : nat :=
  length (filter (fun d => d ∉ P) (deps_of nodes id)).

Lemma remaining_zero P n : n ∈ nodes -> remaining P (node_id n) = 0 <-> placed_deps P n.
Proof.
  intros Hn. unfold remaining, placed_deps. rewrite deps_of_node by done. split.
  - intros Hl d Hd. apply nil_length_inv in Hl. apply dec_stable. intros Hp.
    assert (d ∈ filter (fun d => d ∉ P) (depends_on n)) as Hin by (by apply list_elem_of_filter).
    rewrite Hl in Hin. by apply elem_of_nil in Hin.
  - intros Hp. destruct (filter _ _) as [|d l] eqn:E; [done|].
    assert (d ∈ filter (fun d => d ∉ P) (depends_on n)) as Hin by (rewrite E; by left).
    apply list_elem_of_filter in Hin as [Hd Hin]. by destruct Hd; apply Hp.
Qed.

Lemma cnt_dependents x R :
  NoDup (map node_id R) ->
  cnt x (flat_map (fun n => dependents_of dependents (base_id (base n))) R)
  = length (filter (fun d => d ∈ map node_id R) (deps_of nodes x)).
Proof.
  destruct (initial_maps_spec nodes ids_distinct) as [Hd _].
  induction R as [|r R IH]; intros Hnd.
  - simpl. change (cnt x []) with 0. induction (deps_of nodes x) as [|d l IHl]; [done|].
    rewrite filter_cons, decide_False by apply not_elem_of_nil. done.
  - simpl in *. apply NoDup_cons in Hnd as [Hr Hnd].
    rewrite cnt_app, length_filter_cons_mem, IH by done.
    rewrite base_id_node_id. unfold dependents. by rewrite Hd.
Qed.

Lemma remaining_app P Q id :
  (forall d, d ∈ P -> d ∉ Q) ->
  remaining P id
  = remaining (P ++ Q) id + length (filter (fun d => d ∈ Q) (deps_of nodes id)).
Proof.
  intros Hdis. unfold remaining. induction (deps_of nodes id) as [|d l IH]; [done|].
  rewrite !filter_cons. destruct (decide (d ∈ Q)) as [Hq|Hq].
  - rewrite (decide_True (P := d ∉ P)) by (intros Hp; by apply (Hdis d)).
    rewrite (decide_False (P := d ∉ P ++ Q)) by (intros Hn; apply Hn, elem_of_app; by right).
    simpl. lia.
  - destruct (decide (d ∉ P)) as [Hp|Hp].
    + rewrite (decide_True (P := d ∉ P ++ Q)) by (by intros [?|?]%elem_of_app).
      simpl. lia.
    + rewrite (decide_False (P := d ∉ P ++ Q)); [done|].
      intros Hn. apply Hp. intros Hin. apply Hn, elem_of_app. by left.
Qed.

Record loop_inv (P : list str) (deg : gmap str nat) (R : list DagNode) : Prop := {
  inv_degree : forall n, n ∈ nodes -> deg !! node_id n = Some (remaining P (node_id n));
  inv_closed : forall n, n ∈ nodes -> node_id n ∈ P -> placed_deps P n;
  inv_placed : forall id, id ∈ P -> id ∈ map node_id nodes;
  inv_nodup : NoDup P;
  inv_ready : is_next_layer nodes P R;
}.

Lemma flat_map_dependents_nodes R x :
  NoDup (map node_id R) ->
  x ∈ flat_map (fun n => dependents_of dependents (base_id (base n))) R ->
  x ∈ map node_id nodes /\ exists d, d ∈ deps_of nodes x /\ d ∈ map node_id R.
Proof.
  intros Hnd Hx. apply cnt_In in Hx. rewrite cnt_dependents in Hx by done.
  destruct (filter _ _) as [|d l] eqn:E; [simpl in Hx; lia|].
  assert (d ∈ filter (fun d => d ∈ map node_id R) (deps_of nodes x)) as Hd
    by (rewrite E; by left).
  apply list_elem_of_filter in Hd as [Hd1 Hd2]. split; [|by exists d].
  unfold deps_of in Hd2. destruct (find_node nodes x) as [n|] eqn:En; [|by apply elem_of_nil in Hd2].
  apply find_node_id in En as [<- Hn]. by apply list_elem_of_fmap_2.
Qed.

Lemma omap_find_ids new :
  (forall x, x ∈ new -> x ∈ map node_id nodes) ->
  map node_id (omap (find_node nodes) new) = new
  /\ forall n, n ∈ omap (find_node nodes) new <-> n ∈ nodes /\ node_id n ∈ new.
Proof.
  intros Hnew. split.
  - induction new as [|x new IH]; [done|]. simpl.
    assert (x ∈ map node_id nodes) as Hx by (apply Hnew; by left).
    apply list_elem_of_fmap in Hx as (n & -> & Hn).
    rewrite (find_node_spec nodes n) by done. simpl. f_equal.
    apply IH. intros y Hy. apply Hnew. by right.
  - intros n. rewrite list_elem_of_omap. split.
    + intros (x & Hx & Hf). apply find_node_id in Hf as [<- Hn]. done.
    + intros [Hn Hx]. exists (node_id n). by rewrite find_node_spec.
Qed.

(** One iteration keeps the invariant. *)
Lemma process_layer_inv P deg R :
  loop_inv P deg R ->
  exists deg' new, process_layer R dependents deg [] = Ret (deg', new)
    /\ loop_inv (P ++ map node_id R) deg' (omap (find_node nodes) new).
Proof.
  intros [Hdeg Hclosed Hplaced Hnd [HRnd HR]].
  assert (forall d, d ∈ P -> d ∉ map node_id R) as Hdis.
  { intros d Hd Hr. apply list_elem_of_fmap in Hr as (n & -> & Hn). by apply HR in Hn as (_ & ? & _). }
  set (L := flat_map (fun n => dependents_of dependents (base_id (base n))) R).
  destruct (decrement_spec (fun x => x ∈ map node_id nodes) L deg [])
    as (deg' & new & Heq & Hnew & Hdeg' & Hmem).
  { intros x Hx. by apply flat_map_dependents_nodes in Hx as [? _]. }
  { intros x Hx. apply list_elem_of_fmap in Hx as (n & -> & Hn). eexists. split; [by apply Hdeg|].
    unfold L. rewrite cnt_dependents, (remaining_app P (map node_id R)) by done. lia. }
  assert (forall n, n ∈ nodes ->
    deg' !! node_id n = Some (remaining (P ++ map node_id R) (node_id n))) as Hdeg2.
  { intros n Hn. destruct (Hdeg' (node_id n)) as (d & H1 & ->); [by apply list_elem_of_fmap_2|].
    rewrite Hdeg in H1 by done. injection H1 as <-. unfold L.
    rewrite cnt_dependents, (remaining_app P (map node_id R)) by done. f_equal. lia. }
  exists deg', new. rewrite process_layer_decrement. fold L. split; [exact Heq|].
  assert (forall x, x ∈ new -> x ∈ map node_id nodes) as Hids.
  { intros x [Hx _]%Hmem. by apply flat_map_dependents_nodes in Hx as [? _]. }
  destruct (omap_find_ids new Hids) as [Hmap Hin].
  split; [done| | | |split].
  - intros n Hn [Hp|Hp]%elem_of_app d Hd; apply elem_of_app; left.
    + by apply (Hclosed n).
    + apply list_elem_of_fmap in Hp as (m & He & Hm). pose proof Hm as Hm'.
      apply HR in Hm as (Hm & _ & Hpd). apply Hpd.
      enough (m = n) as -> by done.
      pose proof (find_node_spec nodes m ids_distinct Hm) as E1.
      rewrite <-He, find_node_spec in E1 by done. congruence.
  - intros id [Hp|Hp]%elem_of_app; [by apply Hplaced|].
    apply list_elem_of_fmap in Hp as (n & -> & Hn). apply list_elem_of_fmap_2. by apply HR.
  - apply NoDup_app. split_and!; [done|apply Hdis|done].
  - by rewrite Hmap.
  - intros n. rewrite Hin, Hmem. split.
    + intros (Hn & HL & Hz). split; [done|].
      rewrite Hdeg2 in Hz by done. injection Hz as Hz. apply remaining_zero in Hz; [|done].
      split; [|done].
      apply flat_map_dependents_nodes in HL as (_ & d & Hd & Hr); [|done].
      rewrite deps_of_node in Hd by done.
      assert (d ∉ P) as HdP by (intros HP; by apply (Hdis d)).
      intros [Hp|Hp]%elem_of_app; [by apply HdP, (Hclosed n)|].
      apply list_elem_of_fmap in Hp as (m & He & Hm). apply HR in Hm as (Hm & _ & Hpd).
      enough (m = n) as -> by (by apply HdP, Hpd).
      pose proof (find_node_spec nodes m ids_distinct Hm) as E1.
      rewrite <-He, find_node_spec in E1 by done. congruence.
    + intros (Hn & Hnp & Hpd). split; [done|]. split.
      * apply cnt_In. unfold L. rewrite cnt_dependents by done.
        destruct (decide (remaining P (node_id n) = 0)) as [Hz|Hz].
        { apply remaining_zero in Hz; [|done]. exfalso. apply Hnp, elem_of_app. right.
          apply list_elem_of_fmap_2, HR. split; [done|]. split; [|done].
          intros HP. apply Hnp, elem_of_app. by left. }
        pose proof (remaining_app P (map node_id R) (node_id n) Hdis) as Hr.
        apply remaining_zero in Hpd; [|done]. lia.
      * rewrite Hdeg2 by done. f_equal. by apply remaining_zero.
Qed.

Lemma initial_inv :
  loop_inv [] (initial_maps nodes).1 (initial_ready nodes (initial_maps nodes).1).
Proof.
  destruct (initial_maps_spec nodes ids_distinct) as [_ Hdeg].
  assert (forall n, n ∈ initial_ready nodes (initial_maps nodes).1
    <-> n ∈ nodes /\ depends_on n = []) as Hready.
  { intros n. unfold initial_ready. rewrite !list_elem_of_In, filter_In, <-list_elem_of_In.
    split; intros [Hn He]; (split; [done|]).
    - rewrite Hdeg in He by done. simpl in He. apply Nat.eqb_eq in He. by apply nil_length_inv.
    - rewrite Hdeg by done. simpl. by rewrite He. }
  split.
  - intros n Hn. rewrite Hdeg by done. unfold remaining. rewrite deps_of_node by done. f_equal.
    induction (depends_on n) as [|d l IH]; [done|].
    rewrite filter_cons, decide_True by apply not_elem_of_nil. simpl. by f_equal.
  - intros n _ Hn. by apply elem_of_nil in Hn.
  - intros id Hn. by apply elem_of_nil in Hn.
  - constructor.
  - split.
    + unfold initial_ready. revert ids_distinct. clear. intros Hnd.
      generalize (fun n => Nat.eqb (default 0 ((initial_maps nodes).1 !! node_id n)) 0).
      intros f. induction nodes as [|n l IH]; [constructor|]. simpl in *.
      apply NoDup_cons in Hnd as [Hn Hnd]. destruct (f n); [|by apply IH].
      simpl. constructor; [|by apply IH]. intros Hin. apply Hn.
      apply list_elem_of_fmap in Hin as (m & -> & Hm). apply list_elem_of_fmap_2.
      rewrite list_elem_of_In, filter_In in Hm. rewrite list_elem_of_In. tauto.
    + intros n. rewrite Hready. unfold placed_deps. split.
      * intros [Hn He]. rewrite He. split_and!; [done|apply not_elem_of_nil|].
        intros d Hd. by apply elem_of_nil in Hd.
      * intros (Hn & _ & Hp). split; [done|]. destruct (depends_on n) as [|d l]; [done|].
        destruct (not_elem_of_nil d). apply Hp. by left.
Qed.

Lemma placed_le P deg R :
  loop_inv P deg R -> length P + length R <= length nodes.
Proof.
  intros [_ _ Hp Hnd [HRnd HR]].
  rewrite <-(length_map node_id R), <-(length_map node_id nodes), <-length_app.
  apply NoDup_incl_length.
  - apply NoDup_ListNoDup, NoDup_app. split_and!; [done| |done].
    intros d Hd Hin. apply list_elem_of_fmap in Hin as (n & -> & Hn). by apply HR in Hn as (_ & ? & _).
  - intros x [Hx|Hx]%in_app_iff; rewrite <-list_elem_of_In in *; [by apply Hp|].
    apply list_elem_of_fmap in Hx as (n & -> & Hn). apply list_elem_of_fmap_2. by apply HR.
Qed.

(** The loop ends, and computes the layers of the reference. *)
Lemma layers_loop_spec fuel P deg R :
  loop_inv P deg R -> length nodes < length P + fuel ->
  exists ls, layers_loop fuel nodes dependents deg R = Some (Ret ls) /\ layering nodes P ls.
Proof.
  revert P deg R; induction fuel as [|fuel IH]; intros P deg R Hinv Hf.
  { pose proof (placed_le P deg R Hinv). lia. }
  destruct R as [|r R].
  { exists []. split; [done|]. constructor. apply (inv_ready P deg []), Hinv. }
  destruct (process_layer_inv P deg (r :: R) Hinv) as (deg' & new & Heq & Hinv').
  cbn [layers_loop]. rewrite Heq.
  destruct (IH _ _ _ Hinv') as (ls & -> & Hls).
  { rewrite length_app, length_map. simpl. lia. }
  exists ((r :: R) :: ls). split; [done|]. constructor; [done| |done].
  apply (inv_ready P deg), Hinv.
Qed.
End Loop.

Lemma build_layers_layering nodes :
  NoDup (map node_id nodes) ->
  exists ls, layering nodes [] ls
    /\ build_layers nodes = Some (if length (concat ls) <? length nodes then Panic else Ret ls).
Proof.
  intros Hnd. pose proof (initial_inv nodes Hnd) as Hinv. unfold build_layers.
  destruct (initial_maps nodes) as [deg dependents] eqn:E. simpl in Hinv.
  destruct (layers_loop_spec nodes Hnd (S (length nodes)) [] deg _ Hinv) as (ls & Hl & Hls);
    [simpl; lia|].
  exists ls. split; [done|]. rewrite E in Hl. cbn [snd] in Hl. by rewrite Hl.
Qed.

(** The layering loop terminates on every list of nodes with distinct
    identifiers: the fuel is enough, cycles and missing dependencies included. *)
Theorem build_layers_terminates nodes :
  NoDup (map node_id nodes) -> exists r, build_layers nodes = Some r.
Proof. intros Hnd. destruct (build_layers_layering nodes Hnd) as (ls & _ & ->). eauto. Qed.

(** ** What the layers hold *)

Lemma layering_nodes nodes P ls n :
  layering nodes P ls -> n ∈ concat ls -> n ∈ nodes /\ node_id n ∉ P.
Proof.
  induction 1 as [P Hn|P R ls _ [_ HR] _ IH]; simpl; [by intros ?%elem_of_nil|].
  intros [Hn|Hn]%elem_of_app.
  - apply HR in Hn. tauto.
  - apply IH in Hn as [H1 H2]. split; [done|]. intros HP. apply H2, elem_of_app. by left.
Qed.

Lemma layering_NoDup nodes P ls :
  layering nodes P ls -> NoDup (map node_id (concat ls)).
Proof.
  induction 1 as [P Hn|P R ls _ [HRnd HR] Hl IH]; simpl; [constructor|].
  rewrite map_app. apply NoDup_app. split_and!; [done| |done].
  intros x Hx Hin. apply list_elem_of_fmap in Hin as (n & -> & Hn).
  apply (layering_nodes _ _ _ _ Hl) in Hn as [_ Hn]. apply Hn, elem_of_app. by right.
Qed.

(** The identifiers placed before the [k]-th layer. *)
Definition placed_before (ls : list (list DagNode)) (k : nat) : list str :=
  map node_id (concat (take k ls)).

Lemma layering_lookup nodes P ls k layer :
  layering nodes P ls -> ls !! k = Some layer ->
  is_next_layer nodes (P ++ placed_before ls k) layer.
Proof.
  intros Hl. revert k; induction Hl as [P Hn|P R ls Hne HR Hl IH]; intros k; [done|].
  destruct k as [|k]; simpl.
  - intros [= <-]. unfold placed_before. simpl. by rewrite app_nil_r.
  - intros Hk. apply IH in Hk. unfold placed_before in *. simpl. by rewrite map_app, app_assoc.
Qed.

Lemma placed_before_S ls k layer :
  ls !! k = Some layer -> placed_before ls (S k) = placed_before ls k ++ map node_id layer.
Proof.
  intros Hk. unfold placed_before. rewrite (take_S_r ls k layer) by done.
  rewrite concat_app, map_app. simpl. by rewrite app_nil_r.
Qed.

Lemma placed_before_spec ls k d :
  d ∈ placed_before ls k -> exists j layer n, j < k /\ ls !! j = Some layer
    /\ n ∈ layer /\ node_id n = d.
Proof.
  induction k as [|k IH]; [by intros ?%elem_of_nil|]. intros Hd.
  destruct (ls !! k) as [layer|] eqn:E.
  - rewrite (placed_before_S ls k layer E) in Hd. apply elem_of_app in Hd as [Hd|Hd].
    + destruct (IH Hd) as (j & l & n & Hj & H). exists j, l, n. split; [lia|done].
    + apply list_elem_of_fmap in Hd as (n & -> & Hn). exists k, layer, n. split; [lia|done].
  - assert (placed_before ls (S k) = placed_before ls k) as Hsame.
    { unfold placed_before. apply lookup_ge_None in E. by rewrite !take_ge by lia. }
    rewrite Hsame in Hd. destruct (IH Hd) as (j & l & n & Hj & H). exists j, l, n. split; [lia|done].
Qed.

Lemma build_Ret nodes ls :
  NoDup (map node_id nodes) -> build_topological_layers nodes = Ret ls ->
  layering nodes [] ls /\ length nodes <= length (concat ls).
Proof.
  intros Hnd Hb. destruct (build_layers_layering nodes Hnd) as (ls' & Hl & Hb').
  unfold build_topological_layers in Hb. rewrite Hb' in Hb. simpl in Hb.
  destruct (Nat.ltb_spec (length (concat ls')) (length nodes)); [done|].
  by injection Hb as <-.
Qed.

Lemma build_topological_layers_facts nodes ls :
  NoDup (map node_id nodes) -> build_topological_layers nodes = Ret ls ->
  concat ls ≡ₚ nodes
  /\ forall k layer n d, ls !! k = Some layer -> n ∈ layer -> d ∈ depends_on n ->
       exists j layer' m, j < k /\ ls !! j = Some layer' /\ m ∈ layer' /\ node_id m = d.
Proof.
  intros Hnd Hb. destruct (build_Ret _ _ Hnd Hb) as [Hl Hlen]. split.
  - pose proof (layering_NoDup _ _ _ Hl) as Hnd'.
    apply submseteq_length_Permutation; [|done].
    apply NoDup_submseteq; [by eapply NoDup_fmap_1|].
    intros n Hn. by apply (layering_nodes _ _ _ _ Hl).
  - intros k layer n d Hk Hn Hd. apply (layering_lookup _ _ _ _ _ Hl) in Hk as [_ HR].
    apply HR in Hn as (_ & _ & Hp). apply Hp in Hd. by apply placed_before_spec in Hd.
Qed.

(** C4: the layers are a schedule: they hold every node exactly once, and every
    dependency of a node stands in an earlier layer. *)
Theorem build_topological_layers_sound nodes ls :
  NoDup (map node_id nodes) -> build_topological_layers nodes = Ret ls ->
  concat ls ≡ₚ nodes
  /\ forall k layer n d, ls !! k = Some layer -> n ∈ layer -> d ∈ depends_on n ->
       exists j layer' m, j < k /\ ls !! j = Some layer' /\ m ∈ layer' /\ node_id m = d.
Proof. apply build_topological_layers_facts. Qed.

(** No node waits longer than it has to: a node of a later layer has a
    dependency in the layer just before, so the number of layers is the length of
    the longest chain of dependencies. *)
Theorem build_topological_layers_tight nodes ls k layer n :
  NoDup (map node_id nodes) -> build_topological_layers nodes = Ret ls ->
  ls !! S k = Some layer -> n ∈ layer ->
  exists d before m, d ∈ depends_on n /\ ls !! k = Some before /\ m ∈ before /\ node_id m = d.
Proof.
  intros Hnd Hb Hk Hn. destruct (build_Ret _ _ Hnd Hb) as [Hl _].
  destruct (ls !! k) as [before|] eqn:E.
  2:{ apply lookup_ge_None in E. apply lookup_lt_Some in Hk. lia. }
  pose proof (layering_lookup _ _ _ _ _ Hl Hk) as [_ HR].
  pose proof (layering_lookup _ _ _ _ _ Hl E) as [_ HB].
  simpl in *. apply HR in Hn as (Hn & Hnp & Hp).
  rewrite (placed_before_S ls k before E) in *.
  destruct (decide (Forall (fun d => d ∈ placed_before ls k) (depends_on n))) as [Hall|Hall].
  - rewrite Forall_forall in Hall. exfalso. apply Hnp, elem_of_app. right.
    apply list_elem_of_fmap_2, HB. split; [done|]. split; [|done].
    intros HP. apply Hnp, elem_of_app. by left.
  - apply not_Forall_Exists in Hall; [|apply _]. apply Exists_exists in Hall as (d & Hd & Hnd').
    specialize (Hp d Hd). apply elem_of_app in Hp as [Hp|Hp]; [done|].
    apply list_elem_of_fmap in Hp as (m & -> & Hm). eauto 10.
Qed.

(** A rank that decreases along dependencies, which all are nodes: no cycle and
    no missing dependency. *)
Definition acyclic (nodes : list DagNode) : Prop :=
  exists rank : str -> nat, forall n d, n ∈ nodes -> d ∈ depends_on n ->
    d ∈ map node_id nodes /\ rank d < rank (node_id n).

Lemma layering_complete nodes P ls :
  layering nodes P ls -> acyclic nodes ->
  forall n, n ∈ nodes -> node_id n ∈ P ++ map node_id (concat ls).
Proof.
  intros Hl [rank Hrank]. induction Hl as [P [_ HR]|P R ls _ _ _ IH]; intros n Hn.
  - simpl. rewrite app_nil_r.
    remember (rank (node_id n)) as r eqn:Hr. revert n Hn Hr.
    induction r as [r IH] using lt_wf_ind. intros n Hn Hr.
    apply dec_stable. intros Hnp. apply (not_elem_of_nil n), HR. split_and!; [done|done|].
    intros d Hd. destruct (Hrank n d Hn Hd) as [Hd' Hlt].
    apply list_elem_of_fmap in Hd' as (m & -> & Hm). apply (IH (rank (node_id m))); [lia|done|done].
  - specialize (IH n Hn). simpl. by rewrite map_app, app_assoc.
Qed.

(** The index of the layer that holds an identifier is such a rank. *)
Definition layer_index (ls : list (list DagNode)) (id : str) : nat :=
  default 0 (fst <$> list_find (fun layer => id ∈ map node_id layer) ls).

Lemma layer_index_spec ls id k layer :
  ls !! k = Some layer -> id ∈ map node_id layer ->
  layer_index ls id <= k
  /\ exists layer', ls !! layer_index ls id = Some layer' /\ id ∈ map node_id layer'.
Proof.
  intros Hk Hin. unfold layer_index.
  destruct (list_find (fun layer => id ∈ map node_id layer) ls) as [[j l]|] eqn:E; simpl.
  - apply list_find_Some in E as (H1 & H2 & H3). split; [|eauto].
    destruct (decide (j <= k)) as [|Hjk]; [done|]. destruct (H3 k layer Hk); [lia|done].
  - apply list_find_None in E. rewrite Forall_forall in E. destruct (E layer); [|done].
    by eapply list_elem_of_lookup_2.
Qed.

Lemma acyclic_of_layers nodes ls :
  NoDup (map node_id nodes) -> concat ls ≡ₚ nodes ->
  (forall k layer n d, ls !! k = Some layer -> n ∈ layer -> d ∈ depends_on n ->
     exists j layer' m, j < k /\ ls !! j = Some layer' /\ m ∈ layer' /\ node_id m = d) ->
  acyclic nodes.
Proof.
  intros Hnd Hperm Hdeps. exists (layer_index ls). intros n d Hn Hd.
  assert (forall layer m k, ls !! k = Some layer -> m ∈ layer -> m ∈ nodes) as Hin.
  { intros layer m k Hk Hm. rewrite <-Hperm. apply list_elem_of_In, in_concat.
    exists layer. rewrite <-!list_elem_of_In. split; [by eapply list_elem_of_lookup_2|done]. }
  assert (exists k layer, ls !! k = Some layer /\ n ∈ layer) as (k & layer & Hk & Hl).
  { rewrite <-Hperm in Hn. apply list_elem_of_In, in_concat in Hn as (layer & H1 & H2).
    apply list_elem_of_In in H1, H2. apply list_elem_of_lookup in H1 as [k Hk]. eauto. }
  destruct (layer_index_spec ls (node_id n) k layer Hk) as (_ & layer' & Hi & Hl').
  { by apply list_elem_of_fmap_2. }
  apply list_elem_of_fmap in Hl' as (m & Hm & Hml).
  assert (m = n) as ->.
  { pose proof (find_node_spec nodes m Hnd (Hin _ _ _ Hi Hml)) as E1.
    rewrite <-Hm, find_node_spec in E1 by done. congruence. }
  destruct (Hdeps _ _ _ _ Hi Hml Hd) as (j & layer2 & m & Hj & Hl2 & Hm2 & <-).
  split; [apply list_elem_of_fmap_2; eauto|].
  destruct (layer_index_spec ls (node_id m) j layer2 Hl2) as [Hle _]; [|lia].
  by apply list_elem_of_fmap_2.
Qed.

Lemma layers_exist_iff nodes :
  NoDup (map node_id nodes) ->
  (exists ls, build_topological_layers nodes = Ret ls) <-> acyclic nodes.
Proof.
  intros Hnd. split.
  - intros [ls Hb]. destruct (build_topological_layers_facts _ _ Hnd Hb) as [Hperm Hdeps].
    exact (acyclic_of_layers nodes ls Hnd Hperm Hdeps).
  - intros Hac. destruct (build_layers_layering nodes Hnd) as (ls & Hl & Hb).
    exists ls. unfold build_topological_layers. rewrite Hb. simpl.
    destruct (Nat.ltb_spec (length (concat ls)) (length nodes)) as [Hlt|]; [|done].
    exfalso. pose proof (layering_complete _ _ _ Hl Hac) as Hall. simpl in Hall.
    assert (length (map node_id nodes) <= length (map node_id (concat ls))).
    { apply NoDup_incl_length; [by apply NoDup_ListNoDup|].
      intros x Hx. rewrite <-list_elem_of_In in *.
      apply list_elem_of_fmap in Hx as (n & -> & Hn). by apply Hall. }
    rewrite !length_map in *. lia.
Qed.

(** The executor builds layers exactly when the dependencies of the nodes are
    nodes and form no cycle; on any other graph it panics. *)
Theorem build_topological_layers_complete nodes :
  NoDup (map node_id nodes) ->
  (exists ls, build_topological_layers nodes = Ret ls) <-> acyclic nodes.
Proof. apply layers_exist_iff. Qed.

(** A diamond: [d] depends on [b] and [c], which depend on [a]. *)
Definition sample_node (id : string) (deps : list string) : DagNode :=
  Prompt (mk_PromptNode (base_default (lit id) (map lit deps)) (lit "go")).
Definition diamond : list DagNode :=
  [sample_node "d" ["b"; "c"]%string; sample_node "b" ["a"]%string;
   sample_node "c" ["a"]%string; sample_node "a" []].
Definition diamond_layers : list (list DagNode) :=
  [[sample_node "a" []]; [sample_node "b" ["a"]%string; sample_node "c" ["a"]%string];
   [sample_node "d" ["b"; "c"]%string]].

Lemma diamond_distinct : NoDup (map node_id diamond).
Proof. apply (bool_decide_unpack _). by_compute. Qed.

Lemma build_layers_terminates_witness : exists r, build_layers diamond = Some r.
Proof. apply build_layers_terminates. exact diamond_distinct. Defined.

Lemma build_topological_layers_sound_witness :
  build_topological_layers diamond = Ret diamond_layers /\ concat diamond_layers ≡ₚ diamond.
Proof.
  assert (build_topological_layers diamond = Ret diamond_layers) as Hb by by_compute.
  split; [exact Hb|].
  exact (proj1 (build_topological_layers_sound diamond diamond_layers diamond_distinct Hb)).
Defined.

Lemma build_topological_layers_tight_witness :
  exists d before m, d ∈ depends_on (sample_node "d" ["b"; "c"]%string)
    /\ diamond_layers !! 1 = Some before /\ m ∈ before /\ node_id m = d.
Proof.
  apply (build_topological_layers_tight diamond diamond_layers 1
           [sample_node "d" ["b"; "c"]%string] (sample_node "d" ["b"; "c"]%string));
    [exact diamond_distinct|by_compute|by_compute|by left].
Defined.

(** A node that depends on itself is a cycle. *)
Lemma build_topological_layers_complete_witness :
  ~ acyclic [sample_node "a" ["a"]%string].
Proof.
  intros Hac.
  assert (NoDup (map node_id [sample_node "a" ["a"]%string])) as Hnd
    by (apply (bool_decide_unpack _); by_compute).
  destruct (proj2 (build_topological_layers_complete [sample_node "a" ["a"]%string] Hnd) Hac)
    as [ls Hls].
  assert (build_topological_layers [sample_node "a" ["a"]%string] = Panic) as Hp by by_compute.
  congruence.
Defined.
