(* ===== verification/ModelValidation.v ===== *)
(** * Model references and the AI profile

    [model_validation.rs] of the crate [har-dag-executor]: the profile is built
    by layering the bundled tier defaults, the tiers and the aliases of the two
    configuration files; a [model:] reference is a tier, an alias or a literal. *)

From S2P Require Import Prelude StdModel DagNode.

Inductive TierName : Type := Small | Medium | Large.

#[export] Instance TierName_eq_dec : EqDecision TierName.
Proof. solve_decision. Defined.

Definition TIER_NAMES : list str := [lit "small"; lit "medium"; lit "large"].

Definition TierName_try_from_str (s : str) : option TierName :=
  if str_eqb s (lit "small") then Some Small
  else if str_eqb s (lit "medium") then Some Medium
  else if str_eqb s (lit "large") then Some Large
  else None.
Definition TierName_as_str (t : TierName) : str :=
  match t with Small => lit "small" | Medium => lit "medium" | Large => lit "large" end.

(** [ModelAliasPreset] and [RawAliasEntry] have the same fields. *)
Record ModelAliasPreset : Type := mk_ModelAliasPreset {
  preset_provider : str;
  preset_model : str;
  preset_effort : option str;
  preset_thinking : option ThinkingConfig;
}.
Record RawAliasEntry : Type := mk_RawAliasEntry {
  entry_provider : str;
  entry_model : str;
  entry_effort : option str;
  entry_thinking : option ThinkingConfig;
}.
Abbreviation RawAliasesConfig := (gmap str RawAliasEntry).
Abbreviation RawTiersConfig := (gmap str RawAliasEntry).

Record ResolvedAiProfile : Type := mk_ResolvedAiProfile {
  default_provider : str;
  aliases : gmap str ModelAliasPreset;
}.

Inductive ResolvedModelSpec : Type :=
| Preset (p : ModelAliasPreset)
| Literal (literal : str).

Definition is_literal_spec (spec : ResolvedModelSpec) : bool :=
  match spec with Literal _ => true | Preset _ => false end.

Definition tier_fallback_chain (tier : TierName) : list TierName :=
  match tier with
  | Large => [Large; Medium; Small]
  | Medium => [Medium; Large; Small]
  | Small => [Small; Medium; Large]
  end.

Inductive ModelValidationError : Type :=
| AliasNameReserved (name : str)
| AliasNameMissingAtSign (name : str)
| InvalidProvider (name : str)
| InvalidModel (name : str)
| InvalidTierName (name supported : str)
| TierNotConfigured (tier provider : str)
| UnknownAlias (alias defined : str).

(** [TIER_DEFAULTS_JSON], parsed: per provider and tier, a model and an effort. *)
Definition TIER_DEFAULTS : list (str * list (str * (str * option str))) :=
  [(lit "claude",
     [(lit "small", (lit "haiku", None)); (lit "medium", (lit "sonnet", None));
      (lit "large", (lit "opus", None))]);
   (lit "codex",
     [(lit "small", (lit "gpt-5.5", Some (lit "minimal")));
      (lit "medium", (lit "gpt-5.5", Some (lit "medium")));
      (lit "large", (lit "gpt-5.5", Some (lit "high")))]);
   (lit "pi",
     [(lit "small", (lit "anthropic/claude-haiku-4-5", None));
      (lit "medium", (lit "anthropic/claude-sonnet-4-6", None));
      (lit "large", (lit "anthropic/claude-opus-4-7", None))]);
   (lit "copilot",
     [(lit "small", (lit "gpt-5-mini", None)); (lit "medium", (lit "gpt-5", None));
      (lit "large", (lit "claude-sonnet-4.5", None))]);
   (lit "opencode",
     [(lit "small", (lit "anthropic/claude-haiku-4-5", None));
      (lit "medium", (lit "anthropic/claude-sonnet-4-6", None));
      (lit "large", (lit "anthropic/claude-opus-4-7", None))])].

Definition is_tier_name (s : str) : bool :=
  str_eqb s (lit "small") || str_eqb s (lit "medium") || str_eqb s (lit "large").

Definition assert_not_reserved (name : str) : result ModelValidationError unit :=
  if is_tier_name name then Err (AliasNameReserved name) else Ok tt.
Definition assert_custom_alias_prefix (name : str) : result ModelValidationError unit :=
  if negb (starts_with (lit "@") name) then Err (AliasNameMissingAtSign name) else Ok tt.
Definition assert_valid_entry (name : str) (entry : RawAliasEntry)
  : result ModelValidationError unit :=
  if is_empty (entry_provider entry) then Err (InvalidProvider name)
  else if is_empty (entry_model entry) then Err (InvalidModel name)
  else Ok tt.
Definition assert_valid_tier_name (name : str) : result ModelValidationError TierName :=
  match TierName_try_from_str name with
  | Some t => Ok t
  | None => Err (InvalidTierName name (join (lit ", ") TIER_NAMES))
  end.

Definition to_model_alias_preset (entry : RawAliasEntry) : ModelAliasPreset :=
  mk_ModelAliasPreset (entry_provider entry) (entry_model entry) (entry_effort entry)
    (entry_thinking entry).

Record BuildAiProfileOptions : Type := mk_BuildAiProfileOptions {
  global_tiers : option RawTiersConfig;
  repo_tiers : option RawTiersConfig;
  global_aliases : option RawAliasesConfig;
  repo_aliases : option RawAliasesConfig;
}.

(** Layer 1: the bundled defaults of the provider. *)
Definition insert_tier_defaults (provider : str) (aliases : gmap str ModelAliasPreset)
  : gmap str ModelAliasPreset :=
  match assoc_get provider TIER_DEFAULTS with
  | None => aliases
  | Some tier_entries =>
      foldl (fun aliases tier =>
               match assoc_get (TierName_as_str tier) tier_entries with
               | Some (model, effort) =>
                   <[TierName_as_str tier := mk_ModelAliasPreset provider model effort None]> aliases
               | None => aliases
               end) aliases [Small; Medium; Large]
  end.

Section Profile.
Context `{HashMapOrder}.

(** The body of the two inner loops: check an entry, then insert it. *)
Definition check_tier (name : str) (entry : RawAliasEntry) : result ModelValidationError unit :=
  _ ← assert_valid_tier_name name;
  assert_valid_entry name entry.
Definition check_alias (name : str) (entry : RawAliasEntry) : result ModelValidationError unit :=
  _ ← assert_not_reserved name;
  _ ← assert_custom_alias_prefix name;
  assert_valid_entry name entry.

Fixpoint insert_entries (check : str -> RawAliasEntry -> result ModelValidationError unit)
    (entries : list (str * RawAliasEntry)) (aliases : gmap str ModelAliasPreset)
  : result ModelValidationError (gmap str ModelAliasPreset) :=
  match entries with
  | [] => Ok aliases
  | (name, entry) :: rest =>
      _ ← check name entry;
      insert_entries check rest (<[name := to_model_alias_preset entry]> aliases)
  end.

(** One optional layer; a hash map is iterated in its own order. *)
Definition insert_layer (check : str -> RawAliasEntry -> result ModelValidationError unit)
    (layer : option (gmap str RawAliasEntry)) (aliases : gmap str ModelAliasPreset)
  : result ModelValidationError (gmap str ModelAliasPreset) :=
  match layer with
  | Some m => insert_entries check (hm_iter m) aliases
  | None => Ok aliases
  end.

Definition build_ai_profile (default_provider : str) (options : BuildAiProfileOptions)
  : result ModelValidationError ResolvedAiProfile :=
  let aliases := insert_tier_defaults default_provider ∅ in
  aliases ← insert_layer check_tier (global_tiers options) aliases;
  aliases ← insert_layer check_tier (repo_tiers options) aliases;
  aliases ← insert_layer check_alias (global_aliases options) aliases;
  aliases ← insert_layer check_alias (repo_aliases options) aliases;
  Ok (mk_ResolvedAiProfile default_provider aliases).

(** The walk along the fallback chain. *)
Fixpoint first_tier (chain : list TierName) (aliases : gmap str ModelAliasPreset)
  : option ModelAliasPreset :=
  match chain with
  | [] => None
  | t :: rest =>
      match aliases !! TierName_as_str t with
      | Some preset => Some preset
      | None => first_tier rest aliases
      end
  end.

Definition resolve_model_spec (profile : ResolvedAiProfile) (model_ref : str)
  : result ModelValidationError ResolvedModelSpec :=
  match TierName_try_from_str model_ref with
  | Some tier =>
      match first_tier (tier_fallback_chain tier) (aliases profile) with
      | Some preset => Ok (Preset preset)
      | None => Err (TierNotConfigured model_ref (default_provider profile))
      end
  | None =>
      if starts_with (lit "@") model_ref then
        match aliases profile !! model_ref with
        | Some preset => Ok (Preset preset)
        | None =>
            let defined := map fst (hm_iter (aliases profile)) in
            let list :=
              if is_empty defined then lit "(none)" else join (lit ", ") (sort_strings defined) in
            Err (UnknownAlias model_ref list)
        end
      else Ok (Literal model_ref)
  end.
End Profile.

Definition assert_not_reserved_pub (name : str) : result ModelValidationError unit :=
  assert_not_reserved name.

(** ** Routing of an effort *)

Definition CLAUDE_EFFORTS : list str := [lit "low"; lit "medium"; lit "high"; lit "max"].
Definition CODEX_REASONING_EFFORTS : list str :=
  [lit "minimal"; lit "low"; lit "medium"; lit "high"; lit "xhigh"].

Inductive EffortField : Type := Effort | ModelReasoningEffortField.
Record EffortRouting : Type := mk_EffortRouting { field : EffortField; value : str }.

Definition route_preset_effort (provider effort : str) : option EffortRouting :=
  if str_eqb provider (lit "claude") && existsb (str_eqb effort) CLAUDE_EFFORTS
  then Some (mk_EffortRouting Effort effort)
  else if str_eqb provider (lit "codex") && existsb (str_eqb effort) CODEX_REASONING_EFFORTS
  then Some (mk_EffortRouting ModelReasoningEffortField effort)
  else None.

(** ** Lemmas and theorems *)

Lemma tier_try_from_as_str t : TierName_try_from_str (TierName_as_str t) = Some t.
Proof. by destruct t. Qed.

Lemma tier_as_from_str s t : TierName_try_from_str s = Some t -> s = TierName_as_str t.
Proof.
  unfold TierName_try_from_str. intros Ht.
  destruct (str_eqb s (lit "small")) eqn:E1; [apply str_eqb_spec in E1; by simplify_eq|].
  destruct (str_eqb s (lit "medium")) eqn:E2; [apply str_eqb_spec in E2; by simplify_eq|].
  destruct (str_eqb s (lit "large")) eqn:E3; [apply str_eqb_spec in E3; by simplify_eq|done].
Qed.

Section Layering.
Context `{HashMapOrder}.

Lemma insert_entries_lookup check entries acc acc' :
  NoDup entries.*1 -> insert_entries check entries acc = Ok acc' ->
  (forall k e, assoc_get k entries = Some e -> check k e = Ok tt)
  /\ forall k, acc' !! k = match assoc_get k entries with
                           | Some e => Some (to_model_alias_preset e)
                           | None => acc !! k
                           end.
Proof.
  revert acc; induction entries as [|[name e] entries IH]; intros acc Hnd; simpl.
  { intros [= <-]. done. }
  apply NoDup_cons in Hnd as [Hn Hnd].
  destruct (check name e) as [[]|] eqn:Hc; [|done]. simpl. intros Hi.
  destruct (IH _ Hnd Hi) as [H1 H2]. split.
  - intros k e'. case_bool_decide as Hk; [intros [= <-]; by rewrite Hk|apply H1].
  - intros k. rewrite H2. case_bool_decide as Hk.
    + subst k. assert (assoc_get name entries = None) as ->.
      { apply assoc_get_None. by rewrite <-list_elem_of_In. }
      by rewrite lookup_insert_eq.
    + destruct (assoc_get k entries); [done|]. by rewrite lookup_insert_ne.
Qed.

Lemma insert_entries_ok check entries acc :
  (forall k e, (k, e) ∈ entries -> check k e = Ok tt) ->
  exists acc', insert_entries check entries acc = Ok acc'.
Proof.
  revert acc; induction entries as [|[name e] entries IH]; intros acc Hc; simpl; [eauto|].
  rewrite (Hc name e) by (by left). simpl. apply IH. intros k e' Hin. apply Hc. by right.
Qed.

(** An optional layer, as a map. *)
Definition layer_get (layer : option (gmap str RawAliasEntry)) (k : str) : option RawAliasEntry :=
  m ← layer; m !! k.

Lemma insert_layer_lookup check layer acc acc' :
  insert_layer check layer acc = Ok acc' ->
  (forall k e, layer_get layer k = Some e -> check k e = Ok tt)
  /\ forall k, acc' !! k = match layer_get layer k with
                           | Some e => Some (to_model_alias_preset e)
                           | None => acc !! k
                           end.
Proof.
  destruct layer as [m|]; simpl; [|by intros [= <-]]. intros Hi.
  apply insert_entries_lookup in Hi as [H1 H2]; [|apply hm_iter_NoDup].
  setoid_rewrite assoc_get_hm_iter in H1. setoid_rewrite assoc_get_hm_iter in H2. done.
Qed.

Lemma insert_layer_ok check layer acc :
  (forall k e, layer_get layer k = Some e -> check k e = Ok tt) ->
  exists acc', insert_layer check layer acc = Ok acc'.
Proof.
  destruct layer as [m|]; simpl; [|eauto]. intros Hc. apply insert_entries_ok.
  intros k e Hin. apply Hc. by apply hm_iter_elem.
Qed.

(** Every entry of a configuration passes its check. *)
Definition config_valid (o : BuildAiProfileOptions) : Prop :=
  (forall k e, layer_get (global_tiers o) k = Some e -> check_tier k e = Ok tt)
  /\ (forall k e, layer_get (repo_tiers o) k = Some e -> check_tier k e = Ok tt)
  /\ (forall k e, layer_get (global_aliases o) k = Some e -> check_alias k e = Ok tt)
  /\ (forall k e, layer_get (repo_aliases o) k = Some e -> check_alias k e = Ok tt).

(** The entry of highest precedence. *)
Definition layered (provider : str) (o : BuildAiProfileOptions) (k : str)
  : option ModelAliasPreset :=
  match layer_get (repo_aliases o) k, layer_get (global_aliases o) k,
        layer_get (repo_tiers o) k, layer_get (global_tiers o) k with
  | Some e, _, _, _ | None, Some e, _, _ | None, None, Some e, _ | None, None, None, Some e =>
      Some (to_model_alias_preset e)
  | None, None, None, None => insert_tier_defaults provider ∅ !! k
  end.

Lemma build_ai_profile_inv provider o p :
  build_ai_profile provider o = Ok p ->
  config_valid o /\ default_provider p = provider
  /\ forall k, aliases p !! k = layered provider o k.
Proof.
  unfold build_ai_profile.
  destruct (insert_layer check_tier (global_tiers o) _) as [a1|] eqn:E1; [|done]. simpl.
  destruct (insert_layer check_tier (repo_tiers o) a1) as [a2|] eqn:E2; [|done]. simpl.
  destruct (insert_layer check_alias (global_aliases o) a2) as [a3|] eqn:E3; [|done]. simpl.
  destruct (insert_layer check_alias (repo_aliases o) a3) as [a4|] eqn:E4; [|done]. simpl.
  intros [= <-].
  apply insert_layer_lookup in E1 as [C1 L1], E2 as [C2 L2], E3 as [C3 L3], E4 as [C4 L4].
  split; [done|]. split; [done|]. intros k. simpl. rewrite L4, L3, L2, L1. unfold layered.
  destruct (layer_get (repo_aliases o) k), (layer_get (global_aliases o) k),
    (layer_get (repo_tiers o) k), (layer_get (global_tiers o) k); done.
Qed.

Lemma build_ai_profile_total provider o :
  config_valid o -> exists p, build_ai_profile provider o = Ok p.
Proof.
  intros (C1 & C2 & C3 & C4). unfold build_ai_profile.
  edestruct (insert_layer_ok check_tier) as [a1 ->]; [exact C1|]. simpl.
  edestruct (insert_layer_ok check_tier) as [a2 ->]; [exact C2|]. simpl.
  edestruct (insert_layer_ok check_alias) as [a3 ->]; [exact C3|]. simpl.
  edestruct (insert_layer_ok check_alias) as [a4 ->]; [exact C4|]. simpl. eauto.
Qed.

(** A profile is built exactly when every entry of the four configuration
    maps is valid, whatever the order the maps are iterated in; it then holds,
    for each name, the entry of highest precedence: repository aliases, global
    aliases, repository tiers, global tiers, bundled defaults. *)
Theorem build_ai_profile_layers provider o p :
  build_ai_profile provider o = Ok p
  <-> config_valid o /\ p = mk_ResolvedAiProfile provider (aliases p)
      /\ forall k, aliases p !! k = layered provider o k.
Proof.
  split.
  - intros Hb. destruct (build_ai_profile_inv _ _ _ Hb) as (Hv & <- & Hl). by destruct p.
  - intros (Hv & Hp & Hl). destruct (build_ai_profile_total provider o Hv) as [p' Hb].
    rewrite Hb. destruct (build_ai_profile_inv _ _ _ Hb) as (_ & Hd & Hl').
    f_equal. rewrite Hp. destruct p' as [d a]. simpl in *. subst d. f_equal.
    apply map_eq. intros k. by rewrite Hl', Hl.
Qed.

Lemma first_tier_spec chain m p :
  first_tier chain m = Some p
  <-> exists pre t post, chain = pre ++ t :: post /\ m !! TierName_as_str t = Some p
       /\ Forall (fun t' => m !! TierName_as_str t' = None) pre.
Proof.
  split.
  - induction chain as [|t chain IH]; simpl; [done|].
    destruct (m !! TierName_as_str t) eqn:E.
    + intros [= <-]. by exists [], t, chain.
    + intros Hf. destruct (IH Hf) as (pre & t' & post & -> & H1 & H2).
      exists (t :: pre), t', post. auto.
  - intros (pre & t & post & -> & Ht & Hpre). induction Hpre as [|t' pre Ht' _ IH]; simpl.
    + by rewrite Ht.
    + by rewrite Ht'.
Qed.

Lemma default_tier_present provider t :
  is_Some (assoc_get provider TIER_DEFAULTS) ->
  is_Some (insert_tier_defaults provider ∅ !! TierName_as_str t).
Proof.
  unfold insert_tier_defaults. intros [entries He].
  assert (forallb (fun p => forallb (fun t => negb (bool_decide
    (assoc_get (TierName_as_str t) p.2 = None))) [Small; Medium; Large]) TIER_DEFAULTS = true)
    as Hall by by_compute.
  rewrite He. apply assoc_get_Some_In in He. rewrite forallb_forall in Hall.
  specialize (Hall _ He). rewrite forallb_forall in Hall. cbn [snd] in Hall.
  assert (forall t, exists me, assoc_get (TierName_as_str t) entries = Some me) as Hget.
  { intros t'. assert (In t' [Small; Medium; Large]) as Hin by (destruct t'; simpl; auto).
    specialize (Hall t' Hin). apply negb_true_iff, bool_decide_eq_false in Hall.
    destruct (assoc_get _ entries); [eauto|done]. }
  destruct (Hget Small) as [[m1 e1] H1], (Hget Medium) as [[m2 e2] H2], (Hget Large) as [[m3 e3] H3].
  cbn [foldl]. rewrite H1, H2, H3.
  destruct t; rewrite ?lookup_insert_eq, ?lookup_insert_ne by done; by eexists.
Qed.

(** Under a provider with bundled defaults every tier resolves, to the
    preset of the tier itself, whatever the configuration files add. *)
Theorem tiers_resolve provider o p t :
  is_Some (assoc_get provider TIER_DEFAULTS) ->
  build_ai_profile provider o = Ok p ->
  exists preset, resolve_model_spec p (TierName_as_str t) = Ok (Preset preset)
    /\ aliases p !! TierName_as_str t = Some preset.
Proof.
  intros Hp Hb. destruct (build_ai_profile_inv _ _ _ Hb) as (_ & _ & Hl).
  assert (is_Some (aliases p !! TierName_as_str t)) as [preset Hs].
  { rewrite Hl. unfold layered. destruct (default_tier_present provider t Hp) as [x Hx].
    repeat case_match; eauto. }
  exists preset. split; [|done]. unfold resolve_model_spec. rewrite tier_try_from_as_str.
  assert (exists chain, tier_fallback_chain t = t :: chain) as [chain ->] by (destruct t; eauto).
  simpl. by rewrite Hs.
Qed.
End Layering.

(** Resolving a reference does not depend on the order the hash map of the
    aliases is iterated in, its error messages included. *)
Theorem resolve_model_spec_deterministic (o1 o2 : HashMapOrder) p r :
  @resolve_model_spec o1 p r = @resolve_model_spec o2 p r.
Proof.
  unfold resolve_model_spec. destruct (TierName_try_from_str r); [done|].
  destruct (starts_with (lit "@") r); [|done]. destruct (aliases p !! r); [done|].
  assert (map fst (@hm_iter o1 _ (aliases p)) ≡ₚ map fst (@hm_iter o2 _ (aliases p))) as Hp.
  { apply Permutation_map. by rewrite !hm_iter_perm. }
  rewrite (sort_strings_perm _ _ Hp).
  assert (is_empty (map fst (@hm_iter o1 _ (aliases p)))
          = is_empty (map fst (@hm_iter o2 _ (aliases p)))) as ->; [|done].
  apply Permutation_length in Hp.
  by destruct (map fst (@hm_iter o1 _ _)), (map fst (@hm_iter o2 _ _)).
Qed.

Definition sample_options : BuildAiProfileOptions :=
  mk_BuildAiProfileOptions None
    (Some {[ lit "small" := mk_RawAliasEntry (lit "codex") (lit "mini") None None ]}) None None.

Lemma tiers_resolve_witness :
  exists p preset, build_ai_profile (lit "claude") sample_options = Ok p
    /\ resolve_model_spec p (TierName_as_str Small) = Ok (Preset preset)
    /\ aliases p !! TierName_as_str Small = Some preset.
Proof.
  destruct (build_ai_profile (lit "claude") sample_options) as [p|] eqn:Hb.
  2:{ exfalso. revert Hb. vm_compute. discriminate. }
  destruct (tiers_resolve (lit "claude") sample_options p Small) as (preset & H1 & H2);
    [by eexists|exact Hb|].
  exists p, preset. split_and!; [reflexivity|exact H1|exact H2].
Defined.
