(* ===== verification/DagRun.v ===== *)
(** * Running a workflow

    [execute_dag_workflow] of [dag_executor.rs], lines 3591 to 4952: the resume
    path, the gates of a node, the arms of its dispatch, the retry loop, the
    collection of a layer's results, the status checks between layers and the
    completion of the run.

    Every step is a computation of the monad [M]: the list of the effects it has
    on the outside, in order, and its result, or a panic.  What the outside
    answers (the store, the providers, the node executors) are the operations of
    the classes [NodeExecutors] and [RunEnv].  The tasks of a layer run
    concurrently; each reads the snapshot of the earlier layers only, so that the
    list of a layer's effects is one interleaving of the effects of its tasks. *)

From S2P Require Import Prelude Float64 Json StdModel Regex DagNode Workflow OutputRef Condition.
From S2P Require Import ExecutorShared DagCore.
From Stdlib Require Import Floats.SpecFloat.

(** ** Effects *)

Record UpsertNodeSessionParams : Type := mk_UpsertNodeSessionParams {
  up_workflow_name : str; up_node_id : str; up_scope_key : str; up_provider : str;
  up_provider_session_id : str; up_last_run_id : option str;
}.
Record DeleteSessionsFilter : Type := mk_DeleteSessionsFilter {
  del_workflow_name : str; del_scope_key : option str; del_node_id : option str;
  del_provider : option str;
}.
Record WorkflowNodeSessionKey : Type := mk_WorkflowNodeSessionKey {
  key_workflow_name : str; key_node_id : str; key_scope_key : str; key_provider : str;
}.

Record NodeCounts : Type := mk_NodeCounts {
  completed : nat; failed : nat; skipped : nat; total : nat;
}.

(** The arguments of [WorkflowEventEmitter::emit] that vary. *)
Record bus_event : Type := mk_bus_event {
  ev_type : str;
  ev_node_id : option str;
  ev_node_name : option str;
  ev_reason : option str;
  ev_error : option str;
  ev_duration : option N;
  ev_workflow_name : option str;
}.

Inductive effect : Type :=
| StoreEvent (event : str) (step_name : option str) (data : object)
| BusEvent (e : bus_event)
| SendMessage (text : str) (node_name : option str)
| CancelRun
| FailRun (message : str)
| CompleteRun (metadata : object)
| UpsertSession (p : UpsertNodeSessionParams)
| DeleteSessions (f : DeleteSessionsFilter)
| WriteArtifact (node_id output_type : str)
| UnregisterRun
| Telemetry (outcome : str) (counts : NodeCounts)
| Sleep (ms : N)
| OtherEffect (n : nat).

Definition M (A : Type) : Type := list effect * outcome A.

#[export] Instance M_ret : MRet M := fun A a => ([], Ret a).
#[export] Instance M_bind : MBind M := fun A B f m =>
  match m with
  | (e, Ret a) => (e ++ fst (f a), snd (f a))
  | (e, Panic) => (e, Panic)
  end.
#[export] Instance M_fmap : FMap M := fun A B f m =>
  match m with
  | (e, Ret a) => (e, Ret (f a))
  | (e, Panic) => (e, Panic)
  end.
Definition emit (e : effect) : M unit := ([e], Ret tt).
Definition lift {A} (o : outcome A) : M A := ([], o).

(** ** What the run calls

    The effects of an executor of its own are numbers: only this function, of all
    of the file, completes or fails a run. *)
Definition Ext (A : Type) : Type := list nat * outcome A.
Definition ext {A} (m : Ext A) : M A := (map OtherEffect (fst m), snd m).

Inductive ExecState : Type := Exec_Completed_ | Exec_Failed_.

Record NodeExecutionResult : Type := mk_NodeExecutionResult {
  er_state : ExecState;
  er_output : str;
  er_structured_output : option value;
  er_session_id : option str;
  er_error : option str;
  er_cost_usd : option f64;
  er_declared_fields : option (list str);
}.

(** The arguments of the run that do not change. *)
Record RunParams : Type := mk_RunParams {
  rp_workflow_name : str;
  rp_run : WorkflowRun;
  rp_persist_sessions : bool;
  rp_prior_completed_nodes : gmap str str;
}.

(** The executors of the node types, each given the node and the outputs it may
    refer to; the resolution of a provider; the capabilities of a provider. *)
Class NodeExecutors (options : Type) : Type := {
  execute_bash_node : BashNode -> gmap str NodeOutput -> Ext NodeOutput;
  execute_script_node : ScriptNode -> gmap str NodeOutput -> Ext NodeOutput;
  execute_approval_node : ApprovalNode -> gmap str NodeOutput -> Ext NodeOutput;
  execute_loop_node : LoopNode -> str -> options -> gmap str NodeOutput -> Ext NodeExecutionResult;
  (** The attempt number stands for what the outside answers at that attempt. *)
  execute_node_internal : DagNode -> str -> options -> gmap str NodeOutput -> option str -> N ->
    Ext NodeExecutionResult;
  resolve_node_provider_and_model : DagNode -> Ext (result str (str * options));
  session_resume : str -> bool;
}.

(** What the store answers; a status read is numbered by its place in the run. *)
Class RunEnv : Type := {
  get_workflow_node_session : WorkflowNodeSessionKey -> result str (option str);
  upsert_workflow_node_session : UpsertNodeSessionParams -> result str unit;
  delete_workflow_node_sessions : DeleteSessionsFilter -> result str unit;
  get_workflow_run_status : nat -> result str (option WorkflowRunStatus);
  run_duration_ms : N;
}.

(** [get_node_name]. *)
Definition get_node_name (node : DagNode) : option str :=
  match node with
  | Command n => Some (command n)
  | Bash n => Some (bash n)
  | Script n => Some (lit "script:" ++ script n)
  | _ => None
  end.

Definition workflow_run_status_str (s : WorkflowRunStatus) : str :=
  match s with
  | Run_Running => lit "running"
  | Run_Paused => lit "paused"
  | Run_Completed => lit "completed"
  | Run_Failed => lit "failed"
  | Run_Cancelled => lit "cancelled"
  | Run_Pending => lit "pending"
  end.

(** The event type a name stands for, by its own name; an unknown one counts as
    [node_skipped]. *)
Definition event_types : list str :=
  [lit "workflow_started"; lit "workflow_completed"; lit "workflow_failed";
   lit "workflow_cancelled"; lit "node_started"; lit "node_completed"; lit "node_failed";
   lit "node_skipped"; lit "node_session_resumed"; lit "node_always_run_reset"].
Definition event_type (name : str) : str :=
  if existsb (str_eqb name) event_types then name else lit "node_skipped".

(** ** The delay before a retry *)

(** [2u64.pow(attempt)], with overflow checks. *)
Definition pow2_u64 (attempt : N) : outcome N :=
  if (attempt <? 64)%N then Ret (2 ^ attempt)%N else Panic.

(** [(delay_ms as f64 / 1000.0).round() as u64]. *)
Definition f64_div (x y : f64) : f64 := SFdiv prec emax x y.
Definition f64_round_u64 (x : f64) : N :=
  match x with
  | S754_finite false m (Zneg p) => ((N.shiftr (Npos m) (Npos p - 1) + 1) / 2)%N
  | _ => f64_to_u64 x
  end.
Definition delay_seconds (delay : N) : N :=
  f64_round_u64 (f64_div (f64_of_Z (Z.of_N delay)) (f64_of_Z 1000)).

Definition completed_output (out : str) : NodeOutput := Completed out None None None.

Section Run.
Context `{RegexEngine} `{SerdeJson} `{UnicodeCase} `{HashMapOrder}.
Context {options : Type} `{NodeExecutors options} `{RunEnv}.
Variable params : RunParams.

Let workflow_name := rp_workflow_name params.
Let prior := rp_prior_completed_nodes params.

(** [emit_workflow_event] with an object of data. *)
Definition emit_workflow_event (event node_id : str) (data : object) : M unit :=
  emit (StoreEvent (event_type event) (Some node_id) data).
Definition send_message (text : str) (node_name : option str) : M unit :=
  emit (SendMessage text node_name).

(** A node that is skipped: the event row, the bus event, the output. *)
Definition skip_node (nid nname reason : str) (data : object) (wf : option str) : M NodeOutput :=
  _ ← emit_workflow_event (lit "node_skipped") nid ((lit "reason", String reason) :: data);
  _ ← emit (BusEvent (mk_bus_event (lit "node_skipped") (Some nid) (Some nname) (Some reason)
                        None None wf));
  mret (Skipped []).

(** Step 0: a node that a former run completed.  [Some] output ends the task. *)
Definition check_prior (node : DagNode) : M (option NodeOutput) :=
  let nid := node_id node in
  let nname := default nid (get_node_name node) in
  match prior !! nid with
  | None => mret None
  | Some prior_output =>
      if bool_decide (always_run (base node) = Some true) then
        _ ← emit_workflow_event (lit "node_always_run_reset") nid
              [(lit "prior_output", String prior_output)];
        mret None
      else
        _ ← skip_node nid nname (lit "prior_success") [(lit "node_output", String prior_output)]
              (Some workflow_name);
        mret (Some (completed_output prior_output))
  end.

(** The outputs the node sees: the snapshot, and its own prior output. *)
Definition all_outputs (node : DagNode) (snapshot : gmap str NodeOutput) : gmap str NodeOutput :=
  let nid := node_id node in
  match prior !! nid with
  | Some po =>
      match snapshot !! nid with
      | Some _ => snapshot
      | None => <[nid := completed_output po]> snapshot
      end
  | None => snapshot
  end.

(** Step 1: the trigger rule. *)
Definition check_trigger (node : DagNode) (outs : gmap str NodeOutput) : M (option NodeOutput) :=
  let nid := node_id node in
  let nname := default nid (get_node_name node) in
  match check_trigger_rule node outs with
  | Trigger_Skip => Some <$> skip_node nid nname (lit "trigger_rule") [] (Some workflow_name)
  | Trigger_Run => mret None
  end.

(** Step 2: the [when:] condition. *)
Definition check_when (node : DagNode) (outs : gmap str NodeOutput) : M (option NodeOutput) :=
  let nid := node_id node in
  let nname := default nid (get_node_name node) in
  match base_when (base node) with
  | None => mret None
  | Some when_expr =>
      let skip (reason : str) :=
        Some <$> skip_node nid nname reason [(lit "expr", String when_expr)] (Some workflow_name) in
      match evaluate_condition when_expr outs with
      | Err _ => skip (lit "when_condition_parse_error")
      | Ok r =>
          if negb (ev_parsed r) then skip (lit "when_condition_parse_error")
          else if negb (ev_result r) then skip (lit "when_condition")
          else mret None
      end
  end.

(** The cancel arm. *)
Definition run_cancel_node (n : CancelNode) (nid : str) (outs : gmap str NodeOutput)
  : M NodeOutput :=
  let reason :=
    fst (substitute_node_output_refs (fun _ _ => false) (cancel n) outs false None) in
  _ ← send_message (lit "❌ **Workflow cancelled** (node `" ++ nid ++ lit "`): " ++ reason)
        (Some nid);
  _ ← emit_workflow_event (lit "workflow_cancelled") nid [(lit "reason", String reason)];
  _ ← emit CancelRun;
  _ ← emit (BusEvent (mk_bus_event (lit "workflow_cancelled") (Some nid) None (Some reason)
                        None None None));
  mret (completed_output reason).

(** A node that fails before its execution. *)
Definition fail_before_execution (nid name err : str) : M NodeOutput :=
  _ ← emit_workflow_event (lit "node_failed") nid [(lit "error", String err)];
  _ ← emit (BusEvent (mk_bus_event (lit "node_failed") (Some nid) (Some name) None (Some err)
                        None None));
  _ ← send_message (lit "Node '" ++ nid ++ lit "' failed before execution: " ++ err) (Some nid);
  mret (Failed [] None err None None).

(** [NodeExecutionResult] as a [NodeOutput]. *)
Definition output_of_result (r : NodeExecutionResult) : NodeOutput :=
  match er_state r with
  | Exec_Completed_ =>
      Completed (er_output r) (er_session_id r) (er_structured_output r) (er_declared_fields r)
  | Exec_Failed_ =>
      Failed (er_output r) (er_session_id r) (default [] (er_error r)) (er_structured_output r)
        (er_declared_fields r)
  end.

(** Whether a failed attempt is tried again, the limit aside. *)
Definition should_retry (cfg : RetryConfig) (r : NodeExecutionResult) : bool :=
  let is_fatal :=
    match er_error r with Some e => bool_decide (classify_error e = Fatal_) | None => false end in
  let is_transient :=
    match er_error r with Some e => is_transient_node_error e | None => false end in
  negb is_fatal
  && (match retry_on_error cfg with OnError_All => true | OnError_Transient => is_transient end).

(** The [for attempt in 0..=max_retries] loop; [left] is what is left of the
    range after this attempt. *)
Fixpoint retry_loop (nid : str) (cfg : RetryConfig) (exec : N -> Ext NodeExecutionResult)
    (left : nat) (attempt : N) : M NodeExecutionResult :=
  r ← ext (exec attempt);
  match er_state r with
  | Exec_Completed_ => mret r
  | Exec_Failed_ =>
      if negb (should_retry cfg r) || (max_retries cfg <=? attempt)%N then mret r
      else
        pow ← lift (pow2_u64 attempt);
        let delay := u64_saturating_mul (retry_delay_ms cfg) pow in
        let is_transient :=
          match er_error r with Some e => is_transient_node_error e | None => false end in
        let error_kind := if is_transient then lit "transient error" else lit "error" in
        _ ← send_message
              (lit "⚠️ Node `" ++ nid ++ lit "` failed with " ++ error_kind ++ lit " (attempt "
               ++ show_N (attempt + 1) ++ lit "/" ++ show_N (max_retries cfg + 1)
               ++ lit "). Retrying in " ++ show_N (delay_seconds delay) ++ lit "s...")
              (Some nid);
        _ ← emit (Sleep delay);
        match left with
        | O => mret r
        | S left' => retry_loop nid cfg exec left' (attempt + 1)%N
        end
  end.

(** [persist_scope_key]. *)
Definition persist_scope_key : option str :=
  let c := conversation_id (rp_run params) in
  if negb (is_empty c) then Some c else None.

(** The session to resume, looked up in the store. *)
Definition lookup_session (nid provider : str) (resume : option str) : M (option str) :=
  match persist_scope_key with
  | None => mret resume
  | Some scope_key =>
      match get_workflow_node_session
              (mk_WorkflowNodeSessionKey workflow_name nid scope_key provider) with
      | Ok (Some sid) =>
          preview ← lift (byte_prefix (Nat.min 8 (byte_len sid)) sid);
          _ ← emit_workflow_event (lit "node_session_resumed") nid
                [(lit "provider", String provider); (lit "scope_key", String scope_key);
                 (lit "provider_session_id_preview", String (preview ++ lit "…"))];
          mret (Some sid)
      | Ok None => mret resume
      | Err _ =>
          _ ← send_message
                (lit "⚠️ Could not load the persisted session for node `" ++ nid
                 ++ lit "` — it will run without prior context. Session continuity may be broken; if this recurs, check server logs or run `/workflow reset-sessions "
                 ++ workflow_name ++ lit "`.") (Some nid);
          mret resume
      end
  end.

(** Step 4: what is kept of the session of a completed node. *)
Definition persist_result (nid provider : str) (r : NodeExecutionResult) : M unit :=
  let warn_user :=
    send_message (lit "⚠️ Could not persist the session for node `" ++ nid ++ lit "` ("
      ++ provider ++ lit "). The next run will start this node fresh.") (Some nid) in
  match persist_scope_key, er_state r with
  | Some scope_key, Exec_Completed_ =>
      match er_session_id r with
      | Some sid =>
          let p := mk_UpsertNodeSessionParams workflow_name nid scope_key provider sid
                     (Some (run_id (rp_run params))) in
          _ ← emit (UpsertSession p);
          match upsert_workflow_node_session p with Ok _ => mret tt | Err _ => warn_user end
      | None =>
          let f := mk_DeleteSessionsFilter workflow_name (Some scope_key) (Some nid)
                     (Some provider) in
          _ ← emit (DeleteSessions f);
          match delete_workflow_node_sessions f with Ok _ => mret tt | Err _ => warn_user end
      end
  | _, _ => mret tt
  end.

(** The context of a node asks for a fresh session. *)
Definition bypasses_persistence (node : DagNode) : bool :=
  match base_context (base node) with Some Fresh => true | _ => false end.

(** The arm of the command and prompt nodes. *)
Definition run_ai_node (node : DagNode) (outs : gmap str NodeOutput) (is_parallel : bool)
    (resume_session : option str) : M (NodeOutput * option f64) :=
  let nid := node_id node in
  let cmd_or_id := match node with Command c => command c | _ => nid end in
  resolved ← ext (resolve_node_provider_and_model node);
  match resolved with
  | Err err => out ← fail_before_execution nid cmd_or_id err; mret (out, None)
  | Ok (provider, opts) =>
      let fresh := bypasses_persistence node in
      let resume := if is_parallel || fresh then None else resume_session in
      let persist :=
        default (rp_persist_sessions params) (persist_session (base node)) && negb fresh in
      if persist && negb (session_resume provider) then
        out ← fail_before_execution nid cmd_or_id
                (lit "Node '" ++ nid ++ lit "' has persist_session: true but resolved provider '"
                 ++ provider ++ lit "' does not support sessionResume. Remove persist_session, or use a provider with sessionResume capability.");
        mret (out, None)
      else
        resume ← (if persist then lookup_session nid provider resume else mret resume);
        let cfg := get_effective_node_retry_config node in
        r ← retry_loop nid cfg
              (fun attempt => execute_node_internal node provider opts outs resume attempt)
              (N.to_nat (max_retries cfg)) 0;
        _ ← (if persist then persist_result nid provider r else mret tt);
        mret (output_of_result r, er_cost_usd r)
  end.

(** The arm of the loop nodes. *)
Definition run_loop_node (node : DagNode) (n : LoopNode) (outs : gmap str NodeOutput)
  : M (NodeOutput * option f64) :=
  let nid := node_id node in
  resolved ← ext (resolve_node_provider_and_model node);
  match resolved with
  | Err err => out ← fail_before_execution nid nid err; mret (out, None)
  | Ok (provider, opts) =>
      r ← ext (execute_loop_node n provider opts outs);
      mret (output_of_result r, er_cost_usd r)
  end.

(** Step 3: the dispatch. *)
Definition dispatch (node : DagNode) (outs : gmap str NodeOutput) (is_parallel : bool)
    (resume_session : option str) : M (NodeOutput * option f64) :=
  match node with
  | Bash n => out ← ext (execute_bash_node n outs); mret (out, None)
  | Script n => out ← ext (execute_script_node n outs); mret (out, None)
  | Approval n => out ← ext (execute_approval_node n outs); mret (out, None)
  | Cancel n => out ← run_cancel_node n (node_id node) outs; mret (out, None)
  | Command _ | Prompt _ => run_ai_node node outs is_parallel resume_session
  | Loop n => run_loop_node node n outs
  end.

(** The task of a node. *)
Definition run_node (snapshot : gmap str NodeOutput) (is_parallel : bool)
    (resume_session : option str) (node : DagNode) : M (NodeOutput * option f64) :=
  prior_out ← check_prior node;
  match prior_out with
  | Some out => mret (out, None)
  | None =>
      let outs := all_outputs node snapshot in
      trigger_out ← check_trigger node outs;
      match trigger_out with
      | Some out => mret (out, None)
      | None =>
          when_out ← check_when node outs;
          match when_out with
          | Some out => mret (out, None)
          | None => dispatch node outs is_parallel resume_session
          end
      end
  end.

(** ** The resume path *)

Definition prepopulate_entry (always_run_ids : list str) (acc : gmap str NodeOutput)
    (entry : str * str) : M (gmap str NodeOutput) :=
  let '(nid, out) := entry in
  if existsb (str_eqb nid) always_run_ids then
    _ ← emit_workflow_event (lit "node_always_run_reset") nid [(lit "prior_output", String out)];
    _ ← emit (BusEvent (mk_bus_event (lit "node_always_run_reset") (Some nid) None None None None
                          (Some workflow_name)));
    mret acc
  else mret (<[nid := completed_output out]> acc).

Fixpoint prepopulate_entries (always_run_ids : list str) (entries : list (str * str))
    (acc : gmap str NodeOutput) : M (gmap str NodeOutput) :=
  match entries with
  | [] => mret acc
  | e :: rest =>
      acc ← prepopulate_entry always_run_ids acc e;
      prepopulate_entries always_run_ids rest acc
  end.

Definition always_run_ids (nodes : list DagNode) : list str :=
  map node_id
    (List.filter (fun n => bool_decide (always_run (base n) = Some true)) nodes).

Definition prepopulate (nodes : list DagNode) : M (gmap str NodeOutput) :=
  prepopulate_entries (always_run_ids nodes) (hm_iter prior) ∅.

(** ** A layer *)

Record RunState : Type := mk_RunState {
  st_outputs : gmap str NodeOutput;
  st_session : option str;
  st_cost : f64;
}.

Definition output_type_of (nodes : list DagNode) (nid : str) : option str :=
  n ← find_node nodes nid; output_type (base n).

(** One finished task: a panicked one leaves the state as it is. *)
Definition collect_result (nodes : list DagNode) (is_parallel : bool) (st : RunState)
    (nid : str) (r : outcome (NodeOutput * option f64)) : M RunState :=
  match r with
  | Panic => mret st
  | Ret (out, node_cost) =>
      let cost :=
        match node_cost with Some c => f64_add (st_cost st) c | None => st_cost st end in
      _ ← match output_type_of nodes nid with
          | Some t => emit (WriteArtifact nid t)
          | None => mret tt
          end;
      let session :=
        if is_parallel then st_session st
        else match out with
             | Completed _ (Some sid) _ _ => Some sid
             | _ => st_session st
             end in
      mret (mk_RunState (<[nid := out]> (st_outputs st)) session cost)
  end.

Fixpoint collect_results (nodes : list DagNode) (is_parallel : bool) (st : RunState)
    (results : list (str * outcome (NodeOutput * option f64))) : M RunState :=
  match results with
  | [] => mret st
  | (nid, r) :: rest =>
      st ← collect_result nodes is_parallel st nid r;
      collect_results nodes is_parallel st rest
  end.

(** The tasks of a layer, then their results in order. *)
Definition run_layer (nodes : list DagNode) (st : RunState) (layer : list DagNode) : M RunState :=
  let is_parallel := Nat.ltb 1 (length layer) in
  let session := if is_parallel then None else st_session st in
  let st := mk_RunState (st_outputs st) session (st_cost st) in
  let tasks := map (fun n => (node_id n, run_node (st_outputs st) is_parallel session n)) layer in
  _ ← (flat_map (fun t => fst (snd t)) tasks, Ret tt);
  collect_results nodes is_parallel st (map (fun t => (fst t, snd (snd t))) tasks).

(** The status check after a layer: [true] when the run stops there. *)
Definition check_between_layers (idx n_layers : nat) : M bool :=
  let stopped (what : str) :=
    send_message (lit "⚠️ **Workflow stopped** (" ++ what ++ lit "): DAG execution stopped after layer "
      ++ show_nat (idx + 1) ++ lit "/" ++ show_nat n_layers) None in
  match get_workflow_run_status idx with
  | Ok (Some status) =>
      if bool_decide (status <> Run_Running) then
        if bool_decide (status <> Run_Paused) then
          _ ← stopped (workflow_run_status_str status);
          _ ← emit UnregisterRun;
          mret true
        else mret true
      else mret false
  | Ok None =>
      _ ← stopped (lit "deleted");
      _ ← emit UnregisterRun;
      mret true
  | Err _ => mret false
  end.

(** The layers, from index [idx] on; [None] when the run stopped between two. *)
Fixpoint run_layers (nodes : list DagNode) (n_layers idx : nat) (st : RunState)
    (layers : list (list DagNode)) : M (option RunState) :=
  match layers with
  | [] => mret (Some st)
  | layer :: rest =>
      st ← run_layer nodes st layer;
      stop ← check_between_layers idx n_layers;
      if (stop : bool) then mret None else run_layers nodes n_layers (S idx) st rest
  end.

(** ** Completion *)

(** [skip_if_status_changed], at the read after those of the layers. *)
Definition skip_if_status_changed (idx : nat) : M bool :=
  match get_workflow_run_status idx with
  | Ok (Some status) =>
      if bool_decide (status <> Run_Running) then
        if bool_decide (status <> Run_Paused) then _ ← emit UnregisterRun; mret true
        else mret true
      else mret false
  | Ok None => _ ← emit UnregisterRun; mret true
  | Err _ => mret false
  end.

Definition count_state (s : NodeState) (outs : list NodeOutput) : nat :=
  length (List.filter (fun o => state_eqb (state o) s) outs).
Definition count_nodes (nodes : list DagNode) (outs : gmap str NodeOutput) : NodeCounts :=
  let values := map snd (hm_iter outs) in
  mk_NodeCounts (count_state State_Completed values) (count_state State_Failed values)
    (count_state State_Skipped values) (length nodes).

Definition failed_entries (outs : gmap str NodeOutput) : list (str * NodeOutput) :=
  List.filter (fun e => state_eqb (state (snd e)) State_Failed) (hm_iter outs).

Definition no_success_message (counts : NodeCounts) (outs : gmap str NodeOutput) : str :=
  let failed_nodes := map fst (failed_entries outs) in
  if negb (is_empty failed_nodes) then
    let plural := if Nat.ltb 1 (length failed_nodes) then lit "s" else [] in
    lit "DAG workflow '" ++ workflow_name ++ lit "' failed: node" ++ plural ++ lit " "
    ++ join (lit ", ") failed_nodes ++ lit " failed. " ++ show_nat (skipped counts)
    ++ lit " downstream nodes were skipped."
  else
    lit "DAG workflow '" ++ workflow_name
    ++ lit "' completed with no successful nodes. Check node conditions, trigger rules, and upstream failures.".

Definition failures_message (outs : gmap str NodeOutput) : str :=
  let detail (e : str * NodeOutput) :=
    match snd e with
    | Failed _ _ error _ _ => lit "'" ++ fst e ++ lit "': " ++ error
    | _ => lit "'" ++ fst e ++ lit "': unknown"
    end in
  lit "DAG workflow '" ++ workflow_name ++ lit "' completed with failures: "
  ++ join (lit "; ") (map detail (failed_entries outs)).

(** The run fails with a message. *)
Definition fail_run (counts : NodeCounts) (fail_msg : str) : M (option str) :=
  _ ← emit (Telemetry (lit "failed") counts);
  _ ← emit (FailRun fail_msg);
  _ ← emit (BusEvent (mk_bus_event (lit "workflow_failed") None (Some workflow_name) None
                        (Some fail_msg) None (Some workflow_name)));
  _ ← emit UnregisterRun;
  _ ← send_message (lit "❌ " ++ fail_msg) None;
  mret None.

Definition json_nat (n : nat) : value := Number (PosInt (N.of_nat n)).
Definition json_f64 (x : f64) : value := if f64_is_finite x then Number (Float x) else Null.

Definition run_metadata (counts : NodeCounts) (cost : f64) : object :=
  [(lit "node_counts",
    Object [(lit "completed", json_nat (completed counts)); (lit "failed", json_nat (failed counts));
            (lit "skipped", json_nat (skipped counts)); (lit "total", json_nat (total counts))])]
  ++ (if f64_ltb f64_zero cost then [(lit "total_cost_usd", json_f64 cost)] else []).

(** The output of the first node without dependents that has one. *)
Definition terminal_output (nodes : list DagNode) (outs : gmap str NodeOutput) : option str :=
  let all_deps := flat_map depends_on nodes in
  let terminal := List.filter (fun n => negb (existsb (str_eqb (node_id n)) all_deps)) nodes in
  let text (n : DagNode) :=
    match outs !! node_id n with
    | Some (Completed out _ _ _) => if negb (is_empty (trim out)) then Some out else None
    | _ => None
    end in
  head (omap text terminal).

Definition complete_run (nodes : list DagNode) (st : RunState) (counts : NodeCounts)
  : M (option str) :=
  _ ← emit (CompleteRun (run_metadata counts (st_cost st)));
  _ ← emit (BusEvent (mk_bus_event (lit "workflow_completed") None (Some workflow_name) None None
                        (Some run_duration_ms) (Some workflow_name)));
  _ ← emit (Telemetry (lit "completed") counts);
  _ ← emit (StoreEvent (lit "workflow_completed") None
              [(lit "duration_ms", Number (PosInt run_duration_ms))]);
  _ ← emit UnregisterRun;
  mret (terminal_output nodes (st_outputs st)).

(** The end of the run, after the layers; each of its three cases starts with
    the status check. *)
Definition finish_run (nodes : list DagNode) (n_layers : nat) (st : RunState) : M (option str) :=
  let counts := count_nodes nodes (st_outputs st) in
  let any_completed := Nat.ltb 0 (completed counts) in
  let any_failed := Nat.ltb 0 (failed counts) in
  changed ← skip_if_status_changed n_layers;
  if (changed : bool) then mret None
  else if negb any_completed then fail_run counts (no_success_message counts (st_outputs st))
  else if any_failed then fail_run counts (failures_message (st_outputs st))
  else complete_run nodes st counts.

Definition execute_dag_workflow (nodes : list DagNode) : M (option str) :=
  layers ← lift (build_topological_layers nodes);
  outs ← prepopulate nodes;
  st ← run_layers nodes (length layers) 0 (mk_RunState outs None f64_zero) layers;
  match st with
  | None => mret None
  | Some st => finish_run nodes (length layers) st
  end.
End Run.
