(* ===== verification/RunTheorems.v ===== *)
(** * What a run guarantees

    The theorems about [DagRun]: the gates of a node, the retry loop, the resume
    path, the threading of sessions, the stop between layers and the outcome of
    the run; and the instances of its classes on which theorems are applied. *)
From S2P Require Import Prelude Float64 Json StdModel Regex DagNode Workflow OutputRef Condition.
From S2P Require Import ExecutorShared DagCore TopoLayers DagRun.

(** ** Computations *)

Lemma bind_Ret {A B} (m : M A) (f : A -> M B) a :
  snd m = Ret a -> snd (m ≫= f) = snd (f a) /\ fst (m ≫= f) = fst m ++ fst (f a).
Proof. destruct m as [e r]. simpl. by intros ->. Qed.

Lemma bind_Panic {A B} (m : M A) (f : A -> M B) :
  snd m = Panic -> snd (m ≫= f) = Panic /\ fst (m ≫= f) = fst m.
Proof. destruct m as [e r]. simpl. by intros ->. Qed.

(** A property of effects that every effect of a computation has. *)
Definition all_effects {A} (P : effect -> Prop) (m : M A) : Prop := Forall P (fst m).

Lemma all_ret {A} P (a : A) : all_effects P (mret a).
Proof. constructor. Qed.
Lemma all_emit (P : effect -> Prop) e : P e -> all_effects P (emit e).
Proof. intros He. by constructor. Qed.
Lemma all_lift {A} P (o : outcome A) : all_effects P (lift o).
Proof. constructor. Qed.
Lemma all_bind {A B} P (m : M A) (f : A -> M B) :
  all_effects P m -> (forall a, all_effects P (f a)) -> all_effects P (m ≫= f).
Proof.
  unfold all_effects. destruct m as [e [a|]]; simpl; [|done].
  intros He Hf. apply Forall_app. split; [done|apply Hf].
Qed.
Lemma all_fmap {A B} P (m : M A) (f : A -> B) : all_effects P m -> all_effects P (f <$> m).
Proof. by destruct m as [e [a|]]. Qed.

(** The effects that end the run in the store. *)
Definition is_final (e : effect) : bool :=
  match e with CompleteRun _ | FailRun _ => true | _ => false end.
Definition not_final (e : effect) : Prop := is_final e = false.

Lemma all_ext {A} (P : effect -> Prop) (m : Ext A) :
  (forall n, P (OtherEffect n)) -> all_effects P (ext m).
Proof. intros HP. apply Forall_map, Forall_forall. intros n _. apply HP. Qed.
Lemma all_impl {A} (P Q : effect -> Prop) (m : M A) :
  (forall e, P e -> Q e) -> all_effects P m -> all_effects Q m.
Proof. intros HPQ Hm. exact (Forall_impl P Q _ Hm HPQ). Qed.

(** The effects that write no session and do not end the run; those that only
    report. *)
Definition is_benign (e : effect) : bool :=
  match e with
  | OtherEffect _ | StoreEvent _ _ _ | BusEvent _ | SendMessage _ _ | Sleep _ => true
  | _ => false
  end.
Definition benign (e : effect) : Prop := is_benign e = true.
Definition is_report (e : effect) : bool :=
  match e with StoreEvent _ _ _ | BusEvent _ => true | _ => false end.
Definition report (e : effect) : Prop := is_report e = true.
Lemma benign_not_final e : benign e -> not_final e.
Proof. by destruct e. Qed.
Lemma report_benign e : report e -> benign e.
Proof. by destruct e. Qed.

Create HintDb run.
#[export] Hint Resolve all_ret all_lift all_bind all_fmap benign_not_final report_benign : run.
#[export] Hint Extern 1 (all_effects _ (emit _)) => (apply all_emit; reflexivity) : run.
#[export] Hint Extern 1 (all_effects _ (ext _)) => (apply all_ext; reflexivity) : run.
#[export] Hint Extern 2 (all_effects not_final _) =>
  (apply (all_impl benign); [exact benign_not_final|]) : run.
#[export] Hint Extern 2 (all_effects benign _) =>
  (apply (all_impl report); [exact report_benign|]) : run.

(** Computations by cases: binds, then whatever they branch on. *)
Ltac quiet :=
  repeat first
    [ progress intros
    | apply all_ret | apply all_lift | apply all_ext; reflexivity
    | apply all_emit; reflexivity
    | apply all_fmap
    | apply all_bind
    | case_match ].

Section Quiet.
Context `{RegexEngine} `{SerdeJson} `{UnicodeCase} `{HashMapOrder}.
Context {options : Type} `{NodeExecutors options} `{RunEnv}.
Variable params : RunParams.

Lemma skip_reports nid nname reason data wf :
  all_effects report (skip_node nid nname reason data wf).
Proof. unfold skip_node, emit_workflow_event. quiet. Qed.

Lemma check_prior_reports n : all_effects report (check_prior params n).
Proof. unfold check_prior, emit_workflow_event. quiet; apply skip_reports. Qed.
Lemma check_trigger_reports n outs : all_effects report (check_trigger params n outs).
Proof. unfold check_trigger. quiet; apply skip_reports. Qed.
Lemma check_when_reports n outs : all_effects report (check_when params n outs).
Proof. unfold check_when. quiet; apply skip_reports. Qed.

Lemma retry_benign nid cfg exec left attempt :
  all_effects benign (retry_loop nid cfg exec left attempt).
Proof.
  revert attempt; induction left as [|left IH]; intros attempt; cbn [retry_loop]; unfold send_message;
    [quiet|quiet; apply IH].
Qed.

Lemma lookup_benign nid provider resume :
  all_effects benign (lookup_session params nid provider resume).
Proof. unfold lookup_session, emit_workflow_event, send_message. quiet. Qed.

Lemma fail_before_benign nid name err :
  all_effects benign (fail_before_execution nid name err).
Proof. unfold fail_before_execution, emit_workflow_event, send_message. quiet. Qed.

Lemma persist_quiet nid provider r :
  all_effects not_final (persist_result params nid provider r).
Proof. unfold persist_result, send_message. quiet. Qed.

Hint Resolve check_prior_reports check_trigger_reports check_when_reports retry_benign
  lookup_benign fail_before_benign persist_quiet : run.

Lemma ai_quiet node outs par resume :
  all_effects not_final (run_ai_node params node outs par resume).
Proof. unfold run_ai_node. quiet; auto with run. Qed.

Lemma dispatch_quiet node outs par resume :
  all_effects not_final (dispatch params node outs par resume).
Proof.
  destruct node; cbn [dispatch]; try apply ai_quiet;
    unfold run_loop_node, run_cancel_node, emit_workflow_event, send_message;
    quiet; auto with run.
Qed.

Lemma node_quiet snapshot par resume node :
  all_effects not_final (run_node params snapshot par resume node).
Proof.
  unfold run_node. quiet; auto with run. apply dispatch_quiet.
Qed.

Lemma collect_quiet nodes par results : forall st,
  all_effects not_final (collect_results nodes par st results).
Proof.
  induction results as [|[nid r] results IH]; intros st; cbn [collect_results]; [apply all_ret|].
  apply all_bind; [|auto]. unfold collect_result. quiet.
Qed.

Lemma layer_quiet nodes st layer : all_effects not_final (run_layer params nodes st layer).
Proof.
  unfold run_layer. apply all_bind; [|intros; apply collect_quiet].
  apply Forall_flat_map. apply Forall_forall. intros t Ht.
  apply list_elem_of_fmap in Ht as (n & -> & _). apply node_quiet.
Qed.

Lemma layers_quiet nodes n_layers layers : forall idx st,
  all_effects not_final (run_layers params nodes n_layers idx st layers).
Proof.
  induction layers as [|layer layers IH]; intros idx st; cbn [run_layers]; [apply all_ret|].
  apply all_bind; [apply layer_quiet|]. intros st'.
  apply all_bind; [unfold check_between_layers, send_message; quiet|].
  intros []; [apply all_ret|apply IH].
Qed.

Lemma prepopulate_quiet nodes : all_effects not_final (prepopulate params nodes).
Proof.
  unfold prepopulate. generalize (∅ : gmap str NodeOutput) as acc.
  induction (hm_iter (rp_prior_completed_nodes params)) as [|[nid out] l IH]; intros acc;
    cbn [prepopulate_entries]; [apply all_ret|].
  apply all_bind; [|apply IH]. unfold prepopulate_entry, emit_workflow_event. quiet.
Qed.
End Quiet.
#[export] Hint Resolve skip_reports check_prior_reports check_trigger_reports check_when_reports
  retry_benign lookup_benign fail_before_benign persist_quiet : run.

(** ** Results

    A computation returns [a]. *)
Definition returns {A} (m : M A) (a : A) : Prop := snd m = Ret a.

Lemma returns_bind {A B} (m : M A) (f : A -> M B) a :
  returns m a -> snd (m ≫= f) = snd (f a).
Proof. apply bind_Ret. Qed.
Lemma bind_returned {A B} (m : M A) (f : A -> M B) a :
  returns m a -> m ≫= f = (fst m ++ fst (f a), snd (f a)).
Proof. destruct m as [e r]. unfold returns. simpl. by intros ->. Qed.
Lemma returns_bind_inv {A B} (m : M A) (f : A -> M B) b :
  returns (m ≫= f) b -> exists a, returns m a /\ returns (f a) b.
Proof. destruct m as [e [a|]]; [|done]. intros Hb. exists a. by split. Qed.
Lemma all_bind_returned {A B} P (m : M A) (f : A -> M B) :
  all_effects P m -> (forall a, returns m a -> all_effects P (f a)) -> all_effects P (m ≫= f).
Proof.
  unfold all_effects, returns. destruct m as [e [a|]]; simpl; [|done].
  intros He Hf. apply Forall_app. split; [done|by apply Hf].
Qed.
Lemma returns_fmap {A B} (m : M A) (f : A -> B) b :
  returns (f <$> m) b <-> exists a, returns m a /\ f a = b.
Proof.
  destruct m as [e [a|]]; cbn.
  - split; [intros [= <-]; by exists a|intros (a' & [= ->] & <-); done].
  - split; [done|intros (a' & [=] & _)].
Qed.

Lemma node_id_inj nodes m n :
  NoDup (map node_id nodes) -> m ∈ nodes -> n ∈ nodes -> node_id m = node_id n -> m = n.
Proof.
  intros Hnd Hm Hn Hid. pose proof (find_node_spec nodes m Hnd Hm) as E1.
  pose proof (find_node_spec nodes n Hnd Hn) as E2. rewrite Hid in E1. congruence.
Qed.

(** What a computation says to end the run with. *)
Definition finals {A} (m : M A) : list effect := List.filter is_final (fst m).

Lemma quiet_finals {A} (m : M A) : all_effects not_final m -> finals m = [].
Proof.
  unfold all_effects, finals. induction 1 as [|e l He _ IH]; [done|].
  simpl. by rewrite He.
Qed.
Lemma finals_bind {A B} (m : M A) (f : A -> M B) :
  all_effects not_final m ->
  finals (m ≫= f) = match snd m with Ret a => finals (f a) | Panic => [] end.
Proof.
  intros Hm. pose proof (quiet_finals m Hm) as Hq. unfold finals in *.
  destruct m as [e [a|]]; cbn in *; [|done]. by rewrite List.filter_app, Hq.
Qed.

Section Layers.
Context `{RegexEngine} `{SerdeJson} `{UnicodeCase} `{HashMapOrder}.
Context {options : Type} `{NodeExecutors options} `{RunEnv}.
Variable params : RunParams.

Let prior := rp_prior_completed_nodes params.

(** *** The resume path *)

Lemma prepopulate_entries_spec always l : forall acc,
  NoDup l.*1 ->
  exists outs, returns (prepopulate_entries params always l acc) outs
    /\ forall id, outs !! id =
         match list_to_map (M := gmap str str) l !! id with
         | Some po => if existsb (str_eqb id) always then acc !! id
                      else Some (completed_output po)
         | None => acc !! id
         end.
Proof.
  induction l as [|[k po] l IH]; intros acc Hnd.
  { exists acc. split; [done|]. intros id. by cbn; rewrite ?lookup_empty. }
  apply NoDup_cons in Hnd as [Hk Hnd].
  assert (exists acc', returns (prepopulate_entry params always acc (k, po)) acc'
    /\ acc' = if existsb (str_eqb k) always then acc else <[k := completed_output po]> acc)
    as (acc' & Hr & Hacc).
  { unfold prepopulate_entry. destruct (existsb _ _); eexists; (split; [reflexivity|done]). }
  destruct (IH acc' Hnd) as (outs & Ho & Hs). exists outs. split.
  { cbn [prepopulate_entries]. unfold returns. by rewrite (returns_bind _ _ _ Hr). }
  assert (list_to_map (M := gmap str str) l !! k = None) as Hn.
  { apply not_elem_of_list_to_map_1. exact Hk. }
  intros id. rewrite Hs. cbn [list_to_map foldr]. destruct (decide (id = k)) as [->|Hne].
  - cbn. rewrite lookup_insert_eq, Hn, Hacc.
    destruct (existsb _ _); [done|by rewrite lookup_insert_eq].
  - cbn. rewrite lookup_insert_ne by done. rewrite Hacc.
    destruct (existsb (str_eqb k) always); [done|]. by rewrite lookup_insert_ne.
Qed.

Lemma existsb_always nodes id :
  existsb (str_eqb id) (always_run_ids nodes) = true <-> id ∈ always_run_ids nodes.
Proof.
  rewrite existsb_exists. split.
  - intros (x & Hx & Hid). apply list_elem_of_In in Hx. by apply str_eqb_spec in Hid as ->.
  - intros Hid. exists id. split; [by apply list_elem_of_In|by apply str_eqb_spec].
Qed.

Lemma prepopulate_returns nodes :
  exists outs, returns (prepopulate params nodes) outs
    /\ forall id, outs !! id =
         match prior !! id with
         | Some po => if existsb (str_eqb id) (always_run_ids nodes) then None
                      else Some (completed_output po)
         | None => None
         end.
Proof.
  unfold prepopulate.
  destruct (prepopulate_entries_spec (always_run_ids nodes) (hm_iter prior) ∅)
    as (outs & Hr & Hs); [apply hm_iter_NoDup|].
  exists outs. split; [done|]. intros id. rewrite Hs, lookup_empty.
  replace (list_to_map (M := gmap str str) (hm_iter prior) !! id) with (prior !! id); [done|].
  rewrite (list_to_map_proper _ (map_to_list prior)); [|apply hm_iter_NoDup|apply hm_iter_perm].
  by rewrite list_to_map_to_list.
Qed.

(** *** A layer *)

(** What the collection does to the outputs: a task that returned replaces the
    entry of its node, a panicked one changes nothing. *)
Lemma collect_returns nodes par results : forall st,
  NoDup results.*1 ->
  exists st', returns (collect_results nodes par st results) st'
    /\ (forall id o c, (id, Ret (o, c)) ∈ results -> st_outputs st' !! id = Some o)
    /\ (forall id, (forall o c, (id, Ret (o, c)) ∉ results) ->
          st_outputs st' !! id = st_outputs st !! id).
Proof.
  induction results as [|[nid r] results IH]; intros st Hnd.
  { exists st. split; [done|]. split; [by intros id o c ?%elem_of_nil|done]. }
  apply NoDup_cons in Hnd as [Hnid Hnd].
  assert (exists st1, returns (collect_result nodes par st nid r) st1
    /\ st_outputs st1
       = match r with Ret (o, _) => <[nid := o]> (st_outputs st) | Panic => st_outputs st end)
    as (st1 & Hr & Ho).
  { unfold collect_result. destruct r as [[o c]|]; [|by eexists].
    destruct (output_type_of nodes nid); eexists; (split; [reflexivity|done]). }
  destruct (IH st1 Hnd) as (st' & Hr' & Hin & Hout). exists st'.
  assert (forall o c, (nid, Ret (o, c)) ∉ results) as Hno.
  { intros o c Hin'. apply Hnid. apply list_elem_of_fmap. by exists (nid, Ret (o, c)). }
  split; [cbn [collect_results]; unfold returns; by rewrite (returns_bind _ _ _ Hr)|].
  split.
  - intros id o c [[= <- <-]|Hi]%elem_of_cons; [|by eapply Hin].
    rewrite Hout by done. rewrite Ho. apply lookup_insert_eq.
  - intros id Hid. rewrite Hout; [|intros o c Hi; by eapply Hid, elem_of_cons; right].
    rewrite Ho. destruct r as [[o c]|]; [|done].
    apply lookup_insert_ne. intros ->. by eapply Hid, elem_of_cons; left.
Qed.

(** The session a layer starts with. *)
Definition layer_session (st : RunState) (layer : list DagNode) : option str :=
  if Nat.ltb 1 (length layer) then None else st_session st.
Definition layer_task (st : RunState) (layer : list DagNode) (n : DagNode)
  : outcome (NodeOutput * option f64) :=
  snd (run_node params (st_outputs st) (Nat.ltb 1 (length layer)) (layer_session st layer) n).

Lemma layer_returns nodes st layer :
  NoDup (map node_id layer) ->
  exists st', returns (run_layer params nodes st layer) st'
    /\ (forall n o c, n ∈ layer -> layer_task st layer n = Ret (o, c) ->
          st_outputs st' !! node_id n = Some o)
    /\ (forall id, id ∉ map node_id layer -> st_outputs st' !! id = st_outputs st !! id)
    /\ (forall n, n ∈ layer -> layer_task st layer n = Panic ->
          st_outputs st' !! node_id n = st_outputs st !! node_id n).
Proof.
  intros Hnd.
  set (results := map (fun n => (node_id n, layer_task st layer n)) layer).
  assert (results.*1 = map node_id layer) as Hfst.
  { unfold results. rewrite <-list_fmap_compose. done. }
  destruct (collect_returns nodes (Nat.ltb 1 (length layer)) results
              (mk_RunState (st_outputs st) (layer_session st layer) (st_cost st)))
    as (st' & Hr & Hin & Hout); [by rewrite Hfst|].
  exists st'. split.
  { unfold run_layer, returns.
    rewrite returns_bind with (a := tt) by done.
    rewrite map_map. exact Hr. }
  split; [|split].
  - intros n o c Hn Ht. eapply Hin, list_elem_of_fmap. exists n. by rewrite Ht.
  - intros id Hid. rewrite Hout; [done|]. intros o c Hi. apply Hid.
    rewrite <-Hfst. apply list_elem_of_fmap. by exists (id, Ret (o, c)).
  - intros n Hn Ht. rewrite Hout; [done|]. intros o c (m & Hm & Hm')%list_elem_of_fmap.
    injection Hm as Hid Hm. assert (m = n) as ->; [|congruence].
    exact (node_id_inj layer m n Hnd Hm' Hn (eq_sym Hid)).
Qed.
End Layers.

(** ** The gates of a node

    What the steps before the dispatch decide: the output of a node that does not
    run, or nothing. *)
Section Gates.
Context `{RegexEngine} `{SerdeJson} `{UnicodeCase} `{HashMapOrder}.
Context {options : Type} `{NodeExecutors options} `{RunEnv}.
Variable params : RunParams.

Definition prior_gate (n : DagNode) : option NodeOutput :=
  match rp_prior_completed_nodes params !! node_id n with
  | Some po => if bool_decide (always_run (base n) = Some true) then None
               else Some (completed_output po)
  | None => None
  end.
Definition trigger_gate (n : DagNode) (outs : gmap str NodeOutput) : option NodeOutput :=
  match check_trigger_rule n outs with Trigger_Run => None | Trigger_Skip => Some (Skipped []) end.
(** The condition of the node is there and true, or is not there. *)
Definition condition_holds (n : DagNode) (outs : gmap str NodeOutput) : Prop :=
  match base_when (base n) with
  | Some w => evaluate_condition w outs = Ok parsed_true
  | None => True
  end.

Lemma check_prior_returns n : returns (check_prior params n) (prior_gate n).
Proof. unfold check_prior, prior_gate. by repeat case_match. Qed.
Lemma check_trigger_returns n outs : returns (check_trigger params n outs) (trigger_gate n outs).
Proof. unfold check_trigger, trigger_gate. by case_match. Qed.
Lemma check_when_returns n outs :
  (condition_holds n outs /\ check_when params n outs = mret None)
  \/ (~ condition_holds n outs /\ returns (check_when params n outs) (Some (Skipped []))).
Proof.
  unfold check_when, condition_holds. destruct (base_when (base n)) as [w|]; [|by left].
  destruct (evaluate_condition w outs) as [[[|] [|]]|e]; cbn [ev_parsed ev_result negb];
    first [by left|right; split; [intros [=]|done]].
Qed.

(** Whether the node runs. *)
Definition gates_open (n : DagNode) (snapshot : gmap str NodeOutput) : Prop :=
  prior_gate n = None
  /\ check_trigger_rule n (all_outputs params n snapshot) = Trigger_Run
  /\ condition_holds n (all_outputs params n snapshot).

(** What is kept of a node that does not run. *)
Definition closed_output (n : DagNode) : NodeOutput := default (Skipped []) (prior_gate n).

Lemma run_node_cases n snapshot par session :
  (gates_open n snapshot
   /\ snd (run_node params snapshot par session n)
      = snd (dispatch params n (all_outputs params n snapshot) par session))
  \/ (~ gates_open n snapshot
      /\ returns (run_node params snapshot par session n) (closed_output n, None)).
Proof.
  unfold run_node, returns, gates_open, closed_output.
  rewrite (returns_bind _ _ _ (check_prior_returns n)).
  destruct (prior_gate n) as [o|]; [right; split; [by intros [[=] _]|done]|].
  rewrite (returns_bind _ _ _ (check_trigger_returns n _)). unfold trigger_gate.
  destruct (check_trigger_rule n _); [|right; split; [by intros (_ & [=] & _)|done]].
  destruct (check_when_returns n (all_outputs params n snapshot)) as [[Hc Hw]|[Hc Hw]].
  - left. split; [done|]. by rewrite Hw.
  - right. split; [tauto|]. by rewrite (returns_bind _ _ _ Hw).
Qed.

(** A task panics only in its dispatch. *)
Lemma run_node_panics n snapshot par session :
  snd (run_node params snapshot par session n) = Panic ->
  snd (dispatch params n (all_outputs params n snapshot) par session) = Panic.
Proof.
  destruct (run_node_cases n snapshot par session) as [[_ ->]|[_ Hr]]; [done|].
  unfold returns in Hr. by rewrite Hr.
Qed.
End Gates.

(** * A concrete run

    Instances of the classes of [DagRun] on which its theorems are applied: node
    executors that read off the text of a node what becomes of it, and a store
    without sessions that answers every status read alike. *)

#[export] Existing Instance sample_json.

(** What becomes of a node: [fail] fails, [panic] panics, anything else completes
    with its own text. *)
Definition sample_outcome (text : str) : Ext NodeOutput :=
  if str_eqb text (lit "panic") then ([0], Panic)
  else if str_eqb text (lit "fail") then ([0], Ret (Failed [] None (lit "exit 1") None None))
  else ([0], Ret (completed_output text)).

(** A prompt: [flaky] fails twice with a transient error before it completes, [down]
    always fails with one, anything else completes, in a session [s]. *)
Definition sample_result (text : str) (attempt : N) : NodeExecutionResult :=
  if (str_eqb text (lit "down") || (str_eqb text (lit "flaky") && (attempt <? 2)%N))
  then mk_NodeExecutionResult Exec_Failed_ [] None None (Some (lit "503 overloaded")) None None
  else mk_NodeExecutionResult Exec_Completed_ text None (Some (lit "s")) None None None.

Definition prompt_text (n : DagNode) : str :=
  match n with Prompt p => prompt p | _ => [] end.

#[export] Instance sample_executors : NodeExecutors unit := {|
  execute_bash_node n _ := sample_outcome (bash n);
  execute_script_node n _ := sample_outcome (script n);
  execute_approval_node _ _ := ([1], Ret (completed_output []));
  execute_loop_node _ _ _ _ :=
    ([2], Ret (mk_NodeExecutionResult Exec_Completed_ [] None None None None None));
  execute_node_internal n _ _ _ _ attempt := ([3], Ret (sample_result (prompt_text n) attempt));
  resolve_node_provider_and_model _ := ([], Ret (Ok (lit "claude", tt)));
  session_resume _ := true;
|}.

Definition sample_env (status : result str (option WorkflowRunStatus)) : RunEnv := {|
  get_workflow_node_session _ := Ok None;
  upsert_workflow_node_session _ := Ok tt;
  delete_workflow_node_sessions _ := Ok tt;
  get_workflow_run_status _ := status;
  run_duration_ms := 5;
|}.
#[export] Instance running_env : RunEnv := sample_env (Ok (Some Run_Running)).

Definition sample_run : WorkflowRun :=
  mk_WorkflowRun (lit "r1") (lit "w") (lit "c1") None None Run_Running [] [] 0 None None None None.

Definition sample_params (persist : bool) (prior : gmap str str) : RunParams :=
  mk_RunParams (lit "w") sample_run persist prior.

Definition bash_node (id : string) (deps : list string) (text : string) : DagNode :=
  Bash (mk_BashNode (base_default (lit id) (map lit deps)) (lit text) None).

Definition prompt_node (id text : string) : DagNode :=
  Prompt (mk_PromptNode (base_default (lit id) []) (lit text)).

(** [a] fails, [b] needs it, [c] needs [b]. *)
Definition failing_chain : list DagNode :=
  [bash_node "a" [] "fail"; bash_node "b" ["a"]%string "ok"; bash_node "c" ["b"]%string "ok"].
(** Two independent nodes, of which one panics. *)
Definition panicking_pair : list DagNode := [bash_node "a" [] "ok"; bash_node "b" [] "panic"].
(** Two nodes in a row. *)
Definition good_chain : list DagNode := [bash_node "a" [] "one"; bash_node "b" ["a"]%string "two"].

Lemma good_chain_distinct : NoDup (map node_id good_chain).
Proof. apply (bool_decide_unpack _). by_compute. Qed.
Lemma failing_chain_distinct : NoDup (map node_id failing_chain).
Proof. apply (bool_decide_unpack _). by_compute. Qed.

(** A bash node whose text is not [panic] does not. *)
Section NoPanic.
Context `{RegexEngine} `{SerdeJson} `{UnicodeCase} `{HashMapOrder}.
Variable params : RunParams.

Lemma bash_no_panic b snapshot par session :
  str_eqb (bash b) (lit "panic") = false ->
  snd (run_node params snapshot par session (Bash b)) <> Panic.
Proof.
  intros Hb Hp. apply run_node_panics in Hp. cbn [dispatch] in Hp.
  unfold execute_bash_node, sample_executors, sample_outcome in Hp. rewrite Hb in Hp.
  by destruct (str_eqb (bash b) (lit "fail")).
Qed.
End NoPanic.
