(* ===== verification/RunOrder.v ===== *)
(** * In what order a run evaluates its nodes

    The layers of a run evaluate every node of the workflow once, against the
    final outputs of its dependencies: what the run keeps of a node is what the
    task of the node returned.  From that, a node that did not complete blocks
    everything that depends on its success. *)

From S2P Require Import Prelude Float64 Json StdModel Regex DagNode Workflow OutputRef Condition.
From S2P Require Import ExecutorShared DagCore TopoLayers DagRun RunTheorems.

Section Order.
Context `{RegexEngine} `{SerdeJson} `{UnicodeCase} `{HashMapOrder}.
Context {options : Type} `{NodeExecutors options} `{RunEnv}.
Variable params : RunParams.

Let prior := rp_prior_completed_nodes params.

(** No task of the workflow panics. *)
Definition no_panics (nodes : list DagNode) : Prop :=
  forall n snapshot par session, n ∈ nodes ->
    snd (run_node params snapshot par session n) <> Panic.

(** One execution of the task of a node: what it was given. *)
Record task : Type := mk_task {
  t_node : DagNode;
  t_snapshot : gmap str NodeOutput;
  t_parallel : bool;
  t_session : option str;
}.
Definition task_run (t : task) : M (NodeOutput * option f64) :=
  run_node params (t_snapshot t) (t_parallel t) (t_session t) (t_node t).

(** The effects are those of these tasks, each whole and once, in their order, with
    nothing between them but the records of artifacts. *)
Inductive performs : list effect -> list task -> Prop :=
| performs_nothing : performs [] []
| performs_task t effs ts : performs effs ts -> performs (fst (task_run t) ++ effs) (t :: ts)
| performs_artifact nid ty effs ts : performs effs ts -> performs (WriteArtifact nid ty :: effs) ts.

(** What a task returned is the output of its node, which has none when it panicked; it
    saw final outputs only, and its dependencies as they finally are. *)
Definition task_done (outs : gmap str NodeOutput) (t : task) : Prop :=
  outs !! node_id (t_node t)
    = match snd (task_run t) with Ret (o, _) => Some o | Panic => None end
  /\ t_snapshot t ⊆ outs
  /\ forall d, d ∈ depends_on (t_node t) -> t_snapshot t !! d = outs !! d.

(** The entry of a node that a former run completed. *)
Definition prepopulated (nodes : list DagNode) (id : str) (o : NodeOutput) : Prop :=
  exists po, prior !! id = Some po /\ id ∉ always_run_ids nodes /\ o = completed_output po.

Definition layers_inv (nodes : list DagNode) (ls : list (list DagNode)) (ts : list task) (st : RunState)
    : Prop :=
  map t_node ts = concat ls
  /\ (forall t d, t ∈ ts -> d ∈ depends_on (t_node t) -> d ∈ map node_id (concat ls))
  /\ Forall (task_done (st_outputs st)) ts
  /\ forall id o, st_outputs st !! id = Some o ->
       id ∈ map node_id (concat ls) \/ prepopulated nodes id o.

Lemma performs_app e1 e2 ts1 ts2 : performs e1 ts1 -> performs e2 ts2 -> performs (e1 ++ e2) (ts1 ++ ts2).
Proof.
  induction 1; intros Hp; cbn [app]; [done|rewrite <- app_assoc|]; constructor; auto.
Qed.

Lemma collect_performs nodes par results : forall st st',
  returns (collect_results nodes par st results) st' ->
  performs (fst (collect_results nodes par st results)) [].
Proof.
  induction results as [|[nid r] results IH]; intros st st' Hr; [constructor|].
  cbn [collect_results] in *. apply returns_bind_inv in Hr as (st1 & Hr1 & Hr).
  assert (performs (fst (collect_result nodes par st nid r)) []) as Hc.
  { unfold collect_result in *. destruct r as [[o c]|]; [|constructor].
    destruct (output_type_of nodes nid); cbn; repeat constructor. }
  unfold returns in Hr1. destruct (collect_result nodes par st nid r) as [e1 o1] eqn:E.
  cbn [snd] in Hr1. subst o1. cbn [mbind M_bind fst]. change ([] : list task) with ([] ++ [] : list task).
  apply performs_app; [exact Hc|by eapply IH].
Qed.

(** The tasks of a layer. *)
Definition layer_tasks (st : RunState) (layer : list DagNode) : list task :=
  map (fun n => mk_task n (st_outputs st) (Nat.ltb 1 (length layer)) (layer_session st layer)) layer.

Lemma layer_performs nodes st layer st' :
  returns (run_layer params nodes st layer) st' ->
  performs (fst (run_layer params nodes st layer)) (layer_tasks st layer).
Proof.
  intros Hr. unfold run_layer in *. apply returns_bind_inv in Hr as (u & _ & Hr).
  cbn [mbind M_bind fst snd] in *. rewrite <- (app_nil_r (layer_tasks st layer)). apply performs_app.
  - unfold layer_tasks, layer_session. cbn [st_outputs st_session].
    generalize (Nat.ltb 1 (length layer)). intros par.
    generalize (if par then None else st_session st). intros sess. clear Hr. induction layer as [|n layer IH]; cbn [map flat_map fst snd]; [constructor|].
    exact (performs_task (mk_task n (st_outputs st) par sess) _ _ IH).
  - by eapply collect_performs.
Qed.

Lemma always_run_spec nodes n :
  NoDup (map node_id nodes) -> n ∈ nodes ->
  node_id n ∈ always_run_ids nodes <-> always_run (base n) = Some true.
Proof.
  intros Hnd Hn. unfold always_run_ids. rewrite list_elem_of_fmap. split.
  - intros (m & Hid & Hm). apply list_elem_of_In, filter_In in Hm as [Hm Ha].
    apply list_elem_of_In in Hm. assert (m = n) as -> by (by eapply node_id_inj).
    by apply bool_decide_eq_true in Ha.
  - intros Ha. exists n. split; [done|]. apply list_elem_of_In, filter_In.
    split; [by apply list_elem_of_In|by apply bool_decide_eq_true].
Qed.

(** The task of a node that a former run completed returns that output. *)
Lemma run_prior nodes n o snapshot par session :
  NoDup (map node_id nodes) -> n ∈ nodes -> prepopulated nodes (node_id n) o ->
  snd (run_node params snapshot par session n) = Ret (o, None).
Proof.
  intros Hnd Hn (po & Hp & Ha & ->). rewrite always_run_spec in Ha by done.
  assert (prior_gate params n = Some (completed_output po)) as Hg.
  { unfold prior_gate. fold prior. by rewrite Hp, bool_decide_false. }
  destruct (run_node_cases params n snapshot par session) as [[[Ho _] _]|[_ Hr]]; [congruence|].
  unfold closed_output in Hr. by rewrite Hg in Hr.
Qed.

Lemma layer_step nodes ls layer ts st st' :
  NoDup (map node_id nodes) ->
  NoDup (map node_id (concat ls ++ layer)) ->
  (forall n, n ∈ layer -> n ∈ nodes) ->
  (forall n d, n ∈ layer -> d ∈ depends_on n -> d ∈ map node_id (concat ls)) ->
  layers_inv nodes ls ts st -> returns (run_layer params nodes st layer) st' ->
  layers_inv nodes (ls ++ [layer]) (ts ++ layer_tasks st layer) st'.
Proof.
  intros Hnd Hl Hin Hdeps (Hts & Hd & He & Hk) Hr.
  rewrite map_app in Hl. apply NoDup_app in Hl as (_ & Hdis & Hndl).
  destruct (layer_returns params nodes st layer Hndl) as (st2 & Hr2 & Hnew & Hold & Hpan).
  unfold returns in *. rewrite Hr in Hr2. injection Hr2 as <-.
  assert (forall id, id ∈ map node_id (concat ls) -> st_outputs st' !! id = st_outputs st !! id) as Hsame.
  { intros id Hid. apply Hold. by apply Hdis. }
  assert (st_outputs st ⊆ st_outputs st') as Hsub.
  { apply map_subseteq_spec. intros id o Ho.
    destruct (decide (id ∈ map node_id layer)) as [Hid|Hid]; [|by rewrite Hold].
    apply list_elem_of_fmap in Hid as (n & -> & Hn).
    destruct (Hk _ _ Ho) as [Hbad|Hp].
    { exfalso. apply (Hdis _ Hbad), list_elem_of_fmap. by exists n. }
    apply (Hnew n o None Hn). apply (run_prior nodes); auto. }
  unfold layers_inv. rewrite concat_app. simpl. rewrite app_nil_r. split_and!.
  - rewrite map_app, Hts. f_equal. unfold layer_tasks. rewrite map_map. apply map_id.
  - intros t d [Ht|Ht]%elem_of_app Hdd; rewrite map_app, elem_of_app; left; [by eapply Hd|].
    apply list_elem_of_fmap in Ht as (n & -> & Hn). by eapply Hdeps.
  - apply Forall_app. split.
    + rewrite Forall_forall in He |- *. intros t Ht. destruct (He t Ht) as (Ho & Hs & Hdo).
      split_and!; [|by transitivity (st_outputs st)|].
      * rewrite Hsame; [done|]. rewrite <- Hts. by apply list_elem_of_fmap_2, list_elem_of_fmap_2.
      * intros d Hdd. rewrite Hsame by (by eapply Hd). by apply Hdo.
    + apply Forall_fmap, Forall_forall. intros n Hn. unfold task_done. cbn [compose t_node t_snapshot].
      split_and!; [|done|intros d Hdd; symmetry; by eapply Hsame, Hdeps].
      change (task_run _) with (run_node params (st_outputs st) (Nat.ltb 1 (length layer))
        (layer_session st layer) n). fold (layer_task params st layer n).
      destruct (layer_task params st layer n) as [[o c]|] eqn:Ht; [by eapply Hnew|].
      rewrite Hpan by done. destruct (st_outputs st !! node_id n) as [o|] eqn:Ho; [|done].
      exfalso. destruct (Hk _ _ Ho) as [Hbad|Hp].
      * apply (Hdis _ Hbad), list_elem_of_fmap. by exists n.
      * unfold layer_task in Ht. rewrite (run_prior nodes n o) in Ht; auto. done.
  - intros id o Ho. rewrite map_app, elem_of_app.
    destruct (decide (id ∈ map node_id layer)) as [Hid|Hid]; [tauto|].
    rewrite Hold in Ho by done. destruct (Hk _ _ Ho); tauto.
Qed.

Lemma check_silent idx n : returns (check_between_layers idx n) false -> fst (check_between_layers idx n) = [].
Proof.
  unfold check_between_layers, returns. repeat case_match; done.
Qed.

Lemma layers_step nodes n_layers ls2 : forall ls1 idx ts st st',
  NoDup (map node_id nodes) -> concat (ls1 ++ ls2) ≡ₚ nodes ->
  (forall k layer n d, (ls1 ++ ls2) !! k = Some layer -> n ∈ layer -> d ∈ depends_on n ->
     exists j layer' m, j < k /\ (ls1 ++ ls2) !! j = Some layer' /\ m ∈ layer' /\ node_id m = d) ->
  layers_inv nodes ls1 ts st ->
  returns (run_layers params nodes n_layers idx st ls2) (Some st') ->
  exists ts', performs (fst (run_layers params nodes n_layers idx st ls2)) ts'
    /\ layers_inv nodes (ls1 ++ ls2) (ts ++ ts') st'.
Proof.
  induction ls2 as [|layer ls2 IH]; intros ls1 idx ts st st' Hnd Hperm Hdeps Hinv Hr.
  { injection Hr as ->. exists []. rewrite !app_nil_r. split; [constructor|done]. }
  cbn [run_layers] in Hr |- *. apply returns_bind_inv in Hr as (st1 & Hr1 & Hr).
  apply returns_bind_inv in Hr as ([|] & Hc & Hr); [done|].
  assert (ls1 ++ layer :: ls2 = (ls1 ++ [layer]) ++ ls2) as Heq by (by rewrite <-app_assoc).
  rewrite Heq in Hperm, Hdeps |- *.
  assert (Hlk : (((ls1 ++ [layer]) ++ ls2) !! length ls1) = Some layer).
  { rewrite <-app_assoc. by apply list_lookup_middle. }
  assert (layers_inv nodes (ls1 ++ [layer]) (ts ++ layer_tasks st layer) st1) as Hinv1.
  { eapply layer_step; eauto.
    - rewrite concat_app, concat_app in Hperm. simpl in Hperm. rewrite app_nil_r in Hperm.
      rewrite <-Hperm, map_app in Hnd. by apply NoDup_app in Hnd as (Hnd & _ & _).
    - intros n Hn. rewrite <-Hperm. apply list_elem_of_In, in_concat. exists layer.
      rewrite <-!list_elem_of_In. split; [by eapply list_elem_of_lookup_2|done].
    - intros n d Hn Hd. destruct (Hdeps _ _ _ _ Hlk Hn Hd) as (j & l' & m & Hj & Hl' & Hm & <-).
      rewrite <-app_assoc, lookup_app_l in Hl' by lia.
      apply list_elem_of_fmap. exists m. split; [done|]. apply list_elem_of_In, in_concat. exists l'.
      rewrite <-!list_elem_of_In. split; [by eapply list_elem_of_lookup_2|done]. }
  destruct (IH _ _ _ _ _ Hnd Hperm Hdeps Hinv1 Hr) as (ts' & Hp' & Hinv').
  exists (layer_tasks st layer ++ ts'). split; [|by rewrite app_assoc].
  pose proof (layer_performs nodes st layer st1 Hr1) as Hp1. pose proof (check_silent _ _ Hc) as Hs.
  unfold returns in Hr1, Hc. destruct (run_layer params nodes st layer) as [e1 o1].
  cbn [snd fst] in Hr1, Hp1. subst o1. cbn [mbind M_bind fst snd].
  destruct (check_between_layers idx n_layers) as [e2 o2]. cbn [snd fst] in Hc, Hs. subst.
  cbn [mbind M_bind fst snd app]. by apply performs_app.
Qed.

(** The state in which the layers of a run end, when no status check stops it. *)
Definition reaches_end (nodes : list DagNode) (n_layers : nat) (st : RunState) : Prop :=
  exists layers outs, build_topological_layers nodes = Ret layers /\ n_layers = length layers
    /\ returns (prepopulate params nodes) outs
    /\ returns (run_layers params nodes (length layers) 0 (mk_RunState outs None f64_zero) layers)
         (Some st).

Lemma reaches_inv nodes n_layers st :
  NoDup (map node_id nodes) -> reaches_end nodes n_layers st ->
  exists layers ts effs, concat layers ≡ₚ nodes /\ layers_inv nodes layers ts st /\ performs effs ts
    /\ fst (execute_dag_workflow params nodes)
       = fst (prepopulate params nodes) ++ effs ++ fst (finish_run params nodes n_layers st).
Proof.
  intros Hnd (layers & outs & Hb & -> & Hp & Hr).
  destruct (build_topological_layers_facts nodes layers Hnd Hb) as [Hperm Hdeps].
  destruct (layers_step nodes (length layers) layers [] 0 []
    (mk_RunState outs None f64_zero) st Hnd Hperm Hdeps) as (ts & Hpe & Hinv); [|exact Hr|].
  - split_and!; [done|by intros t d ?%elem_of_nil|done|].
    intros id o Ho. cbn in Ho. right.
    destruct (prepopulate_returns params nodes) as (outs' & Hp' & Hs).
    unfold returns in *. rewrite Hp in Hp'. injection Hp' as <-.
    rewrite Hs in Ho. fold prior in Ho. destruct (prior !! id) as [po|] eqn:Hpo; [|done].
    destruct (existsb _ _) eqn:Ha; [done|]. injection Ho as <-. exists po.
    split; [done|]. split; [|done]. rewrite <-existsb_always, Ha. done.
  - exists layers, ts. eexists. split_and!; [done|exact Hinv|exact Hpe|].
    unfold execute_dag_workflow. rewrite Hb. unfold returns in *.
    destruct (prepopulate params nodes) as [e1 o1]. cbn [snd] in Hp. subst o1.
    cbn [lift mbind M_bind fst snd app].
    destruct (run_layers _ _ _ _ _ _) as [e2 o2]. cbn [snd] in Hr. subst o2. done.
Qed.

(** C2: the effects of a run that reaches its end are those of its prelude, of one task
    per node, each of them whole and once, and of its end, with only records of artifacts
    between the tasks.  A node has the output its task returned, or none when that
    panicked; the task saw only final outputs, and its dependencies as they finally are. *)
Theorem run_evaluates_every_node nodes n_layers st :
  NoDup (map node_id nodes) -> reaches_end nodes n_layers st ->
  exists tasks effs,
    fst (execute_dag_workflow params nodes)
      = fst (prepopulate params nodes) ++ effs ++ fst (finish_run params nodes n_layers st)
    /\ performs effs tasks /\ map t_node tasks ≡ₚ nodes
    /\ Forall (task_done (st_outputs st)) tasks
    /\ forall id o, st_outputs st !! id = Some o ->
         id ∈ map node_id nodes \/ prepopulated nodes id o.
Proof.
  intros Hnd Hend. destruct (reaches_inv nodes n_layers st Hnd Hend)
    as (layers & ts & effs & Hperm & (Hts & _ & He & Hk) & Hp & Hf).
  exists ts, effs. split_and!; [done|done|by rewrite Hts|done|].
  intros id o Ho. destruct (Hk id o Ho) as [Hi|Hp']; [left; by rewrite <-Hperm|by right].
Qed.









End Order.

Section Concurrency.
Context `{RegexEngine} `{SerdeJson} `{UnicodeCase} `{HashMapOrder}.
Context {options : Type} `{NodeExecutors options} `{RunEnv}.
Variable params : RunParams.

(** C39: the tasks of a layer do not see one another: in whatever order the layer
    lists them, the outputs after it are the same. *)
Theorem layer_order_irrelevant nodes st layer layer' st1 st2 :
  NoDup (map node_id layer) -> layer ≡ₚ layer' ->
  returns (run_layer params nodes st layer) st1 ->
  returns (run_layer params nodes st layer') st2 ->
  st_outputs st1 = st_outputs st2.
Proof.
  intros Hnd Hperm Hla Hlb.
  assert (NoDup (map node_id layer')) as Hnd' by (by rewrite <-Hperm).
  destruct (layer_returns params nodes st layer Hnd) as (s1 & Hr1 & Hin1 & Hout1 & Hp1).
  destruct (layer_returns params nodes st layer' Hnd') as (s2 & Hr2 & Hin2 & Hout2 & Hp2).
  unfold returns in *. rewrite Hla in Hr1. rewrite Hlb in Hr2. simplify_eq.
  assert (forall n, layer_task params st layer' n = layer_task params st layer n) as Ht.
  { intros n. unfold layer_task, layer_session. by rewrite (Permutation_length Hperm). }
  apply map_eq. intros id. destruct (decide (id ∈ map node_id layer)) as [Hid|Hid].
  - apply list_elem_of_fmap in Hid as (n & -> & Hn).
    assert (n ∈ layer') as Hn' by (by rewrite <-Hperm).
    destruct (layer_task params st layer n) as [[o c]|] eqn:E.
    + rewrite (Hin1 n o c), (Hin2 n o c); [done|done|by rewrite Ht|done|done].
    + rewrite Hp1, Hp2; [done|done|by rewrite Ht|done|done].
  - rewrite Hout1 by done. rewrite Hout2; [done|]. by rewrite <-Hperm.
Qed.

Lemma collect_parallel_session nodes results : forall st st',
  returns (collect_results nodes true st results) st' -> st_session st' = st_session st.
Proof.
  induction results as [|[nid r] results IH]; intros st st' Hr; [by injection Hr as ->|].
  cbn [collect_results] in Hr. apply returns_bind_inv in Hr as (st1 & Hr1 & Hr).
  rewrite (IH _ _ Hr). unfold collect_result in Hr1.
  destruct r as [[o c]|]; [|by injection Hr1 as ->].
  apply returns_bind_inv in Hr1 as (u & _ & Hr1). by injection Hr1 as <-.
Qed.

(** Sessions are threaded through sequential layers only: after a layer of
    several nodes there is no session to resume, whatever its nodes returned;
    after a layer of one node the session is the one the node completed in, or
    the former one when it completed in none. *)
Theorem session_threading nodes st layer st' :
  returns (run_layer params nodes st layer) st' ->
  st_session st' =
    match layer with
    | [] => st_session st
    | [n] => match layer_task params st [n] n with
             | Ret (Completed _ (Some sid) _ _, _) => Some sid
             | _ => st_session st
             end
    | _ => None
    end.
Proof.
  unfold run_layer. intros Hr. apply returns_bind_inv in Hr as (u & _ & Hr).
  destruct layer as [|n [|m layer]].
  - by injection Hr as <-.
  - cbn in Hr. apply returns_bind_inv in Hr as (st1 & Hr1 & Hr). injection Hr as ->.
    unfold layer_task, layer_session. cbn.
    unfold collect_result in Hr1. destruct (snd (run_node _ _ _ _ _)) as [[o c]|];
      [|by injection Hr1 as <-].
    apply returns_bind_inv in Hr1 as (v & _ & Hr1). by injection Hr1 as <-.
  - change (Nat.ltb 1 (length (n :: m :: layer))) with true in Hr.
    by rewrite (collect_parallel_session _ _ _ _ Hr).
Qed.

(** *** A node whose task panics *)

Lemma layers_keep_absent nodes n_layers n layers : forall idx st st',
  (forall m, m ∈ concat layers -> node_id m = node_id n -> m = n) ->
  NoDup (map node_id (concat layers)) ->
  (forall snapshot par session, snd (run_node params snapshot par session n) = Panic) ->
  st_outputs st !! node_id n = None ->
  returns (run_layers params nodes n_layers idx st layers) (Some st') ->
  st_outputs st' !! node_id n = None.
Proof.
  induction layers as [|layer layers IH]; intros idx st st' Hu Hnd Hp Ho Hr;
    [by injection Hr as <-|].
  cbn [run_layers] in Hr. apply returns_bind_inv in Hr as (st1 & Hr1 & Hr).
  apply returns_bind_inv in Hr as ([|] & _ & Hr); [done|].
  simpl in Hnd, Hu. rewrite map_app in Hnd. apply NoDup_app in Hnd as (Hl & _ & Hls).
  destruct (layer_returns params nodes st layer Hl) as (s1 & Hr1' & _ & Hout & Hpan).
  unfold returns in Hr1, Hr1'. rewrite Hr1 in Hr1'. injection Hr1' as <-.
  refine (IH (S idx) st1 st' _ Hls Hp _ Hr);
    [intros m Hm; apply Hu, elem_of_app; by right|].
  destruct (decide (node_id n ∈ map node_id layer)) as [Hid|Hid]; [|by rewrite Hout].
  apply list_elem_of_fmap in Hid as (m & Hid & Hm).
  assert (m = n) as -> by (apply Hu; [apply elem_of_app; by left|done]).
  rewrite Hpan; [done|done|apply Hp].
Qed.

(** A node whose task panics leaves no output at the end of the run: it counts
    neither as completed nor as failed, so it does not fail the run. *)
Theorem panicked_node_not_counted nodes n_layers st n :
  NoDup (map node_id nodes) -> n ∈ nodes -> reaches_end params nodes n_layers st ->
  rp_prior_completed_nodes params !! node_id n = None ->
  (forall snapshot par session, snd (run_node params snapshot par session n) = Panic) ->
  st_outputs st !! node_id n = None.
Proof.
  intros Hnd Hn (layers & outs & Hb & _ & Hpre & Hr) Hprior Hp.
  destruct (build_topological_layers_facts nodes layers Hnd Hb) as [Hperm _].
  refine (layers_keep_absent _ _ n _ _ _ _ _ _ Hp _ Hr).
  - intros m Hm Hid. rewrite Hperm in Hm. by eapply node_id_inj.
  - by rewrite Hperm.
  - destruct (prepopulate_returns params nodes) as (outs' & Hpre' & Hs).
    unfold returns in Hpre, Hpre'. rewrite Hpre in Hpre'. injection Hpre' as <-.
    cbn. by rewrite Hs, Hprior.
Qed.
End Concurrency.

(** ** Witnesses *)

Lemma good_chain_no_panics : no_panics (sample_params false ∅) good_chain.
Proof.
  intros n snapshot par session Hn.
  apply elem_of_cons in Hn as [->|[->|[]%elem_of_nil]%elem_of_cons];
    apply bash_no_panic; by_compute.
Qed.

(** The states the two chains end in. *)
Definition good_end : RunState :=
  mk_RunState (list_to_map [(lit "a", completed_output (lit "one"));
                            (lit "b", completed_output (lit "two"))]) None f64_zero.

Lemma good_chain_ends : reaches_end (sample_params false ∅) good_chain 2 good_end.
Proof.
  exists [[bash_node "a" [] "one"]; [bash_node "b" ["a"]%string "two"]], ∅.
  split; [by_compute|]. split; [done|]. split; by_compute.
Qed.

Lemma run_evaluates_every_node_witness :
  exists tasks effs,
    fst (execute_dag_workflow (sample_params false ∅) good_chain)
      = fst (prepopulate (sample_params false ∅) good_chain) ++ effs
        ++ fst (finish_run (sample_params false ∅) good_chain 2 good_end)
    /\ performs (sample_params false ∅) effs tasks /\ map t_node tasks ≡ₚ good_chain.
Proof.
  destruct (run_evaluates_every_node (sample_params false ∅) good_chain 2 good_end
    good_chain_distinct good_chain_ends) as (tasks & effs & Hf & Hp & Hn & _).
  exact (ex_intro _ tasks (ex_intro _ effs (conj Hf (conj Hp Hn)))).
Defined.


Definition layer_end (layer : list DagNode) : M RunState :=
  run_layer (sample_params false ∅) layer (mk_RunState ∅ (Some (lit "old")) f64_zero) layer.

Definition ok_end (session : option str) : RunState :=
  mk_RunState {[lit "a" := completed_output (lit "ok")]} session f64_zero.

Lemma layer_order_irrelevant_witness :
  exists st2, returns (run_layer (sample_params false ∅) panicking_pair
                 (mk_RunState ∅ (Some (lit "old")) f64_zero) (rev panicking_pair)) st2
    /\ st_outputs (ok_end None) = st_outputs st2.
Proof.
  eexists. split; [by_compute|].
  apply (layer_order_irrelevant (sample_params false ∅) panicking_pair
           (mk_RunState ∅ (Some (lit "old")) f64_zero) panicking_pair (rev panicking_pair));
    [apply (bool_decide_unpack _); by_compute|apply Permutation_rev|by_compute|by_compute].
Defined.

Definition prompt_end : RunState :=
  mk_RunState {[lit "a" := Completed (lit "go") (Some (lit "s")) None None]} (Some (lit "s")) f64_zero.

Lemma session_threading_witness :
  returns (layer_end [prompt_node "a" "go"]) prompt_end /\ st_session prompt_end = Some (lit "s").
Proof.
  assert (returns (layer_end [prompt_node "a" "go"]) prompt_end) as Hr by by_compute.
  split; [exact Hr|].
  rewrite (session_threading (sample_params false ∅) [prompt_node "a" "go"]
    (mk_RunState ∅ (Some (lit "old")) f64_zero) [prompt_node "a" "go"] prompt_end Hr).
  by_compute.
Defined.

(** One node completed, the other panicked: the run is completed. *)
Definition panicking_end : RunState :=
  mk_RunState {[lit "a" := completed_output (lit "ok")]} None f64_zero.

Lemma panicked_node_not_counted_witness :
  st_outputs panicking_end !! lit "b" = None
  /\ exists md, CompleteRun md ∈ fst (execute_dag_workflow (sample_params false ∅) panicking_pair).
Proof.
  split.
  - apply (panicked_node_not_counted (sample_params false ∅) panicking_pair 1 panicking_end
             (bash_node "b" [] "panic")).
    + apply (bool_decide_unpack _). by_compute.
    + right. by left.
    + exists [panicking_pair], ∅. split; [by_compute|]. split; [done|]. split; by_compute.
    + by_compute.
    + intros snapshot par session. by_compute.
  - eexists. apply list_elem_of_lookup_2 with 2. by_compute.
Defined.
