(* ===== verification/RunOutcome.v ===== *)
(** * How a run ends

    A run returns exactly when its layers exist; it ends in the store at most once,
    as completed or as failed, and which of the two follows from the outputs of its
    nodes; a status that is not [running] stops it between two layers, and ends it
    in neither way. *)

From S2P Require Import Prelude Float64 Json StdModel Regex DagNode Workflow OutputRef Condition.
From S2P Require Import ExecutorShared DagCore TopoLayers DagRun RunTheorems RunOrder.

Lemma NoDup_concat_cons {A} (l : list A) ls :
  NoDup (concat (l :: ls)) -> NoDup l /\ NoDup (concat ls).
Proof. simpl. intros (H1 & _ & H2)%NoDup_app. done. Qed.

Section Outcome.
Context `{RegexEngine} `{SerdeJson} `{UnicodeCase} `{HashMapOrder}.
Context {options : Type} `{NodeExecutors options} `{RunEnv}.
Variable params : RunParams.

(** *** The run returns *)

Lemma between_returns idx n_layers : exists b, returns (check_between_layers idx n_layers) b.
Proof. unfold check_between_layers, send_message. repeat case_match; by eexists. Qed.

Lemma status_returns idx : exists b, returns (skip_if_status_changed idx) b.
Proof. unfold skip_if_status_changed. repeat case_match; by eexists. Qed.

Lemma layers_return nodes n_layers layers : forall idx st,
  NoDup (map node_id (concat layers)) ->
  exists r, returns (run_layers params nodes n_layers idx st layers) r.
Proof.
  induction layers as [|layer layers IH]; intros idx st Hnd; [by eexists|].
  simpl in Hnd. rewrite map_app in Hnd. apply NoDup_app in Hnd as (Hl & _ & Hls).
  destruct (layer_returns params nodes st layer Hl) as (st1 & Hr & _).
  destruct (between_returns idx n_layers) as [b Hb].
  destruct (IH (S idx) st1 Hls) as [r' Hr'].
  exists (if b then None else r'). cbn [run_layers]. unfold returns.
  rewrite (returns_bind _ _ _ Hr), (returns_bind _ _ _ Hb). by destruct b.
Qed.

Lemma finish_returns nodes n_layers st : exists r, returns (finish_run params nodes n_layers st) r.
Proof.
  unfold finish_run. destruct (status_returns n_layers) as [b Hb].
  unfold returns. setoid_rewrite (returns_bind _ _ _ Hb).
  repeat case_match; by eexists.
Qed.

(** C5: a run returns exactly when the dependencies of its nodes are nodes and form
    no cycle: a panic of a task, a failure of the store or of a provider never
    keeps it from returning. *)
Theorem run_returns_iff_acyclic nodes :
  NoDup (map node_id nodes) ->
  (exists r, returns (execute_dag_workflow params nodes) r) <-> acyclic nodes.
Proof.
  intros Hnd. rewrite <-(layers_exist_iff nodes Hnd). split.
  - intros [r Hr]. apply returns_bind_inv in Hr as (layers & Hl & _). by exists layers.
  - intros [layers Hl]. destruct (prepopulate_returns params nodes) as (outs & Hp & _).
    destruct (layers_return nodes (length layers) layers 0 (mk_RunState outs None f64_zero))
      as [st Hst].
    { destruct (build_topological_layers_facts nodes layers Hnd Hl) as [Hperm _].
      by rewrite Hperm. }
    unfold execute_dag_workflow, returns.
    rewrite (returns_bind (lift _) _ layers) by done.
    rewrite (returns_bind _ _ _ Hp), (returns_bind _ _ _ Hst).
    destruct st as [st|]; [apply finish_returns|by eexists].
Qed.

(** *** What the run says to end with *)

(** The status the run reads at the end is [running], or cannot be read. *)
Definition still_running (idx : nat) : Prop :=
  match get_workflow_run_status idx with
  | Ok (Some s) => s = Run_Running
  | Ok None => False
  | Err _ => True
  end.

Lemma status_spec idx :
  all_effects not_final (skip_if_status_changed idx)
  /\ exists b, returns (skip_if_status_changed idx) b /\ (b = false <-> still_running idx).
Proof.
  unfold skip_if_status_changed, still_running. split; [quiet|].
  destruct (get_workflow_run_status idx) as [[s|]|]; [|by eexists|by eexists].
  destruct (decide (s = Run_Running)) as [->|Hs].
  { rewrite bool_decide_false by (by intros []). by eexists. }
  rewrite bool_decide_true by done. case_bool_decide; by eexists.
Qed.

Lemma layers_final nodes n_layers idx st layers :
  finals (run_layers params nodes n_layers idx st layers) = [].
Proof. apply quiet_finals, layers_quiet. Qed.

Lemma count_positive s outs :
  Nat.ltb 0 (count_state s (map snd (hm_iter outs))) = true
  <-> exists id o, outs !! id = Some o /\ state o = s.
Proof.
  unfold count_state. rewrite Nat.ltb_lt. split.
  - destruct (List.filter _ _) as [|o l] eqn:E; simpl; [lia|]. intros _.
    assert (o ∈ List.filter (fun o => state_eqb (state o) s) (map snd (hm_iter outs))) as Ho
      by (rewrite E; by left).
    apply list_elem_of_In, filter_In in Ho as [Ho Hs]. apply state_eqb_spec in Hs.
    apply list_elem_of_In, list_elem_of_fmap in Ho as ([id o'] & -> & Ho).
    apply hm_iter_elem in Ho. eauto.
  - intros (id & o & Ho & Hs).
    assert (o ∈ List.filter (fun o => state_eqb (state o) s) (map snd (hm_iter outs))) as Hin.
    { apply list_elem_of_In, filter_In. split; [|by apply state_eqb_spec].
      apply list_elem_of_In, list_elem_of_fmap. exists (id, o). split; [done|by apply hm_iter_elem]. }
    destruct (List.filter _ _); [by apply elem_of_nil in Hin|simpl; lia].
Qed.

(** A node in state [s] among the outputs. *)
Definition some_node (outs : gmap str NodeOutput) (s : NodeState) : Prop :=
  exists id o, outs !! id = Some o /\ state o = s.

Lemma final_in {A} (m : M A) e : is_final e = true -> e ∈ fst m <-> e ∈ finals m.
Proof.
  intros He. unfold finals. rewrite (list_elem_of_In (List.filter _ _)), filter_In, <-list_elem_of_In.
  tauto.
Qed.

Lemma finals_reached nodes n_layers st :
  reaches_end params nodes n_layers st ->
  finals (execute_dag_workflow params nodes) = finals (finish_run params nodes n_layers st).
Proof.
  intros (layers & outs & Hl & -> & Hp & Hr). unfold execute_dag_workflow.
  rewrite finals_bind by apply all_lift. cbn [lift snd]. rewrite Hl.
  rewrite finals_bind by apply prepopulate_quiet. rewrite Hp.
  rewrite finals_bind by apply layers_quiet. by rewrite Hr.
Qed.

Lemma finals_reach nodes e :
  e ∈ finals (execute_dag_workflow params nodes) -> exists n_layers st, reaches_end params nodes n_layers st.
Proof.
  unfold execute_dag_workflow. rewrite finals_bind by apply all_lift. cbn [lift snd].
  destruct (build_topological_layers nodes) as [layers|] eqn:Hl; [|by intros ?%elem_of_nil].
  rewrite finals_bind by apply prepopulate_quiet.
  destruct (snd (prepopulate params nodes)) as [outs|] eqn:Hp; [|by intros ?%elem_of_nil].
  rewrite finals_bind by apply layers_quiet.
  destruct (snd (run_layers _ _ _ _ _ _)) as [[st|]|] eqn:Hr; [|by intros ?%elem_of_nil..].
  intros _. exists (length layers), st. by exists layers, outs.
Qed.

Lemma fail_finals counts msg : finals (fail_run params counts msg) = [FailRun msg].
Proof. done. Qed.
Lemma complete_finals nodes st counts :
  finals (complete_run params nodes st counts)
  = [CompleteRun (run_metadata counts (st_cost st))].
Proof. done. Qed.

(** What the end of the run says, by its outputs. *)
Lemma finish_finals nodes n_layers st :
  (~ still_running n_layers /\ finals (finish_run params nodes n_layers st) = [])
  \/ (still_running n_layers
      /\ ((exists msg, finals (finish_run params nodes n_layers st) = [FailRun msg])
          /\ (~ some_node (st_outputs st) State_Completed \/ some_node (st_outputs st) State_Failed)
          \/ (exists md, finals (finish_run params nodes n_layers st) = [CompleteRun md])
             /\ some_node (st_outputs st) State_Completed
             /\ ~ some_node (st_outputs st) State_Failed)).
Proof.
  unfold finish_run. destruct (status_spec n_layers) as (Hq & b & Hb & Hrun).
  rewrite finals_bind by done. unfold returns in Hb. rewrite Hb.
  destruct b; [left; split; [by rewrite <-Hrun|done]|right; split; [by apply Hrun|]].
  cbn [count_nodes completed failed]. unfold some_node.
  rewrite <-!count_positive.
  destruct (Nat.ltb 0 (count_state State_Completed _));
    cbn [negb]; rewrite ?fail_finals; [|left; split; [by eexists|by left]].
  destruct (Nat.ltb 0 (count_state State_Failed _));
    rewrite ?fail_finals, ?complete_finals;
    [left; split; [by eexists|by right]|right; split; [by eexists|done]].
Qed.

(** C1: a run is completed in the store exactly when its layers ran to the end, its
    status is still [running], some node completed and no node failed; and it is
    never ended twice. *)
Theorem run_completes_iff nodes :
  ((exists md, CompleteRun md ∈ fst (execute_dag_workflow params nodes))
   <-> exists n_layers st, reaches_end params nodes n_layers st /\ still_running n_layers
       /\ some_node (st_outputs st) State_Completed /\ ~ some_node (st_outputs st) State_Failed)
  /\ length (finals (execute_dag_workflow params nodes)) <= 1.
Proof.
  split; [split|].
  - intros [md Hmd]. apply final_in in Hmd; [|done].
    destruct (finals_reach _ _ Hmd) as (k & st & Hend). exists k, st. split; [done|].
    rewrite (finals_reached _ _ _ Hend) in Hmd.
    destruct (finish_finals nodes k st) as [[_ E]|(Hs & [([m E] & _)|([m E] & Hc & Hf)])];
      rewrite E in Hmd; [by apply elem_of_nil in Hmd| |done].
    by apply list_elem_of_singleton in Hmd.
  - intros (k & st & Hend & Hs & Hc & Hf). setoid_rewrite final_in; [|done].
    rewrite (finals_reached _ _ _ Hend).
    destruct (finish_finals nodes k st) as [[Hn _]|(_ & [(_ & [?|?])|([md E] & _)])];
      [tauto..|]. exists md. rewrite E. by left.
  - destruct (finals (execute_dag_workflow params nodes)) as [|e l] eqn:E; [simpl; lia|].
    destruct (finals_reach nodes e) as (k & st & Hend); [rewrite E; by left|].
    rewrite (finals_reached _ _ _ Hend) in E. rewrite <-E.
    destruct (finish_finals nodes k st) as [[_ ->]|(_ & [([m ->] & _)|([m ->] & _)])];
      simpl; lia.
Qed.

(** A run is failed in the store exactly when its layers ran to the end, its
    status is still [running], and no node completed or some node failed. *)
Theorem run_fails_iff nodes :
  (exists msg, FailRun msg ∈ fst (execute_dag_workflow params nodes))
  <-> exists n_layers st, reaches_end params nodes n_layers st /\ still_running n_layers
      /\ (~ some_node (st_outputs st) State_Completed \/ some_node (st_outputs st) State_Failed).
Proof.
  split.
  - intros [msg Hm]. apply final_in in Hm; [|done].
    destruct (finals_reach _ _ Hm) as (k & st & Hend). exists k, st. split; [done|].
    rewrite (finals_reached _ _ _ Hend) in Hm.
    destruct (finish_finals nodes k st) as [[_ E]|(Hs & [(_ & Hc)|([m E] & _)])];
      [rewrite E in Hm; by apply elem_of_nil in Hm|done|].
    rewrite E in Hm. by apply list_elem_of_singleton in Hm.
  - intros (k & st & Hend & Hs & Hc). setoid_rewrite final_in; [|done].
    rewrite (finals_reached _ _ _ Hend).
    destruct (finish_finals nodes k st) as [[Hn _]|(_ & [([m E] & _)|(_ & Hc1 & Hf1)])];
      [tauto| |tauto]. exists m. rewrite E. by left.
Qed.

(** Once a status check finds the run not to be [running] (or deleted), no
    later layer starts, whatever it holds, and the run ends neither way. *)
Theorem stopped_run_starts_nothing nodes n_layers idx st layer rest :
  ~ still_running idx -> NoDup (map node_id layer) ->
  returns (run_layers params nodes n_layers idx st (layer :: rest)) None
  /\ run_layers params nodes n_layers idx st (layer :: rest)
     = run_layers params nodes n_layers idx st [layer]
  /\ finals (run_layers params nodes n_layers idx st (layer :: rest)) = [].
Proof.
  intros Hs Hnd. destruct (layer_returns params nodes st layer Hnd) as (st1 & Hr & _).
  assert (returns (check_between_layers idx n_layers) true) as Hb.
  { unfold still_running, check_between_layers, send_message, returns in *.
    destruct (get_workflow_run_status idx) as [[s|]|]; [|done|tauto].
    rewrite bool_decide_true by done. by case_bool_decide. }
  split; [|split; [|apply quiet_finals, layers_quiet]].
  - unfold returns. cbn [run_layers].
    by rewrite (returns_bind _ _ _ Hr), (returns_bind _ _ _ Hb).
  - cbn [run_layers]. unfold mbind, M_bind, returns in *.
    destruct (run_layer _ _ _ _) as [e o]. cbn in Hr. subst o. cbn.
    destruct (check_between_layers idx n_layers) as [e' o']. cbn in Hb. by subst o'.
Qed.
End Outcome.

(** ** Witnesses *)

Lemma run_returns_iff_acyclic_witness :
  exists r, returns (execute_dag_workflow (sample_params false ∅) good_chain) r.
Proof.
  apply (run_returns_iff_acyclic (sample_params false ∅) good_chain good_chain_distinct).
  apply (layers_exist_iff good_chain good_chain_distinct).
  eexists. by_compute.
Defined.

(** The same two nodes in a run that was cancelled. *)
Lemma stopped_run_starts_nothing_witness :
  returns (@run_layers _ _ ascii_case unit sample_executors
             (sample_env (Ok (Some Run_Cancelled))) (sample_params false ∅) good_chain 2 0
             (mk_RunState ∅ None f64_zero) (map (fun n => [n]) good_chain)) None.
Proof.
  apply (@stopped_run_starts_nothing _ _ ascii_case unit sample_executors
           (sample_env (Ok (Some Run_Cancelled))) (sample_params false ∅) good_chain 2 0
           (mk_RunState ∅ None f64_zero) [bash_node "a" [] "one"] [[bash_node "b" ["a"]%string "two"]]).
  - by vm_compute.
  - apply (bool_decide_unpack _). by_compute.
Defined.
