(* ===== verification/RunNode.v ===== *)
(** * What happens to one node

    The gates before the dispatch, the retry loop of an AI node and its delays, the
    sessions a node stores, the resume path, and the output of a run. *)

From S2P Require Import Prelude Float64 Json StdModel Regex DagNode Workflow OutputRef Condition.
From S2P Require Import ExecutorShared DagCore TopoLayers DagRun RunTheorems.

(** ** The first result of a partial function *)

Lemma omap_filter {A B} (f : A -> option B) (p : A -> bool) l :
  omap f (List.filter p l) = omap (fun x => if p x then f x else None) l.
Proof.
  induction l as [|x l IH]; [done|]. cbn [List.filter omap list_omap].
  destruct (p x); cbn; [by destruct (f x); rewrite <-IH|exact IH].
Qed.

Lemma head_omap {A B} (f : A -> option B) l r :
  head (omap f l) = r <->
  match r with
  | Some b => exists before x after, l = before ++ x :: after /\ f x = Some b
      /\ forall y, y ∈ before -> f y = None
  | None => forall y, y ∈ l -> f y = None
  end.
Proof.
  induction l as [|x l IH]; cbn.
  { split; [intros <-; by intros y ?%elem_of_nil|]. destruct r; [|done].
    intros ([|? before] & ? & ? & [=] & _). }
  destruct (f x) as [b|] eqn:E.
  - split; [intros <-; exists [], x, l; split_and!; [done|done|by intros y ?%elem_of_nil]|].
    destruct r as [b'|]; [|intros Hno; specialize (Hno x (list_elem_of_here _ _)); congruence].
    intros ([|y before] & z & after & Hl & Hz & Hno); simplify_eq/=; [congruence|].
    specialize (Hno y (list_elem_of_here _ _)). congruence.
  - etrans; [exact IH|]. destruct r as [b|].
    + split; intros (before & z & after & Hl & Hz & Hno).
      * subst l. exists (x :: before), z, after. split_and!; [done|done|].
        intros w [->|Hw]%elem_of_cons; [done|by apply Hno].
      * destruct before as [|y before]; simplify_eq/=.
        exists before, z, after. split_and!; [done|done|]. intros w Hw. apply Hno. by right.
    + split; [by intros Hno w [->|Hw]%elem_of_cons; [done|apply Hno]|].
      intros Hno y Hy. apply Hno. by right.
Qed.

Section Node.
Context `{RegexEngine} `{SerdeJson} `{UnicodeCase} `{HashMapOrder}.
Context {options : Type} `{NodeExecutors options} `{RunEnv}.
Variable params : RunParams.

(** *** The gates *)

(** C6: a node is dispatched exactly when no former run completed it (or it is
    marked [always_run]), its trigger rule holds of the outputs of its
    dependencies, and its condition evaluates to true.  Otherwise it is skipped, or
    keeps its former output: no executor is called, nothing is sent and nothing is
    stored but the event that reports it. *)
Theorem node_runs_iff_gates_open n snapshot par session :
  (gates_open params n snapshot ->
     snd (run_node params snapshot par session n)
     = snd (dispatch params n (all_outputs params n snapshot) par session))
  /\ (~ gates_open params n snapshot ->
     returns (run_node params snapshot par session n) (closed_output params n, None)
     /\ all_effects report (run_node params snapshot par session n)).
Proof.
  split; intros Hg.
  - by destruct (run_node_cases params n snapshot par session) as [[_ ?]|[? _]].
  - destruct (run_node_cases params n snapshot par session) as [[? _]|[_ Hr]]; [done|].
    split; [done|]. unfold run_node. apply all_bind_returned; [auto with run|].
    intros g1 Hg1. destruct g1 as [o|]; [apply all_ret|].
    apply all_bind_returned; [auto with run|]. intros g2 Hg2.
    destruct g2 as [o|]; [apply all_ret|]. apply all_bind_returned; [auto with run|].
    intros g3 Hg3. destruct g3 as [o|]; [apply all_ret|]. destruct Hg.
    unfold returns in *. rewrite check_prior_returns in Hg1.
    rewrite check_trigger_returns in Hg2. injection Hg1 as Hg1. injection Hg2 as Hg2.
    split; [done|]. split; [unfold trigger_gate in Hg2; by case_match|].
    destruct (check_when_returns params n (all_outputs params n snapshot)) as [[? _]|[_ Hw]]; [done|].
    unfold returns in Hw. congruence.
Qed.

(** A condition with a field reference that cannot be resolved (the producer was
    skipped, does not declare the field, or wrote text without it) does not fail
    the node: the node is skipped, and the event says that the condition could not
    be parsed. *)
Theorem unresolvable_condition_skips n snapshot par session w e :
  prior_gate params n = None ->
  check_trigger_rule n (all_outputs params n snapshot) = Trigger_Run ->
  base_when (base n) = Some w ->
  evaluate_condition w (all_outputs params n snapshot) = Err e ->
  returns (run_node params snapshot par session n) (Skipped [], None)
  /\ StoreEvent (lit "node_skipped") (Some (node_id n))
       [(lit "reason", String (lit "when_condition_parse_error")); (lit "expr", String w)]
     ∈ fst (run_node params snapshot par session n).
Proof.
  intros Hp Ht Hw He.
  pose proof (check_prior_returns params n) as Hr1. rewrite Hp in Hr1.
  pose proof (check_trigger_returns params n (all_outputs params n snapshot)) as Hr2.
  unfold trigger_gate in Hr2. rewrite Ht in Hr2.
  set (outs := all_outputs params n snapshot) in *.
  assert (check_when params n outs
    = Some <$> skip_node (node_id n) (default (node_id n) (get_node_name n))
        (lit "when_condition_parse_error") [(lit "expr", String w)]
        (Some (rp_workflow_name params))) as Hc by (unfold check_when; rewrite Hw, He; reflexivity).
  assert (returns (check_when params n outs) (Some (Skipped []))) as Hr3
    by (rewrite Hc; reflexivity).
  unfold run_node, returns. rewrite (bind_returned _ _ _ Hr1), (bind_returned _ _ _ Hr2).
  fold outs. rewrite (bind_returned _ _ _ Hr3). split; [reflexivity|].
  cbn [fst]. do 2 (apply elem_of_app; right). apply elem_of_app. left. rewrite Hc.
  apply list_elem_of_here.
Qed.

(** *** The retry loop *)

Definition is_sleep (e : effect) : bool := match e with Sleep _ => true | _ => false end.
Definition sleeps {A} (m : M A) : list effect := List.filter is_sleep (fst m).

(** Attempt [k] is tried again, if the limit allows it. *)
Definition retryable (cfg : RetryConfig) (r : N -> NodeExecutionResult) (k : nat) : Prop :=
  er_state (r (N.of_nat k)) = Exec_Failed_ /\ should_retry cfg (r (N.of_nat k)) = true.

(** The delay after attempt [k]: doubled each time, and saturating. *)
Definition backoff (cfg : RetryConfig) (k : nat) : N :=
  u64_saturating_mul (retry_delay_ms cfg) (2 ^ N.of_nat k).

Lemma retryable_dec cfg r k : {retryable cfg r k} + {~ retryable cfg r k}.
Proof.
  unfold retryable. destruct (er_state (r (N.of_nat k))); [by right; intros [[=] _]|].
  destruct (should_retry cfg (r (N.of_nat k))); [by left|by right; intros [_ [=]]].
Qed.

Lemma sleeps_ext_bind {A B} (m : Ext A) (f : A -> M B) a :
  snd m = Ret a -> sleeps (ext m ≫= f) = sleeps (f a).
Proof.
  intros Hm. rewrite (bind_returned (ext m) f a Hm). unfold sleeps. cbn [fst].
  rewrite List.filter_app. replace (List.filter is_sleep (fst (ext m))) with (@nil effect); [done|].
  unfold ext. cbn. by induction (fst m).
Qed.

(** One attempt that is not the last. *)
Lemma retry_step nid cfg exec r left k :
  snd (exec (N.of_nat k)) = Ret (r (N.of_nat k)) -> retryable cfg r k ->
  (N.of_nat k < max_retries cfg)%N ->
  (k < 64 ->
     snd (retry_loop nid cfg exec (S left) (N.of_nat k))
     = snd (retry_loop nid cfg exec left (N.of_nat (S k)))
     /\ sleeps (retry_loop nid cfg exec (S left) (N.of_nat k))
       = Sleep (backoff cfg k) :: sleeps (retry_loop nid cfg exec left (N.of_nat (S k))))
  /\ (64 <= k -> snd (retry_loop nid cfg exec (S left) (N.of_nat k)) = Panic).
Proof.
  intros He [Hf Hs] Hk. cbn [retry_loop].
  rewrite (returns_bind _ _ (r (N.of_nat k))), (sleeps_ext_bind _ _ (r (N.of_nat k)));
    [|exact He|exact He].
  rewrite Hf, Hs. replace (max_retries cfg <=? N.of_nat k)%N with false
    by (symmetry; by apply N.leb_gt). cbn [negb orb].
  unfold pow2_u64. split; intros H64.
  - replace (N.of_nat k <? 64)%N with true by (symmetry; apply N.ltb_lt; lia).
    replace (N.of_nat k + 1)%N with (N.of_nat (S k)) by lia.
    destruct (retry_loop nid cfg exec left (N.of_nat (S k))) as [e o]. by split.
  - by replace (N.of_nat k <? 64)%N with false by (symmetry; apply N.ltb_ge; lia).
Qed.

Lemma retry_stop nid cfg exec r left k :
  snd (exec (N.of_nat k)) = Ret (r (N.of_nat k)) ->
  ~ retryable cfg r k \/ (max_retries cfg <= N.of_nat k)%N ->
  returns (retry_loop nid cfg exec left (N.of_nat k)) (r (N.of_nat k))
  /\ sleeps (retry_loop nid cfg exec left (N.of_nat k)) = [].
Proof.
  intros He Hk. unfold retryable in Hk.
  assert (forall rest : M NodeExecutionResult,
    (if negb (should_retry cfg (r (N.of_nat k))) || (max_retries cfg <=? N.of_nat k)%N
     then mret (r (N.of_nat k)) else rest)
    = mret (r (N.of_nat k)) \/ er_state (r (N.of_nat k)) = Exec_Completed_) as Hc.
  { intros rest. destruct (er_state (r (N.of_nat k))); [by right|left].
    destruct (should_retry cfg _); cbn; [|done].
    destruct Hk as [Hk|Hk]; [by destruct Hk|]. by apply N.leb_le in Hk as ->. }
  unfold returns. destruct left; cbn [retry_loop];
    rewrite (returns_bind _ _ (r (N.of_nat k))), (sleeps_ext_bind _ _ (r (N.of_nat k)))
      by exact He;
    (edestruct Hc as [Hx|Hx];
      [destruct (er_state (r (N.of_nat k))); [done|]; setoid_rewrite Hx; done
      |by rewrite Hx]).
Qed.

Lemma retry_from nid cfg exec r left : forall k,
  (max_retries cfg <= 64)%N -> N.to_nat (max_retries cfg) = k + left ->
  (forall j, (j <= max_retries cfg)%N -> snd (exec j) = Ret (r j)) ->
  exists last, k <= last <= k + left
    /\ returns (retry_loop nid cfg exec left (N.of_nat k)) (r (N.of_nat last))
    /\ (forall j, k <= j < last -> retryable cfg r j)
    /\ (~ retryable cfg r last \/ last = k + left)
    /\ sleeps (retry_loop nid cfg exec left (N.of_nat k))
       = map (fun j => Sleep (backoff cfg j)) (seq k (last - k)).
Proof.
  induction left as [|left IH]; intros k Hmax Hl He.
  - exists k. destruct (retry_stop nid cfg exec r 0 k) as [Hr Hs]; [apply He; lia|right; lia|].
    rewrite Nat.sub_diag. split_and!; [lia|lia|done|lia|right; lia|done].
  - destruct (retryable_dec cfg r k) as [Hk|Hk].
    + destruct (retry_step nid cfg exec r left k) as [Hstep _]; [apply He; lia|done|lia|].
      destruct Hstep as [Hsnd Hsl]; [lia|].
      destruct (IH (S k)) as (last & Hb & Hr & Hj & Hlast & Hs); [done|lia|done|].
      exists last. split; [lia|]. split; [unfold returns; by rewrite Hsnd|]. split; [|split].
      * intros j Hjk. destruct (decide (j = k)) as [->|Hne]; [done|apply Hj; lia].
      * destruct Hlast; [by left|right; lia].
      * rewrite Hsl, Hs. replace (last - k) with (S (last - S k)) by lia. done.
    + exists k. destruct (retry_stop nid cfg exec r (S left) k) as [Hr Hs];
        [apply He; lia|by left|].
      rewrite Nat.sub_diag. split_and!; [lia|lia|done|lia|by left|done].
Qed.

(** An AI node is attempted until an attempt completes, fails in a way that is
    not retried, or is the last one allowed; that attempt's result is the node's.
    It sleeps between two attempts only, for the configured delay doubled each
    time. *)
Theorem retry_loop_result nid cfg exec r :
  (max_retries cfg <= 64)%N ->
  (forall j, (j <= max_retries cfg)%N -> snd (exec j) = Ret (r j)) ->
  exists last, last <= N.to_nat (max_retries cfg)
    /\ returns (retry_loop nid cfg exec (N.to_nat (max_retries cfg)) 0) (r (N.of_nat last))
    /\ (forall j, j < last -> retryable cfg r j)
    /\ (~ retryable cfg r last \/ last = N.to_nat (max_retries cfg))
    /\ sleeps (retry_loop nid cfg exec (N.to_nat (max_retries cfg)) 0)
       = map (fun j => Sleep (backoff cfg j)) (seq 0 last).
Proof.
  intros Hmax He.
  destruct (retry_from nid cfg exec r (N.to_nat (max_retries cfg)) 0 Hmax) as
    (last & Hb & Hr & Hj & Hlast & Hs); [done|done|].
  exists last. rewrite Nat.sub_0_r in Hs.
  split_and!; [lia|done|intros j Hjl; apply Hj; lia|done|done].
Qed.

Lemma retry_panics nid cfg exec r left : forall k,
  k <= 64 -> (64 < max_retries cfg)%N -> N.to_nat (max_retries cfg) = k + left ->
  (forall j, (j <= 64)%N -> snd (exec j) = Ret (r j)) ->
  (forall j, j <= 64 -> retryable cfg r j) ->
  snd (retry_loop nid cfg exec left (N.of_nat k)) = Panic.
Proof.
  induction left as [|left IH]; intros k H64 Hmax Hl He Hr; [lia|].
  destruct (retry_step nid cfg exec r left k) as [Hstep Hpanic];
    [apply He; lia|apply Hr; lia|lia|].
  destruct (decide (64 <= k)) as [Hk|Hk]; [by apply Hpanic|].
  destruct Hstep as [-> _]; [lia|]. apply IH; auto; lia.
Qed.

(** With more than 64 retries, a node whose first 65 attempts fail and are
    retried panics instead of being retried again: the power of two of its delay
    overflows. *)
Theorem retry_delay_overflows nid cfg exec r :
  (64 < max_retries cfg)%N ->
  (forall j, (j <= 64)%N -> snd (exec j) = Ret (r j)) ->
  (forall j, j <= 64 -> retryable cfg r j) ->
  snd (retry_loop nid cfg exec (N.to_nat (max_retries cfg)) 0) = Panic.
Proof. intros Hmax He Hr. apply (retry_panics nid cfg exec r _ 0); auto; lia. Qed.

(** *** Sessions *)

Lemma elem_of_bind {A B} (m : M A) (f : A -> M B) e :
  e ∈ fst (m ≫= f) -> e ∈ fst m \/ exists a, returns m a /\ e ∈ fst (f a).
Proof.
  destruct m as [es [a|]]; cbn; [|by left].
  intros [He|He]%elem_of_app; [by left|right]. by exists a.
Qed.
Lemma benign_no_session {A} (m : M A) e :
  all_effects benign m -> is_benign e = false -> e ∉ fst m.
Proof.
  unfold all_effects. rewrite Forall_forall. intros Hall He Hin.
  specialize (Hall e Hin). unfold benign in Hall. congruence.
Qed.

(** The node asks for its session to be kept. *)
Definition persists (n : DagNode) : Prop :=
  default (rp_persist_sessions params) (persist_session (base n)) = true
  /\ base_context (base n) <> Some Fresh.

Lemma persists_spec n :
  default (rp_persist_sessions params) (persist_session (base n)) && negb (bypasses_persistence n)
  = true <-> persists n.
Proof.
  unfold persists, bypasses_persistence. rewrite andb_true_iff, negb_true_iff.
  destruct (base_context (base n)) as [[]|]; naive_solver.
Qed.

(** A session is stored only for a node that asks for it, in a context that is
    not fresh, with a provider that can resume it, in a conversation; it is the
    session of the attempt that completed, under the node's own key. *)
Theorem session_stored_for n outs par resume p :
  UpsertSession p ∈ fst (run_ai_node params n outs par resume) ->
  persists n /\ session_resume (up_provider p) = true
  /\ up_node_id p = node_id n /\ up_workflow_name p = rp_workflow_name params
  /\ up_scope_key p = conversation_id (rp_run params) /\ up_scope_key p <> []
  /\ exists opts r resume',
       snd (resolve_node_provider_and_model n) = Ret (Ok (up_provider p, opts))
       /\ returns (retry_loop (node_id n) (get_effective_node_retry_config n)
            (execute_node_internal n (up_provider p) opts outs resume')
            (N.to_nat (max_retries (get_effective_node_retry_config n))) 0) r
       /\ er_state r = Exec_Completed_ /\ er_session_id r = Some (up_provider_session_id p).
Proof.
  intros He. unfold run_ai_node in He.
  apply elem_of_bind in He as [He|(resolved & Hres & He)].
  { exfalso. revert He. apply benign_no_session; [by apply all_ext|done]. }
  destruct resolved as [[provider opts]|err];
    [|exfalso; revert He; apply benign_no_session; [quiet; auto with run|done]].
  destruct (default _ _ && negb _) eqn:Hp; cbn [andb] in He.
  - apply persists_spec in Hp. destruct (session_resume provider) eqn:Hcap; cbn [negb] in He;
      [|exfalso; revert He; apply benign_no_session; [quiet; auto with run|done]].
    apply elem_of_bind in He as [He|(resume' & _ & He)].
    { exfalso. revert He. apply benign_no_session; [auto with run|done]. }
    apply elem_of_bind in He as [He|(r & Hr & He)].
    { exfalso. revert He. apply benign_no_session; [auto with run|done]. }
    apply elem_of_bind in He as [He|(u & _ & He)]; [|by apply elem_of_nil in He].
    unfold persist_result, persist_scope_key, send_message in He.
    destruct (is_empty (conversation_id (rp_run params))) eqn:Hc; cbn [negb] in He;
      [by apply elem_of_nil in He|].
    destruct (er_state r) eqn:Hst; [|by apply elem_of_nil in He].
    destruct (er_session_id r) as [sid|] eqn:Hsid;
      (apply elem_of_bind in He as [He|(u & _ & He)];
       [|exfalso; revert He; apply benign_no_session; [quiet|done]]);
      apply list_elem_of_singleton in He; [|done].
    injection He as ->. cbn [up_provider up_node_id up_workflow_name up_scope_key
      up_provider_session_id].
    split_and!; [done|done|done|done|done|intros E; by rewrite E in Hc|].
    exists opts, r, resume'. by split_and!.
  - exfalso. revert He. apply benign_no_session; [|done].
    apply all_bind; [apply all_ret|]. intros resume'. apply all_bind; [apply retry_benign|].
    intros r. apply all_bind; [apply all_ret|intros; apply all_ret].
Qed.

(** *** Resuming *)

(** A node that a former run completed, and that is not [always_run], is not run
    again: the outputs start with its former output, its task returns that output
    whatever its dependencies, rule and condition are, and calls nothing. *)
Theorem resumed_node_not_rerun nodes n po :
  NoDup (map node_id nodes) -> n ∈ nodes ->
  rp_prior_completed_nodes params !! node_id n = Some po -> always_run (base n) <> Some true ->
  (exists outs, returns (prepopulate params nodes) outs
     /\ outs !! node_id n = Some (completed_output po))
  /\ forall snapshot par session,
       returns (run_node params snapshot par session n) (completed_output po, None)
       /\ all_effects report (run_node params snapshot par session n).
Proof.
  intros Hnd Hn Hp Ha.
  assert (prior_gate params n = Some (completed_output po)) as Hg
    by (unfold prior_gate; by rewrite Hp, bool_decide_false).
  split.
  - destruct (prepopulate_returns params nodes) as (outs & Hr & Hs). exists outs.
    split; [done|]. rewrite Hs, Hp. destruct (existsb _ _) eqn:E; [|done].
    apply existsb_always, list_elem_of_fmap in E as (m & Hid & Hm).
    apply list_elem_of_In, filter_In in Hm as [Hm Hrun]. apply list_elem_of_In in Hm.
    apply bool_decide_eq_true in Hrun.
    assert (m = n) as -> by (by eapply node_id_inj). done.
  - intros snapshot par session. pose proof (check_prior_returns params n) as Hr.
    rewrite Hg in Hr. unfold run_node, returns. rewrite (bind_returned _ _ _ Hr).
    split; [done|]. unfold all_effects. cbn [fst]. rewrite app_nil_r.
    apply check_prior_reports.
Qed.

(** *** The output of a run *)

(** A node nothing depends on, that completed with text other than white space. *)
Definition yields (nodes : list DagNode) (outs : gmap str NodeOutput) (n : DagNode) (out : str) : Prop :=
  (forall m, m ∈ nodes -> node_id n ∉ depends_on m)
  /\ (exists sid v fs, outs !! node_id n = Some (Completed out sid v fs))
  /\ trim out <> [].

Definition yields_text (nodes : list DagNode) (outs : gmap str NodeOutput) (n : DagNode)
  : option str :=
  if negb (existsb (str_eqb (node_id n)) (flat_map depends_on nodes)) then
    match outs !! node_id n with
    | Some (Completed out _ _ _) => if negb (is_empty (trim out)) then Some out else None
    | _ => None
    end
  else None.

Lemma no_dependents_spec nodes n :
  negb (existsb (str_eqb (node_id n)) (flat_map depends_on nodes)) = true
  <-> forall m, m ∈ nodes -> node_id n ∉ depends_on m.
Proof.
  rewrite negb_true_iff, <-not_true_iff_false, existsb_exists. split.
  - intros Hno m Hm Hd. apply Hno. exists (node_id n). split; [|by apply str_eqb_refl].
    apply in_flat_map. exists m. split; by apply list_elem_of_In.
  - intros Hno (x & Hx & Hid). apply str_eqb_spec in Hid as <-.
    apply in_flat_map in Hx as (m & Hm & Hx). apply (Hno m); by apply list_elem_of_In.
Qed.

Lemma yields_text_spec nodes outs n out :
  yields_text nodes outs n = Some out <-> yields nodes outs n out.
Proof.
  unfold yields_text, yields. rewrite <-no_dependents_spec.
  destruct (negb (existsb _ _)); [|naive_solver].
  destruct (outs !! node_id n) as [[o sid v fs|o sid v fs|o sid err v fs|o|o]|]; [|naive_solver..].
  destruct (trim o) eqn:E; cbn [is_empty negb].
  - split; [done|]. intros (_ & (? & ? & ? & [= <- _ _ _]) & Hne). by rewrite E in Hne.
  - split; [intros [= <-]; split; [done|]; split; [by eauto|by rewrite E]|].
    by intros (_ & (? & ? & ? & [= <- _ _ _]) & _).
Qed.

Lemma yields_none nodes outs n :
  yields_text nodes outs n = None <-> forall out, ~ yields nodes outs n out.
Proof.
  setoid_rewrite <-yields_text_spec. destruct (yields_text nodes outs n); naive_solver.
Qed.

(** The run returns the output of the first node, in the order of the workflow,
    that nothing depends on and that completed with more than white space; nothing
    when there is none. *)
Theorem terminal_output_first nodes outs r :
  terminal_output nodes outs = r <->
  match r with
  | Some out => exists before n after, nodes = before ++ n :: after /\ yields nodes outs n out
      /\ forall m out', m ∈ before -> ~ yields nodes outs m out'
  | None => forall m out', m ∈ nodes -> ~ yields nodes outs m out'
  end.
Proof.
  assert (terminal_output nodes outs = head (omap (yields_text nodes outs) nodes)) as ->
    by (unfold terminal_output; by rewrite omap_filter).
  rewrite head_omap. destruct r as [out|].
  - setoid_rewrite yields_text_spec. setoid_rewrite yields_none. naive_solver.
  - setoid_rewrite yields_none. naive_solver.
Qed.
End Node.

(** ** Witnesses *)

(** A bash node with a condition. *)
Definition conditional (id : string) (w : str) : DagNode :=
  Bash (mk_BashNode
    (mk_DagNodeBase (lit id) [] (Some w) None None None None None None None None None None None None
       None None None None None None None None None None None) (lit "ok") None).
Definition unknown_condition : str := lit "$ghost.output.f == 'x'".

Definition ghost_output : gmap str NodeOutput :=
  {[lit "ghost" := completed_output (lit "plain text")]}.
Lemma condition_unresolved : exists e, evaluate_condition unknown_condition ghost_output = Err e.
Proof. eexists. by_compute. Defined.

Lemma node_runs_iff_gates_open_witness :
  returns (run_node (sample_params false ∅) ghost_output false None
             (conditional "n" unknown_condition))
    (closed_output (sample_params false ∅) (conditional "n" unknown_condition), None).
Proof.
  apply (node_runs_iff_gates_open (sample_params false ∅) (conditional "n" unknown_condition)
           ghost_output false None).
  intros (_ & _ & Hc). revert Hc. by vm_compute.
Defined.

Lemma unresolvable_condition_skips_witness :
  returns (run_node (sample_params false ∅) ghost_output false None (conditional "n" unknown_condition))
    (Skipped [], None).
Proof.
  destruct condition_unresolved as [e He].
  apply (unresolvable_condition_skips (sample_params false ∅) (conditional "n" unknown_condition)
           ghost_output false None unknown_condition e); [by_compute..|exact He].
Defined.

(** Three attempts, two delays. *)
Definition two_retries : RetryConfig := mk_RetryConfig 2 1000 OnError_Transient.
Definition flaky (k : N) : NodeExecutionResult := sample_result (lit "flaky") k.

Lemma retry_loop_result_witness :
  exists last, last <= 2
    /\ returns (retry_loop (lit "n") two_retries (fun k => ([], Ret (flaky k))) 2 0)
         (flaky (N.of_nat last))
    /\ last = 2
    /\ sleeps (retry_loop (lit "n") two_retries (fun k => ([], Ret (flaky k))) 2 0)
       = [Sleep 1000; Sleep 2000].
Proof.
  destruct (retry_loop_result (lit "n") two_retries (fun k => ([], Ret (flaky k))) flaky)
    as (last & Hle & Hr & Hj & Hlast & Hs); [by vm_compute|done|].
  assert (retryable two_retries flaky 0) as H0 by (split; by_compute).
  assert (retryable two_retries flaky 1) as H1 by (split; by_compute).
  exists last. split; [exact Hle|]. split; [exact Hr|].
  destruct last as [|[|[|last]]]; [ | | | simpl in Hle; lia].
  - destruct Hlast as [Hn|Hn]; [by destruct Hn|discriminate].
  - destruct Hlast as [Hn|Hn]; [by destruct Hn|discriminate].
  - split; [reflexivity|by_compute].
Defined.

(** A configuration that [validate_dag_node] lets through. *)
Definition many_retries : RetryConfig := mk_RetryConfig 100 1 OnError_All.
Definition down (k : N) : NodeExecutionResult := sample_result (lit "down") k.

Lemma retry_delay_overflows_witness :
  snd (retry_loop (lit "n") many_retries (fun k => ([], Ret (down k))) 100 0) = Panic.
Proof.
  apply (retry_delay_overflows (lit "n") many_retries (fun k => ([], Ret (down k))) down);
    [by vm_compute|done|intros j _; split; by_compute].
Defined.

Lemma session_stored_for_witness :
  up_provider_session_id
    (mk_UpsertNodeSessionParams (lit "w") (lit "a") (lit "c1") (lit "claude") (lit "s")
       (Some (lit "r1"))) = lit "s"
  /\ persists (sample_params true ∅) (prompt_node "a" "go").
Proof.
  split; [reflexivity|].
  apply (session_stored_for (sample_params true ∅) (prompt_node "a" "go") ∅ false None
    (mk_UpsertNodeSessionParams (lit "w") (lit "a") (lit "c1") (lit "claude") (lit "s")
       (Some (lit "r1")))).
  apply list_elem_of_lookup_2 with 1. by_compute.
Defined.

Lemma resumed_node_not_rerun_witness :
  returns (run_node (sample_params false {[lit "b" := lit "old"]}) ∅ false None
             (bash_node "b" ["a"]%string "two")) (completed_output (lit "old"), None).
Proof.
  apply (resumed_node_not_rerun (sample_params false {[lit "b" := lit "old"]}) good_chain
           (bash_node "b" ["a"]%string "two") (lit "old"));
    [exact good_chain_distinct|right; by left|by_compute|by vm_compute].
Defined.
