(* ===== verification/Database.v ===== *)
(** * The database layer

    [adapters.rs], [database.rs] and the adapters of the crate [har-db]: the two SQL
    dialects, the result of a query, queries and transactions.

    A call of the store is a program of the type [prog]: queries, each answered by
    the database before the next, and transactions.  A query is the meaning of its
    SQL text: a function of the time of the statement and of the tables.  What a
    database adds of its own (the order of rows that no [ORDER BY] settles, the
    merge of two JSON documents, the text of a timestamp) is the class [SqlEngine].
    A time is a number of microseconds. *)

From S2P Require Import Prelude Float64 Json StdModel.

(** ** Dialects ([adapters.rs]) *)

Inductive Dialect : Type := Postgres | Sqlite.

#[export] Instance Dialect_eq_dec : EqDecision Dialect.
Proof. solve_decision. Defined.

Definition dialect_as_str (d : Dialect) : str :=
  match d with Postgres => lit "postgres" | Sqlite => lit "sqlite" end.

(** The SQL text of the helpers of a dialect. *)
Module SqlText.

Definition now (d : Dialect) : str :=
  match d with Postgres => lit "NOW()" | Sqlite => lit "datetime('now')" end.
Definition json_merge (d : Dialect) (column : str) (param_index : nat) : str :=
  match d with
  | Postgres => column ++ lit " || $" ++ show_nat param_index ++ lit "::jsonb"
  | Sqlite => lit "json_patch(" ++ column ++ lit ", $" ++ show_nat param_index ++ lit ")"
  end.
Definition json_array_contains (d : Dialect) (column path : str) (param_index : nat) : str :=
  match d with
  | Postgres => column ++ lit "->'" ++ path ++ lit "' ? $" ++ show_nat param_index
  | Sqlite =>
      lit "instr(json_extract(" ++ column ++ lit ", '$." ++ path ++ lit "'), $"
        ++ show_nat param_index ++ lit ") > 0"
  end.
Definition now_minus_days (d : Dialect) (param_index : nat) : str :=
  match d with
  | Postgres => lit "NOW() - ($" ++ show_nat param_index ++ lit " || ' days')::INTERVAL"
  | Sqlite => lit "datetime('now', '-' || $" ++ show_nat param_index ++ lit " || ' days')"
  end.
Definition days_since (d : Dialect) (column : str) : str :=
  match d with
  | Postgres => lit "EXTRACT(EPOCH FROM (NOW() - " ++ column ++ lit ")) / 86400"
  | Sqlite => lit "(julianday('now') - julianday(" ++ column ++ lit "))"
  end.

End SqlText.

(** ** Times *)

Definition second : Z := 1000000.
Definition day : Z := 86400 * second.

(** The value of [now()]: SQLite's [datetime] has a resolution of one second. *)
Definition sql_datetime (d : Dialect) (t : Z) : Z :=
  match d with Postgres => t | Sqlite => t - t mod second end.
Definition sql_now (d : Dialect) (t : Z) : Z := sql_datetime d t.
Definition sql_now_minus_days (d : Dialect) (t : Z) (days : N) : Z :=
  sql_now d t - Z.of_N days * day.

(** ** What a database adds *)

(** The times whose year has four digits. *)
Definition valid_time (t : Z) : Prop := (0 <= t < 253402300800 * second)%Z.

Definition object_of (v : option value) : object :=
  match v with Some (Object o) => o | _ => [] end.

Class SqlEngine : Type := {
  (** The order in which the rows of a table come. *)
  scan : forall {A : Type}, list A -> list A;
  scan_perm : forall {A : Type} (l : list A), scan l ≡ₚ l;
  (** The text of a timestamp column as the adapter returns it
      ([to_rfc3339], or the text SQLite stores), and [chrono]'s parsers. *)
  show_time : Dialect -> Z -> str;
  parse_from_rfc3339 : str -> option Z;
  parse_naive : str -> option Z;
  parse_rfc3339_postgres : forall t, valid_time t ->
    parse_from_rfc3339 (show_time Postgres t) = Some t;
  parse_rfc3339_sqlite : forall t, valid_time t ->
    parse_from_rfc3339 (show_time Sqlite t) = None;
  parse_naive_sqlite : forall t, valid_time t ->
    parse_naive (show_time Sqlite t) = Some (sql_datetime Sqlite t);
  (** [chrono]'s [Serialize]. *)
  serialize_time : Z -> str;
  parse_serialized : forall t, valid_time t -> parse_from_rfc3339 (serialize_time t) = Some t;
  (** [column || $n::jsonb] of PostgreSQL, [json_patch(column, $n)] of SQLite
      (RFC 7396), on two objects. *)
  merge_objects : Dialect -> object -> object -> object;
  merge_absent : forall d o p k,
    assoc_get k p = None -> assoc_get k (merge_objects d o p) = assoc_get k o;
  merge_present : forall d o p k v,
    assoc_get k p = Some v -> v <> Null -> as_object v = None ->
    assoc_get k (merge_objects d o p) = Some v;
  merge_concat : forall o p k v,
    assoc_get k p = Some v -> assoc_get k (merge_objects Postgres o p) = Some v;
  merge_patch : forall o p k q,
    NoDup (map fst p) -> assoc_get k p = Some (Object q) ->
    assoc_get k (merge_objects Sqlite o p)
      = Some (Object (merge_objects Sqlite (object_of (assoc_get k o)) q));
  (** [INTERVAL 'n' unit]: [None] where it is not an expression. *)
  pg_interval : N -> str -> option Z;
  (** The text of [sqlx::Error::RowNotFound]. *)
  row_not_found_text : str;
}.

(** ** Errors ([error.rs]) *)

Inductive sqlx_error : Type :=
| RowNotFound
| OtherSqlx (text : str).

Inductive DbError : Type :=
| QueryFailed (e : sqlx_error)
| ReturningNotSupportedOnMutation (query_prefix : str)
| DialectNotInitialized
| Io (text : str)
| Serialize (text : str).

Definition DbError_to_string `{SqlEngine} (e : DbError) : str :=
  match e with
  | QueryFailed RowNotFound => lit "db query failed: " ++ row_not_found_text
  | QueryFailed (OtherSqlx t) => lit "db query failed: " ++ t
  | ReturningNotSupportedOnMutation q =>
      lit "SQLite adapter does not support RETURNING clause on UPDATE/DELETE statements. Query: "
        ++ q ++ lit "... Hint: Use a SELECT before the mutation if you need the row data."
  | DialectNotInitialized =>
      lit "Database dialect not initialized. This indicates the database connection failed during initialization. Check logs for database connection errors."
  | Io t => lit "db I/O error: " ++ t
  | Serialize t => lit "db serialization error: " ++ t
  end.

Record QueryResult : Type := mk_QueryResult { rows : list value; row_count : N }.

(** ** The tables

    The columns of the schema ([sqlite.rs], [bundled_schema.sql]) that the code
    reads or writes.  A JSON column holds an object. *)

Record run_row : Type := mk_run_row {
  c_id : str;
  c_workflow_name : str;
  c_conversation_id : str;
  c_parent_conversation_id : option str;
  c_codebase_id : option str;
  c_status : str;
  c_user_message : str;
  c_metadata : object;
  c_started_at : Z;
  c_completed_at : option Z;
  c_last_activity_at : option Z;
  c_working_path : option str;
  c_user_id : option str;
}.

Record event_row : Type := mk_event_row {
  e_id : str;
  e_workflow_run_id : str;
  e_event_type : str;
  e_step_index : option N;
  e_step_name : option str;
  e_data : option object;
  e_created_at : Z;
}.

Record codebase_row : Type := mk_codebase_row {
  cb_id : str; cb_name : str; cb_repository_url : option str; cb_default_cwd : str;
}.

Record db : Type := mk_db {
  runs : list run_row;
  events : list event_row;
  codebases : list codebase_row;
  (** codebase, key, value *)
  env_vars : list (str * str * str);
  (** identifier, platform identifier *)
  conversations : list (str * str);
}.

Definition set_runs (s : db) (l : list run_row) : db :=
  mk_db l (events s) (codebases s) (env_vars s) (conversations s).
Definition set_events (s : db) (l : list event_row) : db :=
  mk_db (runs s) l (codebases s) (env_vars s) (conversations s).

(** ** Rows as JSON ([row_to_value])

    SQLite returns a JSON column as its text, PostgreSQL as the document. *)
Section Rows.
Context `{SerdeJson} `{SqlEngine}.
Variable d : Dialect.

Definition text_column (o : option str) : value := from_option String Null o.
Definition time_column (o : option Z) : value :=
  from_option (fun t => String (show_time d t)) Null o.
Definition json_column (o : option object) : value :=
  match o with
  | None => Null
  | Some obj => match d with Postgres => Object obj | Sqlite => String (to_string (Object obj)) end
  end.

Definition run_to_value (r : run_row) : value := Object
  [(lit "id", String (c_id r));
   (lit "conversation_id", String (c_conversation_id r));
   (lit "codebase_id", text_column (c_codebase_id r));
   (lit "workflow_name", String (c_workflow_name r));
   (lit "user_message", String (c_user_message r));
   (lit "status", String (c_status r));
   (lit "current_step_index", Null);
   (lit "metadata", json_column (Some (c_metadata r)));
   (lit "parent_conversation_id", text_column (c_parent_conversation_id r));
   (lit "user_id", text_column (c_user_id r));
   (lit "started_at", time_column (Some (c_started_at r)));
   (lit "completed_at", time_column (c_completed_at r));
   (lit "last_activity_at", time_column (c_last_activity_at r));
   (lit "working_path", text_column (c_working_path r))].

Definition event_to_value (e : event_row) : value := Object
  [(lit "id", String (e_id e));
   (lit "workflow_run_id", String (e_workflow_run_id e));
   (lit "event_type", String (e_event_type e));
   (lit "step_index", from_option (fun n => Number (PosInt n)) Null (e_step_index e));
   (lit "step_name", text_column (e_step_name e));
   (lit "data", json_column (e_data e));
   (lit "created_at", time_column (Some (e_created_at e)))].

Definition codebase_to_value (c : codebase_row) : value := Object
  [(lit "id", String (cb_id c));
   (lit "name", String (cb_name c));
   (lit "repository_url", text_column (cb_repository_url c));
   (lit "default_cwd", String (cb_default_cwd c))].

End Rows.

(** ** Statements

    A statement runs at a time, on the tables. *)
Definition statement : Type := Z -> db -> result DbError QueryResult * db.

(** Comparisons with a NULL are not true. *)
Definition sql_lt (a : option Z) (b : Z) : bool := from_option (fun x => (x <? b)%Z) false a.
Definition sql_eq (a : option str) (b : str) : bool := from_option (str_eqb b) false a.
Definition status_in (l : list str) (r : run_row) : bool := existsb (str_eqb (c_status r)) l.

Definition select_result (l : list value) : result DbError QueryResult :=
  Ok (mk_QueryResult l (N.of_nat (length l))).

Section Statements.
Context `{SqlEngine}.

Definition select_where {A} (table : db -> list A) (p : A -> bool) (s : db) : list A :=
  scan (List.filter p (table s)).

(** [UPDATE .. SET set WHERE p]. *)
Definition update_runs (set : run_row -> run_row) (p : run_row -> bool) (s : db)
    : result DbError QueryResult * db :=
  (Ok (mk_QueryResult [] (N.of_nat (length (List.filter p (runs s))))),
   set_runs s (map (fun r => if p r then set r else r) (runs s))).

Definition delete_runs (p : run_row -> bool) (s : db) : result DbError QueryResult * db :=
  (Ok (mk_QueryResult [] (N.of_nat (length (List.filter p (runs s))))),
   set_runs s (List.filter (fun r => negb (p r)) (runs s))).

Definition delete_events (p : event_row -> bool) (s : db) : result DbError QueryResult * db :=
  (Ok (mk_QueryResult [] (N.of_nat (length (List.filter p (events s))))),
   set_events s (List.filter (fun e => negb (p e)) (events s))).

End Statements.

(** ** Programs

    [Database::query] and [Database::with_transaction].  A transaction keeps the
    changes of its body when the body succeeds and the COMMIT goes through, and
    drops them otherwise. *)
Inductive prog (A : Type) : Type :=
| Done (a : A)
| Query (q : statement) (k : result DbError QueryResult -> prog A)
| with_transaction (body : prog (result DbError value)) (k : result DbError value -> prog A).
Arguments Done {A} a.
Arguments Query {A} q k.
Arguments with_transaction {A} body k.

(** What the connection does with a request: answers it at a time, or fails. *)
Inductive answer : Type := At (t : Z) | Fails (e : DbError).

Definition ask (a : answer) (q : statement) (s : db) : result DbError QueryResult * db :=
  match a with At t => q t s | Fails e => (Err e, s) end.

(** The [n]-th request and those after it are answered by [w]. *)
Fixpoint run {A : Type} (w : nat -> answer) (p : prog A) (n : nat) (s : db) : A * nat * db :=
  match p with
  | Done a => (a, n, s)
  | Query q k => let r := ask (w n) q s in run w (k (fst r)) (S n) (snd r)
  | with_transaction body k =>
      match w n with
      | Fails e => run w (k (Err e)) (S n) s
      | At _ =>
          let r := run w body (S n) s in
          let m := snd (fst r) in
          match fst (fst r) with
          | Err e => run w (k (Err e)) (S m) s
          | Ok v =>
              match w m with
              | At _ => run w (k (Ok v)) (S m) (snd r)
              | Fails e => run w (k (Err e)) (S m) s
              end
          end
      end
  end.

Lemma run_query {A : Type} (w : nat -> answer) q (k : _ -> prog A) n s :
  run w (Query q k) n s = run w (k (fst (ask (w n) q s))) (S n) (snd (ask (w n) q s)).
Proof. done. Qed.

(** A transaction commits, or leaves the database as it was. *)
Lemma run_transaction {A : Type} (w : nat -> answer) body (k : _ -> prog A) n s :
  run w (with_transaction body k) n s =
    match w n with
    | Fails e => run w (k (Err e)) (S n) s
    | At _ =>
        let r := run w body (S n) s in
        let m := snd (fst r) in
        match fst (fst r), w m with
        | Ok v, At _ => run w (k (Ok v)) (S m) (snd r)
        | Ok _, Fails e | Err e, _ => run w (k (Err e)) (S m) s
        end
    end.
Proof. simpl. destruct (w n); [|done]. by destruct (fst (fst (run w body (S n) s))). Qed.

Definition run_val {A : Type} (w : nat -> answer) (p : prog A) (s : db) : A := fst (fst (run w p 0 s)).
Definition run_db {A : Type} (w : nat -> answer) (p : prog A) (s : db) : db := snd (run w p 0 s).

(** ** Interleaving

    Concurrent calls take turns.  SQLite runs a transaction as if it were alone: the
    adapter opens it with a deferred BEGIN in WAL mode, which reads one snapshot and may
    write only as long as nobody else has, so that it is one turn, or fails.

    PostgreSQL runs it READ COMMITTED, as BEGIN does there: a turn is one statement.  A
    statement sees what is committed at that moment, under the changes of its own
    transaction; what it changes, row by row, is only seen by others after the COMMIT.
    The rows it has changed, and the identifiers it has inserted, are locked up to
    there: a statement that would change one of them waits, which is a turn in which
    nothing happens.  The statements of the store write runs and events only. *)
#[export] Instance run_row_eq_dec : EqDecision run_row.
Proof. solve_decision. Defined.
#[export] Instance event_row_eq_dec : EqDecision event_row.
Proof. solve_decision. Defined.

Section Patch.
Context {A : Type} `{EqDecision A}.
Definition without (gone l : list A) : list A :=
  List.filter (fun x => negb (bool_decide (x ∈ gone))) l.
(** Rows that are gone, or replaced, and rows that are new. *)
Definition patch (gone new l : list A) : list A := without gone l ++ new.
(** The same after a further statement, which took the table from [v] to [v']. *)
Definition more_gone (gone new v v' : list A) : list A := gone ++ without new (without v' v).
Definition more_new (new v v' : list A) : list A := without (without v' v) new ++ without v v'.
End Patch.

(** What an open transaction has changed. *)
Record changes : Type := mk_changes {
  gone_runs : list run_row;
  new_runs : list run_row;
  gone_events : list event_row;
  new_events : list event_row;
}.
Definition no_changes : changes := mk_changes [] [] [] [].
Definition apply_changes (c : changes) (s : db) : db :=
  set_events (set_runs s (patch (gone_runs c) (new_runs c) (runs s)))
    (patch (gone_events c) (new_events c) (events s)).
Definition after_statement (c : changes) (v v' : db) : changes :=
  mk_changes
    (more_gone (gone_runs c) (new_runs c) (runs v) (runs v')) (more_new (new_runs c) (runs v) (runs v'))
    (more_gone (gone_events c) (new_events c) (events v) (events v'))
    (more_new (new_events c) (events v) (events v')).

(** The rows that are locked, by their identifiers. *)
Definition locked_runs (c : changes) : list str := map c_id (gone_runs c ++ new_runs c).
Definition locked_events (c : changes) : list str := map e_id (gone_events c ++ new_events c).
Definition overlap (l l' : list str) : bool := existsb (fun x => existsb (str_eqb x) l') l.
Definition conflicts (c c' : changes) : bool :=
  overlap (locked_runs c) (locked_runs c') || overlap (locked_events c) (locked_events c').

(** A client of the database: between two transactions, or in one. *)
Inductive client (A : Type) : Type :=
| Idle (p : prog A)
| Open (body : prog (result DbError value)) (k : result DbError value -> prog A) (own : changes).
Arguments Idle {A} p.
Arguments Open {A} body k own.
Definition own_changes {A : Type} (c : client A) : changes :=
  match c with Idle _ => no_changes | Open _ _ own => own end.

(** One turn of a client, beside the open transactions of the others.  A transaction's
    executor has queries only, so that its body opens no other. *)
Definition turn {A : Type} (d : Dialect) (w : nat -> answer) (others : list changes)
    (c : client A) (n : nat) (s : db) : client A * nat * db :=
  let waits own := existsb (conflicts own) others in
  match c with
  | Idle (Done a) => (c, n, s)
  | Idle (Query q k) =>
      match w n with
      | Fails e => (Idle (k (Err e)), S n, s)
      | At t =>
          let r := q t s in
          if waits (after_statement no_changes s (snd r)) then (c, S n, s)
          else (Idle (k (fst r)), S n, snd r)
      end
  | Idle (with_transaction body k) =>
      match d with
      | Sqlite =>
          let r := run w (with_transaction body Done) n s in
          (Idle (k (fst (fst r))), snd (fst r), snd r)
      | Postgres =>
          match w n with
          | Fails e => (Idle (k (Err e)), S n, s)
          | At _ => (Open body k no_changes, S n, s)
          end
      end
  | Open (Query q body) k own =>
      match w n with
      | Fails e => (Open (body (Err e)) k own, S n, s)
      | At t =>
          let v := apply_changes own s in
          let r := q t v in
          let own' := after_statement own v (snd r) in
          if waits own' then (c, S n, s) else (Open (body (fst r)) k own', S n, s)
      end
  | Open (Done (Err e)) k own => (Idle (k (Err e)), S n, s)
  | Open (Done (Ok v)) k own =>
      match w n with
      | At _ => (Idle (k (Ok v)), S n, apply_changes own s)
      | Fails e => (Idle (k (Err e)), S n, s)
      end
  | Open (with_transaction _ _) _ _ => (c, n, s)
  end.

Definition open_beside {A : Type} (i : nat) (pool : list (client A)) : list changes :=
  map own_changes (delete i pool).
Fixpoint interleave_clients {A : Type} (d : Dialect) (w : nat -> answer) (schedule : list nat)
    (pool : list (client A)) (n : nat) (s : db) : list (client A) * nat * db :=
  match schedule with
  | [] => (pool, n, s)
  | i :: rest =>
      match pool !! i with
      | None => interleave_clients d w rest pool n s
      | Some c =>
          let r := turn d w (open_beside i pool) c n s in
          interleave_clients d w rest (<[i := fst (fst r)]> pool) (snd (fst r)) (snd r)
      end
  end.
Definition interleave {A : Type} (d : Dialect) (w : nat -> answer) (schedule : list nat)
    (pool : list (prog A)) (n : nat) (s : db) : list (client A) * nat * db :=
  interleave_clients d w schedule (map Idle pool) n s.

(** A query is answered in its turn, or it waits. *)
Lemma turn_query {A : Type} d (w : nat -> answer) others q (k : _ -> prog A) n s :
  let r := turn d w others (Idle (Query q k)) n s in
  (fst (fst r) = Idle (k (fst (ask (w n) q s))) /\ snd r = snd (ask (w n) q s))
  \/ (fst (fst r) = Idle (Query q k) /\ snd r = s).
Proof. cbn [turn]. destruct (w n) as [t|e]; [|by left]. case_match; [by right|by left]. Qed.

(** ** Reasoning about programs *)

(** A relation on the states of the database holds across each query of a program,
    and across each of its transactions that commits. *)
Fixpoint atomically {A : Type} (R : relation db) (p : prog A) : Prop :=
  match p with
  | Done _ => True
  | Query q k => (forall t s, R s (snd (q t s))) /\ forall r, atomically R (k r)
  | with_transaction body k =>
      (forall w n s, is_ok (fst (fst (run w body n s))) = true -> R s (snd (run w body n s)))
      /\ forall r, atomically R (k r)
  end.

Lemma atomically_impl {A : Type} (R R' : relation db) (p : prog A) :
  (forall s s', R s s' -> R' s s') -> atomically R p -> atomically R' p.
Proof.
  intros HR. induction p as [A a|A q k IH|A body IHb k IH]; simpl; [done| |]; naive_solver.
Qed.

(** It holds across each statement, whether in a transaction or not. *)
Fixpoint steps {A : Type} (R : relation db) (p : prog A) : Prop :=
  match p with
  | Done _ => True
  | Query q k => (forall t s, R s (snd (q t s))) /\ forall r, steps R (k r)
  | with_transaction body k => steps R body /\ forall r, steps R (k r)
  end.

Lemma steps_impl {A : Type} (R R' : relation db) (p : prog A) :
  (forall s s', R s s' -> R' s s') -> steps R p -> steps R' p.
Proof.
  intros HR. induction p as [A a|A q k IH|A body IHb k IH]; cbn [steps]; [done| |]; naive_solver.
Qed.

Section Preorder.
(** A reflexive and transitive relation that a program respects at each of its
    steps is respected by its runs. *)
Variable R : relation db.
Context {HR : PreOrder R}.

Lemma ask_respects a (q : statement) s :
  (forall t s, R s (snd (q t s))) -> R s (snd (ask a q s)).
Proof. intros Hq. destruct a; simpl; [apply Hq|reflexivity]. Qed.

Lemma run_respects {A : Type} (w : nat -> answer) (p : prog A) n s :
  atomically R p -> R s (snd (run w p n s)).
Proof.
  revert n s. induction p as [A a|A q k IH|A body _ k IH]; intros n s; simpl.
  - reflexivity.
  - intros [Hq Hk]. etrans; [by apply (ask_respects (w n))|]. by apply IH.
  - intros [Hb Hk]. specialize (Hb w (S n) s).
    destruct (w n); [|by apply IH]. destruct (fst (fst _)); [|by apply IH].
    destruct (w (snd (fst _))); [|by apply IH].
    etrans; [by apply Hb|by apply IH].
Qed.

(** A transaction whose body respects the relation at each of its steps. *)
Lemma atomically_transaction {A : Type} body (k : result DbError value -> prog A) :
  atomically R body -> (forall r, atomically R (k r)) -> atomically R (with_transaction body k).
Proof. intros Hb Hk. split; [|done]. intros w n s _. by apply run_respects. Qed.

Lemma steps_atomically {A : Type} (p : prog A) : steps R p -> atomically R p.
Proof.
  induction p as [A a|A q k IH|A body IHb k IH]; cbn [steps atomically]; [done| |].
  - intros [Hq Hk]. split; [done|]. intros r. apply IH, Hk.
  - intros [Hb Hk]. split; [|intros r; apply IH, Hk]. intros w n s _. by apply run_respects, IHb.
Qed.

End Preorder.

(** ** Lemmas on statements *)

Lemma elem_of_scan `{SqlEngine} {A} (x : A) (l : list A) : x ∈ scan l <-> x ∈ l.
Proof. by rewrite scan_perm. Qed.

Lemma elem_of_list_filter {A} (f : A -> bool) (l : list A) x :
  x ∈ List.filter f l <-> f x = true /\ x ∈ l.
Proof. rewrite !list_elem_of_In, filter_In. tauto. Qed.

Lemma elem_of_select `{SqlEngine} {A} (table : db -> list A) p s x :
  x ∈ select_where table p s <-> x ∈ table s /\ p x = true.
Proof. unfold select_where. rewrite elem_of_scan, elem_of_list_filter. tauto. Qed.

Lemma filter_none {A} (f : A -> bool) (l : list A) :
  (forall x, x ∈ l -> f x = false) -> List.filter f l = [].
Proof.
  induction l as [|x l IH]; intros Hf; simpl; [done|].
  rewrite (Hf x) by set_solver. apply IH. set_solver.
Qed.

Lemma count_zero {A} (f : A -> bool) (l : list A) :
  N.of_nat (length (List.filter f l)) = 0%N <-> forall x, x ∈ l -> f x = false.
Proof.
  split.
  - intros E x Hx. destruct (f x) eqn:Ef; [|done].
    assert (Hin : x ∈ List.filter f l) by (by apply elem_of_list_filter).
    destruct (List.filter f l); [set_solver|simpl in E; lia].
  - intros Hf. by rewrite filter_none.
Qed.

Lemma sql_datetime_idemp d t : sql_datetime d (sql_datetime d t) = sql_datetime d t.
Proof.
  destruct d; unfold sql_datetime; [done|].
  rewrite Zminus_mod_idemp_r. rewrite Z.sub_diag. unfold second. by rewrite Z.mod_0_l, Z.sub_0_r.
Qed.

Lemma sql_datetime_mono d t t' : (t <= t')%Z -> (sql_datetime d t <= sql_datetime d t')%Z.
Proof.
  destruct d; unfold sql_datetime, second; [done|]. intros Hle.
  pose proof (Z.div_mod t 1000000). pose proof (Z.div_mod t' 1000000).
  pose proof (Z.div_le_mono t t' 1000000). lia.
Qed.

Lemma sql_datetime_bounds d t : (t - second < sql_datetime d t <= t)%Z.
Proof.
  destruct d; unfold sql_datetime, second; [lia|].
  pose proof (Z.mod_pos_bound t 1000000). lia.
Qed.
