(* ===== verification/RunStore.v ===== *)
(** * The store of workflow runs

    [workflows.rs] of the crate [har-db]: [SqlWorkflowStore], which implements the
    trait [WorkflowStore] of [har-ledger/src/store.rs] with SQL, and the functions
    that stand beside it.  Each operation is a program of [Database]: its statements
    with the meaning of their SQL, and what the code does with their results.  The last
    part gives instances to evaluate them on. *)
From S2P Require Import Prelude Float64 Json StdModel DagNode Workflow Database.

(** ** Constants *)

Definition ORPHAN_RESUME_STALE_DAYS : N := 1.
Definition STALE_PENDING_AGE_MS : N := 5 * 60 * 1000.

(** ** Data ([store.rs]) *)

(** [StoreError::Db]. *)
Inductive StoreError : Type := Db (message : str).

Inductive WorkflowEventType : Type :=
| WorkflowStarted | WorkflowCompleted | WorkflowFailed | NodeStarted | NodeCompleted
| NodeFailed | NodeSkipped | NodeSkippedPriorSuccess | NodeAlwaysRunReset
| LoopIterationStarted | LoopIterationCompleted | LoopIterationFailed
| ToolCalled | ToolCompleted | RalphStoryStarted | RalphStoryCompleted
| ApprovalRequested | ApprovalReceived | WorkflowCancelled | WorkflowArtifact
| NodeSessionResumed.

Definition event_type_as_str (t : WorkflowEventType) : str :=
  match t with
  | WorkflowStarted => lit "workflow_started"
  | WorkflowCompleted => lit "workflow_completed"
  | WorkflowFailed => lit "workflow_failed"
  | NodeStarted => lit "node_started"
  | NodeCompleted => lit "node_completed"
  | NodeFailed => lit "node_failed"
  | NodeSkipped => lit "node_skipped"
  | NodeSkippedPriorSuccess => lit "node_skipped_prior_success"
  | NodeAlwaysRunReset => lit "node_always_run_reset"
  | LoopIterationStarted => lit "loop_iteration_started"
  | LoopIterationCompleted => lit "loop_iteration_completed"
  | LoopIterationFailed => lit "loop_iteration_failed"
  | ToolCalled => lit "tool_called"
  | ToolCompleted => lit "tool_completed"
  | RalphStoryStarted => lit "ralph_story_started"
  | RalphStoryCompleted => lit "ralph_story_completed"
  | ApprovalRequested => lit "approval_requested"
  | ApprovalReceived => lit "approval_received"
  | WorkflowCancelled => lit "workflow_cancelled"
  | WorkflowArtifact => lit "workflow_artifact"
  | NodeSessionResumed => lit "node_session_resumed"
  end.

(** [WorkflowEventType::ALL] and the list of the names. *)
Definition event_type_ALL : list WorkflowEventType :=
  [WorkflowStarted; WorkflowCompleted; WorkflowFailed; NodeStarted; NodeCompleted; NodeFailed;
   NodeSkipped; NodeSkippedPriorSuccess; NodeAlwaysRunReset; LoopIterationStarted;
   LoopIterationCompleted; LoopIterationFailed; ToolCalled; ToolCompleted; RalphStoryStarted;
   RalphStoryCompleted; ApprovalRequested; ApprovalReceived; WorkflowCancelled;
   WorkflowArtifact; NodeSessionResumed].
Definition WORKFLOW_EVENT_TYPES : list str :=
  [lit "workflow_started"; lit "workflow_completed"; lit "workflow_failed"; lit "node_started";
   lit "node_completed"; lit "node_failed"; lit "node_skipped"; lit "node_skipped_prior_success";
   lit "node_always_run_reset"; lit "loop_iteration_started"; lit "loop_iteration_completed";
   lit "loop_iteration_failed"; lit "tool_called"; lit "tool_completed";
   lit "ralph_story_started"; lit "ralph_story_completed"; lit "approval_requested";
   lit "approval_received"; lit "workflow_cancelled"; lit "workflow_artifact";
   lit "node_session_resumed"].

Record CreateWorkflowRunData : Type := mk_CreateWorkflowRunData {
  cd_workflow_name : str; cd_conversation_id : str; cd_codebase_id : option str;
  cd_user_message : str; cd_metadata : option object; cd_working_path : option str;
  cd_parent_conversation_id : option str; cd_user_id : option str;
}.

Record WorkflowRunUpdate : Type := mk_WorkflowRunUpdate {
  up_status : option WorkflowRunStatus; up_metadata : option object;
}.

Record CreateWorkflowEventData : Type := mk_CreateWorkflowEventData {
  ce_workflow_run_id : str; ce_event_type : WorkflowEventType; ce_step_index : option N;
  ce_step_name : option str; ce_data : option object;
}.

Record CodebaseRecord : Type := mk_CodebaseRecord {
  cr_id : str; cr_name : str; cr_repository_url : option str; cr_default_cwd : str;
}.

Record ActiveRunSelf : Type := mk_ActiveRunSelf { self_id : str; self_started_at : Z }.

(** Texts and failures of [serde] and of the database engine. *)
Class StoreText : Type := {
  unique_violation : str;
  syntax_error : str;
  from_value_error : value -> str;
  map_to_string : object -> result str str;
  (** [lower(hex(randomblob(16)))], the identifier of a new row of the events. *)
  random_id : nat -> str;
  (** [ApprovalContext] as JSON. *)
  approval_to_value : ApprovalContext -> value;
}.

(** ** Rows *)

Definition status_to_str (s : WorkflowRunStatus) : str :=
  match s with
  | Run_Pending => lit "pending"
  | Run_Running => lit "running"
  | Run_Completed => lit "completed"
  | Run_Failed => lit "failed"
  | Run_Cancelled => lit "cancelled"
  | Run_Paused => lit "paused"
  end.

(** The [match] on the text of a status. *)
Definition status_of_str (s : str) : option WorkflowRunStatus :=
  if str_eqb s (lit "pending") then Some Run_Pending
  else if str_eqb s (lit "running") then Some Run_Running
  else if str_eqb s (lit "completed") then Some Run_Completed
  else if str_eqb s (lit "failed") then Some Run_Failed
  else if str_eqb s (lit "cancelled") then Some Run_Cancelled
  else if str_eqb s (lit "paused") then Some Run_Paused
  else None.

Section Rows.
Context `{SerdeJson} `{SqlEngine}.

Definition get_str (key : str) (raw : object) : option str := assoc_get key raw ≫= as_str.

Definition get_map (key : str) (raw : object) : object :=
  match assoc_get key raw with
  | Some (String s) => object_of (from_str s)
  | Some (Object o) => o
  | _ => []
  end.

Definition get_datetime (key : str) (raw : object) : option Z :=
  s ← get_str key raw;
  match parse_from_rfc3339 s with Some t => Some t | None => parse_naive s end.

Definition normalize_row_to_run (raw : object) : option WorkflowRun :=
  id ← get_str (lit "id") raw;
  name ← get_str (lit "workflow_name") raw;
  conversation ← get_str (lit "conversation_id") raw;
  status_str ← get_str (lit "status") raw;
  message ← get_str (lit "user_message") raw;
  status ← status_of_str status_str;
  started ← get_datetime (lit "started_at") raw;
  Some {|
    run_id := id;
    workflow_name := name;
    conversation_id := conversation;
    parent_conversation_id := get_str (lit "parent_conversation_id") raw;
    codebase_id := get_str (lit "codebase_id") raw;
    run_status := status;
    user_message := message;
    metadata := get_map (lit "metadata") raw;
    started_at := started;
    completed_at := get_datetime (lit "completed_at") raw;
    last_activity_at := get_datetime (lit "last_activity_at") raw;
    working_path := get_str (lit "working_path") raw;
    user_id := get_str (lit "user_id") raw;
  |}.

(** [rows[0].as_object().cloned().unwrap_or_default()], when there is a row. *)
Definition row_map (v : value) : object := object_of (Some v).

(** No row is [None]; a row that cannot be read is [None] too. *)
Definition first_run (r : QueryResult) : option WorkflowRun :=
  match rows r with [] => None | v :: _ => normalize_row_to_run (row_map v) end.

End Rows.

(** ** [WorkflowRun] as JSON (its [Serialize] and [Deserialize])

    A nullable field must be present. *)
Section RunValue.
Context `{SqlEngine} `{StoreText}.

Definition time_value (o : option Z) : value :=
  from_option (fun t => String (serialize_time t)) Null o.

Definition WorkflowRun_to_value (r : WorkflowRun) : value := Object
  [(lit "id", String (run_id r));
   (lit "workflow_name", String (workflow_name r));
   (lit "conversation_id", String (conversation_id r));
   (lit "parent_conversation_id", text_column (parent_conversation_id r));
   (lit "codebase_id", text_column (codebase_id r));
   (lit "status", String (status_to_str (run_status r)));
   (lit "user_message", String (user_message r));
   (lit "metadata", Object (metadata r));
   (lit "started_at", String (serialize_time (started_at r)));
   (lit "completed_at", time_value (completed_at r));
   (lit "last_activity_at", time_value (last_activity_at r));
   (lit "working_path", text_column (working_path r));
   (lit "user_id", text_column (user_id r))].

Definition required_nullable {A} (f : str -> option A) (key : str) (o : object)
    : option (option A) :=
  match assoc_get key o with
  | Some Null => Some None
  | Some (String s) => Some <$> f s
  | _ => None
  end.

Definition read_WorkflowRun (o : object) : option WorkflowRun :=
  id ← get_str (lit "id") o;
  name ← get_str (lit "workflow_name") o;
  conversation ← get_str (lit "conversation_id") o;
  parent ← required_nullable Some (lit "parent_conversation_id") o;
  codebase ← required_nullable Some (lit "codebase_id") o;
  status ← get_str (lit "status") o ≫= status_of_str;
  message ← get_str (lit "user_message") o;
  meta ← assoc_get (lit "metadata") o ≫= as_object;
  started ← get_str (lit "started_at") o ≫= parse_from_rfc3339;
  finished ← required_nullable parse_from_rfc3339 (lit "completed_at") o;
  activity ← required_nullable parse_from_rfc3339 (lit "last_activity_at") o;
  path ← required_nullable Some (lit "working_path") o;
  user ← required_nullable Some (lit "user_id") o;
  Some (mk_WorkflowRun id name conversation parent codebase status message meta started
          finished activity path user).

Definition WorkflowRun_from_value (v : value) : result str WorkflowRun :=
  match as_object v ≫= read_WorkflowRun with
  | Some r => Ok r
  | None => Err (from_value_error v)
  end.

End RunValue.

(** ** Conditions and orders of the statements *)

Definition Run_id_is (id : str) (r : run_row) : bool := str_eqb (c_id r) id.
Definition status_is (s : str) (r : run_row) : bool := str_eqb (c_status r) s.

(** The text of the shared resumability clause, and what it means. *)
Definition resumable_status_clause_text (d : Dialect) (day_param_idx : nat) : str :=
  let stale_orphan :=
    lit "last_activity_at IS NULL OR last_activity_at < " ++ SqlText.now_minus_days d day_param_idx in
  lit "(status IN ('failed', 'paused') OR (status = 'running' AND (" ++ stale_orphan ++ lit ")))".

Definition resumable_status_clause (d : Dialect) (t : Z) (days : N) (r : run_row) : bool :=
  let stale_orphan :=
    bool_decide (c_last_activity_at r = None)
    || sql_lt (c_last_activity_at r) (sql_now_minus_days d t days) in
  status_in [lit "failed"; lit "paused"] r || (status_is (lit "running") r && stale_orphan).

(** The cutoff of [stale_pending_cutoff]: [None] where its text is no SQL. *)
Definition stale_pending_cutoff_text (is_postgres : bool) : str :=
  if is_postgres then
    lit "NOW() - INTERVAL '" ++ show_N STALE_PENDING_AGE_MS ++ lit "' milliseconds"
  else
    let seconds := (STALE_PENDING_AGE_MS / 1000)%N in
    lit "datetime('now', '-" ++ show_N seconds ++ lit " seconds')".

Definition interval_before `{SqlEngine} (d : Dialect) (t : Z) (pg_count : N) (pg_unit : str)
    (sqlite : Z) : option Z :=
  match d with
  | Postgres => i ← pg_interval pg_count pg_unit; Some (t - i)%Z
  | Sqlite => Some (sql_now Sqlite t - sqlite)%Z
  end.

Definition stale_pending_cutoff `{SqlEngine} (d : Dialect) (t : Z) : option Z :=
  interval_before d t STALE_PENDING_AGE_MS (lit "milliseconds")
    (Z.of_N (STALE_PENDING_AGE_MS / 1000) * second).

(** [ORDER BY started_at ASC], [DESC], and [started_at ASC, id ASC]. *)
Definition started_asc (a b : run_row) : Prop := (c_started_at a <= c_started_at b)%Z.
Definition started_desc (a b : run_row) : Prop := (c_started_at b <= c_started_at a)%Z.
Definition started_id_asc (a b : run_row) : Prop :=
  (c_started_at a < c_started_at b)%Z \/
  c_started_at a = c_started_at b /\ str_leb (c_id a) (c_id b) = true.

#[export] Instance started_asc_dec a b : Decision (started_asc a b).
Proof. unfold started_asc. apply _. Defined.
#[export] Instance started_desc_dec a b : Decision (started_desc a b).
Proof. unfold started_desc. apply _. Defined.
#[export] Instance started_id_asc_dec a b : Decision (started_id_asc a b).
Proof. unfold started_id_asc. apply _. Defined.

(** [a < b] on text. *)
Definition str_ltb (a b : str) : bool := str_leb a b && negb (str_eqb a b).

(** [LIKE], with its wildcards; SQLite's ignores the case of ASCII letters. *)
Fixpoint like_chars (eq : char -> char -> bool) (pat s : str) : bool :=
  match pat with
  | [] => is_empty s
  | p :: pat' =>
      if (p =? 37)%N then
        (fix any (s : str) : bool :=
           like_chars eq pat' s || match s with [] => false | _ :: s' => any s' end) s
      else match s with
           | [] => false
           | c :: s' => ((p =? 95)%N || eq p c) && like_chars eq pat' s'
           end
  end.
Definition like (d : Dialect) (pat s : str) : bool :=
  match d with
  | Postgres => like_chars (fun p c => (p =? c)%N) pat s
  | Sqlite => like_chars (fun p c => (to_ascii_lowercase p =? to_ascii_lowercase c)%N) pat s
  end.

(** [if result.rows.is_empty() .. normalize_row_to_run], and the error text. *)
Definition one_run `{SerdeJson} `{SqlEngine} (what : str) (r : result DbError QueryResult)
    : result StoreError (option WorkflowRun) :=
  match r with
  | Ok res => Ok (first_run res)
  | Err e => Err (Db (what ++ DbError_to_string e))
  end.

(** ** [SqlWorkflowStore] *)

Section Store.
Context `{SerdeJson} `{SqlEngine} `{StoreText}.
Variable d : Dialect.

Definition syntax_failure : result DbError QueryResult := Err (QueryFailed (OtherSqlx syntax_error)).

(** [SELECT * FROM remote_agent_workflow_runs WHERE p ORDER BY R LIMIT n]. *)
Definition select_runs (p : Z -> run_row -> bool) : statement := fun t s =>
  (select_result (map (run_to_value d) (select_where runs (p t) s)), s).
Definition select_runs_by (p : run_row -> bool) (R : relation run_row)
    `{!forall a b, Decision (R a b)} (limit : nat) (s : db) : list run_row :=
  take limit (merge_sort R (select_where runs p s)).

Definition select_status (id : str) : statement := fun t s =>
  (select_result
     (map (fun r => Object [(lit "status", String (c_status r))])
        (select_where runs (Run_id_is id) s)), s).

(** The row of the INSERT: the columns it leaves out have the defaults of the
    schema. *)
Definition insert_run (id : str) (data : CreateWorkflowRunData) (metadata_json : str)
    : statement := fun t s =>
  if existsb (Run_id_is id) (runs s) then (Err (QueryFailed (OtherSqlx unique_violation)), s)
  else
    let r := {|
      c_id := id;
      c_workflow_name := cd_workflow_name data;
      c_conversation_id := cd_conversation_id data;
      c_parent_conversation_id := cd_parent_conversation_id data;
      c_codebase_id := cd_codebase_id data;
      c_status := lit "pending";
      c_user_message := cd_user_message data;
      c_metadata := object_of (from_str metadata_json);
      c_started_at := sql_now d t;
      c_completed_at := None;
      c_last_activity_at := Some (sql_now d t);
      c_working_path := cd_working_path data;
      c_user_id := cd_user_id data;
    |} in
    (select_result [run_to_value d r], set_runs s (runs s ++ [r])).

(** [serde_json::to_string] of the metadata, with its two fallbacks. *)
Definition metadata_json (md : option object) : result StoreError str :=
  match md with
  | None => Ok (lit "{}")
  | Some m =>
      match map_to_string m with
      | Ok s => Ok s
      | Err serialize_err =>
          match assoc_get (lit "github_context") m with
          | Some _ =>
              Err (Db (lit "Failed to serialize workflow metadata: " ++ serialize_err
                       ++ lit ". Metadata contains github_context which is required for this workflow."))
          | None => Ok (lit "{}")
          end
      end
  end.

(** [run_id] is the identifier [generate_uuid] gives. *)
Definition create_workflow_run_tx (run_id : str) (data : CreateWorkflowRunData) (json : str)
    : prog (result DbError value) :=
  Query (insert_run run_id data json) (fun r =>
    match r with
    | Err e => Done (Err e)
    | Ok insert_result =>
        match rows insert_result with
        | [] => Done (Err (QueryFailed RowNotFound))
        | v :: _ =>
            match normalize_row_to_run (row_map v) with
            | Some run => Done (Ok (WorkflowRun_to_value run))
            | None => Done (Err (QueryFailed RowNotFound))
            end
        end
    end).

Definition create_workflow_run_inner (run_id : str) (data : CreateWorkflowRunData)
    : prog (result StoreError WorkflowRun) :=
  match metadata_json (cd_metadata data) with
  | Err e => Done (Err e)
  | Ok json =>
      with_transaction (create_workflow_run_tx run_id data json)
        (fun r =>
           match r with
           | Err e => Done (Err (Db (DbError_to_string e)))
           | Ok val =>
               match WorkflowRun_from_value val with
               | Ok run => Done (Ok run)
               | Err e => Done (Err (Db (lit "Failed to deserialize workflow run: " ++ e)))
               end
           end)
  end.

Definition create_workflow_run := create_workflow_run_inner.

(** [WorkflowNotResumableError(..)] and its message. *)
Definition not_resumable_message (id status : str) : str :=
  lit "WorkflowNotResumableError(run_id=" ++ id ++ lit ", current_status=" ++ status ++ lit ")".
Definition WorkflowNotResumableError_to_string (run_id current_status : str) : str :=
  lit "Workflow run is not resumable (id: " ++ run_id ++ lit ", status: " ++ current_status
    ++ lit "). It may have already been resumed, completed, or cancelled.".

(** [result.rows.first().and_then(|r| r.get("status")).and_then(Value::as_str)]. *)
Definition first_status (r : QueryResult) : option str :=
  v ← head (rows r); value_get (lit "status") v ≫= as_str.

Definition resume_cas_miss_probe (id : str) : prog (result StoreError WorkflowRun) :=
  Query (select_status id) (fun r =>
    match r with
    | Ok result =>
        match first_status result with
        | None => Done (Err (Db (lit "Workflow run not found (id: " ++ id ++ lit ")")))
        | Some status => Done (Err (Db (not_resumable_message id status)))
        end
    | Err e => Done (Err (Db (lit "Failed to resume workflow run: " ++ DbError_to_string e)))
    end).

Definition get_workflow_run (id : str) : prog (result StoreError (option WorkflowRun)) :=
  Query (select_runs (fun _ => Run_id_is id)) (fun r =>
    Done (one_run (lit "Failed to get workflow run: ") r)).

Definition get_workflow_run_status (id : str)
    : prog (result StoreError (option WorkflowRunStatus)) :=
  Query (select_status id) (fun r =>
    match r with
    | Ok result => Done (Ok (first_status result ≫= status_of_str))
    | Err e =>
        Done (Err (Db (lit "Failed to get workflow run status: " ++ DbError_to_string e)))
    end).

(** The WHERE clauses of the lock query, and the statement. *)
Definition active_clauses (cutoff : Z) (self_run : option ActiveRunSelf)
    : list (run_row -> bool) :=
  (fun r => status_in [lit "running"; lit "paused"] r
            || (status_is (lit "pending") r && (cutoff <? c_started_at r)%Z))
  :: match self_run with
     | None => []
     | Some self =>
         let param := sql_datetime d (self_started_at self) in
         let col r := sql_datetime d (c_started_at r) in
         [ (fun r => negb (Run_id_is (self_id self) r));
           (fun r => (col r <? param)%Z
                     || ((col r =? param)%Z && str_ltb (c_id r) (self_id self))) ]
     end.

(** The parameters: [working_path] is the first. *)
Definition select_active (working_path : str) (self_run : option ActiveRunSelf) : statement :=
  fun t s =>
    match stale_pending_cutoff d t with
    | None => (syntax_failure, s)
    | Some cutoff =>
        let where_ r := forallb (fun c => c r) (active_clauses cutoff self_run) in
        (select_result (map (run_to_value d) (select_runs_by where_ started_id_asc 1 s)), s)
    end.

Definition get_active_workflow_run_by_path (working_path : str) (self_run : option ActiveRunSelf)
    : prog (result StoreError (option WorkflowRun)) :=
  Query (select_active working_path self_run) (fun r =>
    Done (one_run (lit "Failed to get active workflow run by path: ") r)).

Definition find_resumable_run (workflow_name working_path : str)
    : prog (result StoreError (option WorkflowRun)) :=
  Query (fun t s =>
           let where_ r :=
             str_eqb (c_workflow_name r) workflow_name && sql_eq (c_working_path r) working_path
             && resumable_status_clause d t ORPHAN_RESUME_STALE_DAYS r in
           (select_result (map (run_to_value d) (select_runs_by where_ started_desc 1 s)), s))
    (fun r => Done (one_run (lit "Failed to find resumable run: ") r)).

(** ** Updates of a run: the SET clauses *)

Definition set_status (st : str) (r : run_row) : run_row :=
  mk_run_row (c_id r) (c_workflow_name r) (c_conversation_id r) (c_parent_conversation_id r)
    (c_codebase_id r) st (c_user_message r) (c_metadata r) (c_started_at r) (c_completed_at r)
    (c_last_activity_at r) (c_working_path r) (c_user_id r).
Definition set_completed_at (o : option Z) (r : run_row) : run_row :=
  mk_run_row (c_id r) (c_workflow_name r) (c_conversation_id r) (c_parent_conversation_id r)
    (c_codebase_id r) (c_status r) (c_user_message r) (c_metadata r) (c_started_at r) o
    (c_last_activity_at r) (c_working_path r) (c_user_id r).
Definition set_started_at (t : Z) (r : run_row) : run_row :=
  mk_run_row (c_id r) (c_workflow_name r) (c_conversation_id r) (c_parent_conversation_id r)
    (c_codebase_id r) (c_status r) (c_user_message r) (c_metadata r) t (c_completed_at r)
    (c_last_activity_at r) (c_working_path r) (c_user_id r).
Definition set_last_activity_at (o : option Z) (r : run_row) : run_row :=
  mk_run_row (c_id r) (c_workflow_name r) (c_conversation_id r) (c_parent_conversation_id r)
    (c_codebase_id r) (c_status r) (c_user_message r) (c_metadata r) (c_started_at r)
    (c_completed_at r) o (c_working_path r) (c_user_id r).
(** [metadata = json_merge(metadata, $n)]. *)
Definition merge_metadata (p : object) (r : run_row) : run_row :=
  mk_run_row (c_id r) (c_workflow_name r) (c_conversation_id r) (c_parent_conversation_id r)
    (c_codebase_id r) (c_status r) (c_user_message r) (merge_objects d (c_metadata r) p)
    (c_started_at r) (c_completed_at r) (c_last_activity_at r) (c_working_path r) (c_user_id r).

(** A statement that fails with the text [what], or that counts no row. *)
Definition unit_update (what missing : str) (r : result DbError QueryResult)
    : result StoreError unit :=
  match r with
  | Ok result => if (row_count result =? 0)%N then Err (Db missing) else Ok tt
  | Err e => Err (Db (what ++ DbError_to_string e))
  end.

Definition not_running_message (id : str) : str :=
  lit "Workflow run not found or not in running state (id: " ++ id ++ lit ")".
Definition not_found_message (id : str) : str :=
  lit "Workflow run not found (id: " ++ id ++ lit ")".

Definition fail_orphaned_runs : prog (result StoreError N) :=
  Query (fun t =>
           update_runs (fun r =>
             merge_metadata [(lit "failure_reason", String (lit "server_restart"))]
               (set_completed_at (Some (sql_now d t)) (set_status (lit "failed") r)))
             (status_is (lit "running")))
    (fun r =>
       match r with
       | Ok result => Done (Ok (row_count result))
       | Err e =>
           Done (Err (Db (lit "Failed to fail orphaned workflow runs: " ++ DbError_to_string e)))
       end).

Definition resume_update (id : str) : statement := fun t =>
  update_runs (fun r =>
    set_last_activity_at (Some (sql_now d t)) (set_started_at (sql_now d t)
      (set_completed_at None (set_status (lit "running") r))))
    (fun r => Run_id_is id r && resumable_status_clause d t ORPHAN_RESUME_STALE_DAYS r).

(** Phase 2: the SELECT of the updated row. *)
Definition resume_read (id : str) : prog (result StoreError WorkflowRun) :=
  Query (select_runs (fun _ => Run_id_is id)) (fun sel =>
    match sel with
    | Ok sel_result =>
        match rows sel_result with
        | [] => Done (Err (Db (lit "Workflow run vanished after update (id: " ++ id ++ lit ")")))
        | v :: _ =>
            match normalize_row_to_run (row_map v) with
            | Some run => Done (Ok run)
            | None => Done (Err (Db (lit "Resume returned empty row")))
            end
        end
    | Err e =>
        Done (Err (Db (lit "Failed to read workflow run after update: " ++ DbError_to_string e)))
    end).

Definition resume_workflow_run (id : str) : prog (result StoreError WorkflowRun) :=
  Query (resume_update id) (fun r =>
    match r with
    | Ok result =>
        if (row_count result =? 0)%N then resume_cas_miss_probe id else resume_read id
    | Err e => Done (Err (Db (lit "Failed to resume workflow run: " ++ DbError_to_string e)))
    end).

(** The SET clauses of [update_workflow_run], from first to last. *)
Definition is_approval_transition (status : WorkflowRunStatus) (md : option object) : bool :=
  match status, md with
  | Run_Failed, Some m =>
      bool_decide (assoc_get (lit "approval_response") m <> None)
      || bool_decide (assoc_get (lit "loop_user_input") m <> None)
  | _, _ => false
  end.
Definition update_clauses (updates : WorkflowRunUpdate) : list (Z -> run_row -> run_row) :=
  match up_status updates with
  | None => []
  | Some status =>
      (fun _ => set_status (status_to_str status))
      :: (if is_approval_transition status (up_metadata updates) then []
          else match status with
               | Run_Completed | Run_Failed | Run_Cancelled =>
                   [fun t => set_completed_at (Some (sql_now d t))]
               | _ => []
               end)
  end
  ++ match up_metadata updates with
     | None => []
     | Some md => [fun _ => merge_metadata md]
     end.

Definition update_workflow_run (id : str) (updates : WorkflowRunUpdate)
    : prog (result StoreError unit) :=
  match update_clauses updates with
  | [] => Done (Ok tt)
  | clauses =>
      Query (fun t =>
               update_runs (fun r => fold_left (fun r' f => f t r') clauses r) (Run_id_is id))
        (fun r =>
           match r with
           | Err e =>
               if starts_with (lit "Workflow run not found") (DbError_to_string e)
               then Done (Err (Db (DbError_to_string e)))
               else Done (Err (Db (lit "Failed to update workflow run: " ++ DbError_to_string e)))
           | Ok _ => Done (unit_update [] (not_found_message id) r)
           end)
  end.

Definition update_workflow_activity (id : str) : prog (result StoreError unit) :=
  Query (fun t => update_runs (set_last_activity_at (Some (sql_now d t))) (Run_id_is id))
    (fun r =>
       match r with
       | Ok _ => Done (Ok tt)
       | Err e => Done (Err (Db (DbError_to_string e)))
       end).

Definition running_run (id : str) (r : run_row) : bool :=
  Run_id_is id r && status_is (lit "running") r.

Definition complete_workflow_run (id : str) (metadata : option object)
    : prog (result StoreError unit) :=
  Query (fun t =>
           update_runs (fun r =>
             let r' := set_completed_at (Some (sql_now d t)) (set_status (lit "completed") r) in
             match metadata with Some md => merge_metadata md r' | None => r' end)
             (running_run id))
    (fun r => Done (unit_update (lit "Failed to complete workflow run: ")
                      (not_running_message id) r)).

Definition fail_workflow_run (id error_msg : str) : prog (result StoreError unit) :=
  Query (fun t =>
           update_runs (fun r =>
             merge_metadata [(lit "error", String error_msg)]
               (set_completed_at (Some (sql_now d t)) (set_status (lit "failed") r)))
             (running_run id))
    (fun r => Done (unit_update (lit "Failed to fail workflow run: ")
                      (not_running_message id) r)).

Definition pause_workflow_run (id : str) (approval_context : ApprovalContext)
    : prog (result StoreError unit) :=
  Query (fun _ =>
           update_runs (fun r =>
             merge_metadata [(lit "approval", approval_to_value approval_context)]
               (set_status (lit "paused") r))
             (running_run id))
    (fun r =>
       match r with
       | Err e =>
           if starts_with (lit "Workflow run not found") (DbError_to_string e)
           then Done (Err (Db (DbError_to_string e)))
           else Done (Err (Db (lit "Failed to pause workflow run: " ++ DbError_to_string e)))
       | Ok _ => Done (unit_update [] (not_running_message id) r)
       end).

(** [status NOT IN ('completed', 'cancelled')]; the result is [CancelResult]. *)
Definition cancel_workflow_run (id : str) : prog (result StoreError bool) :=
  Query (fun t =>
           update_runs (fun r =>
             set_completed_at (Some (sql_now d t)) (set_status (lit "cancelled") r))
             (fun r => Run_id_is id r
                       && negb (status_in [lit "completed"; lit "cancelled"] r)))
    (fun r =>
       match r with
       | Ok result => Done (Ok (0 <? row_count result)%N)
       | Err e => Done (Err (Db (lit "Failed to cancel workflow run: " ++ DbError_to_string e)))
       end).

(** ** Events *)

(** One INSERT; its failure is logged and dropped. *)
Definition create_workflow_event (data : CreateWorkflowEventData) : prog unit :=
  Query (fun t s =>
           let e := {|
             e_id := random_id (length (events s));
             e_workflow_run_id := ce_workflow_run_id data;
             e_event_type := event_type_as_str (ce_event_type data);
             e_step_index := ce_step_index data;
             e_step_name := ce_step_name data;
             e_data := ce_data data;
             e_created_at := sql_now d t;
           |} in
           (Ok (mk_QueryResult [] 1), set_events s (events s ++ [e])))
    (fun _ => Done tt).

Definition created_asc (a b : event_row) : Prop := (e_created_at a <= e_created_at b)%Z.
#[local] Instance created_asc_dec a b : Decision (created_asc a b).
Proof. unfold created_asc. apply _. Defined.

Definition select_events (p : event_row -> bool) (s : db) : list event_row :=
  merge_sort created_asc (select_where events p s).

(** The entry one row adds to the outputs, and the map the rows give, in order of
    first insertion. *)
Fixpoint index_insert (k v : str) (m : list (str * str)) : list (str * str) :=
  match m with
  | [] => [(k, v)]
  | (k', v') :: m' =>
      if str_eqb k k' then (k', v) :: m' else (k', v') :: index_insert k v m'
  end.
Definition row_output (row : value) : option (str * str) :=
  _ ← value_get (lit "event_type") row ≫= as_str;
  data ← value_get (lit "data") row;
  match value_get (lit "nodeId") data ≫= as_str with
  | Some node_id => out ← value_get (lit "output") data ≫= as_str; Some (node_id, out)
  | None =>
      node_id ← value_get (lit "node_id") data ≫= as_str;
      out ← value_get (lit "output") data ≫= as_str;
      Some (node_id, out)
  end.
Definition collect_outputs (l : list value) : list (str * str) :=
  fold_left (fun m row =>
    match row_output row with Some (k, v) => index_insert k v m | None => m end) l [].

Definition get_completed_dag_node_outputs (workflow_run_id : str)
    : prog (result StoreError (list (str * str))) :=
  Query (fun t s =>
           let where_ e :=
             str_eqb (e_workflow_run_id e) workflow_run_id
             && existsb (str_eqb (e_event_type e)) [lit "step_completed"; lit "node_completed"] in
           (select_result
              (map (fun e => Object [(lit "event_type", String (e_event_type e));
                                     (lit "data", json_column d (e_data e))])
                 (select_events where_ s)), s))
    (fun r =>
       match r with
       | Ok result => Done (Ok (collect_outputs (rows result)))
       | Err e =>
           Done (Err (Db (lit "Failed to get completed DAG node outputs: "
                          ++ DbError_to_string e)))
       end).

(** ** Codebases *)

Definition env_key_asc (a b : str * str * str) : Prop := str_leb (snd (fst a)) (snd (fst b)) = true.
#[local] Instance env_key_asc_dec a b : Decision (env_key_asc a b).
Proof. unfold env_key_asc. apply _. Defined.

Definition env_entry (row : value) : option (str * str) :=
  key ← value_get (lit "key") row ≫= as_str;
  val ← value_get (lit "value") row ≫= as_str;
  Some (key, val).

Definition get_codebase_env_vars (codebase_id : str)
    : prog (result StoreError (list (str * str))) :=
  Query (fun t s =>
           (select_result
              (map (fun e => Object [(lit "key", String (snd (fst e)));
                                     (lit "value", String (snd e))])
                 (merge_sort env_key_asc
                    (select_where env_vars (fun e => str_eqb (fst (fst e)) codebase_id) s))), s))
    (fun r =>
       match r with
       | Ok result =>
           Done (Ok (fold_left (fun m row =>
             match env_entry row with Some (k, v) => index_insert k v m | None => m end)
             (rows result) []))
       | Err e =>
           Done (Err (Db (lit "Failed to get codebase env vars: " ++ DbError_to_string e)))
       end).

(** [serde_json::from_value::<CodebaseRecord>]; an absent or null url is [None]. *)
Definition CodebaseRecord_from_value (v : value) : result str CodebaseRecord :=
  let record :=
    o ← as_object v;
    id ← assoc_get (lit "id") o ≫= as_str;
    name ← assoc_get (lit "name") o ≫= as_str;
    url ← match assoc_get (lit "repository_url") o with
          | None | Some Null => Some None
          | Some (String s) => Some (Some s)
          | Some _ => None
          end;
    cwd ← assoc_get (lit "default_cwd") o ≫= as_str;
    Some (mk_CodebaseRecord id name url cwd) in
  match record with Some r => Ok r | None => Err (from_value_error v) end.

Definition get_codebase (id : str) : prog (result StoreError (option CodebaseRecord)) :=
  Query (fun t s =>
           (select_result (map codebase_to_value
              (select_where codebases (fun c => str_eqb (cb_id c) id) s)), s))
    (fun r =>
       match r with
       | Ok result =>
           match rows result with
           | [] => Done (Ok None)
           | row_val :: _ =>
               match CodebaseRecord_from_value row_val with
               | Ok record => Done (Ok (Some record))
               | Err e => Done (Err (Db (lit "Failed to deserialize codebase: " ++ e)))
               end
           end
       | Err e => Done (Err (Db (lit "Failed to get codebase: " ++ DbError_to_string e)))
       end).

(** ** Beside the trait *)

Definition is_ascii_hexdigit (c : char) : bool :=
  is_ascii_digit c || in_range 97 102 c || in_range 65 70 c.

Definition find_workflow_runs_by_id_prefix (id_prefix codebase : str)
    : prog (result StoreError (list WorkflowRun)) :=
  if is_empty id_prefix || negb (forallb (fun c => is_ascii_hexdigit c || (c =? 45)%N) id_prefix)
  then Done (Ok [])
  else
    Query (fun t s =>
             let where_ r :=
               sql_eq (c_codebase_id r) codebase && like d (id_prefix ++ lit "%") (c_id r) in
             (select_result (map (run_to_value d) (take 2 (select_where runs where_ s))), s))
      (fun r =>
         match r with
         | Ok result =>
             Done (Ok (omap (fun row => m ← as_object row; normalize_row_to_run m) (rows result)))
         | Err e =>
             Done (Err (Db (lit "Failed to find workflow runs by id prefix: "
                            ++ DbError_to_string e)))
         end).

Definition find_resumable_run_by_parent_conversation (name parent codebase : str)
    : prog (result StoreError (option WorkflowRun)) :=
  Query (fun t s =>
           let where_ r :=
             str_eqb (c_workflow_name r) name && sql_eq (c_parent_conversation_id r) parent
             && sql_eq (c_codebase_id r) codebase
             && status_in [lit "failed"; lit "paused"] r in
           (select_result (map (run_to_value d) (select_runs_by where_ started_desc 1 s)), s))
    (fun r => Done (one_run (lit "Failed to find resumable run by parent conversation: ") r)).

(** The join keeps a run once per conversation that matches it; one is taken. *)
Definition get_workflow_run_by_worker_platform_id (platform : str)
    : prog (result StoreError (option WorkflowRun)) :=
  Query (fun t s =>
           let where_ r :=
             existsb (fun c => str_eqb (fst c) (c_conversation_id r) && str_eqb (snd c) platform)
               (conversations s) in
           (select_result (map (run_to_value d) (select_runs_by where_ started_desc 1 s)), s))
    (fun r => Done (one_run (lit "Failed to get workflow run by worker platform ID: ") r)).

Definition of_conversation (conversation status : str) (r : run_row) : bool :=
  (str_eqb (c_conversation_id r) conversation || sql_eq (c_parent_conversation_id r) conversation)
  && status_is status r.

Definition get_active_workflow_run (conversation : str)
    : prog (result StoreError (option WorkflowRun)) :=
  Query (fun t s =>
           (select_result (map (run_to_value d)
              (select_runs_by (of_conversation conversation (lit "running")) started_desc 1 s)), s))
    (fun r => Done (one_run (lit "Failed to get active workflow run: ") r)).

Definition get_paused_workflow_run (conversation : str) : prog (option WorkflowRun) :=
  Query (fun t s =>
           (select_result (map (run_to_value d)
              (select_runs_by (of_conversation conversation (lit "paused")) started_desc 1 s)), s))
    (fun r => match r with Ok result => Done (first_run result) | Err _ => Done None end).

Definition find_latest_run_by_working_path (path : str)
    : prog (result StoreError (option WorkflowRun)) :=
  Query (fun t s =>
           (select_result (map (run_to_value d)
              (select_runs_by (fun r => sql_eq (c_working_path r) path) started_desc 1 s)), s))
    (fun r => Done (one_run (lit "Failed to find latest workflow run by path: ") r)).

Definition get_running_workflows : prog (list object) :=
  Query (fun t s =>
           (select_result (map (fun r => Object
               [(lit "id", String (c_id r));
                (lit "conversation_id", String (c_conversation_id r));
                (lit "workflow_name", String (c_workflow_name r));
                (lit "started_at", time_column d (Some (c_started_at r)))])
              (select_runs_by (status_is (lit "running")) started_asc 100 s)), s))
    (fun r => match r with Ok result => Done (omap as_object (rows result)) | Err _ => Done [] end).

(** ** Deletion *)

Definition terminal_run (r : run_row) : bool :=
  status_in [lit "completed"; lit "failed"; lit "cancelled"] r.

(** [i64::MAX as u32]. *)
Definition i64_max_as_u32 : N := ((2 ^ 63 - 1) mod 2 ^ 32)%N.

Definition old_cutoff (t : Z) (older_than_days : N) : option Z :=
  interval_before d t older_than_days (lit "days") (Z.of_N older_than_days * day).

Definition delete_old_events (older_than_days : N) : statement := fun t s =>
  match old_cutoff t older_than_days with
  | None => (syntax_failure, s)
  | Some cutoff =>
      let old r := terminal_run r && (c_started_at r <? cutoff)%Z in
      delete_events (fun e =>
        existsb (fun r => old r && str_eqb (c_id r) (e_workflow_run_id e)) (runs s)) s
  end.
Definition delete_old_runs (older_than_days : N) : statement := fun t s =>
  match old_cutoff t older_than_days with
  | None => (syntax_failure, s)
  | Some cutoff => delete_runs (fun r => terminal_run r && (c_started_at r <? cutoff)%Z) s
  end.

Definition delete_old_workflow_runs_tx (older_than_days : N) : prog (result DbError value) :=
  Query (delete_old_events older_than_days) (fun r =>
    match r with
    | Err e => Done (Err e)
    | Ok _ =>
        Query (delete_old_runs older_than_days) (fun r' =>
          match r' with
          | Err e => Done (Err e)
          | Ok result => Done (Ok (Number (PosInt (row_count result))))
          end)
    end).

Definition delete_old_workflow_runs (older_than_days : N) : prog (result StoreError N) :=
  if (i64_max_as_u32 <? older_than_days)%N then
    Done (Err (Db (lit "Invalid olderThanDays: " ++ show_N older_than_days
                   ++ lit " (must be a non-negative integer)")))
  else
    with_transaction (delete_old_workflow_runs_tx older_than_days)
      (fun r =>
         match r with
         | Ok (Number (PosInt n)) => Done (Ok n)
         | Ok _ => Done (Ok 0%N)
         | Err e =>
             Done (Err (Db (lit "Failed to clean up old workflow runs: " ++ DbError_to_string e)))
         end).

(** The closure given to the transaction, and the whole call. *)
Definition delete_workflow_run_tx (id : str) : prog (result DbError value) :=
  Query (select_status id) (fun check_result =>
    match check_result with
    | Err _ => Done (Err (QueryFailed RowNotFound))
    | Ok cr =>
        match rows cr with
        | [] => Done (Err (QueryFailed RowNotFound))
        | _ =>
            let status := default [] (first_status cr) in
            if negb (existsb (str_eqb status)
                       [lit "completed"; lit "failed"; lit "cancelled"])
            then Done (Err (QueryFailed RowNotFound))
            else
              Query (fun _ => delete_events (fun e => str_eqb (e_workflow_run_id e) id))
                (fun r =>
                   match r with
                   | Err e => Done (Err e)
                   | Ok _ =>
                       Query (fun _ => delete_runs (Run_id_is id)) (fun r' =>
                         match r' with
                         | Err e => Done (Err e)
                         | Ok result =>
                             if (row_count result =? 0)%N
                             then Done (Err (QueryFailed RowNotFound))
                             else Done (Ok Null)
                         end)
                   end)
        end
    end).

Definition delete_workflow_run (id : str) : prog (result StoreError unit) :=
  with_transaction (delete_workflow_run_tx id)
    (fun r =>
       match r with
       | Ok _ => Done (Ok tt)
       | Err (QueryFailed RowNotFound) =>
           Done (Err (Db (lit "Workflow run not found or not terminal: " ++ id)))
       | Err e => Done (Err (Db (lit "Failed to delete workflow run: " ++ DbError_to_string e)))
       end).

End Store.

(** ** Node sessions

    The three operations of the trait touch neither the tables nor their arguments. *)
Definition get_workflow_node_session {K S} (key : K) : prog (result StoreError (option S)) :=
  Done (Ok None).
Definition upsert_workflow_node_session {K} (params : K) : prog (result StoreError unit) :=
  Done (Ok tt).
Definition delete_workflow_node_sessions {K} (filter : K) : prog (result StoreError N) :=
  Done (Ok 0%N).

(** * A database to evaluate the store on

    Instances of the classes the store is parameterised by: the rows in the order
    of their insertion, timestamps of two characters, the two merges of JSON
    objects, a printer and a parser that know the empty object. *)

(** ** Merging objects *)

Fixpoint assoc_set {V} (k : str) (v : V) (l : list (str * V)) : list (str * V) :=
  match l with
  | [] => [(k, v)]
  | (k', v') :: l' => if str_eqb k k' then (k, v) :: l' else (k', v') :: assoc_set k v l'
  end.
Definition assoc_remove {V} (k : str) (l : list (str * V)) : list (str * V) :=
  List.filter (fun e => negb (str_eqb k (fst e))) l.

(** The merge of RFC 7396. *)
Fixpoint patch_value (p : value) (t : value) : value :=
  match p with
  | Object l =>
      Object ((fix go (l : list (str * value)) : object :=
        match l with
        | [] => object_of (Some t)
        | (k, v) :: l' =>
            let acc := go l' in
            match v with
            | Null => assoc_remove k acc
            | _ => assoc_set k (patch_value v (default Null (assoc_get k acc))) acc
            end
        end) l)
  | _ => p
  end.
Definition patch_object (o p : object) : object := object_of (Some (patch_value (Object p) (Object o))).

Definition has_no_key (p : object) (k : str) : bool :=
  match assoc_get k p with Some _ => false | None => true end.
Definition concat_objects (o p : object) : object :=
  p ++ List.filter (fun e => has_no_key p (fst e)) o.

Lemma assoc_get_set {V} k k' (v : V) l :
  assoc_get k (assoc_set k' v l) = if str_eqb k k' then Some v else assoc_get k l.
Proof.
  induction l as [|[a x] l IH]; simpl.
  - unfold str_eqb. by destruct (bool_decide (k = k')).
  - unfold str_eqb in *. repeat (case_bool_decide; simpl; simplify_eq/=); try done.
Qed.

Lemma assoc_get_remove {V} k k' (l : list (str * V)) :
  k <> k' -> assoc_get k (assoc_remove k' l) = assoc_get k l.
Proof.
  intros Hne. induction l as [|[a x] l IH]; simpl; [done|].
  unfold str_eqb. repeat (case_bool_decide; simpl; simplify_eq/=); try done.
Qed.

Lemma patch_object_cons o k v l :
  patch_object o ((k, v) :: l) =
    match v with
    | Null => assoc_remove k (patch_object o l)
    | _ => assoc_set k (patch_value v (default Null (assoc_get k (patch_object o l)))) (patch_object o l)
    end.
Proof. by destruct v. Qed.

Lemma patch_absent o p k : assoc_get k p = None -> assoc_get k (patch_object o p) = assoc_get k o.
Proof.
  induction p as [|[k' v] p IH]; [done|]. simpl. case_bool_decide as E; [done|]. intros Hp.
  rewrite patch_object_cons.
  assert (str_eqb k k' = false) as En by (by apply bool_decide_eq_false).
  destruct v; rewrite ?assoc_get_set, ?En; try (by apply IH).
  rewrite assoc_get_remove by done. by apply IH.
Qed.

Lemma patch_present o p k v :
  assoc_get k p = Some v -> v <> Null -> as_object v = None ->
  assoc_get k (patch_object o p) = Some v.
Proof.
  induction p as [|[k' v'] p IH]; [done|]. simpl. rewrite patch_object_cons.
  case_bool_decide as E; subst.
  - intros [= ->] Hn Ho. destruct v; try done; by rewrite assoc_get_set, str_eqb_refl.
  - intros Hp Hn Ho. assert (str_eqb k k' = false) as En by (by apply bool_decide_eq_false).
    destruct v'; rewrite ?assoc_get_set, ?En; try (by apply IH).
    rewrite assoc_get_remove by done. by apply IH.
Qed.

Lemma patch_nested o p k q :
  NoDup (map fst p) -> assoc_get k p = Some (Object q) ->
  assoc_get k (patch_object o p) = Some (Object (patch_object (object_of (assoc_get k o)) q)).
Proof.
  induction p as [|[k' v'] p IH]; [done|]. simpl. intros [Hk Hnd]%NoDup_cons.
  rewrite patch_object_cons. case_bool_decide as E; subst.
  - intros [= ->]. rewrite assoc_get_set, str_eqb_refl. rewrite patch_absent.
    + by destruct (assoc_get k' o) as [ []|].
    + apply assoc_get_None. by rewrite <-list_elem_of_In.
  - intros Hp. assert (str_eqb k k' = false) as En by (by apply bool_decide_eq_false).
    destruct v'; rewrite ?assoc_get_set, ?En; try (by apply IH).
    rewrite assoc_get_remove by done. by apply IH.
Qed.


Lemma assoc_get_filter_keys {V} k (f : str -> bool) (l : list (str * V)) :
  assoc_get k (List.filter (fun e => f (fst e)) l) = if f k then assoc_get k l else None.
Proof.
  induction l as [|[k' v] l IH]; simpl; [by destruct (f k)|].
  destruct (f k') eqn:Ef; simpl; case_bool_decide; subst; rewrite ?Ef, ?IH; try done.
  by rewrite Ef.
Qed.

Lemma concat_present o p k v : assoc_get k p = Some v -> assoc_get k (concat_objects o p) = Some v.
Proof. intros Hp. unfold concat_objects. by rewrite assoc_get_app, Hp. Qed.

Lemma concat_absent o p k : assoc_get k p = None -> assoc_get k (concat_objects o p) = assoc_get k o.
Proof.
  intros Hp. unfold concat_objects. rewrite assoc_get_app, Hp.
  rewrite (assoc_get_filter_keys k (has_no_key p)). unfold has_no_key. by rewrite Hp.
Qed.

(** ** The instances *)

Definition sample_time (tag : N) (t : Z) : str := [tag; Z.to_N t].
Definition sample_parse (tag : N) (s : str) : option Z :=
  match s with [c; n] => if (c =? tag)%N then Some (Z.of_N n) else None | _ => None end.

#[export] Program Instance sample_engine : SqlEngine := {|
  scan := fun A l => l;
  show_time := fun d t =>
    match d with
    | Postgres => sample_time 80 t
    | Sqlite => sample_time 83 (sql_datetime Sqlite t)
    end;
  parse_from_rfc3339 := sample_parse 80;
  parse_naive := sample_parse 83;
  serialize_time := sample_time 80;
  merge_objects := fun d o p =>
    match d with Postgres => concat_objects o p | Sqlite => patch_object o p end;
  pg_interval := fun _ _ => None;
  row_not_found_text := lit "no rows returned by a query that expected to return at least one row";
|}.
Next Obligation. done. Qed.
Next Obligation. intros t [H1 H2]. simpl. by rewrite Z2N.id. Qed.
Next Obligation. done. Qed.
Next Obligation.
  intros t [H1 H2]. simpl. rewrite Z2N.id; [done|]. unfold second in *.
  pose proof (Z.mod_le t 1000000). lia.
Qed.
Next Obligation. intros t [H1 H2]. simpl. by rewrite Z2N.id. Qed.
Next Obligation. intros [] o p k Hp; [by apply concat_absent|by apply patch_absent]. Qed.
Next Obligation.
  intros [] o p k v Hp Hn Ho; [by apply concat_present|by apply patch_present].
Qed.
Next Obligation. intros. by apply concat_present. Qed.
Next Obligation. intros. by apply patch_nested. Qed.

#[export] Instance sample_text : StoreText := {|
  unique_violation := lit "UNIQUE constraint failed";
  syntax_error := lit "syntax error";
  from_value_error := fun _ => lit "invalid value";
  map_to_string := fun _ => Ok (lit "{}");
  random_id := show_nat;
  approval_to_value := fun c => Object [(lit "nodeId", String (ctx_node_id c))];
|}.

(** The printer and the parser of the empty object. *)
#[export] Program Instance sample_serde : SerdeJson := {|
  from_str := fun s => if str_eqb s (lit "{}") then Some (Object []) else None;
  to_string := fun v => match v with Null => lit "null" | Object [] => lit "{}" | _ => lit "?" end;
  number_to_string := fun _ => lit "0";
|}.
Solve Obligations with done.

(** ** Tables *)

Definition sample_run (id status : str) (started : Z) : run_row := {|
  c_id := id; c_workflow_name := lit "wf"; c_conversation_id := lit "c";
  c_parent_conversation_id := None; c_codebase_id := Some (lit "cb"); c_status := status;
  c_user_message := lit "go"; c_metadata := []; c_started_at := started;
  c_completed_at :=
    if str_eqb status (lit "completed") || str_eqb status (lit "cancelled") then Some started else None;
  c_last_activity_at := Some started; c_working_path := Some (lit "/w"); c_user_id := None;
|}.
Definition sample_db (l : list run_row) : db := mk_db l [] [] [] [].

(** Every request is answered, at the second of its number. *)
Definition sample_world : nat -> answer := fun n => At ((2000000 + Z.of_nat n) * second).

(** Every request is answered at the same time. *)
Definition steady_world : nat -> answer := fun _ => At (2000000 * second).
