(* ===== verification/RunLifecycle.v ===== *)
(** * The lifecycle of a run in the store

    The abstract state machine of a run's status, the calls that reach the store,
    and what any interleaving of them guarantees: the well-formedness of the table
    of runs, and the refinement of the state machine. *)

From S2P Require Import Prelude Float64 Json StdModel DagNode Workflow Database RunStore.


(** ** Calls *)

Fixpoint prog_map {A B : Type} (f : A -> B) (p : prog A) : prog B :=
  match p with
  | Done a => Done (f a)
  | Query q k => Query q (fun r => prog_map f (k r))
  | with_transaction body k => with_transaction body (fun r => prog_map f (k r))
  end.
Definition ignore_result {A : Type} (p : prog A) : prog unit := prog_map (fun _ => tt) p.

Inductive store_call : Type :=
| Create (id : str) (data : CreateWorkflowRunData)
| Get (id : str)
| GetStatus (id : str)
| GetActiveByPath (path : str) (self_run : option ActiveRunSelf)
| FindResumable (workflow path : str)
| FailOrphaned
| Resume (id : str)
| Update (id : str) (updates : WorkflowRunUpdate)
| Heartbeat (id : str)
| Complete (id : str) (md : option object)
| Fail_ (id message : str)
| Pause (id : str) (ctx : ApprovalContext)
| Cancel_ (id : str)
| Event (data : CreateWorkflowEventData)
| CompletedOutputs (id : str)
| DeleteOld (days : N)
| Delete (id : str).

Definition call `{SerdeJson} `{SqlEngine} `{StoreText} (d : Dialect) (c : store_call) : prog unit :=
  match c with
  | Create id data => ignore_result (create_workflow_run d id data)
  | Get id => ignore_result (get_workflow_run d id)
  | GetStatus id => ignore_result (get_workflow_run_status id)
  | GetActiveByPath path self_run => ignore_result (get_active_workflow_run_by_path d path self_run)
  | FindResumable workflow path => ignore_result (find_resumable_run d workflow path)
  | FailOrphaned => ignore_result (fail_orphaned_runs d)
  | Resume id => ignore_result (resume_workflow_run d id)
  | Update id updates => ignore_result (update_workflow_run d id updates)
  | Heartbeat id => ignore_result (update_workflow_activity d id)
  | Complete id md => ignore_result (complete_workflow_run d id md)
  | Fail_ id message => ignore_result (fail_workflow_run d id message)
  | Pause id ctx => ignore_result (pause_workflow_run d id ctx)
  | Cancel_ id => ignore_result (cancel_workflow_run d id)
  | Event data => create_workflow_event d data
  | CompletedOutputs id => ignore_result (get_completed_dag_node_outputs d id)
  | DeleteOld days => ignore_result (delete_old_workflow_runs d days)
  | Delete id => ignore_result (delete_workflow_run id)
  end.

(** A deletion of the run by its identifier. *)
Definition deletes (id : str) (c : store_call) : bool :=
  match c with Delete id' => str_eqb id' id | _ => false end.
(** The calls that could start a run anew: a creation under its identifier, an
    update that sets its status. *)
Definition creates (id : str) (c : store_call) : bool :=
  match c with Create id' _ => str_eqb id' id | _ => false end.
Definition sets_status (c : store_call) : bool :=
  match c with
  | Update _ u => match up_status u with Some _ => true | None => false end
  | _ => false
  end.

(** ** The state machine

    [None] is a run that is not in the table.  With [races], a run goes in any status. *)
Inductive transition {races : bool} : option WorkflowRunStatus -> option WorkflowRunStatus -> Prop :=
| tr_complete : transition (Some Run_Running) (Some Run_Completed)
| tr_fail : transition (Some Run_Running) (Some Run_Failed)
| tr_pause : transition (Some Run_Running) (Some Run_Paused)
| tr_resume_failed : transition (Some Run_Failed) (Some Run_Running)
| tr_resume_paused : transition (Some Run_Paused) (Some Run_Running)
| tr_cancel s : s <> Run_Completed -> s <> Run_Cancelled ->
    transition (Some s) (Some Run_Cancelled)
| tr_delete s : s ∈ TERMINAL_WORKFLOW_STATUSES -> transition (Some s) None
| tr_delete_race s : races = true -> transition (Some s) None.
#[export] Hint Constructors transition : har.

(** ** The table *)

Definition find_run (id : str) (s : db) : option run_row := find (Run_id_is id) (runs s).
Definition status_in_db (id : str) (s : db) : option WorkflowRunStatus :=
  find_run id s ≫= fun r => status_of_str (c_status r).

(** A row of the table: a known status; a completed or cancelled run has a time of
    completion. *)
Definition row_ok (r : run_row) : Prop :=
  (exists st, c_status r = status_to_str st) /\
  (c_status r = lit "completed" \/ c_status r = lit "cancelled" -> c_completed_at r <> None).
Definition runs_ok (s : db) : Prop := NoDup (map c_id (runs s)) /\ Forall row_ok (runs s).

Lemma status_of_to_str st : status_of_str (status_to_str st) = Some st.
Proof. by destruct st. Qed.

Lemma status_to_str_inj s1 s2 : status_to_str s1 = status_to_str s2 -> s1 = s2.
Proof.
  intros E. apply (f_equal status_of_str) in E. rewrite !status_of_to_str in E. by simplify_eq.
Qed.

Lemma Run_id_is_spec id r : Run_id_is id r = true <-> c_id r = id.
Proof. apply str_eqb_spec. Qed.

Lemma status_is_spec st r : status_is st r = true <-> c_status r = st.
Proof. apply str_eqb_spec. Qed.

Lemma status_in_spec l r : status_in l r = true <-> c_status r ∈ l.
Proof.
  unfold status_in. rewrite existsb_exists. rewrite list_elem_of_In. split.
  - intros (x & Hx & E%str_eqb_spec). by subst.
  - intros Hin. exists (c_status r). by rewrite str_eqb_refl.
Qed.

Lemma find_run_Some id s r : find_run id s = Some r -> r ∈ runs s /\ c_id r = id.
Proof. unfold find_run. intros [H1 H2%Run_id_is_spec]%find_some. by rewrite list_elem_of_In. Qed.

Lemma find_run_None id s : find_run id s = None <-> forall r, r ∈ runs s -> c_id r <> id.
Proof.
  unfold find_run. split.
  - intros Hn r Hr E. eapply find_none in Hn; [|by apply list_elem_of_In].
    by rewrite (proj2 (Run_id_is_spec id r) E) in Hn.
  - intros Hn. destruct (find (Run_id_is id) (runs s)) as [r|] eqn:E; [|done].
    apply find_some in E as [H1 H2%Run_id_is_spec]. by destruct (Hn r); [apply list_elem_of_In|].
Qed.

Lemma find_run_unique id s r :
  NoDup (map c_id (runs s)) -> r ∈ runs s -> c_id r = id -> find_run id s = Some r.
Proof.
  unfold find_run. induction (runs s) as [|x l IH]; intros Hnd Hin Hid; [set_solver|]. simpl in *.
  apply NoDup_cons in Hnd as [Hx Hnd].
  destruct (Run_id_is id x) eqn:E.
  - apply Run_id_is_spec in E. apply elem_of_cons in Hin as [->|Hin]; [done|].
    destruct Hx. apply list_elem_of_fmap. exists r. by subst.
  - apply elem_of_cons in Hin as [->|Hin]; [|by apply IH].
    by rewrite (proj2 (Run_id_is_spec _ _) Hid) in E.
Qed.

(** ** What a statement may do to the table *)

(** Rewriting rows in place, with their identifiers kept. *)
Definition rewrites (f : run_row -> run_row) : Prop := forall r, c_id (f r) = c_id r.

Lemma find_run_map id s f :
  rewrites f -> find_run id (set_runs s (map f (runs s))) = f <$> find_run id s.
Proof.
  intros Hf. unfold find_run. simpl. induction (runs s) as [|x l IH]; [done|]. simpl.
  unfold Run_id_is at 1. rewrite Hf. fold (Run_id_is id x). by destruct (Run_id_is id x).
Qed.

Lemma map_c_id_rewrites f l : rewrites f -> map c_id (map f l) = map c_id l.
Proof. intros Hf. rewrite map_map. apply map_ext. exact Hf. Qed.

Lemma NoDup_map_filter {A B} (f : A -> B) (p : A -> bool) l :
  NoDup (map f l) -> NoDup (map f (List.filter p l)).
Proof.
  induction l as [|x l IH]; simpl; [done|]. intros [Hx Hnd]%NoDup_cons.
  destruct (p x); simpl; [|by apply IH]. apply NoDup_cons. split; [|by apply IH].
  intros (y & E & Hy)%list_elem_of_fmap. apply elem_of_list_filter in Hy as [_ Hy].
  apply Hx. rewrite E. by apply list_elem_of_fmap_2.
Qed.

Lemma Forall_filter_keep {A} (P : A -> Prop) (p : A -> bool) l :
  Forall P l -> Forall P (List.filter p l).
Proof. rewrite !Forall_forall. intros HP x [_ Hx]%elem_of_list_filter. by apply HP. Qed.

(** The set of an UPDATE, as a rewriting of the rows. *)
Lemma update_runs_map set p (s : db) :
  snd (update_runs set p s) = set_runs s (map (fun r => if p r then set r else r) (runs s)).
Proof. done. Qed.

Lemma rewrites_if (p : run_row -> bool) (set : run_row -> run_row) : rewrites set -> rewrites (fun r => if p r then set r else r).
Proof. intros Hs r. by destruct (p r). Qed.
#[export] Hint Resolve rewrites_if : har.

(** ** The table stays well formed *)

Section Invariant.
Context `{SerdeJson} `{SqlEngine} `{StoreText}.
Context {races : bool}.
Variable d : Dialect.

Definition keeps (s s' : db) : Prop := runs_ok s -> runs_ok s'.
Definition keeps_runs_ok (q : statement) : Prop := forall t s, keeps s (snd (q t s)).

#[export] Instance keeps_preorder : PreOrder keeps.
Proof. split; [by intros s Hs|]. unfold keeps. intros s1 s2 s3. auto. Qed.

Lemma keeps_update (set : Z -> run_row -> run_row) (p : Z -> run_row -> bool) :
  (forall t, rewrites (set t)) -> (forall t r, p t r = true -> row_ok r -> row_ok (set t r)) ->
  keeps_runs_ok (fun t => update_runs (set t) (p t)).
Proof.
  intros Hid Hok t s [Hnd Hall]. split; simpl.
  - by rewrite map_c_id_rewrites by auto with har.
  - rewrite Forall_fmap. eapply Forall_impl; [exact Hall|]. intros r Hr. simpl.
    destruct (p t r) eqn:E; [by apply Hok|done].
Qed.

Lemma keeps_delete (p : Z -> run_row -> bool) : keeps_runs_ok (fun t => delete_runs (p t)).
Proof.
  intros t s [Hnd Hall]. split; simpl.
  - by apply NoDup_map_filter.
  - by apply Forall_filter_keep.
Qed.

Lemma keeps_pure (f : Z -> db -> result DbError QueryResult) :
  keeps_runs_ok (fun t s => (f t s, s)).
Proof. by intros t s Hs. Qed.

Lemma keeps_insert id data md : keeps_runs_ok (insert_run d id data md).
Proof.
  intros t s [Hnd Hall]. unfold insert_run. destruct (existsb _ _) eqn:E; [done|]. split; simpl.
  - rewrite map_app. apply NoDup_app. split; [done|]. split; [|apply NoDup_singleton].
    intros x Hx ->%list_elem_of_singleton. apply list_elem_of_fmap in Hx as (r & E' & Hr).
    simpl in E'. eapply not_true_iff_false; [exact E|]. apply existsb_exists. exists r.
    split; [by apply list_elem_of_In|]. by apply Run_id_is_spec.
  - apply Forall_app. split; [done|]. apply Forall_singleton. split; [by exists Run_Pending|].
    simpl. intros [E'|E']; discriminate E'.
Qed.

(** Setting a status, with a time of completion where it needs one. *)
Lemma row_ok_set_status st r :
  row_ok r -> st <> Run_Completed -> st <> Run_Cancelled -> row_ok (set_status (status_to_str st) r).
Proof.
  intros _ H1' H2'. split; [by exists st|]. simpl.
  intros [E|E]; [apply (status_to_str_inj st Run_Completed) in E
                |apply (status_to_str_inj st Run_Cancelled) in E]; congruence.
Qed.

Lemma row_ok_set_completed st t r :
  row_ok (set_completed_at (Some t) (set_status (status_to_str st) r)).
Proof. split; [by exists st|done]. Qed.

Lemma row_ok_merge md r : row_ok r -> row_ok (merge_metadata d md r).
Proof. by intros [H1' H2']. Qed.

Lemma row_ok_activity o r : row_ok r -> row_ok (set_last_activity_at o r).
Proof. by intros [H1' H2']. Qed.

(** ** The status of one run moves by transitions *)

Definition moves (id : str) (s s' : db) : Prop :=
  runs_ok s -> runs_ok s' /\ rtc (transition (races := races)) (status_in_db id s) (status_in_db id s').
Definition moves_run (id : str) (q : statement) : Prop :=
  forall t s, runs_ok s -> rtc (transition (races := races)) (status_in_db id s) (status_in_db id (snd (q t s))).

#[export] Instance moves_preorder id : PreOrder (moves id).
Proof.
  split; [by intros s Hs|]. unfold moves. intros s1 s2 s3 H12 H23 Hs.
  destruct (H12 Hs) as [Hs2 Hr2]. destruct (H23 Hs2) as [Hs3 Hr3]. split; [done|by etrans].
Qed.

Lemma moves_statement id q : keeps_runs_ok q -> moves_run id q -> forall t s, moves id s (snd (q t s)).
Proof. intros Hk Hm t s Hs. split; [by apply Hk|by apply Hm]. Qed.

Lemma moves_update id (set : Z -> run_row -> run_row) (p : Z -> run_row -> bool) :
  (forall t, rewrites (set t)) ->
  (forall t r, p t r = true -> row_ok r ->
     rtc (transition (races := races)) (status_of_str (c_status r)) (status_of_str (c_status (set t r)))) ->
  moves_run id (fun t => update_runs (set t) (p t)).
Proof.
  intros Hid Hst t s [Hnd Hall]. rewrite update_runs_map. unfold status_in_db.
  rewrite find_run_map by auto with har.
  destruct (find_run id s) as [r|] eqn:E; simpl; [|reflexivity].
  destruct (p t r) eqn:Ep; [|reflexivity]. apply Hst; [done|].
  apply find_run_Some in E as [Hr _]. by eapply Forall_forall in Hall.
Qed.

Lemma find_run_filter id (f : run_row -> bool) (s : db) :
  NoDup (map c_id (runs s)) ->
  find_run id (set_runs s (List.filter f (runs s)))
    = (r ← find_run id s; if f r then Some r else None).
Proof.
  intros Hnd. destruct (find_run id s) as [r|] eqn:E; simpl.
  - apply find_run_Some in E as [Hr Hid]. destruct (f r) eqn:Ef.
    + apply find_run_unique; simpl; [by apply NoDup_map_filter| |done].
      by apply elem_of_list_filter.
    + apply find_run_None. intros r' [Hf Hr']%elem_of_list_filter Hid'.
      assert (r' = r) as ->; [|congruence].
      apply (find_run_unique id s) in Hr; [|done|done].
      apply (find_run_unique id s) in Hr'; [|done|done]. congruence.
  - apply find_run_None. intros r' [Hf Hr']%elem_of_list_filter.
    by eapply find_run_None in E.
Qed.

Lemma delete_moves id (p : run_row -> bool) s :
  runs_ok s ->
  (forall r, r ∈ runs s -> p r = true -> c_id r = id -> terminal_run r = true) ->
  rtc (transition (races := races)) (status_in_db id s)
    (status_in_db id (set_runs s (List.filter (fun r => negb (p r)) (runs s)))).
Proof.
  intros [Hnd Hall] Hp. unfold status_in_db. rewrite find_run_filter by done.
  destruct (find_run id s) as [r|] eqn:E; simpl; [|reflexivity].
  destruct (p r) eqn:Ep; simpl; [|reflexivity].
  apply find_run_Some in E as [Hr Hid]. eapply Forall_forall in Hall; [|exact Hr].
  specialize (Hp r Hr Ep Hid). destruct Hall as [[st Hst] _].
  unfold terminal_run in Hp. apply status_in_spec in Hp. rewrite Hst in *.
  rewrite status_of_to_str. apply rtc_once, tr_delete.
  destruct st; vm_compute in Hp; vm_compute; set_solver.
Qed.

Lemma moves_pure id (f : Z -> db -> result DbError QueryResult) : moves_run id (fun t s => (f t s, s)).
Proof. intros t s _. reflexivity. Qed.

Lemma moves_insert id id' data md : str_eqb id' id = false -> moves_run id (insert_run d id' data md).
Proof.
  intros Hne t s _. unfold insert_run. destruct (existsb _ _); [reflexivity|]. simpl.
  unfold status_in_db, find_run. simpl. rewrite find_app. destruct (find (Run_id_is id) (runs s)); [done|]. simpl. unfold Run_id_is. simpl.
  by rewrite Hne.
Qed.

End Invariant.
#[export] Hint Resolve keeps_pure keeps_insert moves_pure moves_insert : har.

Lemma atomically_map {A B : Type} (R : relation db) (f : A -> B) (p : prog A) :
  atomically R p -> atomically R (prog_map f p).
Proof.
  induction p as [A a|A q k IH|A body IHb k IH]; simpl; [done| |]; naive_solver.
Qed.
Lemma steps_map {A B : Type} (R : relation db) (f : A -> B) (p : prog A) :
  steps R p -> steps R (prog_map f p).
Proof.
  induction p as [A a|A q k IH|A body IHb k IH]; simpl; [done| |]; naive_solver.
Qed.

Section Calls.
Context `{SerdeJson} `{SqlEngine} `{StoreText}.
Context {races : bool}.
Variable d : Dialect.

(** *** Resuming *)

Lemma resumable_status t days r :
  resumable_status_clause d t days r = true ->
  c_status r = lit "failed" \/ c_status r = lit "paused" \/ c_status r = lit "running".
Proof.
  unfold resumable_status_clause. intros [Hs|[Hs _]%andb_true_iff]%orb_true_iff.
  - apply status_in_spec in Hs. set_solver.
  - apply status_is_spec in Hs. auto.
Qed.

Lemma running_status id r : running_run id r = true -> c_id r = id /\ c_status r = lit "running".
Proof. intros [Hi Hs]%andb_true_iff. by apply Run_id_is_spec in Hi; apply status_is_spec in Hs. Qed.

Lemma keeps_resume id : keeps_runs_ok (resume_update d id).
Proof.
  refine (keeps_update (fun t r => _) (fun t r => _) _ _); [done|].
  intros t r _ [_ _]. split; [by exists Run_Running|]. intros [E|E]; discriminate E.
Qed.

Lemma moves_resume id id' : moves_run (races := races) id' (resume_update d id).
Proof.
  refine (moves_update id' (fun t r => _) (fun t r => _) _ _); [done|].
  intros t r [_ Hr%resumable_status]%andb_true_iff _.
  destruct Hr as [E | [E | E] ]; rewrite E; [apply rtc_once; constructor..|reflexivity].
Qed.

(** *** The guarded updates *)

Lemma keeps_guarded id st (set : Z -> run_row -> run_row) :
  (forall t, rewrites (set t)) -> (forall t r, c_status (set t r) = status_to_str st) ->
  (forall t r, c_completed_at (set t r) = None -> st <> Run_Completed /\ st <> Run_Cancelled) ->
  keeps_runs_ok (fun t => update_runs (set t) (running_run id)).
Proof.
  intros Hid Hst Hc. apply (keeps_update set (fun _ => running_run id)); [done|].
  intros t r _ _. split; [exists st; apply Hst|]. rewrite Hst. intros E Hn.
  destruct (Hc t r Hn) as [H1' H2'].
  destruct E as [E|E]; [apply (status_to_str_inj st Run_Completed) in E
                       |apply (status_to_str_inj st Run_Cancelled) in E]; done.
Qed.

Lemma moves_guarded id id' st (set : Z -> run_row -> run_row) :
  transition (races := races) (Some Run_Running) (Some st) ->
  (forall t, rewrites (set t)) -> (forall t r, c_status (set t r) = status_to_str st) ->
  moves_run (races := races) id' (fun t => update_runs (set t) (running_run id)).
Proof.
  intros Htr Hid Hst. apply (moves_update id' set (fun _ => running_run id)); [done|].
  intros t r Hr _. apply running_status in Hr as [_ ->]. rewrite Hst, status_of_to_str. by apply rtc_once.
Qed.

(** *** The other updates *)

Lemma keeps_orphans : steps keeps (fail_orphaned_runs d).
Proof.
  simpl. split; [|intros r; by destruct r].
  refine (keeps_update (fun t r => _) (fun _ => _) _ _); [done|].
  intros t r _ _. apply row_ok_merge, (row_ok_set_completed Run_Failed).
Qed.

Lemma moves_orphans id : steps (moves (races := races) id) (fail_orphaned_runs d).
Proof.
  split; [|intros r; by destruct r]. apply moves_statement; [exact (proj1 keeps_orphans)|].
  refine (moves_update id (fun t r => _) (fun _ => _) _ _); [done|].
  intros t r Hr _. apply status_is_spec in Hr. rewrite Hr. apply rtc_once. constructor.
Qed.

Lemma keeps_heartbeat id : steps keeps (update_workflow_activity d id).
Proof.
  simpl. split; [|intros r; by destruct r].
  refine (keeps_update (fun t r => _) (fun _ => _) _ _); [done|].
  intros t r _. apply row_ok_activity.
Qed.

Lemma moves_heartbeat id id' : steps (moves (races := races) id') (update_workflow_activity d id).
Proof.
  split; [|intros r; by destruct r]. apply moves_statement; [exact (proj1 (keeps_heartbeat id))|].
  refine (moves_update id' (fun t r => _) (fun _ => _) _ _); [done|]. reflexivity.
Qed.

Lemma keeps_cancel id : steps keeps (cancel_workflow_run d id).
Proof.
  simpl. split; [|intros r; by destruct r].
  refine (keeps_update (fun t r => _) (fun _ => _) _ _); [done|].
  intros t r _ _. apply (row_ok_set_completed Run_Cancelled).
Qed.

Lemma moves_cancel id id' : steps (moves (races := races) id') (cancel_workflow_run d id).
Proof.
  split; [|intros r; by destruct r]. apply moves_statement; [exact (proj1 (keeps_cancel id))|].
  refine (moves_update id' (fun t r => _) (fun _ => _) _ _); [done|].
  intros t r [_ Hr%negb_true_iff]%andb_true_iff [ [st Hst] _].
  rewrite <-not_true_iff_false, status_in_spec in Hr. simpl. rewrite Hst, status_of_to_str in *.
  apply rtc_once. change (transition (races := races) (Some st) (Some Run_Cancelled)).
  apply tr_cancel; intros ->; apply Hr; vm_compute; set_solver.
Qed.

(** The SET clauses of [update_workflow_run] keep a row well formed. *)
Definition apply_clauses (clauses : list (Z -> run_row -> run_row)) (t : Z) (r : run_row) : run_row :=
  fold_left (fun r' f => f t r') clauses r.

Lemma rewrites_clauses u t : rewrites (apply_clauses (update_clauses d u) t).
Proof.
  intros r. destruct u as [o m]. unfold update_clauses, apply_clauses. simpl.
  destruct o as [st|], m as [md|]; simpl; [| |done|done];
    destruct (is_approval_transition _ _); destruct st; done.
Qed.

Lemma row_ok_clauses u t r : row_ok r -> row_ok (apply_clauses (update_clauses d u) t r).
Proof.
  intros Hr. destruct u as [o m]. unfold update_clauses, apply_clauses. simpl.
  assert (Hmerge : forall r', row_ok r' ->
    row_ok (fold_left (fun r' (f : Z -> run_row -> run_row) => f t r')
      match m with Some md => [fun _ => merge_metadata d md] | None => [] end r')).
  { intros r' Hr'. destruct m; [by apply row_ok_merge|done]. }
  rewrite fold_left_app. destruct o as [st|]; [|by apply Hmerge]. apply Hmerge. simpl.
  destruct (is_approval_transition st m) eqn:Ea; simpl.
  - apply row_ok_set_status; [done| |]; by intros ->.
  - destruct st; simpl;
      [by apply (row_ok_set_status Run_Pending)|by apply (row_ok_set_status Run_Running)
      |by apply (row_ok_set_completed Run_Completed)|by apply (row_ok_set_completed Run_Failed)
      |by apply (row_ok_set_completed Run_Cancelled)|by apply (row_ok_set_status Run_Paused)].
Qed.

Lemma keeps_set_clauses id u :
  keeps_runs_ok (fun t => update_runs (apply_clauses (update_clauses d u) t) (Run_id_is id)).
Proof.
  refine (keeps_update (fun t => _) (fun _ => _) _ _); [apply rewrites_clauses|].
  intros t r _. apply row_ok_clauses.
Qed.

Lemma moves_set_clauses id u id' :
  up_status u = None ->
  moves_run (races := races) id' (fun t => update_runs (apply_clauses (update_clauses d u) t) (Run_id_is id)).
Proof.
  intros Hu. refine (moves_update id' (fun t => _) (fun _ => _) _ _); [apply rewrites_clauses|].
  intros t r _ _. unfold update_clauses, apply_clauses. rewrite Hu. simpl.
  by destruct (up_metadata u).
Qed.

(** [update_workflow_run] is at most that statement. *)
Lemma update_steps R id u :
  (forall t s, R s (snd (update_runs (apply_clauses (update_clauses d u) t) (Run_id_is id) s))) ->
  steps R (update_workflow_run d id u).
Proof.
  intros HR. unfold update_workflow_run. unfold apply_clauses in HR.
  destruct (update_clauses d u); [done|]. split; [exact HR|].
  intros res. destruct res; [done|]. simpl. by destruct (starts_with _ _).
Qed.

(** *** Deletion *)

Lemma keeps_old_events days : keeps_runs_ok (delete_old_events d days).
Proof. intros t s Hs. unfold delete_old_events. by destruct (old_cutoff d t days). Qed.

Lemma moves_old_events days id : moves_run (races := races) id (delete_old_events d days).
Proof. intros t s _. unfold delete_old_events. destruct (old_cutoff d t days); reflexivity. Qed.

Lemma keeps_old_runs days : keeps_runs_ok (delete_old_runs d days).
Proof.
  intros t s Hs. unfold delete_old_runs. destruct (old_cutoff d t days) as [c|]; [|done].
  by apply (keeps_delete (fun _ r => terminal_run r && (c_started_at r <? c)%Z) t).
Qed.

Lemma moves_old_runs days id : moves_run (races := races) id (delete_old_runs d days).
Proof.
  intros t s Hs. unfold delete_old_runs. destruct (old_cutoff d t days) as [c|]; [|reflexivity].
  apply delete_moves; [done|]. by intros r _ [Ht _]%andb_true_iff _.
Qed.

Lemma first_status_select id t (s : db) :
  match fst (select_status id t s) with
  | Ok cr =>
      (rows cr = [] /\ find_run id s = None) \/
      exists r v l, rows cr = v :: l /\ r ∈ runs s /\ c_id r = id
                    /\ first_status cr = Some (c_status r)
  | Err _ => False
  end.
Proof.
  simpl. destruct (select_where runs (Run_id_is id) s) as [|r l] eqn:E; simpl.
  - left. split; [done|]. apply find_run_None. intros r Hr Hid.
    assert (Hin : r ∈ select_where runs (Run_id_is id) s).
    { apply elem_of_select. split; [done|]. by apply Run_id_is_spec. }
    rewrite E in Hin. set_solver.
  - right. assert (Hin : r ∈ select_where runs (Run_id_is id) s) by (rewrite E; set_solver).
    apply elem_of_select in Hin as [Hr Hid%Run_id_is_spec]. by eexists r, _, _.
Qed.

(** What a deletion's transaction does when it commits: the run was there, in a
    terminal status; it goes with its events. *)
Lemma delete_committed id (w : nat -> answer) n s :
  let r := run w (delete_workflow_run_tx id) n s in
  is_ok (fst (fst r)) = true ->
  (exists r, r ∈ runs s /\ c_id r = id /\ terminal_run r = true) /\
  snd r = set_events (set_runs s (List.filter (fun r => negb (Run_id_is id r)) (runs s)))
            (List.filter (fun e => negb (str_eqb (e_workflow_run_id e) id)) (events s)).
Proof.
  simpl. destruct (w n) as [t|e]; [|done]. unfold ask.
  pose proof (first_status_select id t s) as Hf. destruct (select_status id t s) as [res s'] eqn:Es.
  assert (s' = s) as -> by (by injection Es). cbn [fst snd] in *. destruct res as [cr|]; [|done].
  destruct Hf as [ [-> _]|(r & v & l & -> & Hr & Hid & ->)]; [done|]. simpl.
  destruct (negb _) eqn:Et; [done|]. simpl. apply negb_false_iff in Et.
  destruct (w (S n)) as [t1|]; [|done]. simpl.
  destruct (w (S (S n))) as [t2|]; [|done]. simpl.
  destruct (_ =? 0)%N; [done|]. intros _. split; [|done]. by exists r.
Qed.

Lemma atomically_delete_run id id' : atomically (moves (races := races) id') (delete_workflow_run id).
Proof.
  split; [|intros r; by repeat case_match].
  intros w n s Hok. apply delete_committed in Hok as [(r & Hr & Hid & Ht) ->].
  intros Hs. split; [by apply (keeps_delete (fun _ => Run_id_is id) 0%Z s)|].
  apply (delete_moves id' (Run_id_is id) s Hs). intros r' Hr' Hid1%Run_id_is_spec Hid2.
  assert (r' = r) as ->; [|done]. destruct Hs as [Hnd _].
  apply (find_run_unique id s) in Hr; [|done..]. apply (find_run_unique id s) in Hr'; [|done..].
  congruence.
Qed.

(** Statement by statement a deletion no longer knows the status it has read. *)
Lemma steps_delete_tx (R : relation db) `{!PreOrder R} id :
  (forall s, R s (snd (delete_runs (Run_id_is id) s))) ->
  (forall s l, R s (set_events s l)) -> steps R (delete_workflow_run_tx id).
Proof.
  intros Hr He. split; [intros t s; reflexivity|]. intros res. destruct res as [cr|]; [|done].
  destruct (rows cr); [done|]. cbn zeta. destruct (negb _); [done|].
  split; [intros t s; apply He|]. intros r. destruct r; [|done].
  split; [intros t s; apply Hr|]. intros r'. destruct r'; [|done]. by destruct (_ =? 0)%N.
Qed.

Lemma moves_delete_statement id id' :
  (races = false -> str_eqb id id' = false) ->
  moves_run (races := races) id' (fun _ => delete_runs (Run_id_is id)).
Proof.
  intros Hid t s [Hnd Hall]. cbn [snd delete_runs]. unfold status_in_db.
  rewrite find_run_filter by done. destruct (find_run id' s) as [r|] eqn:E; simpl; [|reflexivity].
  destruct (Run_id_is id r) eqn:Ei; simpl; [|reflexivity].
  apply find_run_Some in E as [Hr Hr']. apply Run_id_is_spec in Ei.
  eapply Forall_forall in Hall; [|exact Hr]. destruct Hall as [[st Hst] _].
  rewrite Hst, status_of_to_str. apply rtc_once, tr_delete_race.
  destruct races; [done|]. assert (str_eqb id id' = true) by (apply str_eqb_spec; congruence).
  by rewrite Hid in *.
Qed.

(** *** Every call *)

Lemma keeps_pure_query {A : Type} (f : Z -> db -> result DbError QueryResult)
    (k : result DbError QueryResult -> prog A) (R : relation db) `{!PreOrder R} :
  (forall r, steps R (k r)) -> steps R (Query (fun t s => (f t s, s)) k).
Proof. intros Hk. split; [|done]. intros t s. reflexivity. Qed.

Lemma lock_steps (R : relation db) `{!PreOrder R} path self_run :
  steps R (get_active_workflow_run_by_path d path self_run).
Proof.
  split; [|done]. intros t s. unfold select_active.
  destruct (stale_pending_cutoff d t); reflexivity.
Qed.

Lemma create_steps (R : relation db) `{!PreOrder R} id data :
  (forall md t s, R s (snd (insert_run d id data md t s))) ->
  steps R (create_workflow_run d id data).
Proof.
  intros HR. unfold create_workflow_run, create_workflow_run_inner.
  destruct (metadata_json (cd_metadata data)) as [json|]; [|done].
  split.
  - split; [apply HR|]. intros r. by repeat case_match.
  - intros r. by repeat case_match.
Qed.

Lemma resume_steps (R : relation db) `{!PreOrder R} id :
  (forall t s, R s (snd (resume_update d id t s))) -> steps R (resume_workflow_run d id).
Proof.
  intros HR. split; [exact HR|]. intros r. destruct r as [res|]; [|done].
  destruct (_ =? 0)%N; apply keeps_pure_query; try done; intros r; by repeat case_match.
Qed.

Lemma delete_old_steps (R : relation db) `{!PreOrder R} days :
  (forall t s, R s (snd (delete_old_events d days t s))) ->
  (forall t s, R s (snd (delete_old_runs d days t s))) ->
  steps R (delete_old_workflow_runs d days).
Proof.
  intros He Hr. unfold delete_old_workflow_runs. destruct (_ <? _)%N; [done|].
  split.
  - split; [apply He|]. intros r. destruct r; [|done]. split; [apply Hr|].
    intros r. by destruct r.
  - intros r. by repeat case_match.
Qed.

(** The three guarded operations respect a relation that their UPDATE respects. *)
Lemma unit_query_steps (R : relation db) (q : statement) (f : _ -> result StoreError unit) :
  (forall t s, R s (snd (q t s))) -> steps R (Query q (fun r => Done (f r))).
Proof. by intros HR. Qed.

Lemma call_keeps c : steps keeps (call d c).
Proof.
  destruct c; unfold call, ignore_result; try apply steps_map.
  - apply create_steps; [apply _|]. intros md. apply keeps_insert.
  - by apply keeps_pure_query; [apply _|].
  - apply keeps_pure_query; [apply _|]. intros r. by destruct r.
  - apply lock_steps, _.
  - by apply keeps_pure_query; [apply _|].
  - apply keeps_orphans.
  - apply resume_steps; [apply _|]. apply keeps_resume.
  - apply update_steps, keeps_set_clauses.
  - apply keeps_heartbeat.
  - apply unit_query_steps. refine (keeps_guarded id Run_Completed _ _ _ _); by destruct md.
  - apply unit_query_steps. by refine (keeps_guarded id Run_Failed _ _ _ _).
  - split; [|intros r; by repeat case_match]. by refine (keeps_guarded id Run_Paused _ _ _ _).
  - apply keeps_cancel.
  - split; [by intros t s Hs|done].
  - apply keeps_pure_query; [apply _|]. intros r. by destruct r.
  - apply delete_old_steps; [apply _| |]; [apply keeps_old_events|apply keeps_old_runs].
  - split; [|intros r; by repeat case_match]. apply steps_delete_tx; [apply _| |by intros s l Hs].
    exact (keeps_delete (fun _ => Run_id_is id) 0%Z).
Qed.

Lemma moves_refl_query {A : Type} id (q : statement) (k : result DbError QueryResult -> prog A) :
  keeps_runs_ok q -> moves_run (races := races) id q -> (forall r, steps (moves (races := races) id) (k r)) ->
  steps (moves (races := races) id) (Query q k).
Proof. intros Hk Hm Hr. split; [|done]. by apply moves_statement. Qed.

(** Every statement of a call moves the run along the machine, if it may go in any status
    where it is deleted. *)
Lemma call_moves id c :
  creates id c = false -> sets_status c = false -> (races = false -> deletes id c = false) ->
  steps (moves (races := races) id) (call d c).
Proof.
  intros Hc Hu Hd. destruct c; unfold call, ignore_result; try apply steps_map; simpl in Hc, Hu, Hd.
  - apply create_steps; [apply _|]. intros md.
    apply moves_statement; [apply keeps_insert|by apply moves_insert].
  - by apply keeps_pure_query; [apply _|].
  - apply keeps_pure_query; [apply _|]. intros r. by destruct r.
  - apply lock_steps, _.
  - by apply keeps_pure_query; [apply _|].
  - apply moves_orphans.
  - apply resume_steps; [apply _|].
    apply moves_statement; [apply keeps_resume|apply moves_resume].
  - apply update_steps. apply moves_statement; [apply keeps_set_clauses|].
    apply moves_set_clauses. by destruct (up_status updates).
  - apply moves_heartbeat.
  - apply moves_refl_query; [refine (keeps_guarded id0 Run_Completed _ _ _ _)
      |refine (moves_guarded id0 id Run_Completed _ _ _ _)|done]; solve [done|constructor|by destruct md].
  - apply moves_refl_query; [by refine (keeps_guarded id0 Run_Failed _ _ _ _)
      |refine (moves_guarded id0 id Run_Failed _ _ _ _)|done]; solve [done|constructor].
  - apply moves_refl_query; [by refine (keeps_guarded id0 Run_Paused _ _ _ _)
      |refine (moves_guarded id0 id Run_Paused _ _ _ _)|intros r; by repeat case_match];
      solve [done|constructor].
  - apply moves_cancel.
  - split; [by intros t s Hs|done].
  - apply keeps_pure_query; [apply _|]. intros r. by destruct r.
  - apply delete_old_steps; [apply _| |]; apply moves_statement;
      [apply keeps_old_events|apply moves_old_events|apply keeps_old_runs|apply moves_old_runs].
  - split; [|intros r; by repeat case_match]. apply steps_delete_tx; [apply _| |by intros s l Hs; split].
    exact (moves_statement id (fun _ => delete_runs (Run_id_is id0))
             (keeps_delete (fun _ => Run_id_is id0)) (moves_delete_statement id0 id Hd) 0%Z).
Qed.

(** Where a transaction is one turn, a deletion of the run too. *)
Lemma call_moves_atomically id c :
  creates id c = false -> sets_status c = false -> atomically (moves (races := races) id) (call d c).
Proof.
  intros Hc Hu. destruct (deletes id c) eqn:Hd.
  - destruct c; try discriminate Hd. apply atomically_map, atomically_delete_run.
  - apply steps_atomically; [apply _|]. by apply call_moves.
Qed.

End Calls.

(** ** Transactions whose statements interleave

    What a statement may do to the table, it may do to the table an open transaction
    sees; the locks keep what that transaction has seen of its own rows true up to its
    COMMIT. *)

Section Patches.
Context {A : Type} `{EqDecision A}.

Lemma elem_of_without (gone l : list A) x : x ∈ without gone l <-> x ∈ l /\ x ∉ gone.
Proof.
  unfold without. rewrite elem_of_list_filter, negb_true_iff, bool_decide_eq_false. tauto.
Qed.
Lemma elem_of_patch (gone new l : list A) x : x ∈ patch gone new l <-> (x ∈ l /\ x ∉ gone) \/ x ∈ new.
Proof. unfold patch. by rewrite elem_of_app, elem_of_without. Qed.
Lemma NoDup_without (gone l : list A) : NoDup l -> NoDup (without gone l).
Proof.
  intros Hl. unfold without. apply NoDup_ListNoDup, List.NoDup_filter. by apply NoDup_ListNoDup.
Qed.

(** Patching with a further statement gives the rows that statement has left. *)
Lemma patch_more (gone new l v' : list A) :
  NoDup l -> NoDup (patch gone new l) -> NoDup v' ->
  patch (more_gone gone new (patch gone new l) v') (more_new new (patch gone new l) v') l ≡ₚ v'.
Proof.
  set (v := patch gone new l). intros Hl Hv Hv'.
  assert (forall x, x ∈ l -> x ∉ gone -> x ∉ new) as Hdisj.
  { intros x Hx Hg Hn. subst v. apply NoDup_app in Hv as (_ & Hd & _). apply (Hd x); [|done].
    by apply elem_of_without. }
  apply NoDup_Permutation; [|done|].
  - unfold patch at 1. apply NoDup_app. split; [by apply NoDup_without|]. split.
    + intros x [Hx Hg]%elem_of_without Hn. unfold more_gone, more_new in *.
      rewrite !elem_of_app, !elem_of_without in *. subst v. rewrite elem_of_patch in *. naive_solver.
    + unfold more_new. apply NoDup_app. split; [|split].
      * apply NoDup_without. subst v. by apply NoDup_app in Hv as (_ & _ & ?).
      * intros x [Hx _]%elem_of_without [_ Hn]%elem_of_without. apply Hn. subst v. apply elem_of_patch. by right.
      * by apply NoDup_without.
  - intros x. rewrite elem_of_patch. unfold more_gone, more_new.
    rewrite !elem_of_app, !elem_of_without. subst v. rewrite !elem_of_patch.
    destruct (decide (x ∈ l)), (decide (x ∈ gone)), (decide (x ∈ new)), (decide (x ∈ v')); naive_solver.
Qed.
End Patches.

Section ReadCommitted.
Context `{SqlEngine}.
Variable T : relation (option WorkflowRunStatus).
Variable id : str.

Definition follows (s s' : db) : Prop :=
  runs_ok s -> runs_ok s' /\ rtc T (status_in_db id s) (status_in_db id s').

#[export] Instance follows_preorder : PreOrder follows.
Proof.
  split; [by intros s Hs|]. unfold follows. intros s1 s2 s3 H12 H23 Hs.
  destruct (H12 Hs) as [Hs2 Hr2]. destruct (H23 Hs2) as [Hs3 Hr3]. split; [done|by etrans].
Qed.

Lemma runs_ok_perm (s s' : db) : runs s ≡ₚ runs s' -> runs_ok s -> runs_ok s'.
Proof. intros Hp [Hn Hf]. split; [by rewrite <- Hp|by rewrite <- Hp]. Qed.

(** The rows of one run decide its status. *)
Lemma status_same_rows (s s' : db) :
  runs_ok s -> runs_ok s' -> (forall r, c_id r = id -> r ∈ runs s <-> r ∈ runs s') ->
  status_in_db id s = status_in_db id s'.
Proof.
  intros [Hn _] [Hn' _] Hr. unfold status_in_db. destruct (find_run id s) as [r|] eqn:E.
  - apply find_run_Some in E as [Hin Hid]. rewrite (find_run_unique id s' r); [done|done| |done]. by apply Hr.
  - rewrite (proj2 (find_run_None id s')); [done|]. intros r Hin Hid.
    apply (proj1 (find_run_None id s) E r); [|done]. by apply Hr.
Qed.

(** The runs that differ between two states. *)
Definition touched (s s' : db) : list str :=
  map c_id (without (runs s') (runs s) ++ without (runs s) (runs s')).
Definition apart (l l' : list str) : Prop := forall x, x ∈ l -> x ∉ l'.

Lemma untouched_row s s' r : c_id r ∉ touched s s' -> (r ∈ runs s <-> r ∈ runs s').
Proof.
  unfold touched. intros Hn. split; intros Hr; apply dec_stable; intros Hr'; apply Hn.
  - apply list_elem_of_fmap_2, elem_of_app. left. by apply elem_of_without.
  - apply list_elem_of_fmap_2, elem_of_app. right. by apply elem_of_without.
Qed.

(** What an open transaction has done so far. *)
Definition pending (own : changes) (s : db) : Prop :=
  gone_runs own ⊆ runs s /\ runs_ok (apply_changes own s)
  /\ rtc T (status_in_db id s) (status_in_db id (apply_changes own s)).

Lemma pending_none s : runs_ok s -> pending no_changes s.
Proof.
  intros Hs. assert (runs (apply_changes no_changes s) ≡ₚ runs s) as Hp.
  { cbn. apply NoDup_Permutation; [|eapply NoDup_fmap_1, (proj1 Hs)|].
    - unfold patch. rewrite app_nil_r. apply NoDup_without. eapply NoDup_fmap_1, (proj1 Hs).
    - intros x. rewrite elem_of_patch. set_solver. }
  assert (runs_ok (apply_changes no_changes s)) as Hok by (by eapply runs_ok_perm; [symmetry|]).
  split_and!; [set_solver|done|].
  rewrite (status_same_rows s (apply_changes no_changes s)); [reflexivity|done|done|].
  intros r _. by rewrite Hp.
Qed.

Lemma locked_gone own r : r ∈ gone_runs own -> c_id r ∈ locked_runs own.
Proof. intros Hr. apply list_elem_of_fmap_2, elem_of_app. by left. Qed.
Lemma locked_new own r : r ∈ new_runs own -> c_id r ∈ locked_runs own.
Proof. intros Hr. apply list_elem_of_fmap_2, elem_of_app. by right. Qed.

Lemma runs_ok_NoDup s : runs_ok s -> NoDup (runs s).
Proof. intros [Hn _]. by eapply NoDup_fmap_1. Qed.
Lemma runs_ok_row s r r' : runs_ok s -> r ∈ runs s -> r' ∈ runs s -> c_id r = c_id r' -> r = r'.
Proof.
  intros [Hn _] Hr Hr' E. apply (find_run_unique (c_id r') s) in Hr; [|done|done].
  apply (find_run_unique (c_id r') s) in Hr'; [|done|done]. congruence.
Qed.

(** Nobody else's change, which the locks keep off, makes it untrue. *)
Lemma pending_stable own s s' :
  runs_ok s -> runs_ok s' -> apart (touched s s') (locked_runs own) -> pending own s -> pending own s'.
Proof.
  intros Hs Hs' Hap (Hg & Hok & Hst).
  assert (forall r, c_id r ∈ locked_runs own -> (r ∈ runs s <-> r ∈ runs s')) as Hl.
  { intros r Hr. apply untouched_row. intros Ht. by apply (Hap (c_id r)). }
  assert (runs_ok (apply_changes own s')) as Hok'.
  { destruct Hok as [Hn Hf]. cbn in Hn, Hf |- *. unfold patch in *.
    rewrite map_app, NoDup_app in Hn. destruct Hn as (Hn1 & Hd & Hn2). split.
    - cbn. unfold patch. rewrite map_app, NoDup_app. split_and!; [|intros x Hx Hx'|done].
      + unfold without. apply NoDup_map_filter, Hs'.
      + apply list_elem_of_fmap in Hx as (r & -> & [Hr Hrg]%elem_of_without).
        apply list_elem_of_fmap in Hx' as (r' & E & Hr').
        apply (Hd (c_id r)); [|by apply list_elem_of_fmap; exists r'].
        apply list_elem_of_fmap_2, elem_of_without. split; [|done].
        apply Hl; [|done]. rewrite E. by apply locked_new.
    - apply Forall_app in Hf as [_ Hf2]. cbn. apply Forall_app. split; [|done].
      unfold without. by apply Forall_filter_keep, Hs'. }
  split_and!; [|done|].
  - intros r Hr. apply Hl; [by apply locked_gone|by apply Hg].
  - destruct (decide (id ∈ locked_runs own)) as [Hid|Hid].
    + rewrite <- (status_same_rows s s'), <- (status_same_rows (apply_changes own s) (apply_changes own s')); [done|..];
        try done; intros r Hr; cbn; rewrite ?elem_of_patch, Hl; try done; by rewrite Hr.
    + rewrite (status_same_rows s' (apply_changes own s')); [reflexivity|done|done|].
      intros r Hr. cbn. rewrite elem_of_patch. split; [intros Hin; left; split; [done|]|intros [[? _]|Hin]; [done|]].
      * intros Hrg. apply Hid. rewrite <- Hr. by apply locked_gone.
      * destruct Hid. rewrite <- Hr. by apply locked_new.
Qed.

(** A further statement of the transaction. *)
Lemma pending_statement own s s' :
  runs_ok s -> pending own s -> follows (apply_changes own s) s' ->
  pending (after_statement own (apply_changes own s) s') s.
Proof.
  intros Hs (Hg & Hok & Hst) Hq. destruct (Hq Hok) as [Hok' Hst'].
  assert (runs (apply_changes (after_statement own (apply_changes own s) s') s) ≡ₚ runs s') as Hp.
  { cbn. apply (patch_more (gone_runs own) (new_runs own));
      [by apply runs_ok_NoDup|exact (runs_ok_NoDup _ Hok)|by apply runs_ok_NoDup]. }
  assert (runs_ok (apply_changes (after_statement own (apply_changes own s) s') s)) as Hok2
    by (by eapply runs_ok_perm; [symmetry|]).
  split_and!; [|done|].
  - cbn. unfold more_gone. intros r. rewrite elem_of_app, !elem_of_without, elem_of_patch. naive_solver.
  - etrans; [exact Hst|]. etrans; [exact Hst'|].
    rewrite (status_same_rows s' (apply_changes (after_statement own (apply_changes own s) s') s));
      [reflexivity|done|done|]. intros r _. by rewrite Hp.
Qed.

(** A COMMIT touches the locked rows only. *)
Lemma commit_touches own s : gone_runs own ⊆ runs s ->
  forall x, x ∈ touched s (apply_changes own s) -> x ∈ locked_runs own.
Proof.
  intros Hg x Hx. unfold touched in Hx. apply list_elem_of_fmap in Hx as (r & -> & Hr).
  rewrite elem_of_app, !elem_of_without in Hr. destruct Hr as [[Hr Hn]|[Hr Hn]].
  - apply locked_gone. apply dec_stable. intros Hg'. apply Hn, elem_of_patch. by left.
  - apply (proj1 (elem_of_patch (gone_runs own) (new_runs own) (runs s) r)) in Hr. destruct Hr as [[Hr _]|Hr]; [done|by apply locked_new].
Qed.

Lemma overlap_apart l l' : overlap l l' = false -> apart l l'.
Proof.
  intros Ho x Hx Hx'. apply not_true_iff_false in Ho. apply Ho. apply existsb_exists. exists x.
  split; [by apply list_elem_of_In|]. apply existsb_exists. exists x.
  split; [by apply list_elem_of_In|apply str_eqb_refl].
Qed.
Lemma no_wait_apart own others c :
  existsb (conflicts own) others = false -> c ∈ others -> apart (locked_runs own) (locked_runs c).
Proof.
  intros Hw Hc. apply overlap_apart. apply not_true_iff_false in Hw.
  destruct (overlap _ _) eqn:Ho; [|done]. destruct Hw. apply existsb_exists. exists c.
  split; [by apply list_elem_of_In|]. unfold conflicts. by rewrite Ho.
Qed.
Lemma statement_locks s s' : forall x, x ∈ touched s s' -> x ∈ locked_runs (after_statement no_changes s s').
Proof.
  intros x Hx. unfold touched, locked_runs in *. apply list_elem_of_fmap in Hx as (r & -> & Hr).
  apply list_elem_of_fmap_2. cbn. unfold more_gone, more_new. cbn [app].
  rewrite elem_of_app, !elem_of_without in *. set_solver.
Qed.

(** A client that may take its turn: what it is to do respects the machine. *)
Definition client_ok {A : Type} (d : Dialect) (c : client A) (s : db) : Prop :=
  match c with
  | Idle p => match d with Sqlite => atomically follows p | Postgres => steps follows p end
  | Open body k own => d = Postgres /\ steps follows body /\ (forall r, steps follows (k r)) /\ pending own s
  end.
Definition pool_ok {A : Type} (d : Dialect) (pool : list (client A)) (s : db) : Prop :=
  (forall i c, pool !! i = Some c -> client_ok d c s)
  /\ (forall i j c c', pool !! i = Some c -> pool !! j = Some c' -> i ≠ j ->
        apart (locked_runs (own_changes c)) (locked_runs (own_changes c'))).

Lemma beside_elem {A : Type} i j (pool : list (client A)) c :
  pool !! j = Some c -> i ≠ j -> own_changes c ∈ open_beside i pool.
Proof.
  intros Hj Hij. apply list_elem_of_fmap_2. apply list_elem_of_lookup.
  destruct (decide (j < i)) as [Hlt|Hge].
  - exists j. by rewrite list_lookup_delete_lt by lia.
  - exists (j - 1). rewrite list_lookup_delete_ge by lia. by replace (S (j - 1)) with j by lia.
Qed.

(** What one turn does. *)
Lemma turn_follows {A : Type} (d : Dialect) (w : nat -> answer) (pool : list (client A)) i c n s :
  runs_ok s -> pool_ok d pool s -> pool !! i = Some c ->
  let r := turn d w (open_beside i pool) c n s in
  runs_ok (snd r) /\ rtc T (status_in_db id s) (status_in_db id (snd r))
  /\ pool_ok d (<[i := fst (fst r)]> pool) (snd r).
Proof.
  intros Hs [Hp Ha] Hi r.
  enough (follows s (snd r) /\ client_ok d (fst (fst r)) (snd r)
    /\ (forall j c', pool !! j = Some c' -> i ≠ j ->
          apart (locked_runs (own_changes (fst (fst r)))) (locked_runs (own_changes c'))
          /\ apart (touched s (snd r)) (locked_runs (own_changes c')))) as (Hf & Hc & Hl).
  { destruct (Hf Hs) as [Hs' Hst]. split_and!; [done|done|split].
    - intros j cj Hj. apply list_lookup_insert_Some in Hj as [(<- & <- & _)|[Hij Hj]]; [done|].
      specialize (Hp j cj Hj). destruct (Hl j cj Hj Hij) as [_ Ht].
      destruct cj as [p|body k own]; [done|]. destruct Hp as (? & ? & ? & Hpe). split_and!; try done.
      by apply (pending_stable own s).
    - intros j j' cj cj' Hj Hj' Hne.
      apply list_lookup_insert_Some in Hj as [(<- & <- & _)|[Hij Hj]];
        apply list_lookup_insert_Some in Hj' as [(E & <- & _)|[Hij' Hj']]; [done| | |by eapply Ha].
      + by apply (Hl j').
      + subst. intros x Hx Hx'. by apply (proj1 (Hl j cj Hj ltac:(done)) x). }
  assert (forall l, apart (touched s s) l) as Hss.
  { intros l x Hx. exfalso. apply list_elem_of_fmap in Hx as (r' & _ & Hr').
    apply elem_of_app in Hr' as [Hr'|Hr']; by apply elem_of_without in Hr' as []. }
  assert (forall own, (forall j c', pool !! j = Some c' -> i ≠ j ->
      apart (locked_runs own) (locked_runs (own_changes c')) /\ apart (touched s s) (locked_runs (own_changes c')))
    <-> forall j c', pool !! j = Some c' -> i ≠ j -> apart (locked_runs own) (locked_runs (own_changes c')))
    as Hsame by (intros own; split; intros Hx j c' Hj Hij; specialize (Hx j c' Hj Hij); [by apply Hx|by split]).
  assert (forall j c', pool !! j = Some c' -> i ≠ j -> apart (locked_runs (own_changes c)) (locked_runs (own_changes c')))
    as Hc by (intros j c' Hj Hij; by eapply Ha).
  assert (forall j c', pool !! j = Some c' -> i ≠ j -> apart (locked_runs no_changes) (locked_runs (own_changes c')))
    as Hno by (intros j c' _ _ x Hx; by apply elem_of_nil in Hx).
  pose proof (Hp i c Hi) as Hok. subst r.
  destruct c as [[a|q k|body k]|[[v|e]|q body|body' k'] k own]; cbn [turn fst snd].
  - (* Idle (Done a) *) split_and!; [by intros|done|by apply Hsame].
  - assert (forall r, client_ok d (Idle (k r)) (snd (turn d w (open_beside i pool) (Idle (Query q k)) n s))) as Hk.
    { intros r0. destruct d; by apply Hok. }
    assert (forall t, follows s (snd (q t s))) as Hq by (intros t; destruct d; by apply Hok).
    destruct (w n) as [t|e]; cbn [fst snd]; [|split_and!; [by intros|apply Hk|by apply Hsame]].
    destruct (existsb _ _) eqn:Hw; cbn [fst snd]; [by split_and!; [intros| |apply Hsame]|].
    split_and!; [apply Hq|apply Hk|]. intros j c' Hj Hij. split; [by apply (Hno j)|].
    intros x Hx%statement_locks. revert x Hx. apply (no_wait_apart _ _ _ Hw). by eapply beside_elem.
  - destruct d; cbn [client_ok] in Hok.
    + destruct (w n) as [t|e]; cbn [fst snd]; (split_and!; [by intros| |by apply Hsame]);
        [split_and!; [done|by apply Hok..|by apply pending_none]|apply Hok].
    + destruct Hok as [Hb Hk]. split_and!; [|apply Hk|].
      * apply (run_respects follows w (with_transaction body Done)). by split.
      * intros j c' Hj Hij. split; [by apply (Hno j)|]. specialize (Hp j c' Hj).
        destruct c' as [p|? ? ?]; [|by destruct Hp]. by intros x _ Hx%elem_of_nil.
  - destruct Hok as (-> & Hb & Hk & Hg & Hoka & Hst).
    destruct (w n) as [t|e]; cbn [fst snd]; [|split_and!; [by intros|apply Hk|by apply Hsame]].
    split_and!; [by intros _|apply Hk|]. intros j c' Hj Hij. split; [by apply (Hno j)|].
    intros x Hx%commit_touches; [|done]. by apply (Hc j c' Hj Hij).
  - destruct Hok as (-> & Hb & Hk & Hpe). split_and!; [by intros|apply Hk|by apply Hsame].
  - destruct Hok as (-> & [Hq Hb] & Hk & Hpe).
    destruct (w n) as [t|e]; cbn [fst snd];
      [|split_and!; [by intros|by split_and!; [|apply Hb| |]|by apply Hsame]].
    destruct (existsb _ _) eqn:Hw; cbn [fst snd];
      [by split_and!; [intros|split_and!; [|split| |]|apply Hsame]|].
    split_and!; [by intros| |apply Hsame; intros j c' Hj Hij; apply (no_wait_apart _ _ _ Hw); by eapply beside_elem].
    split_and!; [done|apply Hb|done|]. by apply pending_statement.
  - by split_and!; [intros| |apply Hsame].
Qed.

Lemma clients_follow {A : Type} (d : Dialect) (w : nat -> answer) schedule (pool : list (client A)) n s :
  runs_ok s -> pool_ok d pool s ->
  let s' := snd (interleave_clients d w schedule pool n s) in
  runs_ok s' /\ rtc T (status_in_db id s) (status_in_db id s').
Proof.
  revert pool n s. induction schedule as [|i rest IH]; intros pool n s Hs Hp; cbn zeta; cbn [interleave_clients].
  { by split. }
  destruct (pool !! i) as [c|] eqn:Hi; [|by apply IH].
  destruct (turn_follows d w pool i c n s Hs Hp Hi) as (Hs1 & Hr1 & Hp1).
  destruct (IH _ (snd (fst (turn d w (open_beside i pool) c n s))) _ Hs1 Hp1) as [Hs2 Hr2].
  split; [done|by etrans].
Qed.

(** Programs that respect the machine, at each statement where these interleave and at
    each query and transaction where they do not, respect it together. *)
Lemma interleave_follows {A : Type} (d : Dialect) (w : nat -> answer) schedule (pool : list (prog A)) n s :
  Forall (fun p => match d with Sqlite => atomically follows p | Postgres => steps follows p end) pool ->
  follows s (snd (interleave d w schedule pool n s)).
Proof.
  intros Hp Hs. apply clients_follow; [done|]. change (map (@Idle A) pool) with (@Idle A <$> pool). split.
  - intros i c Hc. apply list_lookup_fmap_Some in Hc as (p & -> & Hi).
    exact (Forall_lookup_1 _ _ _ _ Hp Hi).
  - intros i j c c' Hc _ _. apply list_lookup_fmap_Some in Hc as (p & -> & _). by intros x Hx%elem_of_nil.
Qed.

End ReadCommitted.

(** ** Theorems *)

Section Theorems.
Context `{SerdeJson} `{SqlEngine} `{StoreText}.
Variable d : Dialect.

(** Any relation on statuses that the calls respect, with the table. *)
Lemma calls_follow T id (w : nat -> answer) schedule (calls : list store_call) s :
  Forall (fun c => match d with
                   | Sqlite => atomically (follows T id) (call d c)
                   | Postgres => steps (follows T id) (call d c)
                   end) calls ->
  follows T id s (snd (interleave d w schedule (map (call d) calls) 0 s)).
Proof. intros Hc. apply interleave_follows. by apply Forall_fmap. Qed.

(** C37: whatever calls of the store run concurrently, in whatever order their queries
    and transactions interleave and whichever of them fail, the table of runs stays
    well formed: identifiers are unique, every status is one of the six, and a
    completed or cancelled run has a time of completion. *)
Theorem store_keeps_runs_ok (w : nat -> answer) (schedule : list nat) (calls : list store_call) s :
  runs_ok s -> runs_ok (snd (interleave d w schedule (map (call d) calls) 0 s)).
Proof.
  intros Hs. refine (proj1 (calls_follow (fun _ _ => True) [] w schedule calls s _ Hs)).
  apply Forall_forall. intros c _.
  assert (steps (follows (fun _ _ => True) []) (call d c)) as Hc.
  { eapply steps_impl; [|apply call_keeps]. intros s1 s2 Hk Hs1. split; [by apply Hk|by apply rtc_once]. }
  destruct d; [done|]. apply steps_atomically; [apply _|done].
Qed.

(** The calls that leave a run to its lifecycle. *)
Definition lifecycle_calls (id : str) (calls : list store_call) : Prop :=
  Forall (fun c => creates id c = false /\ sets_status c = false) calls.
(** A deletion races with the other calls where its statements are turns of their own. *)
Definition deletion_races (id : str) (calls : list store_call) : bool :=
  match d with Postgres => existsb (deletes id) calls | Sqlite => false end.

Lemma interleave_moves id (w : nat -> answer) schedule calls s :
  lifecycle_calls id calls -> runs_ok s ->
  rtc (transition (races := deletion_races id calls)) (status_in_db id s)
    (status_in_db id (snd (interleave d w schedule (map (call d) calls) 0 s))).
Proof.
  intros Hc Hs. refine (proj2 (calls_follow _ id w schedule calls s _ Hs)).
  unfold deletion_races. rewrite Forall_forall. intros c Hin.
  destruct (proj1 (Forall_forall _ _) Hc c Hin) as [H1' H2'].
  destruct d; [|by apply (call_moves_atomically (races := false))].
  apply (call_moves (races := existsb (deletes id) calls)); [done|done|]. intros Hn.
  destruct (deletes id c) eqn:Hd; [|done]. rewrite <- Hn. symmetry. apply existsb_exists. exists c.
  split; [by apply list_elem_of_In|done].
Qed.


Lemma transition_final races st o :
  st = Run_Completed \/ st = Run_Cancelled -> rtc (transition (races := races)) (Some st) o ->
  o = Some st \/ o = None.
Proof.
  intros Hst Hr. remember (Some st) as a eqn:Ea. revert Ea.
  induction Hr as [x|x y z Hxy Hyz IH]; intros ->; [by left|].
  inversion Hxy; subst; destruct Hst as [E|E]; try discriminate; try congruence.
  all: right; by inversion Hyz as [|? ? ? Ht]; [|inversion Ht].
Qed.

(** A run that is cancelled stays cancelled, and a completed one completed,
    until it is deleted: a node that is still running cannot complete, fail, pause or
    resume a run that somebody cancelled meanwhile, however the calls interleave. *)
Theorem final_status_absorbing id st (w : nat -> answer) (schedule : list nat)
    (calls : list store_call) s :
  st = Run_Completed \/ st = Run_Cancelled ->
  lifecycle_calls id calls -> runs_ok s -> status_in_db id s = Some st ->
  let s' := snd (interleave d w schedule (map (call d) calls) 0 s) in
  status_in_db id s' = Some st \/ status_in_db id s' = None.
Proof.
  intros Hst Hc Hs E. eapply transition_final; [done|]. rewrite <-E. by apply interleave_moves.
Qed.

End Theorems.

(** ** The theorems on a table of three runs *)

Definition three_runs : db :=
  sample_db [sample_run (lit "a") (lit "cancelled") 0; sample_run (lit "b") (lit "running") second;
             sample_run (lit "c") (lit "failed") (2 * second)].
Definition some_calls : list store_call :=
  [Complete (lit "a") None; Resume (lit "c"); Cancel_ (lit "b"); FailOrphaned; Delete (lit "c")].

Definition after_some_calls (d : Dialect) : db :=
  snd (interleave d sample_world [0; 1; 2; 1; 4; 3] (map (call d) some_calls) 0 three_runs).

Lemma three_runs_ok : runs_ok three_runs.
Proof.
  split.
  - apply (bool_decide_unpack _). by_compute.
  - repeat constructor; simpl; try (by intros [E|E]; discriminate E); try done;
      [by exists Run_Cancelled|by exists Run_Running|by exists Run_Failed].
Defined.

Lemma some_calls_lifecycle (id : str) : lifecycle_calls id some_calls.
Proof. repeat constructor. Defined.

Lemma store_keeps_runs_ok_witness :
  runs_ok (after_some_calls Sqlite) /\ runs_ok (after_some_calls Postgres).
Proof. split; unfold after_some_calls; apply store_keeps_runs_ok, three_runs_ok. Defined.


Lemma final_status_absorbing_witness :
  status_in_db (lit "a") (after_some_calls Sqlite) = Some Run_Cancelled \/
  status_in_db (lit "a") (after_some_calls Sqlite) = None.
Proof.
  unfold after_some_calls. apply (final_status_absorbing Sqlite (lit "a") Run_Cancelled);
    [by right|apply some_calls_lifecycle|apply three_runs_ok|by_compute].
Defined.

(** On PostgreSQL a resumption comes between the look at the status and the deletion: the
    run is running when it goes.  On SQLite the deletion comes before it or finds the run
    running. *)
Definition deletion_race (d : Dialect) (schedule : list nat) : list (option WorkflowRunStatus) :=
  map (fun n => status_in_db (lit "c")
         (snd (interleave d sample_world (take n schedule) (map (call d) [Delete (lit "c"); Resume (lit "c")]) 0 three_runs)))
      [0; 3; length schedule].
Example running_run_deleted :
  deletion_race Postgres [0; 0; 1; 0; 0; 0] = [Some Run_Failed; Some Run_Running; None]
  /\ deletion_race Sqlite [1; 0; 0; 0; 0; 0] = [Some Run_Failed; Some Run_Running; Some Run_Running].
Proof. split; by_compute. Qed.
