(* ===== verification/RunResume.v ===== *)
(** * Reading and resuming runs

    A row read back is the run it stores; what [resume_workflow_run] does on each of
    its branches; that a run is resumed by one caller at most, and that no run that
    has started is lost to a crash. *)

From S2P Require Import Prelude Float64 Json StdModel DagNode Workflow Database RunStore.
From S2P Require Import RunLifecycle.

Section Reading.
Context `{SerdeJson} `{SqlEngine} `{StoreText}.
Variable d : Dialect.

(** A time the dialect's columns hold. *)
Definition time_ok (t : Z) : Prop := valid_time t /\ sql_datetime d t = t.
Definition opt_time_ok (o : option Z) : Prop := match o with Some t => time_ok t | None => True end.

(** Metadata that survives its column: on SQLite, its text is read back. *)
Definition metadata_ok (md : object) : Prop :=
  match d with Postgres => True | Sqlite => from_str (to_string (Object md)) = Some (Object md) end.

Record row_readable (r : run_row) : Prop := {
  readable_started : time_ok (c_started_at r);
  readable_completed : opt_time_ok (c_completed_at r);
  readable_activity : opt_time_ok (c_last_activity_at r);
  readable_metadata : metadata_ok (c_metadata r);
}.

(** The run a row stores. *)
Definition run_of_row (r : run_row) (st : WorkflowRunStatus) : WorkflowRun := {|
  run_id := c_id r;
  workflow_name := c_workflow_name r;
  conversation_id := c_conversation_id r;
  parent_conversation_id := c_parent_conversation_id r;
  codebase_id := c_codebase_id r;
  run_status := st;
  user_message := c_user_message r;
  metadata := c_metadata r;
  started_at := c_started_at r;
  completed_at := c_completed_at r;
  last_activity_at := c_last_activity_at r;
  working_path := c_working_path r;
  user_id := c_user_id r;
|}.

Lemma read_text (o : option str) : as_str (text_column o) = o.
Proof. by destruct o. Qed.

Definition parse_time (s : str) : option Z :=
  match parse_from_rfc3339 s with Some t => Some t | None => parse_naive s end.

Lemma parse_shown t : time_ok t -> parse_time (show_time d t) = Some t.
Proof.
  intros [Hv Ht]. unfold parse_time. destruct d.
  - by rewrite parse_rfc3339_postgres.
  - rewrite parse_rfc3339_sqlite, parse_naive_sqlite by done. by f_equal.
Qed.

Lemma read_time (o : option Z) : opt_time_ok o -> as_str (time_column d o) ≫= parse_time = o.
Proof. destruct o as [t|]; [|done]. intros Ht. simpl. by apply parse_shown. Qed.

Lemma read_metadata md :
  metadata_ok md ->
  match json_column d (Some md) with
  | String s => object_of (from_str s)
  | Object o => o
  | _ => []
  end = md.
Proof. unfold metadata_ok, json_column. destruct d; [done|]. by intros ->. Qed.

(** The columns of the row, by name. *)
Lemma row_columns r :
  let o := row_map (run_to_value d r) in
  assoc_get (lit "id") o = Some (String (c_id r)) /\
  assoc_get (lit "workflow_name") o = Some (String (c_workflow_name r)) /\
  assoc_get (lit "conversation_id") o = Some (String (c_conversation_id r)) /\
  assoc_get (lit "status") o = Some (String (c_status r)) /\
  assoc_get (lit "user_message") o = Some (String (c_user_message r)) /\
  assoc_get (lit "started_at") o = Some (time_column d (Some (c_started_at r))) /\
  assoc_get (lit "completed_at") o = Some (time_column d (c_completed_at r)) /\
  assoc_get (lit "last_activity_at") o = Some (time_column d (c_last_activity_at r)) /\
  assoc_get (lit "metadata") o = Some (json_column d (Some (c_metadata r))) /\
  assoc_get (lit "parent_conversation_id") o = Some (text_column (c_parent_conversation_id r)) /\
  assoc_get (lit "codebase_id") o = Some (text_column (c_codebase_id r)) /\
  assoc_get (lit "working_path") o = Some (text_column (c_working_path r)) /\
  assoc_get (lit "user_id") o = Some (text_column (c_user_id r)).
Proof. repeat split; reflexivity. Qed.

Lemma row_read r st :
  c_status r = status_to_str st -> row_readable r ->
  normalize_row_to_run (row_map (run_to_value d r)) = Some (run_of_row r st).
Proof.
  intros Hst [Hs Hc Ha Hm].
  pose proof (read_time _ Hc) as Ec. pose proof (read_time _ Ha) as Ea.
  pose proof (read_time (Some (c_started_at r)) Hs) as Es. pose proof (read_metadata _ Hm) as Em.
  pose proof (row_columns r) as Hcols. cbv zeta in Hcols.
  unfold normalize_row_to_run, get_datetime, get_str, get_map, run_of_row.
  destruct Hcols as (-> & -> & -> & -> & -> & -> & -> & -> & -> & -> & -> & -> & ->).
  unfold parse_time in *.
  cbn [mbind option_bind as_str]. rewrite Hst, status_of_to_str. cbn [mbind option_bind].
  rewrite Es, Ec, Ea, !read_text. cbn [mbind option_bind]. by rewrite Em.
Qed.

(** A run read from the database is the run its row stores: the adapter's
    conversion of a row to JSON followed by [normalize_row_to_run] loses nothing of a
    row with one of the six statuses. *)
Theorem normalize_row r st :
  c_status r = status_to_str st -> row_readable r ->
  normalize_row_to_run (row_map (run_to_value d r)) = Some (run_of_row r st).
Proof. apply row_read. Qed.

End Reading.

(** ** Resuming one run *)

Section Resume.
Context `{SerdeJson} `{SqlEngine} `{StoreText}.
Variable d : Dialect.

Definition resumed_row (t : Z) (r : run_row) : run_row :=
  set_last_activity_at (Some (sql_now d t)) (set_started_at (sql_now d t)
    (set_completed_at None (set_status (lit "running") r))).

Definition resumable (t : Z) (r : run_row) : bool :=
  resumable_status_clause d t ORPHAN_RESUME_STALE_DAYS r.

(** [UPDATE] of one row. *)
Definition update_one (id : str) (f : run_row -> run_row) (s : db) : db :=
  set_runs s (map (fun r => if Run_id_is id r then f r else r) (runs s)).

Lemma filter_id_unique id (p : run_row -> bool) s :
  NoDup (map c_id (runs s)) ->
  List.filter (fun r => Run_id_is id r && p r) (runs s)
    = match find_run id s with Some r => if p r then [r] else [] | None => [] end.
Proof.
  unfold find_run. induction (runs s) as [|x l IH]; [done|]. simpl.
  intros [Hx Hnd]%NoDup_cons. destruct (Run_id_is id x) eqn:E; simpl; [|by apply IH].
  assert (Hn : List.filter (fun r => Run_id_is id r && p r) l = []).
  { apply filter_none. intros r Hr. apply andb_false_iff. left. apply not_true_iff_false.
    intros Er%Run_id_is_spec. apply Hx. apply Run_id_is_spec in E.
    apply list_elem_of_fmap. exists r. by subst. }
  rewrite Hn. by destruct (p x).
Qed.

Lemma map_id_unique id (p : run_row -> bool) (f : run_row -> run_row) s :
  NoDup (map c_id (runs s)) ->
  map (fun r => if Run_id_is id r && p r then f r else r) (runs s)
    = match find_run id s with
      | Some r => if p r then runs (update_one id f s) else runs s
      | None => runs s
      end.
Proof.
  intros Hnd. destruct (find_run id s) as [r|] eqn:E.
  - pose proof (find_run_Some _ _ _ E) as [Hr Hid].
    assert (Hu : forall r', r' ∈ runs s -> Run_id_is id r' = true -> r' = r).
    { intros r' Hr' Hid'%Run_id_is_spec. eapply find_run_unique in Hr'; [|done|done]. congruence. }
    destruct (p r) eqn:Ep; simpl.
    + apply map_ext_in. intros r' Hr'%list_elem_of_In. destruct (Run_id_is id r') eqn:E'; [|done].
      by rewrite (Hu r' Hr' E'), Ep.
    + rewrite <-(map_id (runs s)) at 2. apply map_ext_in. intros r' Hr'%list_elem_of_In.
      destruct (Run_id_is id r') eqn:E'; [|done]. by rewrite (Hu r' Hr' E'), Ep.
  - rewrite <-(map_id (runs s)) at 2. apply map_ext_in. intros r' Hr'%list_elem_of_In.
    destruct (Run_id_is id r') eqn:E'; [|done].
    apply Run_id_is_spec in E'. by eapply find_run_None in E.
Qed.

Lemma set_runs_same s : set_runs s (runs s) = s.
Proof. by destruct s. Qed.

(** The UPDATE of a guarded operation on the one run it names. *)
Lemma update_run id (p : run_row -> bool) (f : run_row -> run_row) s :
  NoDup (map c_id (runs s)) ->
  update_runs f (fun r => Run_id_is id r && p r) s =
    match find_run id s with
    | Some r => if p r then (Ok (mk_QueryResult [] 1), update_one id f s)
                else (Ok (mk_QueryResult [] 0), s)
    | None => (Ok (mk_QueryResult [] 0), s)
    end.
Proof.
  intros Hnd. unfold update_runs. rewrite filter_id_unique, map_id_unique by done.
  destruct (find_run id s) as [r|]; simpl; [|by rewrite set_runs_same].
  destruct (p r); simpl; [done|by rewrite set_runs_same].
Qed.

Lemma find_run_update_one id f s :
  rewrites f -> find_run id (update_one id f s) = f <$> find_run id s.
Proof.
  intros Hf. unfold update_one. rewrite find_run_map by auto with har.
  destruct (find_run id s) as [r|] eqn:E; simpl; [|done].
  apply find_run_Some in E as [_ E%Run_id_is_spec]. by rewrite E.
Qed.

(** A SELECT by identifier. *)
Lemma select_by_id id s :
  NoDup (map c_id (runs s)) ->
  select_where runs (Run_id_is id) s = match find_run id s with Some r => [r] | None => [] end.
Proof.
  intros Hnd. unfold select_where.
  assert (E : List.filter (Run_id_is id) (runs s)
              = match find_run id s with Some r => [r] | None => [] end).
  { rewrite <-(filter_id_unique id (fun _ => true) s Hnd). apply filter_ext.
    intros r. by rewrite andb_true_r. }
  rewrite E. destruct (find_run id s) as [r|].
  - apply Permutation_singleton_r, scan_perm.
  - apply Permutation_nil_r, scan_perm.
Qed.

Definition not_found (id : str) : result StoreError WorkflowRun :=
  Err (Db (lit "Workflow run not found (id: " ++ id ++ lit ")")).

Lemma resumed_rewrites t : rewrites (resumed_row t).
Proof. done. Qed.

Lemma resumed_readable t r : valid_time t -> row_readable d r -> row_readable d (resumed_row t r).
Proof.
  intros Ht [_ _ _ Hm].
  assert (time_ok d (sql_now d t)).
  { unfold sql_now. split; [|apply sql_datetime_idemp]. unfold valid_time in *.
    pose proof (sql_datetime_bounds d t). destruct d; unfold sql_datetime, second in *; [lia|].
    pose proof (Z.mod_le t 1000000). lia. }
  by split.
Qed.

(** What a resumption returns and leaves, by what its two requests are answered. *)
Definition resume_outcome (id : str) (first second : answer) (s : db)
    : result StoreError WorkflowRun * db :=
  match first with
  | Fails e => (Err (Db (lit "Failed to resume workflow run: " ++ DbError_to_string e)), s)
  | At t =>
      match find_run id s with
      | Some r =>
          if resumable t r then
            (match second with
             | At _ => Ok (run_of_row (resumed_row t r) Run_Running)
             | Fails e =>
                 Err (Db (lit "Failed to read workflow run after update: " ++ DbError_to_string e))
             end, update_one id (resumed_row t) s)
          else
            (match second with
             | At _ => Err (Db (not_resumable_message id (c_status r)))
             | Fails e => Err (Db (lit "Failed to resume workflow run: " ++ DbError_to_string e))
             end, s)
      | None =>
          (match second with
           | At _ => not_found id
           | Fails e => Err (Db (lit "Failed to resume workflow run: " ++ DbError_to_string e))
           end, s)
      end
  end.

Lemma probe_run id (w : nat -> answer) n s :
  NoDup (map c_id (runs s)) ->
  run w (resume_cas_miss_probe id) n s =
    (match w n with
     | Fails e => Err (Db (lit "Failed to resume workflow run: " ++ DbError_to_string e))
     | At _ =>
         match find_run id s with
         | Some r => Err (Db (not_resumable_message id (c_status r)))
         | None => not_found id
         end
     end, S n, s).
Proof.
  intros Hnd. unfold resume_cas_miss_probe. simpl. destruct (w n) as [t|e]; [|done].
  unfold ask, select_status. rewrite select_by_id by done. by destruct (find_run id s).
Qed.

Lemma read_run id (w : nat -> answer) n s r st :
  NoDup (map c_id (runs s)) -> find_run id s = Some r ->
  c_status r = status_to_str st -> row_readable d r ->
  run w (resume_read d id) n s =
    (match w n with
     | Fails e => Err (Db (lit "Failed to read workflow run after update: " ++ DbError_to_string e))
     | At _ => Ok (run_of_row r st)
     end, S n, s).
Proof.
  intros Hnd E Hst Hr. unfold resume_read. simpl. destruct (w n) as [t|e]; [|done].
  unfold ask, select_runs. rewrite select_by_id, E by done. cbn [map select_result fst rows].
  by rewrite (row_read d r st).
Qed.

Lemma update_one_NoDup id f s :
  rewrites f -> NoDup (map c_id (runs s)) -> NoDup (map c_id (runs (update_one id f s))).
Proof. intros Hf Hnd. simpl. by rewrite map_c_id_rewrites by auto with har. Qed.

Lemma resume_run id (w : nat -> answer) n s :
  NoDup (map c_id (runs s)) ->
  (forall t, w n = At t -> valid_time t) ->
  (forall r, find_run id s = Some r -> row_readable d r) ->
  let r := run w (resume_workflow_run d id) n s in
  (fst (fst r), snd r) = resume_outcome id (w n) (w (S n)) s.
Proof.
  intros Hnd Ht Hr. unfold resume_workflow_run. rewrite run_query. unfold resume_outcome.
  destruct (w n) as [t|e] eqn:E0; [|done]. unfold ask, resume_update.
  rewrite (update_run id (resumable t) (resumed_row t)) by done.
  destruct (find_run id s) as [r|] eqn:E; [destruct (resumable t r) eqn:Er|];
    cbn [fst snd row_count N.eqb].
  - rewrite (read_run id w (S n) _ (resumed_row t r) Run_Running).
    + by destruct (w (S n)).
    + by apply update_one_NoDup.
    + by rewrite find_run_update_one, E.
    + done.
    + apply resumed_readable; [by apply Ht|by apply Hr].
  - rewrite probe_run, E by done. by destruct (w (S n)).
  - rewrite probe_run, E by done. by destruct (w (S n)).
Qed.

(** What resuming a run returns, and leaves in the database, on every branch.  A
    run that failed, is paused, or runs without a sign of life for a day is set
    running with new times and returned; another is reported with its status, a
    missing one as missing, both without a change; a query that fails is reported
    (and when it is the second, the run was resumed all the same). *)
Theorem resume_workflow_run_spec id (w : nat -> answer) s :
  runs_ok s -> (forall t, w 0 = At t -> valid_time t) ->
  (forall r, find_run id s = Some r -> row_readable d r) ->
  (run_val w (resume_workflow_run d id) s, run_db w (resume_workflow_run d id) s)
    = resume_outcome id (w 0) (w 1) s.
Proof. intros [Hnd _] Ht Hr. unfold run_val, run_db. by apply resume_run. Qed.

(** No run that has started and not ended is lost when its process dies.  From
    some time on (a day and a second after its last sign of life, if it was running),
    a resumption that the database answers succeeds. *)
Theorem interrupted_run_resumes id r s :
  runs_ok s -> find_run id s = Some r -> row_readable d r ->
  c_status r ∈ [lit "running"; lit "failed"; lit "paused"] ->
  forall (w : nat -> answer) t t',
    (default 0 (c_last_activity_at r) + day + second < t)%Z -> valid_time t ->
    w 0 = At t -> w 1 = At t' ->
    run_val w (resume_workflow_run d id) s = Ok (run_of_row (resumed_row t r) Run_Running).
Proof.
  intros [Hnd Hall] E Hr Hst w t t' Hlt Hv E0 E1. unfold run_val.
  assert (Hrun := resume_run id w 0 s Hnd). rewrite E0, E1 in Hrun.
  assert (Hv' : forall t0, At t = At t0 -> valid_time t0) by (by intros t0 [= <-]).
  assert (Hr' : forall r', find_run id s = Some r' -> row_readable d r') by (intros r'; congruence).
  specialize (Hrun Hv' Hr'). cbv zeta in Hrun. unfold resume_outcome in Hrun. rewrite E in Hrun.
  assert (Hres : resumable t r = true); [|rewrite Hres in Hrun; congruence].
  unfold resumable, resumable_status_clause. apply orb_true_iff.
  apply elem_of_cons in Hst as [Hst|Hst]; [right|left; by apply status_in_spec].
  apply andb_true_iff. split; [by apply status_is_spec|]. apply orb_true_iff.
  destruct (c_last_activity_at r) as [la|]; [right|left; by apply bool_decide_eq_true].
  simpl in *. apply Z.ltb_lt. unfold sql_now_minus_days, sql_now, ORPHAN_RESUME_STALE_DAYS.
  pose proof (sql_datetime_bounds d t). unfold day in *. lia.
Qed.

End Resume.

(** ** One resumption wins *)

Section Exclusive.
Context `{SerdeJson} `{SqlEngine} `{StoreText}.
Variable d : Dialect.
Variable id : str.
Variable w : nat -> answer.

(** All the requests fall within a day. *)
Hypothesis within_a_day : forall i j t t',
  w i = At t -> w j = At t' -> (sql_now d t' - sql_now d t <= day)%Z.

(** The run was set running by one of the requests. *)
Definition locked (s : db) : Prop :=
  exists r m t, find_run id s = Some r /\ c_status r = lit "running" /\
    w m = At t /\ c_last_activity_at r = Some (sql_now d t).

Lemma locked_not_resumable s t n :
  locked s -> w n = At t -> exists r, find_run id s = Some r /\ resumable d t r = false.
Proof.
  intros (r & m & t0 & E & Hst & Hm & Hla) Hn. exists r. split; [done|].
  unfold resumable, resumable_status_clause, status_in, status_is, sql_lt. rewrite Hst, Hla.
  simpl. apply Z.ltb_ge. unfold sql_now_minus_days, ORPHAN_RESUME_STALE_DAYS.
  specialize (within_a_day m n t0 t Hm Hn). lia.
Qed.

(** Where a resumption stands: it holds the run, or it does not. *)
Inductive winner : client (result StoreError WorkflowRun) -> Prop :=
| winner_reads : winner (Idle (resume_read d id))
| winner_done r : winner (Idle (Done r)).
Inductive loser : client (result StoreError WorkflowRun) -> Prop :=
| loser_fresh : loser (Idle (resume_workflow_run d id))
| loser_probes : loser (Idle (resume_cas_miss_probe id))
| loser_done e : loser (Idle (Done (Err e))).
#[local] Hint Constructors winner loser : core.

(** The query of a client is answered, or waits. *)
#[local] Ltac answer_turn :=
  match goal with
  | |- context [turn ?d ?w ?others (Idle (Query ?q ?k)) ?n ?s] =>
      destruct (turn_query d w others q k n s) as [[-> ->]|[-> ->]]
  end.

Lemma winner_turn others c n s :
  winner c -> winner (fst (fst (turn d w others c n s))) /\ snd (turn d w others c n s) = s.
Proof.
  intros [|r]; [|split; [constructor|done]]. unfold resume_read.
  answer_turn; [|by split; [constructor|]].
  split; [|by destruct (w n)].
  destruct (fst (ask _ _ _)) as [res|e]; [|constructor].
  destruct (rows res); [constructor|]. destruct (normalize_row_to_run _); constructor.
Qed.

Lemma probe_turn others n s :
  let r := turn d w others (Idle (resume_cas_miss_probe id)) n s in
  loser (fst (fst r)) /\ snd r = s.
Proof.
  unfold resume_cas_miss_probe. cbv zeta.
  answer_turn; [|by split; [constructor|]].
  split; [|by destruct (w n)].
  destruct (fst (ask _ _ _)) as [res|e]; [|constructor]. destruct (first_status res); constructor.
Qed.

(** A fresh resumption takes the run, which nobody held, or it never will, or waits. *)
Lemma fresh_turn others n s :
  NoDup (map c_id (runs s)) ->
  let r := turn d w others (Idle (resume_workflow_run d id)) n s in
  (winner (fst (fst r)) /\ ~ locked s /\ locked (snd r) /\ map c_id (runs (snd r)) = map c_id (runs s))
  \/ (loser (fst (fst r)) /\ snd r = s).
Proof.
  intros Hnd. unfold resume_workflow_run. cbv zeta.
  answer_turn;
    [|right; by split; [constructor|]].
  destruct (w n) as [t|e] eqn:En; [|right; split; [constructor|done]].
  unfold ask, resume_update. rewrite (update_run id (resumable d t) (resumed_row d t)) by done.
  destruct (find_run id s) as [r|] eqn:E; [|right; split; [constructor|done]].
  destruct (resumable d t r) eqn:Er; cbn [fst snd row_count N.eqb];
    [|right; split; [constructor|done]].
  left. split_and!; [constructor| | |].
  - intros Hl. destruct (locked_not_resumable s t n Hl En) as (r' & E' & Hf). congruence.
  - exists (resumed_row d t r), n, t. by rewrite find_run_update_one, E.
  - simpl. by rewrite map_c_id_rewrites by (apply (rewrites_if _ (resumed_row d t)); done).
Qed.

Definition stands (holder : option nat) (i : nat) (c : client (result StoreError WorkflowRun)) : Prop :=
  if decide (holder = Some i) then winner c else loser c.

Definition at_most_one_holds (pool : list (client (result StoreError WorkflowRun))) (s : db) : Prop :=
  NoDup (map c_id (runs s)) /\
  exists holder : option nat,
    (forall i c, pool !! i = Some c -> stands holder i c) /\ (holder <> None -> locked s).

Lemma stands_insert holder (pool : list (client (result StoreError WorkflowRun))) i c' :
  (forall j c, i <> j -> pool !! j = Some c -> stands holder j c) -> stands holder i c' ->
  forall j c, <[i := c']> pool !! j = Some c -> stands holder j c.
Proof.
  intros Hp Hi j c Hj. apply list_lookup_insert_Some in Hj as [(<- & -> & _)|[Hij Hj] ];
    [done|by apply Hp].
Qed.

Lemma turn_keeps_one pool s i c others n :
  at_most_one_holds pool s -> pool !! i = Some c ->
  let r := turn d w others c n s in at_most_one_holds (<[i := fst (fst r)]> pool) (snd r).
Proof.
  intros (Hnd & holder & Hp & Hl) Hi. pose proof (Hp i c Hi) as Hst. cbv zeta.
  unfold stands in Hst. destruct (decide (holder = Some i)) as [Eh|Eh].
  - apply (winner_turn others c n s) in Hst as [Hw ->]. split; [done|]. exists holder. split; [|done].
    apply stands_insert; [by auto|]. unfold stands. by rewrite decide_True.
  - assert (Hsame : forall c', loser c' -> at_most_one_holds (<[i := c']> pool) s).
    { intros c' Hl'. split; [done|]. exists holder. split; [|done].
      apply stands_insert; [by auto|]. unfold stands. by rewrite decide_False. }
    destruct Hst as [| |e].
    + destruct (fresh_turn others n s Hnd) as [(Hw & Hn & Hl' & Hids)|[Hl' ->] ]; [|by apply Hsame].
      assert (holder = None) as -> by (destruct holder; [by destruct Hn; apply Hl|done]).
      split; [by rewrite Hids|]. exists (Some i). split; [|done].
      apply stands_insert; [|by unfold stands; rewrite decide_True].
      intros j q Hij Hj. specialize (Hp j q Hj). unfold stands in *.
      rewrite decide_False in Hp by done. by rewrite decide_False by congruence.
    + destruct (probe_turn others n s) as [Hl' ->]. by apply Hsame.
    + by apply Hsame; constructor.
Qed.

Lemma clients_keep_one schedule pool n s :
  at_most_one_holds pool s ->
  at_most_one_holds (fst (fst (interleave_clients d w schedule pool n s)))
    (snd (interleave_clients d w schedule pool n s)).
Proof.
  revert pool n s. induction schedule as [|i rest IH]; intros pool n s Hp; cbn [interleave_clients]; [done|].
  destruct (pool !! i) as [c|] eqn:E; [|by apply IH]. apply IH. by apply turn_keeps_one.
Qed.

(** C8: of any number of resumptions of one run that run concurrently within a day,
    one at most succeeds, however their queries interleave and whichever of them
    fail: the compare-and-swap of the UPDATE gives the run to a single caller. *)
Theorem resume_exclusive (schedule : list nat) (callers : nat) s i j run1 run2 :
  runs_ok s ->
  let pool := fst (fst (interleave d w schedule (replicate callers (resume_workflow_run d id)) 0 s)) in
  pool !! i = Some (Idle (Done (Ok run1))) -> pool !! j = Some (Idle (Done (Ok run2))) -> i = j.
Proof.
  intros [Hnd _] pool Hi Hj. unfold interleave in pool.
  destruct (clients_keep_one schedule (map Idle (replicate callers (resume_workflow_run d id))) 0 s)
    as (_ & holder & Hp & _).
  { split; [done|]. exists None. split; [|done].
    change (map ?f ?l) with (f <$> l).
    intros k c (p & -> & [-> _]%lookup_replicate)%list_lookup_fmap_Some. constructor. }
  assert (Hold : forall k r, pool !! k = Some (Idle (Done (Ok r))) -> holder = Some k).
  { intros k r Hk. specialize (Hp k _ Hk). unfold stands in Hp.
    destruct (decide _); [done|]. by inversion Hp. }
  apply Hold in Hi, Hj. congruence.
Qed.

End Exclusive.

(** ** The theorems on a table *)

Definition failed_run : run_row := sample_run (lit "c") (lit "failed") (2 * second).
Definition one_failed : db := sample_db [failed_run].

Lemma failed_readable : row_readable Sqlite failed_run.
Proof. by repeat split. Defined.

Lemma one_failed_ok : runs_ok one_failed.
Proof.
  split; [apply NoDup_singleton|]. apply Forall_singleton. split; [by exists Run_Failed|].
  intros [E|E]; discriminate E.
Defined.

Lemma normalize_row_witness :
  normalize_row_to_run (row_map (run_to_value Sqlite failed_run))
    = Some (run_of_row failed_run Run_Failed).
Proof. apply normalize_row; [reflexivity|apply failed_readable]. Defined.

Lemma resume_workflow_run_spec_witness :
  (run_val steady_world (resume_workflow_run Sqlite (lit "c")) one_failed,
   run_db steady_world (resume_workflow_run Sqlite (lit "c")) one_failed)
    = resume_outcome Sqlite (lit "c") (steady_world 0) (steady_world 1) one_failed.
Proof.
  apply resume_workflow_run_spec; [apply one_failed_ok|by intros t [= <-]|].
  intros r E. replace r with failed_run; [apply failed_readable|].
  assert (E' : find_run (lit "c") one_failed = Some failed_run) by reflexivity. congruence.
Defined.

Lemma interrupted_run_resumes_witness :
  run_val steady_world (resume_workflow_run Sqlite (lit "c")) one_failed
    = Ok (run_of_row (resumed_row Sqlite (2000000 * second) failed_run) Run_Running).
Proof.
  apply (interrupted_run_resumes Sqlite (lit "c") failed_run one_failed) with (t' := (2000000 * second)%Z);
    [apply one_failed_ok|reflexivity|apply failed_readable| | | | |]; try done.
  right. left.
Defined.

Lemma resume_exclusive_witness : exists run,
  fst (fst (interleave Sqlite steady_world [0; 1; 1; 0] (replicate 2 (resume_workflow_run Sqlite (lit "c"))) 0
              one_failed)) !! 0 = Some (Idle (Done (Ok run))) /\ 0 = 0.
Proof.
  eexists. split; [by vm_compute|].
  eapply (resume_exclusive Sqlite (lit "c") steady_world) with (schedule := [0; 1; 1; 0]) (callers := 2)
    (s := one_failed); [by intros i j t t' [= <-] [= <-]|apply one_failed_ok|by vm_compute..].
Defined.
