(* ===== verification/RunStoreSpecs.v ===== *)
(** * What the operations of the store do

    The functional behaviour of the operations of [RunStore] on every branch:
    creation, the guarded ends of a run, cancellation, deletion, the lock of a path,
    the outputs of a former run, lookup by a prefix. *)

From S2P Require Import Prelude Float64 Json StdModel DagNode Workflow Database RunStore.
From S2P Require Import RunLifecycle RunResume.

Section Specs.
Context `{SerdeJson} `{SqlEngine} `{StoreText}.
Variable d : Dialect.

(** ** Ending, pausing and cancelling a run *)

(** The three operations that need a running run. *)
Inductive ending : Type :=
| End_complete (md : option object)
| End_fail (message : str)
| End_pause (ctx : ApprovalContext).

Definition ending_call (id : str) (e : ending) : prog (result StoreError unit) :=
  match e with
  | End_complete md => complete_workflow_run d id md
  | End_fail message => fail_workflow_run d id message
  | End_pause ctx => pause_workflow_run d id ctx
  end.

(** The row they leave. *)
Definition ended_row (e : ending) (t : Z) (r : run_row) : run_row :=
  match e with
  | End_complete md =>
      let r' := set_completed_at (Some (sql_now d t)) (set_status (lit "completed") r) in
      match md with Some m => merge_metadata d m r' | None => r' end
  | End_fail message =>
      merge_metadata d [(lit "error", String message)]
        (set_completed_at (Some (sql_now d t)) (set_status (lit "failed") r))
  | End_pause ctx =>
      merge_metadata d [(lit "approval", approval_to_value ctx)] (set_status (lit "paused") r)
  end.

Definition is_running (r : run_row) : bool := status_is (lit "running") r.

(** The run with an identifier, if it satisfies a condition. *)
Definition run_where (id : str) (p : run_row -> bool) (s : db) : option run_row :=
  r ← find_run id s; if p r then Some r else None.

Lemma guarded_run {A : Type} id (p : run_row -> bool) (f : Z -> run_row -> run_row)
    (k : result DbError QueryResult -> A) (w : nat -> answer) n s :
  NoDup (map c_id (runs s)) ->
  run w (Query (fun t => update_runs (f t) (fun r => Run_id_is id r && p r)) (fun r => Done (k r))) n s =
    match w n with
    | Fails e => (k (Err e), S n, s)
    | At t =>
        match run_where id p s with
        | Some _ => (k (Ok (mk_QueryResult [] 1)), S n, update_one id (f t) s)
        | None => (k (Ok (mk_QueryResult [] 0)), S n, s)
        end
    end.
Proof.
  intros Hnd. rewrite run_query. unfold run_where. destruct (w n) as [t|e]; [|done]. unfold ask.
  rewrite update_run by done. destruct (find_run id s) as [r|]; simpl; [|done]. by destruct (p r).
Qed.

(** No error of the database has the text the code looks for. *)
Lemma error_prefix e : starts_with (lit "Workflow run not found") (DbError_to_string e) = false.
Proof. destruct e as [ [|x]| | | | ]; reflexivity. Qed.

(** Completing, failing and pausing a run are compare-and-swaps on its status: the
    call succeeds exactly when the run is there and running, and then changes that run
    alone, as written; otherwise it reports that the run is missing or not running,
    and nothing changes.  A query that fails is reported, without a change. *)
Theorem ending_spec id e (w : nat -> answer) s :
  runs_ok s ->
  let what := match e with
              | End_complete _ => lit "Failed to complete workflow run: "
              | End_fail _ => lit "Failed to fail workflow run: "
              | End_pause _ => lit "Failed to pause workflow run: "
              end in
  match w 0, run_where id is_running s with
  | At t, Some r =>
      run_val w (ending_call id e) s = Ok tt /\
      run_db w (ending_call id e) s = update_one id (ended_row e t) s
  | At _, None =>
      run_val w (ending_call id e) s = Err (Db (not_running_message id)) /\
      run_db w (ending_call id e) s = s
  | Fails err, _ =>
      run_val w (ending_call id e) s = Err (Db (what ++ DbError_to_string err)) /\
      run_db w (ending_call id e) s = s
  end.
Proof.
  intros [Hnd _] what. unfold run_val, run_db.
  destruct e as [md|message|ctx]; unfold ending_call.
  - unfold complete_workflow_run, running_run. rewrite (guarded_run id is_running) by done.
    destruct (w 0) as [t|err]; [|done]. by destruct (run_where id is_running s).
  - unfold fail_workflow_run, running_run. rewrite (guarded_run id is_running) by done.
    destruct (w 0) as [t|err]; [|done]. by destruct (run_where id is_running s).
  - unfold pause_workflow_run. rewrite run_query. destruct (w 0) as [t|err].
    + unfold ask, running_run. rewrite update_run by done. unfold run_where.
      unfold is_running.
      destruct (find_run id s) as [r|]; [|done]. cbn [mbind option_bind].
      by destruct (status_is (lit "running") r).
    + cbn [ask fst snd]. by rewrite error_prefix.
Qed.

(** Cancelling is idempotent and never fails on the state of a run: it answers
    [true] exactly when the run is there and neither completed nor cancelled, and then
    sets it cancelled with the time; otherwise it answers [false] and changes nothing. *)
Theorem cancel_spec id (w : nat -> answer) t s :
  runs_ok s -> w 0 = At t ->
  let open_run r := negb (status_in [lit "completed"; lit "cancelled"] r) in
  match run_where id open_run s with
  | Some r =>
      run_val w (cancel_workflow_run d id) s = Ok true /\
      run_db w (cancel_workflow_run d id) s
        = update_one id (fun r =>
            set_completed_at (Some (sql_now d t)) (set_status (lit "cancelled") r)) s /\
      status_in_db id (run_db w (cancel_workflow_run d id) s) = Some Run_Cancelled
  | None =>
      run_val w (cancel_workflow_run d id) s = Ok false /\
      run_db w (cancel_workflow_run d id) s = s
  end.
Proof.
  intros [Hnd _] E open_run. unfold run_val, run_db, cancel_workflow_run. rewrite run_query, E.
  unfold ask. rewrite (update_run id open_run) by done. unfold run_where.
  destruct (find_run id s) as [r|] eqn:Ef; simpl; [|done].
  destruct (open_run r); [|done]. split; [done|]. split; [done|].
  unfold status_in_db. simpl. rewrite find_run_update_one by done. by rewrite Ef.
Qed.

(** ** Creating a run *)

Definition run_times_valid (r : WorkflowRun) : Prop :=
  valid_time (started_at r) /\
  (forall t, completed_at r = Some t -> valid_time t) /\
  (forall t, last_activity_at r = Some t -> valid_time t).

Lemma required_text key o x :
  assoc_get key o = Some (text_column x) -> required_nullable Some key o = Some x.
Proof. unfold required_nullable. intros ->. by destruct x. Qed.

Lemma required_time key o x :
  assoc_get key o = Some (time_value x) -> (forall t, x = Some t -> valid_time t) ->
  required_nullable parse_from_rfc3339 key o = Some x.
Proof.
  unfold required_nullable. intros -> Hx. destruct x as [t|]; [|done]. simpl.
  by rewrite parse_serialized by auto.
Qed.

(** A run is read back from its JSON. *)
Lemma WorkflowRun_roundtrip r :
  run_times_valid r -> WorkflowRun_from_value (WorkflowRun_to_value r) = Ok r.
Proof.
  intros (Hs & Hc & Ha). unfold WorkflowRun_from_value.
  enough (E : as_object (WorkflowRun_to_value r) ≫= read_WorkflowRun = Some r) by (by rewrite E).
  unfold WorkflowRun_to_value. cbn [as_object mbind option_bind].
  set (o := [(_, _); _; _; _; _; _; _; _; _; _; _; _; _]). unfold read_WorkflowRun, get_str.
  rewrite (required_text (lit "parent_conversation_id") o (parent_conversation_id r)) by reflexivity.
  rewrite (required_text (lit "codebase_id") o (codebase_id r)) by reflexivity.
  rewrite (required_text (lit "working_path") o (working_path r)) by reflexivity.
  rewrite (required_text (lit "user_id") o (user_id r)) by reflexivity.
  rewrite (required_time (lit "completed_at") o (completed_at r)) by (reflexivity || done).
  rewrite (required_time (lit "last_activity_at") o (last_activity_at r)) by (reflexivity || done).
  change (assoc_get (lit "id") o) with (Some (String (run_id r))).
  change (assoc_get (lit "workflow_name") o) with (Some (String (workflow_name r))).
  change (assoc_get (lit "conversation_id") o) with (Some (String (conversation_id r))).
  change (assoc_get (lit "status") o) with (Some (String (status_to_str (run_status r)))).
  change (assoc_get (lit "user_message") o) with (Some (String (user_message r))).
  change (assoc_get (lit "metadata") o) with (Some (Object (metadata r))).
  change (assoc_get (lit "started_at") o) with (Some (String (serialize_time (started_at r)))).
  cbn [mbind option_bind as_str as_object].
  rewrite status_of_to_str. cbn [mbind option_bind]. rewrite parse_serialized by done.
  by destruct r.
Qed.

(** The row a creation leaves. *)
Definition created_row (id : str) (data : CreateWorkflowRunData) (json : str) (t : Z) : run_row := {|
  c_id := id;
  c_workflow_name := cd_workflow_name data;
  c_conversation_id := cd_conversation_id data;
  c_parent_conversation_id := cd_parent_conversation_id data;
  c_codebase_id := cd_codebase_id data;
  c_status := lit "pending";
  c_user_message := cd_user_message data;
  c_metadata := object_of (from_str json);
  c_started_at := sql_now d t;
  c_completed_at := None;
  c_last_activity_at := Some (sql_now d t);
  c_working_path := cd_working_path data;
  c_user_id := cd_user_id data;
|}.

Lemma sql_now_ok t : valid_time t -> time_ok d (sql_now d t).
Proof.
  intros Ht. unfold sql_now. split; [|apply sql_datetime_idemp]. unfold valid_time in *.
  pose proof (sql_datetime_bounds d t). destruct d; unfold sql_datetime, second in *; [lia|].
  pose proof (Z.mod_le t 1000000). lia.
Qed.

Lemma create_tx_run id data json (w : nat -> answer) n s t :
  w n = At t -> valid_time t -> metadata_ok d (object_of (from_str json)) ->
  find_run id s = None ->
  run w (create_workflow_run_tx d id data json) n s =
    (Ok (WorkflowRun_to_value (run_of_row (created_row id data json t) Run_Pending)), S n,
     set_runs s (runs s ++ [created_row id data json t])).
Proof.
  intros E Ht Hm Hf. unfold create_workflow_run_tx. rewrite run_query, E. unfold ask, insert_run.
  assert (existsb (Run_id_is id) (runs s) = false) as ->.
  { apply not_true_iff_false. intros (r & Hr & Hid%Run_id_is_spec)%existsb_exists.
    eapply find_run_None in Hf; [|by apply list_elem_of_In]. done. }
  cbv zeta. cbn [fst snd select_result rows]. fold (created_row id data json t).
  rewrite (row_read d _ Run_Pending); [done..|].
  pose proof (sql_now_ok t Ht). by split.
Qed.

Lemma create_tx_fails id data json (w : nat -> answer) n s :
  (exists e, w n = Fails e) \/ find_run id s <> None ->
  exists e, run w (create_workflow_run_tx d id data json) n s = (Err e, S n, s).
Proof.
  unfold create_workflow_run_tx. rewrite run_query. intros [ [e ->]|Hf]; [by eexists|].
  destruct (w n) as [t|e]; [|by eexists]. unfold ask, insert_run.
  assert (existsb (Run_id_is id) (runs s) = true) as ->; [|by eexists].
  destruct (find_run id s) as [r|] eqn:E; [|done]. apply find_run_Some in E as [Hr Hid].
  apply existsb_exists. exists r. by rewrite <-list_elem_of_In, Run_id_is_spec.
Qed.

(** Creating a run is atomic and adds exactly the run asked for: when its metadata
    serialises, its identifier is new and the database answers, the call returns the
    pending run with the given data, and the table gains that row, which [find_run]
    finds; in every other case it reports an error and the database is unchanged. *)
Theorem create_spec id data (w : nat -> answer) s :
  (forall n t, w n = At t -> valid_time t) ->
  (forall json, metadata_json (cd_metadata data) = Ok json ->
     metadata_ok d (object_of (from_str json))) ->
  match metadata_json (cd_metadata data), w 0, w 1, w 2, find_run id s with
  | Ok json, At _, At t, At _, None =>
      run_val w (create_workflow_run d id data) s
        = Ok (run_of_row (created_row id data json t) Run_Pending) /\
      run_db w (create_workflow_run d id data) s
        = set_runs s (runs s ++ [created_row id data json t]) /\
      find_run id (run_db w (create_workflow_run d id data) s) = Some (created_row id data json t)
  | _, _, _, _, _ =>
      is_ok (run_val w (create_workflow_run d id data) s) = false /\
      run_db w (create_workflow_run d id data) s = s
  end.
Proof.
  intros Hw Hmd. unfold create_workflow_run, create_workflow_run_inner, run_val, run_db.
  destruct (metadata_json (cd_metadata data)) as [json|e]; [|done]. specialize (Hmd json eq_refl).
  rewrite !run_transaction. destruct (w 0) as [t0|e0]; [|done]. cbv zeta.
  destruct (w 1) as [t|e1] eqn:E1.
  - destruct (find_run id s) as [r|] eqn:Ef.
    + destruct (create_tx_fails id data json w 1 s) as (e & -> ); [by right; rewrite Ef|].
      destruct (w 2); done.
    + rewrite (create_tx_run id data json w 1 s t) by eauto. cbn [fst snd].
      destruct (w 2) as [t2|e2]; [|done]. rewrite WorkflowRun_roundtrip.
      * cbn [run fst snd]. split; [done|]. split; [done|]. unfold find_run. simpl. rewrite find_app.
        unfold find_run in Ef. rewrite Ef. simpl.
        by rewrite (proj2 (Run_id_is_spec id (created_row id data json t)) eq_refl).
      * pose proof (sql_now_ok t (Hw _ _ E1)) as [Hv _].
        split; [done|]. split; [done|]. by intros t' [= <-].
  - destruct (create_tx_fails id data json w 1 s) as (e & -> ); [by left; rewrite E1; eauto|].
    by destruct (w 2).
Qed.

(** ** Deleting runs *)

Definition without_run (id : str) (s : db) : db :=
  set_events (set_runs s (List.filter (fun r => negb (Run_id_is id r)) (runs s)))
    (List.filter (fun e => negb (str_eqb (e_workflow_run_id e) id)) (events s)).

Lemma first_status_row r n :
  first_status (mk_QueryResult [Object [(lit "status", String (c_status r))]] n) = Some (c_status r).
Proof. reflexivity. Qed.

Lemma delete_tx_terminal id (w : nat -> answer) n s r :
  NoDup (map c_id (runs s)) -> find_run id s = Some r -> terminal_run r = true ->
  (forall n, exists t, w n = At t) ->
  run w (delete_workflow_run_tx id) n s = (Ok Null, S (S (S n)), without_run id s).
Proof.
  intros Hnd Ef Ht Hw. destruct (Hw n) as [t0 E0], (Hw (S n)) as [t1 E1], (Hw (S (S n))) as [t2 E2].
  unfold delete_workflow_run_tx. rewrite run_query, E0. unfold ask, select_status.
  rewrite select_by_id, Ef by done. cbn [map fst snd select_result rows].
  unfold terminal_run, status_in in Ht. rewrite first_status_row. simpl default. rewrite Ht. simpl negb. cbn iota.
  rewrite run_query, E1. unfold ask, delete_events. cbn [fst snd]. rewrite run_query, E2.
  unfold ask, delete_runs. cbn [fst snd runs set_events row_count].
  assert (E : N.of_nat (length (List.filter (Run_id_is id) (runs s))) <> 0%N).
  { rewrite count_zero. intros Hn. apply find_run_Some in Ef as [Hr Hid].
    specialize (Hn r Hr). by rewrite (proj2 (Run_id_is_spec id r) Hid) in Hn. }
  rewrite (proj2 (N.eqb_neq _ _) E). done.
Qed.

Lemma delete_tx_refused id (w : nat -> answer) n s :
  NoDup (map c_id (runs s)) -> run_where id terminal_run s = None ->
  run w (delete_workflow_run_tx id) n s = (Err (QueryFailed RowNotFound), S n, s).
Proof.
  intros Hnd Hf. unfold delete_workflow_run_tx. rewrite run_query. destruct (w n) as [t|e]; [|done].
  unfold ask, select_status. rewrite select_by_id by done. unfold run_where in Hf.
  destruct (find_run id s) as [r|]; [|done]. simpl in Hf.
  destruct (terminal_run r) eqn:Ht; [done|]. cbn [map fst snd select_result rows].
  unfold terminal_run, status_in in Ht. rewrite first_status_row. simpl default. by rewrite Ht.
Qed.

(** Deleting a run is atomic and guarded.  When the database answers, it succeeds
    exactly for a run that is there and ended, and removes that run with its events
    and nothing else; otherwise it says that the run is missing or not ended.  And
    whenever it does not succeed, whatever request failed, nothing has changed. *)
Theorem delete_spec id (w : nat -> answer) s :
  runs_ok s ->
  ((forall n, exists t, w n = At t) ->
     match run_where id terminal_run s with
     | Some _ =>
         run_val w (delete_workflow_run id) s = Ok tt /\
         run_db w (delete_workflow_run id) s = without_run id s
     | None =>
         run_val w (delete_workflow_run id) s
           = Err (Db (lit "Workflow run not found or not terminal: " ++ id))
     end) /\
  (is_ok (run_val w (delete_workflow_run id) s) = false -> run_db w (delete_workflow_run id) s = s).
Proof.
  intros [Hnd _]. unfold run_val, run_db, delete_workflow_run. rewrite run_transaction. cbv zeta.
  split.
  - intros Hw. destruct (Hw 0) as [t0 ->]. destruct (run_where id terminal_run s) as [r|] eqn:E.
    + unfold run_where in E. destruct (find_run id s) as [r'|] eqn:Ef; [|done]. simpl in E.
      destruct (terminal_run r') eqn:Ht; [|done].
      rewrite (delete_tx_terminal id w 1 s r') by done. cbn [fst snd].
      by destruct (Hw 4) as [t4 ->].
    + by rewrite delete_tx_refused.
  - destruct (w 0); [|by destruct e as [ []| | | | ]].
    destruct (fst (fst (run w (delete_workflow_run_tx id) 1 s))) as [v|e];
      [destruct (w _)|]; cbn [run fst snd]; try done; by destruct e as [ []| | | | ].
Qed.

(** *** Old runs *)

Definition old_run (cutoff : Z) (r : run_row) : bool := terminal_run r && (c_started_at r <? cutoff)%Z.

(** What the two statements leave, by the cutoffs they see. *)
Definition without_old (c1 c2 : Z) (s : db) : db :=
  set_events (set_runs s (List.filter (fun r => negb (old_run c2 r)) (runs s)))
    (List.filter (fun e =>
       negb (existsb (fun r => old_run c1 r && str_eqb (c_id r) (e_workflow_run_id e)) (runs s)))
       (events s)).

Definition no_orphans (s : db) : Prop :=
  forall e, e ∈ events s -> exists r, r ∈ runs s /\ c_id r = e_workflow_run_id e.

Lemma without_old_no_orphans c s :
  NoDup (map c_id (runs s)) -> no_orphans s -> no_orphans (without_old c c s).
Proof.
  intros Hnd Hn e [Hk He]%elem_of_list_filter. simpl in *. destruct (Hn e He) as (r & Hr & Hid).
  exists r. split; [|done]. apply elem_of_list_filter. split; [|done].
  apply negb_true_iff in Hk. apply negb_true_iff, not_true_iff_false. intros Ho.
  apply not_true_iff_false in Hk. apply Hk. apply existsb_exists. exists r.
  split; [by apply list_elem_of_In|]. by rewrite Ho, Hid, str_eqb_refl.
Qed.

Lemma delete_old_tx days (w : nat -> answer) n s :
  run w (delete_old_workflow_runs_tx d days) n s =
    match w n with
    | Fails e => (Err e, S n, s)
    | At t1 =>
        match old_cutoff d t1 days with
        | None => (syntax_failure ≫= fun _ => Ok Null, S n, s)
        | Some c1 =>
            let s1 := set_events s (List.filter (fun e =>
                        negb (existsb (fun r => old_run c1 r && str_eqb (c_id r) (e_workflow_run_id e))
                                (runs s))) (events s)) in
            match w (S n) with
            | Fails e => (Err e, S (S n), s1)
            | At t2 =>
                match old_cutoff d t2 days with
                | None => (syntax_failure ≫= fun _ => Ok Null, S (S n), s1)
                | Some c2 =>
                    (Ok (Number (PosInt (N.of_nat (length (List.filter (old_run c2) (runs s)))))),
                     S (S n), without_old c1 c2 s)
                end
            end
        end
    end.
Proof.
  unfold delete_old_workflow_runs_tx. rewrite run_query. destruct (w n) as [t1|e]; [|done].
  unfold ask, delete_old_events. destruct (old_cutoff d t1 days) as [c1|]; [|done].
  cbv zeta. cbn [fst snd delete_events]. rewrite run_query. destruct (w (S n)) as [t2|e]; [|done].
  unfold ask, delete_old_runs. by destruct (old_cutoff d t2 days).
Qed.

Lemma i64_max_as_u32_max : i64_max_as_u32 = u32_max.
Proof. by_compute. Qed.

(** The cleanup of old runs.  Its guard on the argument, a [u32], never fires; it
    is one transaction: either it reports how many runs it removed, which are all the
    ended runs older than the cutoff and no other, or it reports an error and nothing
    has changed.  When its two statements see the same cutoff, every event whose run is
    removed goes with it: no event is left without its run. *)
Theorem delete_old_spec days (w : nat -> answer) s :
  runs_ok s -> (days <= u32_max)%N ->
  let val := run_val w (delete_old_workflow_runs d days) s in
  let s' := run_db w (delete_old_workflow_runs d days) s in
  (is_ok val = false /\ s' = s) \/
  (exists t1 t2 c1 c2, w 1 = At t1 /\ w 2 = At t2 /\
     old_cutoff d t1 days = Some c1 /\ old_cutoff d t2 days = Some c2 /\
     val = Ok (N.of_nat (length (List.filter (old_run c2) (runs s)))) /\
     runs s' = List.filter (fun r => negb (old_run c2 r)) (runs s) /\
     (c1 = c2 -> no_orphans s -> no_orphans s')).
Proof.
  intros [Hnd _] Hd. cbv zeta. unfold run_val, run_db, delete_old_workflow_runs.
  assert ((i64_max_as_u32 <? days)%N = false) as ->
    by (apply N.ltb_ge; by rewrite i64_max_as_u32_max).
  rewrite run_transaction. destruct (w 0); [|by left]. cbv zeta. rewrite delete_old_tx.
  destruct (w 1) as [t1|e1]; [|by left]. destruct (old_cutoff d t1 days) as [c1|] eqn:Ec1; [|by left].
  destruct (w 2) as [t2|e2]; [|by left]. destruct (old_cutoff d t2 days) as [c2|] eqn:Ec2; [|by left].
  cbn [fst snd]. destruct (w 3); [|by left]. right. exists t1, t2, c1, c2.
  repeat split; try done. intros ->. by apply without_old_no_orphans.
Qed.

(** ** The lock on a working path *)

(** The runs that hold the lock: running, paused, or pending and recent. *)
Definition active (t : Z) (r : run_row) : bool :=
  match stale_pending_cutoff d t with
  | None => false
  | Some cutoff =>
      status_in [lit "running"; lit "paused"] r
      || (status_is (lit "pending") r && (cutoff <? c_started_at r)%Z)
  end.

(** The older run of two, and on a tie the smaller identifier. *)
Definition older (a b : run_row) : bool :=
  let ta := sql_datetime d (c_started_at a) in
  let tb := sql_datetime d (c_started_at b) in
  (ta <? tb)%Z || ((ta =? tb)%Z && str_ltb (c_id a) (c_id b)).

Definition self_of (r : run_row) : ActiveRunSelf := mk_ActiveRunSelf (c_id r) (c_started_at r).

Definition all_readable (s : db) : Prop := runs_ok s /\ Forall (row_readable d) (runs s).

Lemma older_total a b : c_id a <> c_id b -> older a b = true \/ older b a = true.
Proof.
  intros Hne. unfold older, str_ltb.
  destruct (Z.lt_trichotomy (sql_datetime d (c_started_at a)) (sql_datetime d (c_started_at b)))
    as [Hlt|[Heq|Hlt] ].
  - left. by rewrite (proj2 (Z.ltb_lt _ _) Hlt).
  - rewrite Heq, !Z.eqb_refl, !Z.ltb_irrefl. simpl.
    assert (str_eqb (c_id a) (c_id b) = false) as -> by (by apply bool_decide_eq_false).
    assert (str_eqb (c_id b) (c_id a) = false) as -> by (by apply bool_decide_eq_false).
    simpl. rewrite !andb_true_r. apply str_leb_total.
  - right. by rewrite (proj2 (Z.ltb_lt _ _) Hlt).
Qed.

Lemma select_runs_by_nil p R `{!forall a b, Decision (R a b)} n s :
  select_runs_by p R (S n) s = [] <-> forall r, r ∈ runs s -> p r = false.
Proof.
  unfold select_runs_by. split.
  - intros E r Hr. apply not_true_iff_false. intros Hp.
    assert (Hin : r ∈ merge_sort R (select_where runs p s)).
    { rewrite merge_sort_Permutation. by apply elem_of_select. }
    destruct (merge_sort R _); [set_solver|done].
  - intros Hn. assert (E : select_where runs p s = []).
    { unfold select_where. rewrite filter_none by done. apply Permutation_nil_r, scan_perm. }
    by rewrite E.
Qed.

Lemma select_runs_by_elem p R `{!forall a b, Decision (R a b)} n s r l :
  select_runs_by p R n s = r :: l -> r ∈ runs s /\ p r = true.
Proof.
  unfold select_runs_by. intros E. apply (elem_of_select runs p s r).
  rewrite <-(merge_sort_Permutation R). rewrite <-(take_drop n (merge_sort R _)), E. set_solver.
Qed.

(** Reading the first of some rows. *)
Lemma one_run_spec what rs s :
  all_readable s -> (forall r, r ∈ rs -> r ∈ runs s) ->
  match rs with
  | [] => one_run what (select_result (map (run_to_value d) rs)) = Ok None
  | r :: _ => exists st, c_status r = status_to_str st /\
      one_run what (select_result (map (run_to_value d) rs)) = Ok (Some (run_of_row r st))
  end.
Proof.
  intros [ [_ Hok] Hall] Hin. destruct rs as [|r l]; [done|].
  assert (Hr : r ∈ runs s) by set_solver. eapply Forall_forall in Hok; [|exact Hr].
  eapply Forall_forall in Hall; [|exact Hr]. destruct Hok as [ [st Hst] _]. exists st.
  split; [done|]. unfold one_run, first_run. cbn [map select_result rows].
  by rewrite (row_read d r st).
Qed.

Definition contends (t : Z) (self_run : option run_row) (r : run_row) : bool :=
  active t r && match self_run with
                | None => true
                | Some me => negb (Run_id_is (c_id me) r) && older r me
                end.

(** What the lock query answers: a run that stands in the way, if there is one. *)
Lemma lock_run path self_run (w : nat -> answer) n s t c :
  all_readable s -> w n = At t -> stale_pending_cutoff d t = Some c ->
  exists o, fst (fst (run w (get_active_workflow_run_by_path d path (self_of <$> self_run)) n s)) = Ok o /\
    match o with
    | Some run => exists r st, r ∈ runs s /\ contends t self_run r = true /\
                               c_status r = status_to_str st /\ run = run_of_row r st
    | None => forall r, r ∈ runs s -> contends t self_run r = false
    end.
Proof.
  intros Hs E Ec. unfold get_active_workflow_run_by_path. rewrite run_query, E.
  unfold ask, select_active. rewrite Ec. cbn [fst snd run].
  set (where_ := fun r => forallb (fun c => c r) (active_clauses d c (self_of <$> self_run))).
  assert (Hw : forall r, where_ r = contends t self_run r).
  { intros r. unfold where_, contends, active, active_clauses. rewrite Ec.
    destruct self_run as [me|]; simpl; [|by rewrite andb_true_r].
    unfold older. by rewrite andb_true_r. }
  pose proof (one_run_spec (lit "Failed to get active workflow run by path: ")
                (select_runs_by where_ started_id_asc 1 s) s Hs) as Hone.
  destruct (select_runs_by where_ started_id_asc 1 s) as [|r l] eqn:Es.
  - exists None. split; [apply Hone; set_solver|]. intros r Hr. rewrite <-Hw.
    by apply (proj1 (select_runs_by_nil where_ started_id_asc 0 s) Es).
  - pose proof (select_runs_by_elem _ _ _ _ _ _ Es) as [Hr Hc].
    destruct Hone as (st & Hst & ->).
    { intros r' Hr'. apply list_elem_of_In in Hr'.
      assert (Hsub : forall x, x ∈ select_runs_by where_ started_id_asc 1 s -> x ∈ runs s).
      { intros x Hx. unfold select_runs_by in Hx. apply (elem_of_select runs where_ s x).
        rewrite <-(merge_sort_Permutation started_id_asc).
        rewrite <-(take_drop 1 (merge_sort started_id_asc _)). set_solver. }
      apply Hsub. rewrite Es. by apply list_elem_of_In. }
    eexists. split; [done|]. exists r, st. by rewrite <-Hw.
Qed.

(** The lock is mutually exclusive: of two runs that are both active, at most one
    is told that nothing stands in its way, whichever asks first; near-simultaneous
    dispatches agree on the older one, by the time of their start and then by their
    identifiers. *)
Theorem lock_exclusive path a b (w : nat -> answer) i j ta tb ca cb s :
  all_readable s -> a ∈ runs s -> b ∈ runs s -> c_id a <> c_id b ->
  w i = At ta -> w j = At tb ->
  stale_pending_cutoff d ta = Some ca -> stale_pending_cutoff d tb = Some cb ->
  active ta b = true -> active tb a = true ->
  let ask_lock n me := fst (fst (run w (get_active_workflow_run_by_path d path (Some (self_of me))) n s)) in
  ask_lock i a = Ok None -> ask_lock j b = Ok None -> False.
Proof.
  intros Hs Ha Hb Hne Ei Ej Eca Ecb Hab Hba ask_lock Hi Hj. unfold ask_lock in *.
  destruct (lock_run path (Some a) w i s ta ca Hs Ei Eca) as (oa & Eoa & Hoa).
  destruct (lock_run path (Some b) w j s tb cb Hs Ej Ecb) as (ob & Eob & Hob).
  simpl in *. rewrite Eoa in Hi. rewrite Eob in Hj. injection Hi as ->. injection Hj as ->.
  specialize (Hoa b Hb). specialize (Hob a Ha). unfold contends in *. rewrite Hab in Hoa. rewrite Hba in Hob.
  assert (Run_id_is (c_id a) b = false) as Eab by (by apply bool_decide_eq_false).
  assert (Run_id_is (c_id b) a = false) as Eba by (by apply bool_decide_eq_false).
  rewrite Eab in Hoa. rewrite Eba in Hob. simpl in *. destruct (older_total a b Hne); congruence.
Qed.

(** The lock query takes no account of the path: any active run, of whatever path,
    holds the lock of every path.  (Its documentation speaks of the run that holds the
    lock on the given working path, and the first parameter of the query is that
    path; no clause uses it.) *)
Theorem lock_ignores_path path r (w : nat -> answer) t c s :
  all_readable s -> w 0 = At t -> stale_pending_cutoff d t = Some c ->
  r ∈ runs s -> active t r = true -> c_working_path r <> Some path ->
  exists run, run_val w (get_active_workflow_run_by_path d path None) s = Ok (Some run).
Proof.
  intros Hs E Ec Hr Ha _. destruct (lock_run path None w 0 s t c Hs E Ec) as (o & Eo & Ho).
  unfold run_val. simpl in *. rewrite Eo. destruct o as [run'|]; [by eexists|].
  specialize (Ho r Hr). unfold contends in Ho. by rewrite Ha in Ho.
Qed.

End Specs.

(** ** The theorems on tables *)

Lemma ending_spec_witness :
  run_val steady_world (ending_call Sqlite (lit "b") (End_complete None)) three_runs = Ok tt /\
  run_db steady_world (ending_call Sqlite (lit "b") (End_complete None)) three_runs
    = update_one (lit "b") (ended_row Sqlite (End_complete None) (2000000 * second)) three_runs.
Proof. exact (ending_spec Sqlite (lit "b") (End_complete None) steady_world three_runs three_runs_ok). Defined.

Lemma cancel_spec_witness :
  run_val steady_world (cancel_workflow_run Sqlite (lit "a")) three_runs = Ok false /\
  run_db steady_world (cancel_workflow_run Sqlite (lit "a")) three_runs = three_runs.
Proof.
  exact (cancel_spec Sqlite (lit "a") steady_world (2000000 * second) three_runs three_runs_ok eq_refl).
Defined.

Definition sample_data : CreateWorkflowRunData :=
  mk_CreateWorkflowRunData (lit "wf") (lit "c") None (lit "go") None (Some (lit "/w")) None None.

Lemma create_spec_witness :
  run_val steady_world (create_workflow_run Sqlite (lit "n") sample_data) three_runs
    = Ok (run_of_row (created_row Sqlite (lit "n") sample_data (lit "{}") (2000000 * second)) Run_Pending) /\
  run_db steady_world (create_workflow_run Sqlite (lit "n") sample_data) three_runs
    = set_runs three_runs (runs three_runs
        ++ [created_row Sqlite (lit "n") sample_data (lit "{}") (2000000 * second)]) /\
  find_run (lit "n") (run_db steady_world (create_workflow_run Sqlite (lit "n") sample_data) three_runs)
    = Some (created_row Sqlite (lit "n") sample_data (lit "{}") (2000000 * second)).
Proof.
  apply (create_spec Sqlite (lit "n") sample_data steady_world three_runs).
  - by intros n t [= <-].
  - by intros json [= <-].
Defined.

Lemma delete_spec_witness :
  ((forall n, exists t, steady_world n = At t) ->
     run_val steady_world (delete_workflow_run (lit "c")) three_runs = Ok tt /\
     run_db steady_world (delete_workflow_run (lit "c")) three_runs = without_run (lit "c") three_runs) /\
  (is_ok (run_val steady_world (delete_workflow_run (lit "c")) three_runs) = false ->
   run_db steady_world (delete_workflow_run (lit "c")) three_runs = three_runs).
Proof. exact (delete_spec (lit "c") steady_world three_runs three_runs_ok). Defined.

Lemma delete_old_spec_witness :
  (is_ok (run_val steady_world (delete_old_workflow_runs Sqlite 7) three_runs) = false /\
   run_db steady_world (delete_old_workflow_runs Sqlite 7) three_runs = three_runs) \/
  (exists t1 t2 c1 c2, steady_world 1 = At t1 /\ steady_world 2 = At t2 /\
     old_cutoff Sqlite t1 7 = Some c1 /\ old_cutoff Sqlite t2 7 = Some c2 /\
     run_val steady_world (delete_old_workflow_runs Sqlite 7) three_runs
       = Ok (N.of_nat (length (List.filter (old_run c2) (runs three_runs)))) /\
     runs (run_db steady_world (delete_old_workflow_runs Sqlite 7) three_runs)
       = List.filter (fun r => negb (old_run c2 r)) (runs three_runs) /\
     (c1 = c2 -> no_orphans three_runs ->
      no_orphans (run_db steady_world (delete_old_workflow_runs Sqlite 7) three_runs))).
Proof. apply (delete_old_spec Sqlite 7 steady_world three_runs three_runs_ok). unfold u32_max. lia. Defined.

Definition run_b : run_row := sample_run (lit "b") (lit "running") second.
Definition run_e : run_row := sample_run (lit "e") (lit "paused") second.
Definition two_active : db := sample_db [run_b; run_e].

Lemma two_active_readable : all_readable Sqlite two_active.
Proof.
  split; [split|].
  - apply (bool_decide_unpack _). by_compute.
  - apply Forall_cons_2; [|apply Forall_singleton]; (split; [|by intros [E|E]; discriminate E]);
      [by exists Run_Running|by exists Run_Paused].
  - apply Forall_cons_2; [|apply Forall_singleton]; by repeat split.
Defined.

Lemma lock_exclusive_witness :
  fst (fst (run steady_world (get_active_workflow_run_by_path Sqlite (lit "/w") (Some (self_of run_b)))
              0 two_active)) = Ok None /\
  ~ fst (fst (run steady_world (get_active_workflow_run_by_path Sqlite (lit "/w") (Some (self_of run_e)))
                1 two_active)) = Ok None.
Proof.
  split; [by vm_compute|]. intros He.
  refine (lock_exclusive Sqlite (lit "/w") run_b run_e steady_world 0 1 (2000000 * second) (2000000 * second)
            _ _ two_active two_active_readable _ _ _ eq_refl eq_refl eq_refl eq_refl _ _ _ He);
    [left|right; left|by vm_compute..].
Defined.

Lemma lock_ignores_path_witness : exists run,
  run_val steady_world (get_active_workflow_run_by_path Sqlite (lit "/other") None) two_active
    = Ok (Some run).
Proof.
  refine (lock_ignores_path Sqlite (lit "/other") run_b steady_world (2000000 * second) _ two_active
            two_active_readable eq_refl eq_refl _ _ _); [left|by vm_compute|by vm_compute].
Defined.
