(* ===== verification/EventStore.v ===== *)
(** * The store of workflow events

    [workflow_events.rs] of the crate [har-db]: [SqlWorkflowEventStore], which records
    the events of a run, lists them, and restores the outputs of the nodes a former
    run completed; and what the resumption of a DAG gets from it and from
    [RunStore.get_completed_dag_node_outputs].  The type of the database the process
    is configured with is the dialect of the store. *)

From S2P Require Import Prelude Float64 Json StdModel DagNode Workflow Database RunStore.
From S2P Require Import RunLifecycle RunResume.

Record WorkflowEventRow : Type := mk_WorkflowEventRow {
  row_id : str; row_workflow_run_id : str; row_event_type : str;
  row_step_index : option N; row_step_name : option str; row_data : value;
}.

Section EventStore.
Context `{SerdeJson} `{SqlEngine} `{StoreText}.
Variable d : Dialect.

Definition with_data (v : value) (row : WorkflowEventRow) : WorkflowEventRow :=
  mk_WorkflowEventRow (row_id row) (row_workflow_run_id row) (row_event_type row)
    (row_step_index row) (row_step_name row) v.

Definition parse_event_row (row : WorkflowEventRow) : WorkflowEventRow :=
  match row_data row with
  | String s =>
      match from_str s with
      | Some parsed => with_data parsed row
      | None => with_data (Object []) row
      end
  | _ => row
  end.

(** ** Recording *)

Definition insert_event (id run_id event_type : str) (step_index : option N)
    (step_name : option str) (data : object) : prog unit :=
  Query (fun t s =>
           let e := mk_event_row id run_id event_type step_index step_name (Some data) (sql_now d t) in
           if existsb (fun e' => str_eqb (e_id e') id) (events s)
           then (Err (QueryFailed (OtherSqlx unique_violation)), s)
           else (Ok (mk_QueryResult [] 1), set_events s (events s ++ [e])))
    (fun _ => Done tt).

(** [id] is the identifier [generate_uuid] gives. *)
Definition create_workflow_event (id : str) (data : CreateWorkflowEventData) : prog unit :=
  insert_event id (ce_workflow_run_id data) (event_type_as_str (ce_event_type data))
    (ce_step_index data) (ce_step_name data) (default [] (ce_data data)).
Definition create_workflow_event_raw (id workflow_run_id event_type : str) (step_index : option N)
    (step_name : option str) (data : option object) : prog unit :=
  insert_event id workflow_run_id event_type step_index step_name (default [] data).

(** ** Listing *)

(** One row of a list; a missing text is empty, a missing document an empty object. *)
Definition read_event_row (row_val : value) : option WorkflowEventRow :=
  raw ← as_object row_val;
  Some {|
    row_id := default [] (get_str (lit "id") raw);
    row_workflow_run_id := default [] (get_str (lit "workflow_run_id") raw);
    row_event_type := default [] (get_str (lit "event_type") raw);
    row_step_index :=
      match assoc_get (lit "step_index") raw with
      | Some (Number (PosInt n)) => Some (n mod 2 ^ 32)%N
      | _ => None
      end;
    row_step_name := get_str (lit "step_name") raw;
    row_data := default (Object []) (assoc_get (lit "data") raw);
  |}.
Definition read_event_rows (l : list value) : list WorkflowEventRow :=
  map parse_event_row (omap read_event_row l).

Definition list_result (r : result DbError QueryResult) : result DbError (list WorkflowEventRow) :=
  match r with Ok res => Ok (read_event_rows (rows res)) | Err e => Err e end.

Definition list_workflow_events (workflow_run_id : str)
    : prog (result DbError (list WorkflowEventRow)) :=
  Query (fun t s =>
           (select_result (map (event_to_value d)
              (select_events (fun e => str_eqb (e_workflow_run_id e) workflow_run_id) s)), s))
    (fun r => Done (list_result r)).

(** [limit as i64], and [LIMIT] with a negative number. *)
Definition as_i64 (n : N) : Z := if (n <? 2 ^ 63)%N then Z.of_N n else Z.of_N n - 2 ^ 64.
Definition sql_limit (z : Z) (l : list event_row) : option (list event_row) :=
  if (z <? 0)%Z then match d with Postgres => None | Sqlite => Some l end
  else Some (take (Z.to_nat z) l).

Definition list_recent_events (workflow_run_id : str) (event_types : option (list str)) (limit : N)
    : prog (result DbError (list WorkflowEventRow)) :=
  let type_clause e :=
    match event_types with
    | Some ((_ :: _) as types) => existsb (str_eqb (e_event_type e)) types
    | _ => true
    end in
  Query (fun t s =>
           let where_ e := str_eqb (e_workflow_run_id e) workflow_run_id && type_clause e in
           match sql_limit (as_i64 limit) (select_events where_ s) with
           | Some l => (select_result (map (event_to_value d) l), s)
           | None => (syntax_failure, s)
           end)
    (fun r => Done (list_result r)).

(** The cursor has the resolution of the column. *)
Definition to_db_date_param (since : Z) : Z := sql_datetime d since.

Definition list_events_since (workflow_run_id : str) (since : Z)
    : prog (result DbError (list WorkflowEventRow)) :=
  Query (fun t s =>
           let where_ e :=
             str_eqb (e_workflow_run_id e) workflow_run_id
             && (to_db_date_param since <=? e_created_at e)%Z in
           (select_result (map (event_to_value d) (select_events where_ s)), s))
    (fun r => Done (list_result r)).

(** ** The outputs of a former run *)

Definition is_output_event (workflow_run_id : str) (e : event_row) : bool :=
  str_eqb (e_workflow_run_id e) workflow_run_id
  && existsb (str_eqb (e_event_type e)) [lit "node_completed"; lit "node_skipped_prior_success"].

(** The entry of one row: its step, and [node_output] or the whole document. *)
Definition event_output (row_val : value) : option (str * str) :=
  row_map ← as_object row_val;
  step_name ← get_str (lit "step_name") row_map;
  if is_empty step_name then None
  else
    data_val ← assoc_get (lit "data") row_map;
    let parsed :=
      match data_val with
      | String s => object_of (from_str s)
      | Object o => o
      | _ => []
      end in
    match assoc_get (lit "node_output") parsed ≫= as_str with
    | Some output => Some (step_name, output)
    | None => Some (step_name, to_string data_val)
    end.

Definition collect_entries {A} (f : A -> option (str * str)) (l : list A) : list (str * str) :=
  fold_left (fun m x => match f x with Some (k, v) => index_insert k v m | None => m end) l [].

Definition get_completed_dag_node_outputs (workflow_run_id : str)
    : prog (result DbError (list (str * str))) :=
  Query (fun t s =>
           (select_result
              (map (fun e => Object [(lit "step_name", text_column (e_step_name e));
                                     (lit "data", json_column d (e_data e))])
                 (select_events (is_output_event workflow_run_id) s)), s))
    (fun r => match r with Ok res => Done (Ok (collect_entries event_output (rows res)))
                         | Err e => Done (Err e) end).

End EventStore.

(** ** Lemmas *)

Lemma assoc_get_index_insert k k' v m :
  assoc_get k (index_insert k' v m) = if str_eqb k k' then Some v else assoc_get k m.
Proof.
  induction m as [|[a x] m IH]; simpl.
  - unfold str_eqb. by destruct (bool_decide (k = k')).
  - unfold str_eqb in *. repeat (case_bool_decide; simpl; simplify_eq/=); try done.
Qed.

(** The entry of a key is the last one inserted. *)
Lemma collect_entries_snoc {A} (f : A -> option (str * str)) l x :
  collect_entries f (l ++ [x]) =
    match f x with Some (k, v) => index_insert k v (collect_entries f l) | None => collect_entries f l end.
Proof. unfold collect_entries. by rewrite fold_left_app. Qed.

Lemma collect_entries_last {A} (f : A -> option (str * str)) l1 x l2 k v :
  f x = Some (k, v) -> (forall y v', y ∈ l2 -> f y = Some (k, v') -> v' = v) ->
  assoc_get k (collect_entries f (l1 ++ x :: l2)) = Some v.
Proof.
  intros Hx. induction l2 as [|y l2 IH] using rev_ind; intros Hl2.
  - by rewrite collect_entries_snoc, Hx, assoc_get_index_insert, str_eqb_refl.
  - change (l1 ++ x :: l2 ++ [y]) with (l1 ++ (x :: l2) ++ [y]).
    rewrite app_assoc, collect_entries_snoc.
    assert (IH' : assoc_get k (collect_entries f (l1 ++ x :: l2)) = Some v).
    { apply IH. intros z v' Hz. apply Hl2. set_solver. }
    destruct (f y) as [ [k' v']|] eqn:Ey; [|done]. rewrite assoc_get_index_insert.
    destruct (str_eqb k k') eqn:Ek; [|done]. apply str_eqb_spec in Ek as <-.
    f_equal. apply (Hl2 y v'); [set_solver|done].
Qed.

Lemma collect_entries_None {A} (f : A -> option (str * str)) l k :
  (forall y v, y ∈ l -> f y <> Some (k, v)) -> assoc_get k (collect_entries f l) = None.
Proof.
  induction l as [|y l IH] using rev_ind; intros Hl; [done|]. rewrite collect_entries_snoc.
  assert (IH' : assoc_get k (collect_entries f l) = None).
  { apply IH. intros z v Hz. apply Hl. set_solver. }
  destruct (f y) as [ [k' v']|] eqn:Ey; [|done]. rewrite assoc_get_index_insert.
  assert (str_eqb k k' = false) as ->; [|done]. apply bool_decide_eq_false. intros ->.
  eapply (Hl y v'); [set_solver|done].
Qed.

Lemma collect_entries_map {A B} (g : B -> A) (f : A -> option (str * str)) l :
  collect_entries f (map g l) = collect_entries (fun x => f (g x)) l.
Proof.
  unfold collect_entries. generalize (@nil (str * str)).
  induction l as [|x l IH]; intros m; simpl; [done|]. apply IH.
Qed.

(** The events of a query come in the order of their times. *)
#[export] Instance created_asc_total : Total created_asc.
Proof. intros a b. unfold created_asc. lia. Qed.
#[export] Instance created_asc_trans : Transitive created_asc.
Proof. intros a b c. unfold created_asc. lia. Qed.

Lemma elem_of_select_events `{SqlEngine} p s e :
  e ∈ select_events p s <-> e ∈ events s /\ p e = true.
Proof. unfold select_events. rewrite merge_sort_Permutation. apply elem_of_select. Qed.

Lemma select_events_split `{SqlEngine} p s e :
  e ∈ events s -> p e = true ->
  exists l1 l2, select_events p s = l1 ++ e :: l2 /\
    forall y, y ∈ l2 -> y ∈ events s /\ p y = true /\ (e_created_at e <= e_created_at y)%Z.
Proof.
  intros He Hp. assert (Hin : e ∈ select_events p s) by (by apply elem_of_select_events).
  apply list_elem_of_split in Hin as (l1 & l2 & E). exists l1, l2. split; [done|].
  intros y Hy. assert (Hy' : y ∈ select_events p s) by (rewrite E; set_solver).
  apply elem_of_select_events in Hy' as [Hy1 Hy2]. split; [done|]. split; [done|].
  assert (Hs : StronglySorted created_asc (select_events p s)).
  { apply StronglySorted_merge_sort; apply _. }
  rewrite E in Hs. apply StronglySorted_app_1_r in Hs.
  apply StronglySorted_inv in Hs as [_ Hall]. by eapply Forall_forall in Hall.
Qed.

Section Restore.
Context `{SerdeJson} `{SqlEngine} `{StoreText}.
Variable d : Dialect.

(** The row the query selects for an event, and what it restores. *)
Definition output_row (e : event_row) : value :=
  Object [(lit "step_name", text_column (e_step_name e)); (lit "data", json_column d (e_data e))].

Lemma event_output_some e n o out :
  e_step_name e = Some n -> n <> [] -> e_data e = Some o -> metadata_ok d o ->
  assoc_get (lit "node_output") o = Some (String out) ->
  event_output (output_row e) = Some (n, out).
Proof.
  intros Hn Hne Ho Hm Hout. unfold event_output, output_row. rewrite Hn, Ho. cbn [as_object mbind option_bind].
  change (get_str (lit "step_name") _) with (Some n). cbn [mbind option_bind].
  assert (is_empty n = false) as -> by (by destruct n).
  change (assoc_get (lit "data") _) with (Some (json_column d (Some o))). cbn [mbind option_bind].
  assert (E : match json_column d (Some o) with
              | String s => object_of (from_str s) | Object o => o | _ => [] end = o)
    by (by apply (read_metadata d)).
  rewrite E, Hout. done.
Qed.

Lemma event_output_name e k v : event_output (output_row e) = Some (k, v) -> e_step_name e = Some k.
Proof.
  unfold event_output, output_row. cbn [as_object mbind option_bind].
  change (get_str (lit "step_name") _) with (as_str (text_column (e_step_name e))).
  rewrite read_text. destruct (e_step_name e) as [n|]; [|done]. cbn [mbind option_bind].
  destruct (is_empty n); [done|].
  change (assoc_get (lit "data") _) with (Some (json_column d (e_data e))). cbn [mbind option_bind].
  destruct (assoc_get (lit "node_output") _ ≫= as_str); by intros [= -> _].
Qed.

Lemma outputs_run id (w : nat -> answer) n s t :
  w n = At t ->
  run w (get_completed_dag_node_outputs d id) n s =
    (Ok (collect_entries (fun e => event_output (output_row e)) (select_events (is_output_event id) s)),
     S n, s).
Proof.
  intros E. unfold get_completed_dag_node_outputs. rewrite run_query, E. unfold ask.
  cbn [fst snd select_result rows]. by rewrite collect_entries_map.
Qed.

Lemma restored id (w : nat -> answer) n s t e k o out :
  w n = At t -> e ∈ events s -> is_output_event id e = true ->
  e_step_name e = Some k -> k <> [] -> e_data e = Some o -> metadata_ok d o ->
  assoc_get (lit "node_output") o = Some (String out) ->
  (forall e', e' ∈ events s -> is_output_event id e' = true -> e_step_name e' = Some k ->
     e' = e \/ (e_created_at e' < e_created_at e)%Z) ->
  exists m, fst (fst (run w (get_completed_dag_node_outputs d id) n s)) = Ok m /\
    assoc_get k m = Some out.
Proof.
  intros Hw He Ho Hk Hne Hd Hm Hout Hlast. rewrite (outputs_run id w n s t Hw).
  eexists. split; [done|].
  destruct (select_events_split (is_output_event id) s e He Ho) as (l1 & l2 & -> & Hl2).
  apply collect_entries_last; [by eapply event_output_some|].
  intros y v' Hy Hv. destruct (Hl2 y Hy) as (Hys & Hyo & Hle).
  destruct (Hlast y Hys Hyo (event_output_name y k v' Hv)) as [->|Hlt]; [|lia].
  rewrite (event_output_some e k o out) in Hv by done. by injection Hv.
Qed.

(** The outputs a resumed run gets back.  Once the completion of a node has been
    recorded with its output, the restored map gives that output for the node, whatever
    was recorded for it earlier and for other nodes and runs. *)
Theorem record_then_restore id data k md out (w : nat -> answer) s t0 t1 :
  w 0 = At t0 -> w 1 = At t1 ->
  ce_event_type data = NodeCompleted -> ce_step_name data = Some k -> k <> [] ->
  ce_data data = Some md -> metadata_ok d md ->
  assoc_get (lit "node_output") md = Some (String out) ->
  (forall e, e ∈ events s -> e_id e <> id) ->
  (forall e, e ∈ events s -> (e_created_at e < sql_now d t0)%Z) ->
  exists m,
    fst (fst (run w (get_completed_dag_node_outputs d (ce_workflow_run_id data)) 1
                (run_db w (create_workflow_event d id data) s))) = Ok m /\
    assoc_get k m = Some out.
Proof.
  intros E0 E1 Hty Hk Hne Hmd Hm Hout Hid Htime.
  set (e := mk_event_row id (ce_workflow_run_id data) (lit "node_completed") (ce_step_index data)
              (Some k) (Some md) (sql_now d t0)).
  assert (Hdb : run_db w (create_workflow_event d id data) s = set_events s (events s ++ [e])).
  { unfold run_db, create_workflow_event, insert_event. rewrite run_query, E0. unfold ask.
    assert (existsb (fun e' => str_eqb (e_id e') id) (events s) = false) as ->.
    { apply not_true_iff_false. intros (e' & He' & Hid'%str_eqb_spec)%existsb_exists.
      apply (Hid e'); [by apply list_elem_of_In|done]. }
    unfold e. by rewrite Hty, Hk, Hmd. }
  rewrite Hdb. apply (restored _ w 1 _ t1 e k md out); try done.
  - simpl. set_solver.
  - unfold is_output_event. simpl. by rewrite str_eqb_refl.
  - simpl. intros e' [He'|He']%elem_of_app _ _; [right; by apply Htime|].
    left. by apply list_elem_of_singleton in He'.
Qed.

(** A resumed run restores nothing through the trait's implementation.  The
    executor records the completion of a node with the node's name as the step and
    with data that hold neither [nodeId] nor [node_id]; [SqlWorkflowStore] looks for
    them in the data, and on SQLite, whose rows carry the data as text, it finds no
    field at all.  So the map of prior outputs is empty, and every node runs again. *)
Theorem prior_outputs_lost id (w : nat -> answer) t s :
  w 0 = At t ->
  d = Sqlite \/
    (forall e o, e ∈ events s -> e_workflow_run_id e = id -> e_data e = Some o ->
       assoc_get (lit "nodeId") o = None /\ assoc_get (lit "node_id") o = None) ->
  run_val w (RunStore.get_completed_dag_node_outputs d id) s = Ok [].
Proof.
  intros E Hd. unfold run_val, RunStore.get_completed_dag_node_outputs. rewrite run_query, E.
  unfold ask. cbn [fst snd select_result rows run]. do 2 f_equal. unfold collect_outputs.
  set (p := fun e => str_eqb (e_workflow_run_id e) id && _).
  assert (Hnone : forall e, e ∈ select_events p s ->
    row_output (Object [(lit "event_type", String (e_event_type e)); (lit "data", json_column d (e_data e))])
      = None).
  { intros e [He Hp]%elem_of_select_events. unfold row_output.
    change (value_get (lit "event_type") _) with (Some (String (e_event_type e))).
    change (value_get (lit "data") _) with (Some (json_column d (e_data e))).
    cbn [mbind option_bind as_str]. destruct (e_data e) as [o|] eqn:Eo; [|done]. simpl.
    destruct Hd as [->|Hd]; [done|]. destruct d; [|done]. simpl.
    apply andb_true_iff in Hp as [Hid%str_eqb_spec _].
    destruct (Hd e o He Hid Eo) as [-> ->]. done. }
  induction (select_events p s) as [|e l IH]; [done|]. simpl. rewrite Hnone by set_solver.
  apply IH. intros e' He'. apply Hnone. set_solver.
Qed.

End Restore.

(** ** The theorems on events *)

Definition sample_event : CreateWorkflowEventData :=
  mk_CreateWorkflowEventData (lit "r") NodeCompleted None (Some (lit "n"))
    (Some [(lit "node_output", String (lit "out"))]).

Lemma record_then_restore_witness : exists m,
  fst (fst (run steady_world (get_completed_dag_node_outputs Postgres (lit "r")) 1
              (run_db steady_world (create_workflow_event Postgres (lit "e1") sample_event) (sample_db []))))
    = Ok m /\ assoc_get (lit "n") m = Some (lit "out").
Proof.
  refine (record_then_restore Postgres (lit "e1") sample_event (lit "n")
            [(lit "node_output", String (lit "out"))] (lit "out") steady_world (sample_db [])
            (2000000 * second) (2000000 * second) eq_refl eq_refl eq_refl eq_refl _ eq_refl _ _ _ _);
    [done|exact I|reflexivity|intros e He; inversion He..].
Defined.

Lemma prior_outputs_lost_witness :
  run_val steady_world (RunStore.get_completed_dag_node_outputs Sqlite (lit "r"))
    (run_db steady_world (create_workflow_event Sqlite (lit "e1") sample_event) (sample_db [])) = Ok [].
Proof.
  apply (prior_outputs_lost Sqlite (lit "r") steady_world (2000000 * second)); [reflexivity|by left].
Defined.
