(* ===== verification/NodeSessions.v ===== *)
(** * Artifacts and sessions of nodes

    [node_artifact.rs] and [workflow_node_session.rs] of the schema crate: what a node
    leaves for later nodes and later runs; and [workflow_node_sessions.rs] of [har-db]:
    the statements that keep the sessions, their parameters, and the reading of a row.
    The meaning of each statement stands beside its text, on a table whose columns keep
    the values they are given, as the [TEXT] columns of SQLite do. *)

From S2P Require Import Prelude StdModel Float64 Json.

(** ** Artifacts *)

Record NodeArtifact : Type := mk_NodeArtifact {
  a_node_id : str;
  a_output_type : str;
  a_path : str;
  a_run_id : str;
  a_produced_at : str;
  a_size : N;
  a_session_id : option str;
}.

Inductive NodeArtifactValidationError : Type :=
| EmptyOutputType
| InvalidProducedAt.
Definition artifact_error_display (e : NodeArtifactValidationError) : str :=
  match e with
  | EmptyOutputType => lit "'outputType' must be at least 1 character"
  | InvalidProducedAt => lit "'producedAt' must be a valid ISO-8601 datetime string"
  end.

Definition is_valid_iso8601_datetime (s : str) : bool :=
  if is_empty s then false
  else
    match split_once (lit "T") s with
    | None => false
    | Some (date, time_part) =>
        if Nat.ltb (byte_len date) 10 then false
        else if is_empty time_part then false
        else ends_with (lit "Z") time_part
    end.

Definition NodeArtifact_validate (a : NodeArtifact) : list NodeArtifactValidationError :=
  (if is_empty (a_output_type a) then [EmptyOutputType] else [])
  ++ (if is_valid_iso8601_datetime (a_produced_at a) then [] else [InvalidProducedAt]).

Section Artifact.
(** The derived [serde_json::from_value::<NodeArtifact>]. *)
Variable from_value : value -> option NodeArtifact.

Definition NodeArtifact_parse (v : value) : result (list NodeArtifactValidationError) NodeArtifact :=
  match from_value v with
  | None => Err [EmptyOutputType]
  | Some artifact =>
      let errors := NodeArtifact_validate artifact in
      if is_empty errors then Ok artifact else Err errors
  end.
End Artifact.

(** ** Sessions *)

Record WorkflowNodeSession : Type := mk_WorkflowNodeSession {
  s_workflow_name : str;
  s_node_id : str;
  s_scope_key : str;
  s_provider : str;
  s_provider_session_id : str;
  s_last_run_id : option str;
  s_created_at : str;
  s_updated_at : str;
}.

(** What stands under the key, which is there: [null] or a text. *)
Definition deser_required_nullable_string (v : value) : result unit (option str) :=
  match v with
  | Null => Ok None
  | String s => Ok (Some s)
  | _ => Err tt
  end.

Definition empty_error (field : string) (s : str) : list str :=
  if is_empty s then [lit field ++ lit " must not be empty"] else [].
Definition validate_session (workflow_name node_id scope_key provider provider_session_id : str)
    : list str :=
  empty_error "workflow_name" workflow_name ++ empty_error "node_id" node_id
  ++ empty_error "scope_key" scope_key ++ empty_error "provider" provider
  ++ empty_error "provider_session_id" provider_session_id.
Definition validate_session_value (s : WorkflowNodeSession) : list str :=
  validate_session (s_workflow_name s) (s_node_id s) (s_scope_key s) (s_provider s)
    (s_provider_session_id s).

(** *** The statements *)

Definition pk_cols : list str :=
  [lit "workflow_name"; lit "node_id"; lit "scope_key"; lit "provider"].
Definition all_cols : list str :=
  [lit "workflow_name"; lit "node_id"; lit "scope_key"; lit "provider";
   lit "provider_session_id"; lit "last_run_id"; lit "created_at"; lit "updated_at"].

Definition upsert_workflow_node_session_sql : str :=
  let insert_cols := join (lit ", ") all_cols in
  let insert_placeholders :=
    join (lit ", ") (map (fun i => lit "$" ++ show_nat i) (seq 1 (length all_cols))) in
  let conflict_cols := join (lit ", ") pk_cols in
  let set_clauses := map (fun col => col ++ lit " = EXCLUDED." ++ col) all_cols in
  let update_set := join (lit ", ") set_clauses in
  lit "INSERT INTO remote_agent_workflow_node_sessions (" ++ insert_cols ++ lit ")" ++ [10%N]
  ++ lit "     VALUES (" ++ insert_placeholders ++ lit ")" ++ [10%N]
  ++ lit "    ON CONFLICT (" ++ conflict_cols ++ lit ") DO UPDATE SET " ++ update_set.
Definition delete_workflow_node_sessions_sql : str :=
  lit "DELETE FROM remote_agent_workflow_node_sessions WHERE workflow_name = $1 AND node_id = $2 AND scope_key = $3 AND provider = $4".
Definition get_workflow_node_session_sql : str :=
  lit "SELECT workflow_name, node_id, scope_key, provider, provider_session_id, last_run_id, created_at, updated_at FROM remote_agent_workflow_node_sessions WHERE workflow_name = $1 AND node_id = $2 AND scope_key = $3 AND provider = $4".

Definition json_of_option (o : option str) : value :=
  match o with Some s => String s | None => Null end.
Definition upsert_workflow_node_session_params (s : WorkflowNodeSession) : list value :=
  [String (s_workflow_name s); String (s_node_id s); String (s_scope_key s); String (s_provider s);
   String (s_provider_session_id s); json_of_option (s_last_run_id s);
   String (s_created_at s); String (s_updated_at s)].
Definition delete_workflow_node_session_params (workflow_name node_id scope_key provider : str)
    : list value := [String workflow_name; String node_id; String scope_key; String provider].
Definition get_workflow_node_session_params (workflow_name node_id scope_key provider : str)
    : list value := [String workflow_name; String node_id; String scope_key; String provider].

Definition get_str (row : object) (k : str) : option str := assoc_get k row ≫= as_str.
Definition normalize_session_row (row : object) : option WorkflowNodeSession :=
  workflow_name ← get_str row (lit "workflow_name");
  node_id ← get_str row (lit "node_id");
  scope_key ← get_str row (lit "scope_key");
  provider ← get_str row (lit "provider");
  provider_session_id ← get_str row (lit "provider_session_id");
  created_at ← get_str row (lit "created_at");
  updated_at ← get_str row (lit "updated_at");
  Some (mk_WorkflowNodeSession workflow_name node_id scope_key provider provider_session_id
          (get_str row (lit "last_run_id")) created_at updated_at).

(** *** Their meaning *)

Abbreviation session_table := (list object).

(** [column = $n], which no [NULL] satisfies. *)
Definition column_is (row : object) (col : str) (param : value) : bool :=
  match get_str row col, as_str param with
  | Some x, Some y => str_eqb x y
  | _, _ => false
  end.
(** The [WHERE] clause of both, and the conflict on the primary key. *)
Definition key_is (params : list value) (row : object) : bool :=
  forallb (fun cp => column_is row cp.1 cp.2) (zip pk_cols params).
Definition set_columns (cols : list (str * value)) (row : object) : object :=
  fold_left (fun row cv => index_insert cv.1 cv.2 row) cols row.

Definition upsert_rows (params : list value) (t : session_table) : session_table :=
  let excluded := zip all_cols params in
  if existsb (key_is params) t
  then map (fun row => if key_is params row then set_columns excluded row else row) t
  else t ++ [excluded].
Definition delete_rows (params : list value) (t : session_table) : session_table :=
  List.filter (fun row => negb (key_is params row)) t.
Definition select_row (params : list value) (t : session_table) : option object :=
  List.find (key_is params) t.

(** * Theorems *)

Lemma ends_with_iff (p s : str) : ends_with p s = true <-> exists a, s = a ++ p.
Proof.
  unfold ends_with. rewrite starts_with_spec. split; intros [r Hr].
  - exists (rev r). by rewrite <- (rev_involutive s), Hr, rev_app_distr, rev_involutive.
  - exists (rev r). by rewrite Hr, rev_app_distr.
Qed.

(** What the check of a time of production accepts: at least ten bytes before the first
    [T], and a [Z] at the end. *)
Lemma iso8601_accepts (s : str) :
  is_valid_iso8601_datetime s = true <->
  exists date time, s = date ++ lit "T" ++ time ++ lit "Z" /\ 84%N ∉ date /\ 10 <= byte_len date.
Proof.
  unfold is_valid_iso8601_datetime. change (lit "T") with [84%N].
  assert (forall t : str, is_empty t = false -> ends_with (lit "Z") t = true <-> exists u, t = u ++ lit "Z")
    as Hz by (intros; apply ends_with_iff).
  split.
  - destruct (is_empty s); [done|]. destruct (split_once [84%N] s) as [[date time]|] eqn:Hs; [|done].
    pose proof (split_once_char_Some _ _ _ _ Hs) as Ht. apply split_once_Some in Hs as ->. destruct (Nat.ltb_spec (byte_len date) 10); [done|].
    destruct (is_empty time) eqn:He; [done|]. intros [u ->]%Hz; [|done]. by exists date, u.
  - intros (date & u & -> & Ht & Hl). cbn [app]. rewrite split_once_char by done.
    destruct (Nat.ltb_spec (byte_len date) 10); [lia|].
    assert (is_empty (date ++ 84%N :: u ++ lit "Z") = false) as -> by by destruct date.
    assert (is_empty (u ++ lit "Z") = false) as He by by destruct u.
    rewrite He. apply Hz; [done|]. by exists u.
Qed.

Lemma artifact_parse_accepts (from_value : value -> option NodeArtifact) (v : value) (a : NodeArtifact) :
  NodeArtifact_parse from_value v = Ok a <->
  from_value v = Some a /\ a_output_type a ≠ [] /\ is_valid_iso8601_datetime (a_produced_at a) = true.
Proof.
  unfold NodeArtifact_parse, NodeArtifact_validate. destruct (from_value v) as [b|]; [|naive_solver].
  destruct (is_empty (a_output_type b)) eqn:Ho, (is_valid_iso8601_datetime (a_produced_at b)) eqn:Hi;
    cbn [is_empty app].
  3: { split; [intros [= ->]|by intros ([= ->] & _)]. split_and!; [done| |done]. by intros E; rewrite E in Ho. }
  all: split; [done|]; intros ([= ->] & Hn & Hv); try congruence; by apply is_empty_spec in Ho.
Qed.

(** A date and a time that are none are accepted. *)
Example no_date_accepted : is_valid_iso8601_datetime (lit "tomorrow, aT noonZ") = true.
Proof. by_compute. Qed.

(** A session is accepted exactly when every part of it but the run is there. *)
Lemma session_accepted (s : WorkflowNodeSession) :
  validate_session_value s = [] <->
  Forall (fun x => x ≠ []) [s_workflow_name s; s_node_id s; s_scope_key s; s_provider s; s_provider_session_id s].
Proof.
  unfold validate_session_value, validate_session, empty_error.
  destruct (s_workflow_name s), (s_node_id s), (s_scope_key s), (s_provider s), (s_provider_session_id s);
    cbn [is_empty app]; (split; [try done; intros _; repeat constructor; done|]);
    intros Hf; rewrite !Forall_cons in Hf; naive_solver.
Qed.

(** *** Reading back *)

Definition session_key (s : WorkflowNodeSession) : list value :=
  get_workflow_node_session_params (s_workflow_name s) (s_node_id s) (s_scope_key s) (s_provider s).

Lemma assoc_get_insert (k k' : str) (v : value) (l : object) :
  assoc_get k (index_insert k' v l) = if decide (k = k') then Some v else assoc_get k l.
Proof.
  induction l as [|[a b] l IH]; cbn [index_insert assoc_get].
  - case_bool_decide; case_decide; naive_solver.
  - case_bool_decide; subst; cbn [assoc_get]; [|rewrite IH]; repeat case_bool_decide; repeat case_decide;
      naive_solver.
Qed.

(** A row that was set to the parameters has them in its columns. *)
Lemma set_columns_lookup (cols : list (str * value)) (row : object) (k : str) :
  assoc_get k (set_columns cols row) = match assoc_get k (rev cols) with Some v => Some v | None => assoc_get k row end.
Proof.
  unfold set_columns. rewrite <- fold_left_rev_right. induction (rev cols) as [|[a b] l IH]; [done|].
  cbn [fold_right fst snd assoc_get]. rewrite assoc_get_insert, IH. case_bool_decide; case_decide; naive_solver.
Qed.

Lemma key_is_spec (s : WorkflowNodeSession) (row : object) :
  key_is (session_key s) row = true <->
  get_str row (lit "workflow_name") = Some (s_workflow_name s)
  /\ get_str row (lit "node_id") = Some (s_node_id s)
  /\ get_str row (lit "scope_key") = Some (s_scope_key s)
  /\ get_str row (lit "provider") = Some (s_provider s).
Proof.
  unfold key_is, session_key, get_workflow_node_session_params, pk_cols, column_is.
  cbn [zip zip_with forallb fst snd as_str]. rewrite !andb_true_iff.
  generalize (get_str row (lit "workflow_name")), (get_str row (lit "node_id")),
    (get_str row (lit "scope_key")), (get_str row (lit "provider")).
  intros [] [] [] []; rewrite ?str_eqb_spec; naive_solver.
Qed.

Lemma key_is_unique (s s' : WorkflowNodeSession) (row : object) :
  key_is (session_key s) row = true -> key_is (session_key s') row = true -> session_key s' = session_key s.
Proof.
  rewrite !key_is_spec. unfold session_key, get_workflow_node_session_params. intros (?&?&?&?) (?&?&?&?).
  congruence.
Qed.

Definition written (s : WorkflowNodeSession) (row : object) : object :=
  set_columns (zip all_cols (upsert_workflow_node_session_params s)) row.

Lemma written_read (s : WorkflowNodeSession) (row : object) : normalize_session_row (written s row) = Some s.
Proof.
  unfold normalize_session_row, get_str, written. rewrite !set_columns_lookup.
  destruct s as [w n k p i [r|] c u]; vm_compute; reflexivity.
Qed.

Lemma written_key (s : WorkflowNodeSession) (row : object) : key_is (session_key s) (written s row) = true.
Proof.
  apply key_is_spec. unfold get_str, written. rewrite !set_columns_lookup.
  destruct s; split_and!; by_compute.
Qed.

Lemma upsert_rows_eq (s : WorkflowNodeSession) (t : session_table) :
  upsert_rows (upsert_workflow_node_session_params s) t =
    if existsb (key_is (session_key s)) t
    then map (fun row => if key_is (session_key s) row then written s row else row) t
    else t ++ [written s []].
Proof.
  unfold upsert_rows. cbn zeta.
  change (key_is (upsert_workflow_node_session_params s)) with (key_is (session_key s)).
  destruct (existsb _ t); [reflexivity|]. destruct s; by_compute.
Qed.

Lemma find_map_other (p q : object -> bool) (g : object -> object) (t : session_table) :
  (forall row, p row = true -> q row = false /\ q (g row) = false) ->
  List.find q (map (fun row => if p row then g row else row) t) = List.find q t.
Proof.
  intros Hp. induction t as [|row t IH]; [done|]. cbn [map List.find]. destruct (p row) eqn:Hr.
  - destruct (Hp _ Hr) as [-> ->]. exact IH.
  - by rewrite IH.
Qed.

Lemma find_app_last (q : object -> bool) (t : session_table) (row : object) :
  List.find q (t ++ [row])
  = match List.find q t with Some r => Some r | None => if q row then Some row else None end.
Proof. induction t as [|r t IH]; [done|]. cbn [app List.find]. by destruct (q r). Qed.

Lemma select_written (s : WorkflowNodeSession) (t : session_table) :
  exists row, select_row (session_key s) (upsert_rows (upsert_workflow_node_session_params s) t)
    = Some (written s row).
Proof.
  rewrite upsert_rows_eq. unfold select_row. destruct (existsb _ t) eqn:He.
  - induction t as [|row t IH]; [done|]. cbn [existsb map List.find] in *.
    destruct (key_is (session_key s) row) eqn:Hr; [exists row; by rewrite written_key|].
    rewrite Hr. by apply IH.
  - exists []. rewrite find_app_last, written_key. destruct (List.find _ t) as [r|] eqn:Hf; [|done].
    apply find_some in Hf as [Hin Hk]. apply not_true_iff_false in He. destruct He.
    apply existsb_exists. by exists r.
Qed.

(** What is read under a key after a session was written is that session, exactly, when
    the key is its own, also where there was one before, and what was read before when
    it is another; and after a deletion nothing is read under the key, and under any
    other what was read before. *)
Theorem sessions_read_back (s : WorkflowNodeSession) (t : session_table) :
  let stored := upsert_rows (upsert_workflow_node_session_params s) t in
  let deleted := delete_rows (delete_workflow_node_session_params
    (s_workflow_name s) (s_node_id s) (s_scope_key s) (s_provider s)) t in
  select_row (session_key s) stored ≫= normalize_session_row = Some s
  /\ select_row (session_key s) deleted = None
  /\ forall s', session_key s' ≠ session_key s ->
      select_row (session_key s') stored = select_row (session_key s') t
      /\ select_row (session_key s') deleted = select_row (session_key s') t.
Proof.
  cbn zeta. change (delete_workflow_node_session_params _ _ _ _) with (session_key s). split_and!.
  - destruct (select_written s t) as [row ->]. apply written_read.
  - unfold select_row, delete_rows. destruct (List.find _ _) as [r|] eqn:Hf; [|done].
    apply find_some in Hf as [Hin Hk]. apply filter_In in Hin as [_ Hn]. by rewrite Hk in Hn.
  - intros s' Hne.
    assert (forall row, key_is (session_key s) row = true -> key_is (session_key s') row = false) as Hx.
    { intros row Hr. apply not_true_iff_false. intros Hr'. by apply Hne, (key_is_unique s s' row). }
    split.
    + rewrite upsert_rows_eq. unfold select_row. destruct (existsb _ t).
      * apply find_map_other. intros row Hr. split; apply Hx; [done|apply written_key].
      * rewrite find_app_last, (Hx _ (written_key s [])). by destruct (List.find _ t).
    + unfold select_row, delete_rows. induction t as [|row t IH]; [done|]. cbn [List.filter List.find].
      destruct (key_is (session_key s) row) eqn:Hr; cbn [negb List.find]; [by rewrite (Hx _ Hr)|by rewrite IH].
Qed.

(** The time of creation is overwritten with the rest. *)
Example created_at_overwritten :
  let s c := mk_WorkflowNodeSession (lit "w") (lit "n") (lit "k") (lit "claude") (lit "i") None (lit c) (lit c) in
  let params c := upsert_workflow_node_session_params (s c) in
  map (fun row => get_str row (lit "created_at")) (upsert_rows (params "later") (upsert_rows (params "first") []))
  = [Some (lit "later")].
Proof. by_compute. Qed.

Example upsert_text :
  contains (lit "ON CONFLICT (workflow_name, node_id, scope_key, provider) DO UPDATE SET workflow_name = EXCLUDED.workflow_name, ")
    upsert_workflow_node_session_sql
  && contains (lit "VALUES ($1, $2, $3, $4, $5, $6, $7, $8)") upsert_workflow_node_session_sql = true.
Proof. by_compute. Qed.
