(* ===== verification/StructuredOutput.v ===== *)
(** * Structured output

    [har-provider/src/shared/structured_output.rs]: the prompt a best-effort provider
    gets, what is read from its transcript, and the validation of a value against a
    schema.  The JSON repair and the schema compiler are crates: parameters. *)

From S2P Require Import Prelude Json StdModel Regex ExecutorShared.

(** [serde_json::to_string_pretty], the [jsonrepair] crate ([None]: it gives up) and
    the [jsonschema] crate at draft 7: a schema that compiles lists the errors of a
    value, each with the JSON pointer of its place and its text. *)
Class StructuredText : Type := {
  to_string_pretty : value -> str;
  jsonrepair : str -> option str;
  draft7_new : value -> result str (value -> list (str * str));
}.

Definition trim_end_matches (f : char -> bool) (s : str) : str := rev (trim_start_matches f (rev s)).
Definition is_char (c : char) : char -> bool := N.eqb c.
Definition code_fence : str := lit "```".
Definition backtick : char := 96%N.

(** [strip_code_fences]. *)
Definition strip_leading_fence (s : str) : str :=
  match strip_prefix code_fence s with
  | Some rest =>
      trim_start_matches (is_char 13)
        (trim_start_matches (is_char 10) (trim_start_matches is_ascii_alphabetic rest))
  | None => s
  end.
Definition strip_trailing_fence (s : str) : str :=
  if ends_with code_fence s then
    trim_end (trim_end_matches (is_char 13)
                (trim_end_matches (is_char 10) (trim_end_matches (is_char backtick) s)))
  else s.
Definition strip_code_fences (s : str) : str := strip_trailing_fence (strip_leading_fence s).

(** The text from the first brace on, with whether something stands before it. *)
Fixpoint from_brace (s : str) : option str :=
  match s with
  | [] => None
  | c :: s' => if (c =? 123)%N then Some s else from_brace s'
  end.

Inductive StructuredValidationResult : Type :=
| Valid
| Invalid (errors : list str).

Section StructuredOutput.
Context `{SerdeJson} `{StructuredText}.

Definition augment_prompt_for_json_schema (prompt : str) (schema : object) : str :=
  prompt ++ newline ++ newline ++ lit "---" ++ newline ++ newline
  ++ lit "CRITICAL: Respond with ONLY a JSON object matching the schema below. "
  ++ lit "No prose before or after the JSON. No markdown code fences. Just the raw JSON object "
  ++ lit "as your final message." ++ newline ++ newline ++ lit "Schema:" ++ newline
  ++ to_string_pretty (Object schema).

Definition try_json_parse_object (text : str) : option value :=
  match from_str text with
  | Some (Object _) => from_str text
  | _ => None
  end.

Definition try_parse_structured_output (text : str) : option value :=
  let trimmed := trim text in
  if is_empty trimmed then None
  else
    let cleaned := trim (strip_code_fences trimmed) in
    match try_json_parse_object cleaned with
    | Some v => Some v
    | None =>
        match from_brace cleaned with
        | None => None
        | Some region =>
            match (if Nat.ltb (length region) (length cleaned)
                   then try_json_parse_object region else None) with
            | Some v => Some v
            | None =>
                if contains (lit ":") region
                then repaired ← jsonrepair region; try_json_parse_object repaired
                else None
            end
        end
    end.

Definition format_schema_errors (errors : list (str * str)) : list str :=
  match errors with
  | [] => [lit "value does not match the declared schema"]
  | _ =>
      map (fun '(path, e) => (if is_empty path then lit "(root)" else path) ++ lit ": " ++ e) errors
  end.

(** The verdict, and the error of a schema that does not compile. *)
Definition validate_structured_output (v schema : value)
  : StructuredValidationResult * option str :=
  match draft7_new schema with
  | Err e => (Valid, Some e)
  | Ok iter_errors =>
      let errors := iter_errors v in
      if is_empty errors then (Valid, None) else (Invalid (format_schema_errors errors), None)
  end.
End StructuredOutput.

(** ** Trimming at the end *)

Lemma trim_end_matches_app f a b :
  forallb f b = true -> trim_end_matches f (a ++ b) = trim_end_matches f a.
Proof.
  intros Hb. unfold trim_end_matches. rewrite rev_app_distr, trim_start_matches_app; [done|].
  apply forallb_forall. intros c Hc%in_rev. rewrite forallb_forall in Hb. auto.
Qed.
Lemma trim_end_matches_last f a d : f d = false -> trim_end_matches f (a ++ [d]) = a ++ [d].
Proof.
  intros Hd. unfold trim_end_matches. rewrite rev_app_distr. cbn [rev app trim_start_matches].
  rewrite Hd. cbn [rev]. by rewrite rev_involutive.
Qed.
Lemma ends_with_app a p : ends_with p (a ++ p) = true.
Proof. unfold ends_with. rewrite rev_app_distr. apply starts_with_spec. by eexists. Qed.
Lemma ends_with_last p a c d : c <> d -> ends_with (p ++ [c]) (a ++ [d]) = false.
Proof.
  intros Hcd. unfold ends_with, starts_with. rewrite !rev_app_distr. cbn [rev app strip_prefix].
  by rewrite (proj2 (N.eqb_neq c d)) by done.
Qed.

(** ** What is read from a transcript *)

Section Transcript.
Context `{SerdeJson} `{StructuredText}.

Definition braced (b : str) : str := 123%N :: b ++ [125%N].

Lemma trim_braced b : trim (braced b) = braced b.
Proof. by apply trim_wrapped. Qed.
Lemma braced_no_fence b : strip_trailing_fence (braced b) = braced b.
Proof.
  unfold strip_trailing_fence, braced. change code_fence with ([backtick; backtick] ++ [backtick]).
  change (123%N :: b ++ [125%N]) with ((123%N :: b) ++ [125%N]). by rewrite ends_with_last.
Qed.

(** A fenced text, with an optional language and line breaks. *)
Definition fenced (language b : str) : str :=
  code_fence ++ language ++ newline ++ braced b ++ newline ++ code_fence.
Lemma strip_fenced language b :
  forallb is_ascii_alphabetic language = true ->
  strip_code_fences (fenced language b) = braced b.
Proof.
  intros Hl. unfold strip_code_fences, fenced, strip_leading_fence. rewrite strip_prefix_app.
  rewrite trim_start_matches_app by done. cbn [newline app trim_start_matches].
  change (is_ascii_alphabetic 10) with false. cbn iota.
  cbn [trim_start_matches]. change (is_char 10 10) with true. cbn iota.
  unfold braced. cbn [app trim_start_matches]. change (is_char 10 123) with false. cbn iota.
  cbn [trim_start_matches]. change (is_char 13 123) with false. cbn iota.
  change (123%N :: (b ++ [125%N]) ++ 10%N :: code_fence) with (braced b ++ [10%N] ++ code_fence).
  rewrite app_assoc. unfold strip_trailing_fence. rewrite ends_with_app.
  rewrite trim_end_matches_app by done.
  rewrite (trim_end_matches_last _ (braced b)) by done. rewrite trim_end_matches_app by done.
  unfold braced. change (123%N :: b ++ [125%N]) with ((123%N :: b) ++ [125%N]).
  rewrite !trim_end_matches_last by done.
  change (trim_end ((123%N :: b) ++ [125%N])) with (trim_end_matches is_whitespace ((123%N :: b) ++ [125%N])).
  by rewrite trim_end_matches_last.
Qed.

Lemma try_parse_cleaned text b o :
  strip_code_fences (trim text) = braced b -> trim text <> [] ->
  from_str (braced b) = Some (Object o) -> try_parse_structured_output text = Some (Object o).
Proof.
  intros Hs Hne Ho. unfold try_parse_structured_output, try_json_parse_object.
  rewrite Hs, trim_braced, Ho. by destruct (trim text).
Qed.
Lemma try_json_parse_object_is text v :
  try_json_parse_object text = Some v -> exists o, v = Object o /\ from_str text = Some v.
Proof.
  unfold try_json_parse_object. destruct (from_str text) as [[]|]; try done. intros [= <-]. eauto.
Qed.

Lemma from_brace_prose prose b : 123%N ∉ prose -> from_brace (prose ++ braced b) = Some (braced b).
Proof.
  induction prose as [|c prose IH]; [done|]. intros [Hc Hp]%not_elem_of_cons. cbn [app from_brace].
  destruct (N.eqb_spec c 123) as [->|_]; [done|]. by apply IH.
Qed.

(** An object in a transcript is found: alone, in a code fence, or after prose that
    has no brace, whatever white space surrounds them; and only an object that some
    text of the transcript parses to is ever returned. *)
Theorem transcript_object_found a z b o :
  forallb is_whitespace a = true -> forallb is_whitespace z = true ->
  from_str (braced b) = Some (Object o) ->
  try_parse_structured_output (a ++ braced b ++ z) = Some (Object o)
  /\ (forall language, forallb is_ascii_alphabetic language = true ->
        try_parse_structured_output (a ++ fenced language b ++ z) = Some (Object o))
  /\ (forall c prose, is_whitespace c = false -> c <> backtick -> 123%N ∉ c :: prose ->
        try_json_parse_object (c :: prose ++ braced b) = None ->
        try_parse_structured_output (a ++ (c :: prose ++ braced b) ++ z) = Some (Object o))
  /\ (forall text v, try_parse_structured_output text = Some v ->
        exists o' t, v = Object o' /\ from_str t = Some v).
Proof.
  intros Ha Hz Ho. split_and!.
  - apply (try_parse_cleaned _ b); rewrite ?trim_pad, ?trim_braced by done; [|done|done].
    unfold strip_code_fences, strip_leading_fence. cbn [braced strip_prefix code_fence].
    exact (braced_no_fence b).
  - intros language Hl.
    assert (trim (fenced language b) = fenced language b) as Ht.
    { replace (fenced language b) with
        (backtick :: (([backtick; backtick] ++ language ++ newline ++ braced b ++ newline
                       ++ [backtick; backtick]) ++ [backtick]))
        by (unfold fenced; by rewrite <- !(app_assoc (A := char))).
      by apply trim_wrapped. }
    apply (try_parse_cleaned _ b); rewrite ?trim_pad, ?Ht by done; [by apply strip_fenced|done|done].
  - intros c prose Hc Hb Hprose Hnone. unfold try_parse_structured_output. rewrite trim_pad by done.
    assert (trim (c :: prose ++ braced b) = c :: prose ++ braced b) as Ht.
    { replace (c :: prose ++ braced b) with (c :: (prose ++ 123%N :: b) ++ [125%N])
        by (by rewrite <- app_assoc). by apply trim_wrapped. }
    assert (strip_code_fences (c :: prose ++ braced b) = c :: prose ++ braced b) as Hs.
    { unfold strip_code_fences, strip_leading_fence. cbn [code_fence]. 
      replace (strip_prefix code_fence (c :: prose ++ braced b)) with (@None str).
      2:{ change code_fence with (backtick :: [backtick; backtick]). cbn [strip_prefix].
          by rewrite (proj2 (N.eqb_neq backtick c)) by done. }
      unfold strip_trailing_fence. change code_fence with ([backtick; backtick] ++ [backtick]).
      replace (c :: prose ++ braced b) with ((c :: prose ++ 123%N :: b) ++ [125%N])
        by (cbn [app]; by rewrite <- app_assoc). by rewrite ends_with_last. }
    rewrite Ht, Hs, Ht, Hnone. cbn [is_empty].
    change (c :: prose ++ braced b) with ((c :: prose) ++ braced b).
    rewrite from_brace_prose, length_app by done.
    replace (Nat.ltb _ _) with true by (symmetry; apply Nat.ltb_lt; cbn; lia).
    unfold try_json_parse_object. by rewrite Ho.
  - intros text v Hv. cut (exists t, try_json_parse_object t = Some v).
    { intros (t & (o' & -> & Ht)%try_json_parse_object_is). by exists o', t. }
    revert Hv. unfold try_parse_structured_output. destruct (is_empty (trim text)); [done|].
    destruct (try_json_parse_object _) eqn:E1; [intros [= ->]; eauto|].
    destruct (from_brace _) as [region|]; [|done].
    destruct (Nat.ltb _ _); [destruct (try_json_parse_object region) eqn:E2; [intros [= ->]; eauto|]|];
      (destruct (contains _ region); [|done]);
      (destruct (jsonrepair region) as [repaired|]; [|done]); intros Hv; by exists repaired.
Qed.
End Transcript.

Lemma transcript_object_found_witness :
  let docs := table_json [(lit "{}", Object []); (lit "{a}", Object [(lit "a", Null)])] in
  let text := Build_StructuredText (fun _ => []) (fun _ => None) (fun _ => Ok (fun _ => [])) in
  @try_parse_structured_output docs text (lit " " ++ fenced (lit "json") (lit "a") ++ newline)
  = Some (Object [(lit "a", Null)]).
Proof.
  intros docs text.
  apply (proj1 (proj2 (@transcript_object_found docs text (lit " ") newline (lit "a")
                         [(lit "a", Null)] eq_refl eq_refl eq_refl))).
  reflexivity.
Defined.
