(* ===== verification/Provider.v ===== *)
(** * Providers

    The types of the crate [har-contract] that cross from the executor to an agent
    provider, and the registry of providers in [har-provider/src/lib.rs].

    The registry is an [IndexMap]: an association list in insertion order.  What the
    factory of a registration makes is a type of its own, [agent]; the handlers of
    native tools, which the executor never sets, are left out. *)

From S2P Require Import Prelude Float64 Json StdModel DagNode.

(** ** The contract ([har-contract/src/lib.rs]) *)

Record TokenUsage : Type := mk_TokenUsage {
  tok_input : N; tok_output : N; tok_total : option N; tok_cost : option f64;
}.

(** The fields of [MessageChunk::Result]. *)
Record ResultChunk : Type := mk_ResultChunk {
  rc_session_id : option str;
  rc_tokens : option TokenUsage;
  rc_structured_output : option value;
  rc_is_error : option bool;
  rc_error_subtype : option str;
  rc_errors : option (list str);
  rc_cost : option f64;
  rc_stop_reason : option str;
  rc_num_turns : option N;
  rc_model_usage : option (gmap str value);
}.

Inductive MessageChunk : Type :=
| Assistant (content : str) (flush : option bool)
| System (content : str)
| Thinking (content : str)
| ResultMsg (r : ResultChunk)
| RateLimit (rate_limit_info : gmap str value)
| Tool (tool_name : str) (tool_input : option value) (tool_call_id : option str)
| ToolResult (tool_name tool_output : str) (tool_call_id : option str)
| WorkflowDispatch (worker_conversation_id workflow_name : str).

Record SystemPromptPreset : Type := mk_SystemPromptPreset {
  sp_append : option str; exclude_dynamic_sections : option bool;
}.
Inductive SystemPromptInput : Type :=
| SP_Preset (p : SystemPromptPreset)
| SP_Multi (l : list str)
| SP_Single (s : str).

(** [OutputFormat]: its kind is always [json_schema]. *)
Record OutputFormat : Type := mk_OutputFormat { schema : object }.

Record NativeTool : Type := mk_NativeTool {
  tool_name_ : str; tool_description : str; input_schema : gmap str value;
}.

Record InlineAgentDefinition : Type := mk_InlineAgentDefinition {
  ia_description : str;
  ia_prompt : str;
  ia_model : option str;
  ia_tools : option (list str);
  ia_disallowed_tools : option (list str);
  ia_skills : option (list str);
  ia_max_turns : option N;
}.

Record NodeConfig : Type := mk_NodeConfig {
  nc_node_id : option str;
  nc_mcp : option str;
  nc_hooks : option value;
  nc_skills : option (list str);
  nc_agents : option (gmap str InlineAgentDefinition);
  nc_allowed_tools : option (list str);
  nc_denied_tools : option (list str);
  nc_effort : option str;
  nc_thinking : option value;
  nc_sandbox : option value;
  nc_betas : option (list str);
  nc_output_format : option (gmap str value);
  nc_max_budget_usd : option f64;
  nc_system_prompt : option SystemPromptInput;
  nc_fallback_model : option str;
  nc_idle_timeout : option N;
  nc_extra : gmap str value;
}.

Record SendQueryOptions : Type := mk_SendQueryOptions {
  so_model : option str;
  so_system_prompt : option SystemPromptInput;
  so_output_format : option OutputFormat;
  so_env : option (gmap str str);
  so_max_budget_usd : option f64;
  so_fallback_model : option str;
  so_fork_session : option bool;
  so_persist_session : option bool;
  so_native_tools : option (list NativeTool);
  so_node_config : option NodeConfig;
  so_assistant_config : option (gmap str value);
}.
(** [SendQueryOptions::default()]. *)
Definition default_options : SendQueryOptions :=
  mk_SendQueryOptions None None None None None None None None None None None.

Inductive StructuredOutputCapability : Type := Enforced | BestEffort | NoStructuredOutput.

#[export] Instance StructuredOutputCapability_eq_dec : EqDecision StructuredOutputCapability.
Proof. solve_decision. Defined.

Record ProviderCapabilities : Type := mk_ProviderCapabilities {
  cap_session_resume : bool;
  cap_mcp : bool;
  cap_hooks : bool;
  cap_skills : bool;
  cap_agents : bool;
  cap_tool_restrictions : bool;
  cap_structured_output : StructuredOutputCapability;
  cap_env_injection : bool;
  cap_cost_control : bool;
  cap_effort_control : bool;
  cap_thinking_control : bool;
  cap_fallback_model : bool;
  cap_sandbox : bool;
  cap_native_tools : bool;
}.

Record ProviderInfo : Type := mk_ProviderInfo {
  info_id : str; info_display_name : str; info_capabilities : ProviderCapabilities;
  info_built_in : bool;
}.

(** ** The capabilities of the bundled providers *)

Definition CLAUDE_CAPABILITIES : ProviderCapabilities :=
  mk_ProviderCapabilities true true true true true true Enforced true true true true true true true.
Definition CODEX_CAPABILITIES : ProviderCapabilities :=
  mk_ProviderCapabilities true true false true false false Enforced true false false false false
    false false.
Definition COPILOT_CAPABILITIES : ProviderCapabilities :=
  mk_ProviderCapabilities true true false true true true BestEffort true false true true false
    false false.
Definition PI_CAPABILITIES : ProviderCapabilities :=
  mk_ProviderCapabilities true false false true false true BestEffort true false true true false
    false true.
Definition OPENCODE_CAPABILITIES : ProviderCapabilities :=
  mk_ProviderCapabilities true true true true true true Enforced true false false false false
    false false.

(** ** The registry ([har-provider/src/lib.rs]) *)

Record UnknownProviderError : Type := mk_UnknownProviderError {
  requested_provider : str; registered_providers : list str;
}.
Definition UnknownProviderError_to_string (e : UnknownProviderError) : str :=
  lit "Unknown provider: '" ++ requested_provider e ++ lit "'. Available: "
  ++ join (lit ", ") (registered_providers e).

Section Registry.
Context {agent : Type}.

Record ProviderRegistration : Type := mk_ProviderRegistration {
  reg_id : str;
  reg_display_name : str;
  reg_factory : agent;
  reg_capabilities : ProviderCapabilities;
  reg_built_in : bool;
}.

(** The registrations, each under its own key, in insertion order. *)
Definition Registry : Type := list (str * ProviderRegistration).

Definition registry_get (id : str) (r : Registry) : option ProviderRegistration := assoc_get id r.
Definition contains_key (id : str) (r : Registry) : bool :=
  match registry_get id r with Some _ => true | None => false end.
Definition unknown_provider (id : str) (r : Registry) : UnknownProviderError :=
  mk_UnknownProviderError id (map fst r).

Definition register_provider (entry : ProviderRegistration) (r : Registry)
  : result str unit * Registry :=
  if contains_key (reg_id entry) r
  then (Err (lit "Provider '" ++ reg_id entry ++ lit "' is already registered"), r)
  else (Ok tt, r ++ [(reg_id entry, entry)]).

Definition get_agent_provider (id : str) (r : Registry) : result UnknownProviderError agent :=
  match registry_get id r with
  | Some entry => Ok (reg_factory entry)
  | None => Err (unknown_provider id r)
  end.
Definition provider_info (entry : ProviderRegistration) : ProviderInfo :=
  mk_ProviderInfo (reg_id entry) (reg_display_name entry) (reg_capabilities entry)
    (reg_built_in entry).
Definition get_registration_info (id : str) (r : Registry)
  : result UnknownProviderError ProviderInfo :=
  match registry_get id r with
  | Some entry => Ok (provider_info entry)
  | None => Err (unknown_provider id r)
  end.
Definition get_provider_capabilities (id : str) (r : Registry)
  : result UnknownProviderError ProviderCapabilities :=
  match registry_get id r with
  | Some entry => Ok (reg_capabilities entry)
  | None => Err (unknown_provider id r)
  end.
Definition get_registered_providers (r : Registry) : list ProviderInfo :=
  map (fun e => provider_info (snd e)) r.
Definition get_provider_info_list (r : Registry) : list ProviderInfo := get_registered_providers r.
Definition is_registered_provider (id : str) (r : Registry) : bool := contains_key id r.

(** ** Lookups and registrations *)

(** Every key is the identifier of its registration, and occurs once. *)
Record registry_ok (r : Registry) : Prop := {
  ok_keys : Forall (fun e => fst e = reg_id (snd e)) r;
  ok_distinct : NoDup (map fst r);
}.

Lemma contains_key_true id r : contains_key id r = true <-> id ∈ map fst r.
Proof.
  unfold contains_key, registry_get. induction r as [|[k e] r IH]; simpl.
  - split; [done|]. intros H. by apply elem_of_nil in H.
  - rewrite elem_of_cons. case_bool_decide as Hk; [naive_solver|].
    rewrite IH. naive_solver.
Qed.
Lemma contains_key_false id r : contains_key id r = false <-> id ∉ map fst r.
Proof. rewrite <- contains_key_true. by destruct (contains_key id r). Qed.

Lemma registry_get_app id r s :
  registry_get id (r ++ s) =
    match registry_get id r with Some e => Some e | None => registry_get id s end.
Proof.
  unfold registry_get. induction r as [|[k e] r IH]; simpl; [done|]. by case_bool_decide.
Qed.

Lemma push_ok e r : registry_ok r -> contains_key (reg_id e) r = false -> registry_ok (r ++ [(reg_id e, e)]).
Proof.
  intros [Hk Hd] Hn. apply contains_key_false in Hn. split.
  - apply Forall_app. split; [done|]. by constructor.
  - rewrite map_app. apply NoDup_app. split; [done|]. split; [|apply NoDup_singleton].
    intros x Hx Hx'. apply list_elem_of_singleton in Hx'. simpl in Hx'. by subst.
Qed.

(** One more registration: what it keeps and what it adds. *)
Definition extends (id : str) (caps : ProviderCapabilities) (r r' : Registry) : Prop :=
  (registry_ok r -> registry_ok r')
  /\ (forall k e, registry_get k r = Some e -> registry_get k r' = Some e)
  /\ (registry_get id r = None ->
      exists e, registry_get id r' = Some e /\ reg_capabilities e = caps).

Lemma push_extends e r :
  contains_key (reg_id e) r = false ->
  extends (reg_id e) (reg_capabilities e) r (r ++ [(reg_id e, e)]).
Proof.
  intros Hn. split_and!.
  - intros Hr. by apply push_ok.
  - intros k e' Hk. by rewrite registry_get_app, Hk.
  - intros Hg. exists e. rewrite registry_get_app, Hg. unfold registry_get. simpl.
    by rewrite bool_decide_true.
Qed.
Lemma extends_refl id caps r : contains_key id r = true -> extends id caps r r.
Proof.
  intros Hc. split_and!; [done|done|]. intros Hg. unfold contains_key in Hc. by rewrite Hg in Hc.
Qed.

(** ** The bundled providers *)

(** What the factory of each bundled provider makes. *)
Variable factory : str -> agent.

Definition insert_builtin (id display : string) (caps : ProviderCapabilities) (r : Registry)
  : Registry :=
  if contains_key (lit id) r then r
  else r ++ [(lit id, mk_ProviderRegistration (lit id) (lit display) (factory (lit id)) caps true)].
Definition register_builtin_providers (r : Registry) : Registry :=
  insert_builtin "codex" "Codex (OpenAI)" CODEX_CAPABILITIES
    (insert_builtin "claude" "Claude (Anthropic)" CLAUDE_CAPABILITIES r).

(** The body of the three functions that register a community provider. *)
Definition register_community (id display : string) (caps : ProviderCapabilities) (r : Registry)
  : Registry :=
  if is_registered_provider (lit id) r then r
  else snd (register_provider
              (mk_ProviderRegistration (lit id) (lit display) (factory (lit id)) caps false) r).
Definition register_copilot_provider : Registry -> Registry :=
  register_community "copilot" "Copilot (GitHub)" COPILOT_CAPABILITIES.
Definition register_opencode_provider : Registry -> Registry :=
  register_community "opencode" "OpenCode (community)" OPENCODE_CAPABILITIES.
Definition register_pi_provider : Registry -> Registry :=
  register_community "pi" "Pi (community)" PI_CAPABILITIES.
Definition register_community_providers (r : Registry) : Registry :=
  register_copilot_provider (register_pi_provider (register_opencode_provider r)).

Lemma insert_builtin_extends id display caps r :
  extends (lit id) caps r (insert_builtin id display caps r).
Proof.
  unfold insert_builtin. destruct (contains_key (lit id) r) eqn:Hc; [by apply extends_refl|].
  apply (push_extends (mk_ProviderRegistration (lit id) _ _ caps _)), Hc.
Qed.
Lemma register_community_extends id display caps r :
  extends (lit id) caps r (register_community id display caps r).
Proof.
  unfold register_community, is_registered_provider, register_provider. cbn [reg_id].
  destruct (contains_key (lit id) r) eqn:Hc; [by apply extends_refl|].
  apply (push_extends (mk_ProviderRegistration (lit id) _ _ caps _)), Hc.
Qed.

Lemma extends_registered id caps r r' k :
  extends id caps r r' -> is_registered_provider k r = true -> is_registered_provider k r' = true.
Proof.
  unfold is_registered_provider, contains_key. intros (_ & Hkeep & _) Hk.
  destruct (registry_get k r) as [e|] eqn:He; [|done]. by rewrite (Hkeep _ _ He).
Qed.
Lemma extends_has id caps r r' : extends id caps r r' -> is_registered_provider id r' = true.
Proof.
  unfold is_registered_provider, contains_key. intros (_ & Hkeep & Hnew).
  destruct (registry_get id r) as [e|] eqn:He; [by rewrite (Hkeep _ _ He)|].
  by destruct (Hnew eq_refl) as (e & -> & _).
Qed.

Definition bundled_ids : list str :=
  [lit "claude"; lit "codex"; lit "opencode"; lit "pi"; lit "copilot"].
Definition register_bundled (r : Registry) : Registry :=
  register_community_providers (register_builtin_providers r).

(** The chain of the five registrations. *)
Lemma bundled_chain r :
  exists r1 r2 r3 r4,
    extends (lit "claude") CLAUDE_CAPABILITIES r r1
    /\ extends (lit "codex") CODEX_CAPABILITIES r1 r2
    /\ extends (lit "opencode") OPENCODE_CAPABILITIES r2 r3
    /\ extends (lit "pi") PI_CAPABILITIES r3 r4
    /\ extends (lit "copilot") COPILOT_CAPABILITIES r4 (register_bundled r).
Proof.
  do 4 eexists. split_and!;
    [apply insert_builtin_extends|apply insert_builtin_extends|apply register_community_extends..].
Qed.

Lemma bundled_registered r : Forall (fun id => is_registered_provider id (register_bundled r) = true) bundled_ids.
Proof.
  destruct (bundled_chain r) as (r1 & r2 & r3 & r4 & H1 & H2 & H3 & H4 & H5).
  pose proof (fun k => extends_registered _ _ _ _ k H2) as T2.
  pose proof (fun k => extends_registered _ _ _ _ k H3) as T3.
  pose proof (fun k => extends_registered _ _ _ _ k H4) as T4.
  pose proof (fun k => extends_registered _ _ _ _ k H5) as T5.
  apply extends_has in H1, H2, H3, H4, H5.
  unfold bundled_ids. rewrite !Forall_cons. split_and!; auto.
Qed.

Lemma register_bundled_again r :
  Forall (fun id => is_registered_provider id r = true) bundled_ids -> register_bundled r = r.
Proof.
  unfold bundled_ids. rewrite !Forall_cons. intros (H1 & H2 & H3 & H4 & H5 & _).
  unfold register_bundled, register_community_providers, register_copilot_provider,
    register_pi_provider, register_opencode_provider, register_builtin_providers,
    register_community, insert_builtin, is_registered_provider in *.
  by rewrite H1, H2, H3, H4, H5.
Qed.

Lemma bundled_keeps r k e :
  registry_get k r = Some e -> registry_get k (register_bundled r) = Some e.
Proof.
  destruct (bundled_chain r) as (r1 & r2 & r3 & r4 & (_ & H1 & _) & (_ & H2 & _) & (_ & H3 & _)
    & (_ & H4 & _) &
    (_ & H5 & _)). eauto 8.
Qed.
Lemma bundled_ok r : registry_ok r -> registry_ok (register_bundled r).
Proof.
  destruct (bundled_chain r) as (r1 & r2 & r3 & r4 & (H1 & _) & (H2 & _) & (H3 & _)
    & (H4 & _) & (H5 & _)). eauto 8.
Qed.
End Registry.

Arguments ProviderRegistration : clear implicits.
Arguments Registry : clear implicits.

(** Registering the bundled providers keeps every registration there was, makes
    all five of them known under unique keys, and does nothing the second time; a
    registration by hand of a key that is taken is refused and changes nothing. *)
Theorem bundled_registration {agent : Type} (factory : str -> agent) (r : Registry agent)
    (entry : ProviderRegistration agent) :
  registry_ok r ->
  let r' := register_bundled factory r in
  registry_ok r'
  /\ (forall k e, registry_get k r = Some e -> registry_get k r' = Some e)
  /\ Forall (fun id => is_registered_provider id r' = true) bundled_ids
  /\ register_bundled factory r' = r'
  /\ (if is_registered_provider (reg_id entry) r'
      then exists msg, register_provider entry r' = (Err msg, r')
      else exists r'', register_provider entry r' = (Ok tt, r'') /\ registry_ok r''
                       /\ registry_get (reg_id entry) r'' = Some entry).
Proof.
  intros Hok r'. split_and!.
  - by apply bundled_ok.
  - intros k e. apply bundled_keeps.
  - apply bundled_registered.
  - apply register_bundled_again, bundled_registered.
  - unfold register_provider, is_registered_provider.
    destruct (contains_key (reg_id entry) r') eqn:Hc; [by eexists|].
    eexists. split; [done|]. split; [by apply push_ok; [apply bundled_ok|]|].
    unfold contains_key in Hc. rewrite registry_get_app.
    destruct (registry_get (reg_id entry) r'); [done|].
    unfold registry_get. simpl. by rewrite bool_decide_true.
Qed.

Lemma bundled_registration_witness :
  map info_id (get_registered_providers (register_bundled (fun id => id) [])) = bundled_ids
  /\ registry_ok (register_bundled (fun id => id) []).
Proof.
  split; [by_compute|].
  assert (Hok : registry_ok (@nil (str * ProviderRegistration str))) by (split; constructor).
  exact (proj1 (bundled_registration (fun id => id) []
           (mk_ProviderRegistration (lit "claude") [] [] CLAUDE_CAPABILITIES true) Hok)).
Defined.
