(* ===== verification/EnvFiles.v ===== *)
(** * Environment files

    [strip_cwd_env.rs] and [env_loader.rs] of [har-paths]: what the program does to the
    variables of its own process before anything else reads them.  It first removes
    what the [.env] files of the working directory may have brought in, and the marks
    of a Claude Code session around it; then it sets what its own two files say.

    The variables are a map; a value, or a name, need not be Unicode.  A function is a
    computation on them, which returns, ends the process, or panics.  The crate
    [dotenvy] is the class [Dotenv]: a file is a finite sequence of lines, each read
    when it is asked for, and its value may refer to the variables of that moment. *)

From S2P Require Import Prelude StdModel Paths.

(** ** The variables of the process *)

Inductive OsText : Type :=
| Utf8 (s : str)
| NotUtf8.

Abbreviation vars := (gmap str OsText).
Record Env : Type := mk_Env {
  env_vars : vars;
  (** Some variable has a name that is not Unicode. *)
  odd_name : bool;
  stderr : list str;
}.

Inductive ends (A : Type) : Type :=
| Goes (a : A) (e : Env)
| Exits (code : Z) (e : Env)
| Panics.
Arguments Goes {A} a e.
Arguments Exits {A} code e.
Arguments Panics {A}.

Definition Boot (A : Type) : Type := Env -> ends A.
#[export] Instance Boot_ret : MRet Boot := fun A a e => Goes a e.
#[export] Instance Boot_bind : MBind Boot := fun A B f m e =>
  match m e with
  | Goes a e' => f a e'
  | Exits code e' => Exits code e'
  | Panics => Panics
  end.

Definition utf8 (t : OsText) : option str := match t with Utf8 s => Some s | NotUtf8 => None end.
Definition current_vars : Boot vars := fun e => Goes (env_vars e) e.
(** [std::env::var(k).ok()]. *)
Definition var (k : str) : Boot (option str) := fun e => Goes (env_vars e !! k ≫= utf8) e.
Definition set_var (k v : str) : Boot unit := fun e =>
  if settable_name k && settable_value v then Goes tt (mk_Env (<[k := Utf8 v]> (env_vars e)) (odd_name e) (stderr e))
  else Panics.
Definition remove_var (k : str) : Boot unit := fun e =>
  if settable_name k then Goes tt (mk_Env (delete k (env_vars e)) (odd_name e) (stderr e)) else Panics.
(** The names of [std::env::vars], which panics at a text that is not Unicode. *)
Definition var_names `{HashMapOrder} : Boot (list str) := fun e =>
  if odd_name e then Panics
  else if forallb (fun kv => match kv.2 with Utf8 _ => true | NotUtf8 => false end) (hm_iter (env_vars e))
  then Goes (map fst (hm_iter (env_vars e))) e
  else Panics.
Definition eprint (s : str) : Boot unit := fun e =>
  Goes tt (mk_Env (env_vars e) (odd_name e) (stderr e ++ [s])).
Definition eprintln (s : str) : Boot unit := eprint (s ++ [10%N]).
Definition exit_process {A} (code : Z) : Boot A := fun e => Exits code e.

(** ** [.env] files *)

Inductive DotenvError : Type :=
| DotenvIo (error : io.Error)
| DotenvOther (text : str).

Inductive EnvLines : Type :=
| NoMore
| EnvLine (read : vars -> result DotenvError (str * str)) (rest : vars -> EnvLines).

(** A path is looked at, and its file opened, on behalf of one of the scopes, since
    the two may name the same file, which may change in between. *)
Inductive Scope : Type := UserScope | RepoScope | CwdScope.

Class Dotenv := {
  file_exists : Scope -> str -> bool;
  from_path_iter : Scope -> str -> result DotenvError EnvLines;
  dotenv_display : DotenvError -> str;
}.

(** What [directories] and the system know beside the variables. *)
Class HostDirs := {
  dirs_home : vars -> option str;
  host_exe : option str;
}.
Definition environment `{HostDirs} (m : vars) : ProcessEnvironment :=
  {| env_var k := m !! k ≫= utf8; base_dirs_home := dirs_home m; current_exe := host_exe |}.

Definition is_missing (e : DotenvError) : bool :=
  match e with DotenvIo err => io.is_not_found err | DotenvOther _ => false end.

(** ** Stripping: [strip_cwd_env.rs] *)

Definition BUN_AUTO_LOADED_ENV_FILES : list str :=
  [lit ".env"; lit ".env.local"; lit ".env.development"; lit ".env.production"].
Definition CLAUDE_CODE_AUTH_VARS : list str :=
  [lit "CLAUDE_CODE_OAUTH_TOKEN"; lit "CLAUDE_CODE_USE_BEDROCK"; lit "CLAUDE_CODE_USE_VERTEX"].
Definition NESTED_CLAUDE_WARNING : str :=
  lit "⚠  Detected CLAUDECODE=1 — running inside a Claude Code session." ++ [10%N]
  ++ lit "   If workflows hang silently, this is a known class of issue." ++ [10%N]
  ++ lit "   Workaround: run `archon serve` from a regular shell." ++ [10%N]
  ++ lit "   Suppress: set ARCHON_SUPPRESS_NESTED_CLAUDE_WARNING=1" ++ [10%N]
  ++ lit "   Details: https://github.com/coleam00/Archon/issues/1067" ++ [10%N].

Section Boot.
Context `{HashMapOrder} `{UnicodeCase} {DOT : Dotenv} {DIRS : HostDirs}.

Inductive ParseResult : Type :=
| Keys (keys : list str)
| ParseNotFound
| KeysError (msg : str).

Fixpoint line_keys (ls : EnvLines) (m : vars) : result DotenvError (list str) :=
  match ls with
  | NoMore => Ok []
  | EnvLine read rest =>
      match read m with
      | Ok (k, _) => keys ← line_keys (rest m) m; Ok (k :: keys)
      | Err e => Err e
      end
  end.
Definition parse_env_file_keys (path : str) (m : vars) : ParseResult :=
  match from_path_iter CwdScope path with
  | Ok ls =>
      match line_keys ls m with
      | Ok keys => Keys keys
      | Err e => KeysError (dotenv_display e)
      end
  | Err e => if is_missing e then ParseNotFound else KeysError (dotenv_display e)
  end.

(** The first pass over one file: the keys and the files so far. *)
Definition strip_file (cwd : str) (acc : gset str * list str) (filename : str)
    : Boot (gset str * list str) := fun e =>
  let '(cwd_keys, stripped_files) := acc in
  let filepath := path_join cwd filename in
  match parse_env_file_keys filepath (env_vars e) with
  | Keys keys =>
      if is_empty keys then Goes acc e
      else Goes (cwd_keys ∪ list_to_set keys, stripped_files ++ [filename]) e
  | ParseNotFound => Goes acc e
  | KeysError msg =>
      (_ ← eprintln (lit "[archon] Warning: could not parse " ++ filepath
                     ++ lit " for CWD env stripping: " ++ msg);
       mret acc) e
  end.
Fixpoint strip_files (cwd : str) (acc : gset str * list str) (files : list str)
    : Boot (gset str * list str) :=
  match files with
  | [] => mret acc
  | f :: files => acc ← strip_file cwd acc f; strip_files cwd acc files
  end.
Fixpoint remove_vars (keys : list str) : Boot unit :=
  match keys with
  | [] => mret tt
  | k :: keys => _ ← remove_var k; remove_vars keys
  end.

Definition session_mark (k : str) : bool :=
  starts_with (lit "CLAUDE_CODE_") k && negb (bool_decide (k ∈ CLAUDE_CODE_AUTH_VARS)).

(** The second pass: the marks of a session around, and the settings of debuggers. *)
Definition strip_session : Boot unit :=
  claudecode ← var (lit "CLAUDECODE");
  suppress ← var (lit "ARCHON_SUPPRESS_NESTED_CLAUDE_WARNING");
  _ ← (if bool_decide (claudecode = Some (lit "1")) && bool_decide (suppress = None)
       then eprint NESTED_CLAUDE_WARNING else mret tt);
  _ ← (if bool_decide (claudecode = None) then mret tt else remove_var (lit "CLAUDECODE"));
  names ← var_names;
  _ ← remove_vars (List.filter session_mark names);
  _ ← remove_var (lit "NODE_OPTIONS");
  remove_var (lit "VSCODE_INSPECTOR_OPTIONS").

Definition strip_cwd_env (cwd : str) : Boot unit :=
  acc ← strip_files cwd (∅, []) BUN_AUTO_LOADED_ENV_FILES;
  let '(cwd_keys, stripped_files) := acc in
  _ ← remove_vars (elements cwd_keys);
  _ ← (if bool_decide (cwd_keys = ∅) then mret tt
       else eprintln (lit "[archon] stripped " ++ show_nat (size cwd_keys) ++ lit " keys from "
                      ++ cwd ++ lit " (" ++ join (lit ", ") stripped_files
                      ++ lit ") to prevent target repo env from leaking into Archon processes"));
  strip_session.

(** The working directory when there is one, else [.]. *)
Definition strip_cwd_env_boot (current_dir : result io.Error str) : Boot unit :=
  strip_cwd_env (unwrap_or current_dir (lit ".")).

(** ** Loading: [env_loader.rs] *)

Definition is_verbose_boot : Boot bool :=
  verbose ← var (lit "ARCHON_VERBOSE_BOOT");
  if bool_decide (verbose = Some (lit "1")) then mret true
  else
    level ← var (lit "LOG_LEVEL");
    let level := to_lowercase (default [] level) in
    mret (str_eqb level (lit "debug") || str_eqb level (lit "trace")).

Definition home_dir_string (m : vars) : str :=
  match dirs_home m with
  | Some home => home
  | None => default [] (m !! lit "HOME" ≫= utf8)
  end.
Definition display_path (m : vars) (p : str) : str :=
  let home := home_dir_string m in
  if str_eqb p home then lit "~"
  else if starts_with (home ++ lit "/") p || starts_with (home ++ [backslash]) p
  then lit "~" ++ drop (length home) p
  else p.

Inductive EnvLoadResult : Type :=
| Loaded (count : nat)
| LoadNotFound
| LoadParseError (msg : str).

Fixpoint load_lines (ls : EnvLines) (count : nat) : Boot EnvLoadResult := fun e =>
  match ls with
  | NoMore => Goes (Loaded count) e
  | EnvLine read rest =>
      match read (env_vars e) with
      | Ok (k, v) =>
          match set_var k v e with
          | Goes _ e' => load_lines (rest (env_vars e)) (S count) e'
          | Exits code e' => Exits code e'
          | Panics => Panics
          end
      | Err err => Goes (LoadParseError (dotenv_display err)) e
      end
  end.
Definition load_env_file_override (scope : Scope) (path : str) : Boot EnvLoadResult :=
  match from_path_iter scope path with
  | Ok ls => load_lines ls 0
  | Err err => mret (if is_missing err then LoadNotFound else LoadParseError (dotenv_display err))
  end.

(** What [load_archon_env] does for each of its two files. *)
Definition load_scope (scope : Scope) (path note : str) : Boot unit :=
  if file_exists scope path then
    loaded ← load_env_file_override scope path;
    match loaded with
    | Loaded count =>
        if Nat.ltb 0 count then
          verbose ← is_verbose_boot;
          if (verbose : bool) then
            m ← current_vars;
            eprintln (lit "[archon] loaded " ++ show_nat count ++ lit " keys from "
                      ++ display_path m path ++ note)
          else mret tt
        else mret tt
    | LoadNotFound => mret tt
    | LoadParseError msg =>
        _ ← eprintln (lit "Error loading .env from " ++ path ++ lit ": " ++ msg);
        _ ← eprintln (lit "Hint: Check for syntax errors in your .env file.");
        exit_process 1
    end
  else mret tt.

Definition load_archon_env (cwd : str) : Boot unit := fun e =>
  match get_archon_env_path (ENV := environment (env_vars e)) with
  | Err err =>
      (_ ← eprintln (lit "Error resolving archon home: " ++ ArchonPathError_display err);
       exit_process 1) e
  | Ok home_path =>
      (_ ← load_scope UserScope home_path [];
       load_scope RepoScope (get_repo_archon_env_path cwd)
         (lit " (repo scope, overrides user scope)")) e
  end.

(** ** What stripping does *)

Definition file_keys (cwd : str) (m : vars) (f : str) : gset str :=
  match parse_env_file_keys (path_join cwd f) m with Keys ks => list_to_set ks | _ => ∅ end.
(** The keys of the files of the working directory that can be read to their end. *)
Definition cwd_env_keys (cwd : str) (m : vars) : gset str :=
  ⋃ map (file_keys cwd m) BUN_AUTO_LOADED_ENV_FILES.
(** What is removed: those keys, the marks of a session other than the tokens, and the
    settings of debuggers. *)
Definition stripped (keys : gset str) (k : str) : Prop :=
  k ∈ keys \/ k = lit "CLAUDECODE"
  \/ (starts_with (lit "CLAUDE_CODE_") k = true /\ k ∉ CLAUDE_CODE_AUTH_VARS)
  \/ k = lit "NODE_OPTIONS" \/ k = lit "VSCODE_INSPECTOR_OPTIONS".
#[export] Instance stripped_dec keys k : Decision (stripped keys k).
Proof. apply _. Defined.

Lemma stripped_mark (keys : gset str) (k : str) :
  stripped keys k <-> k ∈ keys \/ k = lit "CLAUDECODE" \/ session_mark k = true
    \/ k = lit "NODE_OPTIONS" \/ k = lit "VSCODE_INSPECTOR_OPTIONS".
Proof.
  unfold stripped, session_mark. rewrite andb_true_iff, negb_true_iff, bool_decide_eq_false. reflexivity.
Qed.

(** The system keeps a variable as [name=value]: a name holds no NUL, and no [=] after
    its first character. *)
Definition os_name (k : str) : Prop :=
  match k with
  | [] => False
  | c :: k' => c ≠ 0%N /\ Forall (fun c => c ≠ 0 /\ c ≠ 61)%N k'
  end.
#[export] Instance os_name_dec k : Decision (os_name k).
Proof. destruct k; apply _. Defined.
Definition os_names (m : vars) : Prop := forall k, is_Some (m !! k) -> os_name k.
(** The names to remove can be removed, and what is left can be listed. *)
Definition listable (keys : gset str) (e : Env) : Prop :=
  set_Forall (fun k => settable_name k = true) keys /\ odd_name e = false
  /\ forall k, k ∉ keys -> env_vars e !! k ≠ Some NotUtf8.
#[export] Instance OsText_eq_dec : EqDecision OsText.
Proof. solve_decision. Defined.
#[export] Instance listable_dec keys e : Decision (listable keys e).
Proof.
  refine (cast_if (decide (set_Forall (fun k => settable_name k = true) keys /\ odd_name e = false
    /\ map_Forall (fun k t => k ∉ keys -> t ≠ NotUtf8) (env_vars e)))).
  - unfold listable, map_Forall in *. naive_solver.
  - intros (Hs & Ho & Hu). apply n. split_and!; [done|done|]. intros k t Hk Hin ->. by apply (Hu k).
Defined.
Definition is_note (s : str) : Prop := starts_with (lit "[archon] ") s = true.

Lemma settable_os_name (k : str) : os_name k -> starts_with (lit "CLAUDE_CODE_") k = true -> settable_name k = true.
Proof.
  destruct k as [|c k']; [done|]. intros [Hc Hk] Hs. unfold settable_name. cbn [is_empty negb forallb andb].
  assert (c = 67%N) as ->.
  { revert Hs. change (lit "CLAUDE_CODE_") with (67%N :: lit "LAUDE_CODE_").
    unfold starts_with. cbn [strip_prefix]. by destruct (N.eqb_spec 67 c). }
  apply forallb_forall. intros x Hx. apply list_elem_of_In in Hx.
  rewrite Forall_forall in Hk. destruct (Hk _ Hx) as [H0' H1].
  apply N.eqb_neq in H0', H1. by rewrite H0', H1.
Qed.

Lemma remove_vars_spec (ks : list str) (e : Env) :
  remove_vars ks e =
    if forallb settable_name ks
    then Goes tt (mk_Env (fold_left (fun m k => delete k m) ks (env_vars e)) (odd_name e) (stderr e))
    else Panics.
Proof.
  revert e. induction ks as [|k ks IH]; intros e; [by destruct e|].
  cbn [remove_vars forallb fold_left]. unfold mbind, Boot_bind, remove_var at 1.
  destruct (settable_name k); [|done]. cbn [andb]. rewrite IH. reflexivity.
Qed.

Lemma lookup_removed (ks : list str) (m : vars) (k : str) :
  fold_left (fun m k => delete k m) ks m !! k = if decide (k ∈ ks) then None else m !! k.
Proof.
  revert m. induction ks as [|a ks IH]; intros m; [by rewrite decide_False by set_solver|].
  cbn [fold_left]. rewrite IH. destruct (decide (k = a)) as [->|Hn].
  - rewrite lookup_delete_eq, (decide_True (P := a ∈ a :: ks)) by set_solver. by case_decide.
  - rewrite lookup_delete_ne by done. do 2 case_decide; set_solver.
Qed.

Lemma note_app (p s : str) : is_note p -> is_note (p ++ s).
Proof.
  unfold is_note. rewrite !starts_with_spec. intros [r ->]. exists (r ++ s). by rewrite app_assoc.
Qed.

Lemma strip_file_spec (cwd : str) (acc : gset str * list str) (f : str) (e : Env) :
  exists files notes, strip_file cwd acc f e
    = Goes (acc.1 ∪ file_keys cwd (env_vars e) f, files)
           (mk_Env (env_vars e) (odd_name e) (stderr e ++ notes))
  /\ Forall is_note notes.
Proof.
  destruct acc as [ks fs], e as [m o err]. unfold strip_file, file_keys. cbn [env_vars odd_name stderr fst].
  destruct (parse_env_file_keys _ m) as [l| |msg].
  - destruct l as [|k l]; cbn [is_empty].
    + exists fs, []. rewrite app_nil_r, list_to_set_nil, union_empty_r_L. by split.
    + exists (fs ++ [f]), []. rewrite app_nil_r. by split.
  - exists fs, []. rewrite app_nil_r, union_empty_r_L. by split.
  - eexists fs, [_]. rewrite union_empty_r_L. split; [reflexivity|].
    constructor; [|done]. rewrite <- !app_assoc. apply note_app. by_compute.
Qed.

Lemma strip_files_spec (cwd : str) (fs : list str) (acc : gset str * list str) (e : Env) :
  exists files notes, strip_files cwd acc fs e
    = Goes (acc.1 ∪ ⋃ map (file_keys cwd (env_vars e)) fs, files)
           (mk_Env (env_vars e) (odd_name e) (stderr e ++ notes))
  /\ Forall is_note notes.
Proof.
  revert acc e. induction fs as [|f fs IH]; intros acc e; cbn [strip_files map union_list fold_right].
  - exists acc.2, []. rewrite app_nil_r, union_empty_r_L. split; [by destruct acc, e|done].
  - destruct (strip_file_spec cwd acc f e) as (fl & n1 & He & Hn1).
    unfold mbind, Boot_bind. rewrite He.
    destruct (IH (acc.1 ∪ file_keys cwd (env_vars e) f, fl)
                 (mk_Env (env_vars e) (odd_name e) (stderr e ++ n1))) as (fl' & n2 & -> & Hn2).
    exists fl', (n1 ++ n2). cbn [fst env_vars odd_name stderr].
    rewrite (app_assoc (stderr e)), (assoc_L (∪)). split; [done|]. by apply Forall_app.
Qed.

(** What the second pass prints, and what it removes. *)
Definition nested_warning (m : vars) : list str :=
  if bool_decide (m !! lit "CLAUDECODE" ≫= utf8 = Some (lit "1"))
     && bool_decide (m !! lit "ARCHON_SUPPRESS_NESTED_CLAUDE_WARNING" ≫= utf8 = None)
  then [NESTED_CLAUDE_WARNING] else [].

Lemma var_names_spec (e : Env) :
  (odd_name e = false /\ (forall k, env_vars e !! k ≠ Some NotUtf8) ->
   var_names e = Goes (map fst (hm_iter (env_vars e))) e)
  /\ (~ (odd_name e = false /\ forall k, env_vars e !! k ≠ Some NotUtf8) -> var_names e = Panics).
Proof.
  unfold var_names. destruct (odd_name e); [split; [by intros []|done]|].
  destruct (forallb _ _) eqn:Hf.
  - split; [done|]. intros Hn. exfalso. apply Hn. split; [done|]. intros k Hk.
    apply hm_iter_elem in Hk. rewrite forallb_forall in Hf. apply list_elem_of_In, Hf in Hk. done.
  - split; [|done]. intros [_ Hu]. exfalso. apply not_true_iff_false in Hf. apply Hf.
    apply forallb_forall. intros [k v] Hk. apply list_elem_of_In, hm_iter_elem in Hk. cbn [snd].
    destruct v; [done|]. by destruct (Hu k).
Qed.

Lemma remove_var_ok (k : str) (e : Env) :
  settable_name k = true ->
  remove_var k e = Goes tt (mk_Env (delete k (env_vars e)) (odd_name e) (stderr e)).
Proof. intros Hk. unfold remove_var. by rewrite Hk. Qed.

Lemma marks_settable (m : vars) :
  os_names m -> forallb settable_name (List.filter session_mark (map fst (hm_iter m))) = true.
Proof.
  intros Hos. apply forallb_forall. intros k Hk. apply filter_In in Hk as [Hk Hs].
  apply settable_os_name.
  - apply Hos. apply in_map_iff in Hk as ([k' v] & <- & Hk). exists v.
    by apply hm_iter_elem, list_elem_of_In.
  - unfold session_mark in Hs. by apply andb_true_iff in Hs as [].
Qed.

Lemma mark_listed (m : vars) (k : str) :
  is_Some (m !! k) -> (k ∈ List.filter session_mark (map fst (hm_iter m)) <-> session_mark k = true).
Proof.
  intros [v Hv]. rewrite list_elem_of_In, filter_In. split; [by intros []|]. intros Hs. split; [|done].
  apply in_map_iff. exists (k, v). split; [done|]. by apply list_elem_of_In, hm_iter_elem.
Qed.


Definition without_claudecode (m : vars) : vars :=
  match m !! lit "CLAUDECODE" ≫= utf8 with None => m | Some _ => delete (lit "CLAUDECODE") m end.

Lemma bind_goes {A B} (m : Boot A) (f : A -> Boot B) (e : Env) (a : A) (e' : Env) :
  m e = Goes a e' -> (m ≫= f) e = f a e'.
Proof. intros Hm. unfold mbind, Boot_bind. by rewrite Hm. Qed.

Lemma print_nested (m : vars) (o : bool) (s : list str) :
  (if bool_decide (m !! lit "CLAUDECODE" ≫= utf8 = Some (lit "1"))
      && bool_decide (m !! lit "ARCHON_SUPPRESS_NESTED_CLAUDE_WARNING" ≫= utf8 = None)
   then eprint NESTED_CLAUDE_WARNING else mret tt) (mk_Env m o s)
  = Goes tt (mk_Env m o (s ++ nested_warning m)).
Proof. unfold nested_warning. destruct (_ && _); [reflexivity|]. rewrite app_nil_r. reflexivity. Qed.

Lemma remove_claudecode (m : vars) (o : bool) (s : list str) :
  (if bool_decide (m !! lit "CLAUDECODE" ≫= utf8 = None) then mret tt
   else remove_var (lit "CLAUDECODE")) (mk_Env m o s)
  = Goes tt (mk_Env (without_claudecode m) o s).
Proof.
  unfold without_claudecode. destruct (m !! lit "CLAUDECODE" ≫= utf8) as [c|].
  - rewrite bool_decide_eq_false_2 by done. rewrite remove_var_ok by by_compute. reflexivity.
  - rewrite bool_decide_eq_true_2 by done. reflexivity.
Qed.

(** The second pass, up to the listing of the variables. *)
Lemma strip_session_steps (m : vars) (o : bool) (s : list str) :
  strip_session (mk_Env m o s) =
    (names ← var_names; _ ← remove_vars (List.filter session_mark names);
     _ ← remove_var (lit "NODE_OPTIONS"); remove_var (lit "VSCODE_INSPECTOR_OPTIONS"))
    (mk_Env (without_claudecode m) o (s ++ nested_warning m)).
Proof.
  unfold strip_session.
  rewrite (bind_goes (var _) _ _ _ _ eq_refl), (bind_goes (var _) _ _ _ _ eq_refl).
  rewrite (bind_goes _ _ _ _ _ (print_nested m o s)).
  by rewrite (bind_goes _ _ _ _ _ (remove_claudecode m o _)).
Qed.

Lemma without_claudecode_utf8 (m : vars) :
  (forall k, without_claudecode m !! k ≠ Some NotUtf8) <-> (forall k, m !! k ≠ Some NotUtf8).
Proof.
  unfold without_claudecode. destruct (m !! lit "CLAUDECODE" ≫= utf8) as [s|] eqn:Hc; [|done].
  apply bind_Some in Hc as (t & Ht & Hs). split; intros Hu k Hk.
  - destruct (decide (k = lit "CLAUDECODE")) as [->|Hn].
    + rewrite Hk in Ht. by injection Ht as <-.
    + apply (Hu k). by rewrite lookup_delete_ne.
  - apply lookup_delete_Some in Hk as [_ Hk]. by apply (Hu k).
Qed.

Lemma strip_session_steps_rest (m : vars) (s : list str) :
  os_names m -> (forall k, m !! k ≠ Some NotUtf8) ->
  (names ← var_names; _ ← remove_vars (List.filter session_mark names);
   _ ← remove_var (lit "NODE_OPTIONS"); remove_var (lit "VSCODE_INSPECTOR_OPTIONS")) (mk_Env m false s)
  = Goes tt (mk_Env (delete (lit "VSCODE_INSPECTOR_OPTIONS") (delete (lit "NODE_OPTIONS")
      (fold_left (fun m k => delete k m) (List.filter session_mark (map fst (hm_iter m))) m))) false s).
Proof.
  intros Hos Hu. rewrite (bind_goes _ _ _ _ _ (proj1 (var_names_spec (mk_Env m false s)) (conj eq_refl Hu))).
  cbn [env_vars].
  erewrite bind_goes by (rewrite remove_vars_spec, marks_settable by done; reflexivity).
  erewrite bind_goes by (apply remove_var_ok; by_compute).
  rewrite remove_var_ok by by_compute. reflexivity.
Qed.

Lemma without_claudecode_lookup (m : vars) (k : str) :
  (forall k, m !! k ≠ Some NotUtf8) ->
  without_claudecode m !! k = if decide (k = lit "CLAUDECODE") then None else m !! k.
Proof.
  intros Hu. unfold without_claudecode.
  destruct (m !! lit "CLAUDECODE") as [t|] eqn:Hc; cbn [mbind option_bind].
  - destruct t as [c|]; [|by destruct (Hu _ Hc)]. cbn [utf8]. case_decide as Hk.
    + by rewrite Hk, lookup_delete_eq.
    + by rewrite lookup_delete_ne.
  - case_decide as Hk; [by rewrite Hk|done].
Qed.

Lemma os_names_without (m : vars) : os_names m -> os_names (without_claudecode m).
Proof.
  intros Hos k Hk. apply Hos. unfold without_claudecode in Hk. case_match; [|done].
  destruct Hk as [v Hk]. apply lookup_delete_Some in Hk as [_ Hk]. by exists v.
Qed.

Lemma strip_session_goes (m : vars) (s : list str) :
  os_names m -> (forall k, m !! k ≠ Some NotUtf8) ->
  exists m', strip_session (mk_Env m false s) = Goes tt (mk_Env m' false (s ++ nested_warning m))
  /\ forall k, m' !! k = if decide (stripped ∅ k) then None else m !! k.
Proof.
  intros Hos Hu. rewrite strip_session_steps, strip_session_steps_rest;
    [|by apply os_names_without|by apply without_claudecode_utf8].
  eexists. split; [reflexivity|]. intros k.
  rewrite !lookup_delete, lookup_removed, without_claudecode_lookup by done.
  set (names := List.filter _ _).
  assert (k ≠ lit "CLAUDECODE" -> k ∈ names -> session_mark k = true) as Hin.
  { intros _ Hk. by apply list_elem_of_In, filter_In in Hk as []. }
  assert (k ≠ lit "CLAUDECODE" -> session_mark k = true -> k ∈ names \/ m !! k = None) as Hout.
  { intros Hk Hs. destruct (m !! k) as [v|] eqn:Hv; [left|by right]. apply mark_listed; [|done].
    exists v. by rewrite without_claudecode_lookup, decide_False. }
  clearbody names. destruct (decide (stripped ∅ k)) as [Hs|Hs]; rewrite stripped_mark in Hs; revert Hs Hin Hout;
    generalize (lit "VSCODE_INSPECTOR_OPTIONS"), (lit "NODE_OPTIONS"), (lit "CLAUDECODE");
    intros kv kn kc Hs Hin Hout; repeat case_decide; naive_solver set_solver.
Qed.

Lemma strip_session_panics (m : vars) (o : bool) (s : list str) :
  ~ (o = false /\ forall k, m !! k ≠ Some NotUtf8) -> strip_session (mk_Env m o s) = Panics.
Proof.
  intros Hn. rewrite strip_session_steps. set (e1 := mk_Env _ _ _).
  unfold mbind at 1, Boot_bind. rewrite (proj2 (var_names_spec e1)); [done|].
  intros [Ho Hu]. apply Hn. split; [done|]. by apply without_claudecode_utf8.
Qed.

(** What is left of the variables after the first pass. *)
Definition without_keys (keys : gset str) (m : vars) : vars :=
  fold_left (fun m k => delete k m) (elements keys) m.
Lemma lookup_without_keys (keys : gset str) (m : vars) (k : str) :
  without_keys keys m !! k = if decide (k ∈ keys) then None else m !! k.
Proof.
  unfold without_keys. rewrite lookup_removed.
  destruct (decide (k ∈ keys)); [rewrite decide_True|rewrite decide_False]; set_solver.
Qed.

Lemma forallb_settable (keys : gset str) :
  forallb settable_name (elements keys) = true <-> set_Forall (fun k => settable_name k = true) keys.
Proof.
  rewrite forallb_forall. unfold set_Forall.
  split; intros Hk k Hin; apply Hk; [apply list_elem_of_In|]; [by apply elem_of_elements|].
  by apply elem_of_elements, list_elem_of_In.
Qed.

(** The first pass. *)
Lemma strip_cwd_env_steps (cwd : str) (e : Env) :
  let keys := cwd_env_keys cwd (env_vars e) in
  exists notes, Forall is_note notes /\
    strip_cwd_env cwd e =
      if forallb settable_name (elements keys)
      then strip_session (mk_Env (without_keys keys (env_vars e)) (odd_name e) (stderr e ++ notes))
      else Panics.
Proof.
  intros keys. unfold strip_cwd_env.
  destruct (strip_files_spec cwd BUN_AUTO_LOADED_ENV_FILES (∅, []) e) as (files & n1 & He & Hn1).
  cbn [fst] in He. rewrite (union_empty_l_L (⋃ _)) in He. fold (cwd_env_keys cwd (env_vars e)) in He.
  fold keys in He. rewrite (bind_goes _ _ _ _ _ He). cbn beta iota.
  unfold mbind at 1, Boot_bind at 1. rewrite remove_vars_spec. cbn [env_vars odd_name stderr].
  fold (without_keys keys (env_vars e)). case_bool_decide as Hk.
  - exists n1. split; [done|]. by destruct (forallb settable_name _).
  - eexists (n1 ++ [_]). split; [|destruct (forallb settable_name _); [|done]].
    2: { unfold mbind, Boot_bind, eprintln, eprint. cbn [env_vars odd_name stderr].
         rewrite <- (app_assoc (stderr e)). reflexivity. }
    apply Forall_app. split; [done|]. constructor; [|done]. rewrite <- !app_assoc.
    apply note_app. by_compute.
Qed.

(** C31: Stripping returns exactly when every key it read can be removed and no text that is
    left fails to be Unicode.  It has then removed the keys of the readable files of the
    working directory, the marks of a session other than the tokens, and the settings
    of debuggers, and nothing else; and it has warned of a session around, last, exactly
    when a mark of one was left by the first pass and the warning is not suppressed.
    Otherwise it panics. *)
Theorem strip_cwd_env_spec (cwd : str) (e : Env) :
  os_names (env_vars e) ->
  let keys := cwd_env_keys cwd (env_vars e) in
  (listable keys e ->
   exists notes e', strip_cwd_env cwd e = Goes tt e'
     /\ (forall k, env_vars e' !! k = if decide (stripped keys k) then None else env_vars e !! k)
     /\ Forall is_note notes
     /\ stderr e' = stderr e ++ notes ++ nested_warning (without_keys keys (env_vars e)))
  /\ (~ listable keys e -> strip_cwd_env cwd e = Panics).
Proof.
  intros Hos keys. destruct (strip_cwd_env_steps cwd e) as (notes & Hn & ->). fold keys.
  assert ((forall k, without_keys keys (env_vars e) !! k ≠ Some NotUtf8)
          <-> forall k, k ∉ keys -> env_vars e !! k ≠ Some NotUtf8) as Hu.
  { setoid_rewrite lookup_without_keys. split; intros Hu k; specialize (Hu k); case_decide; auto. }
  split.
  - intros (Hs & Ho & Hk). apply forallb_settable in Hs. rewrite Hs, Ho.
    destruct (strip_session_goes (without_keys keys (env_vars e)) (stderr e ++ notes))
      as (m' & -> & Hm'); [|by apply Hu|].
    + intros k. rewrite lookup_without_keys. case_decide; [by intros []|]. apply Hos.
    + exists notes. eexists. split_and!; [reflexivity| |done|by rewrite app_assoc].
      intros k. cbn [env_vars]. rewrite Hm', lookup_without_keys. unfold stripped.
      repeat case_decide; set_solver.
  - intros Hn'. destruct (forallb _ _) eqn:Hs; [|done]. apply forallb_settable in Hs.
    apply strip_session_panics. intros [Ho Hk]. apply Hn'. split_and!; [done|done|by apply Hu].
Qed.

(** ** What loading does *)

(** What the lines of a file set, read one after the other, each in the variables the
    earlier ones left. *)
Inductive assigns : EnvLines -> vars -> list (str * str) -> Prop :=
| assigns_end m : assigns NoMore m []
| assigns_line read rest m k v l :
    read m = Ok (k, v) -> assigns (rest m) (<[k := Utf8 v]> m) l ->
    assigns (EnvLine read rest) m ((k, v) :: l).
Definition set_all (l : list (str * str)) (m : vars) : vars :=
  fold_left (fun m kv => <[kv.1 := Utf8 kv.2]> m) l m.
Definition file_assigns (scope : Scope) (path : str) (m : vars) (l : list (str * str)) : Prop :=
  if file_exists scope path then
    match from_path_iter scope path with
    | Ok ls => assigns ls m l
    | Err err => is_missing err = true /\ l = []
    end
  else l = [].
Definition accepted (kv : str * str) : bool := settable_name kv.1 && settable_value kv.2.

Lemma load_lines_spec (ls : EnvLines) (n : nat) (e : Env) (r : EnvLoadResult) (e' : Env) :
  load_lines ls n e = Goes r e' ->
  match r with
  | Loaded count => exists l, assigns ls (env_vars e) l /\ env_vars e' = set_all l (env_vars e)
      /\ count = n + length l /\ forallb accepted l = true
  | LoadNotFound => False
  | LoadParseError _ => True
  end.
Proof.
  revert n e. induction ls as [|read rest IH]; intros n e; cbn [load_lines].
  - intros [= <- <-]. exists []. split_and!; [constructor|done|by rewrite Nat.add_0_r|done].
  - destruct (read (env_vars e)) as [[k v]|err] eqn:Hr; [|by intros [= <- <-]].
    unfold set_var. destruct (settable_name k && settable_value v) eqn:Hs; [|done]. intros Hl.
    apply IH in Hl. destruct r as [count| |]; [|done|done].
    destruct Hl as (l & Ha & Hm & -> & Hok). exists ((k, v) :: l).
    split_and!; [by econstructor|done|cbn [length]; lia|].
    cbn [forallb]. unfold accepted at 1. cbn [fst snd]. by rewrite Hs.
Qed.

Lemma load_lines_goes (ls : EnvLines) (n : nat) (e : Env) (l : list (str * str)) :
  assigns ls (env_vars e) l -> forallb accepted l = true ->
  load_lines ls n e = Goes (Loaded (n + length l)) (mk_Env (set_all l (env_vars e)) (odd_name e) (stderr e)).
Proof.
  intros Ha. remember (env_vars e) as m eqn:Hm. revert n e Hm.
  induction Ha as [m|read rest m k v l Hr Ha IH]; intros n e -> Hok; cbn [load_lines].
  - rewrite Nat.add_0_r. by destruct e.
  - rewrite Hr. cbn [forallb] in Hok. apply andb_true_iff in Hok as [Hs Hok].
    unfold set_var. unfold accepted in Hs. cbn [fst snd] in Hs. rewrite Hs.
    rewrite IH by done. cbn [length odd_name stderr]. rewrite Nat.add_succ_r. reflexivity.
Qed.

Lemma is_verbose_boot_goes (e : Env) : exists b, is_verbose_boot e = Goes b e.
Proof.
  unfold is_verbose_boot, mbind, Boot_bind, var. case_bool_decide; by eexists.
Qed.

(** A report of what was loaded, or none. *)
Lemma report_goes (n : nat) (path note : str) (e : Env) :
  exists s, (if Nat.ltb 0 n then
      verbose ← is_verbose_boot;
      if (verbose : bool) then
        m ← current_vars;
        eprintln (lit "[archon] loaded " ++ show_nat n ++ lit " keys from " ++ display_path m path ++ note)
      else mret tt
    else mret tt) e = Goes tt (mk_Env (env_vars e) (odd_name e) (stderr e ++ s)).
Proof.
  destruct (Nat.ltb 0 n); [|exists []; rewrite app_nil_r; by destruct e].
  destruct (is_verbose_boot_goes e) as [[] Hb]; rewrite (bind_goes _ _ _ _ _ Hb).
  - eexists [_]. reflexivity.
  - exists []. rewrite app_nil_r. by destruct e.
Qed.

Lemma load_scope_spec (scope : Scope) (path note : str) (e e' : Env) :
  load_scope scope path note e = Goes tt e' ->
  exists l, file_assigns scope path (env_vars e) l /\ forallb accepted l = true
    /\ env_vars e' = set_all l (env_vars e).
Proof.
  unfold load_scope, file_assigns. destruct (file_exists scope path); [|by intros [= <-]; exists []].
  unfold load_env_file_override. destruct (from_path_iter scope path) as [ls|err].
  - unfold mbind at 1, Boot_bind at 1. destruct (load_lines ls 0 e) as [r e1|c e1|] eqn:Hl; [|done|done].
    apply load_lines_spec in Hl. destruct r as [n| |msg]; [|done|done].
    destruct Hl as (l & Ha & Hm & _ & Hok). destruct (report_goes n path note e1) as [s Hs].
    intros Hg. pose proof (eq_trans (eq_sym Hs) Hg) as [= <-]. by exists l.
  - destruct (is_missing err) eqn:Hmiss; [|done]. intros [= <-]. by exists [].
Qed.

Lemma load_scope_goes (scope : Scope) (path note : str) (e : Env) (l : list (str * str)) :
  file_assigns scope path (env_vars e) l -> forallb accepted l = true ->
  exists e', load_scope scope path note e = Goes tt e' /\ env_vars e' = set_all l (env_vars e).
Proof.
  unfold load_scope, file_assigns. destruct (file_exists scope path); [|by intros -> _; exists e].
  unfold load_env_file_override. destruct (from_path_iter scope path) as [ls|err].
  - intros Ha Hok. rewrite (bind_goes _ _ _ _ _ (load_lines_goes _ 0 _ _ Ha Hok)).
    destruct (report_goes (length l) path note (mk_Env (set_all l (env_vars e)) (odd_name e) (stderr e)))
      as [s Hs]. eexists. split; [exact Hs|done].
  - intros [Hmiss ->] _. rewrite Hmiss. by exists e.
Qed.

(** The last value a list gives to a name. *)
Definition last_value (l : list (str * str)) (k : str) : option str := assoc_get k (rev l).

Lemma lookup_set_all (l : list (str * str)) (m : vars) (k : str) :
  set_all l m !! k = match last_value l k with Some v => Some (Utf8 v) | None => m !! k end.
Proof.
  unfold set_all, last_value. rewrite <- fold_left_rev_right. induction (rev l) as [|[k' v] l' IH]; [done|].
  cbn [fold_right assoc_get fst snd]. rewrite lookup_insert, IH.
  case_decide; case_bool_decide; by simplify_eq.
Qed.

(** The home is known, and the two files, as far as they are there, are read to their
    end: what the file of the user sets, then what that of the repository sets. *)
Definition archon_files (cwd : str) (m : vars) (user repo : list (str * str)) : Prop :=
  exists home, get_archon_env_path (ENV := environment m) = Ok home
    /\ file_assigns UserScope home m user
    /\ file_assigns RepoScope (get_repo_archon_env_path cwd) (set_all user m) repo
    /\ forallb accepted (user ++ repo) = true.

(** Loading returns exactly when the home of the program is known and its two files, as
    far as they are there, can be read to their end and set; every variable then has
    the value the file of the repository gives it last, else the one the file of the
    user gives it last, else the one it had. *)
Theorem load_archon_env_spec (cwd : str) (e : Env) :
  (forall user repo, archon_files cwd (env_vars e) user repo ->
     exists e', load_archon_env cwd e = Goes tt e')
  /\ (forall e', load_archon_env cwd e = Goes tt e' ->
      exists user repo, archon_files cwd (env_vars e) user repo
      /\ forall k, env_vars e' !! k = match last_value repo k, last_value user k with
                                     | Some v, _ | None, Some v => Some (Utf8 v)
                                     | None, None => env_vars e !! k
                                     end).
Proof.
  unfold load_archon_env, archon_files. split.
  - intros user repo (home & -> & Hu & Hr & Hok). rewrite forallb_app in Hok.
    apply andb_true_iff in Hok as [Hok1 Hok2].
    destruct (load_scope_goes _ _ [] _ _ Hu Hok1) as (e1 & He1 & Hm1). rewrite <- Hm1 in Hr.
    destruct (load_scope_goes _ _ (lit " (repo scope, overrides user scope)") _ _ Hr Hok2) as (e2 & He2 & _).
    exists e2. by rewrite (bind_goes _ _ _ _ _ He1).
  - intros e' He. destruct (get_archon_env_path (ENV := environment (env_vars e))) as [home|err]; [|done].
    revert He. unfold mbind at 1, Boot_bind at 1.
    destruct (load_scope UserScope home [] e) as [[] e1| |] eqn:Hu; [|done|done]. intros Hr.
    apply load_scope_spec in Hu as (user & Hu & Hok1 & Hm1).
    apply load_scope_spec in Hr as (repo & Hr & Hok2 & Hm2). rewrite Hm1 in Hr.
    exists user, repo. split.
    + exists home. split_and!; [done|done|done|]. by rewrite forallb_app, Hok1, Hok2.
    + intros k. rewrite Hm2, Hm1, !lookup_set_all. by destruct (last_value repo k).
Qed.

Lemma last_value_Some (l : list (str * str)) (k v : str) : last_value l k = Some v -> (k, v) ∈ l.
Proof.
  unfold last_value. rewrite <- (rev_involutive l) at 2. rewrite list_elem_of_In, <- in_rev, <- list_elem_of_In. induction (rev l) as [|[a b] l' IH]; [done|].
  cbn [assoc_get]. case_bool_decide as Hk; intros Hv; [injection Hv as ->; subst; by left|right; auto].
Qed.

(** The two, one after the other, as at the start of the program: a mark of a session, or
    a key of the working directory, is only seen later with a value that one of the two
    files of the program sets. *)
Lemma boot_isolates (cwd : str) (e e' : Env) (k : str) (t : OsText) :
  os_names (env_vars e) ->
  (_ ← strip_cwd_env cwd; load_archon_env cwd) e = Goes tt e' ->
  stripped (cwd_env_keys cwd (env_vars e)) k -> env_vars e' !! k = Some t ->
  exists m user repo v, archon_files cwd m user repo /\ t = Utf8 v /\ (k, v) ∈ user ++ repo.
Proof.
  intros Hos Hrun Hs Hk. destruct (strip_cwd_env_spec cwd e Hos) as [Hgo Hpanic].
  destruct (strip_cwd_env cwd e) as [[] e1| |] eqn:He; revert Hrun;
    unfold mbind, Boot_bind; rewrite He; [|done|done]. intros Hrun.
  destruct (decide (listable (cwd_env_keys cwd (env_vars e)) e)) as [Hl|Hl]; [|by apply Hpanic in Hl].
  destruct (Hgo Hl) as (notes & e1' & [= <-] & Hm & _). specialize (Hm k). rewrite decide_True in Hm by done.
  destruct (load_archon_env_spec cwd e1) as [_ Hload]. destruct (Hload _ Hrun) as (user & repo & Hf & Hv).
  specialize (Hv k). rewrite Hk, Hm in Hv.
  destruct (last_value repo k) as [v|] eqn:Hr; [|destruct (last_value user k) as [v|] eqn:Hu; [|done]];
    injection Hv as ->; eexists _, _, _, v; (split_and!; [exact Hf|done|]); apply elem_of_app;
    [right|left]; by apply last_value_Some.
Qed.
End Boot.

(** ** A run *)

(** A repository with a readable [.env] file, and one that breaks off; the two files of
    the program, of which that of the repository refers to a variable of the user's. *)
Definition plain_line (k v : string) (rest : EnvLines) : EnvLines :=
  EnvLine (fun _ => Ok (lit k, lit v)) (fun _ => rest).
Definition sample_files (scope : Scope) (path : str) : result DotenvError EnvLines :=
  let missing := Err (DotenvIo (io.mk_Error io.NotFound (lit "No such file or directory"))) in
  match scope with
  | CwdScope =>
      if str_eqb path (lit "/repo/.env")
      then Ok (plain_line "SECRET" "leak" (plain_line "PORT" "80" NoMore))
      else if str_eqb path (lit "/repo/.env.local")
      then Ok (plain_line "LEFT" "1" (EnvLine (fun _ => Err (DotenvOther (lit "bad line"))) (fun _ => NoMore)))
      else missing
  | UserScope => Ok (plain_line "PORT" "3090" (plain_line "MODEL" "small" NoMore))
  | RepoScope =>
      Ok (EnvLine (fun m => Ok (lit "MODEL", default [] (m !! lit "MODEL" ≫= utf8) ++ lit "-2"))
                  (fun _ => NoMore))
  end.
#[export] Instance sample_dotenv : Dotenv := {|
  file_exists scope path := true;
  from_path_iter := sample_files;
  dotenv_display e := match e with DotenvIo err => io.text err | DotenvOther t => t end;
|}.
#[export] Instance sample_dirs : HostDirs := {| dirs_home m := Some (lit "/home/u"); host_exe := None |}.
Definition sample_vars : Env :=
  mk_Env (list_to_map
    [(lit "SECRET", Utf8 (lit "leak")); (lit "LEFT", Utf8 (lit "1"));
     (lit "CLAUDECODE", Utf8 (lit "1")); (lit "CLAUDE_CODE_ENTRYPOINT", Utf8 (lit "cli"));
     (lit "CLAUDE_CODE_OAUTH_TOKEN", Utf8 (lit "t")); (lit "HOME", Utf8 (lit "/home/u"))]) false [].

Lemma sample_names : os_names (env_vars sample_vars).
Proof.
  assert (map_Forall (fun k _ => os_name k) (env_vars sample_vars)) as Hf
    by (apply (bool_decide_unpack _); by vm_compute).
  intros k [v Hv]. exact (Hf k v Hv).
Defined.

Lemma strip_cwd_env_spec_witness :
  exists notes e', strip_cwd_env (lit "/repo") sample_vars = Goes tt e'
    /\ env_vars e' !! lit "SECRET" = None
    /\ env_vars e' !! lit "LEFT" = Some (Utf8 (lit "1"))
    /\ env_vars e' !! lit "CLAUDE_CODE_OAUTH_TOKEN" = Some (Utf8 (lit "t"))
    /\ stderr e' = notes ++ [NESTED_CLAUDE_WARNING].
Proof.
  destruct (strip_cwd_env_spec (lit "/repo") sample_vars sample_names) as [Hgo _].
  destruct Hgo as (notes & e' & He & Hk & _ & Hs); [by apply (bool_decide_unpack _); vm_compute|].
  exists notes, e'. split; [exact He|]. rewrite !Hk, Hs. repeat split; by_compute.
Defined.

(** What the program then sees: its own file wins over the user's, and sees its value;
    the key of the file that breaks off has stayed. *)
Example boot_sample :
  match (_ ← strip_cwd_env (lit "/repo"); load_archon_env (lit "/repo")) sample_vars with
  | Goes _ e => map (fun k => env_vars e !! lit k ≫= utf8) ["SECRET"; "PORT"; "MODEL"; "LEFT"; "CLAUDECODE"]
  | _ => []
  end = [None; Some (lit "3090"); Some (lit "small-2"); Some (lit "1"); None].
Proof. by_compute. Qed.
