(* ===== verification/Process.v ===== *)
(** * Processes

    A process is a tree of calls to its surroundings, each with one continuation per
    answer; what is called and what is answered is a signature, the class [Calls].
    A [world] answers a call from what happened before it; [exec] runs a process in a
    world and records the calls with their answers; [always] is what holds whatever
    is answered. *)

From S2P Require Import Prelude.

(** A signature of calls: the type of the answers to each. *)
Class Calls (call : Type) : Type := response : call -> Type.

(** ** Processes *)

Inductive proc (call : Type) `{Calls call} (A : Type) : Type :=
| Done (a : A)
| Halt
| Ask (c : call) (k : response c -> proc call A).
Arguments Done {call _ A} a.
Arguments Halt {call _ A}.
Arguments Ask {call _ A} c k.

Section Processes.
Context {call : Type} {calls : Calls call}.
#[local] Abbreviation proc := (proc call).

#[export] Instance proc_ret : MRet proc := fun A => Done.
#[export] Instance proc_bind : MBind proc := fun A B f =>
  fix bind p :=
    match p with
    | Done a => f a
    | Halt => Halt
    | Ask c k => Ask c (fun r => bind (k r))
    end.
#[export] Instance proc_fmap : FMap proc := fun A B f p => p ≫= (fun a => Done (f a)).

Definition ask (c : call) : proc (response c) := Ask c Done.
(** A pure step that may panic. *)
Definition pure_step {A} (o : outcome A) : proc A :=
  match o with Ret a => Done a | Panic => Halt end.

(** The [?] operator after an [await]. *)
Definition try {E A B} (p : proc (result E A)) (f : A -> proc (result E B)) : proc (result E B) :=
  r ← p; match r with Ok a => f a | Err e => Done (Err e) end.

(** ** Execution *)

Record event : Type := mk_event { ev_call : call; ev_answer : response ev_call }.
#[local] Abbreviation trace := (list event).
(** What happened so far decides the next answer. *)
Definition world : Type := trace -> forall c, response c.

Fixpoint exec {A} (w : world) (past : trace) (p : proc A) : trace * outcome A :=
  match p with
  | Done a => ([], Ret a)
  | Halt => ([], Panic)
  | Ask c k =>
      let r := w past c in
      let '(tr, o) := exec w (past ++ [mk_event c r]) (k r) in
      (mk_event c r :: tr, o)
  end.

(** [always p Q]: whatever the answers, the calls of [p] and its result satisfy [Q]. *)
Fixpoint always {A} (p : proc A) (Q : trace -> outcome A -> Prop) : Prop :=
  match p with
  | Done a => Q [] (Ret a)
  | Halt => Q [] Panic
  | Ask c k => forall r, always (k r) (fun tr o => Q (mk_event c r :: tr) o)
  end.

(** ** Reasoning about processes *)

Lemma always_mono {A} (p : proc A) (P Q : trace -> outcome A -> Prop) :
  (forall tr o, P tr o -> Q tr o) -> always p P -> always p Q.
Proof.
  revert P Q. induction p as [a| |c k IH]; simpl; intros P Q HPQ HP; [by apply HPQ..|].
  intros r. eapply IH, HP. intros tr o. apply HPQ.
Qed.

Lemma always_any {A} (p : proc A) (Q : trace -> outcome A -> Prop) : (forall tr o, Q tr o) -> always p Q.
Proof. revert Q. induction p as [a| |c k IH]; intros Q HQ; [apply HQ..|]. intros r. by apply IH. Qed.
Lemma always_bind {A B} (p : proc A) (f : A -> proc B) (Q : trace -> outcome B -> Prop) :
  always (p ≫= f) Q <->
  always p (fun tr o => match o with
                        | Ret a => always (f a) (fun tr' o' => Q (tr ++ tr') o')
                        | Panic => Q tr Panic
                        end).
Proof.
  revert Q. induction p as [a| |c k IH]; simpl; intros Q; [done|done|].
  split; intros H r; apply (IH r (fun tr o => Q (mk_event c r :: tr) o)), H.
Qed.

Lemma always_exec {A} (p : proc A) (Q : trace -> outcome A -> Prop) w past :
  always p Q -> Q (fst (exec w past p)) (snd (exec w past p)).
Proof.
  revert Q past. induction p as [a| |c k IH]; simpl; intros Q past H; [done|done|].
  specialize (IH (w past c) _ (past ++ [mk_event c (w past c)]) (H (w past c))).
  destruct (exec w _ (k _)) as [tr o]. exact IH.
Qed.

Lemma exec_bind {A B} (p : proc A) (f : A -> proc B) w past :
  exec w past (p ≫= f) =
    match exec w past p with
    | (tr, Ret a) => let '(tr', o) := exec w (past ++ tr) (f a) in (tr ++ tr', o)
    | (tr, Panic) => (tr, Panic)
    end.
Proof.
  revert past. induction p as [a| |c k IH]; intros past; simpl.
  - rewrite app_nil_r. by destruct (exec w past (f a)).
  - done.
  - unfold mbind in IH. rewrite IH. destruct (exec w _ (k _)) as [tr [a|]]; [|done].
    rewrite <- app_assoc. simpl. by destruct (exec w _ (f a)).
Qed.

(** The binary version: the executor of a bind, in steps. *)
Lemma always_ask (c : call) (Q : trace -> outcome (response c) -> Prop) :
  always (ask c) Q <-> forall r, Q [mk_event c r] (Ret r).
Proof. done. Qed.

(** Binds associate, as far as [always] can tell. *)
Lemma always_assoc {A B C} (p : proc A) (f : A -> proc B) (g : B -> proc C)
    (Q : trace -> outcome C -> Prop) :
  always ((p ≫= f) ≫= g) Q <-> always (p ≫= (fun a => f a ≫= g)) Q.
Proof.
  revert Q. induction p as [a| |c k IH]; simpl; intros Q; [done|done|].
  split; intros H r; apply (IH r (fun tr o => Q (mk_event c r :: tr) o)), H.
Qed.

(** ** Properties of every call *)

(** Every call of a process satisfies [P]. *)
Definition only_calls {A} (P : call -> Prop) (p : proc A) : Prop :=
  always p (fun tr _ => Forall (fun e => P (ev_call e)) tr).

Lemma only_done {A} P (a : A) : only_calls P (Done a).
Proof. constructor. Qed.
Lemma only_ask P c : P c -> only_calls P (ask c).
Proof. intros H r. by constructor. Qed.
Lemma only_pure {A} P (o : outcome A) : only_calls P (pure_step o).
Proof. destruct o; constructor. Qed.
Lemma only_bind {A B} P (p : proc A) (f : A -> proc B) :
  only_calls P p -> (forall a, only_calls P (f a)) -> only_calls P (p ≫= f).
Proof.
  intros Hp Hf. unfold only_calls. rewrite always_bind. eapply always_mono, Hp.
  intros tr [a|] Htr; [|done]. eapply always_mono, Hf. intros tr' o Htr'.
  by apply Forall_app.
Qed.
Lemma only_impl {A} (P Q : call -> Prop) (p : proc A) :
  (forall c, P c -> Q c) -> only_calls P p -> only_calls Q p.
Proof.
  intros HPQ. apply always_mono. intros tr _ H. eapply Forall_impl; [exact H|]. intros e. apply HPQ.
Qed.
Lemma only_exec {A} P (p : proc A) w past :
  only_calls P p -> Forall (fun e => P (ev_call e)) (fst (exec w past p)).
Proof. intros H. exact (always_exec p _ w past H). Qed.


(** ** Results *)

(** Whatever the answers, [p] returns a value with [Q]. *)
Definition gives {A} (p : proc A) (Q : A -> Prop) : Prop :=
  always p (fun _ o => exists a, o = Ret a /\ Q a).

Lemma gives_done {A} (a : A) (Q : A -> Prop) : Q a -> gives (Done a) Q.
Proof. intros H. by exists a. Qed.
Lemma gives_ask c (Q : response c -> Prop) : (forall r, Q r) -> gives (ask c) Q.
Proof. intros H r. by exists r. Qed.
Lemma gives_bind {A B} (p : proc A) (f : A -> proc B) (P : A -> Prop) (Q : B -> Prop) :
  gives p P -> (forall a, P a -> gives (f a) Q) -> gives (p ≫= f) Q.
Proof.
  intros Hp Hf. unfold gives. rewrite always_bind. eapply always_mono, Hp.
  intros tr o (a & -> & Ha). exact (Hf a Ha).
Qed.
(** The bind of a step whose answer does not matter. *)
Lemma gives_then {A B} (p : proc A) (f : A -> proc B) (Q : B -> Prop) :
  gives p (fun _ => True) -> (forall a, gives (f a) Q) -> gives (p ≫= f) Q.
Proof. intros Hp Hf. eapply gives_bind; [exact Hp|]. intros a _. apply Hf. Qed.

Lemma only_try {E A B} P (p : proc (result E A)) (f : A -> proc (result E B)) :
  only_calls P p -> (forall a, only_calls P (f a)) -> only_calls P (try p f).
Proof. intros Hp Hf. apply only_bind; [done|]. intros [a|e]; [apply Hf|apply only_done]. Qed.
Lemma gives_try {E A B} (p : proc (result E A)) (f : A -> proc (result E B)) (P : result E A -> Prop)
    (Q : result E B -> Prop) :
  gives p P -> (forall a, P (Ok a) -> gives (f a) Q) -> (forall e, P (Err e) -> Q (Err e)) ->
  gives (try p f) Q.
Proof.
  intros Hp Hf He. eapply gives_bind; [exact Hp|]. intros [a|e] H; [by apply Hf|].
  by apply gives_done, He.
Qed.

Lemma always_and {A} (p : proc A) (P Q : trace -> outcome A -> Prop) :
  always p P -> always p Q -> always p (fun tr o => P tr o /\ Q tr o).
Proof.
  revert P Q. induction p as [a| |c k IH]; simpl; intros P Q HP HQ; [done|done|].
  intros r. apply (IH r (fun tr o => P (mk_event c r :: tr) o)); [apply HP|apply HQ].
Qed.

(** ** What a result shows about the trace *)

(** When the process returns, its trace and its result are in [R]. *)
Definition post {A} (p : proc A) (R : trace -> A -> Prop) : Prop :=
  always p (fun tr o => match o with Ret a => R tr a | Panic => True end).

Lemma post_done {A} (a : A) (R : trace -> A -> Prop) : R [] a -> post (Done a) R.
Proof. done. Qed.
Lemma post_mono {A} (p : proc A) (R R' : trace -> A -> Prop) :
  (forall tr a, R tr a -> R' tr a) -> post p R -> post p R'.
Proof. intros H. apply always_mono. intros tr [a|]; [apply H|done]. Qed.
Lemma post_bind {A B} (p : proc A) (f : A -> proc B) (R : trace -> A -> Prop) (R' : trace -> B -> Prop) :
  post p R -> (forall a, post (f a) (fun tr' b => forall tr, R tr a -> R' (tr ++ tr') b)) ->
  post (p ≫= f) R'.
Proof.
  intros Hp Hf. unfold post. rewrite always_bind. eapply always_mono, Hp.
  intros tr [a|] Ha; [|done]. eapply always_mono, Hf. intros tr' [b|] Hb; [by apply Hb|done].
Qed.
Lemma post_try {A B E} (p : proc (result E A)) (f : A -> proc (result E B))
    (R : trace -> A -> Prop) (R' : trace -> result E B -> Prop) :
  post p (fun tr r => match r with Ok a => R tr a | Err e => R' tr (Err e) end) ->
  (forall a, post (f a) (fun tr' b => forall tr, R tr a -> R' (tr ++ tr') b)) ->
  post (try p f) R'.
Proof.
  intros Hp Hf. eapply post_bind; [exact Hp|]. intros [a|e]; cbn beta iota; [apply Hf|].
  apply post_done. intros tr H. by rewrite app_nil_r.
Qed.
(** A step about which nothing needs to be known. *)
Lemma post_any {A} (p : proc A) : post p (fun _ _ => True).
Proof. apply always_any. by intros tr [a|]. Qed.

(** Some part of the trace is in [P]. *)
Definition seg (P : trace -> Prop) (tr : trace) : Prop := exists a b c, tr = a ++ b ++ c /\ P b.
Lemma seg_here (P : trace -> Prop) tr : P tr -> seg P tr.
Proof. intros H. exists [], tr, []. by rewrite app_nil_r. Qed.
Lemma seg_app_l P a tr : seg P tr -> seg P (a ++ tr).
Proof. intros (x & y & z & -> & H). exists (a ++ x), y, z. by rewrite <- app_assoc. Qed.
Lemma seg_app_r P tr b : seg P tr -> seg P (tr ++ b).
Proof. intros (x & y & z & -> & H). exists x, y, (z ++ b). by rewrite <- !app_assoc. Qed.

(** A premise that does not depend on what happens. *)
Lemma always_impl {A} (p : proc A) (P : Prop) (Q : trace -> outcome A -> Prop) :
  (P -> always p Q) -> always p (fun tr o => P -> Q tr o).
Proof.
  revert Q. induction p as [a| |c k IH]; simpl; intros Q H; [done|done|].
  intros r. apply (IH r (fun tr o => Q (mk_event c r :: tr) o)). intros HP. by apply H.
Qed.

(** What is assumed of the answers holds of the first of them. *)
Lemma always_assume {A} (H : event -> Prop) c (k : response c -> proc A) (Q : trace -> outcome A -> Prop) :
  (forall r, H (mk_event c r) ->
     always (k r) (fun tr o => Forall H tr -> Q (mk_event c r :: tr) o)) ->
  always (ask c ≫= k) (fun tr o => Forall H tr -> Q tr o).
Proof.
  intros Hk r. apply (always_mono _ (fun tr o => H (mk_event c r) -> Forall H tr -> Q (mk_event c r :: tr) o)).
  - intros tr o Ho Hall. inversion_clear Hall as [|? ? H1 H2]. by apply Ho.
  - apply always_impl. intros Hr. by apply Hk.
Qed.

(** Whatever the answers that satisfy [H], the process returns. *)
Definition returns_if {A} (H : event -> Prop) (p : proc A) : Prop :=
  always p (fun tr o => Forall H tr -> o <> Panic).
Lemma returns_if_done {A} H (a : A) : returns_if H (Done a).
Proof. done. Qed.
Lemma returns_if_ask H c : returns_if H (ask c).
Proof. done. Qed.
Lemma returns_if_bind {A B} H (p : proc A) (f : A -> proc B) :
  returns_if H p -> (forall a, returns_if H (f a)) -> returns_if H (p ≫= f).
Proof.
  intros Hp Hf. unfold returns_if. rewrite always_bind. eapply always_mono, Hp.
  intros tr [a|] Htr.
  - eapply always_mono, Hf. intros tr' o Ho [_ Hall]%Forall_app. by apply Ho.
  - by intros Hall _; apply Htr.
Qed.
Lemma returns_if_try {A B E} H (p : proc (result E A)) (f : A -> proc (result E B)) :
  returns_if H p -> (forall a, returns_if H (f a)) -> returns_if H (try p f).
Proof. intros Hp Hf. apply returns_if_bind; [done|]. intros [a|e]; [apply Hf|done]. Qed.

(** Whatever the answers that go well, the process returns something in [Q]. *)
Definition gives_if {A} (W : event -> Prop) (p : proc A) (Q : A -> Prop) : Prop :=
  always p (fun tr o => Forall W tr -> exists a, o = Ret a /\ Q a).
Lemma gives_if_bind {A B} W (p : proc A) (f : A -> proc B) P Q :
  gives_if W p P -> (forall a, P a -> gives_if W (f a) Q) -> gives_if W (p ≫= f) Q.
Proof.
  intros Hp Hf. unfold gives_if. rewrite always_bind. eapply always_mono, Hp. intros tr [a|] Ha.
  - assert (Hi : always (f a) (fun tr' o' => P a -> Forall W tr' -> exists b, o' = Ret b /\ Q b))
      by (apply always_impl, Hf).
    eapply always_mono, Hi. intros tr' o' Ho [Hw1 Hw2]%Forall_app.
    destruct (Ha Hw1) as (a' & [= <-] & HP). by apply Ho.
  - intros Hw. by destruct (Ha Hw) as (a & [=] & _).
Qed.
Lemma gives_if_done {A} W (a : A) (Q : A -> Prop) : Q a -> gives_if W (Done a) Q.
Proof. intros Ha _. by exists a. Qed.
Lemma gives_if_gives {A} W (p : proc A) Q : gives p Q -> gives_if W p Q.
Proof. apply always_mono. by intros tr o Ho _. Qed.
Lemma gives_if_try {E A B} W (p : proc (result E A)) (f : A -> proc (result E B)) :
  gives_if W p (fun _ => True) -> (forall a, gives_if W (f a) (fun _ => True)) -> gives_if W (try p f) (fun _ => True).
Proof. intros Hp Hf. eapply gives_if_bind; [exact Hp|]. intros [a|e] _; [apply Hf|by apply gives_if_done]. Qed.
Lemma gives_if_then {A B} W (p : proc A) (f : A -> proc B) :
  gives_if W p (fun _ => True) -> (forall a, gives_if W (f a) (fun _ => True)) -> gives_if W (p ≫= f) (fun _ => True).
Proof. intros Hp Hf. eapply gives_if_bind; [exact Hp|]. intros a _. apply Hf. Qed.

End Processes.
Arguments event call {_}.
Arguments world call {_}.
Notation "x ←? p ; k" := (try p (fun x => k))
  (at level 20, p at level 100, k at level 200, right associativity) : stdpp_scope.
Abbreviation trace call := (list (event call)).

Create HintDb proc.
#[export] Hint Resolve only_done only_ask only_pure only_bind only_try : proc.

(** ** A process among more calls *)

Section Lift.
Context {call call' : Type} {calls : Calls call} {calls' : Calls call'}.
Context (inj : call -> call') (back : forall c, response (inj c) -> response c).

Fixpoint lift {A} (p : proc call A) : proc call' A :=
  match p with
  | Done a => Done a
  | Halt => Halt
  | Ask c k => Ask (inj c) (fun r => lift (k (back c r)))
  end.

(** The event of a call, and what it is among more calls. *)
Definition lifted (e : event call) (e' : event call') : Prop :=
  exists c r, e = mk_event c (back c r) /\ e' = mk_event (inj c) r.

Lemma always_lift {A} (p : proc call A) (Q : trace call' -> outcome A -> Prop) :
  always p (fun tr o => forall tr', Forall2 lifted tr tr' -> Q tr' o) -> always (lift p) Q.
Proof.
  revert Q. induction p as [a| |c k IH]; cbn; intros Q H; [by apply H|by apply H|]. intros r.
  apply (IH (back c r) (fun tr o => Q (mk_event (inj c) r :: tr) o)). eapply always_mono, (H (back c r)).
  intros tr o Ho tr' Htr. apply Ho. constructor; [by exists c, r|done].
Qed.
Lemma only_lift {A} (P : call -> Prop) (P' : call' -> Prop) (p : proc call A) :
  (forall c, P c -> P' (inj c)) -> only_calls P p -> only_calls P' (lift p).
Proof.
  intros HP Hp. apply always_lift. eapply always_mono, Hp. intros tr o H tr' Htr.
  induction Htr as [|e e' tr tr' (c & r & -> & ->) _ IH]; [constructor|]. inversion_clear H. constructor; [by apply HP|auto].
Qed.
End Lift.

(** ** What is observed of a process *)

Section Observed.
Context {call L : Type} {calls : Calls call} (obs : event call -> option L).
#[local] Abbreviation proc := (proc call).

Definition observed (tr : trace call) : list L := omap obs tr.
(** What is observed, and how the process ends, are in [R], whatever is answered. *)
Definition shows {A} (p : proc A) (R : list L -> outcome A -> Prop) : Prop :=
  always p (fun tr o => R (observed tr) o).

Lemma observed_app a b : observed (a ++ b) = observed a ++ observed b.
Proof. apply omap_app. Qed.
Lemma shows_done {A} (a : A) (R : list L -> outcome A -> Prop) : R [] (Ret a) -> shows (Done a) R.
Proof. done. Qed.
Lemma shows_ask c (R : list L -> outcome (response c) -> Prop) :
  (forall r, R (option_list (obs (mk_event c r))) (Ret r)) -> shows (ask c) R.
Proof. intros HR r. specialize (HR r). unfold observed. cbn [omap list_omap]. by destruct (obs _). Qed.
Lemma shows_mono {A} (p : proc A) (R R' : list L -> outcome A -> Prop) :
  (forall l o, R l o -> R' l o) -> shows p R -> shows p R'.
Proof. intros H. apply always_mono. intros tr o. apply H. Qed.
Lemma shows_bind {A B} (p : proc A) (f : A -> proc B) R (R' : list L -> outcome B -> Prop) :
  shows p R -> (forall k, R k Panic -> R' k Panic) ->
  (forall k a, R k (Ret a) -> shows (f a) (fun l o => R' (k ++ l) o)) -> shows (p ≫= f) R'.
Proof.
  intros Hp HP Hf. unfold shows. rewrite always_bind. eapply always_mono, Hp. intros tr [a|] Ha; [|by apply HP].
  eapply always_mono, Hf, Ha. intros tr' o. by rewrite observed_app.
Qed.
(** A call first, and a step of which nothing is observed. *)
Lemma shows_call {B} c (f : response c -> proc B) (R : list L -> outcome B -> Prop) :
  (forall r, shows (f r) (fun l o => R (option_list (obs (mk_event c r)) ++ l) o)) -> shows (ask c ≫= f) R.
Proof.
  intros Hf. apply (shows_bind _ _ (fun k o => exists r, k = option_list (obs (mk_event c r)) /\ o = Ret r)).
  - apply shows_ask. eauto.
  - by intros k (r & _ & [=]).
  - intros k a (r & -> & [= ->]). apply Hf.
Qed.
Lemma shows_assoc {A B C} (p : proc A) (f : A -> proc B) (g : B -> proc C) (R : list L -> outcome C -> Prop) :
  shows (p ≫= (fun a => f a ≫= g)) R -> shows ((p ≫= f) ≫= g) R.
Proof. apply (proj2 (always_assoc p f g (fun tr o => R (observed tr) o))). Qed.
Definition hidden {A} (p : proc A) : Prop := shows p (fun l o => l = [] /\ o <> Panic).
Lemma shows_hidden {A B} (p : proc A) (f : A -> proc B) (R : list L -> outcome B -> Prop) :
  hidden p -> (forall a, shows (f a) R) -> shows (p ≫= f) R.
Proof.
  intros Hp Hf. eapply shows_bind; [exact Hp|by intros k [_ ?]|]. intros k a [-> _]. apply Hf.
Qed.
Lemma hidden_done {A} (a : A) : hidden (Done a).
Proof. by apply shows_done. Qed.
Lemma hidden_ask c : (forall r, obs (mk_event c r) = None) -> hidden (ask c).
Proof. intros Hc. apply shows_ask. intros r. by rewrite Hc. Qed.
Lemma hidden_bind {A B} (p : proc A) (f : A -> proc B) : hidden p -> (forall a, hidden (f a)) -> hidden (p ≫= f).
Proof. apply shows_hidden. Qed.
End Observed.
