(* ===== verification/Git.v ===== *)
(** * The operating system, subprocesses, and git

    The system calls of [har-git] and [har-isolation] as a signature of [Process], and
    [exec.rs] of [har-git]: every subprocess is started from an argument vector, never
    from a shell line.

    What a child writes is text, decoded lossily as the code does.  A child whose wait
    times out is dropped, which kills it ([kill_on_drop]).  A directory is read to its
    end, or to an error: its entries are finitely many.

    The second part is [types.rs] and [worktree.rs] of [har-git] on these calls. *)
From S2P Require Import Prelude StdModel Paths.
From S2P Require Export Process.

(** ** System calls *)

(** A child that ended: its exit code ([None]: killed by a signal), what it wrote. *)
Record ProcessEnd : Type := mk_ProcessEnd { code : option Z; child_stdout : str; child_stderr : str }.

(** An entry of a directory: its name, and whether it is a directory itself. *)
Record DirEntry : Type := mk_DirEntry { entry_name : str; entry_is_dir : result io.Error bool }.

Inductive host_call : Type :=
| Spawn (cmd : str) (args : list str) (cwd : option str) (env : list (str * str))
| Wait
| WaitTimeout (ms : N)
| Metadata (path : str)
| ReadToString (path : str)
| Canonicalize (path : str)
| CreateDir (path : str)
| CreateDirAll (path : str)
| ReadDir (path : str)
| CopyFile (from to : str)
| RemoveDirAll (path : str).

(** The answers.  [Metadata] says whether the path is a directory; [WaitTimeout] is
    [None] when the time is over; [ReadDir] gives the entries up to the end or to an
    error. *)
Definition host_ret (c : host_call) : Type :=
  match c with
  | Spawn _ _ _ _ => result io.Error unit
  | Wait => result io.Error ProcessEnd
  | WaitTimeout _ => option (result io.Error ProcessEnd)
  | Metadata _ => result io.Error bool
  | ReadToString _ | Canonicalize _ => result io.Error str
  | CreateDir _ | CreateDirAll _ | RemoveDirAll _ | CopyFile _ _ => result io.Error unit
  | ReadDir _ => result io.Error (list DirEntry * option io.Error)
  end.
#[export] Instance host_calls : Calls host_call := host_ret.

Abbreviation host := (@Process.proc host_call host_calls).
Definition sys (c : host_call) : host (host_ret c) := ask c.

Lemma gives_sys c (Q : host_ret c -> Prop) : (forall r, Q r) -> gives (sys c) Q.
Proof. apply gives_ask. Qed.
Lemma only_sys (P : host_call -> Prop) c : P c -> only_calls P (sys c).
Proof. apply only_ask. Qed.
Lemma returns_if_sys (H : event host_call -> Prop) c : returns_if H (sys c).
Proof. apply returns_if_ask. Qed.
#[export] Hint Resolve only_sys : proc.

(** ** Errors ([types.rs]) *)

Inductive GitError : Type :=
| EmptyPath (message : str)
| ProcessError (message : str)
| PathError (message : str)
| NotARepo (path : str)
| GitIo (e : io.Error)
| ParseError (message : str)
| WorktreeCorrupt (path : str)
| WorktreeOwnershipMismatch (message : str).

Definition GitError_display (e : GitError) : str :=
  match e with
  | EmptyPath m => m
  | ProcessError m => lit "git process error: " ++ m
  | PathError m => lit "path error: " ++ m
  | NotARepo p => lit "not a git repository: " ++ p
  | GitIo e => lit "io error: " ++ io.text e
  | ParseError m => lit "parse error: " ++ m
  | WorktreeCorrupt p => lit "worktree corrupt at " ++ p
  | WorktreeOwnershipMismatch m => lit "worktree ownership mismatch: " ++ m
  end.

(** ** Subprocesses ([exec.rs]) *)

Record ExecOutput : Type := mk_ExecOutput { stdout : str; stderr : str }.
Record ExecOptions : Type := mk_ExecOptions {
  cwd : option str; timeout_ms : option N; env : option (list (str * str));
}.
Definition default_options : ExecOptions := mk_ExecOptions None None None.
Definition with_timeout (ms : option N) : ExecOptions := mk_ExecOptions None ms None.

(** The message of a command that failed. *)
Definition command_failed (cmd : str) (args : list str) (e : ProcessEnd) : str :=
  let detail := trim (child_stderr e) in
  lit "Command failed: " ++ cmd ++ lit " " ++ join (lit " ") args ++ [10%N]
  ++ (if is_empty detail then [] else detail ++ [10%N])
  ++ lit "Process exited with code " ++ show_Z (default (-1)%Z (code e)).

(** What the end of the child amounts to. *)
Definition exec_result (cmd : str) (args : list str) (r : result io.Error ProcessEnd)
  : result GitError ExecOutput :=
  match r with
  | Err e => Err (ProcessError (lit "Process wait error: " ++ io.text e))
  | Ok e =>
      if bool_decide (code e = Some 0%Z) then Ok (mk_ExecOutput (child_stdout e) (child_stderr e))
      else Err (ProcessError (command_failed cmd args e))
  end.

Definition exec_file_async (cmd : str) (args : list str) (options : ExecOptions)
  : host (result GitError ExecOutput) :=
  spawned ← sys (Spawn cmd args (cwd options) (default [] (env options)));
  match spawned with
  | Err e => Done (Err (ProcessError (lit "Failed to spawn '" ++ cmd ++ lit "': " ++ io.text e)))
  | Ok tt =>
      match timeout_ms options with
      | Some ms =>
          r ← sys (WaitTimeout ms);
          match r with
          | Some r => Done (exec_result cmd args r)
          | None => Done (Err (ProcessError (lit "Command '" ++ cmd ++ lit "' timed out after "
                                             ++ show_N ms ++ lit "ms")))
          end
      | None => r ← sys Wait; Done (exec_result cmd args r)
      end
  end.

Definition mkdir_async (path : str) (recursive : bool) : host (result GitError unit) :=
  r ← (if recursive then sys (CreateDirAll path) else sys (CreateDir path));
  Done (map_err GitIo r).

Definition run_git (repo_or_cwd : str) (sub_args : list str) (timeout_ms : option N)
  : host (result GitError ExecOutput) :=
  exec_file_async (lit "git") ([lit "-C"; repo_or_cwd] ++ sub_args) (with_timeout timeout_ms).

Definition run_git_cwd (dir : str) (sub_args : list str) (timeout_ms : option N)
  : host (result GitError ExecOutput) :=
  exec_file_async (lit "git") sub_args (mk_ExecOptions (Some dir) timeout_ms None).

(** * The git wrapper: worktrees

    [types.rs] and [worktree.rs] of [har-git]: where the worktrees of a repository
    live, which exist, which belong to a repository.  The newtypes [RepoPath],
    [BranchName] and [WorktreePath] are strings that their constructors keep from being
    empty.  Log entries are left out. *)

(** ** Types ([types.rs]) *)

Definition non_empty (message s : str) : result GitError str :=
  if is_empty s then Err (EmptyPath message) else Ok s.
Definition to_repo_path (s : str) := non_empty (lit "RepoPath cannot be empty") s.
Definition to_branch_name (s : str) := non_empty (lit "BranchName cannot be empty") s.
Definition to_worktree_path (s : str) := non_empty (lit "WorktreePath cannot be empty") s.

(** [GitResult] is a [result] with these codes. *)
Inductive GitErrorCode : Type :=
| CodeNotARepo (path : str)
| CodePermissionDenied (path : str)
| CodeBranchNotFound (branch : str)
| CodeNoSpace (path : str)
| CodeUnknown (message : str).

Record WorkspaceSyncResult : Type := mk_WorkspaceSyncResult {
  sync_branch : str; synced : bool; previous_head : str; new_head : str; updated : bool;
}.
Record WorktreeInfo : Type := mk_WorktreeInfo { wt_path : str; wt_branch : str }.

Inductive WorktreeLayout : Type := RepoLocal | WorkspaceScoped.

Definition mentions (texts : list string) (message : str) : bool :=
  existsb (fun t => contains (lit t) message) texts.

(** ** Where worktrees live *)

Definition non_empty_pieces (s : str) : list str :=
  filter (fun p => negb (is_empty p)) (split_separators s).

Definition extract_owner_repo (repo_path : str) : outcome (str * str) :=
  match rev (non_empty_pieces repo_path) with
  | repo :: owner :: _ => Ret (owner, repo)
  | _ => Panic
  end.

Section Layout.
Context {ENV : ProcessEnvironment}.

(** The name [owner/repo] of a codebase. *)
Definition codebase_owner_repo (codebase_name : str) : option (str * str) :=
  match split slash codebase_name with
  | [owner; repo] => if negb (is_empty owner) && negb (is_empty repo) then Some (owner, repo) else None
  | _ => None
  end.
(** A path under the directory of the workspaces. *)
Definition workspace_owner_repo (repo_path : str) : option (str * str) :=
  match get_archon_workspaces_path with
  | Ok ws =>
      match strip_prefix ws repo_path with
      | Some relative =>
          match non_empty_pieces (trim_separators relative) with
          | owner :: repo :: _ => Some (owner, repo)
          | _ => None
          end
      | None => None
      end
  | Err _ => None
  end.
Definition resolve_owner_repo (repo_path : str) (codebase_name : option str) : outcome (str * str) :=
  match codebase_name ≫= codebase_owner_repo with
  | Some r => Ret r
  | None =>
      match workspace_owner_repo repo_path with
      | Some r => Ret r
      | None => extract_owner_repo repo_path
      end
  end.

(** [repo_local] is the override [WorktreeBaseOverride.repo_local]. *)
Definition get_worktree_base (repo_path : str) (codebase_name repo_local : option str)
  : outcome (result ArchonPathError (str * WorktreeLayout)) :=
  match repo_local with
  | Some dir => Ret (Ok (path_join repo_path dir, RepoLocal))
  | None =>
      owner_repo ← resolve_owner_repo repo_path codebase_name;
      Ret (base ← get_project_worktrees_path (fst owner_repo) (snd owner_repo);
           Ok (base, WorkspaceScoped))
  end.
Definition is_project_scoped_worktree_base (repo_path : str) (codebase_name : option str)
  : outcome bool :=
  base ← get_worktree_base repo_path codebase_name None;
  Ret (match base with Ok (_, WorkspaceScoped) => true | _ => false end).
End Layout.

(** ** Which worktrees exist *)

Definition check_failed (worktree_path : str) (e : io.Error) : GitError :=
  ProcessError (lit "Failed to check worktree at " ++ worktree_path ++ lit ": " ++ io.text e).

Definition worktree_exists (worktree_path : str) : host (result GitError bool) :=
  dir ← sys (Metadata worktree_path);
  match dir with
  | Err e => Done (if io.is_not_found e then Ok false else Err (check_failed worktree_path e))
  | Ok _ =>
      git ← sys (Metadata (path_join worktree_path (lit ".git")));
      Done (match git with
            | Ok _ => Ok true
            | Err e => if io.is_not_found e then Ok false else Err (check_failed worktree_path e)
            end)
  end.

(** One line of [git worktree list --porcelain]: the path of the current entry, and
    what has been listed. *)
Definition porcelain_line (st : str * list WorktreeInfo) (line : str) : str * list WorktreeInfo :=
  let '(current_path, worktrees) := st in
  match strip_prefix (lit "worktree ") line with
  | Some rest => (rest, worktrees)
  | None =>
      match strip_prefix (lit "branch ") line with
      | Some rest =>
          let branch := replace (lit "refs/heads/") [] rest in
          if negb (is_empty current_path) && negb (is_empty branch)
          then (current_path, worktrees ++ [mk_WorktreeInfo current_path branch])
          else (current_path, worktrees)
      | None => (current_path, worktrees)
      end
  end.
Definition parse_porcelain (text : str) : list WorktreeInfo :=
  snd (fold_left porcelain_line (split [10%N] text) ([], [])).

Definition list_failed (repo_path text : str) : GitError :=
  ProcessError (lit "Failed to list worktrees for " ++ repo_path ++ lit ": " ++ text).
Definition list_worktrees (repo_path : str) : host (result GitError (list WorktreeInfo)) :=
  out ← run_git repo_path [lit "worktree"; lit "list"; lit "--porcelain"] (Some 10000%N);
  Done (match out with
        | Ok out => Ok (parse_porcelain (stdout out))
        | Err (ProcessError m) =>
            if mentions ["No such file or directory"; "not a git repository"]%string m
            then Ok [] else Err (list_failed repo_path m)
        | Err (GitIo e) =>
            if io.is_not_found e then Ok [] else Err (list_failed repo_path (GitError_display (GitIo e)))
        | Err e => Err (list_failed repo_path (GitError_display e))
        end).

Definition slugged (s : str) : str := replace slash (lit "-") s.
Definition worktree_of_branch (worktrees : list WorktreeInfo) (branch_pattern : str) : option str :=
  match list_find (fun wt => wt_branch wt = branch_pattern) worktrees with
  | Some (_, wt) => Some (wt_path wt)
  | None =>
      let slugified := slugged branch_pattern in
      (fun x => wt_path (snd x)) <$>
        list_find (fun wt => slugged (wt_branch wt) = slugified \/ wt_branch wt = slugified) worktrees
  end.
Definition find_worktree_by_branch (repo_path branch_pattern : str)
  : host (result GitError (option str)) :=
  worktrees ←? list_worktrees repo_path; Done (Ok (worktree_of_branch worktrees branch_pattern)).

(** ** To which repository a path belongs *)

(** [str::lines().next()]. *)
Definition first_line (s : str) : option str :=
  if is_empty s then None
  else Some (match split_once [10%N] s with
             | Some (line, _) =>
                 match rev line with c :: r => if (c =? 13)%N then rev r else line | [] => line end
             | None => s
             end).

(** [str::rfind], as the text before the last occurrence. *)
Fixpoint before_last (marker s : str) : option str :=
  match s with
  | [] => if is_empty marker then Some [] else None
  | c :: s' =>
      match before_last marker s' with
      | Some b => Some (c :: b)
      | None => if starts_with marker s then Some [] else None
      end
  end.
Definition regex_extract_repo_from_gitdir (content : str) : option str :=
  line ← first_line content;
  rest ← strip_prefix (lit "gitdir: ") line;
  before_last (lit "/.git/worktrees/") rest.

Section Case_.
Context {UC : UnicodeCase}.

(** A directory where a file was expected. *)
Definition is_dir (e : io.Error) : bool :=
  io.is_dir_error e || contains (lit "is a directory") (to_lowercase (io.text e)).

Definition is_worktree_path (path : str) : host (result GitError bool) :=
  content ← sys (ReadToString (path_join path (lit ".git")));
  Done (match content with
        | Ok content => Ok (starts_with (lit "gitdir:") content)
        | Err e =>
            if io.is_not_found e || is_dir e then Ok false
            else Err (ProcessError (lit "Cannot determine if " ++ path ++ lit " is a worktree: "
                                    ++ io.text e))
        end).

(** [&content[..content.len().min(n)]].  The log entry of the error takes such a slice
    too, when entries of errors are enabled, as they are taken to be. *)
Definition content_prefix (n : nat) (content : str) : outcome str :=
  byte_prefix (Nat.min n (byte_len content)) content.

Definition get_canonical_repo_path (path : str) : host (result GitError str) :=
  inside ←? is_worktree_path path;
  if inside : bool then
    content ← sys (ReadToString (path_join path (lit ".git")));
    match content with
    | Err e => Done (Err (GitIo e))
    | Ok content =>
        match regex_extract_repo_from_gitdir content with
        | Some m => Done (to_repo_path m)
        | None =>
            _ ← pure_step (content_prefix 120 content);
            shown ← pure_step (content_prefix 80 content);
            Done (Err (ProcessError
              (lit "Cannot determine canonical repo path from worktree at " ++ path
               ++ lit ". Unexpected .git file format: " ++ shown)))
        end
    end
  else Done (to_repo_path path).

Definition mismatch (text : str) : result GitError unit := Err (WorktreeOwnershipMismatch text).

Definition verify_worktree_ownership (worktree_path expected_repo : str) : host (result GitError unit) :=
  content ← sys (ReadToString (path_join worktree_path (lit ".git")));
  match content with
  | Err e =>
      Done (mismatch
        (if is_dir e
         then lit "Cannot adopt " ++ worktree_path
              ++ lit ": path contains a full git checkout, not a worktree."
         else lit "Cannot verify worktree ownership at " ++ worktree_path ++ lit ": " ++ io.text e))
  | Ok git_content =>
      match regex_extract_repo_from_gitdir git_content with
      | None =>
          Done (mismatch (lit "Cannot adopt " ++ worktree_path
                          ++ lit ": .git pointer is not a git-worktree reference."))
      | Some existing_repo_raw =>
          existing ← sys (Canonicalize existing_repo_raw);
          expected ← sys (Canonicalize expected_repo);
          Done (if path_eqb (unwrap_or existing existing_repo_raw) (unwrap_or expected expected_repo)
                then Ok tt
                else mismatch (lit "Worktree at " ++ worktree_path
                       ++ lit " belongs to a different clone (" ++ existing_repo_raw
                       ++ lit "). Remove it from that clone or use a different codebase registration."))
      end
  end.
End Case_.

Definition remove_worktree (repo_path worktree_path : str) : host (result GitError unit) :=
  _ ←? run_git repo_path [lit "worktree"; lit "remove"; worktree_path] (Some 30000%N);
  Done (Ok tt).
