(* ===== verification/GitBranch.v ===== *)
(** * The git wrapper: branches and repositories

    [branch.rs] and [repo.rs] of [har-git]: questions about branches, commits, the
    synchronisation with the remote, cloning.  What [git] writes is only looked at
    through the texts the code looks for. *)

From S2P Require Import Prelude StdModel Paths Git.

(** [trim_start_matches] with a string pattern: every leading copy goes. *)
Fixpoint trim_copies (fuel : nat) (p s : str) : str :=
  match fuel with
  | O => s
  | S fuel => match strip_prefix p s with Some r => trim_copies fuel p r | None => s end
  end.
Definition trim_start_copies (p s : str) : str := trim_copies (length s) p s.

(** [str::replace], the empty pattern included: it matches around every character. *)
Definition str_replace (pat to s : str) : str :=
  if is_empty pat then to ++ concat (map (fun c => c :: to) s) else replace pat to s.

(** [chrono]'s reading of the [%ci] dates of git, as an instant. *)
Class CommitDates := parse_commit_date : str -> option Z.

Section Git.
Context {UC : UnicodeCase} {CD : CommitDates}.

Definition lower_mentions (texts : list string) (message : str) : bool :=
  mentions texts (to_lowercase message).

(** How a failed command is told apart: an expected failure has the value [expected];
    any other is an error that says what was being done. *)
Definition classify {A} (texts : list string) (not_found : bool) (expected : result GitError A)
    (doing : str) (e : GitError) : result GitError A :=
  match e with
  | ProcessError m =>
      if lower_mentions texts m then expected else Err (ProcessError (doing ++ lit ": " ++ m))
  | GitIo io =>
      if not_found && io.is_not_found io then expected
      else Err (ProcessError (doing ++ lit ": " ++ GitError_display e))
  | _ => Err (ProcessError (doing ++ lit ": " ++ GitError_display e))
  end.

(** ** Branches ([branch.rs]) *)

Definition get_default_branch (repo_path : str) : host (result GitError str) :=
  let doing := lit "Failed to get default branch for " ++ repo_path in
  let from_origin_main : host (result GitError str) :=
    out ← run_git repo_path [lit "rev-parse"; lit "--verify"; lit "origin/main"] (Some 10000%N);
    Done (match out with
          | Ok _ => to_branch_name (lit "main")
          | Err e =>
              classify ["not a valid object name"; "needed a single revision"; "unknown revision"]%string
                false
                (Err (ProcessError
                   (lit "Cannot detect default branch for " ++ repo_path
                    ++ lit ": neither origin/HEAD nor origin/main exist. Set worktree.baseBranch in .archon/config.yaml to specify the branch explicitly.")))
                doing e
          end) in
  out ← run_git repo_path [lit "symbolic-ref"; lit "refs/remotes/origin/HEAD"; lit "--short"]
          (Some 10000%N);
  match out with
  | Ok out => Done (to_branch_name (trim_start_copies (lit "origin/") (trim (stdout out))))
  | Err (ProcessError m) =>
      if lower_mentions ["not a symbolic ref"; "no such file or directory"]%string m
      then from_origin_main
      else Done (Err (ProcessError (doing ++ lit ": " ++ m)))
  | Err e => Done (Err (ProcessError (doing ++ lit ": " ++ GitError_display e)))
  end.

Definition checkout (repo_path branch_name : str) : host (result GitError unit) :=
  let doing := lit "Failed to checkout branch " ++ branch_name in
  out ← run_git repo_path [lit "checkout"; branch_name] (Some 30000%N);
  match out with
  | Ok _ => Done (Ok tt)
  | Err (ProcessError m) =>
      if lower_mentions ["did not match any file"; "pathspec"; "doesn't exist"]%string m
      then _ ←? run_git repo_path [lit "checkout"; lit "-b"; branch_name] (Some 30000%N); Done (Ok tt)
      else Done (Err (ProcessError (doing ++ lit ": " ++ m)))
  | Err e => Done (Err (ProcessError (doing ++ lit ": " ++ GitError_display e)))
  end.

Definition has_uncommitted_changes (working_path : str) : host bool :=
  out ← run_git working_path [lit "status"; lit "--porcelain"] None;
  Done (match out with
        | Ok out => negb (is_empty (trim (stdout out)))
        | Err (ProcessError m) => negb (lower_mentions ["no such file or directory"]%string m)
        | Err (GitIo e) => negb (io.is_not_found e)
        | Err _ => true
        end).

Definition commit_all_changes (working_path message : str) : host (result GitError bool) :=
  let doing := lit "Failed to commit changes in " ++ working_path in
  dirty ← has_uncommitted_changes working_path;
  if negb dirty then Done (Ok false)
  else
    added ← run_git working_path [lit "add"; lit "-A"] (Some 10000%N);
    match added with
    | Err e => Done (Err (ProcessError (doing ++ lit ": " ++ GitError_display e)))
    | Ok _ =>
        out ← run_git working_path [lit "commit"; lit "-m"; message] (Some 10000%N);
        Done (match out with
              | Ok _ => Ok true
              | Err e => classify ["nothing to commit"]%string false (Ok false) doing e
              end)
    end.

(** A line of [git branch], without the mark of the current branch. *)
Definition branch_line (line : str) : str := trim_start_copies (lit "* ") (trim line).
Definition is_branch_merged (repo_path branch_name main_branch : str) : host (result GitError bool) :=
  out ← run_git repo_path [lit "branch"; lit "--merged"; main_branch] None;
  Done (match out with
        | Ok out =>
            Ok (bool_decide (branch_name ∈ map branch_line (split [10%N] (stdout out))))
        | Err e =>
            classify ["not a git repository"; "unknown revision"; "no such file"]%string true
              (Ok false)
              (lit "Failed to check if " ++ branch_name ++ lit " is merged into " ++ main_branch) e
        end).

Definition is_patch_equivalent (repo_path branch_name base_branch : str)
  : host (result GitError bool) :=
  out ← run_git repo_path [lit "cherry"; base_branch; branch_name] (Some 15000%N);
  Done (match out with
        | Ok out =>
            Ok (forallb (starts_with (lit "-"))
                  (filter (fun l => negb (is_empty l)) (map trim (split [10%N] (stdout out)))))
        | Err e =>
            classify ["not a git repository"; "unknown revision"; "bad revision"; "no such file"]%string
              true (Ok false)
              (lit "Failed to check if " ++ branch_name ++ lit " is patch-equivalent to "
               ++ base_branch) e
        end).

Definition is_ancestor_of (working_path ancestor_ref : str) : host (result GitError bool) :=
  out ← run_git working_path [lit "merge-base"; lit "--is-ancestor"; ancestor_ref; lit "HEAD"] None;
  Done (match out with
        | Ok _ => Ok true
        | Err e =>
            classify ["process exited with code 1"; "not a git repository"; "unknown revision";
                      "not a valid object name"; "no such file"]%string true (Ok false)
              (lit "Failed to check if " ++ ancestor_ref ++ lit " is ancestor of HEAD at "
               ++ working_path) e
        end).

Definition get_last_commit_date (working_path : str) : host (result GitError (option Z)) :=
  out ← run_git working_path [lit "log"; lit "-1"; lit "--format=%ci"] None;
  Done (match out with
        | Ok out =>
            let trimmed := trim (stdout out) in
            Ok (if is_empty trimmed then None else parse_commit_date trimmed)
        | Err e =>
            classify ["not a git repository"; "does not have any commits"; "no such file"]%string true
              (Ok None) (lit "Failed to get last commit date for " ++ working_path) e
        end).

(** ** Repositories ([repo.rs]) *)

Definition find_repo_root (start_path : str) : host (result GitError (option str)) :=
  let doing := lit "Failed to find repo root for " ++ start_path in
  out ← run_git start_path [lit "rev-parse"; lit "--show-toplevel"] (Some 10000%N);
  Done (match out with
        | Ok out => Some <$> to_repo_path (trim (stdout out))
        | Err (ProcessError m) =>
            if mentions ["not a git repository"; "Not a git repository"]%string m then Ok None
            else Err (ProcessError (doing ++ lit ": " ++ m))
        | Err (GitIo e) =>
            if io.is_not_found e then Ok None
            else Err (ProcessError (doing ++ lit ": " ++ GitError_display (GitIo e)))
        | Err e => Err (ProcessError (doing ++ lit ": " ++ GitError_display e))
        end).

Definition get_remote_url (repo_path : str) : host (result GitError (option str)) :=
  out ← run_git repo_path [lit "remote"; lit "get-url"; lit "origin"] (Some 10000%N);
  Done (match out with
        | Ok out =>
            let trimmed := trim (stdout out) in
            Ok (if is_empty trimmed then None else Some trimmed)
        | Err e =>
            classify ["no such remote"; "does not have a url configured"]%string true (Ok None)
              (lit "Failed to get remote URL for " ++ repo_path) e
        end).

(** The short name of the current commit, empty when there is none. *)
Definition current_head (workspace_path : str) : host str :=
  out ← run_git workspace_path [lit "rev-parse"; lit "--short=8"; lit "HEAD"] (Some 10000%N);
  Done (match out with Ok out => trim (stdout out) | Err _ => [] end).

(** The failure of the fetch; [configured]: the branch was given. *)
Definition sync_fetch_error (configured : bool) (branch : str) (e : GitError) : GitError :=
  ProcessError
    (match e with
     | ProcessError m =>
         if configured && lower_mentions ["couldn't find remote ref"; "not found"]%string m
         then lit "Configured base branch '" ++ branch
              ++ lit "' not found on remote. Either create the branch, update worktree.baseBranch in .archon/config.yaml, or remove the setting to use the auto-detected default branch."
         else lit "Sync fetch from origin/" ++ branch ++ lit " failed: " ++ m
     | e => lit "Sync fetch from origin/" ++ branch ++ lit " failed: " ++ GitError_display e
     end).

Definition sync_workspace (workspace_path : str) (base_branch : option str) (reset_after_fetch : bool)
  : host (result GitError WorkspaceSyncResult) :=
  branch ←? (match base_branch with
             | Some b => Done (Ok b)
             | None => get_default_branch workspace_path
             end);
  fetched ← run_git workspace_path [lit "fetch"; lit "origin"; branch] (Some 60000%N);
  match fetched with
  | Err e => Done (Err (sync_fetch_error (bool_decide (is_Some base_branch)) branch e))
  | Ok _ =>
      if negb reset_after_fetch then Done (Ok (mk_WorkspaceSyncResult branch true [] [] false))
      else
        before ← current_head workspace_path;
        let remote_ref := lit "origin/" ++ branch in
        reset ← run_git workspace_path [lit "reset"; lit "--hard"; remote_ref] (Some 30000%N);
        match reset with
        | Err e =>
            Done (Err (ProcessError (lit "Reset to " ++ remote_ref ++ lit " failed: "
                                     ++ GitError_display e)))
        | Ok _ =>
            after ← current_head workspace_path;
            Done (Ok (mk_WorkspaceSyncResult branch true before after
                        (negb (is_empty before) && negb (str_eqb before after))))
        end
  end.

Definition inject_token_into_url (url token : str) : result str str :=
  match strip_prefix (lit "https://") url with
  | Some rest => Ok (lit "https://" ++ token ++ lit "@" ++ rest)
  | None =>
      match strip_prefix (lit "http://") url with
      | Some rest => Ok (lit "http://" ++ token ++ lit "@" ++ rest)
      | None => Err (lit "Unsupported URL scheme for token injection: " ++ url)
      end
  end.

(** What a failed clone is reported as. *)
Definition clone_error (url target_path : str) (token : option str) (e : GitError) : GitErrorCode :=
  match e with
  | ProcessError m =>
      let sanitized := match token with Some tok => str_replace tok (lit "***") m | None => m end in
      if lower_mentions ["not found"; "404"]%string sanitized then CodeNotARepo url
      else if lower_mentions ["authentication failed"; "could not read"]%string sanitized
      then CodePermissionDenied url
      else if lower_mentions ["no space"]%string sanitized then CodeNoSpace target_path
      else CodeUnknown sanitized
  | e => CodeUnknown (GitError_display e)
  end.

Definition clone_repository (url target_path : str) (token : option str)
  : host (result GitErrorCode unit) :=
  match (match token with Some tok => inject_token_into_url url tok | None => Ok url end) with
  | Err e => Done (Err (CodeUnknown (lit "Invalid clone URL: " ++ e)))
  | Ok clone_url =>
      out ← exec_file_async (lit "git") [lit "clone"; clone_url; target_path]
              (with_timeout (Some 120000%N));
      Done (match out with
            | Ok _ => Ok tt
            | Err e => Err (clone_error url target_path token e)
            end)
  end.

Definition fetch_error (repo_path : str) (e : GitError) : GitErrorCode :=
  match e with
  | ProcessError m =>
      if lower_mentions ["not a git repository"]%string m then CodeNotARepo repo_path
      else if lower_mentions ["authentication failed"; "could not read"]%string m
      then CodePermissionDenied repo_path
      else if lower_mentions ["no space"]%string m then CodeNoSpace repo_path
      else CodeUnknown (lit "Fetch failed: " ++ m)
  | e => CodeUnknown (lit "Fetch failed: " ++ GitError_display e)
  end.
Definition reset_error (branch : str) (e : GitError) : GitErrorCode :=
  match e with
  | ProcessError m =>
      if lower_mentions ["unknown revision"; "not a valid object"]%string m
      then CodeBranchNotFound branch
      else CodeUnknown (lit "Reset failed: " ++ m)
  | e => CodeUnknown (lit "Reset failed: " ++ GitError_display e)
  end.

Definition sync_repository (repo_path branch : str) : host (result GitErrorCode unit) :=
  fetched ← run_git_cwd repo_path [lit "fetch"; lit "origin"] (Some 60000%N);
  match fetched with
  | Err e => Done (Err (fetch_error repo_path e))
  | Ok _ =>
      reset ← run_git_cwd repo_path [lit "reset"; lit "--hard"; lit "origin/" ++ branch]
                (Some 30000%N);
      Done (match reset with Ok _ => Ok tt | Err e => Err (reset_error branch e) end)
  end.

Definition add_safe_directory (path : str) : host (result GitError unit) :=
  out ← exec_file_async (lit "git")
          [lit "config"; lit "--global"; lit "--add"; lit "safe.directory"; path]
          (with_timeout (Some 10000%N));
  Done (match out with
        | Ok _ => Ok tt
        | Err e => Err (ProcessError (lit "Failed to add safe directory '" ++ path ++ lit "': "
                                      ++ GitError_display e))
        end).
End Git.
