(* ===== verification/GitSpecs.v ===== *)
(** * What the git wrapper guarantees

    A subprocess fails only with the text of its failure; a clone never shows the token
    it was given; the list of worktrees is read back from what git prints; a worktree is
    verified only against the repository its pointer file names. *)

From S2P Require Import Prelude StdModel Paths Git GitBranch.

(** ** Subprocesses *)

(** A subprocess is started once, from the arguments, and fails with a message only. *)
Definition exec_errors {A} (r : result GitError A) : Prop :=
  match r with Ok _ | Err (ProcessError _) => True | Err _ => False end.

Lemma exec_result_errors cmd args r : exec_errors (exec_result cmd args r).
Proof. unfold exec_result. by destruct r as [e|e]; repeat case_bool_decide. Qed.

Lemma exec_file_async_errors cmd args options : gives (exec_file_async cmd args options) exec_errors.
Proof.
  unfold exec_file_async. eapply gives_then; [by apply gives_sys|]. intros [[]|e]; [|by apply gives_done].
  destruct (timeout_ms options) as [ms|].
  - eapply gives_then; [by apply gives_sys|]. intros [r|]; apply gives_done; [apply exec_result_errors|done].
  - eapply gives_then; [by apply gives_sys|]. intros r. apply gives_done, exec_result_errors.
Qed.

(** ** Cloning *)

(** An error code without the token. *)
Definition hides (tok url target : str) (r : result GitErrorCode unit) : Prop :=
  match r with
  | Ok _ => True
  | Err (CodeUnknown m) => contains tok m = false
  | Err (CodeNotARepo p) | Err (CodePermissionDenied p) => p = url
  | Err (CodeNoSpace p) => p = target
  | Err (CodeBranchNotFound _) => False
  end.

Lemma str_replace_removes (p to s : str) :
  p <> [] -> to <> [] -> (forall c, c ∈ to -> c ∉ p) -> contains p (str_replace p to s) = false.
Proof. intros Hp Hto Hd. unfold str_replace. destruct p; [done|]. by apply replace_removes. Qed.

(** When a clone with a token fails, the error the caller gets never contains the
    token: an unexpected failure is reported with every copy of the token replaced, and
    the others only name the URL as it was given or the target.  The token is not empty
    and has no [*], the character that hides it, and the URL is an HTTP one. *)
Theorem clone_hides_token `{UnicodeCase} (url target tok : str) :
  tok <> [] -> 42%N ∉ tok ->
  starts_with (lit "https://") url = true \/ starts_with (lit "http://") url = true ->
  gives (clone_repository url target (Some tok)) (hides tok url target).
Proof.
  intros Hne Hstar Hurl. unfold clone_repository.
  assert (Hi : exists u, inject_token_into_url url tok = Ok u).
  { unfold inject_token_into_url. destruct Hurl as [[r ->]%starts_with_spec|[r ->]%starts_with_spec];
      rewrite strip_prefix_app; [by eexists|]. by destruct (strip_prefix _ _); eexists. }
  destruct Hi as [u ->]. eapply gives_bind; [apply exec_file_async_errors|].
  intros [out|e] He; apply gives_done; [done|]. destruct e; try done. cbn [clone_error hides].
  assert (Hh : contains tok (str_replace tok (lit "***") message) = false).
  { apply str_replace_removes; [done|done|]. intros c Hc.
    assert (c = 42%N) as ->; [|done].
    change (lit "***") with [42%N; 42%N; 42%N] in Hc. set_solver. }
  repeat case_match; simplify_eq; done.
Qed.

(** A URL whose clone fails with an unexpected error that shows the whole command. *)
Definition clone_world : @Process.world host_call host_calls := fun _ c =>
  match c return host_ret c with
  | Spawn _ _ _ _ => Ok tt
  | Wait => Ok (mk_ProcessEnd (Some 0%Z) [] [])
  | WaitTimeout _ => Some (Ok (mk_ProcessEnd (Some 128%Z) [] (lit "fatal: broken pipe")))
  | Metadata _ => Err (io.mk_Error io.NotFound (lit "missing"))
  | ReadToString _ | Canonicalize _ => Err (io.mk_Error io.NotFound (lit "missing"))
  | CreateDir _ | CreateDirAll _ | RemoveDirAll _ | CopyFile _ _ => Ok tt
  | ReadDir _ => Ok ([], None)
  end.

Lemma clone_hides_token_witness :
  gives (clone_repository (lit "https://github.com/o/r.git") (lit "/tmp/r") (Some (lit "s3cret")))
    (hides (lit "s3cret") (lit "https://github.com/o/r.git") (lit "/tmp/r"))
  /\ snd (exec clone_world []
       (clone_repository (lit "https://github.com/o/r.git") (lit "/tmp/r") (Some (lit "s3cret"))))
     = Ret (Err (CodeUnknown (lit "Command failed: git clone https://***@github.com/o/r.git /tmp/r"
         ++ [10%N] ++ lit "fatal: broken pipe" ++ [10%N] ++ lit "Process exited with code 128"))).
Proof.
  split; [|by_compute].
  apply clone_hides_token; [done| |by left].
  apply (bool_decide_unpack _). by_compute.
Defined.

(** ** Listing worktrees *)

(** What [git worktree list --porcelain] prints for one worktree: its path, then its
    commit and its branch, [detached] or [bare]. *)
Inductive worktree_state : Type :=
| OnBranch (head branch : str)
| Detached (head : str)
| Bare.
Record porcelain_entry : Type := mk_porcelain_entry { pe_path : str; pe_state : worktree_state }.

Definition entry_lines (e : porcelain_entry) : list str :=
  (lit "worktree " ++ pe_path e)
  :: match pe_state e with
     | OnBranch head branch => [lit "HEAD " ++ head; lit "branch refs/heads/" ++ branch]
     | Detached head => [lit "HEAD " ++ head; lit "detached"]
     | Bare => [lit "bare"]
     end ++ [[]].
Definition unlines (ls : list str) : str := concat (map (fun l => l ++ [10%N]) ls).
Definition print_porcelain (es : list porcelain_entry) : str := unlines (concat (map entry_lines es)).

(** The entries git can print: no line is broken, paths and branches are not empty. *)
Definition entry_ok (e : porcelain_entry) : Prop :=
  pe_path e <> [] /\ 10%N ∉ pe_path e
  /\ match pe_state e with
     | OnBranch head branch =>
         10%N ∉ head /\ branch <> [] /\ 10%N ∉ branch /\ contains (lit "refs/heads/") branch = false
     | Detached head => 10%N ∉ head
     | Bare => True
     end.
Definition entry_info (e : porcelain_entry) : list WorktreeInfo :=
  match pe_state e with OnBranch _ branch => [mk_WorktreeInfo (pe_path e) branch] | _ => [] end.

Lemma split_unlines (ls : list str) :
  Forall (fun l => 10%N ∉ l) ls -> split [10%N] (unlines ls) = ls ++ [[]].
Proof.
  induction 1 as [|l ls Hl Hls IH]; [done|]. unfold unlines in *. cbn [map concat].
  rewrite <- app_assoc. cbn [app]. by rewrite split_app_char, split_char_absent, IH.
Qed.

Lemma lit_no_newline (s : string) : existsb (N.eqb 10) (lit s) = false -> 10%N ∉ lit s.
Proof.
  intros H Hin. apply not_true_iff_false in H. apply H, existsb_exists.
  exists 10%N. split; [by apply list_elem_of_In|done].
Qed.

Lemma entry_lines_ok (e : porcelain_entry) : entry_ok e -> Forall (fun l => 10%N ∉ l) (entry_lines e).
Proof.
  intros (_ & Hp & Hs). unfold entry_lines.
  assert (Happ : forall s x, existsb (N.eqb 10) (lit s) = false -> 10%N ∉ x -> 10%N ∉ lit s ++ x)
    by (intros s x H1%lit_no_newline H2; by apply not_elem_of_app).
  constructor; [by apply Happ|]. apply Forall_app. split; [|repeat constructor; apply not_elem_of_nil].
  destruct (pe_state e) as [head branch|head|].
  - destruct Hs as (Hh & _ & Hb & _). repeat constructor; by apply Happ.
  - repeat constructor; [by apply Happ|by apply lit_no_newline].
  - repeat constructor. by apply lit_no_newline.
Qed.

Lemma porcelain_entry_line (acc : str * list WorktreeInfo) (e : porcelain_entry) :
  entry_ok e ->
  exists p, fold_left porcelain_line (entry_lines e) acc = (p, snd acc ++ entry_info e).
Proof.
  intros (Hp & _ & Hs). destruct acc as [cur l]. unfold entry_lines, entry_info.
  destruct e as [path st]. cbn [pe_path pe_state] in *. cbn [fold_left].
  assert (H1 : porcelain_line (cur, l) (lit "worktree " ++ path) = (path, l)).
  { unfold porcelain_line. by rewrite strip_prefix_app. }
  rewrite H1. cbn [snd]. destruct st as [head branch|head|]; cbn [app fold_left].
  - destruct Hs as (_ & Hb & _ & Hc). exists path.
    assert (H2 : porcelain_line (path, l) (lit "HEAD " ++ head) = (path, l)) by done.
    rewrite H2. unfold porcelain_line at 2. change (lit "branch refs/heads/" ++ branch) with
      (lit "branch " ++ (lit "refs/heads/" ++ branch)).
    rewrite strip_prefix_app.
    replace (strip_prefix (lit "worktree ") _) with (@None str) by done.
    assert (H3 : replace (lit "refs/heads/") [] (lit "refs/heads/" ++ branch) = branch).
    { rewrite replace_unfold by done.
      change (split_once (lit "refs/heads/") (lit "refs/heads/" ++ branch)) with (Some (@nil N, branch)).
      cbn [app]. by apply replace_absent. }
    rewrite H3. by destruct path, branch.
  - exists path. cbn [fold_left]. rewrite app_nil_r. done.
  - exists path. cbn [fold_left]. rewrite app_nil_r. done.
Qed.

(** Reading the porcelain listing back gives exactly the worktrees that are on a
    branch, in order, with their paths and their branch names; detached and bare ones
    are left out. *)
Theorem porcelain_round_trip (es : list porcelain_entry) :
  Forall entry_ok es -> parse_porcelain (print_porcelain es) = concat (map entry_info es).
Proof.
  intros Hes. unfold parse_porcelain, print_porcelain. rewrite split_unlines.
  2:{ induction Hes; [constructor|]. cbn [map concat]. apply Forall_app. split; [|done].
      by apply entry_lines_ok. }
  rewrite fold_left_app.
  assert (H : forall acc, exists p,
    fold_left porcelain_line (concat (map entry_lines es)) acc
      = (p, snd acc ++ concat (map entry_info es))).
  { induction Hes as [|e es He Hes IH]; intros acc.
    - exists (fst acc). cbn. rewrite app_nil_r. by destruct acc.
    - cbn [map concat]. rewrite fold_left_app. destruct (porcelain_entry_line acc e He) as [p ->].
      destruct (IH (p, snd acc ++ entry_info e)) as [q ->]. exists q. cbn [snd]. by rewrite app_assoc. }
  destruct (H ([], [])) as [p ->]. done.
Qed.

Definition sample_listing : list porcelain_entry :=
  [mk_porcelain_entry (lit "/repo") (OnBranch (lit "abc") (lit "main"));
   mk_porcelain_entry (lit "/wt/a") (Detached (lit "def"));
   mk_porcelain_entry (lit "/wt/b") (OnBranch (lit "012") (lit "feature/x"))].
Lemma porcelain_round_trip_witness :
  parse_porcelain (print_porcelain sample_listing)
    = [mk_WorktreeInfo (lit "/repo") (lit "main"); mk_WorktreeInfo (lit "/wt/b") (lit "feature/x")].
Proof.
  apply (porcelain_round_trip sample_listing).
  repeat constructor; try done; try (apply lit_no_newline; by_compute).
Defined.

(** Every copy of [refs/heads/] goes, not only the leading one: a branch whose own name
    holds the text is listed under another name. *)
Example porcelain_mangles_branch :
  parse_porcelain (print_porcelain
    [mk_porcelain_entry (lit "/wt") (OnBranch (lit "abc") (lit "fix/refs/heads/x"))])
  = [mk_WorktreeInfo (lit "/wt") (lit "fix/x")].
Proof. by_compute. Qed.

(** ** Ownership *)

(** A trace that shows that the worktree belongs to the repository: its pointer file
    was read, and the repository it names has the same canonical path. *)
Definition verified (worktree_path repo : str) (tr : list (event host_call)) : Prop :=
  exists pre content raw c1 c2 post,
    tr = pre ++ [mk_event (ReadToString (path_join worktree_path (lit ".git"))) (Ok content);
                 mk_event (Canonicalize raw) c1; mk_event (Canonicalize repo) c2] ++ post
    /\ regex_extract_repo_from_gitdir content = Some raw
    /\ path_eqb (unwrap_or c1 raw) (unwrap_or c2 repo) = true.

Lemma verify_verifies `{UnicodeCase} (worktree_path repo : str) :
  always (verify_worktree_ownership worktree_path repo)
    (fun tr o => exists r, o = Ret r /\ (r = Ok tt -> verified worktree_path repo tr)
                /\ match r with Err (WorktreeOwnershipMismatch _) | Ok _ => True | Err _ => False end).
Proof.
  unfold verify_worktree_ownership. intros [content|e]; cbn [mbind proc_bind];
    [|by eexists; split_and!; [done|done|destruct (is_dir e)]].
  destruct (regex_extract_repo_from_gitdir content) as [raw|] eqn:E; [|by eexists].
  intros c1 c2. eexists. split; [done|].
  destruct (path_eqb _ _) eqn:Ep; [|done]. split; [|done]. intros _.
  exists [], content, raw, c1, c2, []. done.
Qed.


Lemma verify_post `{UnicodeCase} (worktree_path repo : str) :
  post (verify_worktree_ownership worktree_path repo)
    (fun tr r => r = Ok tt -> verified worktree_path repo tr).
Proof. eapply always_mono, verify_verifies. intros tr o (r & -> & Hv & _). exact Hv. Qed.

(** ** Branches: the fail-safe check and its neighbours *)

(** A world where every subprocess has the same fate. *)
Definition child_world (spawned : result io.Error unit) (e : ProcessEnd)
  : @Process.world host_call host_calls := fun past c =>
  match c return host_ret c with
  | Spawn _ _ _ _ => spawned
  | Wait => Ok e
  | WaitTimeout _ => Some (Ok e)
  | c => clone_world past c
  end.
Definition no_git : io.Error := io.mk_Error io.NotFound (lit "No such file or directory (os error 2)").

(** A subprocess in such a world. *)
Lemma exec_child (w : Process.world host_call) past cmd args options :
  snd (exec w past (exec_file_async cmd args options)) =
    Ret (match w past (Spawn cmd args (cwd options) (default [] (env options))) with
         | Err e => Err (ProcessError (lit "Failed to spawn '" ++ cmd ++ lit "': " ++ io.text e))
         | Ok tt =>
             let past' := past ++ [mk_event (Spawn cmd args (cwd options) (default [] (env options)))
                                     (Ok tt)] in
             match timeout_ms options with
             | Some ms =>
                 match w past' (WaitTimeout ms) with
                 | Some r => exec_result cmd args r
                 | None => Err (ProcessError (lit "Command '" ++ cmd ++ lit "' timed out after "
                                              ++ show_N ms ++ lit "ms"))
                 end
             | None => exec_result cmd args (w past' Wait)
             end
         end).
Proof.
  unfold exec_file_async, sys, ask. cbn [mbind proc_bind exec].
  destruct (w past (Spawn _ _ _ _)) as [[]|e]; [|done].
  destruct (timeout_ms options) as [ms|]; cbn [exec].
  - destruct (w _ (WaitTimeout ms)) as [r|]; done.
  - done.
Qed.

Definition failing_exit (code : Z) (stderr : string) : ProcessEnd :=
  mk_ProcessEnd (Some code) [] (lit stderr).

(** The check for uncommitted changes is clean only when git printed nothing but white
    space, or when a failure mentions a missing file.  A git executable that cannot be
    found is such a failure, so the check that should assume changes reports none. *)
Theorem has_uncommitted_changes_clean (w : Process.world host_call) (path : str) :
  let run := snd (exec w [] (run_git path [lit "status"; lit "--porcelain"] None)) in
  snd (exec w [] (has_uncommitted_changes path)) = Ret false <->
  (exists out, run = Ret (Ok out) /\ trim (stdout out) = [])
  \/ (exists m, run = Ret (Err (ProcessError m))
        /\ contains (lit "no such file or directory") (to_lowercase m) = true).
Proof.
  intros run. unfold has_uncommitted_changes. rewrite exec_bind. subst run.
  pose proof (always_exec _ _ w [] (exec_file_async_errors (lit "git")
    ([lit "-C"; path] ++ [lit "status"; lit "--porcelain"]) (with_timeout None))) as (r & Hr & He).
  unfold run_git. destruct (exec w [] _) as [tr o]. cbn [snd] in *. subst o. cbn [exec snd].
  destruct r as [out|e]; [|destruct e; try done].
  - split.
    + intros [= H]. left. exists out. split; [done|]. apply is_empty_spec.
      by destruct (is_empty _).
    + intros [(o & [= <-] & ->)|(m & [=] & _)]. done.
  - unfold lower_mentions, mentions. cbn [existsb]. rewrite orb_false_r. split.
    + intros [= H%negb_false_iff]. right. by eexists.
    + intros [(o & [=] & _)|(m & [= <-] & ->)]. done.
Qed.

Example no_git_no_changes :
  snd (exec (child_world (Err no_git) (failing_exit 1 "")) [] (has_uncommitted_changes (lit "/wt")))
    = Ret false
  /\ snd (exec (child_world (Err no_git) (failing_exit 1 "")) []
        (commit_all_changes (lit "/wt") (lit "save"))) = Ret (Ok false).
Proof. split; by_compute. Qed.

(** The exit code 1 of [merge-base --is-ancestor] is looked for as a prefix: a fatal
    error of git, which exits with 128, is taken for the answer no. *)
Example fatal_is_not_ancestor :
  snd (exec (child_world (Ok tt) (failing_exit 128 "fatal: detected dubious ownership")) []
        (is_ancestor_of (lit "/wt") (lit "origin/main"))) = Ret (Ok false).
Proof. by_compute. Qed.

(** A merged branch that is checked out in another worktree is marked with [+], which is
    not stripped: it counts as unmerged. *)
Example merged_elsewhere_is_unmerged :
  snd (exec (child_world (Ok tt)
        (mk_ProcessEnd (Some 0%Z) (lit "* main" ++ [10%N] ++ lit "+ done" ++ [10%N] ++ lit "  old") [])) []
        (is_branch_merged (lit "/repo") (lit "done") (lit "main"))) = Ret (Ok false)
  /\ snd (exec (child_world (Ok tt)
        (mk_ProcessEnd (Some 0%Z) (lit "* main" ++ [10%N] ++ lit "+ done" ++ [10%N] ++ lit "  old") [])) []
        (is_branch_merged (lit "/repo") (lit "old") (lit "main"))) = Ret (Ok true).
Proof. split; by_compute. Qed.

(** A codebase name may climb out of the workspaces directory: its two parts are not
    checked as [parse_owner_repo] checks them. *)
Example codebase_name_escapes :
  @get_worktree_base sample_env (lit "/src/o/r") (Some (lit "../x")) None
    = Ret (Ok (lit "/home/u/.archon/workspaces/../x/worktrees", WorkspaceScoped))
  /\ parse_owner_repo (lit "../x") = None.
Proof. split; by_compute. Qed.
