(* ===== verification/WorktreeCopySpecs.v ===== *)
(** * What copying into a worktree guarantees

    The lexical resolution of paths, the guard against paths that climb out, and the
    copy of whole trees: whatever the configuration says, what is read is below the
    source root and what is written is below the destination. *)

From S2P Require Import Prelude StdModel Paths Git WorktreeCopy.

(** ** Components of a path, resolved *)

(** The lists [components] gives: a root, or a leading [.], can only be first, and
    names are plain. *)
Definition inner (c : Component) : Prop :=
  match c with Normal n => plain_name n | ParentDir => True | _ => False end.
Definition valid_components (cs : list Component) : Prop :=
  match cs with
  | RootDir :: cs | CurDir :: cs => Forall inner cs
  | cs => Forall inner cs
  end.

Lemma inner_component (piece : str) :
  no_component piece = false -> 47%N ∉ piece -> inner (component piece).
Proof.
  intros [He Hd]%orb_false_iff Hs. unfold component. destruct (str_eqb piece (lit "..")) eqn:E; [done|].
  split; [by destruct piece|split; [done|]]. unfold is_dots. by rewrite Hd, E.
Qed.

Lemma body_inner (pieces : list str) :
  Forall (fun x => 47%N ∉ x) pieces -> Forall inner (body_components pieces).
Proof.
  intros H. unfold body_components. apply Forall_map, Forall_forall.
  intros x [Hn Hx]%list_elem_of_filter. rewrite Forall_forall in H.
  apply inner_component; [by destruct (no_component x)|by apply H].
Qed.

Lemma components_valid (p : str) : valid_components (components p).
Proof.
  unfold components. pose proof (split_char_pieces 47 p) as H. change [47%N] with slash in H.
  destruct (split slash p) as [|first rest]; [constructor|].
  inversion_clear H as [|? ? Hf Hr]. apply body_inner in Hr.
  destruct first as [|c first].
  - destruct rest; [constructor|done].
  - unfold leading. destruct (str_eqb (c :: first) (lit ".")) eqn:E; [done|].
    assert (Hi : inner (component (c :: first))).
    { apply inner_component; [|done]. unfold no_component. by rewrite E. }
    cbn [app valid_components]. unfold component in *.
    destruct (str_eqb (c :: first) (lit "..")); by constructor.
Qed.

(** Resolved lists: a root with names, or climbs with names. *)
Inductive resolved : list Component -> Prop :=
| resolved_root ns : Forall plain_name ns -> resolved (RootDir :: map Normal ns)
| resolved_climb k ns : Forall plain_name ns -> resolved (repeat ParentDir k ++ map Normal ns).

(** The accumulator of [normalize_step], reversed. *)
Lemma normalize_step_resolved (out : list Component) (c : Component) :
  resolved (rev out) -> inner c -> resolved (rev (normalize_step out c)).
Proof.
  intros H Hc. destruct c as [| | |n]; try done.
  - inversion H as [ns Hns E|k ns Hns E].
    + apply (f_equal (@rev Component)) in E. rewrite rev_involutive in E. subst out.
      cbn [rev]. destruct ns as [|n ns _] using rev_ind; [by apply (resolved_root [])|].
      rewrite map_app, rev_app_distr. cbn [map rev app normalize_step].
      rewrite rev_app_distr, rev_involutive. cbn [rev app].
      apply Forall_app in Hns as [Hns _]. by constructor.
    + apply (f_equal (@rev Component)) in E. rewrite rev_involutive in E. subst out.
      destruct ns as [|n ns _] using rev_ind.
      * rewrite app_nil_r, rev_repeat. destruct k as [|k]; cbn [repeat normalize_step].
        -- by apply (resolved_climb 1 []).
        -- change (ParentDir :: ParentDir :: repeat ParentDir k) with (repeat ParentDir (S (S k))).
           rewrite rev_repeat, <- (app_nil_r (repeat _ _)). by apply (resolved_climb _ []).
      * rewrite map_app, app_assoc, rev_app_distr. cbn [map rev app normalize_step].
        rewrite rev_involutive. apply Forall_app in Hns as [Hns _]. by constructor.
  - cbn [normalize_step rev]. inversion H as [ns Hns E|k ns Hns E].
    + cbn [app]. change [Normal n] with (map Normal [n]).
      rewrite <- map_app. constructor. apply Forall_app. split; [done|by apply Forall_singleton].
    + rewrite <- app_assoc. change [Normal n] with (map Normal [n]).
      rewrite <- map_app. constructor. apply Forall_app. split; [done|by apply Forall_singleton].
Qed.

Lemma fold_resolved (cs out : list Component) :
  resolved (rev out) -> Forall inner cs -> resolved (rev (fold_left normalize_step cs out)).
Proof.
  intros Ho Hcs. revert out Ho. induction Hcs as [|c cs Hc Hcs IH]; intros out Ho; [done|].
  apply IH. by apply normalize_step_resolved.
Qed.

Lemma normalize_resolved (p : str) : resolved (normalize_components (components p)).
Proof.
  pose proof (components_valid p) as H. unfold normalize_components.
  destruct (components p) as [|c cs]; [by apply (resolved_climb 0 [])|].
  destruct c as [| | |n]; cbn [fold_left normalize_step].
  - apply fold_resolved; [by apply (resolved_root [])|done].
  - apply fold_resolved; [by apply (resolved_climb 0 [])|done].
  - apply fold_resolved; [by apply (resolved_climb 1 [])|by inversion_clear H].
  - inversion_clear H as [|? ? Hn Hcs].
    apply fold_resolved; [by apply (resolved_climb 0 [n]), Forall_singleton|done].
Qed.

(** Pushing the components of a resolved path one by one gives a path with exactly
    those components. *)
Lemma join_names (p : str) (ns : list str) :
  Forall plain_name ns ->
  components (fold_left (fun p c => path_join p (component_str c)) (map Normal ns) p)
  = components p ++ map Normal ns.
Proof.
  intros H. revert p. induction H as [|n ns Hn Hns IH]; intros p; [by rewrite app_nil_r|].
  cbn [map fold_left]. rewrite IH. cbn [component_str]. rewrite components_join by done.
  by rewrite <- app_assoc.
Qed.

Lemma join_climb (p : str) :
  components p = repeat ParentDir (length (components p)) ->
  components (path_join p (lit "..")) = repeat ParentDir (S (length (components p))).
Proof.
  intros Hp. destruct (path_join_cases p (lit "..")) as [[-> ->]|[(q & -> & ->)|[Hne ->]]].
  - apply (bool_decide_unpack _). by_compute.
  - done.
  - destruct q as [|c q]; [done|].
    rewrite (components_app (c :: q) (lit "..")) by done. revert Hp.
    rewrite <- (app_nil_r slash). rewrite (components_app (c :: q) []) by done.
    change (body_components (split slash [])) with (@nil Component). rewrite app_nil_r.
    intros Hp. rewrite Hp at 1. change (body_components _) with (repeat ParentDir 1).
    rewrite <- repeat_app. f_equal. lia.
  - rewrite (components_app p (lit "..")) by done. rewrite Hp at 1.
    change (body_components _) with (repeat ParentDir 1). rewrite <- repeat_app. f_equal. lia.
Qed.

Lemma from_components_resolved (cs : list Component) :
  resolved cs -> components (from_components cs) = cs.
Proof.
  unfold from_components. intros [ns Hns|k ns Hns].
  - cbn [fold_left component_str]. by rewrite join_names.
  - rewrite fold_left_app, join_names by done. f_equal.
    assert (H : forall j p, components p = repeat ParentDir j ->
      components (fold_left (fun p c => path_join p (component_str c)) (repeat ParentDir k) p)
        = repeat ParentDir (j + k)).
    { induction k as [|k IH]; intros j p Hp; [by rewrite Nat.add_0_r|].
      cbn [repeat fold_left component_str]. rewrite (IH (S j)); [f_equal; lia|].
      assert (Hl : length (components p) = j) by (by rewrite Hp, repeat_length).
      rewrite <- Hl in Hp |- *. by apply join_climb. }
    by apply (H 0 []).
Qed.

(** ** The guard *)

(** [p] resolves, without asking the file system, to [root] or to something below. *)
Definition within (root p : str) : Prop :=
  exists ns, Forall plain_name ns
    /\ normalize_components (components p) = normalize_components (components root) ++ map Normal ns.

Lemma within_join (root p n : str) : within root p -> plain_name n -> within root (path_join p n).
Proof.
  intros (ns & Hns & E) Hn. exists (ns ++ [n]). split; [apply Forall_app; split; [done|by apply Forall_singleton]|].
  rewrite components_join by done. unfold normalize_components in *.
  rewrite fold_left_app. cbn [fold_left normalize_step rev]. by rewrite E, map_app, app_assoc.
Qed.

Lemma strip_components_Some (b p r : list Component) : strip_components b p = Some r <-> p = b ++ r.
Proof.
  split; [|intros ->; apply strip_components_app].
  revert p. induction b as [|a b IH]; intros p; cbn [strip_components]; [by intros [= ->]|].
  destruct p as [|c p]; [done|]. case_decide as E; [subst|done]. intros H. by rewrite (IH p H).
Qed.

Lemma absolute_resolved (root : str) : is_absolute root = true ->
  exists ns, Forall plain_name ns /\ normalize_components (components root) = RootDir :: map Normal ns.
Proof.
  intros [r ->]%starts_with_spec.
  assert (Hc : exists cs, components (slash ++ r) = RootDir :: cs).
  { unfold components. change (slash ++ r) with ([] ++ 47%N :: r). change slash with [47%N].
    rewrite split_app_char. destruct (split [47%N] r) eqn:E; [by apply split_not_nil in E|].
    by eexists. }
  destruct Hc as [cs Hc]. pose proof (components_valid (slash ++ r)) as Hv. rewrite Hc in *.
  unfold normalize_components. cbn [fold_left normalize_step].
  assert (H : forall out ns, rev out = RootDir :: map Normal ns -> Forall plain_name ns ->
    exists ns', Forall plain_name ns' /\ rev (fold_left normalize_step cs out) = RootDir :: map Normal ns').
  { clear Hc. induction Hv as [|c cs Hc Hv IH]; intros out ns E Hns; [by exists ns|].
    cbn [fold_left]. apply (f_equal (@rev Component)) in E. rewrite rev_involutive in E. subst out.
    destruct c as [| | |n]; try done.
    - destruct ns as [|n ns _] using rev_ind; [by apply (IH _ [])|].
      apply Forall_app in Hns as [Hns _]. apply (IH _ ns); [|done].
      cbn [rev]. rewrite map_app, rev_app_distr. cbn [map rev app normalize_step].
      by rewrite rev_app_distr, rev_involutive.
    - apply (IH _ (ns ++ [n])); [|apply Forall_app; split; [done|by apply Forall_singleton]].
      cbn [rev normalize_step]. by rewrite rev_app_distr, rev_involutive, map_app. }
  by apply (H [RootDir] []).
Qed.

Lemma is_path_within_root_spec (root f : str) :
  is_absolute root = true -> is_path_within_root root f = true <-> within root (node_join root f).
Proof.
  intros Hr. destruct (absolute_resolved root Hr) as (rs & Hrs & Er).
  unfold is_path_within_root, path_starts_with, normalize_path, within.
  rewrite !from_components_resolved by apply normalize_resolved. split.
  - destruct (strip_components _ _) as [l|] eqn:E; [|done]. intros _.
    apply strip_components_Some in E. rewrite Er in E |- *. rewrite E. clear Er.
    pose proof (normalize_resolved (node_join root f)) as Hn. rewrite E in Hn.
    inversion Hn as [ns Hns En|k ns Hns En].
    + apply map_eq_app in En as (a & b & -> & Ea & Eb). exists b.
      apply Forall_app in Hns as [_ Hb]. split; [done|]. by rewrite Eb.
    + destruct k as [|k]; [|done]. destruct ns as [|n ns]; [done|]. discriminate En.
  - intros (ns & _ & E). rewrite E. by rewrite strip_components_app.
Qed.

(** ** Copies stay inside *)

(** The names a directory lists are those of its entries: plain names. *)
Definition plain_listing (e : event host_call) : Prop :=
  match e with
  | @mk_event _ _ (ReadDir _) (Ok (es, _)) => Forall (fun d => plain_name (entry_name d)) es
  | _ => True
  end.
(** A call reads below [src] and writes files below [dst]. *)
Definition inside (src dst : str) (e : event host_call) : Prop :=
  match ev_call e with
  | CopyFile from to => within src from /\ within dst to
  | ReadDir p | Metadata p => within src p
  | CreateDirAll p => within dst p \/ exists q, within dst q /\ parent q = Some p
  | _ => False
  end.
Definition stays {A} (src dst : str) (p : host A) : Prop :=
  always p (fun tr _ => Forall plain_listing tr -> Forall (inside src dst) tr).

Section Stays.
Context (src dst : str).
Local Abbreviation stays p := (stays src dst p).

Lemma stays_done {A} (a : A) : stays (Done a).
Proof. constructor. Qed.
Lemma stays_halt {A} : stays (@Halt host_call _ A).
Proof. constructor. Qed.
Lemma stays_bind {A B} (p : host A) (f : A -> host B) :
  stays p -> (forall a, stays (f a)) -> stays (p ≫= f).
Proof.
  intros Hp Hf. unfold WorktreeCopySpecs.stays. rewrite always_bind. eapply always_mono, Hp.
  intros tr [a|] Htr; [|done]. eapply always_mono, Hf. intros tr' o Htr' H.
  apply Forall_app in H as [H1 H2]. apply Forall_app. split; [by apply Htr|by apply Htr'].
Qed.
Lemma stays_try {A B E} (p : host (result E A)) (f : A -> host (result E B)) :
  stays p -> (forall a, stays (f a)) -> stays (try p f).
Proof. intros Hp Hf. apply stays_bind; [done|]. intros [a|e]; [apply Hf|apply stays_done]. Qed.
Lemma stays_sys c : (forall r, inside src dst (mk_event c r)) -> stays (sys c).
Proof. intros H r _. by repeat constructor. Qed.
(** A listing may be taken to be plain. *)
Lemma stays_listing {A} p (k : result io.Error (list DirEntry * option io.Error) -> host A) :
  within src p ->
  (forall r, plain_listing (@mk_event _ host_calls (ReadDir p) r) -> stays (k r)) ->
  stays (sys (ReadDir p) ≫= k).
Proof.
  intros Hp Hk. apply (@always_assume host_call host_calls A plain_listing (ReadDir p) k). intros r Hr. eapply always_mono, (Hk r Hr).
  intros tr o Hs Htr. constructor; [done|by apply Hs].
Qed.

Lemma stays_entries copy_dir s d es stop :
  (forall s' d', within src s' -> within dst d' -> stays (copy_dir s' d')) ->
  within src s -> within dst d -> Forall (fun e => plain_name (entry_name e)) es ->
  stays (copy_entries copy_dir s d es stop).
Proof.
  intros Hdir Hs Hd Hes. induction Hes as [|e es He Hes IH]; cbn [copy_entries]; [by apply stays_done|].
  destruct (entry_is_dir e) as [[]|err]; [| |by apply stays_done]; apply stays_try; try done.
  - apply Hdir; by apply within_join.
  - apply stays_sys. split; by apply within_join.
Qed.

Lemma stays_copy_dir fuel s d : within src s -> within dst d -> stays (copy_dir fuel s d).
Proof.
  revert s d. induction fuel as [|fuel IH]; intros s d Hs Hd; cbn [copy_dir]; [apply stays_halt|].
  apply stays_try; [by apply stays_sys; left|]. intros _. unfold try. apply stays_listing; [done|].
  intros [[es stop]|e] Hl; [|apply stays_done]. by apply stays_entries.
Qed.

Lemma stays_copy_file depth entry :
  is_absolute src = true -> is_absolute dst = true -> stays (copy_worktree_file depth src dst entry).
Proof.
  intros Hs Hd. unfold copy_worktree_file.
  destruct (is_path_within_root src (source entry)) eqn:Es; cbn [negb]; [|apply stays_done].
  destruct (is_path_within_root dst (destination entry)) eqn:Ed; cbn [negb]; [|apply stays_done].
  apply is_path_within_root_spec in Es, Ed; [|done..].
  apply stays_bind; [by apply stays_sys|]. intros [is_dir|e]; [|apply stays_done].
  apply stays_bind.
  { destruct (parent _) as [q|] eqn:Ep; [|apply stays_done]. apply stays_sys. right. by eexists. }
  intros [[]|e]; [|apply stays_done]. apply stays_bind; [|intros; apply stays_done].
  destruct is_dir; [by apply stays_copy_dir|by apply stays_sys].
Qed.
End Stays.

(** C23: Whatever files a repository configures to be copied into a worktree, every path
    that the copy hands to the system to be read resolves lexically to one below the
    repository, and every path it hands over to be written to one below the worktree;
    the one directory it may make elsewhere is the parent of a destination.  The two
    roots are absolute, and directories list plain names.  The check is of the text of
    the paths: the system follows links, so a link in the repository still leads out. *)
Theorem copy_worktree_files_stays (depth : nat) (canonical_repo_path worktree_path : str)
    (files : list str) :
  is_absolute canonical_repo_path = true -> is_absolute worktree_path = true ->
  stays canonical_repo_path worktree_path
    (copy_worktree_files depth canonical_repo_path worktree_path files).
Proof.
  intros Hs Hd. induction files as [|f files IH]; cbn [copy_worktree_files]; [apply stays_done|].
  destruct (parse_copy_file_entry f) as [entry|]; [|done].
  apply stays_bind; [by apply stays_copy_file|]. intros success.
  apply stays_bind; [done|]. intros copied. apply stays_done.
Qed.

(** An entry that climbs out is skipped; one that looks absolute is taken below the
    root; a directory is copied with what it holds. *)
Definition tree_world : Process.world host_call := fun past c =>
  match c return host_ret c with
  | Metadata p => Ok (str_eqb p (lit "/repo/.archon"))
  | ReadDir p => Ok ([mk_DirEntry (lit "config.yaml") (Ok false)], None)
  | CreateDirAll _ | CopyFile _ _ => Ok tt
  | Spawn _ _ _ _ | Wait | ReadToString _ | Canonicalize _ | CreateDir _ | RemoveDirAll _ =>
      Err (io.mk_Error io.NotFound (lit "missing"))
  | WaitTimeout _ => None
  end.
Definition sample_files : list str := [lit ".archon"; lit "../other/.env"; lit " /etc/hosts "; lit " "].

Lemma copy_worktree_files_stays_witness :
  stays (lit "/repo") (lit "/wt") (copy_worktree_files 3 (lit "/repo") (lit "/wt") sample_files)
  /\ exec tree_world [] (copy_worktree_files 3 (lit "/repo") (lit "/wt") sample_files)
     = ([@mk_event _ host_calls (Metadata (lit "/repo/.archon")) (Ok true);
         @mk_event _ host_calls (CreateDirAll (lit "/wt")) (Ok tt);
         @mk_event _ host_calls (CreateDirAll (lit "/wt/.archon")) (Ok tt);
         @mk_event _ host_calls (ReadDir (lit "/repo/.archon"))
           (Ok ([mk_DirEntry (lit "config.yaml") (Ok false)], None));
         @mk_event _ host_calls
           (CopyFile (lit "/repo/.archon/config.yaml") (lit "/wt/.archon/config.yaml")) (Ok tt);
         @mk_event _ host_calls (Metadata (lit "/repo/etc/hosts")) (Ok false);
         @mk_event _ host_calls (CreateDirAll (lit "/wt/etc")) (Ok tt);
         @mk_event _ host_calls (CopyFile (lit "/repo/etc/hosts") (lit "/wt/etc/hosts")) (Ok tt)],
        Ret [mk_CopyFileEntry (lit ".archon") (lit ".archon");
             mk_CopyFileEntry (lit "/etc/hosts") (lit "/etc/hosts")]).
Proof. split; [apply copy_worktree_files_stays; by_compute|by_compute]. Defined.

(** ** The copy ends *)

(** No directory lies [bound] components deep, or deeper. *)
Definition shallow (bound : nat) (e : event host_call) : Prop :=
  plain_listing e
  /\ match e with
     | @mk_event _ _ (ReadDir p) (Ok (es, _)) =>
         Forall (fun d => entry_is_dir d = Ok true -> S (length (components p)) < bound) es
     | _ => True
     end.

Lemma copy_entries_returns bound copy_dir s d es stop :
  (forall n, plain_name n -> S (length (components s)) < bound ->
     returns_if (shallow bound) (copy_dir (path_join s n) (path_join d n))) ->
  Forall (fun e => plain_name (entry_name e)) es ->
  Forall (fun e => entry_is_dir e = Ok true -> S (length (components s)) < bound) es ->
  returns_if (shallow bound) (copy_entries copy_dir s d es stop).
Proof.
  intros Hdir Hn Hes. induction Hes as [|e es He Hes IH]; cbn [copy_entries]; [done|].
  inversion_clear Hn as [|? ? Hne Hnes].
  destruct (entry_is_dir e) as [[]|err]; [| |done]; apply returns_if_try; auto.
  apply (returns_if_sys (shallow bound) (CopyFile _ _)).
Qed.

(** Copying a directory tree returns, when the fuel reaches past its deepest directory. *)
Theorem copy_dir_returns (bound fuel : nat) (s d : str) :
  length (components s) < bound <= length (components s) + fuel ->
  returns_if (shallow bound) (copy_dir fuel s d).
Proof.
  revert s d. induction fuel as [|fuel IH]; intros s d Hb; [lia|]. cbn [copy_dir].
  apply returns_if_try; [apply (returns_if_sys (shallow bound) (CreateDirAll d))|]. intros _. unfold try.
  apply (@always_assume host_call host_calls _ (shallow bound) (ReadDir s)).
  intros [[es stop]|e] [Hp Hd]; [|done]. unfold plain_listing in Hp.
  eapply always_mono; [|apply (copy_entries_returns bound (copy_dir fuel) s d es stop)].
  - intros tr o Ho Htr. by apply Ho.
  - intros n Hn Hlt. apply IH. rewrite components_join, length_app by done. cbn [length]. lia.
  - done.
  - done.
Qed.
