(* ===== verification/Isolation.v ===== *)
(** * Isolation: types, errors, states

    [types.rs], [lib.rs], [errors.rs], [pr_state.rs], [factory.rs] and the trait of
    [store.rs] of [har-isolation]: the requests and the environments, the error texts a
    user sees, the state of a pull request, the interface of a provider, and the calls
    that resolving makes besides those of the system. *)

From S2P Require Import Prelude StdModel Json Paths Git GitBranch WorktreeCopy.

(** ** Data ([types.rs]) *)

Inductive IsolationProviderType : Type := Worktree | Container | Vm | Remote.
Inductive IsolationWorkflowType : Type := WfIssue | WfPr | WfReview | WfThread | WfTask.
Inductive EnvironmentStatus : Type := Active | Destroyed.
#[export] Instance IsolationWorkflowType_eq_dec : EqDecision IsolationWorkflowType.
Proof. solve_decision. Defined.
#[export] Instance EnvironmentStatus_eq_dec : EqDecision EnvironmentStatus.
Proof. solve_decision. Defined.

Record GitIdentity : Type := mk_GitIdentity { email : str; identity_name : option str }.

Record IsolationRequestBase : Type := mk_IsolationRequestBase {
  base_codebase_id : str; codebase_name : option str; canonical_repo_path : str;
  description : option str; git_identity : option GitIdentity;
}.
Inductive IsolationRequest : Type :=
| Issue (base : IsolationRequestBase) (identifier : str)
| Pr (base : IsolationRequestBase) (identifier pr_branch : str) (pr_sha : option str)
    (is_fork_pr : bool)
| Review (base : IsolationRequestBase) (identifier : str)
| Thread (base : IsolationRequestBase) (identifier : str)
| Task (base : IsolationRequestBase) (identifier : str) (from_branch : option str).

Definition request_base (r : IsolationRequest) : IsolationRequestBase :=
  match r with
  | Issue b _ | Pr b _ _ _ _ | Review b _ | Thread b _ | Task b _ _ => b
  end.
Definition workflow_type (r : IsolationRequest) : IsolationWorkflowType :=
  match r with
  | Issue _ _ => WfIssue | Pr _ _ _ _ _ => WfPr | Review _ _ => WfReview
  | Thread _ _ => WfThread | Task _ _ _ => WfTask
  end.
Definition identifier (r : IsolationRequest) : str :=
  match r with
  | Issue _ i | Pr _ i _ _ _ | Review _ i | Thread _ i | Task _ i _ => i
  end.
Definition is_pr_isolation_request (r : IsolationRequest) : bool :=
  match r with Pr _ _ _ _ _ => true | _ => false end.

Inductive AdoptedFrom : Type := FromPath | FromBranch.
(** [Adopted]: the flag, the source and the request of [AdoptedWorktreeMetadata];
    [Created]: the request of [CreatedWorktreeMetadata], whose flag is false. *)
Inductive WorktreeMetadata : Type :=
| Adopted (adopted : bool) (adopted_from : option AdoptedFrom) (request : option IsolationRequest)
| Created (request : option IsolationRequest).
Record WorktreeEnvironment : Type := mk_WorktreeEnvironment {
  we_id : str; we_provider : str; working_path : str; branch_name : str;
  we_status : EnvironmentStatus; created_at : Z; warnings : option (list str);
  we_metadata : WorktreeMetadata;
}.

Record DestroyOptions : Type := mk_DestroyOptions {
  force : option bool; do_branch_name : option str; do_canonical_repo_path : option str;
  delete_remote_branch : option bool;
}.
Definition default_destroy : DestroyOptions := mk_DestroyOptions None None None None.
Record DestroyResult : Type := mk_DestroyResult {
  worktree_removed : bool; branch_deleted : option bool; remote_branch_deleted : option bool;
  directory_clean : bool; dr_warnings : list str;
}.

Record IsolationHints : Type := mk_IsolationHints {
  h_workflow_type : option IsolationWorkflowType; h_workflow_id : option str;
  h_pr_branch : option str; h_pr_sha : option str; h_is_fork_pr : option bool;
  h_from_branch : option str; h_base_branch : option str; h_linked_issues : option (list N);
}.

Record IsolationEnvironmentRow : Type := mk_IsolationEnvironmentRow {
  row_id : str; row_codebase_id : str; row_workflow_type : IsolationWorkflowType;
  row_workflow_id : str; row_provider : IsolationProviderType; row_working_path : str;
  row_branch_name : str; row_status : EnvironmentStatus; row_created_at : Z;
  row_created_by_platform : option str; row_created_by_user_id : option str; row_metadata : object;
}.
Record CreateEnvironmentParams : Type := mk_CreateEnvironmentParams {
  cp_codebase_id : str; cp_workflow_type : IsolationWorkflowType; cp_workflow_id : str;
  cp_provider : option IsolationProviderType; cp_working_path : str; cp_branch_name : str;
  cp_created_by_platform : option str; cp_created_by_user_id : option str;
  cp_metadata : option object;
}.
Record WorktreeCreateConfig : Type := mk_WorktreeCreateConfig {
  cfg_base_branch : option str; copy_files : option (list str); cfg_init_submodules : option bool;
  cfg_path : option str;
}.

Record CodebaseSummary : Type := mk_CodebaseSummary { cb_id : str; default_cwd : str; cb_name : str }.
Record ResolveRequest : Type := mk_ResolveRequest {
  existing_env_id : option str; codebase : option CodebaseSummary; hints : option IsolationHints;
  platform_type : str; rr_git_identity : option GitIdentity;
}.
Inductive ResolutionMethod : Type :=
| Existing
| WorkflowReuse
| LinkedIssueReuse (issue_number : N)
| BranchAdoption (branch : str)
| MethodCreated (auto_cleaned_count : option N).
Inductive IsolationResolution : Type :=
| Resolved (env : IsolationEnvironmentRow) (cwd : str) (method : ResolutionMethod)
    (warnings : option (list str))
| StaleCleaned (previous_env_id : str)
| NoIsolation (cwd : str)
| Blocked (reason user_message : str).

(** ** Errors ([lib.rs], [errors.rs]) *)

Inductive IsolationError : Type :=
| IsoBlocked (message : str)
| IsoGit (e : GitError)
| IsoIo (e : io.Error)
| IsoJson (message : str)
| InvalidStatus (status : str)
| Other (message : str).
Definition IsolationError_display (e : IsolationError) : str :=
  match e with
  | IsoBlocked m => lit "Isolation blocked: " ++ m
  | IsoGit e => lit "Git error: " ++ GitError_display e
  | IsoIo e => lit "IO error: " ++ io.text e
  | IsoJson m => lit "JSON error: " ++ m
  | InvalidStatus s => lit "Invalid status value: " ++ s
  | Other m => m
  end.
(** [map_err(|e| IsolationError::Other(e.to_string()))]. *)
Definition other {A} (r : result GitError A) : result IsolationError A :=
  map_err (fun e => Other (GitError_display e)) r.

Record ErrorPattern : Type := mk_ErrorPattern { pattern : str; ep_message : str; known : bool }.
Definition pat (p m : string) (k : bool) : ErrorPattern := mk_ErrorPattern (lit p) (lit m) k.
Definition ERROR_PATTERNS : list ErrorPattern :=
  [pat "permission denied" "**Error:** Permission denied while creating workspace. Check file system permissions." true;
   pat "eacces" "**Error:** Permission denied while creating workspace. Check file system permissions." true;
   pat "timeout" "**Error:** Timed out creating workspace. Git repository may be slow or unavailable." true;
   pat "no space left" "**Error:** No disk space available for new workspace." true;
   pat "enospc" "**Error:** No disk space available for new workspace." true;
   pat "not a git repository" "**Error:** Target path is not a valid git repository." true;
   pat "cannot extract owner/repo" "**Error:** Repository path is too short to extract owner and repo name. Re-register the codebase with a full path (e.g. `/home/user/owner/repo`)." false;
   pat "branch not found" "**Error:** Branch not found. The requested branch may have been deleted or not yet pushed." true;
   pat "no base branch configured" "**Error:** No base branch configured. Set `worktree.baseBranch` in `.archon/config.yaml` or use the `--from` flag to select a branch (e.g., `--from dev`)." true;
   pat "belongs to a different clone" "**Error:** A worktree at the target path was created by a different local clone. Remove it from that clone, or register this codebase from the same local path." true;
   pat "cannot verify worktree ownership" "**Error:** Cannot verify ownership of an existing worktree at the target path. Check file system permissions and remove any unrelated git directories at that path." true;
   pat "cannot adopt" "**Error:** Refused to adopt an existing directory at the worktree path. Remove it or choose a different branch/codebase registration." true;
   pat "submodule initialization failed" "**Error:** Submodule initialization failed. Check credentials and network access to submodule remotes, or set `worktree.initSubmodules: false` in `.archon/config.yaml` to opt out if submodules are not needed for your workflows." true].

Section Errors.
Context {UC : UnicodeCase}.
Definition combined_text (message : str) (stderr : option str) : str :=
  to_lowercase (message ++ lit " " ++ default [] stderr).
Definition classify_isolation_error (message : str) (stderr : option str) : str :=
  match list_find (fun ep => contains (pattern ep) (combined_text message stderr)) ERROR_PATTERNS with
  | Some (_, ep) => ep_message ep
  | None => lit "**Error:** Could not create isolated workspace (" ++ message ++ lit ")."
  end.
Definition is_known_isolation_error (message : str) (stderr : option str) : bool :=
  existsb (fun ep => known ep && contains (pattern ep) (combined_text message stderr)) ERROR_PATTERNS.
End Errors.

(** ** Calls *)

(** The calls of resolving: those of the system, the loader of the configuration of a
    repository, the clock, the store of environments, the cleanup that makes room. *)
Inductive iso_call : Type :=
| Sys (c : host_call)
| LoadConfig (repo_path : str)
| UtcNow
| GetById (id : str)
| FindActiveByWorkflow (codebase_id : str) (wt : IsolationWorkflowType) (workflow_id : str)
| CreateEnvironment (params : CreateEnvironmentParams)
| UpdateStatus (id status : str)
| Cleanup (codebase_id : str).
Definition iso_ret (c : iso_call) : Type :=
  match c with
  | Sys c => host_ret c
  | LoadConfig _ => option WorktreeCreateConfig
  | UtcNow => Z
  | GetById _ | FindActiveByWorkflow _ _ _ =>
      result IsolationError (option IsolationEnvironmentRow)
  | CreateEnvironment _ => result IsolationError IsolationEnvironmentRow
  | UpdateStatus _ _ => result IsolationError unit
  | Cleanup _ => N
  end.
#[export] Instance iso_calls : Calls iso_call := iso_ret.
Abbreviation iso := (@Process.proc iso_call iso_calls).
Definition call (c : iso_call) : iso (iso_ret c) := ask c.

(** What runs on the system alone runs here. *)
Definition lift {A} : host A -> iso A := Process.lift Sys (fun _ r => r).
Definition lift_event (e : event host_call) : event iso_call :=
  @mk_event iso_call iso_calls (Sys (ev_call e)) (ev_answer e).

Lemma always_sys {A} (p : host A) (Q : list (event iso_call) -> outcome A -> Prop) :
  always p (fun tr o => Q (map lift_event tr) o) -> always (lift p) Q.
Proof.
  intros H. apply always_lift. eapply always_mono, H. intros tr o Ho tr' Htr.
  cut (tr' = map lift_event tr); [by intros ->|]. clear Ho.
  induction Htr as [|e e' tr tr' (c & r & -> & ->) _ ->]; [done|reflexivity].
Qed.

(** ** The interface of a provider *)

Class IsolationProvider := {
  create : IsolationRequest -> iso (result IsolationError WorktreeEnvironment);
  destroy : str -> option DestroyOptions -> iso (result IsolationError DestroyResult);
  get : str -> iso (result IsolationError (option WorktreeEnvironment));
  list_environments : str -> iso (result IsolationError (list WorktreeEnvironment));
  adopt : str -> iso (result IsolationError (option WorktreeEnvironment));
  health_check : str -> iso (result IsolationError bool);
}.

(** ** The singleton ([factory.rs]) *)

Section Factory.
(** A loader, and the provider made from one. *)
Context {loader provider : Type} (new_provider : loader -> provider).
Record IsolationSingleton : Type := mk_IsolationSingleton {
  sg_provider : option provider; sg_loader : loader;
}.
Definition configure_isolation (l : loader) (s : IsolationSingleton) : IsolationSingleton :=
  mk_IsolationSingleton None l.
Definition get_isolation_provider (s : IsolationSingleton) : provider * IsolationSingleton :=
  match sg_provider s with
  | Some p => (p, s)
  | None => let p := new_provider (sg_loader s) in (p, mk_IsolationSingleton (Some p) (sg_loader s))
  end.
Definition set_isolation_provider (p : provider) (s : IsolationSingleton) : IsolationSingleton :=
  mk_IsolationSingleton (Some p) (sg_loader s).
Definition get_configured_loader (s : IsolationSingleton) : loader := sg_loader s.
Definition reset_isolation_provider (s : IsolationSingleton) : IsolationSingleton :=
  mk_IsolationSingleton None (sg_loader s).
End Factory.
Arguments IsolationSingleton : clear implicits.

(** ** Pull requests ([pr_state.rs]) *)

Inductive PrState : Type := Merged | Closed | Open | NoPr.
#[export] Instance PrState_eq_dec : EqDecision PrState.
Proof. solve_decision. Defined.

Definition pr_state_of (s : str) : PrState :=
  if str_eqb s (lit "MERGED") then Merged
  else if str_eqb s (lit "CLOSED") then Closed
  else if str_eqb s (lit "OPEN") then Open else NoPr.
Definition parse_pr_state (v : value) : PrState :=
  match v with
  | Array (first :: _) =>
      match value_get (lit "state") first ≫= as_str with
      | Some s => pr_state_of s
      | None => NoPr
      end
  | _ => NoPr
  end.

Section PullRequests.
Context {UC : UnicodeCase} {SJ : SerdeJson}.

(** The state, and the cache with what was found. *)
Definition remember (branch : str) (r : PrState) (cache : option (gmap str PrState))
  : PrState * option (gmap str PrState) := (r, <[branch := r]> <$> cache).
Definition get_pr_state (branch repo_path : str) (cache : option (gmap str PrState))
  : host (PrState * option (gmap str PrState)) :=
  match cache ≫= lookup branch with
  | Some cached => Done (cached, cache)
  | None =>
      remote ← exec_file_async (lit "git")
                 [lit "-C"; repo_path; lit "remote"; lit "get-url"; lit "origin"]
                 (with_timeout (Some 10000%N));
      match remote with
      | Err _ => Done (remember branch NoPr cache)
      | Ok out =>
          if negb (contains (lit "github.com") (to_lowercase (trim (stdout out))))
          then Done (remember branch NoPr cache)
          else
            gh ← exec_file_async (lit "gh")
                   [lit "pr"; lit "list"; lit "--head"; branch; lit "--state"; lit "all";
                    lit "--json"; lit "state"; lit "--limit"; lit "1"]
                   (mk_ExecOptions (Some repo_path) (Some 15000%N) None);
            Done (remember branch
              (match gh with
               | Ok out => match from_str (stdout out) with Some v => parse_pr_state v | None => NoPr end
               | Err _ => NoPr
               end) cache)
      end
  end.
End PullRequests.
