(* ===== verification/WorktreeProvider.v ===== *)
(** * The worktree provider

    [providers/worktree.rs] of [har-isolation]: the names of branches, the paths of
    worktrees, adoption of what exists, creation for every kind of request, and
    destruction.  A method is a process over the calls of [Isolation]; the methods of
    the trait are the instance [worktree_provider]. *)

From S2P Require Import Prelude StdModel Json Paths Git GitBranch WorktreeCopy Isolation.

Definition GIT_OPERATION_TIMEOUT_MS : N := 5 * 60 * 1000.

(** ** The configured path *)

(** One step of [normalize_path_str]: the pieces so far, the last one first. *)
Definition normalize_str_step (out : list str) (c : Component) : list str :=
  match c with
  | Normal s => s :: out
  | CurDir => out
  | ParentDir =>
      match out with
      | last :: out' => if str_eqb last (lit "..") then lit ".." :: out else out'
      | [] => [lit ".."]
      end
  | RootDir => [slash]
  end.
Definition normalize_path_str (p : str) : str :=
  fold_left path_join (rev (fold_left normalize_str_step (components p) [])) [].

Definition climbs (normalized : str) : bool :=
  str_eqb normalized (lit "..") || starts_with (lit "../") normalized
  || starts_with (lit ".." ++ [backslash]) normalized || contains (lit "/../") normalized
  || contains ([backslash] ++ lit ".." ++ [backslash]) normalized.

Definition resolve_repo_local_override (raw_path : option str) (repo_root : str)
  : host (result IsolationError (option str)) :=
  match raw_path with
  | None => Done (Ok None)
  | Some raw =>
      let trimmed := trim raw in
      if is_empty trimmed then Done (Ok None)
      else if is_absolute trimmed then
        Done (Err (Other
          (lit ".archon/config.yaml worktree.path must be relative to the repo root (got absolute: "
           ++ trimmed
           ++ lit "). For an absolute location, set ~/.archon/config.yaml paths.worktrees instead.")))
      else
        let normalized := normalize_path_str trimmed in
        if climbs normalized then
          Done (Err (Other
            (lit ".archon/config.yaml worktree.path must stay within the repo (got: " ++ trimmed
             ++ lit "). Remove any `..` segments.")))
        else
          base ← sys (Canonicalize repo_root);
          let resolved := path_join (unwrap_or base repo_root) normalized in
          root ← sys (Canonicalize repo_root);
          let repo_root_resolved := unwrap_or root repo_root in
          Done (if negb (path_eqb resolved repo_root_resolved)
                   && negb (path_starts_with resolved (path_join repo_root_resolved []))
                then Err (Other
                  (lit ".archon/config.yaml worktree.path resolves outside the repo root (got: "
                   ++ trimmed ++ lit " → " ++ resolved ++ lit ")."))
                else Ok (Some normalized))
  end.

(** ** Names of branches *)

(** The 32 bytes of a SHA-256 digest, from the crate [sha2]. *)
Class Sha256 := {
  sha256 : str -> list N;
  sha256_bytes : forall s, length (sha256 s) = 32 /\ Forall (fun b => (b < 256)%N) (sha256 s);
}.
Definition hex_digit (d : N) : char := (if (d <? 10)%N then 48 + d else 87 + d)%N.
Definition hex_encode (bytes : list N) : str :=
  concat (map (fun b => [hex_digit (b / 16); hex_digit (b mod 16)]) bytes).

Definition is_slug_char (c : char) : bool := is_ascii_lowercase c || is_ascii_digit c.
(** Runs of other characters become one dash. *)
Fixpoint dash_runs (in_run : bool) (s : str) : str :=
  match s with
  | [] => []
  | c :: s =>
      if is_slug_char c then c :: dash_runs false s
      else if in_run then dash_runs true s else 45%N :: dash_runs true s
  end.
Definition is_dash (c : char) : bool := (c =? 45)%N.
Definition trim_dashes (s : str) : str :=
  rev (trim_start_matches is_dash (rev (trim_start_matches is_dash s))).
(** The characters that start before the byte [limit]. *)
Fixpoint chars_before (i limit : nat) (s : str) : str :=
  match s with
  | [] => []
  | c :: s => if Nat.ltb i limit then c :: chars_before (i + utf8_width c) limit s else []
  end.

Section Provider.
Context {UC : UnicodeCase} {ENV : ProcessEnvironment} {CD : CommitDates} {SHA : Sha256}.
(** How deep a directory that is copied into a worktree may be. *)
Context (depth : nat).

Definition short_hash (input : str) : str := hex_encode (take 4 (sha256 input)).
Definition slugify (input : str) : str :=
  let stripped := trim_dashes (dash_runs false (to_lowercase input)) in
  if Nat.ltb 50 (byte_len stripped) then chars_before 0 50 stripped else stripped.

Definition generate_branch_name (request : IsolationRequest) : str :=
  match request with
  | Issue _ identifier => lit "archon/issue-" ++ identifier
  | Pr _ identifier pr_branch _ is_fork_pr =>
      if negb is_fork_pr then pr_branch else lit "archon/pr-" ++ identifier ++ lit "-review"
  | Review _ identifier => lit "archon/review-" ++ identifier
  | Thread _ identifier => lit "archon/thread-" ++ short_hash identifier
  | Task _ identifier _ => lit "archon/task-" ++ slugify identifier
  end.

(** ** Paths of worktrees *)

(** The base directory of the worktrees of a request. *)
Definition base_dir_of (base : IsolationRequestBase) (override : option str)
  : iso (result IsolationError str) :=
  repo_path ←? Done (other (to_repo_path (canonical_repo_path base)));
  found ← pure_step (get_worktree_base repo_path (codebase_name base) override);
  Done (match found with
        | Ok (dir, _) => Ok dir
        | Err e => Err (Other (ArchonPathError_display e))
        end).

Definition get_worktree_path (request : IsolationRequest) (branch_name : str)
    (config : option WorktreeCreateConfig) : iso (result IsolationError str) :=
  let base := request_base request in
  override ←? lift (resolve_repo_local_override (config ≫= cfg_path) (canonical_repo_path base));
  base_dir ←? base_dir_of base override;
  Done (Ok (path_join base_dir branch_name)).

(** ** Helpers *)

Definition directory_exists (path : str) : host (result IsolationError bool) :=
  r ← sys (Metadata path);
  Done (match r with
        | Ok _ => Ok true
        | Err e =>
            if io.is_not_found e then Ok false
            else Err (Other (lit "Failed to check directory at " ++ path ++ lit ": " ++ io.text e
                             ++ lit " (code: " ++ io.kind_display (io.kind e) ++ lit ")"))
        end).

(** [any] over the listed worktrees, each with its canonical path. *)
Fixpoint any_canonical (target : str) (worktrees : list WorktreeInfo) : host bool :=
  match worktrees with
  | [] => Done false
  | wt :: rest =>
      r ← sys (Canonicalize (wt_path wt));
      match r with
      | Ok p => if path_eqb p target then Done true else any_canonical target rest
      | Err _ => any_canonical target rest
      end
  end.
Definition is_worktree_registered (repo_path worktree_path : str) : host bool :=
  match to_repo_path repo_path with
  | Err _ => Done false
  | Ok repo =>
      worktrees ← list_worktrees repo;
      match worktrees with
      | Err _ => Done false
      | Ok worktrees =>
          target ← sys (Canonicalize worktree_path);
          any_canonical (unwrap_or target worktree_path) worktrees
      end
  end.

Definition is_worktree_missing_error (e : IsolationError) : bool :=
  lower_mentions ["no such file or directory"; "does not exist"; "is not a working tree"]%string
    (IsolationError_display e).

Definition git (args : list str) (ms : N) : host (result GitError ExecOutput) :=
  exec_file_async (lit "git") args (with_timeout (Some ms)).
Definition git_op (args : list str) : host (result GitError ExecOutput) :=
  git args GIT_OPERATION_TIMEOUT_MS.
(** A command whose failure is the failure of the caller. *)
Definition git_step (args : list str) : host (result IsolationError unit) :=
  r ← git_op args; Done ((fun _ => tt) <$> other r).

(** Whether the branch is gone, and the warnings that follow. *)
Definition delete_branch_tracked (repo_path branch_name : str) (ws : list str)
  : host (bool * list str) :=
  res ← git_op [lit "-C"; repo_path; lit "branch"; lit "-D"; branch_name];
  Done (match res with
        | Ok _ => (true, ws)
        | Err e =>
            let msg := GitError_display e in
            if mentions ["not found"; "did not match any"]%string msg then (true, ws)
            else if mentions ["checked out at"]%string msg
            then (false, ws ++ [lit "Cannot delete branch '" ++ branch_name
                                ++ lit "': branch is checked out elsewhere"])
            else (false, ws ++ [lit "Unexpected error deleting branch '" ++ branch_name
                                ++ lit "': " ++ msg])
        end).
Definition delete_remote_branch_tracked (repo_path branch_name : str) (ws : list str)
  : host (bool * list str) :=
  res ← git_op [lit "-C"; repo_path; lit "push"; lit "origin"; lit "--delete"; branch_name];
  Done (match res with
        | Ok _ => (true, ws)
        | Err e =>
            let msg := GitError_display e in
            if mentions ["remote ref does not exist"; "couldn't find remote ref"]%string msg
            then (true, ws)
            else (false, ws ++ [lit "Failed to delete remote branch '" ++ branch_name
                                ++ lit "': " ++ msg])
        end).

(** ** Adoption *)

Definition worktree_environment (path branch_name : str) (ws : option (list str))
    (metadata : WorktreeMetadata) : iso WorktreeEnvironment :=
  now ← call UtcNow;
  Done (mk_WorktreeEnvironment path (lit "worktree") path branch_name Active now ws metadata).
Definition build_adopted_environment (path branch_name : str) (adopted_from : option AdoptedFrom)
    (request : IsolationRequest) : iso WorktreeEnvironment :=
  worktree_environment path branch_name None (Adopted true adopted_from (Some request)).

(** A path, verified and adopted. *)
Definition adopt_verified (path repo_path branch_name : str) (adopted_from : option AdoptedFrom)
    (request : IsolationRequest) : iso (result IsolationError (option WorktreeEnvironment)) :=
  repo ←? Done (other (to_repo_path repo_path));
  verified ← lift (verify_worktree_ownership path repo);
  _ ←? Done (other verified);
  env ← build_adopted_environment path branch_name adopted_from request;
  Done (Ok (Some env)).

Definition find_existing (request : IsolationRequest) (branch_name worktree_path : str)
  : iso (result IsolationError (option WorktreeEnvironment)) :=
  let repo_path := canonical_repo_path (request_base request) in
  wt_path_typed ←? Done (other (to_worktree_path worktree_path));
  exists_ ← lift (worktree_exists wt_path_typed);
  if unwrap_or exists_ false then adopt_verified worktree_path repo_path branch_name None request
  else
    match request with
    | Pr _ _ pr_branch _ _ =>
        repo ←? Done (other (to_repo_path repo_path));
        branch ←? Done (other (to_branch_name pr_branch));
        found ← lift (find_worktree_by_branch repo branch);
        found ←? Done (map_err IsoGit found);
        match found with
        | Some existing =>
            existing_path ←? Done (other (to_worktree_path existing));
            adopt_verified existing_path repo pr_branch (Some FromBranch) request
        | None => Done (Ok None)
        end
    | _ => Done (Ok None)
    end.
End Provider.
