(* ===== verification/WorktreeCreate.v ===== *)
(** * The worktree provider: creation

    The second half of [providers/worktree.rs]: synchronising the clone, creating the
    worktree of a pull request or of a new branch, what is set up in it, and the methods
    of the trait, destruction included. *)

From S2P Require Import Prelude StdModel Json Paths Git GitBranch WorktreeCopy Isolation.
From S2P Require Import WorktreeProvider.

Section Create.
Context {UC : UnicodeCase} {ENV : ProcessEnvironment} {CD : CommitDates} {SHA : Sha256}.
Context (depth : nat).

(** ** Before the worktree *)

Definition forward_slashes (s : str) : str := replace [backslash] slash s.
(** A clone below the workspaces directory, whose tree may be reset. *)
Definition is_managed_clone (repo_path : str) : bool :=
  match get_archon_workspaces_path with
  | Ok ws => starts_with (forward_slashes ws) (forward_slashes repo_path)
  | Err _ => false
  end.

Definition sync_error (repo_path : str) (e : GitError) : IsolationError :=
  let msg := to_lowercase (GitError_display e) in
  Other (if contains (lit "permission denied") msg
         then lit "Permission denied accessing repository at " ++ repo_path
              ++ lit ". Check file permissions and try again."
         else if contains (lit "not a git repository") msg
         then repo_path ++ lit " is not a valid git repository. Ensure the workspace was cloned correctly."
         else if contains (lit "configured base branch") msg then GitError_display e
         else lit "Failed to fetch base branch from origin: " ++ GitError_display e
              ++ lit ". Check your network connection and try again.").

Definition sync_workspace_before_create (repo_path : str) (configured_base_branch : option str)
  : host (result IsolationError str) :=
  repo ←? Done (other (to_repo_path repo_path));
  base_branch ←? Done (match configured_base_branch with
                       | Some b => Some <$> other (to_branch_name b)
                       | None => Ok None
                       end);
  result ← sync_workspace repo base_branch (is_managed_clone repo_path);
  Done (match result with
        | Ok sync => Ok (sync_branch sync)
        | Err e => Err (sync_error repo_path e)
        end).

Definition clean_orphan_directory_if_exists (worktree_path : str) : host (result IsolationError unit) :=
  dir_exists ←? directory_exists worktree_path;
  if negb dir_exists then Done (Ok tt)
  else
    wt ←? Done (other (to_worktree_path worktree_path));
    is_valid ← worktree_exists wt;
    if unwrap_or is_valid false then Done (Ok tt)
    else
      r ← sys (RemoveDirAll worktree_path);
      Done (map_err (fun e => Other (lit "Failed to clean orphan directory at " ++ worktree_path
                                     ++ lit ": " ++ io.text e)) r).

Definition clean_orphan_worktree_if_exists (repo_path worktree_path : str) : host unit :=
  match to_worktree_path worktree_path, to_repo_path repo_path with
  | Ok wt, Ok repo =>
      is_valid ← worktree_exists wt;
      if unwrap_or is_valid false then _ ← remove_worktree repo wt; Done tt else Done tt
  | _, _ => Done tt
  end.

(** ** The worktree *)

Definition create_branch_with_stale_retry (repo_path branch_name : str)
    (create_command : host (result IsolationError unit)) : host (result IsolationError unit) :=
  r ← create_command;
  match r with
  | Ok _ => Done (Ok tt)
  | Err e =>
      if contains (lit "already exists") (IsolationError_display e)
      then _ ←? git_step [lit "-C"; repo_path; lit "branch"; lit "-D"; branch_name]; create_command
      else Done (Err e)
  end.

Definition create_from_same_repo_pr (repo_path worktree_path pr_branch : str)
  : host (result IsolationError unit) :=
  let remote := lit "origin/" ++ pr_branch in
  _ ←? git_step [lit "-C"; repo_path; lit "fetch"; lit "origin"; pr_branch];
  res ← git_op [lit "-C"; repo_path; lit "worktree"; lit "add"; worktree_path; lit "-b"; pr_branch;
                remote];
  _ ←? (match res with
        | Ok _ => Done (Ok tt)
        | Err e =>
            if contains (lit "already exists") (GitError_display e)
            then git_step [lit "-C"; repo_path; lit "worktree"; lit "add"; worktree_path; pr_branch]
            else Done (Err (Other (GitError_display e)))
        end);
  _ ← git_op [lit "-C"; worktree_path; lit "branch"; lit "--set-upstream-to"; remote];
  Done (Ok tt).

Definition create_from_fork_pr (repo_path worktree_path pr_number : str) (pr_sha : option str)
  : host (result IsolationError unit) :=
  let review_branch := lit "pr-" ++ pr_number ++ lit "-review" in
  let head := lit "pull/" ++ pr_number ++ lit "/head" in
  match pr_sha with
  | Some sha =>
      _ ←? git_step [lit "-C"; repo_path; lit "fetch"; lit "origin"; head];
      _ ←? git_step [lit "-C"; repo_path; lit "worktree"; lit "add"; worktree_path; sha];
      create_branch_with_stale_retry repo_path review_branch
        (git_step [lit "-C"; worktree_path; lit "checkout"; lit "-b"; review_branch; sha])
  | None =>
      _ ←? create_branch_with_stale_retry repo_path review_branch
             (git_step [lit "-C"; repo_path; lit "fetch"; lit "origin";
                        head ++ lit ":" ++ review_branch]);
      git_step [lit "-C"; repo_path; lit "worktree"; lit "add"; worktree_path; review_branch]
  end.

Definition create_from_pr (request : IsolationRequest) (worktree_path : str)
  : host (result IsolationError unit) :=
  match request with
  | Pr base identifier pr_branch pr_sha is_fork_pr =>
      let repo_path := canonical_repo_path base in
      _ ←? clean_orphan_directory_if_exists worktree_path;
      result ← (if negb is_fork_pr then create_from_same_repo_pr repo_path worktree_path pr_branch
                else create_from_fork_pr repo_path worktree_path identifier pr_sha);
      match result with
      | Ok _ => Done (Ok tt)
      | Err e =>
          _ ← clean_orphan_worktree_if_exists repo_path worktree_path;
          Done (Err (Other (lit "Failed to create worktree for PR #" ++ identifier ++ lit ": "
                            ++ IsolationError_display e)))
      end
  | _ => Done (Err (Other (lit "create_from_pr: not a PR request")))
  end.

(** The start point a task names. *)
Definition explicit_start (request : IsolationRequest) : option str :=
  match request with Task _ _ from_branch => from_branch | _ => None end.

Definition create_new_branch (request : IsolationRequest)
    (repo_path worktree_path branch_name base_branch : str) : host (result IsolationError unit) :=
  _ ←? clean_orphan_directory_if_exists worktree_path;
  let start_point := match explicit_start request with
                     | Some fb => fb
                     | None => lit "origin/" ++ base_branch
                     end in
  res ← git_op [lit "-C"; repo_path; lit "worktree"; lit "add"; worktree_path; lit "-b"; branch_name;
                start_point];
  match res with
  | Ok _ => Done (Ok tt)
  | Err e =>
      if contains (lit "already exists") (GitError_display e) then
        match explicit_start request with
        | Some fb =>
            Done (Err (Other (lit "Branch " ++ [dquote] ++ branch_name ++ [dquote]
              ++ lit " already exists. Cannot create it from " ++ [dquote] ++ fb ++ [dquote]
              ++ lit ". Either choose a different --branch name or omit --from.")))
        | None =>
            reset ← git [lit "-C"; repo_path; lit "branch"; lit "-f"; branch_name; start_point] 10000;
            _ ←? Done (other reset);
            git_step [lit "-C"; repo_path; lit "worktree"; lit "add"; worktree_path; branch_name]
        end
      else Done (Err (Other (GitError_display e)))
  end.

(** ** In the worktree *)

Definition init_submodules (worktree_path : str) : host (result IsolationError unit) :=
  found ← sys (Metadata (path_join worktree_path (lit ".gitmodules")));
  match found with
  | Err e =>
      Done (if io.is_not_found e then Ok tt
            else Err (Other (lit "Submodule initialization failed: cannot read .gitmodules ("
                             ++ io.kind_display (io.kind e) ++ lit ")")))
  | Ok _ =>
      res ← git [lit "-C"; worktree_path; lit "submodule"; lit "update"; lit "--init";
                 lit "--recursive"] 120000;
      Done (match res with
            | Ok _ => Ok tt
            | Err e => Err (Other (lit "Submodule initialization failed: " ++ GitError_display e))
            end)
  end.

Definition apply_git_identity (worktree_path email : str) (name : option str) : host unit :=
  res ← git [lit "-C"; worktree_path; lit "config"; lit "user.email"; email] 5000;
  match res, name with
  | Ok _, Some n => _ ← git [lit "-C"; worktree_path; lit "config"; lit "user.name"; n] 5000; Done tt
  | _, _ => Done tt
  end.

(** The result says whether the configuration could not be loaded. *)
Definition copy_configured_files (canonical_repo_path worktree_path : str)
    (worktree_config : option WorktreeCreateConfig) : iso bool :=
  user_copy_files ←
    (match worktree_config with
     | Some cfg => Done (default [] (copy_files cfg))
     | None =>
         loaded ← call (LoadConfig canonical_repo_path);
         Done (match loaded with Some l => default [] (copy_files l) | None => [] end)
     end : iso (list str));
  let files := dedup [] (lit ".archon" :: user_copy_files) in
  if is_empty files then Done false
  else
    _ ← lift (copy_worktree_files depth canonical_repo_path worktree_path files);
    Done false.

Definition create_worktree (request : IsolationRequest) (worktree_path branch_name : str)
    (worktree_config : option WorktreeCreateConfig) : iso (result IsolationError (list str)) :=
  let base := request_base request in
  let repo_path := canonical_repo_path base in
  base_branch ←? lift (sync_workspace_before_create repo_path (worktree_config ≫= cfg_base_branch));
  override ←? lift (resolve_repo_local_override (worktree_config ≫= cfg_path) repo_path);
  base_dir ←? base_dir_of base override;
  made ← lift (mkdir_async base_dir true);
  _ ←? Done (map_err IsoGit made);
  _ ←? lift (if is_pr_isolation_request request then create_from_pr request worktree_path
             else create_new_branch request repo_path worktree_path branch_name base_branch);
  _ ← (match git_identity base with
       | Some id =>
           if is_empty (email id) then Done tt
           else lift (apply_git_identity worktree_path (email id) (identity_name id))
       | None => Done tt
       end : iso unit);
  _ ←? (match worktree_config ≫= cfg_init_submodules with
        | Some false => Done (Ok tt)
        | _ => lift (init_submodules worktree_path)
        end);
  config_load_failed ← copy_configured_files repo_path worktree_path worktree_config;
  Done (Ok (if config_load_failed : bool
            then [lit "Config file could not be loaded — copyFiles configuration was not applied. Check your .archon/config.yaml for syntax errors."]
            else [])).

(** ** The methods of the trait *)

Definition provider_create (request : IsolationRequest)
  : iso (result IsolationError WorktreeEnvironment) :=
  let base := request_base request in
  repo_config ← call (LoadConfig (canonical_repo_path base));
  let branch_name := generate_branch_name request in
  worktree_path ←? get_worktree_path request branch_name repo_config;
  existing ←? find_existing request branch_name worktree_path;
  match existing with
  | Some env => Done (Ok env)
  | None =>
      ws ←? create_worktree request worktree_path branch_name repo_config;
      env ← worktree_environment worktree_path branch_name (if is_empty ws then None else Some ws)
              (Created (Some request));
      Done (Ok env)
  end.

(** Removing the worktree itself, when its path exists: whether it was removed, whether
    its directory is gone, and the warnings. *)
Definition remove_existing (repo_path worktree_path : str) (force : option bool) (ws : list str)
  : host (result IsolationError (bool * list str)) :=
  res ← git_op ([lit "-C"; repo_path; lit "worktree"; lit "remove"]
                ++ (if bool_decide (force = Some true) then [lit "--force"] else []) ++ [worktree_path]);
  let res := other res in
  _ ←? Done (match res with
             | Ok _ => Ok tt
             | Err e => if is_worktree_missing_error e then Ok tt else Err e
             end);
  dir_exists ←? directory_exists worktree_path;
  if dir_exists : bool then
    r ← sys (RemoveDirAll worktree_path);
    Done (Ok (match r with
              | Ok _ => (true, ws)
              | Err e => (false, ws ++ [lit "Failed to clean remaining directory at " ++ worktree_path
                                        ++ lit ": " ++ io.text e])
              end))
  else Done (Ok (true, ws)).

(** Deleting the branch, here and on the remote. *)
Definition delete_branches (repo_path : str) (options : DestroyOptions) (removed clean : bool)
    (ws : list str) : host DestroyResult :=
  match do_branch_name options with
  | None => Done (mk_DestroyResult removed None None clean ws)
  | Some bn =>
      deleted ← delete_branch_tracked repo_path bn ws;
      if bool_decide (delete_remote_branch options = Some true) then
        remote ← delete_remote_branch_tracked repo_path bn (snd deleted);
        Done (mk_DestroyResult removed (Some (fst deleted)) (Some (fst remote)) clean (snd remote))
      else Done (mk_DestroyResult removed (Some (fst deleted)) None clean (snd deleted))
  end.

Definition provider_destroy (env_id : str) (options : option DestroyOptions)
  : host (result IsolationError DestroyResult) :=
  let worktree_path := env_id in
  let options := default default_destroy options in
  path_exists ←? directory_exists worktree_path;
  repo_path ←? (match do_canonical_repo_path options with
                | Some crp => Done (Ok (Some crp))
                | None =>
                    if path_exists : bool then
                      r ← get_canonical_repo_path worktree_path; Done (Some <$> other r)
                    else Done (Ok None)
                end);
  match repo_path with
  | None =>
      Done (Ok (mk_DestroyResult true None None true
        (match do_branch_name options with
         | Some bn => [lit "Cannot delete branch '" ++ bn
                       ++ lit "': worktree path gone and no canonicalRepoPath provided"]
         | None => []
         end)))
  | Some repo_path =>
      removal ←? (if path_exists : bool then remove_existing repo_path worktree_path (force options) []
                  else Done (Ok (true, [])));
      let '(clean, ws) := removal in
      _ ← git [lit "-C"; repo_path; lit "worktree"; lit "prune"] 15000;
      still_registered ← is_worktree_registered repo_path worktree_path;
      let ws := if still_registered : bool
                then ws ++ [lit "Worktree at " ++ worktree_path
                            ++ lit " was reported removed but is still registered in git"]
                else ws in
      r ← delete_branches repo_path options (negb still_registered) clean ws;
      Done (Ok r)
  end.

Definition provider_get (env_id : str) : iso (result IsolationError (option WorktreeEnvironment)) :=
  wt ←? Done (other (to_worktree_path env_id));
  exists_ ← lift (worktree_exists wt);
  if negb (unwrap_or exists_ false) then Done (Ok None)
  else
    repo_path ← lift (get_canonical_repo_path env_id);
    repo_path ←? Done (other repo_path);
    worktrees ← lift (list_worktrees repo_path);
    worktrees ←? Done (other worktrees);
    match list_find (fun w => wt_path w = env_id) worktrees with
    | None => Done (Ok None)
    | Some (_, w) =>
        env ← worktree_environment env_id (wt_branch w) None (Adopted false None None);
        Done (Ok (Some env))
    end.

Fixpoint environments (codebase_id : str) (worktrees : list WorktreeInfo)
  : iso (list WorktreeEnvironment) :=
  match worktrees with
  | [] => Done []
  | w :: rest =>
      if bool_decide (wt_path w = codebase_id) then environments codebase_id rest
      else
        env ← worktree_environment (wt_path w) (wt_branch w) None (Adopted false None None);
        envs ← environments codebase_id rest;
        Done (env :: envs)
  end.
Definition provider_list (codebase_id : str) : iso (result IsolationError (list WorktreeEnvironment)) :=
  repo_path ←? Done (other (to_repo_path codebase_id));
  worktrees ← lift (list_worktrees repo_path);
  worktrees ←? Done (map_err IsoGit worktrees);
  envs ← environments codebase_id worktrees;
  Done (Ok envs).

Definition provider_adopt (path : str) : iso (result IsolationError (option WorktreeEnvironment)) :=
  wt ←? Done (other (to_worktree_path path));
  exists_ ← lift (worktree_exists wt);
  if negb (unwrap_or exists_ false) then Done (Ok None)
  else
    repo_path ← lift (get_canonical_repo_path path);
    match repo_path with
    | Err e =>
        Done (if lower_mentions ["not a git repository"]%string (GitError_display e) then Ok None
              else Err (Other (GitError_display e)))
    | Ok repo_path =>
        worktrees ← lift (list_worktrees repo_path);
        worktrees ←? Done (other worktrees);
        match list_find (fun w => wt_path w = path) worktrees with
        | None => Done (Ok None)
        | Some (_, w) =>
            env ← worktree_environment path (wt_branch w) None (Adopted true None None);
            Done (Ok (Some env))
        end
    end.

Definition provider_health_check (env_id : str) : host (result IsolationError bool) :=
  wt ←? Done (other (to_worktree_path env_id));
  r ← worktree_exists wt;
  Done (Ok (unwrap_or r false)).

#[export] Instance worktree_provider : IsolationProvider := {|
  create := provider_create;
  destroy := fun env_id options => lift (provider_destroy env_id options);
  get := provider_get;
  list_environments := provider_list;
  adopt := provider_adopt;
  health_check := fun env_id => lift (provider_health_check env_id);
|}.
End Create.
