(* ===== verification/Resolver.v ===== *)
(** * The isolation resolver

    [resolver.rs] of [har-isolation]: the cascade that decides where a conversation
    works: in the environment it already has, in one of its workflow or of a linked
    issue, in a worktree that has its branch, or in a new one. *)

From S2P Require Import Prelude StdModel Json Paths Git GitBranch Isolation.

Definition DEFAULT_STALE_THRESHOLD_DAYS : N := 14.

(** [IsolationResolver]: what is stored besides the store and the provider, which are
    the calls and the instance of [IsolationProvider]. *)
Record IsolationResolver : Type := mk_IsolationResolver {
  has_cleanup : bool; stale_threshold_days : N;
}.
Definition resolver_new (cleanup : bool) (threshold : option N)
  : result IsolationError IsolationResolver :=
  let days := default DEFAULT_STALE_THRESHOLD_DAYS threshold in
  if (days =? 0)%N then Err (Other (lit "staleThresholdDays must be > 0"))
  else Ok (mk_IsolationResolver cleanup days).

Section Resolver.
Context {UC : UnicodeCase} {IP : IsolationProvider}.
Context (self : IsolationResolver).

(** ** Helpers *)

Definition mark_destroyed_best_effort (env_id : str) : iso unit :=
  _ ← call (UpdateStatus env_id (lit "destroyed")); Done tt.

Definition assert_worktree_ownership (canonical_repo_path working_path : str)
  : iso (result IsolationError unit) :=
  repo ←? Done (other (to_repo_path canonical_repo_path));
  wt ←? Done (other (to_worktree_path working_path));
  r ← lift (verify_worktree_ownership wt repo);
  Done (other r).

Definition base_branch_warning (branch_name base_branch : str) : str :=
  lit "Worktree branch '" ++ branch_name ++ lit "' is not based on '" ++ base_branch
  ++ lit "'. Recreate with: archon complete " ++ branch_name ++ lit " --force".
Definition collect_base_branch_warnings (branch_name working_path : str)
    (hints : option IsolationHints) : iso (list str) :=
  match hints ≫= h_base_branch with
  | None => Done []
  | Some base_branch =>
      r ← lift (is_ancestor_of working_path (lit "origin/" ++ base_branch));
      Done (match r with
            | Ok false => [base_branch_warning branch_name base_branch]
            | Ok true | Err _ => []
            end)
  end.
Definition some_warnings (ws : list str) : option (list str) := if is_empty ws then None else Some ws.

(** Whether a worktree is on disk: an error counts as missing. *)
Definition on_disk (working_path : str) : iso (result IsolationError bool) :=
  wt ←? Done (other (to_worktree_path working_path));
  r ← lift (worktree_exists wt);
  Done (Ok (unwrap_or r false)).

(** ** Stages *)

Definition check_existing (env_id : str) (hints : option IsolationHints)
  : iso (result IsolationError (option IsolationResolution)) :=
  row ←? call (GetById env_id);
  match row with
  | None => Done (Ok None)
  | Some row =>
      exists_ ←? on_disk (row_working_path row);
      if exists_ : bool then
        ws ← collect_base_branch_warnings (row_branch_name row) (row_working_path row) hints;
        Done (Ok (Some (Resolved row (row_working_path row) Existing (some_warnings ws))))
      else
        _ ← mark_destroyed_best_effort env_id; Done (Ok None)
  end.

Definition find_reusable_environment (codebase : CodebaseSummary) (canonical_repo_path : str)
    (workflow_type : IsolationWorkflowType) (workflow_id : str) (hints : option IsolationHints)
  : iso (result IsolationError (option IsolationResolution)) :=
  row ←? call (FindActiveByWorkflow (cb_id codebase) workflow_type workflow_id);
  match row with
  | None => Done (Ok None)
  | Some row =>
      exists_ ←? on_disk (row_working_path row);
      if negb exists_ then _ ← mark_destroyed_best_effort (row_id row); Done (Ok None)
      else
        _ ←? assert_worktree_ownership canonical_repo_path (row_working_path row);
        ws ← collect_base_branch_warnings (row_branch_name row) (row_working_path row) hints;
        Done (Ok (Some (Resolved row (row_working_path row) WorkflowReuse (some_warnings ws))))
  end.

Fixpoint linked_issues_loop (codebase : CodebaseSummary) (canonical_repo_path : str)
    (linked_issues : list N) : iso (result IsolationError (option IsolationResolution)) :=
  match linked_issues with
  | [] => Done (Ok None)
  | issue_num :: rest =>
      row ←? call (FindActiveByWorkflow (cb_id codebase) WfIssue (show_N issue_num));
      match row with
      | None => linked_issues_loop codebase canonical_repo_path rest
      | Some row =>
          exists_ ←? on_disk (row_working_path row);
          if negb exists_ then
            _ ← mark_destroyed_best_effort (row_id row);
            linked_issues_loop codebase canonical_repo_path rest
          else
            _ ←? assert_worktree_ownership canonical_repo_path (row_working_path row);
            Done (Ok (Some (Resolved row (row_working_path row) (LinkedIssueReuse issue_num) None)))
      end
  end.
Definition find_linked_issue_environment (codebase : CodebaseSummary) (canonical_repo_path : str)
    (hints : IsolationHints) : iso (result IsolationError (option IsolationResolution)) :=
  linked_issues_loop codebase canonical_repo_path (default [] (h_linked_issues hints)).

(** The user an environment is recorded for. *)
Definition created_by (git_identity : option GitIdentity) : option str :=
  i ← git_identity; if is_empty (email i) then None else Some (email i).

Definition try_branch_adoption (codebase : CodebaseSummary) (canonical_repo_path : str)
    (hints : IsolationHints) (workflow_type : IsolationWorkflowType) (workflow_id : str)
    (git_identity : option GitIdentity)
  : iso (result IsolationError (option IsolationResolution)) :=
  match h_pr_branch hints with
  | None => Done (Ok None)
  | Some branch =>
      repo ←? Done (other (to_repo_path canonical_repo_path));
      branch_typed ←? Done (other (to_branch_name branch));
      found ← lift (find_worktree_by_branch repo branch_typed);
      found ←? Done (map_err IsoGit found);
      match found with
      | None => Done (Ok None)
      | Some working_path =>
          exists_ ←? on_disk working_path;
          if negb exists_ then Done (Ok None)
          else
            _ ←? assert_worktree_ownership canonical_repo_path working_path;
            env ←? call (CreateEnvironment (mk_CreateEnvironmentParams (cb_id codebase) workflow_type
                     workflow_id (Some Worktree) working_path branch None (created_by git_identity)
                     (Some [(lit "adopted", Bool true);
                            (lit "adopted_from", Json.String (lit "skill"))])));
            Done (Ok (Some (Resolved env working_path (BranchAdoption branch) None)))
      end
  end.

Definition build_isolation_request (base : IsolationRequestBase)
    (workflow_type : IsolationWorkflowType) (workflow_id : str) (hints : option IsolationHints)
  : result IsolationError IsolationRequest :=
  match workflow_type with
  | WfIssue => Ok (Issue base workflow_id)
  | WfReview => Ok (Review base workflow_id)
  | WfThread => Ok (Thread base workflow_id)
  | WfTask => Ok (Task base workflow_id (hints ≫= h_from_branch))
  | WfPr =>
      match hints with
      | None => Err (Other (lit "PR isolation request requires hints (prBranch, isForkPR)"))
      | Some h =>
          match h_pr_branch h with
          | None => Err (Other (lit "PR isolation request missing prBranch hint"))
          | Some b => Ok (Pr base workflow_id b (h_pr_sha h) (default false (h_is_fork_pr h)))
          end
      end
  end.

Definition create_new_environment (codebase : CodebaseSummary) (canonical_repo_path : str)
    (workflow_type : IsolationWorkflowType) (workflow_id : str) (hints : option IsolationHints)
    (platform_type : str) (git_identity : option GitIdentity)
  : iso (result IsolationError IsolationResolution) :=
  auto_cleaned_count ← (if has_cleanup self then call (Cleanup (cb_id codebase)) else Done 0%N : iso N);
  request ←? Done (build_isolation_request
                     (mk_IsolationRequestBase (cb_id codebase) (Some (cb_name codebase))
                        canonical_repo_path None git_identity)
                     workflow_type workflow_id hints);
  created ← create request;
  match created with
  | Err e =>
      let err_str := IsolationError_display e in
      Done (if is_known_isolation_error err_str None
            then Ok (Blocked (lit "creation_failed") (classify_isolation_error err_str None))
            else Err e)
  | Ok wt_env =>
      stored ← call (CreateEnvironment (mk_CreateEnvironmentParams (cb_id codebase) workflow_type
                 workflow_id (Some Worktree) (working_path wt_env) (branch_name wt_env)
                 (Some platform_type) (created_by git_identity) None));
      match stored with
      | Err e =>
          _ ← destroy (working_path wt_env)
                (Some (mk_DestroyOptions (Some true) (Some (branch_name wt_env))
                         (Some canonical_repo_path) None));
          Done (Err (Other (lit "Failed to persist isolation environment record: "
                            ++ IsolationError_display e)))
      | Ok env =>
          Done (Ok (Resolved env (working_path wt_env)
            (MethodCreated (if (0 <? auto_cleaned_count)%N then Some auto_cleaned_count else None))
            (warnings wt_env)))
      end
  end.

(** ** The cascade *)

(** The first stage that resolves, or the next. *)
Definition or_else (stage : iso (result IsolationError (option IsolationResolution)))
    (next : iso (result IsolationError IsolationResolution))
  : iso (result IsolationError IsolationResolution) :=
  found ←? stage; match found with Some resolution => Done (Ok resolution) | None => next end.

(** The stages of a codebase whose repository is known. *)
Definition resolve_in (request : ResolveRequest) (codebase : CodebaseSummary)
    (canonical_repo_path : str) : iso (result IsolationError IsolationResolution) :=
  let hints := hints request in
  let workflow_type := default WfThread (hints ≫= h_workflow_type) in
  let workflow_id := default [] (hints ≫= h_workflow_id) in
  let git_identity := rr_git_identity request in
  or_else
    (if negb (is_empty workflow_id)
     then find_reusable_environment codebase canonical_repo_path workflow_type workflow_id hints
     else Done (Ok None))
  (or_else
    (match hints with
     | Some h => find_linked_issue_environment codebase canonical_repo_path h
     | None => Done (Ok None)
     end)
  (or_else
    (match hints with
     | Some h =>
         if bool_decide (is_Some (h_pr_branch h))
         then try_branch_adoption codebase canonical_repo_path h workflow_type workflow_id git_identity
         else Done (Ok None)
     | None => Done (Ok None)
     end)
    (create_new_environment codebase canonical_repo_path workflow_type workflow_id hints
       (platform_type request) git_identity))).

Definition resolve (request : ResolveRequest) : iso (result IsolationError IsolationResolution) :=
  match existing_env_id request with
  | Some env_id =>
      or_else (check_existing env_id (hints request)) (Done (Ok (StaleCleaned env_id)))
  | None =>
      match codebase request with
      | None => Done (Ok (NoIsolation (lit "/workspace")))
      | Some codebase =>
          found ← lift (get_canonical_repo_path (default_cwd codebase));
          match found with
          | Err e =>
              Done (if lower_mentions ["not a git repository"; "no such file or directory"]%string
                         (GitError_display e)
                    then Ok (Blocked (lit "creation_failed")
                      (lit "**Error:** The workspace path `" ++ default_cwd codebase
                       ++ lit "` is not a valid git repository. Please check the codebase configuration."))
                    else Err (Other (GitError_display e)))
          | Ok canonical_repo_path => resolve_in request codebase canonical_repo_path
          end
      end
  end.
End Resolver.
