(* ===== verification/IsolationSpecs.v ===== *)
(** * What resolving guarantees

    The resolver is proved against the interface of a provider: its calls are not those
    of the store.  A resolution is backed by what was seen on the way: the worktree is
    on disk, and it belongs to the repository of the codebase when it was found and not
    made; at most one environment is recorded, and it is the one returned. *)

From S2P Require Import Prelude StdModel Json Paths Git GitBranch GitSpecs Isolation Resolver.

(** ** Evidence in a trace *)

Abbreviation itrace := (list (event iso_call)).

(** The worktree and its [.git] were there. *)
Definition seen (path : str) (tr : itrace) : Prop :=
  exists d g, tr = [@mk_event iso_call iso_calls (Sys (Metadata path)) (Ok d);
                    @mk_event iso_call iso_calls (Sys (Metadata (path_join path (lit ".git")))) (Ok g)].
(** Its pointer file was followed to the repository. *)
Definition owned (path repo : str) (tr : itrace) : Prop :=
  exists htr, tr = map lift_event htr /\ verified path repo htr.
(** The store answered with the row. *)
Definition fetched (row : IsolationEnvironmentRow) (tr : itrace) : Prop :=
  (exists id, tr = [@mk_event iso_call iso_calls (GetById id) (Ok (Some row))])
  \/ exists c w i, tr = [@mk_event iso_call iso_calls (FindActiveByWorkflow c w i) (Ok (Some row))].
Definition recorded (params : CreateEnvironmentParams) (row : IsolationEnvironmentRow) (tr : itrace) : Prop :=
  tr = [@mk_event iso_call iso_calls (CreateEnvironment params) (Ok row)].

(** What a resolution rests on; [repo] is the repository of the codebase. *)
Definition backed (repo : str) (r : IsolationResolution) (tr : itrace) : Prop :=
  match r with
  | Resolved env cwd Existing _ =>
      cwd = row_working_path env /\ seg (fetched env) tr /\ seg (seen cwd) tr
  | Resolved env cwd (WorkflowReuse | LinkedIssueReuse _) _ =>
      cwd = row_working_path env /\ seg (fetched env) tr /\ seg (seen cwd) tr
      /\ seg (owned cwd repo) tr
  | Resolved env cwd (BranchAdoption branch) _ =>
      seg (seen cwd) tr /\ seg (owned cwd repo) tr
      /\ exists p, cp_working_path p = cwd /\ cp_branch_name p = branch /\ seg (recorded p env) tr
  | Resolved env cwd (MethodCreated _) _ =>
      exists p, cp_working_path p = cwd /\ seg (recorded p env) tr
  | _ => True
  end.

(** What the stages after the first may find. *)
Definition stage_ok (repo : str) (r : IsolationResolution) (tr : itrace) : Prop :=
  match r with
  | Resolved _ _ Existing _ | StaleCleaned _ | NoIsolation _ => False
  | Resolved _ _ _ _ => backed repo r tr
  | Blocked reason _ => reason = lit "creation_failed"
  end.

Lemma stage_ok_app_l repo r a tr : stage_ok repo r tr -> stage_ok repo r (a ++ tr).
Proof.
  destruct r as [env cwd [] ws| | |]; cbn [stage_ok backed]; naive_solver (auto using seg_app_l).
Qed.

(** The possible resolution of a stage is backed. *)
Definition stage_backed (repo : str) (tr : itrace)
    (r : result IsolationError (option IsolationResolution)) : Prop :=
  match r with Ok (Some res) => stage_ok repo res tr | _ => True end.
Definition result_backed (repo : str) (tr : itrace)
    (r : result IsolationError IsolationResolution) : Prop :=
  match r with Ok res => stage_ok repo res tr | Err _ => True end.

(** ** Helpers *)

Section Helpers.
Context {UC : UnicodeCase}.

Lemma post_lift {A} (p : host A) (R : list (event host_call) -> A -> Prop) :
  post p R -> post (lift p) (fun tr a => exists htr, tr = map lift_event htr /\ R htr a).
Proof.
  intros H. unfold post. apply always_sys. eapply always_mono, H.
  intros tr [a|] Ha; [by exists tr|done].
Qed.

Lemma post_pure {A B} (r : result A B) (R : itrace -> result A B -> Prop) :
  R [] r -> post (Done r) R.
Proof. apply post_done. Qed.

Lemma exists_seen (path : str) :
  post (worktree_exists path) (fun tr r => r = Ok true ->
    exists d g, tr = [@mk_event host_call host_calls (Metadata path) (Ok d);
                      @mk_event host_call host_calls (Metadata (path_join path (lit ".git"))) (Ok g)]).
Proof.
  intros [d|e]; cbn [mbind proc_bind]; [|by destruct (io.is_not_found e)].
  intros [g|e]; cbn; [by eexists _, _|by destruct (io.is_not_found e)].
Qed.

Lemma to_worktree_path_Ok (p q : str) : other (to_worktree_path p) = Ok q -> q = p.
Proof. unfold to_worktree_path, non_empty. destruct (is_empty p); [done|]. by intros [= ->]. Qed.
Lemma to_repo_path_Ok (p q : str) : other (to_repo_path p) = Ok q -> q = p.
Proof. unfold to_repo_path, non_empty. destruct (is_empty p); [done|]. by intros [= ->]. Qed.

Lemma on_disk_seen (path : str) :
  post (on_disk path) (fun tr r => r = Ok true -> seen path tr).
Proof.
  unfold on_disk. unfold try at 1. cbn [mbind proc_bind].
  destruct (other (to_worktree_path path)) as [q|e] eqn:E; [|done].
  apply to_worktree_path_Ok in E as ->.
  eapply post_bind; [apply post_lift, exists_seen|]. intros r. apply post_done.
  intros tr (htr & -> & H) Hr. rewrite app_nil_r.
  destruct r as [[]|]; try done. destruct (H eq_refl) as (d & g & ->). by exists d, g.
Qed.

Lemma ownership_owned (repo path : str) :
  post (assert_worktree_ownership repo path) (fun tr r => r = Ok tt -> owned path repo tr).
Proof.
  unfold assert_worktree_ownership. unfold try at 1. cbn [mbind proc_bind].
  destruct (other (to_repo_path repo)) as [q|e] eqn:E; [|done]. apply to_repo_path_Ok in E as ->.
  unfold try at 1. cbn [mbind proc_bind].
  destruct (other (to_worktree_path path)) as [q|e] eqn:E; [|done].
  apply to_worktree_path_Ok in E as ->.
  eapply post_bind; [apply post_lift, verify_post|]. intros r. apply post_done.
  intros tr (htr & -> & H) Hr. rewrite app_nil_r.
  exists htr. split; [done|]. apply H. by destruct r as [[]|].
Qed.
End Helpers.

(** ** The stages are backed *)

Lemma post_call c (R : itrace -> iso_ret c -> Prop) :
  (forall r, R [@mk_event iso_call iso_calls c r] r) -> post (call c) R.
Proof. intros H r. apply H. Qed.

Section Stages.
Context {UC : UnicodeCase} {IP : IsolationProvider} (self : IsolationResolver).

(** A row the store answered with. *)
Definition row_fetched (tr : itrace) (row : option IsolationEnvironmentRow) : Prop :=
  match row with Some row => fetched row tr | None => True end.
Lemma get_by_id_fetched id :
  post (call (GetById id)) (fun tr r => match r with Ok row => row_fetched tr row | Err _ => True end).
Proof. apply post_call. intros [[row|]|e]; [|done|done]. left. by eexists. Qed.
Lemma find_active_fetched c w i :
  post (call (FindActiveByWorkflow c w i))
    (fun tr r => match r with Ok row => row_fetched tr row | Err _ => True end).
Proof. apply post_call. intros [[row|]|e]; [|done|done]. right. by do 3 eexists. Qed.

Ltac tail_any := eapply post_bind; [apply post_any|]; intros ?; apply post_done.

Lemma assert_owned repo path :
  post (assert_worktree_ownership repo path)
    (fun tr r => match r with Ok _ => owned path repo tr | Err _ => True end).
Proof. eapply post_mono, ownership_owned. intros tr [[]|e] H; [by apply H|done]. Qed.
Lemma on_disk_true path :
  post (on_disk path) (fun tr r => match r with Ok b => b = true -> seen path tr | Err _ => True end).
Proof. eapply post_mono, on_disk_seen. intros tr [b|e] H; [|done]. intros Hb. apply H. by rewrite Hb. Qed.

Lemma check_existing_backed env_id hints :
  post (check_existing env_id hints) (fun tr r =>
    match r with
    | Ok (Some (Resolved _ _ Existing _ as res)) => backed [] res tr
    | Ok (Some _) => False
    | _ => True
    end).
Proof.
  eapply post_try; [eapply post_mono, get_by_id_fetched; by intros tr [a|e] H; [exact H|]|].
  intros [row|]; [|by apply post_done]. unfold row_fetched.
  eapply (post_try _ _ (fun tr b => b = true -> seen (row_working_path row) tr));
    [eapply post_mono, on_disk_true; by intros tr [a|e] H; [exact H|]|].
  intros []; tail_any; [|done]. intros tr2 _ tr1 Hseen tr Hrow. cbn. split_and!; [done| |].
  - by apply seg_app_r, seg_here.
  - apply seg_app_l, seg_app_r, seg_here, Hseen. done.
Qed.

(** A row on disk whose ownership was asserted. *)
Lemma owned_row repo row (tr1 tr2 tr3 tr4 : itrace) :
  fetched row tr1 -> seen (row_working_path row) tr2 -> owned (row_working_path row) repo tr3 ->
  seg (fetched row) (tr1 ++ tr2 ++ tr3 ++ tr4)
  /\ seg (seen (row_working_path row)) (tr1 ++ tr2 ++ tr3 ++ tr4)
  /\ seg (owned (row_working_path row) repo) (tr1 ++ tr2 ++ tr3 ++ tr4).
Proof.
  intros H1 H2 H3. split_and!.
  - by apply seg_app_r, seg_here.
  - by apply seg_app_l, seg_app_r, seg_here.
  - by apply seg_app_l, seg_app_l, seg_app_r, seg_here.
Qed.

Lemma reusable_backed cb repo wt wid hints :
  post (find_reusable_environment cb repo wt wid hints) (stage_backed repo).
Proof.
  eapply post_try; [eapply post_mono, find_active_fetched; by intros tr [a|e] H; [exact H|]|]. intros [row|]; [|by apply post_done].
  eapply post_try; [eapply post_mono, on_disk_true; by intros tr [b|e] H; [exact H|]|].
  intros []; cbn [negb]; [|tail_any; done].
  eapply post_try; [eapply post_mono, assert_owned; by intros tr [b|e] H; [exact H|]|].
  intros []. tail_any. intros tr4 _ tr3 Ho tr2 Hs tr1 Hf. cbn. split; [done|].
  rewrite <- (app_nil_r tr4). rewrite <- ?app_assoc. apply owned_row; [exact Hf|by apply Hs|exact Ho].
Qed.

Lemma linked_backed cb repo issues :
  post (linked_issues_loop cb repo issues) (stage_backed repo).
Proof.
  induction issues as [|n issues IH]; cbn [linked_issues_loop]; [by apply post_done|].
  assert (Hnext : forall P : Prop, post (linked_issues_loop cb repo issues)
    (fun tr' r => forall tr, stage_backed repo (tr ++ tr') r)).
  { intros _. eapply post_mono, IH. intros tr [[r|]|e] H tr'; [by apply stage_ok_app_l|done|done]. }
  eapply post_try; [eapply post_mono, find_active_fetched; by intros tr [a|e] H; [exact H|]|]. intros [row|].
  2:{ eapply post_mono, (Hnext True). intros tr r H tr' _. apply H. }
  eapply post_try; [eapply post_mono, on_disk_true; by intros tr [b|e] H; [exact H|]|].
  intros []; cbn [negb].
  - eapply post_try; [eapply post_mono, assert_owned; by intros tr [b|e] H; [exact H|]|].
    intros []. apply post_done. intros tr3 Ho tr2 Hs tr1 Hf. cbn. split; [done|].
    apply owned_row; [exact Hf|by apply Hs|exact Ho].
  - eapply post_bind; [apply post_any|]. intros []. eapply post_mono, (Hnext True).
    intros tr r H tr3 _ tr2 _ tr1 _. rewrite !app_assoc. apply H.
Qed.

Lemma adoption_backed cb repo h wt wid gi :
  post (try_branch_adoption cb repo h wt wid gi) (stage_backed repo).
Proof.
  unfold try_branch_adoption. destruct (h_pr_branch h) as [branch|]; [|by apply post_done].
  eapply (post_try _ _ (fun _ _ => True)); [destruct (other _); by apply post_done|]. intros repo'.
  eapply (post_try _ _ (fun _ _ => True)); [destruct (other _); by apply post_done|]. intros b'.
  eapply post_bind; [apply post_any|]. intros found.
  eapply (post_try _ _ (fun _ _ => True)); [destruct found; by apply post_done|].
  intros [path|]; [|by apply post_done].
  eapply post_try; [eapply post_mono, on_disk_true; by intros tr [b|e] H; [exact H|]|].
  intros []; cbn [negb]; [|by apply post_done].
  eapply post_try; [eapply post_mono, assert_owned; by intros tr [b|e] H; [exact H|]|]. intros [].
  set (p := mk_CreateEnvironmentParams _ _ _ _ _ _ _ _ _).
  eapply (post_try _ _ (fun tr row => recorded p row tr));
    [apply post_call; intros [row|e]; [by cbv beta|done]|].
  intros row. apply post_done. intros tr5 Hr tr4 Ho tr3 Hs tr2 _ tr1 _ tr0 _ tr _.
  cbn [stage_backed stage_ok backed]. split_and!.
  - do 4 apply seg_app_l. apply seg_app_r, seg_here, Hs. done.
  - do 5 apply seg_app_l. by apply seg_app_r, seg_here.
  - exists p. split_and!; [done|done|]. do 6 apply seg_app_l. by apply seg_app_r, seg_here.
Qed.
End Stages.

(** ** The repository of a codebase *)

(** The repository a directory belongs to: itself, when its [.git] is no pointer file,
    and else the one the pointer names. *)
Definition canonical_of (cwd repo : str) (tr : list (event host_call)) : Prop :=
  let git := ReadToString (path_join cwd (lit ".git")) in
  (repo = cwd /\ exists r, tr = [@mk_event host_call host_calls git r]
     /\ match r with Ok c => starts_with (lit "gitdir:") c = false | Err _ => True end)
  \/ exists c c', tr = [@mk_event host_call host_calls git (Ok c);
                        @mk_event host_call host_calls git (Ok c')]
       /\ starts_with (lit "gitdir:") c = true /\ regex_extract_repo_from_gitdir c' = Some repo.

Lemma to_repo_Ok p q : to_repo_path p = Ok q -> q = p.
Proof. unfold to_repo_path, non_empty. destruct (is_empty p); [done|]. by intros [= ->]. Qed.

Lemma inside_post `{UnicodeCase} (cwd : str) :
  post (is_worktree_path cwd) (fun tr r => exists a,
    tr = [@mk_event host_call host_calls (ReadToString (path_join cwd (lit ".git"))) a]
    /\ match r, a with
       | Ok b, Ok c => b = starts_with (lit "gitdir:") c
       | Ok b, Err _ => b = false
       | Err _, _ => True
       end).
Proof.
  unfold is_worktree_path. eapply (post_bind _ _ (fun tr a =>
    tr = [@mk_event host_call host_calls (ReadToString (path_join cwd (lit ".git"))) a])); [by intros r|].
  intros a. apply post_done. intros tr ->. exists a. split; [done|].
  destruct a as [c|e]; [done|]. by destruct (io.is_not_found e || is_dir e).
Qed.

Lemma canonical_post `{UnicodeCase} (cwd : str) :
  post (get_canonical_repo_path cwd)
    (fun tr r => match r with Ok repo => canonical_of cwd repo tr | Err _ => True end).
Proof.
  unfold get_canonical_repo_path. eapply post_try;
    [eapply post_mono, inside_post; intros tr [b|e] Hb; [exact Hb|done]|].
  intros [].
  - eapply (post_bind _ _ (fun tr a =>
      tr = [@mk_event host_call host_calls (ReadToString (path_join cwd (lit ".git"))) a])); [by intros r|].
    intros [c'|e']; [|by apply post_done].
    destruct (regex_extract_repo_from_gitdir c') as [m|] eqn:Em.
    + apply post_done. intros tr -> tr' (a & -> & Ha).
      destruct (to_repo_path m) as [q|] eqn:Eq; [|done]. apply to_repo_Ok in Eq as ->.
      destruct a as [c|]; [|done]. right. by exists c, c'.
    + eapply post_bind; [apply post_any|]. intros ?. eapply post_bind; [apply post_any|].
      intros shown. by apply post_done.
  - apply post_done. intros tr (a & -> & Ha).
    destruct (to_repo_path cwd) as [q|] eqn:Eq; [|done]. apply to_repo_Ok in Eq as ->.
    left. split; [done|]. exists a. split; [done|]. by destruct a.
Qed.

(** ** The cascade is backed *)

Section Cascade.
Context {UC : UnicodeCase} {IP : IsolationProvider} (self : IsolationResolver).

Lemma create_new_backed cb repo wt wid hints platform gi :
  post (create_new_environment self cb repo wt wid hints platform gi) (result_backed repo).
Proof.
  unfold create_new_environment. eapply post_bind; [apply post_any|]. intros cleaned.
  eapply (post_try _ _ (fun _ _ => True)); [destruct (build_isolation_request _ _ _ _); by apply post_done|].
  intros req. eapply post_bind; [apply post_any|]. intros [env|e].
  2:{ apply post_done. intros. by destruct (is_known_isolation_error _ _). }
  set (p := mk_CreateEnvironmentParams _ _ _ _ _ _ _ _ _).
  eapply (post_bind _ _ (fun tr r => match r with Ok row => recorded p row tr | Err _ => True end));
    [apply post_call; by intros [row|e]|].
  intros [row|e].
  - apply post_done. intros tr4 Hr tr3 _ tr2 _ tr1 _. cbn [result_backed stage_ok backed]. exists p.
    split; [done|]. do 3 apply seg_app_l. by apply seg_app_r, seg_here.
  - eapply post_bind; [apply post_any|]. intros d. by apply post_done.
Qed.

Lemma or_else_backed repo stage next :
  post stage (stage_backed repo) -> post next (result_backed repo) ->
  post (or_else stage next) (result_backed repo).
Proof.
  intros Hs Hn. eapply (post_try _ _ (fun tr r => stage_backed repo tr (Ok r)));
    [eapply post_mono, Hs; by intros tr [r|e] H; [exact H|]|].
  intros [res|].
  - apply post_done. intros tr H. by rewrite app_nil_r.
  - eapply post_mono, Hn. intros tr [r|e] H tr' _; [by apply stage_ok_app_l|done].
Qed.

Lemma resolve_in_backed request cb repo :
  post (resolve_in self request cb repo) (result_backed repo).
Proof.
  unfold resolve_in. apply or_else_backed; [|apply or_else_backed; [|apply or_else_backed]].
  - destruct (negb _); [apply reusable_backed|by apply post_done].
  - destruct (hints request) as [h|]; [apply linked_backed|by apply post_done].
  - destruct (hints request) as [h|]; [|by apply post_done].
    case_bool_decide; [apply adoption_backed|by apply post_done].
  - apply create_new_backed.
Qed.

(** What a result of [resolve] rests on. *)
Definition justified (request : ResolveRequest) (res : IsolationResolution) (tr : itrace) : Prop :=
  match res with
  | Resolved _ _ Existing _ => existing_env_id request <> None /\ backed [] res tr
  | Resolved _ _ _ _ =>
      exists cb repo, codebase request = Some cb /\ backed repo res tr
        /\ seg (fun t => exists htr, t = map lift_event htr /\ canonical_of (default_cwd cb) repo htr) tr
  | StaleCleaned id => existing_env_id request = Some id
  | NoIsolation cwd => cwd = lit "/workspace" /\ codebase request = None
  | Blocked reason _ => reason = lit "creation_failed"
  end.

(** C18: A resolved conversation works where the trace shows that it may: an existing
    environment is the one the store answered with, and its worktree was just seen on
    disk; an environment that is reused, of the workflow or of a linked issue, was
    besides verified to belong to the repository that the directory of the codebase
    belongs to, and so was a worktree adopted for its branch; an adopted or new
    environment is the one the store recorded for that path. *)
Theorem resolve_backed (request : ResolveRequest) :
  post (resolve self request) (fun tr r =>
    match r with Ok res => justified request res tr | Err _ => True end).
Proof.
  unfold resolve. destruct (existing_env_id request) as [id|] eqn:Eid.
  - eapply post_try; [eapply post_mono, (check_existing_backed id (hints request)); intros tr [r|e] H;
      [exact H|done]|].
    intros [res|]; apply post_done; intros tr H; [|done].
    rewrite app_nil_r. destruct res as [env cwd [] ws| | |]; try done. by split; [rewrite Eid|].
  - destruct (codebase request) as [cb|] eqn:Ecb; [|by apply post_done].
    eapply post_bind; [apply post_lift, canonical_post|]. intros [repo|e].
    + eapply post_mono, (resolve_in_backed request cb repo).
      intros tr [res|err] H tr' (htr & -> & Hc); [|done].
      assert (Hseg : seg (fun t => exists htr, t = map lift_event htr
                            /\ canonical_of (default_cwd cb) repo htr) (map lift_event htr ++ tr)).
      { apply seg_app_r, seg_here. by exists htr. }
      apply (stage_ok_app_l _ _ (map lift_event htr)) in H.
      destruct res as [env cwd [] ws| | |]; cbn [justified]; try done; by exists cb, repo.
    + apply post_done. intros. by destruct (lower_mentions _ _).
Qed.
End Cascade.

(** ** What is recorded *)

(** The environments the store recorded. *)
Definition stored_by (e : event iso_call) : list IsolationEnvironmentRow :=
  match e with @mk_event _ _ (CreateEnvironment _) (Ok row) => [row] | _ => [] end.
Definition stored (tr : itrace) : list IsolationEnvironmentRow := concat (map stored_by tr).

Definition records_nothing (c : iso_call) : Prop :=
  match c with CreateEnvironment _ => False | _ => True end.

(** A provider does not touch the store. *)
Class ProviderLaws (IP : IsolationProvider) : Prop := {
  create_records_nothing : forall request, only_calls records_nothing (create request);
  destroy_records_nothing : forall id options, only_calls records_nothing (destroy id options);
}.

(** A process whose records are a function of its result. *)
Definition stores {A} (p : iso A) (g : A -> list IsolationEnvironmentRow) : Prop :=
  post p (fun tr a => stored tr = g a).
Definition quiet {A} (p : iso A) : Prop := stores p (fun _ => []).

Lemma stored_app a b : stored (a ++ b) = stored a ++ stored b.
Proof. unfold stored. by rewrite map_app, concat_app. Qed.
Lemma only_quiet {A} (p : iso A) : only_calls records_nothing p -> quiet p.
Proof.
  apply always_mono. intros tr [a|] H; [|done]. unfold stored.
  induction H as [|[c r] tr He Htr IH]; [done|]. cbn [map concat]. rewrite IH.
  by destruct c.
Qed.
Lemma only_lifted {A} (p : host A) : only_calls records_nothing (lift p).
Proof.
  apply (only_lift _ _ (fun _ => True)); [done|]. apply always_any. intros tr o. by apply Forall_true.
Qed.
Lemma quiet_lift {A} (p : host A) : quiet (lift p).
Proof. apply only_quiet, only_lifted. Qed.
Lemma quiet_done {A} (a : A) : quiet (Done a).
Proof. done. Qed.
Lemma quiet_call c : records_nothing c -> quiet (call c).
Proof. intros H. by apply only_quiet, (only_ask records_nothing c). Qed.

Lemma stores_bind {A B} (p : iso A) (f : A -> iso B) g :
  quiet p -> (forall a, stores (f a) g) -> stores (p ≫= f) g.
Proof.
  intros Hp Hf. eapply post_bind; [exact Hp|]. intros a. eapply post_mono, Hf.
  intros tr' b Hb tr Htr. by rewrite stored_app, Htr.
Qed.
Lemma stores_try {A B E} (p : iso (result E A)) (f : A -> iso (result E B)) g :
  quiet p -> (forall e, g (Err e) = []) -> (forall a, stores (f a) g) -> stores (try p f) g.
Proof. intros Hp He Hf. apply stores_bind; [done|]. intros [a|e]; [done|]. apply post_done. by rewrite He. Qed.

Create HintDb quiet.
#[export] Hint Resolve quiet_lift quiet_done quiet_call I : quiet.

Definition recorded_env (r : IsolationResolution) : list IsolationEnvironmentRow :=
  match r with
  | Resolved env _ (BranchAdoption _ | MethodCreated _) _ => [env]
  | _ => []
  end.
Definition recorded_stage (r : result IsolationError (option IsolationResolution)) :=
  match r with Ok (Some res) => recorded_env res | _ => [] end.
Definition recorded_result (r : result IsolationError IsolationResolution) :=
  match r with Ok res => recorded_env res | Err _ => [] end.

Section Records.
Context {UC : UnicodeCase} {IP : IsolationProvider} {PL : ProviderLaws IP} (self : IsolationResolver).

Lemma quiet_on_disk path : quiet (on_disk path).
Proof.
  unfold quiet, on_disk. apply stores_try; [destruct (other _); apply quiet_done|done|]. intros a.
  apply stores_bind; [apply quiet_lift|done].
Qed.
Lemma quiet_ownership repo path : quiet (assert_worktree_ownership repo path).
Proof.
  unfold quiet, assert_worktree_ownership. apply stores_try; [destruct (other _); apply quiet_done|done|].
  intros a. apply stores_try; [destruct (other _); apply quiet_done|done|]. intros b.
  apply stores_bind; [apply quiet_lift|done].
Qed.
Lemma quiet_warnings bn wp h : quiet (collect_base_branch_warnings bn wp h).
Proof.
  unfold quiet, collect_base_branch_warnings. destruct (h ≫= _); [|done].
  apply stores_bind; [apply quiet_lift|done].
Qed.
Lemma quiet_mark id : quiet (mark_destroyed_best_effort id).
Proof. unfold quiet, mark_destroyed_best_effort. apply stores_bind; [by apply quiet_call|done]. Qed.
Hint Resolve quiet_on_disk quiet_ownership quiet_warnings quiet_mark : quiet.

Ltac step :=
  first [ apply stores_try; [by auto with quiet|done|intros ?]
        | apply stores_bind; [by auto with quiet|intros ?] ].

Lemma check_existing_stores id h : stores (check_existing id h) recorded_stage.
Proof.
  unfold check_existing. apply stores_try; [by apply quiet_call|done|]. intros [row|]; [|by apply post_done].
  apply stores_try; [apply quiet_on_disk|done|]. intros []; (apply stores_bind; [by auto with quiet|]);
    intros ?; by apply post_done.
Qed.
Lemma reusable_stores cb repo wt wid h : stores (find_reusable_environment cb repo wt wid h) recorded_stage.
Proof.
  unfold find_reusable_environment. apply stores_try; [by apply quiet_call|done|].
  intros [row|]; [|by apply post_done]. apply stores_try; [apply quiet_on_disk|done|].
  intros []; cbn [negb]; [apply stores_try; [apply quiet_ownership|done|intros ?]|];
    (apply stores_bind; [by auto with quiet|]); intros ?; by apply post_done.
Qed.
Lemma linked_stores cb repo issues : stores (linked_issues_loop cb repo issues) recorded_stage.
Proof.
  induction issues as [|n issues IH]; cbn [linked_issues_loop]; [by apply post_done|].
  apply stores_try; [by apply quiet_call|done|]. intros [row|]; [|exact IH].
  apply stores_try; [apply quiet_on_disk|done|].
  intros []; cbn [negb]; [apply stores_try; [apply quiet_ownership|done|intros ?]; by apply post_done|].
  by apply stores_bind; [apply quiet_mark|].
Qed.

(** The last step of a stage: the store records the environment that is returned. *)
Lemma record_stores {B} (p : CreateEnvironmentParams) (f : IsolationEnvironmentRow -> result IsolationError B)
    (g : result IsolationError B -> list IsolationEnvironmentRow) :
  (forall e, g (Err e) = []) -> (forall row, g (f row) = [row]) ->
  stores (try (call (CreateEnvironment p)) (fun row => Done (f row))) g.
Proof. intros He Hf [row|e]; cbn; [by rewrite Hf|by rewrite He]. Qed.

Lemma adoption_stores cb repo h wt wid gi : stores (try_branch_adoption cb repo h wt wid gi) recorded_stage.
Proof.
  unfold try_branch_adoption. destruct (h_pr_branch h) as [branch|]; [|by apply post_done].
  apply stores_try; [destruct (other _); apply quiet_done|done|]. intros a.
  apply stores_try; [destruct (other _); apply quiet_done|done|]. intros b.
  apply stores_bind; [apply quiet_lift|]. intros found.
  apply stores_try; [destruct found; apply quiet_done|done|]. intros [path|]; [|by apply post_done].
  apply stores_try; [apply quiet_on_disk|done|]. intros []; cbn [negb]; [|by apply post_done].
  apply stores_try; [apply quiet_ownership|done|]. intros _.
  apply (record_stores _ (fun env => Ok (Some (Resolved env path (BranchAdoption branch) None))));
    done.
Qed.

Lemma create_new_stores cb repo wt wid h platform gi :
  stores (create_new_environment self cb repo wt wid h platform gi) recorded_result.
Proof.
  unfold create_new_environment. apply stores_bind.
  { destruct (has_cleanup self); [by apply quiet_call|apply quiet_done]. }
  intros cleaned. apply stores_try; [destruct (build_isolation_request _ _ _ _); apply quiet_done|done|].
  intros req. apply stores_bind; [apply only_quiet, create_records_nothing|].
  intros [env|e].
  2:{ apply post_done. by destruct (is_known_isolation_error _ _). }
  eapply (post_bind _ _ (fun tr (r : result IsolationError IsolationEnvironmentRow) =>
    stored tr = match r with Ok row => [row] | Err _ => [] end)); [by intros [row|e']|].
  intros [row|e].
  - apply post_done. intros tr H. by rewrite app_nil_r.
  - eapply post_mono; [|apply (stores_bind _ _ recorded_result);
      [apply only_quiet, destroy_records_nothing|intros d; by apply post_done]].
    cbn beta. intros tr' b Hb tr H. by rewrite stored_app, H, Hb.
Qed.

Lemma or_else_stores stage next :
  stores stage recorded_stage -> stores next recorded_result ->
  stores (or_else stage next) recorded_result.
Proof.
  intros Hs Hn. eapply (post_try _ _ (fun tr r => stored tr = recorded_stage (Ok r)));
    [eapply post_mono, Hs; by intros tr [r|e] H; [exact H|]|].
  intros [res|].
  - apply post_done. intros tr H. by rewrite app_nil_r.
  - eapply post_mono, Hn. intros tr r H tr' H'. by rewrite stored_app, H, H'.
Qed.

(** Resolving records at most one environment, and exactly when it adopts a branch
    or makes a new environment: then the environment recorded is the one returned.  A
    request that reuses, cleans, blocks or fails leaves no record. *)
Theorem resolve_records (request : ResolveRequest) :
  post (resolve self request) (fun tr r => stored tr = recorded_result r).
Proof.
  unfold resolve. destruct (existing_env_id request) as [id|].
  - apply or_else_stores; [apply check_existing_stores|by apply post_done].
  - destruct (codebase request) as [cb|]; [|by apply post_done].
    apply stores_bind; [apply quiet_lift|]. intros [repo|e].
    + unfold resolve_in. apply or_else_stores; [|apply or_else_stores; [|apply or_else_stores]].
      * destruct (negb _); [apply reusable_stores|by apply post_done].
      * destruct (hints request) as [h|]; [apply linked_stores|by apply post_done].
      * destruct (hints request) as [h|]; [|by apply post_done].
        case_bool_decide; [apply adoption_stores|by apply post_done].
      * apply create_new_stores.
    + apply post_done. by destruct (lower_mentions _ _).
Qed.
End Records.
