(* ===== verification/WorktreeSpecs.v ===== *)
(** * What the worktree provider guarantees

    The provider keeps the laws of its interface; an environment it returns is a worktree
    that was verified to belong to the repository, or one that git has just added;
    configured paths and task names stay inside their directories. *)

From S2P Require Import Prelude StdModel Json Paths Git GitBranch GitSpecs WorktreeCopy.
From S2P Require Import WorktreeCopySpecs Isolation Resolver IsolationSpecs WorktreeProvider WorktreeCreate.

(** ** The laws of the interface *)

Section Laws.
Context {UC : UnicodeCase} {ENV : ProcessEnvironment} {CD : CommitDates} {SHA : Sha256}.
Context (depth : nat).

Hint Resolve only_lifted : proc.
Lemma only_call_records c : records_nothing c -> only_calls records_nothing (call c).
Proof. apply only_ask. Qed.

Lemma only_environment path bn ws md : only_calls records_nothing (worktree_environment path bn ws md).
Proof. apply only_bind; [by apply only_call_records|intros; apply only_done]. Qed.

Lemma only_adopt_verified path repo bn from request :
  only_calls records_nothing (adopt_verified path repo bn from request).
Proof.
  apply only_try; [apply only_done|intros ?]. apply only_bind; [apply only_lifted|intros ?].
  apply only_try; [apply only_done|intros ?].
  apply only_bind; [apply only_environment|intros ?; apply only_done].
Qed.

Lemma only_find_existing request bn path : only_calls records_nothing (find_existing request bn path).
Proof.
  apply only_try; [apply only_done|intros ?]. apply only_bind; [apply only_lifted|intros ?].
  destruct (unwrap_or _ _); [apply only_adopt_verified|]. destruct request; try apply only_done.
  apply only_try; [apply only_done|intros ?]. apply only_try; [apply only_done|intros ?].
  apply only_bind; [apply only_lifted|intros ?]. apply only_try; [apply only_done|intros [?|]];
    [|apply only_done].
  apply only_try; [apply only_done|intros ?]. apply only_adopt_verified.
Qed.

Lemma only_base_dir base override : only_calls records_nothing (base_dir_of base override).
Proof.
  apply only_try; [apply only_done|intros ?]. apply only_bind; [apply only_pure|intros ?; apply only_done].
Qed.

Lemma only_create_worktree request path bn config :
  only_calls records_nothing (create_worktree depth request path bn config).
Proof.
  apply only_try; [apply only_lifted|intros ?]. apply only_try; [apply only_lifted|intros ?].
  apply only_try; [apply only_base_dir|intros ?]. apply only_bind; [apply only_lifted|intros ?].
  apply only_try; [apply only_done|intros ?]. apply only_try; [apply only_lifted|intros ?].
  apply only_bind.
  { destruct (git_identity _) as [id|]; [|apply only_done].
    case_match; [apply only_done|apply only_lifted]. }
  intros ?. apply only_try.
  { destruct (config ≫= _) as [[]|]; try apply only_lifted. apply only_done. }
  intros ?. apply only_bind; [|intros ?; apply only_done]. apply only_bind.
  { destruct config; [apply only_done|]. apply only_bind; [by apply only_call_records|].
    intros; apply only_done. }
  intros ?. cbv zeta. case_match; [apply only_done|].
  apply only_bind; [apply only_lifted|intros; apply only_done].
Qed.

#[export] Instance worktree_provider_laws : ProviderLaws (worktree_provider depth).
Proof.
  split; [intros request|intros id options; apply only_lifted].
  apply only_bind; [by apply only_call_records|intros config].
  apply only_try.
  { apply only_try; [apply only_lifted|intros ?]. apply only_try; [apply only_base_dir|intros ?].
    apply only_done. }
  intros path. apply only_try; [apply only_find_existing|intros [env|]]; [apply only_done|].
  apply only_try; [apply only_create_worktree|intros ws].
  apply only_bind; [apply only_environment|intros; apply only_done].
Qed.
End Laws.

(** ** What git did *)

(** A command of git that ran and succeeded. *)
Definition ran (args : list str) (tr : list (event host_call)) : Prop :=
  exists ms e, code e = Some 0%Z
    /\ tr = [@mk_event host_call host_calls (Spawn (lit "git") args None []) (Ok tt);
             @mk_event host_call host_calls (WaitTimeout ms) (Some (Ok e))].
(** The commands ran and succeeded in this order, with other calls between them. *)
Fixpoint ran_in_order (commands : list (list str)) (tr : list (event host_call)) : Prop :=
  match commands with
  | [] => True
  | args :: rest => exists a b c, tr = a ++ b ++ c /\ ran args b /\ ran_in_order rest c
  end.

Definition in_repo (repo : str) (args : list str) : list str := [lit "-C"; repo] ++ args.
Definition worktree_add (repo path : str) (rest : list str) : list str :=
  in_repo repo ([lit "worktree"; lit "add"; path] ++ rest).
Definition review_branch (number : str) : str := lit "pr-" ++ number ++ lit "-review".

(** The commands that check out a request in a worktree at [path].  A request that is no
    pull request gets the branch named for it, new at the start it names or at [base] on
    the remote, or moved there; a pull request of the repository its own branch; one of
    a fork, its commit or its head on a branch for the review. *)
Inductive checks_out {UC : UnicodeCase} {SHA : Sha256} (path base : str) : IsolationRequest -> list (list str) -> Prop :=
| Checks_out_new request :
    is_pr_isolation_request request = false ->
    checks_out path base request
      [worktree_add (canonical_repo_path (request_base request)) path
         [lit "-b"; generate_branch_name request;
          default (lit "origin/" ++ base) (explicit_start request)]]
| Checks_out_reset request :
    is_pr_isolation_request request = false -> explicit_start request = None ->
    let repo := canonical_repo_path (request_base request) in
    let bn := generate_branch_name request in
    checks_out path base request
      [in_repo repo [lit "branch"; lit "-f"; bn; lit "origin/" ++ base]; worktree_add repo path [bn]]
| Checks_out_pr b number pr_branch sha rest :
    let repo := canonical_repo_path b in
    (rest = [lit "-b"; pr_branch; lit "origin/" ++ pr_branch] \/ rest = [pr_branch]) ->
    checks_out path base (Pr b number pr_branch sha false)
      [in_repo repo [lit "fetch"; lit "origin"; pr_branch]; worktree_add repo path rest]
| Checks_out_commit b number pr_branch sha :
    let repo := canonical_repo_path b in
    checks_out path base (Pr b number pr_branch (Some sha) true)
      [in_repo repo [lit "fetch"; lit "origin"; lit "pull/" ++ number ++ lit "/head"];
       worktree_add repo path [sha];
       in_repo path [lit "checkout"; lit "-b"; review_branch number; sha]]
| Checks_out_head b number pr_branch :
    let repo := canonical_repo_path b in
    checks_out path base (Pr b number pr_branch None true)
      [in_repo repo [lit "fetch"; lit "origin";
                     (lit "pull/" ++ number ++ lit "/head") ++ lit ":" ++ review_branch number];
       worktree_add repo path [review_branch number]].

Lemma ran_in_order_l cmds a tr : ran_in_order cmds tr -> ran_in_order cmds (a ++ tr).
Proof.
  destruct cmds as [|c cmds]; [done|]. intros (x & y & z & -> & H). exists (a ++ x), y, z.
  by rewrite <- app_assoc.
Qed.
Lemma ran_in_order_r cmds tr b : ran_in_order cmds tr -> ran_in_order cmds (tr ++ b).
Proof.
  revert tr. induction cmds as [|c cmds IH]; intros tr; [done|]. intros (x & y & z & -> & Hc & H).
  exists x, y, (z ++ b). rewrite <- !app_assoc. split_and!; auto.
Qed.
Lemma ran_in_order_cons args cmds t1 t2 :
  ran args t1 -> ran_in_order cmds t2 -> ran_in_order (args :: cmds) (t1 ++ t2).
Proof. intros H1 H2. by exists [], t1, t2. Qed.
Lemma ran_in_order_app l1 l2 t1 t2 :
  ran_in_order l1 t1 -> ran_in_order l2 t2 -> ran_in_order (l1 ++ l2) (t1 ++ t2).
Proof.
  revert t1. induction l1 as [|c l1 IH]; intros t1 H1 H2; [by apply ran_in_order_l|].
  destruct H1 as (x & y & z & -> & Hc & H1). exists x, y, (z ++ t2).
  rewrite <- !app_assoc. split_and!; auto.
Qed.

Lemma exec_file_ran args opts ms : timeout_ms opts = Some ms -> cwd opts = None ->
  env opts = None ->
  post (exec_file_async (lit "git") args opts) (fun tr r => is_ok r = true -> ran args tr).
Proof.
  intros Ht Hd He. unfold exec_file_async. rewrite Ht, Hd, He.
  eapply (post_bind _ _ (fun tr r =>
    tr = [@mk_event host_call host_calls (Spawn (lit "git") args None []) r])); [by intros r|].
  intros [[]|e]; [|by apply post_done].
  eapply (post_bind _ _ (fun tr r => tr = [@mk_event host_call host_calls (WaitTimeout ms) r]));
    [by intros r|].
  intros [r|]; [|by apply post_done]. apply post_done. intros tr -> tr' -> Hok.
  unfold exec_result in Hok. destruct r as [e|e]; [|done].
  case_bool_decide as Hc; [|done]. by exists ms, e.
Qed.
Lemma git_ran args ms : post (git args ms) (fun tr r => is_ok r = true -> ran args tr).
Proof. by apply (exec_file_ran _ _ ms). Qed.

(** A process that succeeds only when it ran one of the lists of commands in [C]. *)
Definition does {A E} (C : list (list str) -> Prop) (p : host (result E A)) : Prop :=
  post p (fun tr r => is_ok r = true -> exists cmds, C cmds /\ ran_in_order cmds tr).

Lemma does_err {A E} C (e : E) : does C (Done (Err e : result E A)).
Proof. done. Qed.
Lemma does_nothing {A E} (C : list (list str) -> Prop) (p : host (result E A)) : C [] -> does C p.
Proof. intros HC. eapply post_mono, post_any. intros tr r _ _. by exists []. Qed.
Lemma does_after {A B E} C (p : host A) (f : A -> host (result E B)) :
  (forall a, does C (f a)) -> does C (p ≫= f).
Proof.
  intros Hf. eapply post_bind; [apply post_any|]. intros a. eapply post_mono, Hf.
  intros tr b Hb tr' _ Hok. destruct (Hb Hok) as (cmds & HC & Hr). exists cmds.
  split; [done|by apply ran_in_order_l].
Qed.
Lemma does_after_try {A B E} C (p : host (result E A)) (f : A -> host (result E B)) :
  (forall a, does C (f a)) -> does C (try p f).
Proof. intros Hf. apply does_after. intros [a|e]; [apply Hf|apply does_err]. Qed.
(** One part after the other. *)
Lemma does_then {A B E} (C C1 C2 : list (list str) -> Prop) (p : host (result E A))
    (f : A -> host (result E B)) :
  (forall l1 l2, C1 l1 -> C2 l2 -> C (l1 ++ l2)) -> does C1 p -> (forall a, does C2 (f a)) ->
  does C (try p f).
Proof.
  intros HC Hp Hf. eapply (post_try _ _ (fun tr _ => exists cmds, C1 cmds /\ ran_in_order cmds tr)).
  - eapply post_mono, Hp. intros tr [a|e] H; [by apply H|done].
  - intros a. eapply post_mono, Hf. intros tr b H tr' (l1 & H1 & Hr1) Hok.
    destruct (H Hok) as (l2 & H2 & Hr2). exists (l1 ++ l2). split; [auto|by apply ran_in_order_app].
Qed.
Lemma does_first {A B E} C (p : host (result E A)) (f : A -> host (result E B)) :
  does C p -> does C (try p f).
Proof.
  intros Hp. apply (does_then _ C (eq [])); [|done|intros a; by apply does_nothing].
  intros l1 l2 H1 <-. by rewrite app_nil_r.
Qed.
(** A command of git that may fail. *)
Lemma does_git {A E} C args ms (f : result GitError ExecOutput -> host (result E A)) :
  (forall out, does (fun l => C (args :: l)) (f (Ok out))) -> (forall e, does C (f (Err e))) ->
  does C (git args ms ≫= f).
Proof.
  intros Hok Herr. eapply post_bind; [apply git_ran|]. intros [out|e].
  - eapply post_mono, Hok. intros tr b Hb tr' H Hr. destruct (Hb Hr) as (cmds & HC & Hc).
    exists (args :: cmds). split; [done|]. apply ran_in_order_cons; [by apply H|done].
  - eapply post_mono, Herr. intros tr b Hb tr' _ Hr. destruct (Hb Hr) as (cmds & HC & Hc).
    exists cmds. split; [done|by apply ran_in_order_l].
Qed.
Lemma does_git_last (C : list (list str) -> Prop) args : C [args] -> does C (git_step args).
Proof.
  intros HC. unfold git_step, git_op. apply does_git; intros x; [|apply does_err].
  apply does_nothing. exact HC.
Qed.
Lemma does_git_step {A} C args (f : unit -> host (result IsolationError A)) :
  (forall u, does (fun l => C (args :: l)) (f u)) -> does C (try (git_step args) f).
Proof.
  intros Hf. apply (does_then _ (eq [args]) (fun l => C (args :: l))); [by intros ? l2 <-| |done].
  by apply does_git_last.
Qed.

Section Checkouts.
Context {UC : UnicodeCase} {ENV : ProcessEnvironment} {CD : CommitDates} {SHA : Sha256}.
Context (path base : str).

Lemma stale_retry_does C repo bn (p : host (result IsolationError unit)) :
  does C p -> does C (create_branch_with_stale_retry repo bn p).
Proof.
  intros Hp. unfold create_branch_with_stale_retry. eapply post_bind; [exact Hp|]. intros [[]|e].
  - apply post_done. intros tr H _. rewrite app_nil_r. by apply H.
  - destruct (contains _ _); [|by apply post_done].
    eapply post_mono, (does_after_try C); [|by intros u; exact Hp].
    intros tr r H tr' _ Hok. destruct (H Hok) as (cmds & HC & Hr). exists cmds.
    split; [done|by apply ran_in_order_l].
Qed.

Lemma same_repo_does b number pr_branch sha :
  does (checks_out path base (Pr b number pr_branch sha false))
    (create_from_same_repo_pr (canonical_repo_path b) path pr_branch).
Proof.
  unfold create_from_same_repo_pr. apply does_git_step. intros _.
  unfold git_op. apply does_git; [intros out|intros e].
  - apply does_nothing. constructor. left. reflexivity.
  - apply does_first. destruct (contains _ _); [|apply does_err].
    apply does_git_last. constructor. right. reflexivity.
Qed.
Lemma fork_does b number pr_branch sha :
  does (checks_out path base (Pr b number pr_branch sha true))
    (create_from_fork_pr (canonical_repo_path b) path number sha).
Proof.
  unfold create_from_fork_pr. destruct sha as [sha|].
  - apply does_git_step. intros _. apply does_git_step. intros _.
    apply stale_retry_does, does_git_last. constructor.
  - eapply (does_then _ (eq [_])); [|by apply stale_retry_does, does_git_last|].
    + intros ? l2 <- H. exact H.
    + intros _. apply does_git_last. constructor.
Qed.
Lemma from_pr_does request : does (checks_out path base request) (create_from_pr request path).
Proof.
  unfold create_from_pr. destruct request as [|b number pr_branch sha fork| | |]; try apply does_err.
  apply does_after_try. intros _.
  eapply (post_bind _ _ (fun tr r => is_ok r = true -> exists cmds,
      checks_out path base (Pr b number pr_branch sha fork) cmds /\ ran_in_order cmds tr)).
  - destruct fork; [apply fork_does|apply same_repo_does].
  - intros [u|e]; [apply post_done; intros tr H _; rewrite app_nil_r; by apply H|].
    eapply post_bind; [apply post_any|]. intros u. by apply post_done.
Qed.
Lemma new_branch_does request :
  is_pr_isolation_request request = false ->
  does (checks_out path base request)
    (create_new_branch request (canonical_repo_path (request_base request)) path
       (generate_branch_name request) base).
Proof.
  intros Hpr. unfold create_new_branch. apply does_after_try. intros _.
  unfold git_op. apply does_git; [intros out|intros e].
  - apply does_nothing. pose proof (Checks_out_new path base request Hpr) as HC.
    by destruct (explicit_start request).
  - destruct (contains _ _); [|apply does_err].
    destruct (explicit_start request) as [fb|] eqn:Hstart; [apply does_err|].
    apply does_git; [intros out|intros ?; apply does_err].
    cbn [try mbind proc_bind other map_err].
    apply does_git_last. by constructor.
Qed.
(** The fetch that synchronises the clone, of the branch it answers. *)
Lemma sync_does repo configured reset :
  post (sync_workspace repo configured reset) (fun tr r =>
    match r with
    | Ok s => (forall b, configured = Some b -> sync_branch s = b)
              /\ ran_in_order [in_repo repo [lit "fetch"; lit "origin"; sync_branch s]] tr
    | Err _ => True
    end).
Proof.
  unfold sync_workspace. eapply (post_try _ _ (fun _ branch => forall b, configured = Some b -> branch = b)).
  { destruct configured; [apply post_done; by intros b [= ->]|].
    eapply post_mono, post_any. by intros tr [b|e]. }
  intros branch. eapply post_bind; [eapply exec_file_ran; reflexivity|].
  intros [out|e]; [|by apply post_done].
  eapply (post_mono _ (fun _ r => match r with Ok s => sync_branch s = branch | Err _ => True end)).
  - intros tr [s|e] Hs tr1 Hran tr0 Hb; [|done]. rewrite Hs. split; [exact Hb|].
    apply ran_in_order_l, (ran_in_order_cons _ []); [by apply Hran|done].
  - destruct (negb reset); [done|]. eapply post_bind; [apply post_any|]. intros before.
    eapply post_bind; [apply post_any|]. intros [out2|e]; [|done].
    eapply post_bind; [apply post_any|]. intros after. by apply post_done.
Qed.
End Checkouts.

(** ** The environment that is returned *)

Section Returned.
Context {UC : UnicodeCase} {ENV : ProcessEnvironment} {CD : CommitDates} {SHA : Sha256}.
Context (depth : nat).

(** The calls of the host among those of the provider. *)
Definition host_event (e : event iso_call) : list (event host_call) :=
  match e with @mk_event _ _ (Sys c) r => [@mk_event host_call host_calls c r] | _ => [] end.
Definition host_events (tr : itrace) : list (event host_call) := concat (map host_event tr).

Lemma host_events_app t1 t2 : host_events (t1 ++ t2) = host_events t1 ++ host_events t2.
Proof. unfold host_events. by rewrite map_app, concat_app. Qed.
Lemma host_events_lift htr : host_events (map lift_event htr) = htr.
Proof. unfold host_events. induction htr as [|[c r] htr IH]; [done|]. cbn. by rewrite IH. Qed.

(** The worktree was there, and its pointer file was verified. *)
Definition environment_adopted (repo : str) (request : IsolationRequest) (env : WorktreeEnvironment)
    (tr : itrace) : Prop :=
  we_id env = working_path env
  /\ (exists from, we_metadata env = Adopted true from (Some request))
  /\ seg (owned (working_path env) repo) tr.
(** Git fetched the base branch, the configured one if one is, and checked out the
    request. *)
Definition environment_created (request : IsolationRequest) (env : WorktreeEnvironment)
    (tr : itrace) : Prop :=
  let repo := canonical_repo_path (request_base request) in
  we_id env = working_path env /\ we_metadata env = Created (Some request)
  /\ branch_name env = generate_branch_name request
  /\ exists config rest base commands,
       tr = @mk_event iso_call iso_calls (LoadConfig repo) config :: rest
       /\ (forall b, config ≫= cfg_base_branch = Some b -> base = b)
       /\ checks_out (working_path env) base request commands
       /\ ran_in_order (in_repo repo [lit "fetch"; lit "origin"; base] :: commands) (host_events rest).

Lemma environment_post path bn ws md :
  post (worktree_environment path bn ws md) (fun _ env =>
    working_path env = path /\ we_id env = path /\ branch_name env = bn /\ we_metadata env = md).
Proof. eapply post_bind; [apply post_any|]. intros now. by apply post_done. Qed.

Lemma adopt_verified_backed path repo bn from request :
  post (adopt_verified path repo bn from request) (fun tr r =>
    match r with
    | Ok (Some env) => environment_adopted repo request env tr
    | Ok None => False
    | Err _ => True
    end).
Proof.
  unfold adopt_verified.
  eapply (post_try _ _ (fun tr q => tr = [] /\ q = repo)).
  { destruct (other (to_repo_path repo)) as [q|e] eqn:E; [|by apply post_done].
    apply to_repo_path_Ok in E. by apply post_done. }
  intros q. eapply post_bind; [apply post_lift, verify_post|]. intros [[]|e].
  - eapply (post_try _ _ (fun tr _ => tr = [])); [by apply post_done|]. intros [].
    eapply post_bind; [apply environment_post|]. intros env. apply post_done.
    intros tr4 (Hp & Hi & _ & Hm) tr3 -> tr2 (htr & -> & Hv) tr1 [-> ->].
    split; [by rewrite Hi, Hp|]. split; [by eexists|].
    cbn [app]. apply seg_app_r, seg_here. exists htr. split; [done|]. rewrite Hp. by apply Hv.
  - eapply (post_try _ _ (fun _ _ => False)); [by apply post_done|]. intros [].
    eapply post_mono, post_any. intros tr r _ tr' [].
Qed.

Lemma environment_adopted_app repo request env a tr :
  environment_adopted repo request env tr -> environment_adopted repo request env (a ++ tr).
Proof.
  intros (Hi & Hm & H). split_and!; [done|done|by apply seg_app_l].
Qed.

Lemma find_existing_backed request bn path :
  post (find_existing request bn path) (fun tr r =>
    match r with
    | Ok (Some env) => environment_adopted (canonical_repo_path (request_base request)) request env tr
    | _ => True
    end).
Proof.
  unfold find_existing. set (repo := canonical_repo_path _).
  assert (Hskip : forall A (p : iso A) (f : A -> iso (result IsolationError (option WorktreeEnvironment))) P,
    (forall a, post (f a) (fun tr r => match r with Ok (Some env) => P env tr | _ => True end)) ->
    (forall env a tr, P env tr -> P env (a ++ tr)) ->
    post (p ≫= f) (fun tr r => match r with Ok (Some env) => P env tr | _ => True end)).
  { intros A p f P Hf HP. eapply post_bind; [apply post_any|]. intros a. eapply post_mono, Hf.
    intros tr [[env|]|e] H tr' _; [by apply HP|done|done]. }
  assert (Hadopt : forall p r b from, r = repo -> post (adopt_verified p r b from request)
    (fun tr r => match r with Ok (Some env) => environment_adopted repo request env tr | _ => True end)).
  { intros p r b from ->. eapply post_mono, adopt_verified_backed. intros tr [[env|]|e] H; done. }
  apply (Hskip _ _ _ (environment_adopted repo request)); [|apply environment_adopted_app].
  intros [wt|e]; [|by apply post_done].
  apply (Hskip _ _ _ (environment_adopted repo request)); [|apply environment_adopted_app]. intros b.
  destruct (unwrap_or b false); [by apply Hadopt|]. destruct request; try by apply post_done.
  destruct (other (to_repo_path repo)) as [q|e] eqn:E; [|by apply post_done].
  apply to_repo_path_Ok in E.
  cbn [try mbind proc_bind]. destruct (other (to_branch_name pr_branch)) as [br|e]; [|by apply post_done].
  apply (Hskip _ _ _ (environment_adopted repo _)); [|apply environment_adopted_app]. intros found.
  destruct found as [[existing|]|e]; try by apply post_done.
  cbn [map_err try mbind proc_bind].
  destruct (other (to_worktree_path existing)) as [wp|e]; [|by apply post_done]. by apply Hadopt.
Qed.

(** The commands that create a worktree, among the calls of the provider. *)
Definition created_by (request : IsolationRequest) (path : str) (config : option WorktreeCreateConfig)
    (tr : itrace) : Prop :=
  exists base commands,
    (forall b, config ≫= cfg_base_branch = Some b -> base = b)
    /\ checks_out path base request commands
    /\ ran_in_order
         (in_repo (canonical_repo_path (request_base request)) [lit "fetch"; lit "origin"; base]
          :: commands) (host_events tr).

Lemma sync_before_does repo configured :
  post (sync_workspace_before_create repo configured) (fun tr r =>
    match r with
    | Ok base => (forall b, configured = Some b -> base = b)
                 /\ ran_in_order [in_repo repo [lit "fetch"; lit "origin"; base]] tr
    | Err _ => True
    end).
Proof.
  unfold sync_workspace_before_create. unfold try at 1. cbn [mbind proc_bind].
  destruct (other (to_repo_path repo)) as [q|e] eqn:Hrepo; [|done]. apply to_repo_path_Ok in Hrepo as ->.
  assert (forall b r, other (to_branch_name b) = Ok r -> r = b) as Hname.
  { intros b r. unfold to_branch_name, non_empty. destruct (is_empty b); [done|]. by intros [= ->]. }
  eapply (post_try _ _ (fun tr base => tr = [] /\ base = configured)).
  { destruct configured as [b|]; [|by apply post_done].
    destruct (other (to_branch_name b)) as [r|e] eqn:Hb; apply post_done; [|done].
    apply Hname in Hb as ->. done. }
  intros base. eapply post_bind; [exact (sync_does repo base (is_managed_clone repo))|]. intros [synced|e]; [|done].
  apply post_done. intros tr [Hb Hr] tr' [-> ->]. by rewrite app_nil_r.
Qed.

Lemma create_worktree_does request path config :
  post (create_worktree depth request path (generate_branch_name request) config) (fun tr r =>
    is_ok r = true -> created_by request path config tr).
Proof.
  unfold create_worktree. set (repo := canonical_repo_path _).
  eapply (post_try _ _ (fun tr base => (forall b, config ≫= cfg_base_branch = Some b -> base = b)
    /\ ran_in_order [in_repo repo [lit "fetch"; lit "origin"; base]] (host_events tr))).
  { eapply post_mono, post_lift, sync_before_does. intros tr [base|e] (htr & -> & H); [|done].
    by rewrite host_events_lift. }
  intros base.
  assert (Hskip : forall A (p : iso A) (f : A -> iso (result IsolationError (list str))),
    let Q := fun tr (r : result IsolationError (list str)) => is_ok r = true -> exists commands,
      checks_out path base request commands /\ ran_in_order commands (host_events tr) in
    (forall a, post (f a) Q) -> post (p ≫= f) Q).
  { intros A p f Q Hf. eapply post_bind; [apply post_any|]. intros a. eapply post_mono, Hf.
    intros tr r H tr' _ Hok. destruct (H Hok) as (commands & HC & Hr). exists commands.
    split; [done|]. rewrite host_events_app. by apply ran_in_order_l. }
  eapply (post_mono _ (fun tr r => is_ok r = true -> exists commands,
      checks_out path base request commands /\ ran_in_order commands (host_events tr))).
  { intros tr r H tr' [Hb Hf] Hok. destruct (H Hok) as (commands & HC & Hr). exists base, commands.
    split_and!; [done|done|]. rewrite host_events_app.
    exact (ran_in_order_app [_] commands _ _ Hf Hr). }
  apply Hskip. intros [override|e]; [|done]. apply Hskip. intros [dir|e]; [|done].
  apply Hskip. intros made. apply Hskip. intros [u|e]; [|done].
  eapply (post_try _ _ (fun tr _ => exists commands,
      checks_out path base request commands /\ ran_in_order commands (host_events tr))).
  - eapply (post_mono _ (fun tr r => exists htr, tr = map lift_event htr /\ (is_ok r = true ->
      exists commands, checks_out path base request commands /\ ran_in_order commands htr))).
    + intros tr [v|e] (htr & -> & H); [|done]. rewrite host_events_lift. by apply H.
    + apply post_lift. destruct (is_pr_isolation_request request) eqn:Hpr;
        [by apply from_pr_does|by apply new_branch_does].
  - intros v. eapply post_mono, post_any. intros tr r _ tr' (commands & HC & Hr) _. exists commands.
    split; [done|]. rewrite host_events_app. by apply ran_in_order_r.
Qed.

(** C19: the environment that the provider creates for a request works in a worktree of
    the request's repository.  Either the worktree was found, its pointer file was
    verified to lead to the repository, and the environment is marked as adopted.  Or
    the environment is marked as created, and git has, with success and in this order,
    fetched the base branch (the configured one if there is one) and checked the request
    out in a worktree it added: a pull request of the repository on its own branch; a
    pull request of a fork on the branch [pr-N-review], made of its commit or its head;
    any other request on the branch named for it, which starts where the request says
    or at the base branch of the remote. *)
Theorem create_environment_backed (request : IsolationRequest) :
  post (provider_create depth request) (fun tr r =>
    match r with
    | Ok env => environment_adopted (canonical_repo_path (request_base request)) request env tr
                \/ environment_created request env tr
    | Err _ => True
    end).
Proof.
  unfold provider_create. set (repo := canonical_repo_path _).
  eapply (post_bind _ _ (fun tr config => tr = [@mk_event iso_call iso_calls (LoadConfig repo) config]));
    [by apply post_call|]. intros config.
  eapply (post_try _ _ (fun _ _ => True)); [eapply post_mono, post_any; by intros tr [?|?]|].
  intros path. eapply (post_try _ _ (fun tr env => match env with
      | Some env => environment_adopted repo request env tr
      | None => True end)).
  { eapply post_mono, find_existing_backed. by intros tr [env|e] H. }
  intros [env|].
  - apply post_done. intros tr3 H tr2 _ tr1 _. rewrite app_nil_r. left.
    by apply environment_adopted_app, environment_adopted_app.
  - eapply (post_try _ _ (fun tr _ => created_by request path config tr)).
    { eapply post_mono, create_worktree_does. intros tr [ws|e] H; [by apply H|done]. }
    intros ws. eapply post_bind; [apply environment_post|]. intros env. apply post_done.
    intros tr5 (Hp & Hi & Hb & Hm) tr4 (base & commands & Hbase & HC & Hr) tr3 _ tr2 _ tr1 ->. right.
    unfold environment_created. rewrite Hp. split_and!; [done..|].
    exists config, (tr2 ++ tr3 ++ tr4 ++ tr5 ++ []), base, commands. split_and!; [done..|].
    rewrite !host_events_app. do 2 apply ran_in_order_l. by apply ran_in_order_r.
Qed.
End Returned.
