(* ===== verification/WorktreePaths.v ===== *)
(** * Where the worktree provider puts worktrees

    The slugs of task names, the digests of thread names, the configured path of a
    repository: for them the worktree of a request lies below its base directory,
    whatever text they are made from. *)

From S2P Require Import Prelude StdModel Json Paths Git GitBranch GitSpecs WorktreeCopy.
From S2P Require Import WorktreeCopySpecs Isolation IsolationSpecs WorktreeProvider.

(** ** Slugs *)

(** Lower-case letters and digits with single dashes between; [true]: no dash first. *)
Inductive dashed : bool -> str -> Prop :=
| dashed_nil b : dashed b []
| dashed_char b c s : is_slug_char c = true -> dashed false s -> dashed b (c :: s)
| dashed_dash s : dashed true s -> dashed false (45%N :: s).

Lemma dash_runs_dashed b s : dashed b (dash_runs b s).
Proof.
  revert b. induction s as [|c s IH]; intros b; cbn [dash_runs]; [constructor|].
  destruct (is_slug_char c) eqn:E; [by constructor|]. destruct b; [apply IH|]. by constructor.
Qed.

Lemma dashed_weaken s : dashed true s -> dashed false s.
Proof. inversion 1; by constructor. Qed.

Lemma dashed_app_l b x y : dashed b (x ++ y) -> dashed b x.
Proof.
  revert b. induction x as [|c x IH]; intros b; [constructor|]. cbn [app].
  inversion 1; subst; [by constructor; [|apply IH]|by constructor; apply IH].
Qed.

Lemma trim_dashes_start b s : dashed b s -> dashed true (trim_start_matches is_dash s).
Proof.
  revert b. induction s as [|c s IH]; intros b H; cbn [trim_start_matches]; [constructor|].
  inversion H as [|? ? ? Hc Hs|? Hs]; subst.
  - unfold is_dash at 1. destruct (N.eqb_spec c 45) as [->|]; [done|]. by constructor.
  - change (is_dash 45) with true. by eapply IH.
Qed.

Lemma trim_rev_prefix (f : char -> bool) s : exists y, s = rev (trim_start_matches f (rev s)) ++ y.
Proof.
  destruct (trim_start_matches_spec f (rev s)) as (a & E & _).
  exists (rev a). rewrite <- rev_app_distr, <- E. by rewrite rev_involutive.
Qed.

Lemma dashed_ascii b s : dashed b s -> Forall (fun c => is_slug_char c || is_dash c) s.
Proof. induction 1; constructor; try done. by rewrite H. Qed.

Lemma ascii_bytes s : Forall (fun c => is_slug_char c || is_dash c) s -> byte_len s = length s.
Proof.
  induction 1 as [|c s Hc Hs IH]; [done|]. cbn [byte_len length]. rewrite IH.
  assert (E : utf8_width c = 1); [|lia].
  unfold utf8_width, is_slug_char, is_ascii_lowercase, is_ascii_digit, in_range, is_dash in *.
  destruct (N.ltb_spec c 128); [done|]. exfalso. apply Is_true_true in Hc.
  rewrite !orb_true_iff, !andb_true_iff, !N.leb_le, N.eqb_eq in Hc. lia.
Qed.

Lemma chars_before_prefix i n s : exists y, s = chars_before i n s ++ y.
Proof.
  revert i. induction s as [|c s IH]; intros i; cbn [chars_before]; [by exists []|].
  destruct (Nat.ltb i n); [|by eexists]. destruct (IH (i + utf8_width c)) as [y E].
  exists y. cbn [app]. by rewrite <- E.
Qed.
Lemma chars_before_length i n s :
  Forall (fun c => is_slug_char c || is_dash c) s -> i <= n -> length (chars_before i n s) <= n - i.
Proof.
  intros H. revert i. induction H as [|c s Hc Hs IH]; intros i Hi; cbn [chars_before length]; [lia|].
  destruct (Nat.ltb_spec i n); cbn [length]; [|lia].
  pose proof (utf8_width_pos c). destruct (decide (i + utf8_width c <= n)) as [Hle|Hgt].
  - pose proof (IH (i + utf8_width c) Hle). lia.
  - assert (chars_before (i + utf8_width c) n s = []) as ->; [|cbn; lia].
    destruct s as [|d s]; [done|]. cbn [chars_before].
    destruct (Nat.ltb_spec (i + utf8_width c) n); [lia|done].
Qed.

(** A slug, whatever the text: lower-case ASCII letters and digits with single dashes
    between, no dash first, and no longer than 50 bytes. *)
Lemma slugify_slug `{UnicodeCase} (input : str) :
  dashed true (slugify input) /\ byte_len (slugify input) <= 50.
Proof.
  unfold slugify, trim_dashes. set (l := to_lowercase input).
  assert (Hs : dashed true (rev (trim_start_matches is_dash
                 (rev (trim_start_matches is_dash (dash_runs false l)))))).
  { pose proof (trim_dashes_start _ _ (dash_runs_dashed false l)) as H1.
    destruct (trim_rev_prefix is_dash (trim_start_matches is_dash (dash_runs false l))) as [y E].
    rewrite E in H1. by apply dashed_app_l in H1. }
  set (s := rev _) in *. destruct (Nat.ltb_spec 50 (byte_len s)).
  - destruct (chars_before_prefix 0 50 s) as [y E]. split.
    + rewrite E in Hs. by apply dashed_app_l in Hs.
    + pose proof (chars_before_length 0 50 s (dashed_ascii _ _ Hs)).
      rewrite E in Hs. apply dashed_app_l, dashed_ascii, ascii_bytes in Hs. lia.
  - split; [done|lia].
Qed.

(** ** Names below the base directory *)

Lemma slug_safe s : Forall (fun c => is_slug_char c || is_dash c) s -> Forall (fun c => is_safe_char c) s.
Proof.
  intros H. eapply Forall_impl; [exact H|]. intros c Hc. unfold is_safe_char, is_ascii_alphanumeric, is_ascii_alphabetic.
  unfold is_slug_char, is_dash in Hc. apply Is_true_true in Hc. apply Is_true_true.
  rewrite !orb_true_iff in *. tauto.
Qed.

Lemma hex_digit_safe d : (d < 16)%N -> is_safe_char (hex_digit d).
Proof.
  intros Hd. unfold hex_digit. apply Is_true_true.
  assert (H : forallb (fun d => is_safe_char (if (d <? 10)%N then 48 + d else 87 + d)%N)
    (map N.of_nat (seq 0 16)) = true) by by_compute.
  rewrite forallb_forall in H. apply H. apply in_map_iff.
  exists (N.to_nat d). split; [lia|]. apply in_seq. lia.
Qed.
Lemma hex_safe bytes : Forall (fun b => (b < 256)%N) bytes -> Forall (fun c => is_safe_char c) (hex_encode bytes).
Proof.
  induction 1 as [|b bytes Hb Hbytes IH]; [constructor|].
  change (hex_encode (b :: bytes)) with (hex_digit (b / 16) :: hex_digit (b mod 16) :: hex_encode bytes).
  repeat constructor; [apply hex_digit_safe, N.Div0.div_lt_upper_bound; lia
                      |apply hex_digit_safe, N.mod_lt; lia|done].
Qed.

Lemma prefixed_plain (p s : str) :
  3 <= length p -> Forall (fun c => is_safe_char c) p -> Forall (fun c => is_safe_char c) s ->
  plain_name (p ++ s).
Proof.
  intros Hl Hp Hs. assert (H : Forall (fun c => is_safe_char c) (p ++ s)) by (by apply Forall_app).
  split; [destruct p; [cbn in Hl; lia|done]|split; [by eapply (safe_char_neq 47)|]].
  unfold is_dots. apply orb_false_iff. split; apply not_true_iff_false; intros E%str_eqb_spec;
    apply (f_equal length) in E; rewrite length_app in E; vm_compute in E; destruct p as [|? [|? [|? ?]]];
    cbn in *; lia.
Qed.

Section Names.
Context {UC : UnicodeCase} {SHA : Sha256}.

(** The requests whose branch name is made from a slug or a digest. *)
Definition generated_name (request : IsolationRequest) : option str :=
  match request with
  | Task _ i _ => Some (lit "task-" ++ slugify i)
  | Thread _ i => Some (lit "thread-" ++ short_hash i)
  | _ => None
  end.

Lemma generated_plain request n : generated_name request = Some n ->
  plain_name n /\ generate_branch_name request = lit "archon" ++ slash ++ n.
Proof.
  destruct request; cbn [generated_name generate_branch_name]; intros E; try discriminate E;
    apply (inj Some) in E; subst n.
  - split; [|done]. apply prefixed_plain; [vm_compute; lia|repeat constructor|].
    apply hex_safe, Forall_take, sha256_bytes.
  - split; [|done]. apply prefixed_plain; [vm_compute; lia|repeat constructor|].
    destruct (slugify_slug identifier) as [H _]. by apply slug_safe, (dashed_ascii true).
Qed.

(** Joining two names at once. *)
Lemma join_two (p a b : str) : plain_name a -> plain_name b ->
  components (path_join p (a ++ slash ++ b)) = components p ++ [Normal a; Normal b].
Proof.
  intros Ha Hb.
  assert (E : path_join p (a ++ slash ++ b) = path_join (path_join p a) b).
  { pose proof Ha as (Hne & Hs & _). pose proof Hb as (Hbne & Hbs & _).
    assert (Hj : forall q n, q <> [] -> last q <> Some 47%N -> 47%N ∉ n -> path_join q n = q ++ slash ++ n).
    { intros q n Hq Hl Hn. destruct (path_join_cases q n Hn) as [[E _]|[(r & E & _)|[_ E]]]; [done| |done].
      subst q. by rewrite last_app in Hl. }
    assert (Hla : forall x, last (x ++ a) <> Some 47%N).
    { intros x. rewrite last_app. destruct (last a) as [c|] eqn:L; [|by apply last_None in L].
      intros [= ->]. apply Hs. by apply last_Some_elem_of in L. }
    assert (Hst : starts_with (lit "/") (a ++ slash ++ b) = starts_with (lit "/") a).
    { destruct a as [|c a]; [done|]. unfold starts_with. change (lit "/") with [47%N].
      cbn [app strip_prefix]. by destruct (47 =? c)%N. }
    unfold path_join at 1. rewrite Hst. unfold path_join at 2.
    destruct (starts_with (lit "/") a) eqn:Ea.
    - apply starts_with_spec in Ea as [r ->]. destruct Hs. by left.
    - destruct (is_empty p || _).
      + rewrite Hj; [by rewrite <- app_assoc|by destruct p, a|by apply Hla|done].
      + rewrite Hj; [by rewrite <- !app_assoc|by destruct p|rewrite app_assoc; by apply Hla|done]. }
  rewrite E, !components_join by done. by rewrite <- app_assoc.
Qed.

Lemma generated_below request n base : generated_name request = Some n ->
  components (path_join base (generate_branch_name request)) = components base ++ [Normal (lit "archon"); Normal n].
Proof.
  intros H. destruct (generated_plain request n H) as [Hn ->]. apply join_two; [plain_lit|done].
Qed.
End Names.

(** ** The configured path *)

(** The pieces of a normalized relative path: climbs, then names. *)
Definition climbing (out : list str) : Prop :=
  exists k ns, Forall plain_name ns /\ rev out = repeat (lit "..") k ++ ns.

Lemma plain_not_climb n : plain_name n -> str_eqb n (lit "..") = false.
Proof. intros (_ & _ & [_ H]%orb_false_iff). exact H. Qed.

Lemma normalize_str_step_climbing out c : climbing out -> inner c -> climbing (normalize_str_step out c).
Proof.
  intros (k & ns & Hns & E) Hc. apply (f_equal (@rev str)) in E. rewrite rev_involutive in E. subst out.
  destruct c as [| | |n]; try done; cbn [normalize_str_step].
  - destruct ns as [|n ns _] using rev_ind.
    + rewrite app_nil_r, rev_repeat. destruct k as [|k]; cbn [repeat].
      * exists 1, []. by split.
      * rewrite str_eqb_refl. exists (S (S k)), []. split; [done|].
        change (lit ".." :: lit ".." :: repeat (lit "..") k) with (repeat (lit "..") (S (S k))).
        by rewrite rev_repeat, app_nil_r.
    + apply Forall_app in Hns as [Hns Hn]. inversion_clear Hn as [|? ? Hn' _].
      rewrite app_assoc, rev_app_distr. cbn [rev app]. rewrite plain_not_climb by done.
      exists k, ns. by rewrite rev_involutive.
  - exists k, (ns ++ [n]). split; [apply Forall_app; split; [done|by apply Forall_singleton]|].
    cbn [rev]. by rewrite rev_involutive, app_assoc.
Qed.

Lemma fold_climbing cs out : climbing out -> Forall inner cs -> climbing (fold_left normalize_str_step cs out).
Proof.
  intros Ho Hcs. revert out Ho. induction Hcs as [|c cs Hc Hcs IH]; intros out Ho; [done|].
  apply IH. by apply normalize_str_step_climbing.
Qed.

Lemma relative_components p : is_absolute p = false ->
  exists cs, Forall inner cs /\ (components p = cs \/ components p = CurDir :: cs).
Proof.
  intros Hp. pose proof (components_valid p) as Hv.
  destruct (components p) as [|c cs] eqn:E; [exists []; auto|].
  destruct c as [| | |n]; [|by exists cs; auto|by exists (ParentDir :: cs); auto|by exists (Normal n :: cs); auto].
  exfalso. unfold components in E. destruct (split slash p) as [|first rest] eqn:Es; [done|].
  destruct first as [|c first].
  - destruct rest as [|r rest]; [done|]. pose proof (join_split slash p ltac:(done)) as J.
    rewrite Es, join_cons in J by done. cbn [app] in J. by rewrite <- J in Hp.
  - unfold leading, component in E. by repeat case_match.
Qed.

Lemma normalize_climbing p : is_absolute p = false ->
  exists k ns, Forall plain_name ns
    /\ normalize_path_str p = fold_left path_join (repeat (lit "..") k ++ ns) [].
Proof.
  intros (cs & Hcs & Hc)%relative_components. unfold normalize_path_str.
  assert (H : climbing (fold_left normalize_str_step (components p) [])).
  { assert (H0 : climbing []) by (by exists 0, []).
    destruct Hc as [->| ->]; cbn [fold_left normalize_str_step]; by apply fold_climbing. }
  destruct H as (k & ns & Hns & E). exists k, ns. by rewrite E.
Qed.

(** Joined to a text that climbs, a name without a slash leaves it climbing. *)
Lemma join_climbs l p : Forall (fun x => 47%N ∉ x) l -> starts_with (lit "../") p = true ->
  starts_with (lit "../") (fold_left path_join l p) = true.
Proof.
  intros Hl. revert p. induction Hl as [|x l Hx Hl IH]; intros p Hp; [done|]. cbn [fold_left]. apply IH.
  apply starts_with_spec in Hp as [r ->].
  destruct (path_join_cases (lit "../" ++ r) x Hx) as [[E _]|[(q & E & H)|[_ H]]]; [done| |].
  - rewrite H, app_assoc, <- E. apply starts_with_spec. exists (r ++ x). by rewrite app_assoc.
  - rewrite H. apply starts_with_spec. exists (r ++ slash ++ x). by rewrite <- app_assoc.
Qed.

Lemma climbs_complete k ns : Forall plain_name ns ->
  climbs (fold_left path_join (repeat (lit "..") (S k) ++ ns) []) = true.
Proof.
  intros Hns. cbn [repeat app fold_left]. change (path_join [] (lit "..")) with (lit "..").
  assert (Hl : Forall (fun x => 47%N ∉ x) (repeat (lit "..") k ++ ns)).
  { apply Forall_app. split; [|eapply Forall_impl; [exact Hns|by intros x (_ & H & _)]].
    apply Forall_forall. intros x Hx%list_elem_of_In%repeat_spec. subst x.
    apply (bool_decide_unpack _). by_compute. }
  destruct (repeat (lit "..") k ++ ns) as [|x l]; [done|]. inversion_clear Hl as [|? ? Hx Hl'].
  cbn [fold_left].
  assert (H : starts_with (lit "../") (path_join (lit "..") x) = true).
  { destruct (path_join_cases (lit "..") x Hx) as [[E _]|[(q & E & H)|[_ H]]]; [done| |].
    - apply (f_equal (@last char)) in E. rewrite last_app in E. by vm_compute in E.
    - rewrite H. apply starts_with_spec. by exists x. }
  unfold climbs. rewrite (join_climbs l _ Hl' H). by rewrite orb_true_r.
Qed.

Lemma fold_join_names p ns : Forall plain_name ns ->
  components (fold_left path_join ns p) = components p ++ map Normal ns.
Proof.
  intros H. revert p. induction H as [|n ns Hn Hns IH]; intros p; [by rewrite app_nil_r|].
  cbn [fold_left map]. by rewrite IH, components_join, <- app_assoc.
Qed.
Lemma fold_join_relative ns : Forall plain_name ns -> is_absolute (fold_left path_join ns []) = false.
Proof.
  intros Hns. apply not_true_iff_false. intros (r & E)%starts_with_spec.
  pose proof (fold_join_names [] ns Hns) as H. rewrite E in H. change (components []) with (@nil Component) in H.
  unfold components in H. change (slash ++ r) with ([] ++ 47%N :: r) in H. change slash with [47%N] in H at 1.
  rewrite split_app_char in H. change [47%N] with slash in H. change (split slash []) with [@nil N] in H.
  cbn [app] in H. destruct (split slash r) eqn:Es; [by apply split_not_nil in Es|]. by destruct ns.
Qed.

(** The override of the configuration names a directory below the repository. *)
Lemma override_inside (raw : option str) (repo_root : str) :
  post (resolve_repo_local_override raw repo_root) (fun _ r =>
    match r with Ok (Some p) => path_within (path_join repo_root p) repo_root | _ => True end).
Proof.
  unfold resolve_repo_local_override. destruct raw as [raw|]; [|by apply post_done].
  destruct (is_empty (trim raw)); [by apply post_done|].
  destruct (is_absolute (trim raw)) eqn:Ha; [by apply post_done|].
  destruct (climbs _) eqn:Hc; [by apply post_done|].
  eapply post_bind; [apply post_any|]. intros base. eapply post_bind; [apply post_any|]. intros root.
  apply post_done. intros tr _ tr' _. destruct (negb _ && negb _); [done|].
  destruct (normalize_climbing _ Ha) as (k & ns & Hns & E). rewrite E in Hc |- *.
  destruct k as [|k]; [|by rewrite climbs_complete in Hc].
  exists ns. apply components_join_relative; [by apply fold_join_relative|]. by apply (fold_join_names []).
Qed.

(** ** The path of a worktree *)

Section WorktreePath.
Context {UC : UnicodeCase} {ENV : ProcessEnvironment} {SHA : Sha256}.

Lemma base_dir_post base override :
  post (base_dir_of base override) (fun _ r =>
    match r with
    | Ok dir =>
        match override with
        | Some p => dir = path_join (canonical_repo_path base) p
        | None => exists owner repo, get_project_worktrees_path owner repo = Ok dir
        end
    | Err _ => True
    end).
Proof.
  unfold base_dir_of. eapply (post_try _ _ (fun _ q => q = canonical_repo_path base)).
  { destruct (other _) as [q|e] eqn:E; [|by apply post_done].
    apply to_repo_path_Ok in E. by apply post_done. }
  intros q. unfold get_worktree_base. destruct override as [p|].
  - apply post_done. intros tr ->. done.
  - destruct (resolve_owner_repo q (codebase_name base)) as [[owner repo]|]; [|done].
    cbn [pure_step mbind proc_bind outcome_bind]. apply post_done. intros tr _.
    destruct (get_project_worktrees_path (fst (owner, repo)) (snd (owner, repo))) as [dir|e] eqn:E;
      cbn [mbind result_bind]; [|done]. by exists owner, repo.
Qed.

(** C21: The worktree of a task or of a thread lies two names below its base directory,
    [archon] and a name without separators, whatever the text of the task or the
    identifier of the thread; and the base directory is below the repository when the
    repository configures one, else the worktrees directory of a project. *)
Theorem worktree_path_inside (request : IsolationRequest) (n : str) (config : option WorktreeCreateConfig) :
  generated_name request = Some n ->
  post (get_worktree_path request (generate_branch_name request) config) (fun _ r =>
    match r with
    | Ok p => exists base, components p = components base ++ [Normal (lit "archon"); Normal n]
        /\ (path_within base (canonical_repo_path (request_base request))
            \/ exists owner repo, get_project_worktrees_path owner repo = Ok base)
    | Err _ => True
    end).
Proof.
  intros Hn. unfold get_worktree_path. eapply (post_try _ _ (fun _ override =>
    match override with
    | Some p => path_within (path_join (canonical_repo_path (request_base request)) p)
                  (canonical_repo_path (request_base request))
    | None => True
    end)).
  { eapply post_mono, post_lift, override_inside. by intros tr [[p|]|e] (htr & _ & H). }
  intros override. eapply (post_try _ _ (fun _ dir =>
    match override with
    | Some p => dir = path_join (canonical_repo_path (request_base request)) p
    | None => exists owner repo, get_project_worktrees_path owner repo = Ok dir
    end)).
  { eapply post_mono, base_dir_post. by intros tr [dir|e] H; [exact H|]. }
  intros dir. apply post_done. intros tr Hdir tr' Hov. exists dir.
  split; [by apply generated_below|]. destruct override as [p|]; [left; by subst dir|by right].
Qed.
End WorktreePath.

(** A digest that shows the first characters of the text. *)
#[export] Program Instance sample_sha : Sha256 :=
  {| sha256 := fun s => map (fun c => c mod 256)%N (take 32 s) ++ repeat 0%N (32 - length (take 32 s)) |}.
Next Obligation.
  intros s. split.
  - rewrite length_app, length_map, repeat_length. pose proof (length_take s 32). lia.
  - apply Forall_app. split.
    + apply Forall_map, Forall_forall. intros c _. apply N.mod_lt. lia.
    + apply Forall_forall. intros c Hc%list_elem_of_In%repeat_spec. by subst c.
Qed.

Definition sample_base : IsolationRequestBase :=
  mk_IsolationRequestBase (lit "cb-1") (Some (lit "o/r")) (lit "/src/o/r") None None.
Definition sample_task : IsolationRequest := Task sample_base (lit "../Fix  the *BUG*!") None.
Definition sample_config : WorktreeCreateConfig :=
  mk_WorktreeCreateConfig None None None (Some (lit "./x/../.worktrees")).
(** A world without files. *)
Definition iso_clone_world : Process.world iso_call := fun _ c =>
  match c return iso_ret c with
  | Sys c => clone_world [] c
  | LoadConfig _ => None
  | UtcNow => 0%Z
  | GetById _ | FindActiveByWorkflow _ _ _ => Ok None
  | CreateEnvironment _ => Err (Other (lit "no store"))
  | UpdateStatus _ _ => Ok tt
  | Cleanup _ => 0%N
  end.

Lemma worktree_path_inside_witness :
  post (@get_worktree_path sample_env sample_task
          (generate_branch_name sample_task) (Some sample_config))
    (fun _ r => match r with
       | Ok p => exists base, components p
                   = components base ++ [Normal (lit "archon"); Normal (lit "task-fix-the-bug")]
           /\ (path_within base (lit "/src/o/r")
               \/ exists owner repo, @get_project_worktrees_path sample_env owner repo = Ok base)
       | Err _ => True
       end)
  /\ snd (exec iso_clone_world []
       (@get_worktree_path sample_env sample_task (generate_branch_name sample_task)
          (Some sample_config)))
     = Ret (Ok (lit "/src/o/r/.worktrees/archon/task-fix-the-bug"))
  /\ snd (exec iso_clone_world []
       (@get_worktree_path sample_env sample_task (generate_branch_name sample_task) None))
     = Ret (Ok (lit "/home/u/.archon/workspaces/o/r/worktrees/archon/task-fix-the-bug")).
Proof.
  split; [|split; by_compute].
  apply (@worktree_path_inside ascii_case sample_env sample_sha sample_task). by_compute.
Defined.

(** The identifiers of issues and reviews are used as they are: one that climbs leaves
    the base directory. *)
Example issue_path_escapes :
  snd (exec iso_clone_world []
    (@get_worktree_path sample_env (Issue sample_base (lit "1/../../../../../x"))
       (generate_branch_name (Issue sample_base (lit "1/../../../../../x"))) None))
  = Ret (Ok (lit "/home/u/.archon/workspaces/o/r/worktrees/archon/issue-1/../../../../../x")).
Proof. by_compute. Qed.
