(* ===== verification/WorktreeDestroy.v ===== *)
(** * Destroying environments, and what resolving makes of failures

    A directory is deleted only after git was asked to remove the worktree in it; then
    concrete runs of the provider and of the resolver, among them the places where they
    depart from what their comments say. *)

From S2P Require Import Prelude StdModel Json Paths Git GitBranch GitSpecs WorktreeCopy.
From S2P Require Import Isolation Resolver IsolationSpecs WorktreeProvider WorktreeCreate WorktreeSpecs WorktreePaths.

(** ** One subprocess *)

Inductive git_run (args : list str) : list (event host_call) -> result GitError ExecOutput -> Prop :=
| run_spawn_error e :
    git_run args [@mk_event host_call host_calls (Spawn (lit "git") args None []) (Err e)]
      (Err (ProcessError (lit "Failed to spawn '" ++ lit "git" ++ lit "': " ++ io.text e)))
| run_end ms r :
    git_run args [@mk_event host_call host_calls (Spawn (lit "git") args None []) (Ok tt);
                  @mk_event host_call host_calls (WaitTimeout ms) (Some r)]
      (exec_result (lit "git") args r)
| run_timeout ms :
    git_run args [@mk_event host_call host_calls (Spawn (lit "git") args None []) (Ok tt);
                  @mk_event host_call host_calls (WaitTimeout ms) None]
      (Err (ProcessError (lit "Command '" ++ lit "git" ++ lit "' timed out after "
                          ++ show_N ms ++ lit "ms"))).

Lemma git_runs args ms : post (git args ms) (git_run args).
Proof.
  unfold git, exec_file_async. eapply (post_bind _ _ (fun tr r =>
    tr = [@mk_event host_call host_calls (Spawn (lit "git") args None []) r])); [by intros r|].
  intros [[]|e]; [|apply post_done; intros tr ->; constructor].
  cbn [timeout_ms with_timeout].
  eapply (post_bind _ _ (fun tr r => tr = [@mk_event host_call host_calls (WaitTimeout ms) r]));
    [by intros r|].
  intros [r|]; apply post_done; intros tr -> tr' ->; constructor.
Qed.

Lemma git_gives args ms : gives (git args ms) (fun _ => True).
Proof.
  unfold git, exec_file_async. apply gives_then; [by intros r; exists r|]. intros [[]|e]; [|by apply gives_done].
  cbn [timeout_ms with_timeout]. apply gives_then; [by intros r; exists r|].
  intros [r|]; by apply gives_done.
Qed.

(** ** Deleting a directory *)

(** [git worktree remove], whatever the repository. *)
Definition is_removal (args : list str) : bool :=
  match args with
  | _ :: _ :: noun :: verb :: _ => str_eqb noun (lit "worktree") && str_eqb verb (lit "remove")
  | _ => false
  end.
(** A call that removes neither a directory nor a worktree. *)
Definition no_removal (c : host_call) : Prop :=
  match c with
  | RemoveDirAll _ => False
  | Spawn _ args _ _ => is_removal args = false
  | _ => True
  end.
Definition clean (tr : list (event host_call)) : Prop := Forall (fun e => no_removal (ev_call e)) tr.

Definition remove_args (repo path : str) (force : option bool) : list str :=
  [lit "-C"; repo; lit "worktree"; lit "remove"]
  ++ (if bool_decide (force = Some true) then [lit "--force"] else []) ++ [path].

Section Destroy.
Context {UC : UnicodeCase}.

(** The attempt to remove the worktree succeeded, or its error says that something does
    not exist or is no working tree; whether the worktree is meant is not told. *)
Definition agreed (r : result GitError ExecOutput) : bool :=
  match other r with Ok _ => true | Err e => is_worktree_missing_error e end.

(** One worktree is removed at most, and one directory, both that of the environment,
    the directory last. *)
Inductive guarded (path : str) (force : option bool) (tr : list (event host_call)) : Prop :=
| Guarded_untouched : clean tr -> guarded path force tr
| Guarded_asked repo pre gtr out suf :
    tr = pre ++ gtr ++ suf -> clean pre -> clean suf ->
    git_run (remove_args repo path force) gtr out -> guarded path force tr
| Guarded_deleted repo pre gtr out mid r suf :
    tr = pre ++ gtr ++ mid ++ [@mk_event host_call host_calls (RemoveDirAll path) r] ++ suf ->
    clean pre -> clean mid -> clean suf ->
    git_run (remove_args repo path force) gtr out -> agreed out = true -> guarded path force tr.

Lemma clean_app a b : clean (a ++ b) <-> clean a /\ clean b.
Proof. apply Forall_app. Qed.

Definition guards {A} path force (p : host A) : Prop := always p (fun tr _ => guarded path force tr).
Definition cleans {A} (p : host A) : Prop := only_calls no_removal p.

Lemma guards_done {A} path force (a : A) : guards path force (Done a).
Proof. apply Guarded_untouched. constructor. Qed.
Lemma guarded_after path force a tr : clean a -> guarded path force tr -> guarded path force (a ++ tr).
Proof.
  intros Ha [Hc|repo pre gtr out suf -> H1 H2 H3|repo pre gtr out mid r suf -> H1 H2 H3 H4 H5].
  - apply Guarded_untouched. by apply clean_app.
  - eapply (Guarded_asked _ _ _ repo (a ++ pre) gtr out suf); rewrite <- ?app_assoc; try done.
    by apply clean_app.
  - eapply (Guarded_deleted _ _ _ repo (a ++ pre) gtr out mid r suf); rewrite <- ?app_assoc; try done.
    by apply clean_app.
Qed.
Lemma guarded_before path force a tr : clean a -> guarded path force tr -> guarded path force (tr ++ a).
Proof.
  intros Ha [Hc|repo pre gtr out suf -> H1 H2 H3|repo pre gtr out mid r suf -> H1 H2 H3 H4 H5].
  - apply Guarded_untouched. by apply clean_app.
  - eapply (Guarded_asked _ _ _ repo pre gtr out (suf ++ a)); rewrite <- ?app_assoc; try done.
    by apply clean_app.
  - eapply (Guarded_deleted _ _ _ repo pre gtr out mid r (suf ++ a)); rewrite <- ?app_assoc; try done.
    by apply clean_app.
Qed.
Lemma guards_after {A B} path force (p : host A) (f : A -> host B) :
  cleans p -> (forall a, guards path force (f a)) -> guards path force (p ≫= f).
Proof.
  intros Hp Hf. unfold guards. rewrite always_bind. eapply always_mono, Hp.
  intros tr [a|] Htr; [|by apply Guarded_untouched]. eapply always_mono, Hf.
  intros tr' o. by apply guarded_after.
Qed.
Lemma guards_before {A B} path force (p : host A) (f : A -> host B) :
  guards path force p -> (forall a, cleans (f a)) -> guards path force (p ≫= f).
Proof.
  intros Hp Hf. unfold guards. rewrite always_bind. eapply always_mono, Hp.
  intros tr [a|] Htr; [|done]. eapply always_mono, Hf. intros tr' o Hc. by apply guarded_before.
Qed.
Lemma guards_try_after {A B E} path force (p : host (result E A)) (f : A -> host (result E B)) :
  cleans p -> (forall a, guards path force (f a)) -> guards path force (try p f).
Proof. intros Hp Hf. apply guards_after; [done|]. intros [a|e]; [apply Hf|apply guards_done]. Qed.
Lemma guards_try_before {A B E} path force (p : host (result E A)) (f : A -> host (result E B)) :
  guards path force p -> (forall a, cleans (f a)) -> guards path force (try p f).
Proof. intros Hp Hf. apply guards_before; [done|]. intros [a|e]; [apply Hf|constructor]. Qed.

Lemma cleans_exec cmd args options :
  is_removal args = false -> cleans (exec_file_async cmd args options).
Proof.
  intros Hargs.
  apply only_bind; [by apply only_sys|]. intros [[]|e]; [|apply only_done].
  destruct (timeout_ms options); (apply only_bind; [by apply only_sys|]); intros r;
    [destruct r|]; apply only_done.
Qed.
Lemma cleans_list repo : cleans (list_worktrees repo).
Proof. apply only_bind; [by apply cleans_exec|intros; apply only_done]. Qed.
Lemma cleans_exists path : cleans (directory_exists path).
Proof. apply only_bind; [by apply only_sys|intros; apply only_done]. Qed.
Lemma cleans_canonical path : cleans (get_canonical_repo_path path).
Proof.
  apply only_try.
  { apply only_bind; [by apply only_sys|intros; apply only_done]. }
  intros []; [|apply only_done]. apply only_bind; [by apply only_sys|].
  intros [c|e]; [|apply only_done]. destruct (regex_extract_repo_from_gitdir c); [apply only_done|].
  apply only_bind; [apply only_pure|intros ?]. apply only_bind; [apply only_pure|intros; apply only_done].
Qed.
Lemma cleans_any target wts : cleans (any_canonical target wts).
Proof.
  induction wts as [|wt wts IH]; [apply only_done|]. apply only_bind; [by apply only_sys|].
  intros [p|e]; [|exact IH]. destruct (path_eqb p target); [apply only_done|exact IH].
Qed.
Lemma cleans_registered repo path : cleans (is_worktree_registered repo path).
Proof.
  unfold is_worktree_registered. destruct (to_repo_path repo); [|apply only_done].
  apply only_bind; [apply cleans_list|]. intros [wts|e]; [|apply only_done].
  apply only_bind; [by apply only_sys|intros; apply cleans_any].
Qed.
Lemma cleans_delete repo options removed c ws : cleans (delete_branches repo options removed c ws).
Proof.
  unfold delete_branches. destruct (do_branch_name options); [|apply only_done].
  apply only_bind; [apply only_bind; [by apply cleans_exec|intros; apply only_done]|intros ?].
  case_bool_decide; [|apply only_done].
  apply only_bind; [apply only_bind; [by apply cleans_exec|intros; apply only_done]|intros; apply only_done].
Qed.

Lemma remove_existing_guards repo path force ws : guards path force (remove_existing repo path force ws).
Proof.
  unfold remove_existing. unfold guards. rewrite always_bind.
  eapply always_mono; [|apply always_and;
    [apply (git_runs (remove_args repo path force) GIT_OPERATION_TIMEOUT_MS)|apply (git_gives _ _)]].
  intros gtr o [Hrun (out & -> & _)]. cbn zeta. unfold try at 1. cbn [mbind proc_bind].
  assert (forall tr, clean tr -> guarded path force (gtr ++ tr)) as Hasked.
  { intros tr Htr. by eapply (Guarded_asked _ _ _ repo [] gtr out tr); [|constructor| |]. }
  destruct (agreed out) eqn:Ha.
  2:{ unfold agreed in Ha. destruct (other out) as [o|e]; [done|]. rewrite Ha. apply Hasked. constructor. }
  assert (Hok : match other out with
                | Ok _ => Ok tt
                | Err e => if is_worktree_missing_error e then Ok tt else Err e
                end = Ok tt :> result IsolationError unit).
  { unfold agreed in Ha. destruct (other out) as [o|e]; [done|]. by rewrite Ha. }
  rewrite Hok. unfold try. rewrite always_bind. eapply always_mono; [|apply (cleans_exists path)].
  intros mid [[[]|e]|] Hmid; [|cbn [always]; rewrite ?app_nil_r; by apply Hasked..].
  intros r. by eapply (Guarded_deleted _ _ _ repo [] gtr out mid r []);
    [reflexivity|constructor| |constructor| |].
Qed.

(** C20: destroying an environment asks git to remove at most one worktree, that of the
    environment, with [--force] only when the caller says so.  It deletes at most one
    directory, that of the environment, and only after that attempt succeeded or failed
    with an error that speaks of something missing: with the words no such file or
    directory, does not exist, or is not a working tree.  After any other refusal of
    git nothing is deleted.  (The words may also be about git itself or the repository:
    see [missing_git_deletes].) *)
Theorem destroy_guarded (env_id : str) (options : option DestroyOptions) :
  guards env_id (options ≫= force) (provider_destroy env_id options).
Proof.
  unfold provider_destroy.
  replace (options ≫= force) with (force (default default_destroy options)) by (by destruct options).
  set (opts := default default_destroy options).
  apply guards_try_after; [apply cleans_exists|]. intros exists_.
  apply guards_try_after.
  { destruct (do_canonical_repo_path opts); [apply only_done|].
    destruct exists_; [|apply only_done].
    apply only_bind; [apply cleans_canonical|intros; apply only_done]. }
  intros [repo|]; [|apply guards_done].
  apply guards_try_before.
  { destruct exists_; [apply remove_existing_guards|apply guards_done]. }
  intros [c ws]. apply only_bind; [by apply cleans_exec|intros ?].
  apply only_bind; [apply cleans_registered|intros ?].
  apply only_bind; [apply cleans_delete|intros; apply only_done].
Qed.
End Destroy.
