(* ===== verification/SampleIsolation.v ===== *)
(** * Concrete runs of the isolation of a conversation

    Worlds in which the provider and the resolver run to their end: where the theorems
    about them are applied, and where they depart from what their comments say. *)

From S2P Require Import Prelude StdModel Json Paths Git GitBranch GitSpecs WorktreeCopy.
From S2P Require Import Isolation Resolver IsolationSpecs WorktreeProvider WorktreeCreate WorktreeSpecs.
From S2P Require Import WorktreePaths WorktreeDestroy.

#[export] Existing Instance sample_env.
#[export] Instance sample_dates : CommitDates := fun _ => None.

(** The arguments of the last command. *)
Fixpoint last_args (past : list (event host_call)) : list str :=
  match past with
  | [] => []
  | e :: past =>
      match last_args past, ev_call e with
      | [], Spawn _ args _ _ => args
      | args, _ => args
      end
  end.
(** A world told by: what a command writes ([None]: it never ends), and what is on disk. *)
Definition told_world (run : list str -> option ProcessEnd) (on_disk : str -> bool)
    (files : str -> option str) (past : list (event host_call)) (c : host_call) : host_ret c :=
  let missing := io.mk_Error io.NotFound (lit "No such file or directory (os error 2)") in
  match c return host_ret c with
  | Spawn _ _ _ _ => Ok tt
  | Wait => Ok (default (mk_ProcessEnd (Some 0%Z) [] []) (run (last_args past)))
  | WaitTimeout _ => Ok <$> run (last_args past)
  | Metadata p => if on_disk p then Ok true else Err missing
  | ReadToString p => match files p with Some t => Ok t | None => Err missing end
  | Canonicalize p => if on_disk p then Ok p else Err missing
  | CreateDir _ | CreateDirAll _ | CopyFile _ _ | RemoveDirAll _ => Ok tt
  | ReadDir _ => Ok ([], None)
  end.

Definition host_event (e : event iso_call) : list (event host_call) :=
  match e with @mk_event _ _ (Sys c) r => [@mk_event host_call host_calls c r] | _ => [] end.
Definition sample_row (p : CreateEnvironmentParams) : IsolationEnvironmentRow :=
  mk_IsolationEnvironmentRow (lit "env-1") (cp_codebase_id p) (cp_workflow_type p) (cp_workflow_id p)
    Worktree (cp_working_path p) (cp_branch_name p) Active 0%Z (cp_created_by_platform p)
    (cp_created_by_user_id p) [].
(** A store that records, and that has [found] for every workflow. *)
Definition iso_world (host : list (event host_call) -> forall c, host_ret c)
    (found : option IsolationEnvironmentRow) : Process.world iso_call := fun past c =>
  match c return iso_ret c with
  | Sys c => host (concat (map host_event past)) c
  | LoadConfig _ => None
  | UtcNow => 0%Z
  | GetById _ | FindActiveByWorkflow _ _ _ => Ok found
  | CreateEnvironment p => Ok (sample_row p)
  | UpdateStatus _ _ => Ok tt
  | Cleanup _ => 0%N
  end.

(** Every command succeeds; the default branch is main; nothing is on disk. *)
Definition fresh (args : list str) : option ProcessEnd :=
  Some (mk_ProcessEnd (Some 0%Z) (lit "origin/main") []).
Definition nothing (p : str) : bool := false.
Definition no_files (p : str) : option str := None.

#[export] Instance sample_provider : IsolationProvider := worktree_provider 4.
Definition sample_resolver : IsolationResolver := mk_IsolationResolver false 14.

Definition sample_codebase : CodebaseSummary := mk_CodebaseSummary (lit "cb-1") (lit "/src/o/r") (lit "o/r").
Definition sample_hints (wt : IsolationWorkflowType) (id : str) : IsolationHints :=
  mk_IsolationHints (Some wt) (Some id) None None None None None None.
Definition sample_request : ResolveRequest :=
  mk_ResolveRequest None (Some sample_codebase) (Some (sample_hints WfIssue (lit "42"))) (lit "slack") None.

(** ** Theorems applied *)

Abbreviation run_fresh := (exec (iso_world (told_world fresh nothing no_files) None) []
  (resolve sample_resolver sample_request)).

Definition new_path : str := lit "/home/u/.archon/workspaces/o/r/worktrees/archon/issue-42".
Definition new_params : CreateEnvironmentParams :=
  mk_CreateEnvironmentParams (lit "cb-1") WfIssue (lit "42") (Some Worktree) new_path
    (lit "archon/issue-42") (Some (lit "slack")) None None.

Lemma resolve_records_witness :
  post (resolve sample_resolver sample_request) (fun tr r => stored tr = recorded_result r)
  /\ snd run_fresh = Ret (Ok (Resolved (sample_row new_params) new_path (MethodCreated None) None))
  /\ stored (fst run_fresh) = [sample_row new_params].
Proof.
  split; [|split; by_compute].
  apply (@resolve_records ascii_case sample_provider (worktree_provider_laws 4)).
Defined.

(** An environment of the workflow that is on disk and belongs to the repository. *)
Definition reused_row : IsolationEnvironmentRow := sample_row new_params.
Definition pointer_files (p : str) : option str :=
  if str_eqb p (lit "/src/o/r/.git") then None
  else Some (lit "gitdir: /src/o/r/.git/worktrees/issue-42" ++ [10%N]).
Definition everything (p : str) : bool := true.

Example resolve_reuses :
  snd (exec (iso_world (told_world fresh everything pointer_files) (Some reused_row)) []
        (resolve sample_resolver sample_request))
    = Ret (Ok (Resolved reused_row new_path WorkflowReuse None))
  /\ snd (exec (iso_world (told_world fresh everything (fun p => if str_eqb p (lit "/src/o/r/.git") then None
                  else Some (lit "gitdir: /other/.git/worktrees/x"))) (Some reused_row)) []
        (resolve sample_resolver sample_request))
    = Ret (Err (Other (lit "worktree ownership mismatch: Worktree at " ++ new_path
        ++ lit " belongs to a different clone (/other). Remove it from that clone or use a different codebase registration."))).
Proof. split; by_compute. Qed.

(** ** Failures that are not recognised *)

(** A git command that never ends is reported as timed out; the table of known errors
    looks for the word timeout, so the failure is an error of the resolver and not the
    message about a slow repository. *)
Example timeout_is_not_known :
  snd (exec (iso_world (told_world (fun _ => None) nothing no_files) None) []
        (resolve sample_resolver sample_request))
    = Ret (Err (Other (lit "Failed to fetch base branch from origin: git process error: Failed to get default branch for /src/o/r: Command 'git' timed out after 10000ms. Check your network connection and try again.")))
  /\ is_known_isolation_error (lit "Command 'git' timed out after 10000ms") None = false.
Proof. split; by_compute. Qed.

(** A directory that is no repository: git says so, the provider rewords it, and the
    table of known errors no longer finds its pattern. *)
Definition not_a_repo (args : list str) : option ProcessEnd :=
  Some (mk_ProcessEnd (Some 128%Z) [] (lit "fatal: not a git repository")).
Example not_a_repo_is_not_known :
  snd (exec (iso_world (told_world not_a_repo nothing no_files) None) []
        (resolve sample_resolver sample_request))
    = Ret (Err (Other (lit "/src/o/r is not a valid git repository. Ensure the workspace was cloned correctly."))).
Proof. by_compute. Qed.

(** An error while looking for the worktree of an environment is taken for its absence:
    the row is marked as destroyed. *)
Definition unreadable (past : list (event host_call)) (c : host_call) : host_ret c :=
  match c return host_ret c with
  | Metadata p => Err (io.mk_Error io.PermissionDenied (lit "Permission denied (os error 13)"))
  | c => told_world fresh nothing no_files past c
  end.
Example unreadable_is_destroyed :
  let run := exec (iso_world unreadable (Some reused_row)) []
    (resolve sample_resolver (mk_ResolveRequest (Some (lit "env-1")) (Some sample_codebase) None (lit "slack") None)) in
  snd run = Ret (Ok (StaleCleaned (lit "env-1")))
  /\ last (map ev_call (fst run)) = Some (UpdateStatus (lit "env-1") (lit "destroyed")).
Proof. split; by_compute. Qed.

(** ** The provider *)

(** The review of a fork: the branch that is made is not the branch that is reported. *)
Definition fork_request : IsolationRequest := Pr sample_base (lit "7") (lit "fix") None true.
Definition commands (tr : itrace) : list (list str) :=
  concat (map (fun e => match ev_call e with Sys (Spawn _ args _ _) => [args] | _ => [] end) tr).
Abbreviation run_fork := (exec (iso_world (told_world fresh nothing no_files) None) [] (provider_create 4 fork_request)).
Example fork_branch_is_another :
  branch_name <$> (match snd run_fork with Ret (Ok env) => Some env | _ => None end)
    = Some (lit "archon/pr-7-review")
  /\ drop 3 (commands (fst run_fork))
    = [[lit "-C"; lit "/src/o/r"; lit "fetch"; lit "origin"; lit "pull/7/head:pr-7-review"];
       [lit "-C"; lit "/src/o/r"; lit "worktree"; lit "add";
        lit "/home/u/.archon/workspaces/o/r/worktrees/archon/pr-7-review"; lit "pr-7-review"]].
Proof. split; by_compute. Qed.

(** Destroying that environment: git does not find the branch, which counts as deleted. *)
Definition no_such_branch (args : list str) : option ProcessEnd :=
  if bool_decide (lit "-D" ∈ args)
  then Some (mk_ProcessEnd (Some 1%Z) [] (lit "error: branch 'archon/pr-7-review' not found"))
  else fresh args.
Example fork_branch_stays :
  snd (exec (told_world no_such_branch nothing no_files) []
    (provider_destroy (lit "/wt") (Some (mk_DestroyOptions None (Some (lit "archon/pr-7-review"))
       (Some (lit "/src/o/r")) None))))
  = Ret (Ok (mk_DestroyResult true (Some true) None true [])).
Proof. by_compute. Qed.

(** The check after a removal compares canonical paths: a worktree whose directory is
    gone has none, so one that git still lists is reported as removed. *)
Definition still_listed (args : list str) : option ProcessEnd :=
  Some (mk_ProcessEnd (Some 0%Z)
    (print_porcelain [mk_porcelain_entry (lit "/wt") (OnBranch (lit "abc") (lit "x"))]) []).
Example listed_counts_as_removed :
  snd (exec (told_world still_listed nothing no_files) []
    (provider_destroy (lit "/wt") (Some (mk_DestroyOptions None None (Some (lit "/src/o/r")) None))))
  = Ret (Ok (mk_DestroyResult true None None true [])).
Proof. by_compute. Qed.

(** A repository next to the workspaces directory whose path starts with its text is
    synchronised as a managed clone: its working tree is reset. *)
Definition beside : str := lit "/home/u/.archon/workspaces-mine/repo".
Example unmanaged_clone_is_reset :
  is_managed_clone beside = true
  /\ path_starts_with beside (lit "/home/u/.archon/workspaces") = false
  /\ In (lit "reset" :: [lit "--hard"; lit "origin/main"])
       (map (drop 2) (commands (map lift_event (fst (exec (told_world fresh nothing no_files) []
          (sync_workspace_before_create beside None)))))).
Proof. split; [by_compute|split; [by_compute|]]. vm_compute. auto 10. Qed.

(** The error of a removal that could not be attempted counts as that of a worktree that
    is gone: without a git program, or with the repository gone, the directory is
    deleted with whatever is in it, and nobody has forced it. *)
Definition without_git (past : list (event host_call)) (c : host_call) : host_ret c :=
  match c return host_ret c with
  | Spawn _ _ _ _ => Err (io.mk_Error io.NotFound (lit "No such file or directory (os error 2)"))
  | c => told_world fresh everything no_files past c
  end.
Definition repository_gone (args : list str) : option ProcessEnd :=
  Some (mk_ProcessEnd (Some 128%Z) []
    (lit "fatal: cannot change to '/src/o/r': No such file or directory")).
Definition removed_directories (tr : list (event host_call)) : list str :=
  concat (map (fun e => match ev_call e with RemoveDirAll p => [p] | _ => [] end) tr).
Definition destroy_unforced : host (result IsolationError DestroyResult) :=
  provider_destroy (lit "/wt") (Some (mk_DestroyOptions None None (Some (lit "/src/o/r")) None)).
Example missing_git_deletes :
  removed_directories (fst (exec without_git [] destroy_unforced)) = [lit "/wt"]
  /\ removed_directories
       (fst (exec (told_world repository_gone everything no_files) [] destroy_unforced)) = [lit "/wt"].
Proof. split; by_compute. Qed.
