(* ===== verification/ScriptDiscovery.v ===== *)
(** * Script discovery

    [script_discovery.rs] of [har-dag-executor]: the scripts a script node can name, found
    in the directories of the home and of the repository.  A [ScriptMap] is an
    [IndexMap]: an association list in insertion order.

    The walk descends [MAX_SCRIPT_DISCOVERY_DEPTH] directories; how many of them are
    left is its structural argument.  When the walk fails the map it has filled so far is
    dropped by its callers, so a failure carries none. *)

From S2P Require Import Prelude StdModel Paths DagNode Git.

(** ** Definitions *)

Record ScriptDefinition : Type := mk_ScriptDefinition {
  sd_name : str; sd_path : str; sd_runtime : ScriptRuntime;
}.
Abbreviation ScriptMap := (list (str * ScriptDefinition)).

Inductive ScriptDiscoveryError : Type :=
| DirReadError (message code : str)
| DuplicateScriptName (name existing new : str)
| ScriptPathError (message : str).

Definition quoted (s : str) : str := [34%N] ++ s ++ [34%N].
Definition ScriptDiscoveryError_display (e : ScriptDiscoveryError) : str :=
  match e with
  | DirReadError m c => lit "Directory read error: " ++ m ++ lit " (" ++ c ++ lit ")"
  | DuplicateScriptName n x y =>
      lit "Duplicate script name " ++ quoted n ++ lit ": found " ++ quoted x ++ lit " and "
      ++ quoted y ++ lit ". Script names must be unique across extensions."
  | ScriptPathError m => lit "Path resolution error: " ++ m
  end.

Definition MAX_SCRIPT_DISCOVERY_DEPTH : nat := 1.

Definition normalize_sep (p : str) : str := replace [backslash] (lit "/") p.

(** [io::Error::raw_os_error]. *)
Class RawOsError := raw_os_error : io.Error -> option Z.

Definition errno_of (n : Z) : option (str * str) :=
  match n with
  | 1 => Some (lit "EPERM", lit "operation not permitted")
  | 2 => Some (lit "ENOENT", lit "no such file or directory")
  | 13 => Some (lit "EACCES", lit "permission denied")
  | 20 => Some (lit "ENOTDIR", lit "not a directory")
  | 23 => Some (lit "ENFILE", lit "file table overflow")
  | 24 => Some (lit "EMFILE", lit "too many open files")
  | 36 => Some (lit "ENAMETOOLONG", lit "name too long")
  | 40 => Some (lit "ELOOP", lit "too many symbolic links encountered")
  | _ => None
  end%Z.
Definition node_readdir_error `{RawOsError} (err : io.Error) (dir_path : str) : str * str :=
  match raw_os_error err ≫= errno_of with
  | Some (code, desc) => (code ++ lit ": " ++ desc ++ lit ", scandir '" ++ dir_path ++ lit "'", code)
  | None => (io.text err, lit "unknown")
  end.

Definition get_runtime_for_extension (ext : str) : option ScriptRuntime :=
  if str_eqb ext (lit ".ts") || str_eqb ext (lit ".js") then Some Bun
  else if str_eqb ext (lit ".py") then Some Uv
  else None.

(** [std::path]: the stem and the extension of a path, around the last point of its file
    name; a point at the start of the name does not count. *)
Definition rsplit_file_at_dot (file : str) : option str * option str :=
  if str_eqb file (lit "..") then (Some file, None)
  else
    match split_once [46%N] (rev file) with
    | None => (None, Some file)
    | Some (after, before) =>
        if is_empty before then (Some file, None) else (Some (rev before), Some (rev after))
    end.
Definition file_stem (p : str) : option str :=
  file ← file_name p;
  let '(before, after) := rsplit_file_at_dot file in
  match before with Some b => Some b | None => after end.
Definition extension (p : str) : option str :=
  file ← file_name p;
  let '(before, after) := rsplit_file_at_dot file in
  match before with Some _ => after | None => None end.

(** The runtime and the name of a file that is a script. *)
Definition script_file (name : str) : option (str * ScriptRuntime) :=
  e ← extension name; r ← get_runtime_for_extension (lit "." ++ e); s ← file_stem name; Some (s, r).

(** ** The walk *)

Section Walk.
Context `{RawOsError}.

Definition scan_entries
    (descend : option (str -> ScriptMap -> host (result ScriptDiscoveryError ScriptMap)))
    (dir_path : str) : list DirEntry -> ScriptMap -> host (result ScriptDiscoveryError ScriptMap) :=
  fix go (es : list DirEntry) (scripts : ScriptMap) :=
    match es with
    | [] => Done (Ok scripts)
    | entry :: es =>
        let entry_path := path_join dir_path (entry_name entry) in
        entry_stat ← sys (Metadata entry_path);
        match entry_stat with
        | Err _ => go es scripts
        | Ok true =>
            match descend with
            | None => go es scripts
            | Some scan => scripts ←? scan entry_path scripts; go es scripts
            end
        | Ok false =>
            match script_file (entry_name entry) with
            | None => go es scripts
            | Some (name, runtime) =>
                match assoc_get name scripts with
                | Some existing =>
                    Done (Err (DuplicateScriptName name (sd_path existing) (normalize_sep entry_path)))
                | None =>
                    go es (index_insert name
                             (mk_ScriptDefinition name (normalize_sep entry_path) runtime) scripts)
                end
            end
        end
    end.

Fixpoint scan_script_dir (levels : nat) (dir_path : str) (scripts : ScriptMap)
  : host (result ScriptDiscoveryError ScriptMap) :=
  rd ← sys (ReadDir dir_path);
  match rd with
  | Err err =>
      if io.is_not_found err then Done (Ok scripts)
      else let '(message, code) := node_readdir_error err dir_path in
           Done (Err (DirReadError message code))
  | Ok (entries, _) =>
      scan_entries (match levels with O => None | S levels => Some (scan_script_dir levels) end)
        dir_path entries scripts
  end.

Definition discover_scripts (dir : str) : host (result ScriptDiscoveryError ScriptMap) :=
  scan_script_dir MAX_SCRIPT_DISCOVERY_DEPTH dir [].

Definition overlay_scripts (home repo : ScriptMap) : ScriptMap :=
  fold_left (fun m e => index_insert (fst e) (snd e) m) repo home.

Definition discover_scripts_for_cwd `{ProcessEnvironment} (cwd : str)
  : host (result ScriptDiscoveryError ScriptMap) :=
  home_scripts_path ←? Done (map_err (fun e => ScriptPathError (ArchonPathError_display e))
                               get_home_scripts_path);
  home_scripts ←? discover_scripts home_scripts_path;
  repo_scripts ←? discover_scripts (path_join (path_join cwd (lit ".archon")) (lit "scripts"));
  Done (Ok (overlay_scripts home_scripts repo_scripts)).
End Walk.

Definition get_default_scripts : ScriptMap := [].

(** ** What a discovery finds *)

(** The answer of a process when every call is answered alike at any time. *)
Fixpoint answer {A} (fs : forall c, host_ret c) (p : host A) : outcome A :=
  match p with
  | Done a => Ret a
  | Halt => Panic
  | Ask c k => answer fs (k (fs c))
  end.

Lemma answer_exec {A} fs (p : host A) past : snd (exec (fun _ => fs) past p) = answer fs p.
Proof.
  revert past. induction p as [a| |c k IH]; intros past; [done|done|]. cbn [exec answer].
  rewrite <- (IH (fs c) (past ++ [mk_event c (fs c)])). by destruct (exec _ _ _).
Qed.
Lemma answer_bind {A B} fs (p : host A) (f : A -> host B) :
  answer fs (p ≫= f) = (a ← answer fs p; answer fs (f a)).
Proof. induction p as [a| |c k IH]; [done|done|]. apply IH. Qed.
Lemma answer_try {A B E} fs (p : host (result E A)) (f : A -> host (result E B)) :
  answer fs (try p f) =
    (r ← answer fs p; match r with Ok a => answer fs (f a) | Err e => Ret (Err e) end).
Proof. unfold try. rewrite answer_bind. by destruct (answer fs p) as [[a|e]|]. Qed.

Section Reference.
Context `{RawOsError} (fs : forall c, host_ret c).

(** The scripts of a tree in the order of a walk, and where it cannot be read. *)
Definition entry_scripts (deeper : option (str -> list (result ScriptDiscoveryError ScriptDefinition)))
    (dir_path : str) (entry : DirEntry) : list (result ScriptDiscoveryError ScriptDefinition) :=
  let entry_path := path_join dir_path (entry_name entry) in
  match fs (Metadata entry_path) with
  | Err _ => []
  | Ok true => match deeper with None => [] | Some walk => walk entry_path end
  | Ok false =>
      match script_file (entry_name entry) with
      | None => []
      | Some (name, runtime) => [Ok (mk_ScriptDefinition name (normalize_sep entry_path) runtime)]
      end
  end.
Fixpoint walk (levels : nat) (dir_path : str) : list (result ScriptDiscoveryError ScriptDefinition) :=
  match fs (ReadDir dir_path) with
  | Err err =>
      if io.is_not_found err then []
      else let '(message, code) := node_readdir_error err dir_path in [Err (DirReadError message code)]
  | Ok (entries, _) =>
      flat_map (entry_scripts (match levels with O => None | S levels => Some (walk levels) end)
                  dir_path) entries
  end.

(** The first place that cannot be read, or the first name that occurs again, ends it. *)
Fixpoint collect (m : ScriptMap) (l : list (result ScriptDiscoveryError ScriptDefinition))
  : result ScriptDiscoveryError ScriptMap :=
  match l with
  | [] => Ok m
  | Err e :: _ => Err e
  | Ok d :: l =>
      match assoc_get (sd_name d) m with
      | Some existing => Err (DuplicateScriptName (sd_name d) (sd_path existing) (sd_path d))
      | None => collect (m ++ [(sd_name d, d)]) l
      end
  end.

Lemma collect_app m a b : collect m (a ++ b) = (m' ← collect m a; collect m' b).
Proof.
  revert m. induction a as [|[d|e] a IH]; intros m; cbn [collect app]; [done| |done].
  destruct (assoc_get (sd_name d) m); [done|apply IH].
Qed.

Lemma scan_entries_walk descend deeper dir es m :
  (forall p m, match descend, deeper with
               | Some scan, Some walk => answer fs (scan p m) = Ret (collect m (walk p))
               | None, None => True
               | _, _ => False
               end) ->
  answer fs (scan_entries descend dir es m) = Ret (collect m (flat_map (entry_scripts deeper dir) es)).
Proof.
  intros Hd. revert m. induction es as [|e es IH]; intros m; [done|].
  cbn [scan_entries flat_map]. rewrite answer_bind, collect_app. cbn [answer sys ask mbind outcome_bind].
  set (rest := flat_map (entry_scripts deeper dir) es) in *.
  unfold entry_scripts. destruct (fs (Metadata _)) as [[]|]; [| |apply IH].
  - destruct descend as [scan|], deeper as [wk|]; try by specialize (Hd [] []).
    rewrite answer_try, (Hd _ m). cbn [mbind outcome_bind]. by destruct (collect m (wk _)); [apply IH|].
  - destruct (script_file (entry_name e)) as [[n r]|]; [|apply IH]. cbn [collect sd_name sd_path].
    destruct (assoc_get n m) eqn:E; [done|]. rewrite index_insert_new by done. apply IH.
Qed.

Lemma scan_script_dir_walk levels dir m :
  answer fs (scan_script_dir levels dir m) = Ret (collect m (walk levels dir)).
Proof.
  revert dir m. induction levels as [|l IH]; intros dir m; cbn [scan_script_dir walk];
    rewrite answer_bind; cbn [answer sys ask mbind outcome_bind].
  all: destruct (fs (ReadDir dir)) as [[es stop]|err];
    [|destruct (io.is_not_found err); [done|]; by destruct (node_readdir_error err dir)].
  - by apply scan_entries_walk.
  - apply scan_entries_walk. exact IH.
Qed.
Lemma discover_scripts_walk dir :
  answer fs (discover_scripts dir) = Ret (collect [] (walk MAX_SCRIPT_DISCOVERY_DEPTH dir)).
Proof. apply scan_script_dir_walk. Qed.
End Reference.

(** ** Two scopes *)

Fixpoint named (n : str) (l : list (result ScriptDiscoveryError ScriptDefinition)) : option ScriptDefinition :=
  match l with
  | [] => None
  | Ok d :: l => if bool_decide (sd_name d = n) then Some d else named n l
  | Err _ :: l => named n l
  end.

Lemma collect_lookup l : forall m m', collect m l = Ok m' ->
  NoDup (map fst m) -> Forall (fun e => fst e = sd_name (snd e)) m ->
  NoDup (map fst m') /\ Forall (fun e => fst e = sd_name (snd e)) m'
  /\ forall n, assoc_get n m' = match assoc_get n m with Some d => Some d | None => named n l end.
Proof.
  induction l as [|[d|e] l IH]; cbn [collect]; intros m m' H Hnd Hk; [| |done].
  - injection H as <-. split_and!; [done|done|]. intros n. by destruct (assoc_get n m).
  - destruct (assoc_get (sd_name d) m) eqn:E; [done|].
    apply IH in H as (H1 & H2 & H3).
    + split_and!; [done|done|]. intros n. rewrite H3, assoc_get_app. cbn [assoc_get named].
      destruct (assoc_get n m); [done|].
      destruct (decide (n = sd_name d)) as [->|Hne]; [by rewrite !bool_decide_true|].
      by rewrite !bool_decide_false by congruence.
    + rewrite map_app. apply NoDup_app. split_and!; [done| |by apply NoDup_singleton].
      intros x Hx ->%list_elem_of_singleton. by apply assoc_get_None in E; apply E, list_elem_of_In.
    + apply Forall_app. split; [done|]. by constructor.
Qed.

Lemma overlay_scripts_spec repo : forall home,
  NoDup (map fst home) -> NoDup (map fst repo) ->
  NoDup (map fst (overlay_scripts home repo))
  /\ forall n, assoc_get n (overlay_scripts home repo)
       = match assoc_get n repo with Some d => Some d | None => assoc_get n home end.
Proof.
  unfold overlay_scripts. induction repo as [|[k v] repo IH]; intros home Hh Hr; [done|].
  cbn [map fold_left] in *. apply NoDup_cons in Hr as [Hk Hr].
  destruct (IH (index_insert k v home)) as [H1 H2]; [by apply index_insert_NoDup|done|].
  split; [done|]. intros n. rewrite H2, index_insert_get. cbn [assoc_get fst snd].
  destruct (assoc_get n repo) eqn:E; [|by case_bool_decide].
  rewrite bool_decide_false; [done|]. intros ->. apply Hk, list_elem_of_In.
  apply assoc_get_Some_In in E. by apply (in_map fst) in E.
Qed.

Section Scopes.
Context `{RawOsError} `{ProcessEnvironment} (fs : forall c, host_ret c).

Definition repo_scripts_dir (cwd : str) : str := path_join (path_join cwd (lit ".archon")) (lit "scripts").

(** In a file system that stays as it is, the discovery for a directory succeeds
    exactly when both scopes can be read and no name occurs twice in one of them; then
    a name stands for the first script file of that name in the repository, and else in
    the home, of the directory itself or of those directly below it; no name occurs
    twice. *)
Theorem discover_scripts_for_cwd_spec (cwd home : str) :
  get_home_scripts_path = Ok home ->
  let at_home := walk fs MAX_SCRIPT_DISCOVERY_DEPTH home in
  let at_repo := walk fs MAX_SCRIPT_DISCOVERY_DEPTH (repo_scripts_dir cwd) in
  match answer fs (discover_scripts_for_cwd cwd) with
  | Ret (Ok m) =>
      is_ok (collect [] at_home) && is_ok (collect [] at_repo) = true
      /\ NoDup (map fst m)
      /\ forall n, assoc_get n m
           = match named n at_repo with Some d => Some d | None => named n at_home end
  | Ret (Err e) => collect [] at_home = Err e
                   \/ is_ok (collect [] at_home) = true /\ collect [] at_repo = Err e
  | Panic => False
  end.
Proof.
  intros Hh. unfold discover_scripts_for_cwd. rewrite Hh, answer_try. cbn [map_err answer mbind outcome_bind].
  rewrite answer_try, discover_scripts_walk. cbn [mbind outcome_bind].
  destruct (collect [] (walk fs _ home)) as [hm|e] eqn:Eh; [|by left].
  rewrite answer_try, discover_scripts_walk. cbn [mbind outcome_bind].
  fold (repo_scripts_dir cwd).
  destruct (collect [] (walk fs _ (repo_scripts_dir cwd))) as [rm|e] eqn:Er; [|by right].
  cbn [answer]. apply collect_lookup in Eh as (H1 & _ & H3), Er as (R1 & _ & R3);
    [|apply NoDup_nil_2|constructor|apply NoDup_nil_2|constructor].
  destruct (overlay_scripts_spec rm hm H1 R1) as [O1 O2].
  split_and!; [done|done|]. intros n. by rewrite O2, H3, R3.
Qed.
End Scopes.

(** ** A sample *)

Definition sample_errno : RawOsError := fun _ => Some 13%Z.
Definition plain_file (name : str) : DirEntry := mk_DirEntry name (Ok false).

(** The home has [deploy.ts], the repository [deploy.py] and, one directory down,
    [triage/label.js]; two directories down lies a file that is not found. *)
Definition sample_files : forall c, host_ret c := fun c =>
  match c return host_ret c with
  | ReadDir p =>
      if str_eqb p (lit "/home/u/.archon/scripts") then Ok ([plain_file (lit "deploy.ts"); plain_file (lit "a.sh")], None)
      else if str_eqb p (lit "/repo/.archon/scripts")
      then Ok ([plain_file (lit "triage"); plain_file (lit "deploy.py")], None)
      else if str_eqb p (lit "/repo/.archon/scripts/triage")
      then Ok ([plain_file (lit "label.js"); plain_file (lit "deep")], None)
      else Err (io.mk_Error io.NotFound (lit "missing"))
  | Metadata p =>
      Ok (str_eqb p (lit "/repo/.archon/scripts/triage") || str_eqb p (lit "/repo/.archon/scripts/triage/deep"))
  | Spawn _ _ _ _ | Wait | ReadToString _ | Canonicalize _ | CreateDir _ | CreateDirAll _ | CopyFile _ _
  | RemoveDirAll _ => Err (io.mk_Error io.NotFound (lit "missing"))
  | WaitTimeout _ => None
  end.

Definition sample_scripts : ScriptMap :=
  [(lit "deploy", mk_ScriptDefinition (lit "deploy") (lit "/repo/.archon/scripts/deploy.py") Uv);
   (lit "label", mk_ScriptDefinition (lit "label") (lit "/repo/.archon/scripts/triage/label.js") Bun)].

Lemma discover_scripts_for_cwd_spec_witness :
  @answer _ sample_files (@discover_scripts_for_cwd sample_errno sample_env (lit "/repo"))
    = Ret (Ok sample_scripts)
  /\ match @answer _ sample_files (@discover_scripts_for_cwd sample_errno sample_env (lit "/repo")) with
     | Ret (Ok m) => NoDup (map fst m)
     | _ => False
     end.
Proof.
  pose proof (@discover_scripts_for_cwd_spec sample_errno sample_env sample_files (lit "/repo")
    (lit "/home/u/.archon/scripts") ltac:(by_compute)) as H.
  assert (E : @answer _ sample_files (@discover_scripts_for_cwd sample_errno sample_env (lit "/repo"))
              = Ret (Ok sample_scripts)) by by_compute.
  rewrite E in *. split; [done|]. apply H.
Defined.

(** On Unix a backslash belongs to a file name; the path of such a script names another
    file. *)
Example backslash_path_is_another :
  normalize_sep (path_join (lit "/repo/.archon/scripts") (lit "a\b.ts"))
    = lit "/repo/.archon/scripts/a/b.ts".
Proof. by_compute. Qed.
