(* ===== verification/NodeProc.v ===== *)
(** * Node executors as processes

    The executors of the node types in [dag_executor.rs] interleave pure steps with
    calls to the store, the event bus, the platform, the providers, the file system
    and subprocesses.  An executor is a [proc] of [Process] over the calls of this
    file.

    A provider answers a query with the chunks it sends until it closes the stream or
    stays silent for longer than the idle timeout: a stream is finite.  Instants are
    nanoseconds of a monotonic clock.  The log entries of [log_node_start] and its
    like carry a timestamp, which is left out.

    The last part gives worlds to run them in: answers to the calls, on which theorems
    about executors are applied. *)
From S2P Require Import Prelude Float64 Json StdModel Regex DagNode Workflow ExecutorShared DagCore.
From S2P Require Import DagRun RunStore Provider ScriptDiscovery RunTheorems.
From S2P Require Export Process.


(** ** Calls *)

Inductive StreamingMode : Type := Stream | Batch.

(** How a child process ends within its time: an error of [wait], or its exit code
    ([None]: killed by a signal) and what it wrote, decoded lossily. *)
Inductive ChildEnd : Type :=
| WaitError (message : str)
| Exited (code : option Z) (stdout stderr : str).

(** How a stream ends: closed by the provider, or silent for too long. *)
Inductive StreamEnd : Type := Closed | IdleTimeout.

Inductive call : Type :=
| CreateEvent (event : WorkflowEventType) (step_name : str) (data : object)
| BusEmit (e : bus_event)
| SendText (text node_name : str) (metadata : option value)
| SendStructured (chunk : MessageChunk)
| GetRunStatus
| UpdateActivity
| CancelWorkflowRun
| PauseWorkflowRun (ctx : ApprovalContext)
| ProcessEnv
| Spawn (cmd : str) (args : list str) (cwd : str) (env : gmap str str)
| WaitChild (timeout_ms : N)
| DiscoverScripts (cwd : str)
| OutputFiles
| WriteOutputFiles (writes : file_writes)
| ReadToString
| LoadCommand
| SendQuery (provider prompt cwd : str) (resume_session_id : option str)
    (options : option SendQueryOptions) (idle_timeout_ms : N)
| Now
| WriteLog (filename : str) (entry : object).

(** The answers.  [ProcessEnv] is [std::env::vars()], which panics when a variable is
    not Unicode.  [OutputFiles] asks which writes of node output files would
    succeed, [ReadToString] what the files hold, [LoadCommand] for the seam of the
    command files. *)
Definition ret (c : call) : Type :=
  match c with
  | SendText _ _ _ => result str unit
  | GetRunStatus => result str (option WorkflowRunStatus)
  | UpdateActivity | CancelWorkflowRun | PauseWorkflowRun _ => result str unit
  | ProcessEnv => option (gmap str str)
  | Spawn _ _ _ _ => result io.ErrorKind unit
  | WaitChild _ => option ChildEnd
  | DiscoverScripts _ => result str (gmap str ScriptDefinition)
  | OutputFiles => str -> str -> bool
  | ReadToString => str -> option str
  | LoadCommand => CommandPromptDeps
  | SendQuery _ _ _ _ _ _ => (list MessageChunk * StreamEnd)%type
  | Now => N
  | CreateEvent _ _ _ | BusEmit _ | SendStructured _ | WriteOutputFiles _ | WriteLog _ _ => unit
  end.

(** ** Processes *)

#[export] Instance node_calls : Calls call := ret.
Abbreviation proc := (@Process.proc call node_calls).
Abbreviation event := (@Process.event call node_calls).
Abbreviation trace := (list event).
Abbreviation ask c := (@Process.ask call node_calls c : proc (ret c)).
Abbreviation world := (@Process.world call node_calls).

(** ** What the executors share *)

Record NodeEnv : Type := mk_NodeEnv {
  ne_run : WorkflowRun;
  ne_cwd : str;
  ne_artifacts_dir : str;
  ne_log_dir : str;
  ne_base_branch : str;
  ne_docs_dir : str;
  ne_issue_context : option str;
  ne_env_vars : option (gmap str str);
  ne_streaming_mode : StreamingMode;
}.

(** [Duration::as_millis] of the time between two instants. *)
Definition millis_between (start stop : N) : N := ((stop - start) / 1000000)%N.
Definition json_N (n : N) : value := Number (PosInt n).

(** The type [emit_workflow_event] records an event name as. *)
Definition workflow_event_type (name : str) : WorkflowEventType :=
  if str_eqb name (lit "workflow_started") then WorkflowStarted
  else if str_eqb name (lit "workflow_completed") then WorkflowCompleted
  else if str_eqb name (lit "workflow_failed") then WorkflowFailed
  else if str_eqb name (lit "workflow_cancelled") then WorkflowCancelled
  else if str_eqb name (lit "node_started") then NodeStarted
  else if str_eqb name (lit "node_completed") then NodeCompleted
  else if str_eqb name (lit "node_failed") then NodeFailed
  else if str_eqb name (lit "node_skipped") then NodeSkipped
  else if str_eqb name (lit "node_session_resumed") then NodeSessionResumed
  else if str_eqb name (lit "node_always_run_reset") then NodeAlwaysRunReset
  else NodeSkipped.

Definition emit_workflow_event (name step_name : str) (data : object) : proc unit :=
  ask (CreateEvent (workflow_event_type name) step_name data).
Definition emit_typed_event (t : WorkflowEventType) (step_name : str) (data : object) : proc unit :=
  ask (CreateEvent t step_name data).
Definition bus (type : str) (node_id : str) (node_name reason error : option str)
    (duration : option N) : proc unit :=
  ask (BusEmit (mk_bus_event type (Some node_id) node_name reason error duration None)).

Section Send.
Context `{UnicodeCase}.

(** [safe_send_message] without a counter of unknown errors. *)
Definition send_text (text node_name : str) (metadata : option value)
  : proc (result SafeSendError bool) :=
  sent ← ask (SendText text node_name metadata);
  mret (fst (safe_send_message sent None)).
(** [let _ = safe_send_message(..)] and [safe_send_message(..).unwrap_or(false)]. *)
Definition notify (text node_name : str) : proc unit :=
  _ ← send_text text node_name None; mret tt.
Definition delivered (r : result SafeSendError bool) : bool :=
  match r with Ok b => b | Err _ => false end.
End Send.

(** The text of [BaseBranchEmptyError]. *)
Definition BaseBranchEmptyError_to_string : str :=
  lit "No base branch could be resolved. Auto-detection failed and `worktree.baseBranch` is not set in .archon/config.yaml. Set the config value or use the --from flag to select a branch (e.g., --from dev).".

(** ** Log entries *)

Definition log_file (run_id : str) : str := run_id ++ lit ".jsonl".
Definition log_node_start (run_id node_id command_name : str) : proc unit :=
  ask (WriteLog (log_file run_id)
         [(lit "type", String (lit "node_start")); (lit "workflow_id", String run_id);
          (lit "step", String node_id); (lit "content", String command_name)]).
Definition log_node_complete (run_id node_id command_name : str) (duration_ms : option N)
  : proc unit :=
  ask (WriteLog (log_file run_id)
         ([(lit "type", String (lit "node_complete")); (lit "workflow_id", String run_id);
           (lit "step", String node_id); (lit "content", String command_name)]
          ++ match duration_ms with Some ms => [(lit "duration_ms", json_N ms)] | None => [] end)).
Definition log_node_error (run_id node_id error : str) : proc unit :=
  ask (WriteLog (log_file run_id)
         [(lit "type", String (lit "node_error")); (lit "workflow_id", String run_id);
          (lit "step", String node_id); (lit "error", String error)]).
Definition log_assistant (run_id content : str) : proc unit :=
  ask (WriteLog (log_file run_id)
         [(lit "type", String (lit "assistant")); (lit "workflow_id", String run_id);
          (lit "content", String content)]).
Definition log_tool (run_id tool_name : str) (tool_input : option value) : proc unit :=
  ask (WriteLog (log_file run_id)
         [(lit "type", String (lit "tool")); (lit "workflow_id", String run_id);
          (lit "tool_name", String tool_name);
          (lit "tool_input", default (Object []) tool_input)]).

(** [substitute_node_output_refs] with its files. *)
Definition substitute_refs `{RegexEngine} `{SerdeJson} (prompt : str)
    (node_outputs : gmap str NodeOutput) (escaped_for_bash : bool) (output_file_dir : option str)
  : proc str :=
  write_ok ← ask OutputFiles;
  let '(text, writes) :=
    substitute_node_output_refs write_ok prompt node_outputs escaped_for_bash output_file_dir in
  _ ← ask (WriteOutputFiles writes);
  mret text.

(** The lemmas on single calls, with the answers of this signature. *)
Lemma node_gives_ask (c : call) (Q : ret c -> Prop) : (forall r, Q r) -> gives (ask c) Q.
Proof. exact (Process.gives_ask c Q). Qed.
Lemma node_only_ask (P : call -> Prop) c : P c -> only_calls P (ask c).
Proof. exact (Process.only_ask P c). Qed.
#[export] Hint Resolve node_only_ask : proc.

(** A call that writes neither the state of the run nor a file, and starts nothing:
    reports, reads of the clock and of the file system. *)
Definition is_report_call (c : call) : bool :=
  match c with
  | CreateEvent _ _ _ | BusEmit _ | SendText _ _ _ | SendStructured _ | WriteLog _ _
  | Now | ProcessEnv | OutputFiles | ReadToString | LoadCommand | GetRunStatus | DiscoverScripts _
  | UpdateActivity => true
  | _ => false
  end.
Definition report_call (c : call) : Prop := is_report_call c = true.

(** Binds, then whatever they branch on. *)
Ltac only_steps :=
  repeat first
    [ progress intros
    | apply only_done | apply only_pure
    | apply node_only_ask; reflexivity
    | apply only_bind
    | case_match ].

Section Reports.
Context `{UnicodeCase}.
Lemma notify_reports text node : only_calls report_call (notify text node).
Proof. unfold notify, send_text. only_steps. Qed.
End Reports.
Lemma emit_reports name node data : only_calls report_call (emit_workflow_event name node data).
Proof. by apply node_only_ask. Qed.
Lemma emit_typed_reports t node data : only_calls report_call (emit_typed_event t node data).
Proof. by apply node_only_ask. Qed.
Lemma bus_reports type node name reason error duration :
  only_calls report_call (bus type node name reason error duration).
Proof. by apply node_only_ask. Qed.
#[export] Hint Resolve notify_reports emit_reports emit_typed_reports bus_reports : proc.

(** The contexts a trace pauses the run with, and the number of its cancellations. *)
Definition pauses (tr : trace) : list ApprovalContext :=
  omap (fun e => match ev_call e with PauseWorkflowRun ctx => Some ctx | _ => None end) tr.
Definition cancels (tr : trace) : nat :=
  length (List.filter (fun e => match ev_call e with CancelWorkflowRun => true | _ => false end) tr).
(** The queries sent to a provider. *)
Definition queries (tr : trace) : list call :=
  omap (fun e => match ev_call e with SendQuery p q c r o t => Some (SendQuery p q c r o t) | _ => None end) tr.
(** The store events, as name and data. *)
Definition store_events (tr : trace) : list (WorkflowEventType * object) :=
  omap (fun e => match ev_call e with CreateEvent t _ d => Some (t, d) | _ => None end) tr.

(** A process that only reports and returns a value with [Q]. *)
Definition quietly {A} (p : proc A) (Q : A -> Prop) : Prop :=
  only_calls report_call p /\ gives p Q.
Lemma quietly_done {A} (a : A) (Q : A -> Prop) : Q a -> quietly (Done a) Q.
Proof. intros H. split; [apply only_done|by apply gives_done]. Qed.
Lemma quietly_ask c (Q : ret c -> Prop) :
  report_call c -> (forall r, Q r) -> quietly (ask c) Q.
Proof. intros Hc HQ. split; [by apply node_only_ask|by apply node_gives_ask]. Qed.
Lemma quietly_bind {A B} (p : proc A) (f : A -> proc B) (Q : B -> Prop) :
  quietly p (fun _ => True) -> (forall a, quietly (f a) Q) -> quietly (p ≫= f) Q.
Proof.
  intros [Hp Gp] Hf. split.
  - apply only_bind; [done|]. intros a. apply Hf.
  - eapply gives_then; [exact Gp|]. intros a. apply Hf.
Qed.
Lemma quietly_weaken {A} (p : proc A) (P : A -> Prop) : quietly p P -> quietly p (fun _ => True).
Proof.
  intros [Hp Gp]. split; [done|]. eapply always_mono, Gp. intros tr o (a & -> & _). by exists a.
Qed.
Lemma quietly_always {A} (p : proc A) (Q : A -> Prop) :
  quietly p Q ->
  always p (fun tr o => Forall (fun e => report_call (ev_call e)) tr /\ exists a, o = Ret a /\ Q a).
Proof. intros [Hp Gp]. by apply always_and. Qed.

(** Reports before a process do not change what it does. *)
Definition ignores_reports {A} (Q : trace -> outcome A -> Prop) : Prop :=
  forall tr tr' o, Forall (fun e => report_call (ev_call e)) tr -> Q tr' o -> Q (tr ++ tr') o.
Lemma quietly_then {A B} (p : proc A) (f : A -> proc B) (P : A -> Prop)
    (Q : trace -> outcome B -> Prop) :
  ignores_reports Q -> quietly p P -> (forall a, P a -> always (f a) Q) -> always (p ≫= f) Q.
Proof.
  intros HQ Hp Hf. rewrite always_bind. eapply always_mono, quietly_always, Hp.
  intros tr o (Htr & a & -> & Ha). eapply always_mono, Hf, Ha. intros tr' o. by apply HQ.
Qed.
Lemma quietly_ends {A} (p : proc A) (P : A -> Prop) (Q : trace -> outcome A -> Prop) :
  ignores_reports Q -> quietly p P -> (forall a, P a -> Q [] (Ret a)) -> always p Q.
Proof.
  intros HQ Hp HP. eapply always_mono, quietly_always, Hp.
  intros tr o (Htr & a & -> & Ha). rewrite <- (app_nil_r tr). by apply HQ, HP.
Qed.

(** Without escaping, no file is written nor asked for. *)
Lemma substitute_unescaped `{RegexEngine} `{SerdeJson} w1 w2 text outs dir :
  substitute_node_output_refs w1 text outs false dir
  = substitute_node_output_refs w2 text outs false dir.
Proof.
  unfold substitute_node_output_refs. destruct (captures_iter _ text) as [l last].
  assert (forall m, substitute_match w1 outs false dir m = substitute_match w2 outs false dir m) as E
    by (intros m; unfold substitute_match, substitute_ref; repeat case_match; done).
  apply (f_equal2 pair); [apply (f_equal (fun x => x ++ last))|];
    apply flat_map_ext; intros m; by rewrite E.
Qed.

Lemma substitute_refs_then `{RegexEngine} `{SerdeJson} {B} prompt outs esc dir
    (f : str -> proc B) (Q : trace -> outcome B -> Prop) :
  (forall write_ok,
     let r := substitute_node_output_refs write_ok prompt outs esc dir in
     always (f (fst r)) (fun tr o =>
       Q (mk_event OutputFiles write_ok :: mk_event (WriteOutputFiles (snd r)) tt :: tr) o)) ->
  always (substitute_refs prompt outs esc dir ≫= f) Q.
Proof.
  intros Hf. rewrite always_bind. intros write_ok. specialize (Hf write_ok).
  cbn [mbind proc_bind always]. cbn zeta in Hf.
  destruct (substitute_node_output_refs write_ok prompt outs esc dir) as [text writes].
  intros []. exact Hf.
Qed.

(** Whatever is answered, a value. *)
Ltac gives_steps :=
  repeat first
    [ progress intros
    | apply gives_then
    | apply node_gives_ask; intros; exact I
    | apply gives_done; exact I
    | case_match ].

(** Binds of reports, then the result. *)
Ltac quiet_steps :=
  repeat first
    [ progress intros
    | apply quietly_bind
    | apply quietly_ask; [reflexivity|intros; exact I]
    | apply quietly_done; first [exact I | reflexivity]
    | case_match ].

(** Every answer of a trace is the world's. *)
Lemma exec_answers {A} (p : proc A) w past c r :
  mk_event c r ∈ fst (exec w past p) -> exists past', r = w past' c.
Proof.
  revert past. induction p as [a| |c' k IH]; intros past; simpl.
  - intros H. by apply elem_of_nil in H.
  - intros H. by apply elem_of_nil in H.
  - specialize (IH (w past c') (past ++ [mk_event c' (w past c')])).
    destruct (exec w _ (k _)) as [tr o]. intros [H|H]%elem_of_cons; [|by apply IH].
    exists past. change (ev_answer (mk_event c r) = w past (ev_call (mk_event c r))). by rewrite H.
Qed.

(** The answer to a call is the world's, from what happened before it. *)
Lemma exec_answer {A} (p : proc A) w past pre e post :
  fst (exec w past p) = pre ++ e :: post -> ev_answer e = w (past ++ pre) (ev_call e).
Proof.
  revert past pre. induction p as [a| |c k IH]; intros past pre; simpl.
  - by intros ?%app_cons_not_nil.
  - by intros ?%app_cons_not_nil.
  - specialize (IH (w past c) (past ++ [mk_event c (w past c)])).
    destruct (exec w _ (k _)) as [tr o]. destruct pre as [|e' pre]; intros [= <- Htr].
    + by rewrite app_nil_r.
    + rewrite (IH pre Htr). by rewrite <- app_assoc.
Qed.

(** ** The status of the run *)

(** A call that moves the run between its states. *)
Definition is_status_call (c : call) : bool :=
  match c with CancelWorkflowRun | PauseWorkflowRun _ => true | _ => false end.
Definition keeps_status (c : call) : Prop := is_status_call c = false.
Lemma report_keeps_status c : report_call c -> keeps_status c.
Proof. by destruct c. Qed.

(** The pauses a trace asks for, with what the store answered. *)
Definition pause_at (e : event) : option (ApprovalContext * result str unit) :=
  let '(mk_event c r) := e in
  match c return ret c -> option (ApprovalContext * result str unit) with
  | PauseWorkflowRun ctx => fun r => Some (ctx, r)
  | _ => fun _ => None
  end r.
Definition pause_answers (tr : trace) : list (ApprovalContext * result str unit) := omap pause_at tr.

Lemma keeps_status_nothing tr :
  Forall (fun e => keeps_status (ev_call e)) tr -> pause_answers tr = [] /\ cancels tr = 0.
Proof.
  induction 1 as [|[c r] tr Hc _ [IH1 IH2]]; [done|].
  unfold pause_answers, cancels in *. by destruct c.
Qed.
Lemma pause_answers_app t1 t2 : pause_answers (t1 ++ t2) = pause_answers t1 ++ pause_answers t2.
Proof. apply omap_app. Qed.
Lemma cancels_app t1 t2 : cancels (t1 ++ t2) = cancels t1 + cancels t2.
Proof. unfold cancels. by rewrite List.filter_app, length_app. Qed.

(** Calls of a kind before a process do not matter for [Q]. *)
Definition ignores (P : call -> Prop) {A} (Q : trace -> outcome A -> Prop) : Prop :=
  forall tr tr' o, Forall (fun e => P (ev_call e)) tr -> Q tr' o -> Q (tr ++ tr') o.
Lemma ignores_nil P {A} (Q : trace -> outcome A -> Prop) tr o :
  ignores P Q -> Forall (fun e => P (ev_call e)) tr -> Q [] o -> Q tr o.
Proof. intros HQ Htr H. rewrite <- (app_nil_r tr). by apply HQ. Qed.
Lemma reports_keep_status tr :
  Forall (fun e => report_call (ev_call e)) tr -> Forall (fun e => keeps_status (ev_call e)) tr.
Proof. intros H. eapply Forall_impl; [exact H|]. intros e. apply report_keeps_status. Qed.
Lemma only_then {A B} P (p : proc A) (f : A -> proc B) (Q : trace -> outcome B -> Prop) :
  ignores P Q -> Q [] Panic -> only_calls P p -> (forall a, always (f a) Q) -> always (p ≫= f) Q.
Proof.
  intros HQ Hpanic Hp Hf. rewrite always_bind. eapply always_mono, Hp.
  intros tr [a|] Htr.
  - eapply always_mono, Hf. intros tr' o. by apply HQ.
  - rewrite <- (app_nil_r tr). by apply HQ.
Qed.
Lemma only_ends {A} P (p : proc A) (R : A -> Prop) (Q : trace -> outcome A -> Prop) :
  ignores P Q -> only_calls P p -> gives p R -> (forall a, R a -> Q [] (Ret a)) -> always p Q.
Proof.
  intros HQ Hp Hg HR. eapply always_mono, (always_and _ _ _ Hp Hg).
  intros tr o (Htr & a & -> & Ha). rewrite <- (app_nil_r tr). by apply HQ, HR.
Qed.
Lemma quietly_keeps_status {A} (p : proc A) (Q : A -> Prop) :
  quietly p Q -> only_calls keeps_status p.
Proof. intros [Hp _]. eapply only_impl, Hp. apply report_keeps_status. Qed.

(** * Worlds to run the node executors in

    A world that answers every kind of call in one way, the queries to a provider one
    after the other from a list, and the reads of the clock with a step of one
    millisecond; a node environment; and nodes to run. *)

(** No command file anywhere. *)
Definition no_commands : CommandPromptDeps := {|
  read_file _ := Ok None;
  find_markdown_files _ := Ok [];
  home_commands_path := lit "/home/.archon/commands";
  app_defaults_commands_path := lit "/app";
  load_config _ := mk_LoadedConfig None;
  is_binary_build := false;
  bundled_commands := ∅;
|}.

Record answers : Type := mk_answers {
  a_sent : result str unit;
  a_status : result str (option WorkflowRunStatus);
  a_update : result str unit;
  a_env : option (gmap str str);
  a_spawn : result io.ErrorKind unit;
  a_child : option ChildEnd;
  a_scripts : result str (gmap str ScriptDefinition);
  a_streams : list (list MessageChunk * StreamEnd);
}.

Definition count_calls (f : call -> bool) (tr : trace) : nat :=
  length (List.filter (fun e => f (ev_call e)) tr).

Definition world_of (a : answers) : world := fun past c =>
  match c return ret c with
  | SendText _ _ _ => a_sent a
  | GetRunStatus => a_status a
  | UpdateActivity | CancelWorkflowRun | PauseWorkflowRun _ => a_update a
  | ProcessEnv => a_env a
  | Spawn _ _ _ _ => a_spawn a
  | WaitChild _ => a_child a
  | DiscoverScripts _ => a_scripts a
  | OutputFiles => fun _ _ => true
  | ReadToString => fun _ => None
  | LoadCommand => no_commands
  | SendQuery _ _ _ _ _ _ =>
      nth (count_calls (fun c => match c with SendQuery _ _ _ _ _ _ => true | _ => false end) past)
        (a_streams a) ([], Closed)
  | Now => (1000000 * N.of_nat (length past))%N
  | CreateEvent _ _ _ | BusEmit _ | SendStructured _ | WriteOutputFiles _ | WriteLog _ _ => tt
  end.

(** Everything succeeds; the subprocess prints [hi]. *)
Definition good_answers : answers :=
  mk_answers (Ok tt) (Ok (Some Run_Running)) (Ok tt) (Some {[lit "PATH" := lit "/bin"]}) (Ok tt)
    (Some (Exited (Some 0%Z) (lit "hi" ++ newline) [])) (Ok ∅) [].
Definition good_world : world := world_of good_answers.

Definition node_run (message : str) (meta : object) : WorkflowRun :=
  mk_WorkflowRun (lit "r1") (lit "w") (lit "c1") None None Run_Running message meta 0 None None
    None None.
Definition sample_node_env (message : str) (meta : object) : NodeEnv :=
  mk_NodeEnv (node_run message meta) (lit "/repo") (lit "/art") (lit "/log") (lit "main") []
    None None Batch.
