(* ===== verification/ScriptNode.v ===== *)
(** * Bash and script nodes

    [run_subprocess], [execute_bash_node] and [execute_script_node] of
    [dag_executor.rs], as processes. *)

From S2P Require Import Prelude Float64 Json StdModel Regex DagNode Workflow ExecutorShared DagCore.
From S2P Require Import DagRun RunTheorems RunStore Provider ScriptDiscovery NodeProc.

(** ** Subprocesses *)

Inductive SubprocessOutcome : Type :=
| Sub_Success (stdout stderr : str)
| Sub_TimedOut
| Sub_SpawnFailed (kind : io.ErrorKind)
| Sub_Failed (exit_code : option Z) (stdout stderr msg : str).

(** [{:?}] of an exit code. *)
Definition debug_exit_code (code : option Z) : str :=
  match code with Some c => lit "Some(" ++ show_Z c ++ lit ")" | None => lit "None" end.

(** What the end of the child amounts to. *)
Definition child_outcome (e : option ChildEnd) : SubprocessOutcome :=
  match e with
  | None => Sub_TimedOut
  | Some (WaitError msg) => Sub_Failed None [] [] msg
  | Some (Exited code stdout stderr) =>
      if bool_decide (code = Some 0%Z) then Sub_Success stdout stderr
      else
        let msg :=
          if negb (is_empty (trim stderr)) then trim stderr
          else lit "exited with code " ++ debug_exit_code code in
        Sub_Failed code stdout stderr msg
  end.

Definition run_subprocess (cmd : str) (args : list str) (cwd : str) (timeout_ms : N)
    (env_overlay : gmap str str) : proc SubprocessOutcome :=
  vars ← ask ProcessEnv;
  vars ← pure_step (match vars with Some vars => Ret vars | None => Panic end);
  spawned ← ask (Spawn cmd args cwd (env_overlay ∪ vars));
  match spawned with
  | Err kind => mret (Sub_SpawnFailed kind)
  | Ok _ => e ← ask (WaitChild timeout_ms); mret (child_outcome e)
  end.

(** ** What the two executors share *)

(** [strip_suffix('\n')], the text itself when it has none. *)
Definition strip_one_newline (s : str) : str :=
  match rev s with c :: r => if (c =? 10)%N then rev r else s | [] => s end.

Definition timeout_of (t : option f64) : N :=
  match t with Some t => f64_to_u64 t | None => SUBPROCESS_DEFAULT_TIMEOUT end.

(** The node's own variables over the fixed ones. *)
Definition overlay (extra : option (gmap str str)) (fixed : list (str * str)) : gmap str str :=
  default ∅ extra ∪ list_to_map fixed.

(** The text of a failure, up to its label; [cmd] is the executable by the name the
    message gives it. *)
Definition failure_message (label cmd cmd_line : str) (timeout_ms : N) (o : SubprocessOutcome)
  : str :=
  match o with
  | Sub_TimedOut => label ++ lit " timed out after " ++ show_N timeout_ms ++ lit "ms"
  | Sub_SpawnFailed io.NotFound => label ++ lit " failed: " ++ cmd ++ lit " executable not found in PATH"
  | Sub_SpawnFailed io.PermissionDenied =>
      label ++ lit " failed: permission denied (check cwd permissions)"
  | Sub_SpawnFailed kind =>
      label ++ lit " failed: spawn error (" ++ io.kind_debug kind ++ lit ")"
  | Sub_Failed exit_code _ stderr _ =>
      failure_user_message
        (format_subprocess_failure
           (mk_RawSubprocessError (Some (lit "Command failed: " ++ cmd_line)) (Some stderr) None
              (show_Z <$> exit_code) (Some false) None) label)
  | Sub_Success _ _ => []
  end.

Definition failed_output (error : str) : NodeOutput := Failed [] None error None None.

Section Executors.
Context `{RegexEngine} `{SerdeJson} `{UnicodeCase}.
Variable env : NodeEnv.

Let rid := run_id (ne_run env).

(** The log entry, the store event and the bus event of a failed node. *)
Definition fail_node (type node_id error_msg : str) : proc NodeOutput :=
  _ ← log_node_error rid node_id error_msg;
  _ ← emit_workflow_event (lit "node_failed") node_id
        [(lit "error", String error_msg); (lit "type", String type)];
  _ ← bus (lit "node_failed") node_id (Some node_id) None (Some error_msg) None;
  mret (failed_output error_msg).

(** A node that starts: [shown] is its name in the log. *)
Definition start_node (node_id shown : str) (data : object) : proc unit :=
  _ ← log_node_start rid node_id shown;
  _ ← emit_workflow_event (lit "node_started") node_id data;
  bus (lit "node_started") node_id (Some node_id) None None None.

(** The subprocess succeeded. *)
Definition complete_node (title type shown node_id : str) (start : N) (stdout stderr : str)
  : proc NodeOutput :=
  let output := strip_one_newline stdout in
  _ ← (if negb (is_empty (trim stderr))
       then notify (title ++ lit " node '" ++ node_id ++ lit "' stderr:" ++ newline ++ lit "```"
                    ++ newline ++ trim stderr ++ newline ++ lit "```") node_id
       else mret tt);
  stop ← ask Now;
  let duration_ms := millis_between start stop in
  _ ← log_node_complete rid node_id shown (Some duration_ms);
  _ ← emit_workflow_event (lit "node_completed") node_id
        [(lit "duration_ms", json_N duration_ms); (lit "type", String type);
         (lit "node_output", String output)];
  _ ← bus (lit "node_completed") node_id (Some node_id) None None (Some duration_ms);
  mret (completed_output output).

(** The [match] on the outcome of the subprocess. *)
Definition finish_node (title type shown node_id cmd cmd_line : str) (timeout_ms start : N)
    (o : SubprocessOutcome) : proc NodeOutput :=
  match o with
  | Sub_Success stdout stderr => complete_node title type shown node_id start stdout stderr
  | _ =>
      fail_node type node_id
        (failure_message (title ++ lit " node '" ++ node_id ++ lit "'") cmd cmd_line timeout_ms o)
  end.

Definition base_branch_message (title node_id : str) : str :=
  title ++ lit " node '" ++ node_id
  ++ lit "' failed: $BASE_BRANCH is referenced but no base branch is set".

(** ** [execute_bash_node] *)

Definition substitute_for (text : str) (shell_safe : bool)
  : result BaseBranchEmptyError SubstitutionResult :=
  substitute_workflow_variables text rid (user_message (ne_run env)) (ne_artifacts_dir env)
    (ne_base_branch env) (ne_docs_dir env) (ne_issue_context env) None None None shell_safe.

Definition bash_env : gmap str str :=
  let context := default [] (ne_issue_context env) in
  overlay (ne_env_vars env)
    [(lit "ARTIFACTS_DIR", ne_artifacts_dir env); (lit "LOG_DIR", ne_log_dir env);
     (lit "BASE_BRANCH", ne_base_branch env); (lit "USER_MESSAGE", user_message (ne_run env));
     (lit "ARGUMENTS", user_message (ne_run env)); (lit "LOOP_USER_INPUT", []);
     (lit "LOOP_PREV_OUTPUT", []); (lit "REJECTION_REASON", []); (lit "CONTEXT", context);
     (lit "EXTERNAL_CONTEXT", context); (lit "ISSUE_CONTEXT", context)].

Definition execute_bash_node (node : BashNode) (node_outputs : gmap str NodeOutput)
  : proc NodeOutput :=
  start ← ask Now;
  let node_id := base_id (bash_base node) in
  _ ← start_node node_id (lit "<bash>") [(lit "type", String (lit "bash"))];
  match substitute_for (bash node) true with
  | Err _ => fail_node (lit "bash") node_id (base_branch_message (lit "Bash") node_id)
  | Ok sr =>
      final_script ← substitute_refs (sr_prompt sr) node_outputs true (Some (ne_log_dir env));
      let timeout_ms := timeout_of (bash_timeout node) in
      o ← run_subprocess (lit "bash") [lit "-c"; final_script] (ne_cwd env) timeout_ms bash_env;
      finish_node (lit "Bash") (lit "bash") (lit "<bash>") node_id (lit "bash")
        (lit "bash -c " ++ final_script) timeout_ms start o
  end.

(** ** [execute_script_node] *)

Definition runtime_str (r : ScriptRuntime) : str :=
  match r with Bun => lit "bun" | Uv => lit "uv" end.

Definition script_env : gmap str str :=
  overlay (ne_env_vars env)
    [(lit "ARTIFACTS_DIR", ne_artifacts_dir env); (lit "LOG_DIR", ne_log_dir env);
     (lit "BASE_BRANCH", ne_base_branch env)].

Definition with_deps (deps : list str) : list str := flat_map (fun d => [lit "--with"; d]) deps.

Definition inline_command (r : ScriptRuntime) (deps : list str) (script : str) : str * list str :=
  match r with
  | Bun => (lit "bun", [lit "--no-env-file"; lit "-e"; script])
  | Uv => (lit "uv", lit "run" :: with_deps deps ++ [lit "python"; lit "-c"; script])
  end.
Definition named_command (deps : list str) (def : ScriptDefinition) : str * list str :=
  match sd_runtime def with
  | Uv => (lit "uv", lit "run" :: with_deps deps ++ [sd_path def])
  | Bun => (lit "bun", [lit "--no-env-file"; lit "run"; sd_path def])
  end.

(** A named script that cannot be had: the user is told, then the node fails. *)
Definition fail_discovery (node_id error_msg : str) : proc NodeOutput :=
  _ ← notify error_msg node_id;
  fail_node (lit "script") node_id error_msg.

(** The command to run, or the output of the failed node. *)
Definition script_command (node_id : str) (runtime : ScriptRuntime) (deps : list str)
    (final_script : str) : proc (NodeOutput + str * list str) :=
  if is_inline_script final_script then mret (inr (inline_command runtime deps final_script))
  else
    scripts ← ask (DiscoverScripts (ne_cwd env));
    match scripts with
    | Err disc_err =>
        out ← fail_discovery node_id
                (lit "Script node '" ++ node_id ++ lit "': failed to discover scripts — " ++ disc_err);
        mret (inl out)
    | Ok scripts =>
        match (scripts : gmap str ScriptDefinition) !! final_script with
        | None =>
            out ← fail_discovery node_id
                    (lit "Script node '" ++ node_id ++ lit "': named script '" ++ final_script
                     ++ lit "' not found in .archon/scripts/ or ~/.archon/scripts/");
            mret (inl out)
        | Some def => mret (inr (named_command deps def))
        end
    end.

Definition execute_script_node (node : ScriptNode) (node_outputs : gmap str NodeOutput)
  : proc NodeOutput :=
  start ← ask Now;
  let node_id := base_id (script_base node) in
  _ ← start_node node_id (lit "<script>")
        [(lit "type", String (lit "script"));
         (lit "runtime", String (runtime_str (script_runtime node)))];
  match substitute_for (script node) false with
  | Err _ => fail_node (lit "script") node_id (base_branch_message (lit "Script") node_id)
  | Ok sr =>
      final_script ← substitute_refs (sr_prompt sr) node_outputs false None;
      let timeout_ms := timeout_of (script_timeout node) in
      command ← script_command node_id (script_runtime node) (default [] (script_deps node))
                  final_script;
      match command with
      | inl out => mret out
      | inr (cmd, args) =>
          o ← run_subprocess cmd args (ne_cwd env) timeout_ms script_env;
          finish_node (lit "Script") (lit "script") (lit "<script>") node_id
            (lit "'" ++ cmd ++ lit "'") (join (lit " ") (cmd :: args)) timeout_ms start o
      end
  end.
End Executors.

(** ** Subprocesses of a trace *)

(** The commands a trace starts, and how the last of them ended. *)
Definition spawns (tr : trace) : list (str * list str * str * gmap str str) :=
  omap (fun e => match ev_call e with
                 | Spawn cmd args cwd vars => Some (cmd, args, cwd, vars)
                 | _ => None
                 end) tr.
Definition seen_at (e : event) : option SubprocessOutcome :=
  let '(mk_event c r) := e in
  match c return ret c -> option SubprocessOutcome with
  | Spawn _ _ _ _ => fun r => match r with Err kind => Some (Sub_SpawnFailed kind) | Ok _ => None end
  | WaitChild _ => fun r => Some (child_outcome r)
  | _ => fun _ => None
  end r.
Definition seen (tr : trace) : list SubprocessOutcome := omap seen_at tr.

Lemma reports_spawn_nothing tr :
  Forall (fun e => report_call (ev_call e)) tr -> spawns tr = [] /\ seen tr = [].
Proof.
  induction 1 as [|[c r] tr Hc _ [IH1 IH2]]; [done|].
  unfold spawns, seen in *. destruct c; by simpl.
Qed.

Lemma spawns_app t1 t2 : spawns (t1 ++ t2) = spawns t1 ++ spawns t2.
Proof. apply omap_app. Qed.
Lemma seen_app t1 t2 : seen (t1 ++ t2) = seen t1 ++ seen t2.
Proof. apply omap_app. Qed.

(** The one command of [run_subprocess]. *)
Lemma run_subprocess_spec cmd args cwd t vars0 :
  always (run_subprocess cmd args cwd t vars0) (fun tr o =>
    (o = Panic /\ spawns tr = [] /\ mk_event ProcessEnv None ∈ tr)
    \/ exists vars e, o = Ret e /\ spawns tr = [(cmd, args, cwd, vars0 ∪ vars)] /\ seen tr = [e]
                      /\ mk_event ProcessEnv (Some vars) ∈ tr).
Proof.
  intros [vars|]; [|left; repeat split; left].
  intros [[]|kind].
  - intros x. right. exists vars, (child_outcome x). repeat split. left.
  - right. exists vars, (Sub_SpawnFailed kind). repeat split. left.
Qed.

(** What a node returns for the end of its command. *)
Definition node_result (title node_id cmd cmd_line : str) (timeout_ms : N) (e : SubprocessOutcome)
  : NodeOutput :=
  match e with
  | Sub_Success stdout _ => completed_output (strip_one_newline stdout)
  | _ => failed_output
           (failure_message (title ++ lit " node '" ++ node_id ++ lit "'") cmd cmd_line timeout_ms e)
  end.

Section Lemmas.
Context `{RegexEngine} `{SerdeJson} `{UnicodeCase}.
Variable env : NodeEnv.

Lemma notify_quietly text node : quietly (notify text node) (fun _ => True).
Proof. unfold notify, send_text. quiet_steps. Qed.
Lemma fail_node_quietly type id msg :
  quietly (fail_node env type id msg) (fun out => out = failed_output msg).
Proof. unfold fail_node, log_node_error, emit_workflow_event, bus. quiet_steps. Qed.
Lemma start_node_quietly id shown data : quietly (start_node env id shown data) (fun _ => True).
Proof. unfold start_node, log_node_start, emit_workflow_event, bus. quiet_steps. Qed.
Lemma finish_node_quietly title type shown id cmd line t start e :
  quietly (finish_node env title type shown id cmd line t start e)
    (fun out => out = node_result title id cmd line t e).
Proof.
  destruct e; try apply fail_node_quietly.
  unfold finish_node, complete_node, log_node_complete, emit_workflow_event, bus.
  apply quietly_bind; [|quiet_steps].
  destruct (negb _); [apply notify_quietly|by apply quietly_done].
Qed.

(** A command ran once, in the environment of the process under [vars0], and decided
    the result; or a variable of the process is not Unicode. *)
Definition ran_command (cmd : str) (args : list str) (cwd : str) (vars0 : gmap str str)
    (res : SubprocessOutcome -> NodeOutput) (tr : trace) (o : outcome NodeOutput) : Prop :=
  (o = Panic /\ spawns tr = [] /\ mk_event ProcessEnv None ∈ tr)
  \/ exists vars e, o = Ret (res e) /\ spawns tr = [(cmd, args, cwd, vars0 ∪ vars)]
                    /\ seen tr = [e] /\ mk_event ProcessEnv (Some vars) ∈ tr.
(** Nothing was started. *)
Definition ran_nothing (out : NodeOutput) (tr : trace) (o : outcome NodeOutput) : Prop :=
  o = Ret out /\ spawns tr = [].

Lemma ran_command_prefix pre cmd args cwd vars0 res tr o :
  spawns pre = [] -> seen pre = [] ->
  ran_command cmd args cwd vars0 res tr o -> ran_command cmd args cwd vars0 res (pre ++ tr) o.
Proof.
  intros Hs He. unfold ran_command. rewrite spawns_app, seen_app, Hs, He. cbn [app].
  intros [(-> & Hsp & Hin)|(vars & e & -> & Hsp & Hse & Hin)]; [left|right];
    repeat (eexists || split); eauto; apply elem_of_app; by right.
Qed.
Lemma ran_command_stable cmd args cwd vars0 res : ignores_reports (ran_command cmd args cwd vars0 res).
Proof. intros tr tr' o [Hs He]%reports_spawn_nothing. by apply ran_command_prefix. Qed.
Lemma ran_nothing_stable out : ignores_reports (ran_nothing out).
Proof.
  intros tr tr' o [Hs _]%reports_spawn_nothing [-> Hs']. split; [done|].
  by rewrite spawns_app, Hs, Hs'.
Qed.

Lemma run_and_finish title type shown id name line t start cmd args cwd vars0 :
  always (o ← run_subprocess cmd args cwd t vars0;
          finish_node env title type shown id name line t start o)
    (ran_command cmd args cwd vars0 (node_result title id name line t)).
Proof.
  rewrite always_bind. eapply always_mono, run_subprocess_spec.
  intros tr o [(-> & Hs & Hin)|(vars & e & -> & Hs & Hse & Hin)]; [by left|].
  eapply always_mono, quietly_always, finish_node_quietly.
  intros tr' o' ([Hs' Hse']%reports_spawn_nothing & out & -> & ->). right. exists vars, e.
  rewrite spawns_app, seen_app, Hs, Hse, Hs', Hse'. repeat split. apply elem_of_app. by left.
Qed.

(** The script of a bash node, for what the file system says of its output files. *)
Definition bash_script (node : BashNode) (outs : gmap str NodeOutput)
    (sr : SubstitutionResult) (write_ok : str -> str -> bool) : str :=
  fst (substitute_node_output_refs write_ok (sr_prompt sr) outs true (Some (ne_log_dir env))).

Definition bash_outcome (node : BashNode) (outs : gmap str NodeOutput) (tr : trace)
    (o : outcome NodeOutput) : Prop :=
  let id := base_id (bash_base node) in
  match substitute_for env (bash node) true with
  | Err _ => ran_nothing (failed_output (base_branch_message (lit "Bash") id)) tr o
  | Ok sr =>
      exists write_ok, mk_event OutputFiles write_ok ∈ tr /\
        let final_script := bash_script node outs sr write_ok in
        ran_command (lit "bash") [lit "-c"; final_script] (ne_cwd env) (bash_env env)
          (node_result (lit "Bash") id (lit "bash") (lit "bash -c " ++ final_script)
             (timeout_of (bash_timeout node))) tr o
  end.

Lemma bash_outcome_stable node outs : ignores_reports (bash_outcome node outs).
Proof.
  intros tr tr' o Htr. unfold bash_outcome. destruct (substitute_for env (bash node) true).
  - intros (w & Hin & Hran). exists w. split; [apply elem_of_app; by right|].
    by apply ran_command_stable.
  - by apply ran_nothing_stable.
Qed.

Lemma bash_always node outs : always (execute_bash_node env node outs) (bash_outcome node outs).
Proof.
  pose proof (bash_outcome_stable node outs) as Hstable.
  apply (quietly_then _ _ (fun _ => True)); [done|by apply quietly_ask|]. intros start _.
  eapply quietly_then; [done|apply start_node_quietly|]. intros _ _. cbn beta.
  destruct (substitute_for env (bash node) true) as [sr|e] eqn:Hsub.
  - apply substitute_refs_then. intros write_ok. cbn zeta.
    eapply always_mono, run_and_finish. intros tr o Hran.
    unfold bash_outcome. rewrite Hsub. exists write_ok. split; [left|].
    by apply (ran_command_prefix [_; _]).
  - eapply quietly_ends; [done|apply fail_node_quietly|]. intros out ->.
    unfold bash_outcome. rewrite Hsub. split; [done|]. done.
Qed.

Definition script_text (outs : gmap str NodeOutput) (sr : SubstitutionResult) : str :=
  fst (substitute_node_output_refs (fun _ _ => false) (sr_prompt sr) outs false None).

Definition ran_script (node : ScriptNode) (command : str * list str)
    (tr : trace) (o : outcome NodeOutput) : Prop :=
  ran_command (fst command) (snd command) (ne_cwd env) (script_env env)
    (node_result (lit "Script") (base_id (script_base node)) (lit "'" ++ fst command ++ lit "'")
       (join (lit " ") (fst command :: snd command)) (timeout_of (script_timeout node))) tr o.

(** A named script, for what the discovery answered. *)
Definition named_outcome (node : ScriptNode) (text : str)
    (found : result str (gmap str ScriptDefinition)) (tr : trace) (o : outcome NodeOutput) : Prop :=
  let id := base_id (script_base node) in
  match found with
  | Err e =>
      ran_nothing (failed_output
        (lit "Script node '" ++ id ++ lit "': failed to discover scripts — " ++ e)) tr o
  | Ok scripts =>
      match scripts !! text with
      | None =>
          ran_nothing (failed_output
            (lit "Script node '" ++ id ++ lit "': named script '" ++ text
             ++ lit "' not found in .archon/scripts/ or ~/.archon/scripts/")) tr o
      | Some def => ran_script node (named_command (default [] (script_deps node)) def) tr o
      end
  end.

Definition script_outcome (node : ScriptNode) (outs : gmap str NodeOutput) (tr : trace)
    (o : outcome NodeOutput) : Prop :=
  match substitute_for env (script node) false with
  | Err _ =>
      ran_nothing
        (failed_output (base_branch_message (lit "Script") (base_id (script_base node)))) tr o
  | Ok sr =>
      let text := script_text outs sr in
      if is_inline_script text
      then ran_script node (inline_command (script_runtime node) (default [] (script_deps node)) text) tr o
      else exists found, mk_event (DiscoverScripts (ne_cwd env)) found ∈ tr
                         /\ named_outcome node text found tr o
  end.

Lemma named_outcome_prefix pre node text found tr o :
  spawns pre = [] -> seen pre = [] ->
  named_outcome node text found tr o -> named_outcome node text found (pre ++ tr) o.
Proof.
  intros Hs He.
  assert (forall out, ran_nothing out tr o -> ran_nothing out (pre ++ tr) o) as Hn.
  { intros out [-> Hs']. split; [done|]. by rewrite spawns_app, Hs, Hs'. }
  unfold named_outcome, ran_script. destruct found as [scripts|e]; [|apply Hn].
  destruct (scripts !! text); [by apply ran_command_prefix|apply Hn].
Qed.
Lemma named_outcome_stable node text found : ignores_reports (named_outcome node text found).
Proof. intros tr tr' o [Hs He]%reports_spawn_nothing. by apply named_outcome_prefix. Qed.

Lemma script_outcome_prefix pre node outs tr o :
  spawns pre = [] -> seen pre = [] ->
  script_outcome node outs tr o -> script_outcome node outs (pre ++ tr) o.
Proof.
  intros Hs He. unfold script_outcome, ran_script. cbn zeta.
  destruct (substitute_for env (script node) false); [destruct (is_inline_script _)|].
  - by apply ran_command_prefix.
  - intros (found & Hin & Hf). exists found. split; [apply elem_of_app; by right|].
    by apply named_outcome_prefix.
  - intros [-> Hs']. split; [done|]. by rewrite spawns_app, Hs, Hs'.
Qed.
Lemma script_outcome_stable node outs : ignores_reports (script_outcome node outs).
Proof. intros tr tr' o [Hs He]%reports_spawn_nothing. by apply script_outcome_prefix. Qed.

Lemma fail_discovery_quietly id msg :
  quietly (fail_discovery env id msg) (fun out => out = failed_output msg).
Proof.
  unfold fail_discovery. apply quietly_bind; [apply notify_quietly|]. intros _. apply fail_node_quietly.
Qed.

Lemma fail_command_always id msg (f : NodeOutput + str * list str -> proc NodeOutput) Q :
  ignores_reports Q -> Q [] (Ret (failed_output msg)) -> (forall out, f (inl out) = Done out) ->
  always ((out ← fail_discovery env id msg; mret (inl out)) ≫= f) Q.
Proof.
  intros HQ Hout Hf. rewrite always_bind.
  eapply quietly_then; [|apply fail_discovery_quietly|].
  - intros tr tr' [a|] Htr; [|by apply HQ].
    apply always_mono. intros t o. rewrite <- app_assoc. by apply HQ.
  - intros out ->. cbn [mret proc_ret always]. rewrite Hf. exact Hout.
Qed.

Lemma script_always node outs : always (execute_script_node env node outs) (script_outcome node outs).
Proof.
  pose proof (script_outcome_stable node outs) as Hstable.
  apply (quietly_then _ _ (fun _ => True)); [done|by apply quietly_ask|]. intros start _.
  eapply quietly_then; [done|apply start_node_quietly|]. intros _ _. cbn beta.
  destruct (substitute_for env (script node) false) as [sr|e] eqn:Hsub.
  2:{ eapply quietly_ends; [done|apply fail_node_quietly|]. intros out ->.
      unfold script_outcome. by rewrite Hsub. }
  apply substitute_refs_then. intros write_ok. cbn zeta.
  rewrite (substitute_unescaped write_ok (fun _ _ => false)). fold (script_text outs sr).
  assert (forall tr o (c1 c2 : event), spawns [c1; c2] = [] -> seen [c1; c2] = [] ->
    script_outcome node outs tr o -> script_outcome node outs (c1 :: c2 :: tr) o) as Hpre
    by (intros tr o c1 c2 H2 H3; by apply (script_outcome_prefix [c1; c2])).
  eapply always_mono; [intros tr o; by apply Hpre|].
  unfold script_command. destruct (is_inline_script (script_text outs sr)) eqn:Hin.
  { destruct (inline_command _ _ _) as [cmd args] eqn:Hc.
    eapply always_mono, run_and_finish. intros tr o Hran.
    unfold script_outcome. by rewrite Hsub, Hin, Hc. }
  intros found. eapply (always_mono _ (named_outcome node (script_text outs sr) found)).
  { intros tr o Hn. unfold script_outcome. rewrite Hsub, Hin. exists found. split; [left|].
    by apply (named_outcome_prefix [_]). }
  pose proof (named_outcome_stable node (script_text outs sr) found) as Hst.
  unfold named_outcome in *. cbn [mbind proc_bind]. destruct found as [scripts|e].
  - cbn beta iota. destruct (scripts !! script_text outs sr) as [def|].
    + cbn [mbind proc_bind mret proc_ret]. unfold ran_script.
      destruct (named_command _ def) as [cmd args]. apply run_and_finish.
    + by apply fail_command_always.
  - by apply fail_command_always.
Qed.
End Lemmas.

(** ** Properties *)

Lemma strip_one_newline_spec s :
  (exists s', s = s' ++ newline /\ strip_one_newline s = s')
  \/ (strip_one_newline s = s /\ forall s', s <> s' ++ newline).
Proof.
  unfold strip_one_newline, newline. destruct (rev s) as [|c r] eqn:E.
  - right. split; [done|]. intros s' ->. by rewrite rev_app_distr in E.
  - assert (s = rev r ++ [c]) as -> by (rewrite <- (rev_involutive s), E; done).
    destruct (N.eqb_spec c 10) as [->|Hc]; [left; by exists (rev r)|].
    right. split; [done|]. intros s' [_ Heq]%app_inj_2; [|done]. congruence.
Qed.

Section Properties.
Context `{RegexEngine} `{SerdeJson} `{UnicodeCase}.

(** A bash node starts nothing when its script needs a base branch there is
    none of; otherwise it runs [bash -c] on its substituted script, once, and its
    output is the standard output of that command less one final newline, or the
    failure that the end of the command stands for.  It panics exactly when a
    variable of the process is not Unicode, and then nothing is started. *)
Theorem bash_node_spec env node outs w past :
  let r := exec w past (execute_bash_node env node outs) in
  bash_outcome env node outs (fst r) (snd r)
  /\ (forall out sid so df, snd r = Ret (Completed out sid so df) ->
      exists stdout stderr, seen (fst r) = [Sub_Success stdout stderr]
        /\ (stdout = out ++ newline \/ (stdout = out /\ forall s', out <> s' ++ newline))).
Proof.
  intros r. pose proof (always_exec _ _ w past (bash_always env node outs)) as Hb.
  fold r in Hb. split; [exact Hb|]. intros out sid so df Ho. unfold bash_outcome in Hb.
  destruct (substitute_for env (bash node) true); [|destruct Hb as [Hb _]; unfold failed_output in Hb; congruence].
  destruct Hb as (write_ok & _ & [(Hp & _)|(vars & e & Hr & _ & -> & _)]); [congruence|].
  rewrite Ho in Hr. destruct e as [stdout stderr| | |];
    unfold node_result, failed_output in Hr; try (simplify_eq; fail).
  exists stdout, stderr. split; [done|]. unfold completed_output in Hr. simplify_eq.
  destruct (strip_one_newline_spec stdout) as [(s' & -> & ->)|[-> Hs]]; [by left|by right].
Qed.

(** The same node in the same place, for another message and context of the user. *)
Definition with_user (env : NodeEnv) (message : str) (context : option str) : NodeEnv :=
  let r := ne_run env in
  mk_NodeEnv
    (mk_WorkflowRun (run_id r) (workflow_name r) (conversation_id r) (parent_conversation_id r)
       (codebase_id r) (run_status r) message (metadata r) (started_at r) (completed_at r)
       (last_activity_at r) (working_path r) (user_id r))
    (ne_cwd env) (ne_artifacts_dir env) (ne_log_dir env) (ne_base_branch env) (ne_docs_dir env)
    context (ne_env_vars env) (ne_streaming_mode env).

Lemma substitute_for_ignores_user env text message context :
  sr_prompt <$> substitute_for env text true
  = sr_prompt <$> substitute_for (with_user env message context) text true.
Proof.
  unfold substitute_for, substitute_workflow_variables, with_user.
  cbn [ne_run run_id ne_artifacts_dir ne_base_branch ne_docs_dir].
  destruct (is_empty (ne_base_branch env) && _); [done|].
  by destruct (substitute_context_vars _ []).
Qed.

(** The variables of the command of a bash node: the node's own, then the fixed
    ones, then those of the process. *)
Lemma overlay_lookup extra fixed vars k :
  (overlay extra fixed ∪ vars) !! k =
    match default ∅ extra !! k with
    | Some v => Some v
    | None =>
        match (list_to_map fixed : gmap str str) !! k with
        | Some v => Some v
        | None => vars !! k
        end
    end.
Proof.
  unfold overlay. rewrite !lookup_union.
  by destruct (default ∅ extra !! k), ((list_to_map fixed : gmap str str) !! k), (vars !! k).
Qed.

(** The commands and arguments a trace starts. *)
Definition commands (tr : trace) : list (str * list str) :=
  map (fun x => match x with (cmd, args, _, _) => (cmd, args) end) (spawns tr).

(** The world answers a call alike at any time. *)
Definition steady (w : world) (c : call) : Prop := forall past past', w past c = w past' c.

Lemma steady_answer {A} (p : proc A) w past c r :
  steady w c -> mk_event c r ∈ fst (exec w past p) -> r = w past c.
Proof. intros Hw Hin. destruct (exec_answers _ _ _ _ _ Hin) as [past' ->]. apply Hw. Qed.

(** What a bash node starts when the files and the variables of the process stay. *)
Lemma bash_spawns env node outs w past :
  steady w OutputFiles -> steady w ProcessEnv ->
  spawns (fst (exec w past (execute_bash_node env node outs))) =
    match substitute_for env (bash node) true, w past ProcessEnv with
    | Ok sr, Some vars =>
        [(lit "bash", [lit "-c"; bash_script env node outs sr (w past OutputFiles)], ne_cwd env,
          bash_env env ∪ vars)]
    | _, _ => []
    end.
Proof.
  intros Hf Hv. pose proof (always_exec _ _ w past (bash_always env node outs)) as Hb.
  unfold bash_outcome in Hb. destruct (substitute_for env (bash node) true); [|apply Hb].
  destruct Hb as (write_ok & Hw & Hran). apply steady_answer in Hw; [|done]. rewrite <- Hw.
  destruct Hran as [(_ & -> & E)|(vars & e & _ & -> & _ & E)];
    apply steady_answer in E; try done; by rewrite <- E.
Qed.

(** What a bash node runs does not depend on what the user wrote: for any other
    message and issue context the same command with the same arguments is started.
    The text of the user reaches the command in its environment, where the node's own
    variables win over it and it wins over those of the process. *)
Theorem bash_user_text_isolated env message context node outs w past :
  steady w OutputFiles -> steady w ProcessEnv ->
  let env' := with_user env message context in
  let r' := exec w past (execute_bash_node env' node outs) in
  commands (fst (exec w past (execute_bash_node env node outs))) = commands (fst r')
  /\ Forall (fun '(_, _, _, vars) =>
       forall k, k ∈ [lit "USER_MESSAGE"; lit "ARGUMENTS"] ->
       vars !! k = Some (default message (default ∅ (ne_env_vars env) !! k))) (spawns (fst r')).
Proof.
  intros Hf Hv env' r'. unfold r', commands. rewrite !bash_spawns by done.
  pose proof (substitute_for_ignores_user env (bash node) message context) as Hsub.
  fold env' in Hsub.
  destruct (substitute_for env (bash node) true) as [sr|e], (substitute_for env' (bash node) true)
    as [sr'|e']; try discriminate Hsub; [|by split].
  destruct (w past ProcessEnv) as [vars|]; [|by split].
  assert (sr_prompt sr = sr_prompt sr') as Hp by (by injection Hsub).
  split; [unfold bash_script; cbn [map]; by rewrite Hp|].
  constructor; [|constructor]. intros k Hk. unfold bash_env. rewrite overlay_lookup.
  change (ne_env_vars env') with (ne_env_vars env).
  destruct (default ∅ (ne_env_vars env) !! k); [done|]. cbn [default from_option id].
  repeat (apply elem_of_cons in Hk as [->|Hk]); [by_compute|by_compute|by apply elem_of_nil in Hk].
Qed.

(** A script node runs one command, decided by its text after substitution: an
    inline text is handed to [bun -e] or [uv run .. python -c]; any other text is the
    name of a script, whose own runtime and path are used; a name that is not found
    and a discovery that fails start nothing.  Its environment holds no text of the
    user of its own accord. *)
Theorem script_node_spec env node outs w past :
  let r := exec w past (execute_script_node env node outs) in
  script_outcome env node outs (fst r) (snd r)
  /\ (length (spawns (fst r)) <= 1)%nat
  /\ (forall message, script_env (with_user env message None) = script_env env).
Proof.
  intros r. pose proof (always_exec _ _ w past (script_always env node outs)) as Hs.
  fold r in Hs. split; [exact Hs|]. split; [|done].
  assert (forall cmd args cwd vars res, ran_command cmd args cwd vars res (fst r) (snd r) ->
            (length (spawns (fst r)) <= 1)%nat) as Hran
    by (intros ? ? ? ? ? [(_ & -> & _)|(? & ? & _ & -> & _)]; simpl; lia).
  assert (forall out, ran_nothing out (fst r) (snd r) -> (length (spawns (fst r)) <= 1)%nat) as Hno
    by (intros out [_ ->]; simpl; lia).
  unfold script_outcome, named_outcome, ran_script in Hs. cbn zeta in Hs.
  repeat case_match; eauto; destruct Hs as (found & _ & Hs); repeat case_match; eauto.
Qed.

End Properties.

(** ** On concrete nodes *)

#[local] Existing Instance backtracking_engine.
#[local] Existing Instance ascii_case.

Definition echo_node : BashNode :=
  mk_BashNode (base_default (lit "b") []) (lit "echo $BASE_BRANCH $USER_MESSAGE") None.
Definition argument_node (runtime : ScriptRuntime) : ScriptNode :=
  mk_ScriptNode (base_default (lit "s") []) (lit "$ARGUMENTS") runtime (Some [lit "rich"]) None.

Lemma bash_user_text_isolated_witness :
  let env := sample_node_env (lit "hello") [] in
  commands (fst (exec good_world [] (execute_bash_node env echo_node ∅)))
    = [(lit "bash", [lit "-c"; lit "echo main $USER_MESSAGE"])]
  /\ commands (fst (exec good_world [] (execute_bash_node env echo_node ∅)))
     = commands (fst (exec good_world []
                        (execute_bash_node (with_user env (lit "; rm -rf /") None) echo_node ∅))).
Proof.
  split; [by_compute|].
  exact (proj1 (bash_user_text_isolated (sample_node_env (lit "hello") []) (lit "; rm -rf /") None
                  echo_node ∅ good_world [] (fun _ _ => eq_refl) (fun _ _ => eq_refl))).
Defined.

(** A script node that names its script by the message of the user runs the message as
    code as soon as it holds a character of the shell. *)
Example user_text_runs_as_code :
  commands (fst (exec good_world []
    (execute_script_node (sample_node_env (lit "process.exit(1)") []) (argument_node Bun) ∅)))
  = [(lit "bun", [lit "--no-env-file"; lit "-e"; lit "process.exit(1)"])]
  /\ commands (fst (exec good_world []
       (execute_script_node (sample_node_env (lit "deploy") []) (argument_node Bun) ∅))) = [].
Proof. split; by_compute. Qed.
