(* ===== verification/NodeStream.v ===== *)
(** * Texts the node executors show

    The small text functions of [dag_executor.rs] the node executors share: tool calls
    as they are shown and as they are stored, numbers as JavaScript prints them, the
    prompt that asks an agent again, the name a node is shown under.

    Slices of a [str] at a fixed byte offset panic inside a character.

    The second part is what AI nodes and loops share: how they read the stream of a
    provider. *)
From Stdlib Require Import Floats.SpecFloat.
From S2P Require Import Prelude Float64 Json StdModel DagNode ExecutorShared DagCore DagRun Regex.
From S2P Require Import Workflow RunStore Provider NodeProc.

(** What the standard library adds: [str::to_uppercase], the digits and the exponent
    [{:e}] prints a positive finite number with, and a number as [{:.2}] prints it. *)
Class StdText : Type := {
  to_uppercase : str -> str;
  lower_exp : f64 -> str * Z;
  fixed2 : f64 -> str;
}.

(** ** Tool calls *)

(** At most [n] bytes, with dots when there are more. *)
Definition ellipsis (n : nat) (s : str) : outcome str :=
  if Nat.ltb n (byte_len s) then p ← byte_prefix n s; Ret (p ++ lit "...") else Ret s.

(** A field of the input that is a string. *)
Definition input_str (k : string) (tool_input : value) : option str :=
  value_get (lit k) tool_input ≫= as_str.

Definition guarded_brief (tool_name : str) (tool_input : value) : option (outcome str) :=
  let brief (tool field : string) (f : str -> outcome str) :=
    if str_eqb tool_name (lit tool) then f <$> input_str field tool_input else None in
  match brief "Bash" "command" (ellipsis 100) with
  | Some b => Some b
  | None =>
  match brief "Read" "file_path" (fun fp => Ret (lit "Reading: " ++ fp)) with
  | Some b => Some b
  | None =>
  match brief "Write" "file_path" (fun fp => Ret (lit "Writing: " ++ fp)) with
  | Some b => Some b
  | None =>
  match brief "Edit" "file_path" (fun fp => Ret (lit "Editing: " ++ fp)) with
  | Some b => Some b
  | None =>
  match brief "Glob" "pattern" (fun p => Ret (lit "Pattern: " ++ p)) with
  | Some b => Some b
  | None =>
  match brief "Grep" "pattern" (fun p => Ret (lit "Searching: " ++ p)) with
  | Some b => Some b
  | None =>
      if starts_with (lit "mcp__") tool_name then
        let parts := split (lit "__") tool_name in
        if Nat.leb 2 (length parts) then Some (Ret (lit "MCP: " ++ join (lit " ") (drop 1 parts)))
        else None
      else None
  end end end end end end.

Section Text.
Context `{SerdeJson} `{StdText}.

Definition extract_tool_brief (tool_name : str) (tool_input : value) : outcome str :=
  match guarded_brief tool_name tool_input with
  | Some b => b
  | None => ellipsis 80 (to_string tool_input)
  end.

Definition format_tool_call (tool_name : str) (tool_input : option value) : outcome str :=
  let message := lit "🔧 " ++ to_uppercase tool_name in
  match tool_input with
  | Some input => brief ← extract_tool_brief tool_name input; Ret (message ++ newline ++ brief)
  | None => Ret message
  end.

(** ** Numbers ([format_js_number]) *)

Definition zeros (n : Z) : str := repeat 48%N (Z.to_nat n).
(** The digits [s], with [k] of them, of a number below [10^n]. *)
Definition js_body (s : str) (n : Z) : str :=
  let k := Z.of_nat (length s) in
  if ((k <=? n) && (n <=? 21))%Z then s ++ zeros (n - k)
  else if ((0 <? n) && (n <=? 21))%Z then take (Z.to_nat n) s ++ lit "." ++ drop (Z.to_nat n) s
  else if ((-6 <? n) && (n <=? 0))%Z then lit "0." ++ zeros (- n) ++ s
  else
    let e := (n - 1)%Z in
    let e_sign := if (0 <=? e)%Z then lit "+" else lit "-" in
    let e_abs := show_N (Z.to_N (Z.abs e)) in
    if (k =? 1)%Z then s ++ lit "e" ++ e_sign ++ e_abs
    else take 1 s ++ lit "." ++ drop 1 s ++ lit "e" ++ e_sign ++ e_abs.

Definition format_js_number (x : f64) : str :=
  match x with
  | S754_nan => lit "NaN"
  | S754_zero _ => lit "0"
  | S754_infinity neg => if neg then lit "-Infinity" else lit "Infinity"
  | S754_finite neg m e =>
      let '(s, exp) := lower_exp (S754_finite false m e) in
      let body := js_body s (exp + 1) in
      if neg then lit "-" ++ body else body
  end.

Definition idle_timeout_minutes (idle_ms : N) : str :=
  format_js_number (f64_div (f64_of_Z (Z.of_N idle_ms)) (f64_of_Z 60000)).
End Text.

(** ** Inputs of a tool, as a loop stores them *)

Definition truncate_loop_tool_input_value (v : value) : value :=
  match v with
  | String s =>
      let units := encode_utf16 s in
      if Nat.ltb 500 (length units)
      then String (from_utf16_lossy (take 500 units) ++ lit "...") else v
  | _ => v
  end.
Definition build_loop_tool_input (tool_input : option value) : value :=
  match tool_input with
  | Some (Object map) => Object ((fun '(k, v) => (k, truncate_loop_tool_input_value v)) <$> map)
  | _ => Object []
  end.

(** ** Asking again, and names *)

Definition build_reask_prompt (original_prompt : str) (errors : list str) : str :=
  original_prompt ++ newline ++ newline ++ lit "--- CORRECTION ---" ++ newline
  ++ lit "Your previous response did not satisfy the required JSON schema: "
  ++ join (lit "; ") errors
  ++ lit ". Respond again with ONLY a JSON object matching the schema — no prose, no code fences.".

Definition node_display_name (node : DagNode) : outcome str :=
  match node with
  | Command cmd => Ret (command cmd)
  | Prompt pn =>
      if Nat.ltb 50 (byte_len (prompt pn)) then byte_prefix 50 (prompt pn) else Ret (prompt pn)
  | _ => Ret (lit "node-" ++ node_id node)
  end.

(** ** Numbers read back *)

Lemma digits_value_zeros n : digits_value (zeros n) = 0%N.
Proof. unfold zeros. induction (Z.to_nat n) as [|k IH] using nat_ind; [done|]. exact IH. Qed.
Lemma zeros_digits n : all_digits (zeros n) = true.
Proof. unfold zeros. by induction (Z.to_nat n). Qed.

(** A text that starts with a digit has no sign and is not a word. *)
Lemma starts_with_digit c r :
  is_ascii_digit c = true ->
  opt_sign (c :: r) = ([], c :: r)
  /\ assoc_get (map to_ascii_lowercase (c :: r)) f64_words = None.
Proof.
  intros Hc. pose proof (digit_not_special c Hc) as (Hp & Hm & _). split.
  - cbn [opt_sign]. apply N.eqb_neq in Hp as ->. by apply N.eqb_neq in Hm as ->.
  - unfold is_ascii_digit, in_range in Hc. apply andb_prop in Hc as [H1%N.leb_le H2%N.leb_le].
    assert (to_ascii_lowercase c = c) as Hl.
    { unfold to_ascii_lowercase, is_ascii_uppercase, in_range.
      destruct (N.leb_spec 65 c); [lia|done]. }
    cbn [map]. rewrite Hl. unfold f64_words. cbn [assoc_get].
    repeat (rewrite bool_decide_false by (intros [= -> _]; lia)). done.
Qed.

(** Reading digits with a point, and digits alone. *)
Lemma read_point d1 d2 e z :
  digits_text d1 -> all_digits d2 = true -> exponent_text e -> parse_exponent e = Some z ->
  f64_from_str (d1 ++ lit "." ++ d2 ++ e)
    = Some (f64_of_decimal false (digits_value (d1 ++ d2)) (z - Z.of_nat (length d2))).
Proof.
  intros H1 H2 He Hz. pose proof (digits_text_cons d1 H1) as (c & d' & Hd1 & Hc & _).
  destruct H1 as [Hne H1]. unfold f64_from_str.
  destruct (starts_with_digit c (d' ++ lit "." ++ d2 ++ e) Hc) as [Hs Hw].
  rewrite Hd1 at 1. cbn [app]. rewrite Hs. rewrite Hw.
  change (c :: d' ++ lit "." ++ d2 ++ e) with ((c :: d') ++ (46%N :: d2 ++ e)). rewrite <- Hd1.
  rewrite span_digits_app by done. cbn [N.eqb Pos.eqb].
  rewrite span_digits_app; [|done|by apply exponent_stops].
  destruct (d1 ++ d2) eqn:E; [by destruct d1|]. cbn [is_empty]. rewrite Hz. done.
Qed.
Lemma read_digits d e z :
  digits_text d -> exponent_text e -> parse_exponent e = Some z ->
  f64_from_str (d ++ e) = Some (f64_of_decimal false (digits_value d) z).
Proof.
  intros H1 He Hz. pose proof (digits_text_cons d H1) as (c & d' & Hd & Hc & _).
  destruct H1 as [Hne H1]. unfold f64_from_str.
  destruct (starts_with_digit c (d' ++ e) Hc) as [Hs Hw].
  rewrite Hd at 1. cbn [app]. rewrite Hs. rewrite Hw.
  change (c :: d' ++ e) with ((c :: d') ++ e). rewrite <- Hd.
  rewrite span_digits_app; [|done|by apply exponent_stops].
  assert (match e with
          | [] => ([], [])
          | x :: r => if (x =? 46)%N then span_digits r else ([], e)
          end = ([], e)) as -> by (destruct He as [|x sgn d0 [-> | ->]]; done).
  rewrite app_nil_r. destruct d; [done|]. cbn [is_empty]. rewrite Hz. cbn.
  by rewrite Z.sub_0_r.
Qed.

Lemma exponent_read e :
  exponent_text (lit "e" ++ (if (0 <=? e)%Z then lit "+" else lit "-") ++ show_N (Z.to_N (Z.abs e)))
  /\ parse_exponent (lit "e" ++ (if (0 <=? e)%Z then lit "+" else lit "-")
                      ++ show_N (Z.to_N (Z.abs e))) = Some e.
Proof.
  destruct (show_N_spec (Z.to_N (Z.abs e))) as (Ha & Hv & Hne).
  assert (sign_text (if (0 <=? e)%Z then lit "+" else lit "-")) as Hs
    by (unfold sign_text; destruct (0 <=? e)%Z; vm_compute; auto).
  assert (forall x, lit "e" ++ x = 101%N :: x) as Hx by done. rewrite !Hx.
  split; [constructor; [by left|done|done]|]. cbn [parse_exponent].
  replace ((101 =? 101)%N || (101 =? 69)%N) with true by done.
  set (d := show_N _) in *. set (sgn := if (0 <=? e)%Z then _ else _) in *.
  assert (opt_sign (sgn ++ d) = (sgn, d)) as ->.
  { apply opt_sign_app; [done|]. intros c s' Hd. rewrite Hd in Ha. cbn in Ha.
    apply andb_prop in Ha as [Hc _]. by destruct (digit_not_special c Hc) as (? & ? & _). }
  pose proof (span_digits_app d [] Ha eq_refl) as Hsp. rewrite app_nil_r in Hsp. rewrite Hsp.
  destruct d as [|c d'] eqn:Ed; [done|]. cbn [is_empty negb andb]. rewrite <- Ed in *.
  rewrite Hv. unfold signed, is_minus, sgn. destruct (Z.leb_spec 0 e).
  - change (str_eqb (lit "+") (lit "-")) with false. f_equal. lia.
  - change (str_eqb (lit "-") (lit "-")) with true. f_equal. lia.
Qed.

(** Trailing zeros, read with the exponent. *)
Lemma of_decimal_zeros m e :
  (0 <= e)%Z -> f64_of_decimal false (m * 10 ^ Z.to_N e) 0 = f64_of_decimal false m e.
Proof.
  intros He. unfold f64_of_decimal. destruct m as [|p]; [done|].
  assert (exists q, (Npos p * 10 ^ Z.to_N e)%N = Npos q) as [q Hq].
  { destruct (Npos p * 10 ^ Z.to_N e)%N eqn:E; [|by eexists].
    apply N.eq_mul_0 in E as [?|E]; [done|]. by apply N.pow_nonzero in E. }
  rewrite Hq. replace (0 <=? e)%Z with true by (symmetry; by apply Z.leb_le).
  assert (Z.pos p * 10 ^ e = Z.pos q)%Z as ->.
  { change (Z.pos p) with (Z.of_N (Npos p)). change (Z.pos q) with (Z.of_N (Npos q)).
    rewrite <- Hq, N2Z.inj_mul, N2Z.inj_pow, Z2N.id by done. done. }
  change (10 ^ 0)%Z with 1%Z. by rewrite Z.mul_1_r.
Qed.

(** The four layouts all read back as the decimal number they lay out. *)
Lemma js_body_reads s n :
  digits_text s -> (0 < length s) ->
  f64_from_str (js_body s n)
    = Some (f64_of_decimal false (digits_value s) (n - Z.of_nat (length s))).
Proof.
  intros [Hne Hs] Hlen. unfold js_body. set (k := Z.of_nat (length s)).
  destruct ((k <=? n) && (n <=? 21))%Z eqn:E1; [|destruct ((0 <? n) && (n <=? 21))%Z eqn:E2;
    [|destruct ((-6 <? n) && (n <=? 0))%Z eqn:E3]].
  - apply andb_prop in E1 as [E1%Z.leb_le _].
    pose proof (read_digits (s ++ zeros (n - k)) [] 0) as Hr. rewrite app_nil_r in Hr.
    rewrite Hr; [|split; [by destruct s|by rewrite all_digits_app, Hs, zeros_digits]|constructor|done].
    rewrite digits_value_app, digits_value_zeros, N.add_0_r.
    unfold zeros. rewrite repeat_length. rewrite <- (of_decimal_zeros _ (n - k)) by lia.
    by replace (N.of_nat (Z.to_nat (n - k))) with (Z.to_N (n - k)) by lia.
  - apply andb_prop in E2 as [E2%Z.ltb_lt E2'%Z.leb_le].
    apply andb_false_iff in E1 as [E1%Z.leb_gt|E1%Z.leb_gt]; [|lia].
    assert (Z.to_nat n < length s) as Hn by lia.
    pose proof (read_point (take (Z.to_nat n) s) (drop (Z.to_nat n) s) [] 0) as Hr.
    rewrite app_nil_r, take_drop in Hr. rewrite Hr; [| | |constructor|done].
    + rewrite length_drop. do 2 f_equal. lia.
    + split; [|by rewrite <- (take_drop (Z.to_nat n) s), all_digits_app in Hs;
                apply andb_prop in Hs as [? _]].
      destruct s; [done|]. destruct (Z.to_nat n) eqn:En; [lia|done].
    + rewrite <- (take_drop (Z.to_nat n) s), all_digits_app in Hs. by apply andb_prop in Hs as [_ ?].
  - apply andb_prop in E3 as [E3%Z.ltb_lt E3'%Z.leb_le].
    pose proof (read_point (lit "0") (zeros (- n) ++ s) [] 0) as Hr. rewrite app_nil_r in Hr.
    assert (forall x, lit "0." ++ x = lit "0" ++ lit "." ++ x) as Hx by done. rewrite Hx, Hr;
      [|done|by rewrite all_digits_app, zeros_digits, Hs|constructor|done].
    rewrite !digits_value_app, digits_value_zeros, length_app. unfold zeros.
    rewrite repeat_length. change (digits_value (lit "0")) with 0%N.
    rewrite !N.mul_0_l, !N.add_0_l. do 2 f_equal. lia.
  - destruct (exponent_read (n - 1)) as [He Hz]. destruct (k =? 1)%Z eqn:Ek.
    + apply Z.eqb_eq in Ek. rewrite (read_digits s _ _ (conj Hne Hs) He Hz). do 2 f_equal. lia.
    + destruct s as [|c s']; [done|]. cbn [take drop]. cbn [all_digits forallb] in Hs.
      apply andb_prop in Hs as [Hc Hs].
      rewrite (read_point [c] s' _ (n - 1)); [|split; [done|]|exact Hs|exact He|exact Hz].
      * cbn [app length] in *. do 2 f_equal. unfold k. cbn [length]. lia.
      * cbn [all_digits forallb]. by rewrite Hc.
Qed.

(** [format_js_number] loses nothing: when the digits and the exponent [{:e}]
    prints a positive number with denote it, its JavaScript form, in any of its four
    layouts, is read back as that number; zero is read back too. *)
Theorem format_js_number_reads_back `{StdText} (x : f64) :
  (x = f64_zero
   \/ exists m e, x = S754_finite false m e
        /\ digits_text (fst (lower_exp x))
        /\ f64_of_decimal false (digits_value (fst (lower_exp x)))
             (snd (lower_exp x) + 1 - Z.of_nat (length (fst (lower_exp x)))) = x) ->
  f64_from_str (format_js_number x) = Some x.
Proof.
  intros [-> |(m & e & -> & Hd & Hx)]; [by_compute|].
  unfold format_js_number. destruct (lower_exp (S754_finite false m e)) as [s exp]. cbn [fst snd] in *.
  rewrite js_body_reads; [by rewrite Hx|done|]. destruct Hd as [Hne _]. destruct s; [done|simpl; lia].
Qed.

(** The digits of two numbers. *)
#[export] Instance sample_std_text : StdText := {|
  to_uppercase := map (fun c => if is_ascii_lowercase c then (c - 32)%N else c);
  lower_exp := fun x =>
    if f64_eqb x (f64_of_Z 30) then (lit "3", 1%Z)
    else if f64_eqb x (f64_of_decimal false 25 (-9)) then (lit "25", (-8)%Z)
    else (lit "0", 0%Z);
  fixed2 _ := lit "0.50";
|}.

Lemma format_js_number_reads_back_witness :
  format_js_number (f64_of_Z 30) = lit "30"
  /\ f64_from_str (format_js_number (f64_of_Z 30)) = Some (f64_of_Z 30)
  /\ format_js_number (f64_of_decimal false 25 (-9)) = lit "2.5e-8"
  /\ f64_from_str (format_js_number (f64_of_decimal false 25 (-9)))
     = Some (f64_of_decimal false 25 (-9)).
Proof.
  split; [by_compute|]. split; [|split; [by_compute|]];
    apply format_js_number_reads_back; right.
  - exists 8444249301319680%positive, (-48)%Z.
    split; [by_compute|split; [split; [intros Hn; vm_compute in Hn; discriminate Hn|by_compute]|by_compute]].
  - exists 7555786372591432%positive, (-78)%Z.
    split; [by_compute|split; [split; [intros Hn; vm_compute in Hn; discriminate Hn|by_compute]|by_compute]].
Defined.

(** A prompt of more than 50 bytes whose 50th byte is inside a character has no name. *)
Example display_name_panics :
  node_display_name (Prompt (mk_PromptNode (base_default (lit "n") [])
    (repeat 97%N 49 ++ lit "é"))) = Panic.
Proof. by_compute. Qed.
(** So has a command of more than 100 bytes with a character across byte 100. *)
Example tool_call_panics :
  format_tool_call (H := table_json []) (lit "Bash")
    (Some (Object [(lit "command", String (repeat 97%N 99 ++ lit "é"))])) = Panic.
Proof. by_compute. Qed.

(** * What the executors of AI nodes share

    The parts of [execute_loop_node] and [execute_node_internal] that are the same:
    the events of a tool call, the text of an SDK error, the idle timeout; and what
    the metadata of a run says of a gate it is resumed from. *)

(** ** The gate a run is resumed from *)

Definition approval_meta (run : WorkflowRun) : option value :=
  match assoc_get (lit "approval") (metadata run) with
  | Some v => if is_approval_context v then Some v else None
  | None => None
  end.
Definition meta_str (k : string) (m : option value) : option str :=
  m ≫= (fun v => value_get (lit k) v ≫= as_str).
Definition meta_f64 (k : string) (m : option value) : option f64 :=
  m ≫= (fun v => value_get (lit k) v ≫= value_as_f64).
(** The gate is of the type and of the node. *)
Definition gate_matches (type : string) (node_id : str) (run : WorkflowRun) : bool :=
  let m := approval_meta run in
  bool_decide (meta_str "type" m = Some (lit type))
  && bool_decide (meta_str "nodeId" m = Some node_id).

(** ** Streams *)

(** The idle timeout of a node, in milliseconds. *)
Definition effective_idle_timeout (b : DagNodeBase) : N :=
  match idle_timeout b with Some ms => f64_to_u64 ms | None => STEP_IDLE_TIMEOUT_MS end.

Definition is_stream (m : StreamingMode) : bool := match m with Stream => true | Batch => false end.
Definition is_batch (m : StreamingMode) : bool := negb (is_stream m).

(** What a chunk does to the stream: it goes on, it is done, or the pass throws. *)
Inductive flow : Type := Go | Stop | Throw (msg : str).

(** The last tool that started: its name and when. *)
Abbreviation tool_start := (option (str * N)).

(** [tool_completed] for the tool before. *)
Definition complete_tool (node_id : str) (prev : tool_start) (now : N) : proc unit :=
  match prev with
  | None => mret tt
  | Some (tool_name, started_at) =>
      let dur_ms := millis_between started_at now in
      _ ← bus (lit "tool_completed") node_id None None None (Some dur_ms);
      emit_typed_event ToolCompleted node_id
        [(lit "tool_name", String tool_name); (lit "duration_ms", json_N dur_ms)]
  end.
(** [tool_completed] for the last tool: the clock is read only when there is one. *)
Definition complete_last_tool (node_id : str) (prev : tool_start) : proc unit :=
  match prev with
  | None => mret tt
  | Some _ => now ← ask Now; complete_tool node_id prev now
  end.

(** A result that is an error, other than the subtype [success]; its text after
    [SDK returned]. *)
Definition is_sdk_error (r : ResultChunk) : bool :=
  bool_decide (rc_is_error r = Some true)
  && negb (bool_decide (rc_error_subtype r = Some (lit "success"))).
Definition sdk_error_text (r : ResultChunk) : str :=
  default (lit "unknown") (rc_error_subtype r)
  ++ match rc_errors r with
     | Some e => if is_empty e then [] else lit " — " ++ join (lit "; ") e
     | None => []
     end.

Section Tools.
Context `{SerdeJson} `{UnicodeCase} `{StdText}.

(** The tool call as the platform shows it, in streaming mode; [loop] leaves out an
    empty text. *)
Definition show_tool_call (node_id tool_name : str) (tool_input : option value)
    (tool_call_id : option str) (skip_empty : bool) : proc unit :=
  tool_msg ← pure_step (format_tool_call tool_name tool_input);
  let meta := Object [(lit "category", String (lit "tool_call_formatted"))] in
  _ ← (if skip_empty && is_empty tool_msg then mret tt
       else _ ← send_text tool_msg node_id (Some meta); mret tt);
  ask (SendStructured (Tool tool_name tool_input tool_call_id)).
End Tools.

(** A result that failed with nothing but an error, a cost and what was output. *)
Definition failed_result (output : str) (cost : option f64) (error : str) : NodeExecutionResult :=
  mk_NodeExecutionResult Exec_Failed_ output None None (Some error) cost None.
