(* ===== verification/Beats.v ===== *)
(** * Beats

    The calls of a node executor that matter to what it does next: the status of the run,
    the queries to the provider, the end of a subprocess and the pauses of the run.  A
    process is related to its beats by [beating]; calls that are no beats are skipped. *)

From S2P Require Import Prelude Float64 Json StdModel Regex DagNode Workflow ExecutorShared DagCore.
From S2P Require Import DagRun RunStore Provider NodeProc NodeStream.

Inductive beat : Type :=
| Status (answer : result str (option WorkflowRunStatus))
| Query (prompt : str) (resume_session : option str) (stream : list MessageChunk * StreamEnd)
| Child (answer : option ChildEnd)
| Pause (ctx : ApprovalContext) (answer : result str unit).

Definition beat_at (e : event) : option beat :=
  let '(mk_event c r) := e in
  match c return ret c -> option beat with
  | GetRunStatus => fun r => Some (Status r)
  | SendQuery _ prompt _ resume _ _ => fun r => Some (Query prompt resume r)
  | WaitChild _ => fun r => Some (Child r)
  | PauseWorkflowRun ctx => fun r => Some (Pause ctx r)
  | _ => fun _ => None
  end r.
Definition beats (tr : trace) : list beat := omap beat_at tr.

(** A call that is not a beat. *)
Definition silent (c : call) : Prop :=
  match c with
  | GetRunStatus | SendQuery _ _ _ _ _ _ | WaitChild _ | PauseWorkflowRun _ => False
  | _ => True
  end.

Lemma beats_app t1 t2 : beats (t1 ++ t2) = beats t1 ++ beats t2.
Proof. apply omap_app. Qed.
Lemma beats_silent tr : Forall (fun e => silent (ev_call e)) tr -> beats tr = [].
Proof. induction 1 as [|[c r] tr Hc _ IH]; [done|]. unfold beats in *. by destruct c. Qed.

Lemma beats_split tr pre b post :
  beats tr = pre ++ b :: post ->
  exists t1 e t2, tr = t1 ++ e :: t2 /\ beats t1 = pre /\ beat_at e = Some b.
Proof.
  revert pre. induction tr as [|e tr IH]; intros pre; [by intros ?%app_cons_not_nil|].
  unfold beats in *. cbn [omap list_omap]. destruct (beat_at e) as [b'|] eqn:He.
  - destruct pre as [|b2 pre]; intros [= -> Htr]; [by exists [], e, tr|].
    destruct (IH pre Htr) as (t1 & e' & t2 & -> & <- & Hb). exists (e :: t1), e', t2.
    cbn [omap list_omap app]. by rewrite He.
  - intros Htr. destruct (IH pre Htr) as (t1 & e' & t2 & -> & <- & Hb).
    exists (e :: t1), e', t2. cbn [omap list_omap app]. by rewrite He.
Qed.

(** The number of queries of some beats. *)
Fixpoint count_queries (bs : list beat) : nat :=
  match bs with
  | [] => 0
  | Query _ _ _ :: rest => S (count_queries rest)
  | _ :: rest => count_queries rest
  end.
Lemma count_queries_app bs bs' : count_queries (bs ++ bs') = count_queries bs + count_queries bs'.
Proof. induction bs as [|[] bs IH]; simpl; auto. Qed.

(** Whatever the answers, the beats of [p] and its result are related by [R]. *)
Definition beating {A} (p : proc A) (R : list beat -> outcome A -> Prop) : Prop :=
  always p (fun tr o => R (beats tr) o).
(** A process without a beat that returns a value with [P], or panics because of [N]. *)
Definition silently {A} (p : proc A) (P : A -> Prop) (N : Prop) : Prop :=
  only_calls silent p /\ always p (fun _ o => match o with Ret a => P a | Panic => N end).

Lemma beating_mono {A} (p : proc A) (R S : list beat -> outcome A -> Prop) :
  (forall bs o, R bs o -> S bs o) -> beating p R -> beating p S.
Proof. intros HRS. apply always_mono. auto. Qed.

Lemma beating_exec {A} (p : proc A) R w past :
  beating p R -> R (beats (fst (exec w past p))) (snd (exec w past p)).
Proof. apply (always_exec p (fun tr o => R (beats tr) o)). Qed.
Lemma beating_done {A} (a : A) (R : list beat -> outcome A -> Prop) :
  R [] (Ret a) -> beating (mret a) R.
Proof. done. Qed.

Lemma pure_then {A B} (a : A) (f : A -> proc B) R :
  beating (f a) R -> beating (pure_step (Ret a) ≫= f) R.
Proof. done. Qed.

Lemma beating_bind {A B} (p : proc A) (f : A -> proc B) R :
  beating p (fun bs o => match o with
                         | Ret a => beating (f a) (fun bs' o' => R (bs ++ bs') o')
                         | Panic => R bs Panic
                         end) ->
  beating (p ≫= f) R.
Proof.
  intros H. unfold beating. rewrite always_bind. eapply always_mono, H.
  intros tr [a|]; [|done]. apply always_mono. intros tr' o. by rewrite beats_app.
Qed.

Lemma silently_then {A B} (p : proc A) (f : A -> proc B) (P : A -> Prop) (N : Prop) R :
  silently p P N -> (N -> R [] Panic) -> (forall a, P a -> beating (f a) R) -> beating (p ≫= f) R.
Proof.
  intros [Hs Hp] Hpanic Hf. apply beating_bind. eapply always_mono, always_and, Hp; [|exact Hs].
  intros tr o [->%beats_silent Ho]. destruct o as [a|]; [by apply Hf|by apply Hpanic].
Qed.
(** The same for a process that does not panic. *)
Lemma gives_silent_then {A B} (p : proc A) (f : A -> proc B) (P : A -> Prop) R :
  only_calls silent p -> gives p P -> (forall a, P a -> beating (f a) R) -> beating (p ≫= f) R.
Proof.
  intros Hs Hp Hf. apply beating_bind. eapply always_mono, always_and, Hp; [|exact Hs].
  intros tr o (->%beats_silent & a & -> & Ha). by apply Hf.
Qed.
Lemma silent_then {A B} (p : proc A) (f : A -> proc B) R :
  only_calls silent p -> gives p (fun _ => True) -> (forall a, beating (f a) R) ->
  beating (p ≫= f) R.
Proof. intros Hs Hp Hf. eapply gives_silent_then; [done..|]. intros a _. apply Hf. Qed.
Lemma silent_ends {A} (p : proc A) (P : A -> Prop) (R : list beat -> outcome A -> Prop) :
  only_calls silent p -> gives p P -> (forall a, P a -> R [] (Ret a)) -> beating p R.
Proof.
  intros Hs Hp HR. eapply always_mono, always_and, Hp; [|exact Hs].
  intros tr o (->%beats_silent & a & -> & Ha). by apply HR.
Qed.

Lemma ask_then {B} c (f : ret c -> proc B) R :
  silent c -> (forall r, beating (f r) R) -> beating (ask c ≫= f) R.
Proof. intros Hc. apply silent_then; [by apply node_only_ask|by apply node_gives_ask]. Qed.

Lemma status_then {B} (f : ret GetRunStatus -> proc B) R :
  (forall r, beating (f r) (fun bs o => R (Status r :: bs) o)) -> beating (ask GetRunStatus ≫= f) R.
Proof. intros Hf r. apply Hf. Qed.

Lemma silently_bind {A B} (p : proc A) (f : A -> proc B) (P : A -> Prop) (Q : B -> Prop) (N : Prop) :
  silently p P N -> (forall a, P a -> silently (f a) Q N) -> silently (p ≫= f) Q N.
Proof.
  intros [Hs Hr] Hf. split; [unfold only_calls|]; rewrite always_bind;
    (eapply always_mono; [|exact (always_and _ _ _ Hs Hr)]); intros tr [a|] [Htr Ha]; try done.
  - eapply always_mono, (proj1 (Hf a Ha)). intros tr' o Htr'. by apply Forall_app.
  - by apply Hf.
Qed.
Lemma silently_done {A} (a : A) (P : A -> Prop) (N : Prop) : P a -> silently (Done a) P N.
Proof. intros HP. split; [constructor|exact HP]. Qed.
Lemma silently_pure {A} (o : outcome A) (P : A -> Prop) (N : Prop) :
  (forall a, o = Ret a -> P a) -> (o = Panic -> N) -> silently (pure_step o) P N.
Proof. intros HP HN. destruct o as [a|]; (split; [constructor|]); [by apply HP|by apply HN]. Qed.
Lemma silently_skip {A B} (p : proc A) (f : A -> proc B) (Q : B -> Prop) (N : Prop) :
  silently p (fun _ => True) N -> (forall a, silently (f a) Q N) -> silently (p ≫= f) Q N.
Proof. intros Hp Hf. eapply silently_bind; [exact Hp|]. intros a _. apply Hf. Qed.
Lemma silently_any {A} (p : proc A) (N : Prop) :
  only_calls silent p -> gives p (fun _ => True) -> silently p (fun _ => True) N.
Proof. intros Hp Hg. split; [done|]. eapply always_mono, Hg. by intros tr o (a & -> & _). Qed.
Lemma silently_weaken {A} (p : proc A) (P : A -> Prop) (N N' : Prop) :
  (N -> N') -> silently p P N -> silently p P N'.
Proof. intros HN [Hs Hp]. split; [done|]. eapply always_mono, Hp. intros tr [a|]; auto. Qed.

Ltac silent_steps :=
  repeat first
    [ progress intros
    | apply only_done | apply only_pure
    | apply node_only_ask; exact I
    | apply only_bind
    | case_match ].

(** ** Streams *)

(** What is heard of a stream: the texts up to the first result, and that result. *)
Fixpoint heard (chunks : list MessageChunk) : list str * option ResultChunk :=
  match chunks with
  | [] => ([], None)
  | ResultMsg r :: _ => ([], Some r)
  | Assistant content _ :: rest => let '(ts, r) := heard rest in (content :: ts, r)
  | _ :: rest => heard rest
  end.
Definition went_idle (chunks : list MessageChunk) (ending : StreamEnd) : bool :=
  match snd (heard chunks), ending with None, IdleTimeout => true | _, _ => false end.
Definition continues (s : option WorkflowRunStatus) : bool :=
  should_continue_streaming_for_status (workflow_run_status_str <$> s).

(** ** Silent steps the executors share *)

Section Silent.
Context `{SerdeJson} `{UnicodeCase} `{StdText}.
Lemma notify_gives text id : gives (notify text id) (fun _ => True).
Proof. unfold notify, send_text. gives_steps. Qed.
Lemma notify_silent text id : only_calls silent (notify text id).
Proof. unfold notify, send_text. silent_steps. Qed.
Lemma complete_tool_silent id t now : only_calls silent (complete_tool id t now).
Proof. unfold complete_tool, bus, emit_typed_event. silent_steps. Qed.
Lemma complete_tool_gives id t now : gives (complete_tool id t now) (fun _ => True).
Proof. unfold complete_tool, bus, emit_typed_event. gives_steps. Qed.
Lemma complete_last_tool_silent id t : only_calls silent (complete_last_tool id t).
Proof. unfold complete_last_tool. destruct t; [|apply only_done]. silent_steps. apply complete_tool_silent. Qed.
Lemma complete_last_tool_gives id t : gives (complete_last_tool id t) (fun _ => True).
Proof. unfold complete_last_tool. destruct t; [|by apply gives_done]. gives_steps; apply complete_tool_gives. Qed.
End Silent.
