(* ===== verification/AiNode.v ===== *)
(** * AI nodes

    [execute_node_internal] of [dag_executor.rs]: a prompt is built, sent to a provider,
    and its stream consumed, with a check of the run's status and a heartbeat at
    intervals; structured output is validated and asked for again; then the node
    completes or fails.

    The two maps that throttle the checks are keyed by run and node, so that only the
    executions of one node touch an entry: the entry is handed to the executor and
    handed back.  Serializing a JSON value does not fail, so the branch for that is
    left out. *)

From S2P Require Import Prelude Float64 Json StdModel Regex DagNode Workflow OutputRef ExecutorShared DagCore.
From S2P Require Import DagRun RunStore StructuredOutput Provider NodeProc NodeStream.

(** The entries of [LAST_NODE_CANCEL_CHECK] and [LAST_NODE_ACTIVITY_UPDATE]. *)
Record Throttle : Type := mk_Throttle { last_check : option N; last_update : option N }.
Definition no_throttle : Throttle := mk_Throttle None None.

(** What results report and later passes keep. *)
Record Reported : Type := mk_Reported {
  new_session_id : option str;
  node_stop_reason : option str;
  node_num_turns : option N;
  node_model_usage : option (gmap str value);
}.

(** The state of a stream pass. *)
Record AiPass : Type := mk_AiPass {
  node_output_text : str;
  structured_output : option value;
  batch_messages : list str;
  pass_cost_usd : option f64;
  node_idle_timed_out : bool;
  aborted : bool;
  ai_tool_started : tool_start;
  reported : Reported;
  throttle : Throttle;
}.

Definition with_text (text : str) (batch : list str) (p : AiPass) : AiPass :=
  mk_AiPass text (structured_output p) batch (pass_cost_usd p) (node_idle_timed_out p) (aborted p)
    (ai_tool_started p) (reported p) (throttle p).
Definition with_tool (t : tool_start) (p : AiPass) : AiPass :=
  mk_AiPass (node_output_text p) (structured_output p) (batch_messages p) (pass_cost_usd p)
    (node_idle_timed_out p) (aborted p) t (reported p) (throttle p).
Definition with_throttle (t : Throttle) (p : AiPass) : AiPass :=
  mk_AiPass (node_output_text p) (structured_output p) (batch_messages p) (pass_cost_usd p)
    (node_idle_timed_out p) (aborted p) (ai_tool_started p) (reported p) t.
Definition with_abort (idle : bool) (p : AiPass) : AiPass :=
  mk_AiPass (node_output_text p) (structured_output p) (batch_messages p) (pass_cost_usd p)
    idle true (ai_tool_started p) (reported p) (throttle p).
Definition with_structured (o : option value) (text : str) (p : AiPass) : AiPass :=
  mk_AiPass text o (batch_messages p) (pass_cost_usd p) (node_idle_timed_out p) (aborted p)
    (ai_tool_started p) (reported p) (throttle p).

(** What a result leaves. *)
Definition or_else {A} (a b : option A) : option A := match a with Some _ => a | None => b end.
Definition report (r : ResultChunk) (o : Reported) : Reported :=
  mk_Reported (or_else (rc_session_id r) (new_session_id o))
    (or_else (rc_stop_reason r) (node_stop_reason o))
    (or_else (rc_num_turns r) (node_num_turns o))
    (or_else (rc_model_usage r) (node_model_usage o)).
Definition with_result (r : ResultChunk) (p : AiPass) : AiPass :=
  mk_AiPass (node_output_text p) (or_else (rc_structured_output r) (structured_output p))
    (batch_messages p) (or_else (rc_cost r) (pass_cost_usd p)) (node_idle_timed_out p) (aborted p)
    None (report r (reported p)) (throttle p).

Definition elapsed_ms (last : option N) (now : N) : N :=
  match last with Some t => millis_between t now | None => u64_max end.

(** [should_fork_session] and the options it changes. *)
Definition should_fork_session (resume_session_id : option str) : bool :=
  match resume_session_id with Some _ => true | None => false end.
Definition fork (o : SendQueryOptions) : SendQueryOptions :=
  mk_SendQueryOptions (so_model o) (so_system_prompt o) (so_output_format o) (so_env o)
    (so_max_budget_usd o) (so_fallback_model o) (Some true) (so_persist_session o)
    (so_native_tools o) (so_node_config o) (so_assistant_config o).

Section AiNode.
Context `{RegexEngine} `{SerdeJson} `{UnicodeCase} `{StdText} `{StructuredText} `{HashMapOrder}.
Context {agent : Type}.
Variable registry : Registry agent.
Variable env : NodeEnv.
Variable node : DagNode.
Variable provider : str.
Variable node_options : option SendQueryOptions.
Variable node_outputs : gmap str NodeOutput.
Variable resume_session_id : option str.
Variable configured_command_folder : option str.

Let run := ne_run env.
Let rid := run_id run.
Let nid := node_id node.
Let mode := ne_streaming_mode env.
Let idle_ms := effective_idle_timeout (base node).

Definition effective_node_options : SendQueryOptions :=
  let opts := default default_options node_options in
  if should_fork_session resume_session_id then fork opts else opts.
Let opts := effective_node_options.

(** ** The watch over the run *)

(** A tick of the stream: the status every ten seconds, the heartbeat every minute;
    [true] stops the stream. *)
Definition cancel_check (now : N) (p : AiPass) : proc (AiPass * bool) :=
  if (CANCEL_CHECK_INTERVAL_MS <? elapsed_ms (last_check (throttle p)) now)%N then
    let p := with_throttle (mk_Throttle (Some now) (last_update (throttle p))) p in
    status ← ask GetRunStatus;
    mret (match status with
          | Ok s =>
              if should_continue_streaming_for_status (workflow_run_status_str <$> s)
              then (p, false) else (with_abort (node_idle_timed_out p) p, true)
          | Err _ => (p, false)
          end)
  else mret (p, false).
Definition heartbeat (now : N) (p : AiPass) : proc AiPass :=
  if (ACTIVITY_HEARTBEAT_INTERVAL_MS <? elapsed_ms (last_update (throttle p)) now)%N then
    _ ← ask UpdateActivity;
    mret (with_throttle (mk_Throttle (last_check (throttle p)) (Some now)) p)
  else mret p.
Definition tick (p : AiPass) : proc (AiPass * bool) :=
  now ← ask Now;
  r ← cancel_check now p;
  match r with
  | (p, true) => mret (p, true)
  | (p, false) => p ← heartbeat now p; mret (p, false)
  end.

(** ** The chunks *)

Definition batch_text (l : list str) : str := join (newline ++ newline) l.

Definition ai_assistant (content : str) (flush : option bool) (p : AiPass) : proc AiPass :=
  let text := node_output_text p ++ content in
  batch ← (if is_stream mode || bool_decide (flush = Some true) then
             batch ← (if negb (is_stream mode) && negb (is_empty (batch_messages p))
                      then _ ← notify (batch_text (batch_messages p)) nid; mret []
                      else mret (batch_messages p));
             _ ← notify content nid;
             mret batch
           else mret (batch_messages p ++ [content]));
  _ ← log_assistant rid content;
  mret (with_text text batch p).

Definition ai_tool (tool_name : str) (tool_input : option value) (tool_call_id : option str)
    (p : AiPass) : proc AiPass :=
  now ← ask Now;
  _ ← complete_tool nid (ai_tool_started p) now;
  _ ← bus (lit "tool_started") nid None None None None;
  _ ← (if is_stream mode then show_tool_call nid tool_name tool_input tool_call_id false
       else mret tt);
  _ ← log_tool rid tool_name tool_input;
  _ ← emit_typed_event ToolCalled nid
        [(lit "tool_name", String tool_name); (lit "tool_input", default (Object []) tool_input)];
  mret (with_tool (Some (tool_name, now)) p).

(** The error a result stands for. *)
Definition budget_error : str :=
  lit "Node '" ++ nid ++ lit "' exceeded cost cap"
  ++ match so_max_budget_usd opts with Some c => lit " of $" ++ fixed2 c | None => [] end
  ++ lit ".".
Definition result_error (r : ResultChunk) : option str :=
  if bool_decide (rc_is_error r = Some true)
     && bool_decide (rc_error_subtype r = Some (lit "error_max_budget_usd"))
  then Some budget_error
  else if is_sdk_error r
  then Some (lit "Node '" ++ nid ++ lit "' failed: SDK returned " ++ sdk_error_text r)
  else None.

Definition ai_system (configured_mcp_names : gset str) (content : str) : proc unit :=
  if starts_with MCP_FAILURE_PREFIX content then
    let entries := parse_mcp_failure_server_names content in
    let workflow_failures :=
      List.filter (fun e => bool_decide (mcp_name e ∈ configured_mcp_names)) entries in
    if negb (is_empty workflow_failures)
    then notify (MCP_FAILURE_PREFIX ++ join (lit ", ") (map mcp_segment workflow_failures)) nid
    else mret tt
  else if starts_with (lit "⚠") content then notify content nid
  else mret tt.

Definition ai_chunk (configured_mcp_names : gset str) (m : MessageChunk) (p : AiPass)
  : proc (AiPass * flow) :=
  match m with
  | Assistant content flush => p ← ai_assistant content flush p; mret (p, Go)
  | Tool tool_name tool_input tool_call_id =>
      p ← ai_tool tool_name tool_input tool_call_id p; mret (p, Go)
  | ToolResult tool_name tool_output tool_call_id =>
      _ ← (if is_stream mode
           then ask (SendStructured (ToolResult tool_name tool_output tool_call_id)) else mret tt);
      mret (p, Go)
  | ResultMsg r =>
      _ ← complete_last_tool nid (ai_tool_started p);
      mret (with_result r p, match result_error r with Some e => Throw e | None => Stop end)
  | System content => _ ← ai_system configured_mcp_names content; mret (p, Go)
  | _ => mret (p, Go)
  end.

(** The ['stream] loop and the error it leaves. *)
Fixpoint ai_stream (names : gset str) (chunks : list MessageChunk) (ending : StreamEnd) (p : AiPass)
  : proc (AiPass * option str) :=
  match chunks with
  | [] => mret (match ending with IdleTimeout => with_abort true p | Closed => p end, None)
  | m :: rest =>
      t ← tick p;
      match (t : AiPass * bool) with
      | (p, true) => mret (p, None)
      | (p, false) =>
          r ← ai_chunk names m p;
          match (r : AiPass * flow) with
          | (p, Go) => ai_stream names rest ending p
          | (p, Stop) => mret (p, None)
          | (p, Throw e) => mret (p, Some e)
          end
      end
  end.

(** ** Failures *)

Definition ai_failed (output : str) (p : AiPass) (cost : option f64) (error : str)
  : NodeExecutionResult :=
  mk_NodeExecutionResult Exec_Failed_ output None (new_session_id (reported p)) (Some error) cost None.

Definition cancelled_by_user : str := lit "Cancelled by user".
Definition was_cancelled (p : AiPass) : bool := aborted p && negb (node_idle_timed_out p).

(** A stream that threw; [node_display] is the name the node is shown under. *)
Definition stream_failed (node_display err : str) (p : AiPass) : proc NodeExecutionResult :=
  if was_cancelled p
  then mret (ai_failed (node_output_text p) p (pass_cost_usd p) cancelled_by_user)
  else
    _ ← log_node_error rid nid err;
    _ ← emit_workflow_event (lit "node_failed") nid [(lit "error", String err)];
    _ ← bus (lit "node_failed") nid (Some node_display) None (Some err) None;
    mret (ai_failed [] p (pass_cost_usd p) err).

(** ** Validate and ask again *)

Definition max_reasks (caps : ProviderCapabilities) : N :=
  if bool_decide (cap_structured_output caps = BestEffort)
     && (match so_output_format opts with Some _ => true | None => false end)
  then STRUCTURED_OUTPUT_MAX_REASKS else 0%N.

Definition emit_reask (attempt max : N) : proc unit :=
  if (attempt =? 1)%N
  then notify (lit "⚠️ Node `" ++ nid
               ++ lit "`: structured output didn't match the schema — asking the model to correct it (up to "
               ++ show_N max ++ lit " attempt(s)).") nid
  else mret tt.

Definition invalid_error (errors : list str) : str :=
  lit "Node '" ++ nid
  ++ lit "': output_format declared but the provider's structured output failed schema validation: "
  ++ join (lit "; ") errors.
Definition missing_error (p : AiPass) : str :=
  if node_idle_timed_out p
  then lit "Node '" ++ nid ++ lit "': timed out (no output for " ++ idle_timeout_minutes idle_ms
       ++ lit " min) before producing the required structured output."
  else lit "Node '" ++ nid
       ++ lit "': output_format declared but the provider returned no schema-valid structured output. The model likely replied with prose, refused, or emitted unparseable JSON.".
Definition uncompilable_warning (compile_msg : str) : str :=
  lit "⚠️ Node '" ++ nid ++ lit "': its `output_format` schema could not be compiled (" ++ compile_msg
  ++ lit "), so the structured output was NOT validated against it. Fix the schema to enforce it.".

(** What a pass amounts to: it is kept, it fails the node, or it is asked again for
    these errors. *)
Inductive verdict : Type :=
| Keep (p : AiPass)
| Reject (error : str)
| Reask (errors : list str).

Definition json_text (v : value) : str := match v with String s => s | _ => to_string v end.

Definition judge (can_reask : bool) (p : AiPass) : proc verdict :=
  match so_output_format opts with
  | None => mret (Keep p)
  | Some format =>
      match structured_output p with
      | Some so =>
          let '(validation, compile_error) := validate_structured_output so (Object (schema format)) in
          _ ← match compile_error with
              | Some msg => notify (uncompilable_warning msg) nid
              | None => mret tt
              end;
          mret (match validation with
                | Valid => Keep (with_structured (Some so) (json_text so) p)
                | Invalid errors => if can_reask then Reask errors else Reject (invalid_error errors)
                end)
      | None =>
          mret (if can_reask then Reask [lit "no JSON object was found in the response"]
                else Reject (missing_error p))
      end
  end.

(** A pass starts afresh, except for what is kept across passes. *)
Definition fresh_pass (p : AiPass) : AiPass :=
  mk_AiPass [] None [] None false (aborted p) None (reported p) (throttle p).

(** The ['reask] loop, with [retries] attempts beyond this one: [max_reasks] minus
    [reask_attempt].  It ends with a pass to complete and the cost so far, or with a
    failed node. *)
Fixpoint reask (node_display : str) (names : gset str) (max : N) (retries : nat) (prompt : str)
    (cost : option f64) (p : AiPass) : proc ((AiPass * option f64) + (NodeExecutionResult * AiPass)) :=
  let attempt := (max - N.of_nat retries)%N in
  s ← ask (SendQuery provider prompt (ne_cwd env)
             (if (attempt =? 0)%N then resume_session_id else None) (Some opts) idle_ms);
  r ← ai_stream names (fst s) (snd s) (fresh_pass p);
  match (r : AiPass * option str) with
  | (p, Some err) => x ← stream_failed node_display err p; mret (inr (x, p))
  | (p, None) =>
      let cost := match pass_cost_usd p with
                  | Some c => Some (f64_add (default f64_zero cost) c)
                  | None => cost
                  end in
      let can_reask := negb (Nat.eqb retries 0) && negb (node_idle_timed_out p) && negb (aborted p) in
      v ← judge can_reask p;
      match (v : verdict), retries with
      | Keep p, _ => mret (inl (p, cost))
      | Reask errors, S retries =>
          _ ← emit_reask (attempt + 1) max;
          reask node_display names max retries (build_reask_prompt prompt errors) cost p
      | Reask errors, O => mret (inr (ai_failed [] p cost (invalid_error errors), p))
      | Reject error, _ => mret (inr (ai_failed [] p cost error, p))
      end
  end.

(** ** Completion *)

Definition idle_notice : str :=
  lit "⚠️ Node `" ++ nid ++ lit "` completed via idle timeout (no output for "
  ++ idle_timeout_minutes idle_ms
  ++ lit " min). The AI likely finished but the subprocess didn't exit cleanly.".
Definition empty_output_error (p : AiPass) : str :=
  if node_idle_timed_out p
  then lit "Node '" ++ nid ++ lit "' timed out with no output (idle for "
       ++ idle_timeout_minutes idle_ms
       ++ lit " min). The provider did not emit any content before the watchdog fired — likely time-to-first-token exceeded the timeout. Consider increasing idle_timeout or reducing prompt size."
  else lit "Node '" ++ nid
       ++ lit "' produced no assistant output. The provider stream closed without yielding content — likely a silent provider rejection or stream interruption.".

Definition says_nothing (p : AiPass) : bool :=
  is_empty (trim (node_output_text p)) && negb (match structured_output p with Some _ => true | None => false end).
Definition option_field {A} (key : string) (f : A -> value) (o : option A) : object :=
  match o with Some a => [(lit key, f a)] | None => [] end.

(** The node failed after its stream; the event carries the duration when given. *)
Definition fail_after (display error : str) (with_log : bool) (event_duration bus_duration : option N)
  : proc unit :=
  _ ← (if with_log then log_node_error rid nid error else mret tt);
  _ ← emit_workflow_event (lit "node_failed") nid
        ((lit "error", String error) :: option_field "duration_ms" json_N event_duration);
  bus (lit "node_failed") nid (Some display) None (Some error) bus_duration.

(** [credit_err] and the output of a node whose text says that credits ran out. *)
Definition finish (display : str) (start : N) (cost : option f64) (p : AiPass)
  : proc NodeExecutionResult :=
  let text := node_output_text p in
  _ ← (if node_idle_timed_out p && negb (says_nothing p) then notify idle_notice nid else mret tt);
  if was_cancelled p then
    now ← ask Now;
    let duration := millis_between start now in
    _ ← fail_after display cancelled_by_user false (Some duration) (Some duration);
    mret (ai_failed text p cost cancelled_by_user)
  else
    _ ← (if negb (is_empty (batch_messages p))
         then notify (match structured_output p, so_output_format opts with
                      | Some _, Some _ => text
                      | _, _ => batch_text (batch_messages p)
                      end) nid
         else mret tt);
    match detect_credit_exhaustion text with
    | Some credit_err =>
        _ ← ask Now;
        _ ← fail_after display credit_err true None None;
        mret (ai_failed text p cost credit_err)
    | None =>
        now ← ask Now;
        let duration := millis_between start now in
        if says_nothing p then
          let empty_err := empty_output_error p in
          _ ← fail_after display empty_err true (Some duration) None;
          mret (ai_failed [] p cost empty_err)
        else
          let o := reported p in
          _ ← log_node_complete rid nid display (Some duration);
          _ ← emit_workflow_event (lit "node_completed") nid
                ([(lit "duration_ms", json_N duration); (lit "node_output", String text)]
                 ++ option_field "cost_usd" json_f64 cost
                 ++ option_field "stop_reason" String (node_stop_reason o)
                 ++ option_field "num_turns" json_N (node_num_turns o)
                 ++ option_field "model_usage" (fun mu => Object (hm_iter mu)) (node_model_usage o));
          _ ← bus (lit "node_completed") nid (Some display) None None (Some duration);
          mret (mk_NodeExecutionResult Exec_Completed_ text (structured_output p)
                  (new_session_id o) None cost
                  (declared_fields_from_schema
                     ((fun f => Object (schema f)) <$> so_output_format opts)))
    end.

(** ** The whole *)

Definition failed_early (error : str) : NodeExecutionResult := failed_result [] None error.

Definition load_prompt : proc (result NodeExecutionResult str) :=
  match node with
  | Command cmd =>
      deps ← ask LoadCommand;
      match @load_command_prompt deps (ne_cwd env) (command cmd) configured_command_folder with
      | Success content => mret (Ok content)
      | Failure _ message =>
          _ ← log_node_error rid nid message;
          _ ← emit_workflow_event (lit "node_failed") nid [(lit "error", String message)];
          _ ← bus (lit "node_failed") nid (Some (command cmd)) None (Some message) None;
          mret (Err (failed_early message))
      end
  | Prompt pn => mret (Ok (prompt pn))
  | _ => mret (Err (failed_early (lit "Node '" ++ nid ++ lit "': not an AI node type")))
  end.

Definition build_prompt (raw_prompt : str) : proc (result NodeExecutionResult str) :=
  match build_prompt_with_context raw_prompt rid (user_message run) (ne_artifacts_dir env)
          (ne_base_branch env) (ne_docs_dir env) (ne_issue_context env) with
  | Err _ =>
      let msg := BaseBranchEmptyError_to_string in
      _ ← notify (lit "Node '" ++ nid ++ lit "' failed: " ++ msg) nid;
      mret (Err (failed_early msg))
  | Ok substituted_prompt =>
      final_prompt ← substitute_refs substituted_prompt node_outputs false None;
      mret (Ok final_prompt)
  end.

Definition no_pass (t : Throttle) : AiPass :=
  mk_AiPass [] None [] None false false None (mk_Reported None None None None) t.

Definition announce : proc str :=
  _ ← log_node_start rid nid (match node with Command c => command c | _ => lit "<inline>" end);
  _ ← emit_workflow_event (lit "node_started") nid
        [(lit "command", match node with Command c => String (command c) | _ => Null end);
         (lit "provider", String provider)];
  node_display ← pure_step (node_display_name node);
  _ ← bus (lit "node_started") nid (Some node_display) None None None;
  mret node_display.

(** [cleanup_throttle_maps]: the entries of the node are removed. *)
Definition cleanup_throttle_maps (t : Throttle) : Throttle := no_throttle.
(** The stream passes and the end of the node; the throttle is left clean. *)
Definition run_prompt (start : N) (node_display : str) (names : gset str) (caps : ProviderCapabilities)
    (final_prompt : str) (t : Throttle) : proc (NodeExecutionResult * Throttle) :=
  let max := max_reasks caps in
  e ← reask node_display names max (N.to_nat max) final_prompt None (no_pass t);
  match (e : (AiPass * option f64) + (NodeExecutionResult * AiPass)) with
  | inr (x, p) => mret (x, cleanup_throttle_maps (throttle p))
  | inl (p, cost) => x ← finish node_display start cost p; mret (x, cleanup_throttle_maps (throttle p))
  end.

Definition execute_node_internal (t : Throttle) : proc (NodeExecutionResult * Throttle) :=
  start ← ask Now;
  names ← match base_mcp (base node) with
          | None => mret ∅
          | Some path =>
              read_to_string ← ask ReadToString;
              mret (load_configured_mcp_server_names read_to_string (Some path) (ne_cwd env))
          end;
  node_display ← announce;
  raw_prompt ← load_prompt;
  match (raw_prompt : result NodeExecutionResult str) with
  | Err x => mret (x, t)
  | Ok raw_prompt =>
      final_prompt ← build_prompt raw_prompt;
      match (final_prompt : result NodeExecutionResult str) with
      | Err x => mret (x, t)
      | Ok final_prompt =>
          match get_provider_capabilities provider registry with
          | Err _ =>
              mret (failed_early (lit "Node '" ++ nid ++ lit "': cannot get capabilities for provider '"
                                  ++ provider ++ lit "'"), t)
          | Ok caps => run_prompt start node_display names caps final_prompt t
          end
      end
  end.
End AiNode.
