(* ===== verification/AiSpec.v ===== *)
(** * What an AI node does

    The runs of [execute_node_internal] as an abstract machine over the answers that
    matter: the streams of its queries and the status of the run read meanwhile. *)

From S2P Require Import Prelude Float64 Json StdModel Regex DagNode Workflow OutputRef ExecutorShared DagCore.
From S2P Require Import DagRun RunTheorems RunStore StructuredOutput Provider NodeProc NodeStream.
From S2P Require Import Beats AiNode.

(** A status read after which the stream goes on; a failed read does not stop it. *)
Definition permits (answer : result str (option WorkflowRunStatus)) : bool :=
  match answer with Ok s => continues s | Err _ => true end.
(** The beats of a stream: status reads, of which only the last may stop it. *)
Inductive watched : list beat -> bool -> Prop :=
| Watched_nil : watched [] false
| Watched_go answer bs stopped :
    permits answer = true -> watched bs stopped -> watched (Status answer :: bs) stopped
| Watched_stop answer : permits answer = false -> watched [Status answer] true.

(** What the chunks leave in a pass. *)
Definition core : Type := str * option value * option f64 * Reported.
Definition core_of (p : AiPass) : core :=
  (node_output_text p, structured_output p, pass_cost_usd p, reported p).
Definition core_after (seen : list MessageChunk) (p : AiPass) : core :=
  let text := node_output_text p ++ concat (fst (heard seen)) in
  match snd (heard seen) with
  | Some r => (text, or_else (rc_structured_output r) (structured_output p),
               or_else (rc_cost r) (pass_cost_usd p), report r (reported p))
  | None => (text, structured_output p, pass_cost_usd p, reported p)
  end.

Section Spec.
Context `{RegexEngine} `{SerdeJson} `{UnicodeCase} `{StdText} `{StructuredText} `{HashMapOrder}.
Context {agent : Type}.
Variable registry : Registry agent.
Variable env : NodeEnv.
Variable node : DagNode.
Variable provider : str.
Variable node_options : option SendQueryOptions.
Variable outs : gmap str NodeOutput.
Variable resume : option str.
Variable folder : option str.

Let opts := effective_node_options node_options resume.

(** ** A stream *)

(** The stream was [chunks]; [stopped] says that a status read stopped it. *)
Definition streamed (p : AiPass) (chunks : list MessageChunk) (ending : StreamEnd) (stopped : bool)
    (r : AiPass * option str) : Prop :=
  let '(p', err) := r in
  let idle := negb stopped && went_idle chunks ending in
  exists seen,
    seen `prefix_of` chunks
    /\ (if stopped then snd (heard seen) = None else seen = chunks)
    /\ core_of p' = core_after seen p
    /\ node_idle_timed_out p' = node_idle_timed_out p || idle
    /\ aborted p' = aborted p || stopped || idle
    /\ err = snd (heard seen) ≫= result_error node node_options resume.

(** A chunk: its part of the pass and what it does to the stream. *)
Definition chunked (m : MessageChunk) (p : AiPass) (r : AiPass * flow) : Prop :=
  let '(p', f) := r in
  core_of p' = core_after [m] p
  /\ node_idle_timed_out p' = node_idle_timed_out p /\ aborted p' = aborted p
  /\ throttle p' = throttle p
  /\ f = match m with
         | ResultMsg r =>
             match result_error node node_options resume r with Some e => Throw e | None => Stop end
         | _ => Go
         end.

Lemma chunked_same m p p' :
  heard [m] = ([], None) -> core_of p' = core_of p ->
  node_idle_timed_out p' = node_idle_timed_out p -> aborted p' = aborted p ->
  throttle p' = throttle p ->
  match m with ResultMsg _ => False | _ => True end -> chunked m p (p', Go).
Proof.
  intros Hm Hc Hi Ha Ht Hg. unfold chunked, core_after. rewrite Hm. cbn [fst snd concat].
  rewrite app_nil_r. split_and!; try done. by destruct m.
Qed.

(** Showing the chunk cuts a text inside a character. *)
Definition cut_short (m : MessageChunk) : Prop :=
  match m with
  | Tool name input _ => ne_streaming_mode env = Stream /\ format_tool_call name input = Panic
  | _ => False
  end.
(** So does a chunk of the stream, before its result. *)
Definition stream_cut_short (chunks : list MessageChunk) : Prop :=
  exists seen m rest, chunks = seen ++ m :: rest /\ snd (heard seen) = None /\ cut_short m.

Lemma ai_chunk_chunked names m p :
  silently (ai_chunk env node node_options resume names m p) (chunked m p) (cut_short m).
Proof.
  destruct m; cbn [ai_chunk]; try (by apply silently_done, chunked_same).
  - eapply (silently_bind _ _ (fun p' => exists batch,
      p' = with_text (node_output_text p ++ content) batch p)).
    + unfold ai_assistant. apply silently_skip.
      { apply silently_any; unfold notify, send_text; [silent_steps|gives_steps]. }
      intros batch. apply silently_skip; [by apply silently_any; [apply node_only_ask|apply node_gives_ask]|].
      intros []. apply silently_done. by exists batch.
    + intros p' [batch ->]. apply silently_done. unfold chunked, core_after. cbn.
      by rewrite app_nil_r.
  - apply silently_skip.
    { apply silently_any; unfold ai_system, notify, send_text; [silent_steps|gives_steps]. }
    intros []. by apply silently_done, chunked_same.
  - apply silently_skip.
    { apply silently_any; [apply complete_last_tool_silent|apply complete_last_tool_gives]. }
    intros []. apply silently_done. unfold chunked, core_after. cbn. by rewrite app_nil_r.
  - eapply (silently_bind _ _ (fun p' => exists t, p' = with_tool t p)).
    + unfold ai_tool. apply silently_skip; [by apply silently_any; [apply node_only_ask|apply node_gives_ask]|].
      intros now. apply silently_skip.
      { apply silently_any; [apply complete_tool_silent|apply complete_tool_gives]. }
      intros []. apply silently_skip; [by apply silently_any; [apply node_only_ask|apply node_gives_ask]|]. intros [].
      apply silently_skip; [case_match; [|by apply silently_done]|].
      { unfold show_tool_call. apply silently_skip; [apply silently_pure; [done|]|].
        { intros Hcut. split; [by destruct (ne_streaming_mode env)|exact Hcut]. }
        intros msg. apply silently_any; unfold send_text; [silent_steps|gives_steps]. }
      intros []. apply silently_skip; [by apply silently_any; [apply node_only_ask|apply node_gives_ask]|]. intros [].
      apply silently_skip; [by apply silently_any; [apply node_only_ask|apply node_gives_ask]|]. intros [].
      apply silently_done. by eexists.
    + intros p' [t ->]. by apply silently_done, chunked_same.
  - apply silently_skip.
    { apply silently_any; [silent_steps|gives_steps]. }
    intros []. by apply silently_done, chunked_same.
Qed.

(** A tick: at most one status read, which says whether the stream stops. *)
Definition ticked (p : AiPass) (bs : list beat) (o : outcome (AiPass * bool)) : Prop :=
  exists p' stop, o = Ret (p', stop)
    /\ core_of p' = core_of p /\ node_idle_timed_out p' = node_idle_timed_out p
    /\ aborted p' = aborted p || stop
    /\ ((bs = [] /\ stop = false) \/ exists answer, bs = [Status answer] /\ stop = negb (permits answer)).

Lemma heartbeat_gives now p (P : AiPass -> Prop) :
  (forall t, P (with_throttle t p)) -> P p -> gives (heartbeat now p) P.
Proof.
  intros Ht Hp. unfold heartbeat. destruct (_ <? _)%N; [|by apply gives_done].
  apply gives_then; [by apply node_gives_ask|]. intros r. by apply gives_done.
Qed.
Lemma heartbeat_silent now p : only_calls silent (heartbeat now p).
Proof. unfold heartbeat. silent_steps. Qed.

Lemma tick_ticked p : beating (tick p) (ticked p).
Proof.
  unfold tick. apply ask_then; [done|]. intros now. apply beating_bind.
  assert (forall q bs, core_of q = core_of p -> node_idle_timed_out q = node_idle_timed_out p ->
    aborted q = aborted p -> (bs = [] \/ exists answer, bs = [Status answer] /\ permits answer = true) ->
    beating (p ← heartbeat now q; mret (p, false)) (fun bs' o => ticked p (bs ++ bs') o)) as Hgo.
  { intros q bs Hc Hi Ha Hbs.
    eapply (gives_silent_then _ _ (fun q' => core_of q' = core_of p
      /\ node_idle_timed_out q' = node_idle_timed_out p /\ aborted q' = aborted p));
      [apply heartbeat_silent|by apply heartbeat_gives|].
    intros q' (Hc' & Hi' & Ha'). apply beating_done. rewrite app_nil_r. exists q', false.
    rewrite orb_false_r. split_and!; try done.
    destruct Hbs as [->|(answer & -> & Hp)]; [by left|right]. exists answer. by rewrite Hp. }
  unfold cancel_check. destruct (_ <? _)%N.
  - apply status_then. intros answer. apply beating_done.
    destruct answer as [x|e]; [|apply Hgo; [done..|]; right; by exists (Err e)].
    change (should_continue_streaming_for_status (workflow_run_status_str <$> x)) with (continues x).
    destruct (continues x) eqn:Hx; [apply Hgo; [done..|]; right; by exists (Ok x)|].
    apply beating_done. cbn [app]. eexists _, true. split; [reflexivity|].
    rewrite orb_true_r. split_and!; try done. right. exists (Ok x). cbn [permits]. by rewrite Hx.
  - apply beating_done. apply (Hgo p []); try done. by left.
Qed.

Lemma heard_cons_go m rest :
  match m with ResultMsg _ => False | _ => True end ->
  heard (m :: rest) = (fst (heard [m]) ++ fst (heard rest), snd (heard rest)).
Proof. destruct m; intros Hm; try done; cbn [heard]; by destruct (heard rest). Qed.

Lemma core_after_go m rest p q :
  match m with ResultMsg _ => False | _ => True end -> core_of q = core_after [m] p ->
  core_after rest q = core_after (m :: rest) p.
Proof.
  intros Hm. unfold core_after, core_of. rewrite (heard_cons_go m rest) by done.
  assert (snd (heard [m]) = None) as -> by (by destruct m). cbn [fst snd].
  intros [= Ht Hs Hc Hr]. rewrite Ht, Hs, Hc, Hr, concat_app, app_assoc. done.
Qed.

(** The beats and the result of a whole stream. *)
Definition stream_done (p : AiPass) (chunks : list MessageChunk) (ending : StreamEnd)
    (bs : list beat) (o : outcome (AiPass * option str)) : Prop :=
  exists stopped, watched bs stopped /\
    match o with
    | Ret r => streamed p chunks ending stopped r
    | Panic => stopped = false /\ stream_cut_short chunks
    end.

Lemma stream_cut_here m rest : cut_short m -> stream_cut_short (m :: rest).
Proof. intros Hm. by exists [], m, rest. Qed.
Lemma stream_cut_later m rest :
  match m with ResultMsg _ => False | _ => True end ->
  stream_cut_short rest -> stream_cut_short (m :: rest).
Proof.
  intros Hm (seen & c & tl & -> & Hs & Hc). exists (m :: seen), c, tl. split_and!; try done.
  by rewrite heard_cons_go.
Qed.

Lemma watched_cons pre bs stopped :
  (pre = [] \/ exists answer, pre = [Status answer] /\ permits answer = true) ->
  watched bs stopped -> watched (pre ++ bs) stopped.
Proof. intros [->|(answer & -> & Ha)] Hbs; [done|by constructor]. Qed.

Lemma went_idle_cons m rest ending :
  match m with ResultMsg _ => False | _ => True end ->
  went_idle (m :: rest) ending = went_idle rest ending.
Proof. intros Hm. unfold went_idle. by rewrite heard_cons_go. Qed.

Lemma streamed_go m rest ending p q stopped r :
  match m with ResultMsg _ => False | _ => True end ->
  core_of q = core_after [m] p -> node_idle_timed_out q = node_idle_timed_out p ->
  aborted q = aborted p ->
  streamed q rest ending stopped r -> streamed p (m :: rest) ending stopped r.
Proof.
  destruct r as [p' err]. unfold streamed.
  intros Hm Hc Hi Ha (seen & Hpre & Hstop & Hcore & Hidle & Hab & Herr).
  rewrite went_idle_cons by done. exists (m :: seen).
  assert (snd (heard (m :: seen)) = snd (heard seen)) as Hsnd by by rewrite heard_cons_go.
  rewrite Hsnd, <- Hi, <- Ha. split_and!; try done.
  - by apply prefix_cons.
  - destruct stopped; [done|by rewrite Hstop].
  - rewrite Hcore. by apply core_after_go.
Qed.

Lemma ai_stream_done names chunks ending p :
  beating (ai_stream env node node_options resume names chunks ending p)
    (stream_done p chunks ending).
Proof.
  revert p. induction chunks as [|m rest IH]; intros p; cbn [ai_stream].
  { apply beating_done. exists false. split; [constructor|]. exists [].
    unfold core_after, went_idle. cbn [heard fst snd concat]. rewrite app_nil_r.
    destruct ending; cbn [negb andb]; rewrite ?orb_false_r, ?orb_true_r;
      split_and!; try done; by rewrite ?orb_false_r. }
  apply beating_bind. eapply beating_mono; [|apply tick_ticked].
  intros bs o (q & stop & -> & Hc & Hi & Ha & Hbs). destruct stop.
  { apply beating_done. rewrite app_nil_r. exists true.
    destruct Hbs as [[_ [=]]|(answer & -> & Hstop%eq_sym%negb_true_iff)].
    split; [by constructor|]. exists []. cbn [heard snd negb andb]. rewrite Hi, Ha, !orb_false_r.
    unfold core_after. cbn [heard fst snd concat]. rewrite app_nil_r. split_and!; try done.
    apply prefix_nil. }
  rewrite orb_false_r in Ha.
  assert (bs = [] \/ exists answer, bs = [Status answer] /\ permits answer = true) as Hpre.
  { destruct Hbs as [[-> _]|(answer & -> & Hp%eq_sym%negb_false_iff)]; eauto. }
  eapply silently_then; [apply ai_chunk_chunked| |].
  { intros Hcut%(stream_cut_here m rest). rewrite app_nil_r. exists false. split; [|done].
    rewrite <- (app_nil_r bs). apply watched_cons; [done|constructor]. }
  intros [q' f] (Hc' & Hi' & Ha' & _ & ->).
  assert (core_of q' = core_after [m] p) as Hcore.
  { rewrite Hc'. unfold core_after, core_of in *. by injection Hc as -> -> -> ->. }
  rewrite Hi in Hi'. rewrite Ha in Ha'.
  assert (match m with ResultMsg _ => False | _ => True end ->
    beating (ai_stream env node node_options resume names rest ending q')
      (fun bs' o => stream_done p (m :: rest) ending (bs ++ bs') o)) as Hgo.
  { intros Hm. eapply beating_mono; [|apply IH]. intros bs' o (stopped & Hw & Ho). exists stopped.
    split; [by apply watched_cons|]. destruct o as [r|]; [by eapply streamed_go|].
    split; [apply Ho|]. by apply stream_cut_later, Ho. }
  destruct m; try by apply Hgo.
  assert (stream_done p (ResultMsg r :: rest) ending (bs ++ [])
            (Ret (q', result_error node node_options resume r))) as Hdone.
  { exists false. split; [apply watched_cons; [done|constructor]|].
    exists (ResultMsg r :: rest). unfold went_idle. cbn [heard snd negb andb].
    rewrite Hi', Ha', !orb_false_r. split_and!; try done. }
  destruct (result_error node node_options resume r); by apply beating_done.
Qed.

(** ** The passes *)

Definition verdict_of (can_reask : bool) (p : AiPass) : verdict :=
  match so_output_format opts with
  | None => Keep p
  | Some format =>
      match structured_output p with
      | Some so =>
          match fst (validate_structured_output so (Object (schema format))) with
          | Valid => Keep (with_structured (Some so) (json_text so) p)
          | Invalid errors =>
              if can_reask then Reask errors else Reject (invalid_error node errors)
          end
      | None =>
          if can_reask then Reask [lit "no JSON object was found in the response"]
          else Reject (missing_error node p)
      end
  end.
Definition may_reask (retries : nat) (p : AiPass) : bool :=
  negb (Nat.eqb retries 0) && negb (node_idle_timed_out p) && negb (aborted p).
Definition total_cost (cost : option f64) (p : AiPass) : option f64 :=
  match pass_cost_usd p with Some c => Some (f64_add (default f64_zero cost) c) | None => cost end.
Definition thrown (p : AiPass) (err : str) : NodeExecutionResult :=
  if was_cancelled p then ai_failed (node_output_text p) p (pass_cost_usd p) cancelled_by_user
  else ai_failed [] p (pass_cost_usd p) err.
(** The session the pass with [retries] left resumes. *)
Definition resumed (max : N) (retries : nat) : option str :=
  if (max - N.of_nat retries =? 0)%N then resume else None.

Inductive passes (max : N) : nat -> str -> option f64 -> AiPass -> list beat ->
    outcome ((AiPass * option f64) + (NodeExecutionResult * AiPass)) -> Prop :=
| Passes_panic n prompt cost p chunks ending bs :
    watched bs false -> stream_cut_short chunks ->
    passes max n prompt cost p (Query prompt (resumed max n) (chunks, ending) :: bs) Panic
| Passes_threw n prompt cost p chunks ending stopped bs p' err :
    watched bs stopped -> streamed (fresh_pass p) chunks ending stopped (p', Some err) ->
    passes max n prompt cost p (Query prompt (resumed max n) (chunks, ending) :: bs)
      (Ret (inr (thrown p' err, p')))
| Passes_keep n prompt cost p chunks ending stopped bs p' p'' :
    watched bs stopped -> streamed (fresh_pass p) chunks ending stopped (p', None) ->
    verdict_of (may_reask n p') p' = Keep p'' ->
    passes max n prompt cost p (Query prompt (resumed max n) (chunks, ending) :: bs)
      (Ret (inl (p'', total_cost cost p')))
| Passes_reject n prompt cost p chunks ending stopped bs p' err :
    watched bs stopped -> streamed (fresh_pass p) chunks ending stopped (p', None) ->
    verdict_of (may_reask n p') p' = Reject err ->
    passes max n prompt cost p (Query prompt (resumed max n) (chunks, ending) :: bs)
      (Ret (inr (ai_failed [] p' (total_cost cost p') err, p')))
| Passes_again n prompt cost p chunks ending bs p' errors bs' o :
    watched bs false -> streamed (fresh_pass p) chunks ending false (p', None) ->
    verdict_of (may_reask (S n) p') p' = Reask errors ->
    passes max n (build_reask_prompt prompt errors) (total_cost cost p') p' bs' o ->
    passes max (S n) prompt cost p
      (Query prompt (resumed max (S n)) (chunks, ending) :: bs ++ bs') o.

Lemma query_then {B} prov prompt cwd r o t (f : ret (SendQuery prov prompt cwd r o t) -> proc B) R :
  (forall s, beating (f s) (fun bs o => R (Query prompt r s :: bs) o)) ->
  beating (ask (SendQuery prov prompt cwd r o t) ≫= f) R.
Proof. intros Hf s. apply Hf. Qed.

Lemma judge_silent can_reask p : only_calls silent (judge node node_options resume can_reask p).
Proof. unfold judge, notify, send_text. silent_steps. Qed.
Lemma judge_gives can_reask p :
  gives (judge node node_options resume can_reask p) (fun v => v = verdict_of can_reask p).
Proof.
  unfold judge, verdict_of. fold opts. destruct (so_output_format opts) as [format|]; [|by apply gives_done].
  destruct (structured_output p) as [so|]; [|by apply gives_done].
  destruct (validate_structured_output so _) as [v [msg|]]; cbn [fst];
    (apply gives_then; [|intros []; by apply gives_done]); [apply notify_gives|by apply gives_done].
Qed.

Lemma stream_failed_silent display err p : only_calls silent (stream_failed env node display err p).
Proof. unfold stream_failed, log_node_error, emit_workflow_event, bus. silent_steps. Qed.
Lemma stream_failed_gives display err p :
  gives (stream_failed env node display err p) (fun x => x = thrown p err).
Proof.
  unfold stream_failed, thrown. destruct (was_cancelled p); [by apply gives_done|].
  unfold log_node_error, emit_workflow_event, bus.
  do 3 (apply gives_then; [by apply node_gives_ask|]; intros ?). by apply gives_done.
Qed.
Lemma emit_reask_silent a m : only_calls silent (emit_reask node a m).
Proof. unfold emit_reask, notify, send_text. silent_steps. Qed.
Lemma emit_reask_gives a m : gives (emit_reask node a m) (fun _ => True).
Proof. unfold emit_reask. case_match; [apply notify_gives|by apply gives_done]. Qed.

(** A pass that may be asked again was not stopped. *)
Lemma reask_not_stopped n p chunks ending stopped p' err errors :
  streamed p chunks ending stopped (p', err) ->
  verdict_of (may_reask n p') p' = Reask errors -> stopped = false /\ n <> 0.
Proof.
  intros (seen & _ & _ & _ & _ & Ha & _) Hv.
  assert (may_reask n p' = true) as Hmay.
  { unfold verdict_of in Hv. repeat case_match; try done. }
  apply andb_prop in Hmay as [[Hn Hi]%andb_prop Hab%negb_true_iff]. rewrite Hab in Ha.
  destruct stopped; [by rewrite orb_true_r in Ha|]. split; [done|]. by destruct n.
Qed.

Lemma reask_passes display names max n prompt cost p :
  beating (reask env node provider node_options resume display names max n prompt cost p)
    (passes max n prompt cost p).
Proof.
  revert prompt cost p. induction n as [|n IH]; intros prompt cost p; cbn [reask];
    apply query_then; intros [chunks ending]; apply beating_bind;
    (eapply beating_mono; [|apply ai_stream_done]);
    intros bs [[p' [err|]]|] (stopped & Hw & Hr);
    try (destruct Hr as [-> Hcut]; by apply Passes_panic).
  - eapply gives_silent_then; [apply stream_failed_silent|apply stream_failed_gives|].
    intros x ->. apply beating_done. rewrite app_nil_r. by eapply Passes_threw.
  - eapply gives_silent_then; [apply judge_silent|apply judge_gives|].
    intros v Hv. change (v = verdict_of (may_reask 0 p') p') in Hv.
    destruct v; symmetry in Hv; [..|by eapply reask_not_stopped in Hv as [_ ?]];
      apply beating_done; rewrite app_nil_r; [by eapply Passes_keep|by eapply Passes_reject].
  - eapply gives_silent_then; [apply stream_failed_silent|apply stream_failed_gives|].
    intros x ->. apply beating_done. rewrite app_nil_r. by eapply Passes_threw.
  - eapply gives_silent_then; [apply judge_silent|apply judge_gives|].
    intros v Hv. change (v = verdict_of (may_reask (S n) p') p') in Hv.
    destruct v as [p''|e|errors]; symmetry in Hv.
    + apply beating_done; rewrite app_nil_r; by eapply Passes_keep.
    + apply beating_done; rewrite app_nil_r; by eapply Passes_reject.
    + destruct (reask_not_stopped _ _ _ _ _ _ _ _ Hr Hv) as [-> _].
      apply silent_then; [apply emit_reask_silent|apply emit_reask_gives|]. intros [].
      eapply beating_mono; [|apply IH]. intros bs' o. by eapply Passes_again.
Qed.

(** ** The whole node *)

Definition ai_completed (p : AiPass) (cost : option f64) : NodeExecutionResult :=
  mk_NodeExecutionResult Exec_Completed_ (node_output_text p) (structured_output p)
    (new_session_id (reported p)) None cost
    (declared_fields_from_schema ((fun f => Object (schema f)) <$> so_output_format opts)).
(** What is made of the pass that is kept. *)
Definition finished (cost : option f64) (p : AiPass) : NodeExecutionResult :=
  let text := node_output_text p in
  if was_cancelled p then ai_failed text p cost cancelled_by_user
  else
    match detect_credit_exhaustion text with
    | Some credit_err => ai_failed text p cost credit_err
    | None => if says_nothing p then ai_failed [] p cost (empty_output_error node p)
              else ai_completed p cost
    end.

Lemma finish_silent display start cost p :
  only_calls silent (finish env node node_options resume display start cost p).
Proof.
  unfold finish, fail_after, notify, send_text, log_node_error, log_node_complete, emit_workflow_event, bus.
  silent_steps.
Qed.
Lemma fail_after_gives display error l d d' : gives (fail_after env node display error l d d') (fun _ => True).
Proof. unfold fail_after, log_node_error, emit_workflow_event, bus. gives_steps. Qed.
Lemma finish_gives display start cost p :
  gives (finish env node node_options resume display start cost p) (fun x => x = finished cost p).
Proof.
  unfold finish, finished. apply gives_then; [case_match; [apply notify_gives|by apply gives_done]|]. intros [].
  destruct (was_cancelled p).
  { apply gives_then; [by apply node_gives_ask|]. intros now.
    apply gives_then; [apply fail_after_gives|]. intros []. by apply gives_done. }
  apply gives_then; [case_match; [apply notify_gives|by apply gives_done]|]. intros [].
  destruct (detect_credit_exhaustion _) as [e|].
  { apply gives_then; [by apply node_gives_ask|]. intros now.
    apply gives_then; [apply fail_after_gives|]. intros []. by apply gives_done. }
  apply gives_then; [by apply node_gives_ask|]. intros now. destruct (says_nothing p).
  { apply gives_then; [apply fail_after_gives|]. intros []. by apply gives_done. }
  unfold log_node_complete, emit_workflow_event, bus.
  do 3 (apply gives_then; [by apply node_gives_ask|]; intros ?). by apply gives_done.
Qed.

(** The text of the node before substitution, and the prompt sent. *)
Definition raw_prompt_is (raw : str) : Prop :=
  match node with
  | Prompt pn => raw = prompt pn
  | Command cmd => exists deps, @load_command_prompt deps (ne_cwd env) (command cmd) folder = Success raw
  | _ => False
  end.
Definition final_prompt_is (final : str) : Prop :=
  exists raw s, raw_prompt_is raw
    /\ build_prompt_with_context raw (run_id (ne_run env)) (user_message (ne_run env))
         (ne_artifacts_dir env) (ne_base_branch env) (ne_docs_dir env) (ne_issue_context env) = Ok s
    /\ final = fst (substitute_node_output_refs (fun _ _ => false) s outs false None).

Definition max_of (caps : ProviderCapabilities) : N := max_reasks node_options resume caps.
Definition node_runs (t : Throttle) (bs : list beat) (o : outcome (NodeExecutionResult * Throttle)) : Prop :=
  (bs = [] /\ ((o = Panic /\ node_display_name node = Panic)
               \/ exists x, o = Ret (x, t) /\ er_state x = Exec_Failed_))
  \/ exists caps final e,
      get_provider_capabilities provider registry = Ok caps /\ final_prompt_is final
      /\ passes (max_of caps) (N.to_nat (max_of caps)) final None (no_pass t) bs e
      /\ o = match e with
             | Ret (inl (p, cost)) => Ret (finished cost p, no_throttle)
             | Ret (inr (x, _)) => Ret (x, no_throttle)
             | Panic => Panic
             end.

Lemma load_prompt_silent : only_calls silent (load_prompt env node folder).
Proof. unfold load_prompt, log_node_error, emit_workflow_event, bus. silent_steps. Qed.
Lemma load_prompt_gives :
  gives (load_prompt env node folder) (fun r =>
    match r with Ok raw => raw_prompt_is raw | Err x => er_state x = Exec_Failed_ end).
Proof.
  unfold load_prompt, raw_prompt_is. destruct node; try by apply gives_done.
  eapply gives_bind; [apply (node_gives_ask LoadCommand (fun _ => True)); done|]. intros deps _.
  destruct (load_command_prompt _ _ _) as [content|reason msg] eqn:Hl; [apply gives_done; by exists deps|].
  unfold log_node_error, emit_workflow_event, bus.
  do 3 (apply gives_then; [by apply node_gives_ask|]; intros ?). by apply gives_done.
Qed.

Lemma build_prompt_silent raw : only_calls silent (build_prompt env node outs raw).
Proof. unfold build_prompt, notify, send_text, substitute_refs. silent_steps. Qed.
Lemma build_prompt_gives raw :
  raw_prompt_is raw ->
  gives (build_prompt env node outs raw) (fun r =>
    match r with Ok final => final_prompt_is final | Err x => er_state x = Exec_Failed_ end).
Proof.
  intros Hraw. unfold build_prompt. destruct (build_prompt_with_context _ _ _ _ _ _ _) as [s|e] eqn:Hb.
  - unfold gives. apply substitute_refs_then. intros write_ok. cbn zeta.
    rewrite (substitute_unescaped write_ok (fun _ _ => false)).
    eexists. split; [done|]. by exists raw, s.
  - apply gives_then; [apply notify_gives|]. intros []. by apply gives_done.
Qed.

Lemma announce_named : silently (announce env node provider) (fun _ => True) (node_display_name node = Panic).
Proof.
  unfold announce, log_node_start, emit_workflow_event, bus.
  do 2 (apply silently_skip; [by apply silently_any; [apply node_only_ask|apply node_gives_ask]|]; intros []).
  apply silently_skip; [by apply silently_pure|]. intros display.
  apply silently_skip; [by apply silently_any; [apply node_only_ask|apply node_gives_ask]|]. intros [].
  by apply silently_done.
Qed.

Lemma run_prompt_runs t start display names caps final :
  get_provider_capabilities provider registry = Ok caps -> final_prompt_is final ->
  beating (run_prompt env node provider node_options resume start display names caps final t) (node_runs t).
Proof.
  intros Hcaps Hfinal. unfold run_prompt. apply beating_bind.
  eapply beating_mono; [|apply reask_passes]. intros bs [[[p cost]|[x p]]|] Hp.
  - eapply gives_silent_then; [apply finish_silent|apply finish_gives|]. intros x ->.
    apply beating_done. rewrite app_nil_r. right. by exists caps, final, (Ret (inl (p, cost))).
  - apply beating_done. rewrite app_nil_r. right. by exists caps, final, (Ret (inr (x, p))).
  - right. by exists caps, final, Panic.
Qed.

Lemma execute_node_internal_runs t :
  beating (execute_node_internal registry env node provider node_options outs resume folder t) (node_runs t).
Proof.
  unfold execute_node_internal. apply ask_then; [done|]. intros start.
  apply silent_then; [silent_steps|gives_steps|]. intros names.
  eapply silently_then; [apply announce_named|intros Hp; left; auto|]. intros display _.
  eapply gives_silent_then; [apply load_prompt_silent|apply load_prompt_gives|]. intros [raw|x] Hraw.
  2:{ apply beating_done. left. split; [done|]. right. by exists x. }
  eapply gives_silent_then; [apply build_prompt_silent|by apply build_prompt_gives|]. intros [final|x] Hfinal.
  2:{ apply beating_done. left. split; [done|]. right. by exists x. }
  destruct (get_provider_capabilities provider registry) as [caps|e] eqn:Hc; [by apply run_prompt_runs|].
  apply beating_done. left. split; [done|]. right. by eexists.
Qed.

(** ** Asking again *)

Definition streams (bs : list beat) : list (list MessageChunk * StreamEnd) :=
  omap (fun b => match b with Query _ _ s => Some s | _ => None end) bs.
Definition structured_of (chunks : list MessageChunk) : option value :=
  snd (heard chunks) ≫= rc_structured_output.
(** The stream ended well but for its structured output, which has these errors. *)
Definition rejected (s : list MessageChunk * StreamEnd) (errors : list str) : Prop :=
  went_idle (fst s) (snd s) = false
  /\ snd (heard (fst s)) ≫= result_error node node_options resume = None
  /\ exists format, so_output_format opts = Some format
       /\ match structured_of (fst s) with
          | Some so => fst (validate_structured_output so (Object (schema format))) = Invalid errors
          | None => errors = [lit "no JSON object was found in the response"]
          end.

Lemma watched_split bs stopped rest pre q r x post :
  watched bs stopped -> bs ++ rest = pre ++ Query q r x :: post ->
  exists pre', pre = bs ++ pre' /\ rest = pre' ++ Query q r x :: post.
Proof.
  intros Hw. revert pre. induction Hw as [|answer bs stopped Ha Hw IH|answer Ha]; intros pre.
  - cbn [app]. intros ->. by exists pre.
  - destruct pre as [|b pre]; [by intros [=]|]. intros [= <- (pre' & -> & ->)%IH]. by exists pre'.
  - destruct pre as [|b pre]; [by intros [=]|]. intros [= <- ->]. by exists pre.
Qed.
Lemma watched_streams bs stopped : watched bs stopped -> streams bs = [].
Proof. by induction 1. Qed.
Lemma watched_permits bs answer : watched bs false -> Status answer ∈ bs -> permits answer = true.
Proof.
  intros Hw. remember false as stopped eqn:Hs. revert Hs.
  induction Hw as [|answer' bs stopped Ha Hw IH|answer' Ha]; intros Hs; [by intros ?%elem_of_nil| |done].
  intros [[= ->]|Hin]%elem_of_cons; auto.
Qed.

Lemma streamed_fresh p chunks ending p' err :
  streamed (fresh_pass p) chunks ending false (p', err) ->
  structured_output p' = structured_of chunks
  /\ node_output_text p' = concat (fst (heard chunks))
  /\ node_idle_timed_out p' = went_idle chunks ending
  /\ err = snd (heard chunks) ≫= result_error node node_options resume.
Proof.
  intros (seen & _ & -> & Hcore & Hidle & _ & Herr). unfold core_of, core_after, structured_of in *.
  destruct (snd (heard chunks)) as [r|]; injection Hcore as Ht Hs _ _; cbn in *;
    split_and!; try done. rewrite Hs. by destruct (rc_structured_output r).
Qed.

Lemma reask_rejected n p chunks ending p' errors :
  streamed (fresh_pass p) chunks ending false (p', None) ->
  verdict_of (may_reask n p') p' = Reask errors -> rejected (chunks, ending) errors.
Proof.
  intros Hs Hv. apply streamed_fresh in Hs as (Hso & _ & Hidle & Herr).
  unfold verdict_of in Hv. destruct (so_output_format opts) as [format|] eqn:Hf; [|done].
  assert (may_reask n p' = true) as Hmay by (repeat case_match; done). rewrite Hmay, Hso in Hv.
  apply andb_prop in Hmay as [[_ Hi%negb_true_iff]%andb_prop _].
  split; [cbn [fst snd]; congruence|]. split; [done|]. exists format. split; [done|]. cbn [fst].
  destruct (structured_of chunks) as [so|]; [|congruence].
  destruct (fst (validate_structured_output so _)); congruence.
Qed.

Lemma passes_queries max n prompt cost p bs o pre q r x post :
  passes max n prompt cost p bs o -> bs = pre ++ Query q r x :: post ->
  exists rejections,
    Forall2 rejected (streams pre) rejections /\ q = foldl build_reask_prompt prompt rejections
    /\ length rejections <= n /\ r = resumed max (n - length rejections)
    /\ (forall answer, Status answer ∈ pre -> permits answer = true).
Proof.
  intros Hp. revert pre. induction Hp as [n prompt cost p chunks ending bs Hw _|n prompt cost p chunks ending stopped bs p' err Hw _
    |n prompt cost p chunks ending stopped bs p' p'' Hw _ _|n prompt cost p chunks ending stopped bs p' err Hw _ _
    |n prompt cost p chunks ending bs p' errors bs' o Hw Hs Hv _ IH]; intros pre;
    (destruct pre as [|b pre];
     [intros [= <- <- <- _]; exists []; rewrite Nat.sub_0_r;
      split_and!; [constructor|done|cbn; lia|done|by intros ? ?%elem_of_nil]|]).
  1-4: intros [= _ Hbs]; exfalso; rewrite <- (app_nil_r bs) in Hbs;
    destruct (watched_split _ _ _ _ _ _ _ _ Hw Hbs) as (pre' & _ & ?%app_cons_not_nil); done.
  intros [= <- (pre' & -> & Hbs)%(watched_split _ _ _ _ _ _ _ _ Hw)].
  destruct (IH pre' Hbs) as (rejections & HF & Hq & Hn & Hr & Hpre).
  exists (errors :: rejections). split_and!.
  - unfold streams in *. cbn [omap list_omap]. rewrite omap_app. fold (streams bs).
    rewrite (watched_streams bs false Hw). constructor; [by eapply reask_rejected|exact HF].
  - exact Hq.
  - cbn. lia.
  - exact Hr.
  - intros answer [[=]|[Hin|Hin]%elem_of_app]%elem_of_cons; [by eapply watched_permits|by apply Hpre].
Qed.

Lemma max_of_bound caps :
  (max_of caps <= 3)%N
  /\ ((0 < max_of caps)%N -> cap_structured_output caps = BestEffort /\ is_Some (so_output_format opts)).
Proof.
  unfold max_of, max_reasks, STRUCTURED_OUTPUT_MAX_REASKS. fold opts.
  destruct (bool_decide_reflect (cap_structured_output caps = BestEffort)); [|done].
  destruct (so_output_format opts); done.
Qed.

(** C10: an AI node asks a provider at most four times, more than once only a best-effort
    provider that owes structured output.  The first query is the substituted prompt
    and resumes the session given; every later one resumes none, and is the prompt
    before with the errors of the answer to it, which ended without a timeout or an
    error of the provider but had no value valid for the schema.  No query follows a
    status read that stops the node. *)
Theorem reask_protocol t w past pre q r x post :
  beats (fst (exec w past (execute_node_internal registry env node provider node_options outs resume
                             folder t)))
    = pre ++ Query q r x :: post ->
  exists caps final rejections,
    get_provider_capabilities provider registry = Ok caps /\ final_prompt_is final
    /\ Forall2 rejected (streams pre) rejections
    /\ q = foldl build_reask_prompt final rejections
    /\ length rejections <= 3
    /\ (rejections <> [] -> cap_structured_output caps = BestEffort /\ is_Some (so_output_format opts))
    /\ r = (if is_empty rejections then resume else None)
    /\ (forall answer, Status answer ∈ pre -> permits answer = true).
Proof.
  intros Hbs. pose proof (beating_exec _ _ w past (execute_node_internal_runs t)) as Hruns.
  rewrite Hbs in Hruns. destruct Hruns as [[?%symmetry%app_cons_not_nil _]|Hruns]; [done|].
  destruct Hruns as (caps & final & e & Hcaps & Hfinal & Hp & _).
  destruct (passes_queries _ _ _ _ _ _ _ _ _ _ _ _ Hp eq_refl) as (rejections & HF & Hq & Hn & Hr & Hpre).
  destruct (max_of_bound caps) as [Hthree Hpos]. exists caps, final, rejections.
  split_and!; try done; [lia| |].
  - intros Hne. apply Hpos. destruct rejections; [done|]. cbn in Hn. lia.
  - rewrite Hr. unfold resumed. destruct rejections as [|e1 l]; cbn [length is_empty] in *.
    + by replace (max_of caps - N.of_nat (N.to_nat (max_of caps) - 0))%N with 0%N by lia.
    + by rewrite (proj2 (N.eqb_neq _ _)) by lia.
Qed.

(** ** Completion *)

Lemma passes_kept max n prompt cost p bs p'' cost' :
  passes max n prompt cost p bs (Ret (inl (p'', cost'))) ->
  exists pre q s chunks ending ws stopped p0 p' can,
    bs = pre ++ Query q s (chunks, ending) :: ws /\ watched ws stopped
    /\ streamed (fresh_pass p0) chunks ending stopped (p', None) /\ verdict_of can p' = Keep p''.
Proof.
  intros Hp. remember (Ret (inl (p'', cost'))) as o eqn:Ho. revert Ho.
  induction Hp as [| |n prompt cost p chunks ending stopped bs p' q Hw Hs Hv|
    |n prompt cost p chunks ending bs p' errors bs' o Hw Hs Hv _ IH]; intros Ho; try done.
  - injection Ho as -> _. exists [], prompt, (resumed max n), chunks, ending, bs, stopped, p, p'.
    by exists (may_reask n p').
  - destruct (IH Ho) as (pre & q & s & c & e & ws & stopped & p0 & p2 & can & -> & Hrest).
    exists (Query prompt (resumed max (S n)) (chunks, ending) :: bs ++ pre), q, s, c, e, ws, stopped, p0, p2, can.
    split; [cbn [app]; by rewrite <- app_assoc|done].
Qed.

Lemma passes_failed max n prompt cost p bs x p' :
  passes max n prompt cost p bs (Ret (inr (x, p'))) -> er_state x = Exec_Failed_.
Proof.
  intros Hp. remember (Ret (inr (x, p'))) as o eqn:Ho. revert Ho.
  induction Hp; intros [=]; subst; auto. unfold thrown. by destruct (was_cancelled _).
Qed.

(** What a pass that is kept holds. *)
Lemma verdict_keeps can p p' :
  verdict_of can p = Keep p' ->
  was_cancelled p' = was_cancelled p
  /\ match so_output_format opts with
     | None => p' = p
     | Some format =>
         exists so, structured_output p = Some so /\ structured_output p' = Some so
           /\ node_output_text p' = json_text so
           /\ fst (validate_structured_output so (Object (schema format))) = Valid
     end.
Proof.
  unfold verdict_of. destruct (so_output_format opts) as [format|]; [|by intros [= ->]].
  destruct (structured_output p) as [so|]; [|by destruct can].
  destruct (fst (validate_structured_output so _)) eqn:Hv; [|by destruct can].
  intros [= <-]. split; [done|]. by exists so.
Qed.

(** A stream that a status read stopped is cancelled. *)
Lemma stopped_cancelled p chunks ending p' err :
  streamed (fresh_pass p) chunks ending true (p', err) -> was_cancelled p' = true.
Proof.
  intros (seen & _ & _ & _ & Hidle & Hab & _). unfold was_cancelled. rewrite Hidle, Hab. cbn.
  by rewrite orb_true_r.
Qed.

Lemma watched_statuses bs : watched bs false ->
  forall b, b ∈ bs -> exists answer, b = Status answer /\ permits answer = true.
Proof.
  intros Hw. remember false as stopped eqn:Hs. revert Hs.
  induction Hw as [|answer bs stopped Ha Hw IH|answer Ha]; intros Hs b; [by intros ?%elem_of_nil| |done].
  intros [->|Hin]%elem_of_cons; [by exists answer|auto].
Qed.
Lemma structured_not_idle chunks ending : is_Some (structured_of chunks) -> went_idle chunks ending = false.
Proof. unfold structured_of, went_idle. by destruct (snd (heard chunks)) as [r|]; [|intros [? [=]]]. Qed.

(** C9: what an AI node completes with is the answer to its last query.  After that query
    the node only reads the status of the run, which never stops it; the result of the
    stream, if there is one, is no error, and the output does not say that credits ran
    out.  With an output format the stream did not time out, and the output is the JSON
    of the value its result holds, which the declared schema accepts (or cannot judge).
    Without one the output is the text of the stream up to its result, its end or the
    idle timeout; after a timeout it is not blank, and otherwise it is not blank unless
    the result holds a structured value. *)
Theorem ai_completion t w past x t' :
  let r := exec w past (execute_node_internal registry env node provider node_options outs resume
                          folder t) in
  snd r = Ret (x, t') -> er_state x = Exec_Completed_ ->
  exists pre q s chunks ending post,
    beats (fst r) = pre ++ Query q s (chunks, ending) :: post
    /\ (forall b, b ∈ post -> exists answer, b = Status answer /\ permits answer = true)
    /\ snd (heard chunks) ≫= result_error node node_options resume = None
    /\ detect_credit_exhaustion (er_output x) = None
    /\ er_structured_output x = structured_of chunks
    /\ match so_output_format opts with
       | None =>
           er_output x = concat (fst (heard chunks))
           /\ (trim (er_output x) <> []
               \/ went_idle chunks ending = false /\ is_Some (structured_of chunks))
       | Some format =>
           went_idle chunks ending = false
           /\ exists so, structured_of chunks = Some so /\ er_output x = json_text so
             /\ fst (validate_structured_output so (Object (schema format))) = Valid
       end.
Proof.
  intros r Hr Hx. pose proof (beating_exec _ _ w past (execute_node_internal_runs t)) as Hruns.
  fold r in Hruns. rewrite Hr in Hruns.
  destruct Hruns as [[_ [[[=] _]|(y & [= <- _] & Hy)]]|Hruns]; [congruence|].
  destruct Hruns as (caps & final & e & _ & _ & Hp & He).
  destruct e as [[[p cost]|[y p]]|]; [|injection He as -> _; by apply passes_failed in Hp; congruence|done].
  injection He as -> _. destruct (passes_kept _ _ _ _ _ _ _ _ Hp)
    as (pre & q & s & chunks & ending & ws & stopped & p0 & p' & can & Hbs & Hw & Hs & Hv).
  destruct (verdict_keeps _ _ _ Hv) as [Hcancel Hkeep]. unfold finished in Hx |- *.
  destruct (was_cancelled p) eqn:Hc; [done|].
  destruct stopped; [by rewrite (stopped_cancelled _ _ _ _ _ Hs) in Hcancel|].
  destruct (streamed_fresh _ _ _ _ _ Hs) as (Hso & Htext & _ & Herr).
  destruct (detect_credit_exhaustion (node_output_text p)) eqn:Hcredit; [done|].
  destruct (says_nothing p) eqn:Hnothing; [done|].
  exists pre, q, s, chunks, ending, ws. cbn [ai_completed er_output er_structured_output].
  split_and!; [done|by apply watched_statuses|done|done| |].
  - destruct (so_output_format opts); [|congruence].
    destruct Hkeep as (so & H1' & H2' & _). congruence.
  - destruct (so_output_format opts) as [format|].
    + destruct Hkeep as (so & Hp1 & _ & Hp3 & Hp4). rewrite Hso in Hp1.
      split; [apply structured_not_idle; by eexists|by exists so].
    + subst p. rewrite Htext in *. split; [done|]. unfold says_nothing in Hnothing.
      rewrite Htext, Hso in Hnothing. destruct (structured_of chunks) eqn:Hsome;
        [right; split; [apply structured_not_idle|]; by eexists|left].
      rewrite andb_true_r in Hnothing. by destruct (trim _).
Qed.

Lemma passes_panicked max n prompt cost p bs :
  passes max n prompt cost p bs Panic ->
  exists pre q s chunks ending post,
    bs = pre ++ Query q s (chunks, ending) :: post /\ watched post false /\ stream_cut_short chunks.
Proof.
  intros Hp. remember Panic as o eqn:Ho. revert Ho.
  induction Hp as [n prompt cost p chunks ending bs Hw Hcut| | | |
    n prompt cost p chunks ending bs p' errors bs' o Hw Hs Hv _ IH]; intros Ho; try done.
  - by exists [], prompt, (resumed max n), chunks, ending, bs.
  - destruct (IH Ho) as (pre & q & s & c & e & post & -> & Hrest).
    exists (Query prompt (resumed max (S n)) (chunks, ending) :: bs ++ pre), q, s, c, e, post.
    split; [cbn [app]; by rewrite <- app_assoc|done].
Qed.

(** C11: an AI node returns, whatever it is answered, but for two panics.  Either its
    name is cut inside a character, before it asks the provider anything; or it shows
    tool calls as they come and the stream of its last query holds, before its result, a
    tool call whose text is cut inside a character.  Once it has asked the provider it
    leaves no throttle entry behind, and before that it touches none. *)
Theorem ai_node_returns t w past :
  let r := exec w past (execute_node_internal registry env node provider node_options outs resume
                          folder t) in
  match snd r with
  | Ret (x, t') => t' = (if is_empty (beats (fst r)) then t else no_throttle)
  | Panic =>
      (node_display_name node = Panic /\ beats (fst r) = [])
      \/ (ne_streaming_mode env = Stream
          /\ exists pre q s chunks ending post seen name input id rest,
               beats (fst r) = pre ++ Query q s (chunks, ending) :: post
               /\ (forall b, b ∈ post -> exists answer, b = Status answer /\ permits answer = true)
               /\ chunks = seen ++ Tool name input id :: rest /\ snd (heard seen) = None
               /\ format_tool_call name input = Panic)
  end.
Proof.
  intros r. pose proof (beating_exec _ _ w past (execute_node_internal_runs t)) as Hruns.
  fold r in Hruns. destruct Hruns as [[-> [[-> Hname]|(x & -> & _)]]|Hruns]; [by left|done|].
  destruct Hruns as (caps & final & e & _ & _ & Hp & ->).
  assert (is_empty (beats (fst r)) = false) as -> by (by destruct Hp).
  destruct e as [[[p cost]|[x p]]|]; [done..|]. right.
  destruct (passes_panicked _ _ _ _ _ _ Hp) as (pre & q & s & chunks & ending & post & Hbs & Hw & Hcut).
  destruct Hcut as (seen & m & rest & Hchunks & Hseen & Hm). destruct m; try done.
  destruct Hm as [Hmode Hpanic]. split; [done|]. exists pre, q, s, chunks, ending, post, seen.
  exists tool_name, tool_input, tool_call_id, rest. split_and!; try done. by apply watched_statuses.
Qed.
End Spec.

(** ** A provider that forgets its structured output once *)

#[local] Existing Instance backtracking_engine.
#[local] Existing Instance ascii_case.
#[local] Existing Instance canonical_order.
#[local] Instance permissive_schemas : StructuredText :=
  Build_StructuredText (fun _ => []) (fun _ => None) (fun _ => Ok (fun _ => [])).

Definition said_with (text : string) (so : option value) : list MessageChunk * StreamEnd :=
  ([Assistant (lit text) None;
    ResultMsg (mk_ResultChunk (Some (lit "s1")) None so None None None None None None None)],
   Closed).
Definition forgetful_world : world := fun past c =>
  match c return ret c with
  | SendQuery _ _ _ _ _ _ =>
      if count_queries (beats past) =? 0 then said_with "Sure." None
      else said_with "{}" (Some (Object []))
  | c => good_world past c
  end.
Definition shaped_options : SendQueryOptions :=
  mk_SendQueryOptions None None (Some (mk_OutputFormat [])) None None None None None None None None.
Definition prompt_node : DagNode := Prompt (mk_PromptNode (base_default (lit "a") []) (lit "Report")).
Definition corrected : str :=
  build_reask_prompt (lit "Report") [lit "no JSON object was found in the response"].
Abbreviation run_forgetful :=
  (exec forgetful_world []
     (execute_node_internal (register_bundled (fun id => id) []) (sample_node_env (lit "hello") [])
        prompt_node (lit "pi") (Some shaped_options) ∅ (Some (lit "s0")) None no_throttle)).

Lemma reask_protocol_witness :
  exists caps, get_provider_capabilities (lit "pi") (register_bundled (fun id => id) []) = Ok caps
    /\ cap_structured_output caps = BestEffort
    /\ beats (fst run_forgetful) !! 2 = Some (Query corrected None (said_with "{}" (Some (Object [])))).
Proof.
  destruct (reask_protocol (register_bundled (fun id => id) []) (sample_node_env (lit "hello") [])
              prompt_node (lit "pi") (Some shaped_options) ∅ (Some (lit "s0")) None no_throttle
              forgetful_world [] (take 2 (beats (fst run_forgetful))) corrected None
              (said_with "{}" (Some (Object []))) (drop 3 (beats (fst run_forgetful))))
    as (caps & final & rejections & Hcaps & _ & HF & _ & _ & Hbest & _); [by_compute|].
  exists caps. split; [exact Hcaps|]. split; [|by_compute].
  apply Hbest. intros ->. apply Forall2_length in HF. revert HF. vm_compute. discriminate.
Defined.

Definition report_result : NodeExecutionResult :=
  mk_NodeExecutionResult Exec_Completed_ (to_string (Object [])) (Some (Object [])) (Some (lit "s1")) None None
    (declared_fields_from_schema (Some (Object []))).
Lemma ai_completion_witness :
  snd run_forgetful = Ret (report_result, no_throttle)
  /\ exists pre q s chunks ending post,
       beats (fst run_forgetful) = pre ++ Query q s (chunks, ending) :: post
       /\ structured_of chunks = Some (Object []).
Proof.
  assert (snd run_forgetful = Ret (report_result, no_throttle)) as Hr by by_compute.
  split; [exact Hr|].
  destruct (ai_completion (register_bundled (fun id => id) []) (sample_node_env (lit "hello") [])
              prompt_node (lit "pi") (Some shaped_options) ∅ (Some (lit "s0")) None no_throttle
              forgetful_world [] _ _ Hr eq_refl)
    as (pre & q & s & chunks & ending & post & Hbs & _ & _ & _ & Hso & _).
  exists pre, q, s, chunks, ending, post. split; [exact Hbs|]. by rewrite <- Hso.
Defined.
