(* ===== verification/AiWatch.v ===== *)
(** * How often an AI node looks at its run

    The reads of the run's status and the heartbeats of [execute_node_internal] happen
    at the instant the stream's tick read; their distance is bounded from below by the
    throttle intervals, over all passes of a node and on from what the throttle held. *)

From S2P Require Import Prelude Float64 Json StdModel Regex DagNode Workflow OutputRef ExecutorShared DagCore.
From S2P Require Import DagRun RunTheorems RunStore StructuredOutput Provider NodeProc NodeStream.
From S2P Require Import Beats AiNode AiSpec.

(** What the clock read last, and the instants of the calls [f] of a trace. *)
Definition clock_at (now : N) (e : event) : N :=
  let '(mk_event c r) := e in
  match c return ret c -> N with Now => fun n => n | _ => fun _ => now end r.
Definition clock (now : N) (tr : trace) : N := foldl clock_at now tr.
Fixpoint instants (f : call -> bool) (now : N) (tr : trace) : list N :=
  match tr with
  | [] => []
  | e :: rest =>
      (if f (ev_call e) then [clock_at now e] else []) ++ instants f (clock_at now e) rest
  end.
Definition is_check (c : call) : bool := match c with GetRunStatus => true | _ => false end.
Definition is_update (c : call) : bool := match c with UpdateActivity => true | _ => false end.

(** Each instant is more than [interval] milliseconds after the one before. *)
Fixpoint spaced (interval : N) (last : option N) (ts : list N) : Prop :=
  match ts with
  | [] => True
  | t :: ts => (interval < elapsed_ms last t)%N /\ spaced interval (Some t) ts
  end.
Definition last_of (o : option N) (ts : list N) : option N := foldl (fun _ t => Some t) o ts.

Lemma spaced_app interval last a b :
  spaced interval last (a ++ b) <-> spaced interval last a /\ spaced interval (last_of last a) b.
Proof. revert last. induction a as [|t a IH]; intros last; simpl; [tauto|]. rewrite IH. tauto. Qed.
Lemma last_of_app o a b : last_of o (a ++ b) = last_of (last_of o a) b.
Proof. apply foldl_app. Qed.

Lemma instants_app f now a b : instants f now (a ++ b) = instants f now a ++ instants f (clock now a) b.
Proof.
  revert now. induction a as [|e a IH]; intros now; [done|]. cbn [app instants].
  by rewrite IH, app_assoc.
Qed.

(** What the throttle holds after a trace. *)
Definition after (t : Throttle) (now : N) (tr : trace) : Throttle :=
  mk_Throttle (last_of (last_check t) (instants is_check now tr))
    (last_of (last_update t) (instants is_update now tr)).
Definition keeps_pace (t : Throttle) (now : N) (tr : trace) : Prop :=
  spaced CANCEL_CHECK_INTERVAL_MS (last_check t) (instants is_check now tr)
  /\ spaced ACTIVITY_HEARTBEAT_INTERVAL_MS (last_update t) (instants is_update now tr).

(** [watches thr t p]: from the throttle [t] on, [p] keeps the pace, and what it returns
    carries the throttle after it, where it carries one. *)
Definition watches {A} (thr : A -> option Throttle) (t : Throttle) (p : proc A) : Prop :=
  always p (fun tr o => forall now,
    keeps_pace t now tr
    /\ match o with Ret a => match thr a with Some t' => t' = after t now tr | None => True end
       | Panic => True end).

(** A call that is neither. *)
Definition calm (c : call) : Prop := match c with GetRunStatus | UpdateActivity => False | _ => True end.
Lemma instants_calm f now tr :
  (forall c, f c = true -> ~ calm c) -> Forall (fun e => calm (ev_call e)) tr -> instants f now tr = [].
Proof.
  intros Hf Htr. revert now. induction Htr as [|e tr Hc _ IH]; intros now; [done|].
  cbn [instants]. rewrite IH. destruct (f (ev_call e)) eqn:Hfc; [by destruct (Hf _ Hfc)|done].
Qed.
Lemma calm_keeps t now tr :
  Forall (fun e => calm (ev_call e)) tr -> keeps_pace t now tr /\ after t now tr = t.
Proof.
  intros Htr. unfold keeps_pace, after.
  rewrite !instants_calm by (done || by intros [] [=] ?). by destruct t.
Qed.

Lemma keeps_pace_app t now a b :
  keeps_pace t now (a ++ b) <-> keeps_pace t now a /\ keeps_pace (after t now a) (clock now a) b.
Proof. unfold keeps_pace, after. rewrite !instants_app, !spaced_app. cbn. tauto. Qed.
Lemma after_app t now a b : after t now (a ++ b) = after (after t now a) (clock now a) b.
Proof. unfold after. by rewrite !instants_app, !last_of_app. Qed.

Lemma watches_bind {A B} (thr : A -> option Throttle) (thr' : B -> option Throttle) t p (f : A -> proc B) :
  watches thr t p -> (forall a, exists t', thr a = Some t' /\ watches thr' t' (f a)) ->
  watches thr' t (p ≫= f).
Proof.
  intros Hp Hf. unfold watches. rewrite always_bind. eapply always_mono, Hp.
  intros tr [a|] Htr; [|intros now; split; [by apply Htr|done]].
  destruct (Hf a) as (t' & Ht' & Hfa). eapply always_mono, Hfa. intros tr' o Htr' now.
  destruct (Htr now) as [Hpace Hafter]. rewrite Ht' in Hafter. subst t'.
  destruct (Htr' (clock now tr)) as [Hpace' Hafter']. rewrite keeps_pace_app, after_app.
  split; [done|]. exact Hafter'.
Qed.
(** Calm steps. *)
Lemma watches_calm {A} (thr : A -> option Throttle) t (p : proc A) :
  only_calls calm p ->
  always p (fun _ o => forall a, o = Ret a -> match thr a with Some t' => t' = t | None => True end) ->
  watches thr t p.
Proof.
  intros Hc Hr. eapply always_mono, (always_and _ _ _ Hc Hr). intros tr o [Htr Ho] now.
  destruct (calm_keeps t now tr Htr) as [Hpace ->]. split; [done|]. destruct o as [a|]; [by apply Ho|done].
Qed.
Lemma watches_skip {A B} (thr : B -> option Throttle) t (p : proc A) (f : A -> proc B) :
  only_calls calm p -> (forall a, watches thr t (f a)) -> watches thr t (p ≫= f).
Proof.
  intros Hp Hf. apply (watches_bind (fun _ => Some t)); [|intros a; by exists t].
  apply watches_calm; [done|]. eapply always_mono, Hp. intros tr o _ a _. done.
Qed.
Lemma watches_done {A} (thr : A -> option Throttle) t (a : A) :
  match thr a with Some t' => t' = t | None => True end -> watches thr t (mret a).
Proof. intros Ha. apply watches_calm; [constructor|]. by intros ? [= <-]. Qed.

Ltac calm_steps :=
  repeat first
    [ progress intros
    | apply only_done | apply only_pure
    | apply node_only_ask; exact I
    | apply only_bind
    | case_match ].

Section Watch.
Context `{RegexEngine} `{SerdeJson} `{UnicodeCase} `{StdText} `{StructuredText} `{HashMapOrder}.
Context {agent : Type}.
Variable registry : Registry agent.
Variable env : NodeEnv.
Variable node : DagNode.
Variable provider : str.
Variable node_options : option SendQueryOptions.
Variable outs : gmap str NodeOutput.
Variable resume : option str.
Variable folder : option str.

(** ** The tick *)

Definition pass_throttle {A} (x : AiPass * A) : option Throttle := Some (throttle (fst x)).

(** With the clock at [now], a due read leaves its instant in the throttle. *)
Definition at_clock (n : N) {A} (thr : A -> option Throttle) (t : Throttle) (p : proc A) : Prop :=
  always p (fun tr o =>
    clock n tr = n /\ keeps_pace t n tr
    /\ match o with Ret a => match thr a with Some t' => t' = after t n tr | None => True end
       | Panic => True end).

Lemma heartbeat_at n p : at_clock n (fun p => Some (throttle p)) (throttle p) (heartbeat n p).
Proof.
  unfold heartbeat. destruct (N.ltb_spec ACTIVITY_HEARTBEAT_INTERVAL_MS (elapsed_ms (last_update (throttle p)) n)).
  - intros r. by destruct p as [? ? ? ? ? ? ? ? []].
  - by destruct p as [? ? ? ? ? ? ? ? []].
Qed.
Lemma cancel_check_at n p : at_clock n pass_throttle (throttle p) (cancel_check n p).
Proof.
  unfold cancel_check. destruct (N.ltb_spec CANCEL_CHECK_INTERVAL_MS (elapsed_ms (last_check (throttle p)) n)).
  - intros [s|e]; [|by destruct p as [? ? ? ? ? ? ? ? []]].
    cbn [always mbind proc_bind mret proc_ret].
    destruct (should_continue_streaming_for_status _); by destruct p as [? ? ? ? ? ? ? ? []].
  - by destruct p as [? ? ? ? ? ? ? ? []].
Qed.

Lemma tick_watches p : watches pass_throttle (throttle p) (tick p).
Proof.
  unfold tick. intros n. 
  apply (always_mono _ (fun tr o =>
    keeps_pace (throttle p) n tr
    /\ match o with Ret a => match pass_throttle a with Some t' => t' = after (throttle p) n tr | None => True end
       | Panic => True end)).
  { intros tr o H' now. exact H'. }
  change (always (cancel_check n p ≫= fun r =>
    match r with (p, true) => mret (p, true) | (p, false) => p ← heartbeat n p; mret (p, false) end)
    (fun tr o => keeps_pace (throttle p) n tr
    /\ match o with Ret a => match pass_throttle a with Some t' => t' = after (throttle p) n tr | None => True end
       | Panic => True end)).
  rewrite always_bind. eapply always_mono, cancel_check_at.
  intros tr [[q stop]|] (Hclock & Hpace & Hq); [|done]. cbn in Hq. destruct stop.
  - cbn [always mret proc_ret]. by rewrite app_nil_r.
  - rewrite always_bind. eapply always_mono, heartbeat_at.
    intros tr' [q'|] (Hclock' & Hpace' & Hq'); cbn [always mret proc_ret];
      rewrite ?app_nil_r, keeps_pace_app, Hclock, <- Hq; [|done].
    rewrite after_app, Hclock, <- Hq. done.
Qed.

(** ** The whole node *)

Lemma ai_chunk_calm names m p : only_calls calm (ai_chunk env node node_options resume names m p).
Proof.
  destruct m; unfold ai_chunk, ai_assistant, ai_tool, ai_system, show_tool_call, complete_last_tool,
    complete_tool, notify, send_text, log_assistant, log_tool, bus, emit_typed_event; calm_steps.
Qed.

Lemma ai_stream_watches names chunks ending p :
  watches pass_throttle (throttle p) (ai_stream env node node_options resume names chunks ending p).
Proof.
  revert p. induction chunks as [|m rest IH]; intros p; cbn [ai_stream].
  { apply watches_done. by destruct ending. }
  eapply watches_bind; [apply tick_watches|]. intros [q stop]. exists (throttle q). split; [done|].
  destruct stop; [by apply watches_done|].
  apply (watches_bind pass_throttle).
  - apply watches_calm; [apply ai_chunk_calm|].
    eapply always_mono, (proj2 (ai_chunk_chunked env node node_options resume names m q)).
    intros tr o Ho [q' f] ->. by destruct Ho as (_ & _ & _ & Ht & _).
  - intros [q' f]. exists (throttle q'). split; [done|].
    destruct f; [apply IH|by apply watches_done..].
Qed.

Definition end_throttle (e : (AiPass * option f64) + (NodeExecutionResult * AiPass)) : option Throttle :=
  match e with inl (p, _) => Some (throttle p) | inr (_, p) => Some (throttle p) end.

Lemma judge_calm can p : only_calls calm (judge node node_options resume can p).
Proof. unfold judge, notify, send_text. calm_steps. Qed.
Lemma judge_keeps can p p' :
  verdict_of node node_options resume can p = Keep p' -> throttle p' = throttle p.
Proof. unfold verdict_of. repeat case_match; by intros [= <-]. Qed.

Lemma reask_watches display names max n prompt cost p :
  watches end_throttle (throttle p)
    (reask env node provider node_options resume display names max n prompt cost p).
Proof.
  revert prompt cost p. induction n as [|n IH]; intros prompt cost p; cbn [reask];
    (apply watches_skip; [by apply node_only_ask|]); intros [chunks ending];
    (eapply watches_bind; [apply (ai_stream_watches names chunks ending (fresh_pass p))|]);
    intros [q [err|]]; exists (throttle q); (split; [done|]).
  1, 3: apply watches_skip;
    [unfold stream_failed, log_node_error, emit_workflow_event, bus; calm_steps|];
    intros x; by apply watches_done.
  - apply (watches_bind (fun v => match v with Keep p' => Some (throttle p') | _ => Some (throttle q) end)).
    + apply watches_calm; [apply judge_calm|]. eapply always_mono, judge_gives.
      intros tr o (v & -> & Hv) v' [= <-]. destruct v; [|done..]. by eapply judge_keeps.
    + intros [p'|e|errors]; eexists; (split; [reflexivity|]); by apply watches_done.
  - apply (watches_bind (fun v => match v with Keep p' => Some (throttle p') | _ => Some (throttle q) end)).
    + apply watches_calm; [apply judge_calm|]. eapply always_mono, judge_gives.
      intros tr o (v & -> & Hv) v' [= <-]. destruct v; [|done..]. by eapply judge_keeps.
    + intros [p'|e|errors]; eexists; (split; [reflexivity|]); [by apply watches_done..|].
      apply watches_skip; [unfold emit_reask, notify, send_text; calm_steps|]. intros []. apply IH.
Qed.

Lemma execute_node_watches t :
  watches (fun _ => None) t
    (execute_node_internal registry env node provider node_options outs resume folder t).
Proof.
  unfold execute_node_internal. apply watches_skip; [by apply node_only_ask|]. intros start.
  apply watches_skip; [calm_steps|]. intros names.
  apply watches_skip; [unfold announce, log_node_start, emit_workflow_event, bus; calm_steps|].
  intros display. apply watches_skip;
    [unfold load_prompt, log_node_error, emit_workflow_event, bus; calm_steps|].
  intros [raw|x]; [|by apply watches_done]. apply watches_skip;
    [unfold build_prompt, substitute_refs, notify, send_text; calm_steps|].
  intros [final|x]; [|by apply watches_done].
  destruct (get_provider_capabilities provider registry) as [caps|e]; [|by apply watches_done].
  unfold run_prompt. eapply watches_bind; [apply (reask_watches _ _ _ _ _ _ (no_pass t))|].
  intros [[p cost]|[x p]]; exists (throttle p); (split; [done|]); [|by apply watches_done].
  apply watches_skip; [|intros x; by apply watches_done].
  unfold finish, fail_after, notify, send_text, log_node_error, log_node_complete, emit_workflow_event, bus.
  calm_steps.
Qed.

(** An AI node reads the status of its run at most once in ten seconds and touches
    its activity at most once a minute, over all its streams: every read (touch) is more
    than the interval after the one before, and the first one after the instant the
    throttle held. *)
Theorem ai_watch_throttled t w past now :
  let tr := fst (exec w past (execute_node_internal registry env node provider node_options outs
                                resume folder t)) in
  spaced 10000 (last_check t) (instants is_check now tr)
  /\ spaced 60000 (last_update t) (instants is_update now tr).
Proof. intros tr. apply (always_exec _ _ w past (execute_node_watches t) now). Qed.
End Watch.
