(* ===== verification/ProviderResolve.v ===== *)
(** * Which provider, model and options an AI node runs with

    [resolve_node_provider_and_model] of [dag_executor.rs], its synchronous form and
    [apply_preset_options]: node settings over workflow settings over the defaults of
    the provider, with the warnings the user gets. *)

From S2P Require Import ModelValidation.
From S2P Require Import Prelude Float64 Json StdModel Regex DagNode Workflow ExecutorShared DagCore.
From S2P Require Import DagRun RunStore Provider NodeProc NodeStream Beats.

(** [thiserror]'s texts. *)
Definition ModelValidationError_to_string (e : ModelValidationError) : str :=
  match e with
  | AliasNameReserved name =>
      lit "Alias name '" ++ name
      ++ lit "' is reserved (small/medium/large are tier keywords). Use a different name."
  | AliasNameMissingAtSign name =>
      lit "Alias name '" ++ name ++ lit "' must start with '@' (e.g. '@" ++ name
      ++ lit "'). Reserved tier names (small/medium/large) do not need '@'."
  | InvalidProvider name =>
      lit "Alias '" ++ name ++ lit "' has invalid provider — must be a non-empty string."
  | InvalidModel name =>
      lit "Alias '" ++ name ++ lit "' has invalid model — must be a non-empty string."
  | InvalidTierName name supported =>
      lit "Tier name '" ++ name ++ lit "' is invalid. Supported tiers: " ++ supported ++ lit "."
  | TierNotConfigured tier provider =>
      lit "Tier '" ++ tier ++ lit "' has no configured preset and no built-in default for provider '"
      ++ provider ++ lit "'. Configure 'tiers.small/medium/large' in .archon/config.yaml."
  | UnknownAlias alias defined =>
      lit "Unknown alias '" ++ alias ++ lit "'. Defined aliases: " ++ defined
  end.

Definition ThinkingConfig_to_value (t : ThinkingConfig) : value :=
  match t with
  | Adaptive => Object [(lit "type", String (lit "adaptive"))]
  | Enabled budget =>
      Object ((lit "type", String (lit "enabled"))
              :: match budget with Some n => [(lit "budgetTokens", json_N n)] | None => [] end)
  | Disabled => Object [(lit "type", String (lit "disabled"))]
  end.

(** [serde_json::to_value] of the hooks and of the sandbox settings. *)
Class OptionValues : Type := {
  hooks_to_value : WorkflowNodeHooks -> option value;
  sandbox_to_value : SandboxSettings -> option value;
}.

Record WorkflowLevelOptions : Type := mk_WorkflowLevelOptions {
  wlo_effort : option EffortLevel;
  wlo_thinking : option ThinkingConfig;
  wlo_fallback_model : option str;
  wlo_betas : option (list str);
  wlo_sandbox : option SandboxSettings;
}.

Definition effort_level_to_str (e : EffortLevel) : str :=
  match e with
  | Effort_Low => lit "low"
  | Effort_Medium => lit "medium"
  | Effort_High => lit "high"
  | Effort_Max => lit "max"
  end.

Definition inline_agent_from_def (a : AgentDefinition) : InlineAgentDefinition :=
  mk_InlineAgentDefinition (agent_description a) (agent_prompt a) (agent_model a) (agent_tools a)
    (agent_disallowed_tools a) (agent_skills a) (agent_max_turns a).

Record ResolvedProviderAndModel : Type := mk_ResolvedProviderAndModel {
  rp_provider : str;
  rp_model : option str;
  rp_base_options : SendQueryOptions;
  rp_node_config : option NodeConfig;
  rp_assistant_config : option (gmap str value);
}.

(** [a.or(b)], [a.is_some()], [a.map(|l| !l.is_empty()).unwrap_or(false)]. *)
Definition opt_or {A} (a b : option A) : option A := match a with Some _ => a | None => b end.
Definition is_set {A} (o : option A) : bool := match o with Some _ => true | None => false end.
Definition non_empty {A} (o : option (list A)) : bool :=
  match o with Some l => negb (is_empty l) | None => false end.

(** ** [apply_preset_options] *)

Definition set_thinking (v : option value) (c : NodeConfig) : NodeConfig :=
  mk_NodeConfig (nc_node_id c) (nc_mcp c) (nc_hooks c) (nc_skills c) (nc_agents c) (nc_allowed_tools c)
    (nc_denied_tools c) (nc_effort c) v (nc_sandbox c) (nc_betas c) (nc_output_format c)
    (nc_max_budget_usd c) (nc_system_prompt c) (nc_fallback_model c) (nc_idle_timeout c) (nc_extra c).
Definition set_effort (e : option str) (c : NodeConfig) : NodeConfig :=
  mk_NodeConfig (nc_node_id c) (nc_mcp c) (nc_hooks c) (nc_skills c) (nc_agents c) (nc_allowed_tools c)
    (nc_denied_tools c) e (nc_thinking c) (nc_sandbox c) (nc_betas c) (nc_output_format c)
    (nc_max_budget_usd c) (nc_system_prompt c) (nc_fallback_model c) (nc_idle_timeout c) (nc_extra c).

Definition apply_preset_options (provider : str) (preset : option ModelAliasPreset)
    (node_thinking : option ThinkingConfig) (node_effort : option EffortLevel)
    (workflow_thinking : option ThinkingConfig) (workflow_effort : option EffortLevel)
    (node_config : NodeConfig) (assistant_config : gmap str value) : NodeConfig * gmap str value :=
  match preset with
  | None => (node_config, assistant_config)
  | Some preset =>
      let node_config :=
        match preset_thinking preset with
        | Some t =>
            if negb (is_set node_thinking) && negb (is_set workflow_thinking)
            then set_thinking (Some (ThinkingConfig_to_value t)) node_config else node_config
        | None => node_config
        end in
      match preset_effort preset with
      | None => (node_config, assistant_config)
      | Some effort =>
          if is_set node_effort || is_set workflow_effort then (node_config, assistant_config)
          else
            match route_preset_effort provider effort with
            | None => (node_config, assistant_config)
            | Some routed =>
                match field routed with
                | Effort => (set_effort (Some (ModelValidation.value routed)) node_config, assistant_config)
                | ModelReasoningEffortField =>
                    (node_config,
                     <[lit "modelReasoningEffort" := String (ModelValidation.value routed)]> assistant_config)
                end
            end
      end
  end.

(** ** Resolution *)

Section Resolve.
Context `{UnicodeCase} `{HashMapOrder} `{OptionValues}.
Context {agent : Type}.
Variable registry : Registry agent.
Variable node : DagNode.
Variable workflow_provider : str.
Variable workflow_model : option str.
Variable config_env_vars : option (gmap str str).
Variable config_assistants : gmap str value.
Variable node_system_prompt : option str.
Variable node_max_budget_usd : option f64.
Variable node_output_format : option value.
Variable ai_profile : option ResolvedAiProfile.
Variable workflow_preset : option ModelAliasPreset.
Variable workflow_level_options : WorkflowLevelOptions.

Let b := base node.
Let nid := node_id node.
Let wlo := workflow_level_options.

(** A warning; an error of the platform that is fatal ends the resolution. *)
Definition warn_user (msg : str) : proc (result str unit) :=
  sent ← send_text msg nid None;
  mret (match sent with
        | Err (SendFatal e) => Err (lit "Platform authentication/permission error: " ++ e)
        | _ => Ok tt
        end).

(** What the model reference of the node stands for: the provider, the preset and the
    model, with the conflict the user is warned of. *)
Record ModelChoice : Type := mk_ModelChoice {
  mc_provider : str;
  mc_preset : option ModelAliasPreset;
  mc_model : option str;
  mc_warning : option str;
}.
Definition configured_provider : str := default workflow_provider (base_provider b).
Definition conflict_warning (node_provider node_model provider : str) : str :=
  lit "Warning: Node '" ++ nid ++ lit "' sets provider '" ++ node_provider ++ lit "' but model '"
  ++ node_model ++ lit "' resolves to provider '" ++ provider ++ lit "' — using '" ++ provider ++ lit "'.".
Definition model_choice : result str ModelChoice :=
  let literal := mk_ModelChoice configured_provider None (base_model b) None in
  match base_model b, ai_profile with
  | Some node_model, Some profile =>
      match resolve_model_spec profile node_model with
      | Err e =>
          Err (lit "Node '" ++ nid ++ lit "': model spec resolution failed: "
               ++ ModelValidationError_to_string e)
      | Ok (Literal l) => Ok (mk_ModelChoice configured_provider None (Some l) None)
      | Ok (Preset p) =>
          let provider := preset_provider p in
          Ok (mk_ModelChoice provider (Some p) (Some (preset_model p))
                (match base_provider b with
                 | Some node_provider =>
                     if str_eqb node_provider provider then None
                     else Some (conflict_warning node_provider node_model provider)
                 | None => None
                 end))
      end
  | _, _ => Ok literal
  end.

Definition unknown_provider_error (provider : str) : str :=
  lit "Node '" ++ nid ++ lit "': unknown provider '" ++ provider ++ lit "'. Registered: "
  ++ join (lit ", ") (map info_id (get_registered_providers registry)).

(** The model of the workflow, or of the provider's assistant defaults. *)
Definition default_model (provider : str) : option str :=
  if str_eqb provider workflow_provider then workflow_model
  else config_assistants !! provider ≫= (fun v => value_get (lit "model") v ≫= as_str).
Definition resolved_model (c : ModelChoice) : option str :=
  opt_or (mc_model c) (default_model (mc_provider c)).
Definition effective_preset (c : ModelChoice) : option ModelAliasPreset :=
  match mc_preset c with
  | Some p => Some p
  | None =>
      if negb (is_set (base_model b)) && str_eqb (mc_provider c) workflow_provider
      then workflow_preset else None
  end.

(** The options the node sets and the provider lacks. *)
Definition cap_checks (caps : ProviderCapabilities) : list (str * (bool * bool)) :=
  [(lit "allowed_tools/denied_tools",
    (cap_tool_restrictions caps, is_set (allowed_tools b) || is_set (denied_tools b)));
   (lit "hooks", (cap_hooks caps, is_set (base_hooks b)));
   (lit "mcp", (cap_mcp caps, is_set (base_mcp b)));
   (lit "skills", (cap_skills caps, non_empty (base_skills b)));
   (lit "agents", (cap_agents caps, is_set (base_agents b)));
   (lit "effort", (cap_effort_control caps, is_set (base_effort b) || is_set (wlo_effort wlo)));
   (lit "thinking", (cap_thinking_control caps, is_set (base_thinking b) || is_set (wlo_thinking wlo)));
   (lit "maxBudgetUsd", (cap_cost_control caps, is_set (max_budget_usd b)));
   (lit "fallbackModel",
    (cap_fallback_model caps, is_set (fallback_model b) || is_set (wlo_fallback_model wlo)));
   (lit "sandbox", (cap_sandbox caps, is_set (base_sandbox b) || is_set (wlo_sandbox wlo)));
   (lit "env",
    (cap_env_injection caps,
     match config_env_vars with Some m => negb (bool_decide (m = ∅)) | None => false end))].
Definition unsupported (caps : ProviderCapabilities) : list str :=
  map fst (List.filter (fun e => snd (snd e) && negb (fst (snd e))) (cap_checks caps)).
Definition unsupported_warning (provider : str) (l : list str) : str :=
  let one := Nat.eqb (length l) 1 in
  lit "Warning: Node '" ++ nid ++ lit "' uses " ++ join (lit ", ") l ++ lit " but " ++ provider
  ++ lit " doesn't support " ++ (if one then lit "it" else lit "them") ++ lit " — "
  ++ (if one then lit "this will be" else lit "these will be") ++ lit " ignored.".

Definition reserved_agent_warning : str :=
  lit "Warning: Node '" ++ nid
  ++ lit "' defines an agent with reserved ID 'dag-node-skills' AND uses 'skills:'. Your inline agent overrides Archon's automatic skills wrapper — the 'skills:' field will NOT take effect. Rename the agent or remove 'skills:' to fix.".
Definition agent_collides : bool :=
  match base_agents b with
  | Some agents => bool_decide (is_Some (agents !! lit "dag-node-skills")) && non_empty (base_skills b)
  | None => false
  end.

(** The options and the configuration the provider gets. *)
Definition resolved_fallback : option str := opt_or (fallback_model b) (wlo_fallback_model wlo).
Definition node_config_of : NodeConfig := {|
  nc_node_id := Some nid;
  nc_mcp := base_mcp b;
  nc_hooks := base_hooks b ≫= hooks_to_value;
  nc_skills := base_skills b;
  nc_agents := (fun m : gmap str AgentDefinition => inline_agent_from_def <$> m) <$> base_agents b;
  nc_allowed_tools := allowed_tools b;
  nc_denied_tools := denied_tools b;
  nc_effort := effort_level_to_str <$> opt_or (base_effort b) (wlo_effort wlo);
  nc_thinking := ThinkingConfig_to_value <$> opt_or (base_thinking b) (wlo_thinking wlo);
  nc_sandbox := opt_or (base_sandbox b) (wlo_sandbox wlo) ≫= sandbox_to_value;
  nc_betas := opt_or (betas b) (wlo_betas wlo);
  nc_output_format := (fun m : object => list_to_map m : gmap str value) <$> output_format b;
  nc_max_budget_usd := max_budget_usd b;
  nc_system_prompt := SP_Single <$> system_prompt b;
  nc_fallback_model := resolved_fallback;
  nc_idle_timeout := None;
  nc_extra := ∅;
|}.
Definition assistant_config_of (provider : str) : gmap str value :=
  match config_assistants !! provider ≫= as_object with
  | Some obj => list_to_map obj
  | None => ∅
  end.
Definition base_options_of (model : option str) (nc : NodeConfig) (ac : gmap str value)
  : SendQueryOptions := {|
  so_model := model;
  so_system_prompt := SP_Single <$> node_system_prompt;
  so_output_format :=
    (fun fmt => mk_OutputFormat (match fmt with Object m => m | _ => [] end)) <$> node_output_format;
  so_env := config_env_vars;
  so_max_budget_usd := node_max_budget_usd;
  so_fallback_model := resolved_fallback;
  so_fork_session := None;
  so_persist_session := None;
  so_native_tools := None;
  so_node_config := Some nc;
  so_assistant_config := Some ac;
|}.
Definition resolution (c : ModelChoice) : ResolvedProviderAndModel :=
  let provider := mc_provider c in
  let '(nc, ac) :=
    apply_preset_options provider (effective_preset c) (base_thinking b) (base_effort b)
      (wlo_thinking wlo) (wlo_effort wlo) node_config_of (assistant_config_of provider) in
  mk_ResolvedProviderAndModel provider (resolved_model c)
    (base_options_of (resolved_model c) nc ac) None None.

(** A warning when there is one; what follows it unless it is fatal. *)
Definition warn_then {A} (warning : option str) (next : proc (result str A)) : proc (result str A) :=
  match warning with
  | None => next
  | Some msg =>
      r ← warn_user msg;
      match (r : result str unit) with Err e => mret (Err e) | Ok _ => next end
  end.

Definition resolve_node_provider_and_model : proc (result str ResolvedProviderAndModel) :=
  match model_choice with
  | Err e => mret (Err e)
  | Ok c =>
      warn_then (mc_warning c)
        (match registry_get (mc_provider c) registry with
         | None => mret (Err (unknown_provider_error (mc_provider c)))
         | Some entry =>
             let l := unsupported (reg_capabilities entry) in
             warn_then (if is_empty l then None else Some (unsupported_warning (mc_provider c) l))
               (warn_then (if agent_collides then Some reserved_agent_warning else None)
                  (mret (Ok (resolution c))))
         end)
  end.

(** [resolve_node_provider_and_model_sync]. *)
Definition resolve_node_provider_and_model_sync : result str ResolvedProviderAndModel :=
  let provider := configured_provider in
  if negb (is_registered_provider provider registry) then Err (unknown_provider_error provider)
  else
    let model := opt_or (base_model b) (default_model provider) in
    Ok (mk_ResolvedProviderAndModel provider model
          (mk_SendQueryOptions model None None config_env_vars None None None None None None None)
          None None).
End Resolve.

(** ** What resolution gives *)

(** The texts sent to the user, each with whether the platform refused it for good. *)
Definition sent_at `{UnicodeCase} (e : event) : option (str * option str) :=
  let '(mk_event c r) := e in
  match c return ret c -> option (str * option str) with
  | SendText text _ _ => fun sent =>
      Some (text, match fst (safe_send_message sent None) with Err (SendFatal m) => Some m | _ => None end)
  | _ => fun _ => None
  end r.
Definition sent_texts `{UnicodeCase} (tr : trace) : list (str * option str) := omap sent_at tr.

Section Resolution.
Context `{UnicodeCase} `{HashMapOrder} `{OptionValues}.
Context {agent : Type}.
Variable registry : Registry agent.
Variable node : DagNode.
Variable workflow_provider : str.
Variable workflow_model : option str.
Variable config_env_vars : option (gmap str str).
Variable config_assistants : gmap str value.
Variable node_system_prompt : option str.
Variable node_max_budget_usd : option f64.
Variable node_output_format : option value.
Variable ai_profile : option ResolvedAiProfile.
Variable workflow_preset : option ModelAliasPreset.
Variable wlo : WorkflowLevelOptions.

(** What the user is warned of when the provider is registered with [caps]. *)
Definition option_list {A} (o : option A) : list A := match o with Some a => [a] | None => [] end.
Definition warnings_of (c : ModelChoice) (caps : ProviderCapabilities) : list str :=
  let l := unsupported node config_env_vars wlo caps in
  option_list (mc_warning c)
  ++ (if is_empty l then [] else [unsupported_warning node (mc_provider c) l])
  ++ (if agent_collides node then [reserved_agent_warning node] else []).

(** The texts [l] were sent: all of them, or up to one that was refused. *)
Inductive warned {A} : list str -> result str A -> list (str * option str) -> result str A -> Prop :=
| Warned_all next : warned [] next [] next
| Warned_fatal text l next m :
    warned (text :: l) next [(text, Some m)] (Err (lit "Platform authentication/permission error: " ++ m))
| Warned_sent text l next sent r :
    warned l next sent r -> warned (text :: l) next ((text, None) :: sent) r.

Lemma warned_ok {A} l (next : result str A) sent a :
  warned l next sent (Ok a) ->
  next = Ok a /\ map fst sent = l /\ Forall (fun x => snd x = None) sent.
Proof.
  intros Hw. remember (Ok a) as res eqn:Hres. revert Hres.
  induction Hw as [next|text l next m|text l next sent res Hw IH]; intros Hres; [by subst|done|].
  destruct (IH Hres) as (-> & <- & Hs). split_and!; [done|done|]. by constructor.
Qed.

Lemma warn_then_warned {A} warning (next : proc (result str A)) (l : list str) (r0 : result str A) :
  always next (fun tr o => exists r, o = Ret r /\ warned l r0 (sent_texts tr) r) ->
  always (warn_then node warning next)
    (fun tr o => exists r, o = Ret r /\ warned (option_list warning ++ l) r0 (sent_texts tr) r).
Proof.
  intros Hnext. destruct warning as [text|]; [|exact Hnext].
  unfold warn_then, warn_user, send_text. intros answer. cbn [mbind proc_bind mret proc_ret ask].
  destruct (fst (safe_send_message answer None)) as [d|[m|n m]] eqn:Hs; cbn [mbind proc_bind].
  - eapply always_mono, Hnext. intros tr o (r & -> & Hr). exists r. split; [done|].
    unfold sent_texts. cbn [omap list_omap sent_at]. rewrite Hs. by constructor.
  - cbn [always]. eexists. split; [done|]. unfold sent_texts. cbn [omap list_omap sent_at].
    rewrite Hs. constructor.
  - eapply always_mono, Hnext. intros tr o (r & -> & Hr). exists r. split; [done|].
    unfold sent_texts. cbn [omap list_omap sent_at]. rewrite Hs. by constructor.
Qed.

Let resolve := resolve_node_provider_and_model registry node workflow_provider workflow_model
  config_env_vars config_assistants node_system_prompt node_max_budget_usd node_output_format
  ai_profile workflow_preset wlo.
Let choice := model_choice node workflow_provider ai_profile.

Lemma resolve_always :
  always resolve (fun tr o => exists r, o = Ret r /\
    match choice with
    | Err e => sent_texts tr = [] /\ r = Err e
    | Ok c =>
        match registry_get (mc_provider c) registry with
        | None =>
            warned (option_list (mc_warning c))
              (Err (unknown_provider_error registry node (mc_provider c))) (sent_texts tr) r
        | Some entry =>
            warned (warnings_of c (reg_capabilities entry))
              (Ok (resolution node workflow_provider workflow_model config_env_vars config_assistants
                     node_system_prompt node_max_budget_usd node_output_format workflow_preset wlo c))
              (sent_texts tr) r
        end
    end).
Proof.
  unfold resolve, resolve_node_provider_and_model, choice.
  destruct (model_choice node workflow_provider ai_profile) as [c|e]; [|by eexists].
  destruct (registry_get (mc_provider c) registry) as [entry|].
  - unfold warnings_of. apply warn_then_warned.
    replace (if is_empty (unsupported node config_env_vars wlo (reg_capabilities entry)) then []
             else [unsupported_warning node (mc_provider c)
                     (unsupported node config_env_vars wlo (reg_capabilities entry))])
      with (option_list (if is_empty (unsupported node config_env_vars wlo (reg_capabilities entry))
                         then None
                         else Some (unsupported_warning node (mc_provider c)
                                (unsupported node config_env_vars wlo (reg_capabilities entry)))))
      by (by destruct (is_empty _)).
    apply warn_then_warned. rewrite <- (app_nil_r (if agent_collides node then _ else _)).
    replace (if agent_collides node then [reserved_agent_warning node] else [])
      with (option_list (if agent_collides node then Some (reserved_agent_warning node) else None))
      by (by destruct (agent_collides node)).
    apply warn_then_warned. eexists. split; [done|]. constructor.
  - rewrite <- (app_nil_r (option_list (mc_warning c))). apply warn_then_warned.
    eexists. split; [done|]. constructor.
Qed.

(** ** Precedence *)

(** A preset's effort, where the provider takes it as [effort]. *)
Definition preset_effort_for (provider : str) (preset : option ModelAliasPreset) : option str :=
  p ← preset;
  e ← preset_effort p;
  r ← route_preset_effort provider e;
  match field r with Effort => Some (ModelValidation.value r) | ModelReasoningEffortField => None end.

Lemma preset_options provider preset nt ne wt we nc ac :
  let '(nc', _) := apply_preset_options provider preset nt ne wt we nc ac in
  nc_effort nc' = (if is_set ne || is_set we then nc_effort nc
                   else opt_or (preset_effort_for provider preset) (nc_effort nc))
  /\ nc_thinking nc' =
      (if is_set nt || is_set wt then nc_thinking nc
       else opt_or (ThinkingConfig_to_value <$> (preset ≫= preset_thinking)) (nc_thinking nc))
  /\ nc_mcp nc' = nc_mcp nc /\ nc_hooks nc' = nc_hooks nc /\ nc_skills nc' = nc_skills nc
  /\ nc_allowed_tools nc' = nc_allowed_tools nc /\ nc_denied_tools nc' = nc_denied_tools nc
  /\ nc_sandbox nc' = nc_sandbox nc.
Proof.
  unfold apply_preset_options, preset_effort_for.
  destruct preset as [p|]; [|by destruct (is_set ne || is_set we), (is_set nt || is_set wt)].
  cbn [mbind option_bind].
  destruct (preset_thinking p) as [t|], (preset_effort p) as [e|]; cbn [mbind option_bind fmap option_fmap option_map];
    destruct (is_set nt), (is_set wt), (is_set ne), (is_set we); cbn [negb andb orb]; try done;
    destruct (route_preset_effort provider e) as [[[] v]|]; done.
Qed.

(** C17: an AI node that is resolved runs with a registered provider, after every warning
    due reached the platform without a fatal answer.  The provider is the one a model
    alias stands for, else the node's, else the workflow's; the model is the node's, else
    the workflow's for its own provider, else the default of the provider's assistant.
    Effort and thinking are the node's, else the workflow's, else the preset's; the tool
    restrictions, the hooks, the skills and the sandbox reach the provider as the node
    declares them. *)
Theorem node_resolution w past p :
  let r := exec w past resolve in
  snd r = Ret (Ok p) ->
  exists c entry nc,
    choice = Ok c /\ registry_get (rp_provider p) registry = Some entry
    /\ map fst (sent_texts (fst r)) = warnings_of c (reg_capabilities entry)
    /\ Forall (fun x => snd x = None) (sent_texts (fst r))
    /\ rp_provider p =
        match mc_preset c with
        | Some preset => preset_provider preset
        | None => default workflow_provider (base_provider (base node))
        end
    /\ rp_model p = opt_or (mc_model c)
                      (if str_eqb (rp_provider p) workflow_provider then workflow_model
                       else default_model workflow_provider workflow_model config_assistants (rp_provider p))
    /\ so_model (rp_base_options p) = rp_model p
    /\ so_node_config (rp_base_options p) = Some nc
    /\ nc_effort nc =
        opt_or (effort_level_to_str <$> opt_or (base_effort (base node)) (wlo_effort wlo))
          (preset_effort_for (rp_provider p) (effective_preset node workflow_provider workflow_preset c))
    /\ nc_thinking nc =
        ThinkingConfig_to_value <$>
          opt_or (base_thinking (base node))
            (opt_or (wlo_thinking wlo)
               (effective_preset node workflow_provider workflow_preset c ≫= preset_thinking))
    /\ nc_allowed_tools nc = allowed_tools (base node) /\ nc_denied_tools nc = denied_tools (base node)
    /\ nc_hooks nc = base_hooks (base node) ≫= hooks_to_value
    /\ nc_skills nc = base_skills (base node)
    /\ nc_sandbox nc = opt_or (base_sandbox (base node)) (wlo_sandbox wlo) ≫= sandbox_to_value.
Proof.
  intros r Hr. pose proof (always_exec _ _ w past resolve_always) as (x & Hx & Hspec).
  fold r in Hx, Hspec. rewrite Hr in Hx. injection Hx as <-.
  destruct choice as [c|e] eqn:Hc; [|by destruct Hspec].
  assert (mc_provider c = match mc_preset c with
                          | Some preset => preset_provider preset
                          | None => default workflow_provider (base_provider (base node))
                          end) as Hprov.
  { unfold choice, model_choice in Hc. repeat case_match; simplify_eq/=; done. }
  destruct (registry_get (mc_provider c) registry) as [entry|] eqn:Hreg;
    destruct (warned_ok _ _ _ _ Hspec) as (Hp & Hsent & Hnone); [|done].
  injection Hp as <-. unfold resolution.
  pose proof (preset_options (mc_provider c) (effective_preset node workflow_provider workflow_preset c)
    (base_thinking (base node)) (base_effort (base node)) (wlo_thinking wlo) (wlo_effort wlo)
    (node_config_of node wlo) (assistant_config_of config_assistants (mc_provider c))) as Hpre.
  destruct (apply_preset_options _ _ _ _ _ _ _ _) as [nc ac]. cbn [rp_provider rp_model rp_base_options].
  destruct Hpre as (He & Ht & Hm & Hh & Hsk & Ha & Hd & Hsb).
  exists c, entry, nc. split_and!; try done.
  - unfold resolved_model, default_model. by destruct (str_eqb (mc_provider c) workflow_provider).
  - rewrite He. cbn [node_config_of nc_effort].
    by destruct (base_effort (base node)), (wlo_effort wlo), (preset_effort_for _ _).
  - rewrite Ht. cbn [node_config_of nc_thinking].
    by destruct (base_thinking (base node)), (wlo_thinking wlo), (effective_preset _ _ _ _) as [[? ? ? []]|].
Qed.
End Resolution.


(** Without model aliases the synchronous form agrees on the provider and the model. *)
Lemma resolve_sync_agrees `{UnicodeCase} `{HashMapOrder} `{OptionValues} {agent} (registry : Registry agent)
    node wp wm env assistants sp mb fmt preset wlo w past p :
  snd (exec w past (resolve_node_provider_and_model registry node wp wm env assistants sp mb fmt None
                      preset wlo)) = Ret (Ok p) ->
  exists q, resolve_node_provider_and_model_sync registry node wp wm env assistants = Ok q
    /\ rp_provider q = rp_provider p /\ rp_model q = rp_model p.
Proof.
  intros Hp. pose proof (always_exec _ _ w past
    (resolve_always registry node wp wm env assistants sp mb fmt None preset wlo)) as (x & Hx & Hspec).
  rewrite Hp in Hx. injection Hx as <-.
  assert (model_choice node wp None = Ok (mk_ModelChoice (configured_provider node wp) None (base_model (base node)) None))
    as Hc by (unfold model_choice; by destruct (base_model (base node))).
  rewrite Hc in Hspec. cbn [mc_provider mc_warning option_list app] in Hspec.
  unfold resolve_node_provider_and_model_sync, is_registered_provider, contains_key.
  destruct (registry_get (configured_provider node wp) registry) as [entry|].
  - apply warned_ok in Hspec as ([= <-] & _). eexists. split; [done|]. unfold resolution.
    by destruct (apply_preset_options _ _ _ _ _ _ _ _).
  - by apply warned_ok in Hspec as ([=] & _).
Qed.

(** ** A concrete node *)

#[local] Existing Instance ascii_case.
#[local] Existing Instance canonical_order.

#[export] Instance sample_option_values : OptionValues :=
  {| hooks_to_value _ := Some Null; sandbox_to_value _ := Some Null |}.
(** An alias [@fast] of a Claude model with an effort. *)
Definition sample_profile : ResolvedAiProfile :=
  mk_ResolvedAiProfile (lit "claude")
    {[lit "@fast" := mk_ModelAliasPreset (lit "claude") (lit "haiku") (Some (lit "low")) None]}.
Definition fast_node : DagNode :=
  Prompt (mk_PromptNode
    (mk_DagNodeBase (lit "n") [] None None (Some (lit "@fast")) (Some (lit "codex")) None None None None
       None None None None None None None None None None None None None None None None) (lit "Go")).
Abbreviation resolve_fast :=
  (exec good_world []
     (resolve_node_provider_and_model (register_bundled (fun id => id) []) fast_node (lit "codex")
        None None ∅ None None None (Some sample_profile) None
        (mk_WorkflowLevelOptions None None None None None))).

Lemma node_resolution_witness :
  exists p nc, snd resolve_fast = Ret (Ok p) /\ rp_provider p = lit "claude"
    /\ rp_model p = Some (lit "haiku") /\ so_node_config (rp_base_options p) = Some nc
    /\ nc_effort nc = Some (lit "low") /\ length (sent_texts (fst resolve_fast)) = 1.
Proof.
  assert (exists p, snd resolve_fast = Ret (Ok p)) as [p Hp] by (eexists; by_compute).
  destruct (node_resolution (register_bundled (fun id => id) []) fast_node (lit "codex") None None ∅
              None None None (Some sample_profile) None (mk_WorkflowLevelOptions None None None None None)
              good_world [] p Hp)
    as (c & entry & nc & Hc & _ & _ & _ & Hprov & Hmodel & _ & Hnc & Heffort & _).
  assert (model_choice fast_node (lit "codex") (Some sample_profile) = Ok
    (mk_ModelChoice (lit "claude")
       (Some (mk_ModelAliasPreset (lit "claude") (lit "haiku") (Some (lit "low")) None)) (Some (lit "haiku"))
       (Some (conflict_warning fast_node (lit "codex") (lit "@fast") (lit "claude"))))) as Hchoice by by_compute.
  rewrite Hchoice in Hc. injection Hc as <-. cbn [mc_preset preset_provider] in Hprov.
  exists p, nc. rewrite Hmodel, Heffort, Hprov. split_and!; [exact Hp|done|done|exact Hnc|by_compute|by_compute].
Defined.
