(* ===== verification/ApprovalNode.v ===== *)
(** * Approval nodes

    [execute_approval_node] and [approval_pre_exec_failure] of [dag_executor.rs]: the
    gate that pauses a run until a human approves it, and what a rejection does.

    The execution of an AI node and the resolution of its provider, which the handling
    of a rejection calls, are the interface [AiNodes]; its law says that they leave the
    status of the run alone. *)

From S2P Require Import Prelude Float64 Json StdModel Regex DagNode Workflow ExecutorShared DagCore.
From S2P Require Import DagRun RunTheorems RunStore Provider NodeProc ScriptNode NodeStream.


(** ** The interface to the AI nodes *)

Class AiNodes : Type := {
  resolve_node_provider_and_model : DagNode -> proc (result str (str * SendQueryOptions));
  execute_node_internal : DagNode -> str -> option SendQueryOptions -> gmap str NodeOutput ->
    option str -> proc NodeExecutionResult;
  resolve_keeps_status n : only_calls keeps_status (resolve_node_provider_and_model n);
  internal_keeps_status n p o outs s : only_calls keeps_status (execute_node_internal n p o outs s);
}.

(** ** What the metadata of the run says *)

(** The reason of the rejection this node is resumed with, empty when there is none. *)
Definition rejection_reason (run : WorkflowRun) (node_id : str) : str :=
  if gate_matches "approval" node_id run
  then default [] (assoc_get (lit "rejection_reason") (metadata run) ≫= as_str)
  else [].
Definition rejection_count (run : WorkflowRun) : f64 :=
  default f64_zero (assoc_get (lit "rejection_count") (metadata run) ≫= value_as_f64).
Definition max_attempts_of (r : ApprovalOnReject) : N := default 3%N (on_reject_max_attempts r).

(** [DagNodeBase] with an identifier, dependencies and an idle timeout. *)
Definition synthetic_base (id : str) (b : DagNodeBase) : DagNodeBase :=
  mk_DagNodeBase id (base_depends_on b) None None None None None None None None (idle_timeout b)
    None None None None None None None None None None None None None None None.

Section Approval.
Context `{RegexEngine} `{SerdeJson} `{UnicodeCase} `{AiNodes}.
Variable env : NodeEnv.

Let run := ne_run env.

Definition approval_pre_exec_failure (node_id err : str) : proc NodeOutput :=
  _ ← emit_workflow_event (lit "node_failed") node_id [(lit "error", String err)];
  _ ← bus (lit "node_failed") node_id (Some node_id) None (Some err) None;
  _ ← notify (lit "Node '" ++ node_id ++ lit "' failed before execution: " ++ err) node_id;
  mret (failed_output err).

(** The attempts are exhausted: the run is cancelled. *)
Definition cancel_exhausted (node_id : str) (max_attempts : N) : proc NodeOutput :=
  _ ← ask CancelWorkflowRun;
  let reason := lit "max_attempts (" ++ show_N max_attempts ++ lit ") exhausted" in
  _ ← emit_workflow_event (lit "workflow_cancelled") node_id [(lit "reason", String reason)];
  _ ← bus (lit "workflow_cancelled") node_id None (Some reason) None None;
  _ ← notify (lit "❌ Approval node `" ++ node_id ++ lit "` cancelled after "
              ++ show_N max_attempts ++ lit " rejections.") node_id;
  mret (completed_output []).

(** The node that runs the prompt of [on_reject]. *)
Definition synthetic_node (node : ApprovalNode) (prompt : str) : DagNode :=
  let b := approval_base node in
  DagNode.Prompt (mk_PromptNode (synthetic_base (base_id b ++ lit ":on_reject") b) prompt).

(** The rejection handled by an AI node; [Some] output ends the approval node. *)
Definition run_on_reject (node : ApprovalNode) (r : ApprovalOnReject) (reason : str)
    (node_outputs : gmap str NodeOutput) : proc (option NodeOutput) :=
  let node_id := base_id (approval_base node) in
  match substitute_workflow_variables (on_reject_prompt r) (run_id run) (user_message run)
          (ne_artifacts_dir env) (ne_base_branch env) (ne_docs_dir env) (ne_issue_context env)
          None (Some reason) None false with
  | Err _ => Some <$> approval_pre_exec_failure node_id BaseBranchEmptyError_to_string
  | Ok sr =>
      prompt ← substitute_refs (sr_prompt sr) node_outputs false None;
      let synthetic := synthetic_node node prompt in
      resolved ← resolve_node_provider_and_model synthetic;
      match resolved with
      | Err e => Some <$> approval_pre_exec_failure node_id e
      | Ok (provider, base_options) =>
          x ← execute_node_internal synthetic provider (Some base_options) node_outputs None;
          match er_state x with
          | Exec_Failed_ =>
              mret (Some (Failed (er_output x) (er_session_id x) (default [] (er_error x))
                            (er_structured_output x) (er_declared_fields x)))
          | Exec_Completed_ => mret None
          end
      end
  end.

Definition approval_ctx (node : ApprovalNode) (rendered_message : str) : ApprovalContext :=
  let a := approval node in
  {| ctx_node_id := base_id (approval_base node);
     ctx_message := rendered_message;
     approval_type := Some Ctx_Approval;
     iteration := None;
     ctx_session_id := None;
     ctx_capture_response := capture_response a;
     ctx_on_reject_prompt := on_reject_prompt <$> on_reject a;
     ctx_on_reject_max_attempts :=
       n ← on_reject a ≫= on_reject_max_attempts; Some (f64_of_Z (Z.of_N n)) |}.

(** [StoreError]'s text is what the store answers. *)
Definition open_gate (node : ApprovalNode) (node_outputs : gmap str NodeOutput) : proc NodeOutput :=
  let node_id := base_id (approval_base node) in
  rendered_message ← substitute_refs (approval_message (approval node)) node_outputs false None;
  let rid := run_id run in
  _ ← notify (lit "⏸ **Approval required**: " ++ rendered_message ++ newline ++ newline
              ++ lit "Run ID: `" ++ rid ++ lit "`" ++ newline ++ lit "Approve: `/workflow approve "
              ++ rid ++ lit "` | Reject: `/workflow reject " ++ rid ++ lit "`") node_id;
  _ ← emit_typed_event ApprovalRequested node_id [(lit "message", String rendered_message)];
  paused ← ask (PauseWorkflowRun (approval_ctx node rendered_message));
  match paused with
  | Err e => approval_pre_exec_failure node_id e
  | Ok _ =>
      _ ← bus (lit "approval_pending") node_id None None None None;
      mret (completed_output [])
  end.

(** Whether a rejection is to be handled, and whether its attempts are used up. *)
Definition pending_rejection (node : ApprovalNode) : option (ApprovalOnReject * str) :=
  let reason := rejection_reason run (base_id (approval_base node)) in
  if negb (is_empty reason) then (fun r => (r, reason)) <$> on_reject (approval node) else None.
Definition exhausted (r : ApprovalOnReject) : bool :=
  f64_leb (f64_of_Z (Z.of_N (max_attempts_of r))) (rejection_count run).

Definition execute_approval_node (node : ApprovalNode) (node_outputs : gmap str NodeOutput)
  : proc NodeOutput :=
  match pending_rejection node with
  | None => open_gate node node_outputs
  | Some (r, reason) =>
      if exhausted r then cancel_exhausted (base_id (approval_base node)) (max_attempts_of r)
      else
        handled ← run_on_reject node r reason node_outputs;
        match handled with
        | Some out => mret out
        | None => open_gate node node_outputs
        end
  end.
End Approval.

(** ** What the gate guarantees *)

Section Theorems.
Context `{RegexEngine} `{SerdeJson} `{UnicodeCase} `{AiNodes}.
Variable env : NodeEnv.

(** The message the human reads. *)
Definition rendered (node : ApprovalNode) (outs : gmap str NodeOutput) : str :=
  fst (substitute_node_output_refs (fun _ _ => false) (approval_message (approval node)) outs
         false None).

(** The gate was opened, once: the run is paused for this node, or the store refused. *)
Definition opened (node : ApprovalNode) (outs : gmap str NodeOutput) (tr : trace)
    (o : outcome NodeOutput) : Prop :=
  cancels tr = 0 /\ exists answer,
    pause_answers tr = [(approval_ctx node (rendered node outs), answer)]
    /\ o = Ret (match answer with Ok _ => completed_output [] | Err e => failed_output e end).
(** The node stopped before its gate: the run is neither paused nor cancelled. *)
Definition stopped (result : outcome NodeOutput) (tr : trace) (o : outcome NodeOutput) : Prop :=
  o = result /\ cancels tr = 0 /\ pause_answers tr = [].

(** The prompt a rejection is handled with, or why there is none. *)
Definition rejection_prompt (r : ApprovalOnReject) (reason : str) (outs : gmap str NodeOutput)
  : result str str :=
  match substitute_workflow_variables (on_reject_prompt r) (run_id (ne_run env))
          (user_message (ne_run env)) (ne_artifacts_dir env) (ne_base_branch env)
          (ne_docs_dir env) (ne_issue_context env) None (Some reason) None false with
  | Err _ => Err BaseBranchEmptyError_to_string
  | Ok sr => Ok (fst (substitute_node_output_refs (fun _ _ => false) (sr_prompt sr) outs false None))
  end.

(** What the node does once the AI node that handles the rejection ended with [x]. *)
Definition after_handler (node : ApprovalNode) (outs : gmap str NodeOutput) (tr : trace)
    (o : outcome NodeOutput) (x : outcome NodeExecutionResult) : Prop :=
  match x with
  | Panic => stopped Panic tr o
  | Ret x =>
      match er_state x with
      | Exec_Failed_ =>
          stopped (Ret (Failed (er_output x) (er_session_id x) (default [] (er_error x))
                          (er_structured_output x) (er_declared_fields x))) tr o
      | Exec_Completed_ => opened node outs tr o
      end
  end.
(** A rejection is handled: the AI node is resolved and, if it can be, it runs. *)
Definition rejection_handled (node : ApprovalNode) (outs : gmap str NodeOutput) (prompt : str)
    (w : world) (past tr : trace) (o : outcome NodeOutput) : Prop :=
  let handler := synthetic_node node prompt in
  exists t1, t1 `prefix_of` tr /\
    let '(t2, resolved) := exec w (past ++ t1) (resolve_node_provider_and_model handler) in
    t1 ++ t2 `prefix_of` tr /\
    match resolved with
    | Panic => stopped Panic tr o
    | Ret (Err e) => stopped (Ret (failed_output e)) tr o
    | Ret (Ok (provider, options)) =>
        let '(t3, x) := exec w (past ++ t1 ++ t2)
                          (execute_node_internal handler provider (Some options) outs None) in
        t1 ++ t2 ++ t3 `prefix_of` tr /\ after_handler node outs tr o x
    end.

Lemma pre_exec_failure_quietly id err :
  quietly (approval_pre_exec_failure id err) (fun out => out = failed_output err).
Proof.
  unfold approval_pre_exec_failure, emit_workflow_event, bus. quiet_steps.
Qed.

Lemma opened_ignores node outs : ignores keeps_status (opened node outs).
Proof.
  intros tr tr' o [Hp Hc]%keeps_status_nothing [Hc' Hg]. split; [by rewrite cancels_app, Hc, Hc'|].
  by rewrite pause_answers_app, Hp.
Qed.
Lemma stopped_keeps x tr : Forall (fun e => keeps_status (ev_call e)) tr -> stopped x tr x.
Proof. intros [Hp Hc]%keeps_status_nothing. by split. Qed.

Lemma open_gate_opened node outs : always (open_gate env node outs) (opened node outs).
Proof.
  pose proof (opened_ignores node outs) as Hi.
  unfold open_gate. apply substitute_refs_then. intros write_ok. cbn zeta.
  rewrite (substitute_unescaped write_ok (fun _ _ => false)). fold (rendered node outs).
  eapply always_mono; [intros tr o; apply (Hi [_; _]); by repeat constructor|].
  rewrite always_bind. eapply always_mono, quietly_always, notify_quietly.
  intros t1 o (Ht1%reports_keep_status & _ & -> & _).
  eapply always_mono; [intros tr o'; by apply (Hi t1)|].
  intros []. eapply always_mono; [intros tr o'; apply (Hi [_]); by repeat constructor|].
  intros [[]|e]; cbn [mbind proc_bind].
  - intros []. split; [done|]. by exists (Ok tt).
  - eapply always_mono, quietly_always, pre_exec_failure_quietly.
    intros tr o' ([Hp Hc]%reports_keep_status%keeps_status_nothing & out & -> & ->).
    split; [exact Hc|]. exists (Err e). split; [|done].
    change (_ :: tr) with ([mk_event (PauseWorkflowRun (approval_ctx node (rendered node outs))) (Err e)] ++ tr).
    by rewrite pause_answers_app, Hp.
Qed.

(** A failure before the gate reports, and no more. *)
Lemma pre_exec_failure_exec id e w past :
  exists tr, Forall (fun e => keeps_status (ev_call e)) tr
    /\ exec w past (Some <$> approval_pre_exec_failure id e) = (tr, Ret (Some (failed_output e))).
Proof.
  pose proof (always_exec _ _ w past (quietly_always _ _ (pre_exec_failure_quietly id e)))
    as (Htr & out & Ho & ->).
  unfold fmap, proc_fmap. rewrite exec_bind.
  destruct (exec w past (approval_pre_exec_failure id e)) as [tr o]. cbn [fst snd] in Htr, Ho. subst o.
  exists tr. split; [by apply reports_keep_status|]. cbn [exec mret proc_ret]. by rewrite app_nil_r.
Qed.
Lemma substitute_refs_exec text outs w past :
  exists tr, Forall (fun e => keeps_status (ev_call e)) tr
    /\ exec w past (substitute_refs text outs false None)
       = (tr, Ret (fst (substitute_node_output_refs (fun _ _ => false) text outs false None))).
Proof.
  unfold substitute_refs. cbn [exec ask mbind proc_bind].
  rewrite (substitute_unescaped _ (fun _ _ => false)).
  destruct (substitute_node_output_refs _ text outs false None) as [t writes].
  cbn [exec mbind proc_bind mret proc_ret]. eexists. split; [|reflexivity]. by repeat constructor.
Qed.

(** What handling a rejection comes to, with the output that ends the node. *)
Lemma run_on_reject_exec node r reason outs prompt w past :
  rejection_prompt r reason outs = Ok prompt ->
  let handler := synthetic_node node prompt in
  let '(tr, o) := exec w past (run_on_reject env node r reason outs) in
  Forall (fun e => keeps_status (ev_call e)) tr
  /\ exists t1, t1 `prefix_of` tr /\
    let '(t2, resolved) := exec w (past ++ t1) (resolve_node_provider_and_model handler) in
    t1 ++ t2 `prefix_of` tr /\
    match resolved with
    | Panic => o = Panic
    | Ret (Err e) => o = Ret (Some (failed_output e))
    | Ret (Ok (provider, options)) =>
        let '(t3, x) := exec w (past ++ t1 ++ t2)
                          (execute_node_internal handler provider (Some options) outs None) in
        t1 ++ t2 ++ t3 `prefix_of` tr /\
        match x with
        | Panic => o = Panic
        | Ret x => o = Ret (match er_state x with
                            | Exec_Failed_ =>
                                Some (Failed (er_output x) (er_session_id x) (default [] (er_error x))
                                        (er_structured_output x) (er_declared_fields x))
                            | Exec_Completed_ => None
                            end)
        end
    end.
Proof.
  intros Hprompt handler. unfold rejection_prompt, run_on_reject in *.
  destruct (substitute_workflow_variables _ _ _ _ _ _ _ _ _ _ _) as [sr|]; [|done].
  injection Hprompt as Hprompt. rewrite exec_bind.
  destruct (substitute_refs_exec (sr_prompt sr) outs w past) as (t1 & Ht1 & ->). rewrite Hprompt.
  fold handler. cbv zeta. rewrite exec_bind.
  pose proof (only_exec _ _ w (past ++ t1) (resolve_keeps_status handler)) as Ht2.
  destruct (exec w (past ++ t1) (resolve_node_provider_and_model handler)) as [t2 resolved] eqn:Hres.
  cbn [fst] in Ht2. destruct resolved as [[[provider options]|e]|].
  - rewrite exec_bind.
    pose proof (only_exec _ _ w ((past ++ t1) ++ t2)
                  (internal_keeps_status handler provider (Some options) outs None)) as Ht3.
    rewrite <- app_assoc in *.
    destruct (exec w (past ++ t1 ++ t2) _) as [t3 x] eqn:Hx. cbn [fst] in Ht3.
    destruct x as [x|]; [destruct (er_state x) eqn:Hx'|]; cbn [exec mret proc_ret];
      (split; [by rewrite !Forall_app|]);
      exists t1; (split; [by eexists|]); rewrite Hres; (split; [rewrite app_assoc; by eexists|]);
      rewrite Hx; (split; [exists []; by rewrite !app_nil_r|]); by rewrite ?Hx'.
  - destruct (pre_exec_failure_exec (base_id (approval_base node)) e w ((past ++ t1) ++ t2))
      as (t3 & Ht3 & ->).
    split; [by rewrite !Forall_app|]. exists t1. split; [by eexists|]. rewrite Hres.
    split; [rewrite app_assoc; by eexists|done].
  - split; [by rewrite Forall_app|]. exists t1. split; [by eexists|]. rewrite Hres. done.
Qed.

Lemma no_prompt_exec node r reason outs e w past :
  rejection_prompt r reason outs = Err e ->
  exists tr, Forall (fun e => keeps_status (ev_call e)) tr
    /\ exec w past (run_on_reject env node r reason outs) = (tr, Ret (Some (failed_output e))).
Proof.
  unfold rejection_prompt, run_on_reject.
  destruct (substitute_workflow_variables _ _ _ _ _ _ _ _ _ _ _); intros [= <-].
  apply pre_exec_failure_exec.
Qed.

(** The gate opens after the handling [tr] of a rejection, if that has not ended the node. *)
Lemma opened_after node outs w past tr :
  Forall (fun e => keeps_status (ev_call e)) tr ->
  let '(tr', o) := exec w past (open_gate env node outs) in opened node outs (tr ++ tr') o.
Proof.
  intros Htr. pose proof (always_exec _ _ w past (open_gate_opened node outs)) as Ho.
  destruct (exec w past _) as [tr' o]. by apply opened_ignores.
Qed.

Lemma cancel_exhausted_always id n :
  always (cancel_exhausted id n) (fun tr o =>
    o = Ret (completed_output []) /\ cancels tr = 1 /\ pause_answers tr = []).
Proof.
  unfold cancel_exhausted. intros answer. cbn [mbind proc_bind].
  eapply always_mono, (quietly_always _ (fun out => out = completed_output [])).
  - intros tr o ([Hp Hc]%reports_keep_status%keeps_status_nothing & out & -> & ->).
    split_and!; [done| |exact Hp]. change (_ :: tr) with ([mk_event CancelWorkflowRun answer] ++ tr).
    by rewrite cancels_app, Hc.
  - unfold emit_workflow_event, bus. quiet_steps.
Qed.

(** C16: an approval node never lets a run through.  Without a rejection to handle it opens
    its gate, once: the store is asked to pause the run with the context of the gate and
    its message, the outputs it names filled in; the node completes if the store pauses
    it and fails with the store's error if not.  When the attempts of [on_reject] are used
    up it cancels the run, once, and does not pause it.  Otherwise the prompt of
    [on_reject], with the reason filled in, is given to an AI node of its own; only when
    that completes does the gate open again.  If the prompt lacks a base branch, if no
    provider is found or if the AI node fails, the node fails with that error, and the
    run is neither paused nor cancelled; it panics only if the AI node does. *)
Theorem approval_gate node outs w past :
  let '(tr, o) := exec w past (execute_approval_node env node outs) in
  match pending_rejection env node with
  | None => opened node outs tr o
  | Some (r, reason) =>
      if exhausted env r
      then o = Ret (completed_output []) /\ cancels tr = 1 /\ pause_answers tr = []
      else match rejection_prompt r reason outs with
           | Err e => stopped (Ret (failed_output e)) tr o
           | Ok prompt => rejection_handled node outs prompt w past tr o
           end
  end.
Proof.
  unfold execute_approval_node. destruct (pending_rejection env node) as [[r reason]|].
  2:{ pose proof (always_exec _ _ w past (open_gate_opened node outs)) as Ho.
      by destruct (exec w past (open_gate env node outs)) as [tr o]. }
  destruct (exhausted env r).
  { pose proof (always_exec _ _ w past (cancel_exhausted_always (base_id (approval_base node)) (max_attempts_of r))) as Ho.
    by destruct (exec w past (cancel_exhausted _ _)) as [tr o]. }
  rewrite exec_bind. destruct (rejection_prompt r reason outs) as [prompt|e] eqn:Hprompt.
  - pose proof (run_on_reject_exec node r reason outs prompt w past Hprompt) as Hrun. cbv zeta in Hrun.
    destruct (exec w past (run_on_reject env node r reason outs)) as [tr handled].
    destruct Hrun as (Htr & t1 & Hp1 & Hrun).
    destruct handled as [[out|]|]; [|pose proof (opened_after node outs w (past ++ tr) tr Htr) as Hopen|];
      [| destruct (exec w (past ++ tr) _) as [tr' o] |]; cbn [exec mret proc_ret];
      exists t1; (split; [by rewrite ?app_nil_r; try apply prefix_app_r|]);
      destruct (exec w (past ++ t1) _) as [t2 [[[provider options]|e]|]];
      destruct Hrun as [Hp2 Hrun]; (split; [by rewrite ?app_nil_r; try apply prefix_app_r|]);
      try discriminate Hrun;
      try (injection Hrun as ->; rewrite app_nil_r; by apply stopped_keeps);
      try by apply stopped_keeps.
    all: destruct (exec w (past ++ t1 ++ t2) _) as [t3 [x|]]; destruct Hrun as [Hp3 Hrun];
      (split; [by rewrite ?app_nil_r; try apply prefix_app_r|]); try discriminate Hrun;
      unfold after_handler; try (by apply stopped_keeps);
      destruct (er_state x); try discriminate Hrun;
      first [exact Hopen | injection Hrun as ->; rewrite app_nil_r; by apply stopped_keeps].
  - destruct (no_prompt_exec node r reason outs e w past Hprompt) as (tr & Htr & ->).
    cbn [exec mret proc_ret]. rewrite app_nil_r. by apply stopped_keeps.
Qed.
End Theorems.
