(* ===== verification/AiGate.v ===== *)
(** * The AI nodes behind an approval gate

    The interface [AiNodes] that the handling of a rejection calls, implemented by the
    resolution and the execution of AI nodes; what an AI node never does. *)

From S2P Require Import ModelValidation.
From S2P Require Import Prelude Float64 Json StdModel Regex DagNode Workflow OutputRef ExecutorShared DagCore.
From S2P Require Import DagRun RunStore StructuredOutput Provider NodeProc NodeStream.
From S2P Require Import Beats AiNode ProviderResolve ApprovalNode.

(** An AI node starts no process and neither cancels nor pauses its run. *)
Definition ai_call (c : call) : Prop :=
  match c with
  | CancelWorkflowRun | PauseWorkflowRun _ | Spawn _ _ _ _ | WaitChild _ | ProcessEnv
  | DiscoverScripts _ => False
  | _ => True
  end.
Lemma ai_call_keeps c : ai_call c -> keeps_status c.
Proof. by destruct c. Qed.

Section AiOnly.
Context `{RegexEngine} `{SerdeJson} `{UnicodeCase} `{StdText} `{StructuredText} `{HashMapOrder} `{OptionValues}.
Context {agent : Type}.
Variable registry : Registry agent.
Variable env : NodeEnv.

Lemma resolve_only node wp wm vars assistants sp mb fmt profile preset wlo :
  only_calls ai_call (ProviderResolve.resolve_node_provider_and_model registry node wp wm vars assistants
                        sp mb fmt profile preset wlo).
Proof.
  unfold ProviderResolve.resolve_node_provider_and_model, warn_then, warn_user, send_text. silent_steps.
Qed.

Lemma ai_stream_only node o r names chunks ending p :
  only_calls ai_call (ai_stream env node o r names chunks ending p).
Proof.
  revert p. induction chunks as [|m rest IH]; intros p; cbn [ai_stream]; [apply only_done|].
  apply only_bind; [unfold tick, cancel_check, heartbeat; silent_steps|]. intros [q []]; [apply only_done|].
  apply only_bind.
  - destruct m; unfold ai_chunk, ai_assistant, ai_tool, ai_system, show_tool_call, complete_last_tool,
      complete_tool, notify, send_text, log_assistant, log_tool, bus, emit_typed_event; silent_steps.
  - intros [q' []]; [apply IH|apply only_done..].
Qed.
Lemma reask_only node provider o r display names max n prompt cost p :
  only_calls ai_call (reask env node provider o r display names max n prompt cost p).
Proof.
  revert prompt cost p. induction n as [|n IH]; intros prompt cost p; cbn [reask];
    (apply only_bind; [by apply node_only_ask|]); intros s;
    (apply only_bind; [apply ai_stream_only|]); intros [q [err|]].
  1, 3: unfold stream_failed, log_node_error, emit_workflow_event, bus; silent_steps.
  all: apply only_bind; [unfold judge, notify, send_text; silent_steps|];
    intros [p'|e|errors]; try apply only_done.
  apply only_bind; [unfold emit_reask, notify, send_text; silent_steps|]. intros []. apply IH.
Qed.
Lemma execute_only node provider o outs r folder t :
  only_calls ai_call (AiNode.execute_node_internal registry env node provider o outs r folder t).
Proof.
  unfold AiNode.execute_node_internal. apply only_bind; [by apply node_only_ask|]. intros start.
  apply only_bind; [silent_steps|]. intros names.
  apply only_bind; [unfold announce, log_node_start, emit_workflow_event, bus; silent_steps|]. intros display.
  apply only_bind; [unfold load_prompt, log_node_error, emit_workflow_event, bus; silent_steps|].
  intros [raw|x]; [|apply only_done].
  apply only_bind; [unfold build_prompt, substitute_refs, notify, send_text; silent_steps|].
  intros [final|x]; [|apply only_done].
  destruct (get_provider_capabilities provider registry) as [caps|e]; [|apply only_done].
  unfold run_prompt. apply only_bind; [apply reask_only|]. intros [[p cost]|[x p]]; [|apply only_done].
  apply only_bind; [|intros ?; apply only_done].
  unfold finish, fail_after, notify, send_text, log_node_error, log_node_complete, emit_workflow_event, bus.
  silent_steps.
Qed.

Variable workflow_provider : str.
Variable workflow_model : option str.
Variable config_env_vars : option (gmap str str).
Variable config_assistants : gmap str value.
Variable ai_profile : option ResolvedAiProfile.
Variable workflow_preset : option ModelAliasPreset.
Variable wlo : WorkflowLevelOptions.
Variable configured_command_folder : option str.

(** The resolution and the execution, as the handling of a rejection calls them; the
    throttle of a node that has not run is empty. *)
Definition resolve_for_gate (node : DagNode) : proc (result str (str * SendQueryOptions)) :=
  r ← ProviderResolve.resolve_node_provider_and_model registry node workflow_provider workflow_model
        config_env_vars config_assistants None None None ai_profile workflow_preset wlo;
  mret (match r with Ok p => Ok (rp_provider p, rp_base_options p) | Err e => Err e end).
Definition execute_for_gate (node : DagNode) (provider : str) (o : option SendQueryOptions)
    (outs : gmap str NodeOutput) (r : option str) : proc NodeExecutionResult :=
  x ← AiNode.execute_node_internal registry env node provider o outs r configured_command_folder
        no_throttle;
  mret (fst x).

#[export] Program Instance ai_nodes : AiNodes := {|
  ApprovalNode.resolve_node_provider_and_model := resolve_for_gate;
  ApprovalNode.execute_node_internal := execute_for_gate;
|}.
Next Obligation.
  intros node. apply only_bind; [|intros ?; apply only_done].
  eapply only_impl, resolve_only. apply ai_call_keeps.
Qed.
Next Obligation.
  intros node p o outs r. apply only_bind; [|intros ?; apply only_done].
  eapply only_impl, execute_only. apply ai_call_keeps.
Qed.
End AiOnly.
