(* ===== verification/LoopNode.v ===== *)
(** * Loop nodes

    [execute_loop_node] of [dag_executor.rs]: the iterations of a loop node, each a
    query to the provider with its stream, the completion signal, the [until_bash]
    condition and the interactive gate. *)

From S2P Require Import Prelude Float64 Json StdModel Regex DagNode Workflow ExecutorShared DagCore.
From S2P Require Import DagRun RunTheorems RunStore Provider NodeProc ScriptNode NodeStream.

(** What is kept across iterations. *)
Record LoopState : Type := mk_LoopState {
  current_session_id : option str;
  last_iteration_output : str;
  last_iteration_structured_output : option value;
  loop_total_cost_usd : option f64;
  loop_final_stop_reason : option str;
  loop_total_num_turns : option N;
}.

(** What a stream pass accumulates. *)
Record Pass : Type := mk_Pass {
  full_output : str;
  clean_output : str;
  last_tool_started : tool_start;
  pass_state : LoopState;
}.

(** How an iteration ends. *)
Inductive IterEnd : Type :=
| Again (st : LoopState)
| Finish (r : NodeExecutionResult).

(** [iter as u32], then [+ 1] with overflow checks. *)
Definition next_iteration (iter : f64) : outcome N :=
  let i := f64_to_u32 iter in if (i <? u32_max)%N then Ret (i + 1)%N else Panic.

(** What a result chunk leaves in the state. *)
Definition capture_result (r : ResultChunk) (st : LoopState) : LoopState :=
  {| current_session_id :=
       match rc_session_id r with Some sid => Some sid | None => current_session_id st end;
     last_iteration_output := last_iteration_output st;
     last_iteration_structured_output :=
       match rc_structured_output r with
       | Some so => Some so
       | None => last_iteration_structured_output st
       end;
     loop_total_cost_usd :=
       match rc_cost r with
       | Some c => Some (f64_add (default f64_zero (loop_total_cost_usd st)) c)
       | None => loop_total_cost_usd st
       end;
     loop_final_stop_reason :=
       match rc_stop_reason r with Some sr => Some sr | None => loop_final_stop_reason st end;
     loop_total_num_turns :=
       match rc_num_turns r with
       | Some nt => Some (default 0 (loop_total_num_turns st) + nt)%N
       | None => loop_total_num_turns st
       end |}.
Definition set_last_output (out : str) (st : LoopState) : LoopState :=
  mk_LoopState (current_session_id st) out (last_iteration_structured_output st)
    (loop_total_cost_usd st) (loop_final_stop_reason st) (loop_total_num_turns st).

Section Loop.
Context `{RegexEngine} `{SerdeJson} `{UnicodeCase} `{StdText}.
Context {agent : Type}.
Variable registry : Registry agent.
Variable env : NodeEnv.
Variable node : LoopNode.
Variable node_outputs : gmap str NodeOutput.
Variable workflow_provider : str.
Variable resolved_options : option SendQueryOptions.

Let run := ne_run env.
Let rid := run_id run.
Let nid := base_id (loop_base node).
Let lc := loop_config node.
Let mode := ne_streaming_mode env.
Let idle_ms := effective_idle_timeout (loop_base node).

(** ** Resuming an interactive loop *)

Definition is_loop_resume : bool := gate_matches "interactive_loop" nid run.
Definition start_iteration : outcome N :=
  if is_loop_resume
  then next_iteration (default f64_zero (meta_f64 "iteration" (approval_meta run)))
  else Ret 1%N.
Definition resume_session : option str :=
  if is_loop_resume then meta_str "sessionId" (approval_meta run) else None.
Definition loop_user_input : str :=
  if is_loop_resume
  then default [] (assoc_get (lit "loop_user_input") (metadata run) ≫= as_str)
  else [].

(** ** The stream *)

Definition on_assistant (content : str) (p : Pass) : proc (Pass * flow) :=
  cleaned ← pure_step (strip_completion_tags content (Some (loop_until lc)));
  _ ← (if is_stream mode && negb (is_empty cleaned) then notify cleaned nid else mret tt);
  _ ← log_assistant rid content;
  mret (mk_Pass (full_output p ++ content) (clean_output p ++ cleaned) (last_tool_started p)
          (pass_state p), Go).

Definition on_result (i : N) (r : ResultChunk) (p : Pass) : proc (Pass * flow) :=
  _ ← complete_last_tool nid (last_tool_started p);
  let p := mk_Pass (full_output p) (clean_output p) None (capture_result r (pass_state p)) in
  mret (p,
        if is_sdk_error r
        then Throw (lit "Loop '" ++ nid ++ lit "' iteration " ++ show_N i
                    ++ lit " failed: SDK returned " ++ sdk_error_text r)
        else Stop).

Definition on_tool (tool_name : str) (tool_input : option value) (tool_call_id : option str)
    (p : Pass) : proc (Pass * flow) :=
  now ← ask Now;
  _ ← complete_tool nid (last_tool_started p) now;
  _ ← bus (lit "tool_started") nid None None None None;
  _ ← (if is_stream mode then show_tool_call nid tool_name tool_input tool_call_id true
       else mret tt);
  let tool_input_truncated := build_loop_tool_input tool_input in
  _ ← log_tool rid tool_name (Some tool_input_truncated);
  _ ← emit_typed_event ToolCalled nid
        [(lit "tool_name", String tool_name); (lit "tool_input", tool_input_truncated)];
  mret (mk_Pass (full_output p) (clean_output p) (Some (tool_name, now)) (pass_state p), Go).

Definition on_chunk (i : N) (m : MessageChunk) (p : Pass) : proc (Pass * flow) :=
  match m with
  | Assistant content _ => on_assistant content p
  | ResultMsg r => on_result i r p
  | Tool tool_name tool_input tool_call_id => on_tool tool_name tool_input tool_call_id p
  | ToolResult tool_name tool_output tool_call_id =>
      _ ← ask (SendStructured (ToolResult tool_name tool_output tool_call_id));
      mret (p, Go)
  | _ => mret (p, Go)
  end.

(** The ['stream] loop: what it accumulated, whether it timed out, what it threw. *)
Fixpoint stream_loop (i : N) (chunks : list MessageChunk) (ending : StreamEnd) (p : Pass)
  : proc (Pass * (bool * option str)) :=
  match chunks with
  | [] => mret (p, (match ending with IdleTimeout => true | Closed => false end, None))
  | m :: rest =>
      r ← on_chunk i m p;
      match (r : Pass * flow) with
      | (p, Go) => stream_loop i rest ending p
      | (p, Stop) => mret (p, (false, None))
      | (p, Throw msg) => mret (p, (false, Some msg))
      end
  end.

(** The ['body] block. *)
Definition run_pass (i start : N) (st : LoopState) : proc (Pass * (bool * option str)) :=
  let lui := if (i =? start)%N then loop_user_input else [] in
  let lpo := if (i =? start)%N then [] else last_iteration_output st in
  let p := mk_Pass [] [] None st in
  match substitute_workflow_variables (loop_prompt lc) rid (user_message run)
          (ne_artifacts_dir env) (ne_base_branch env) (ne_docs_dir env) (ne_issue_context env)
          (Some lui) None (Some lpo) false with
  | Err _ => mret (p, (false, Some BaseBranchEmptyError_to_string))
  | Ok sr =>
      final_prompt ← substitute_refs (sr_prompt sr) node_outputs false None;
      let needs_fresh_session := fresh_context lc || (i =? 1)%N in
      let resume := if needs_fresh_session then None else current_session_id st in
      s ← ask (SendQuery workflow_provider final_prompt (ne_cwd env) resume resolved_options idle_ms);
      stream_loop i (fst s) (snd s) p
  end.

(** ** The end of an iteration *)

Definition fail_iteration (i start_time : N) (cost : option f64) (err_msg : str) : proc IterEnd :=
  stop_time ← ask Now;
  let duration := millis_between start_time stop_time in
  _ ← bus (lit "loop_iteration_failed") nid None None (Some err_msg) None;
  _ ← emit_typed_event LoopIterationFailed nid
        [(lit "iteration", json_N i); (lit "error", String err_msg);
         (lit "duration", json_N duration); (lit "nodeId", String nid)];
  mret (Finish (failed_result [] cost
                  (lit "Loop iteration " ++ show_N i ++ lit " failed: " ++ err_msg))).

Definition empty_error : str :=
  lit "Loop iteration produced no assistant output. The provider stream closed without yielding content — likely a silent provider rejection or stream interruption.".

Definition until_env (i start : N) (prev_output : str) : gmap str str :=
  let context := default [] (ne_issue_context env) in
  overlay (ne_env_vars env)
    [(lit "USER_MESSAGE", user_message run); (lit "ARGUMENTS", user_message run);
     (lit "LOOP_USER_INPUT", if (i =? start)%N then loop_user_input else []);
     (lit "LOOP_PREV_OUTPUT", prev_output); (lit "REJECTION_REASON", []);
     (lit "CONTEXT", context); (lit "EXTERNAL_CONTEXT", context); (lit "ISSUE_CONTEXT", context)].

(** The [until_bash] condition: an exit with 0. *)
Definition check_until_bash (i start : N) (prev_output : str) : proc bool :=
  match until_bash lc with
  | None => mret false
  | Some script =>
      match substitute_workflow_variables script rid (user_message run) (ne_artifacts_dir env)
              (ne_base_branch env) (ne_docs_dir env) (ne_issue_context env) None None None true with
      | Err _ => mret false
      | Ok sr =>
          substituted_bash ← substitute_refs (sr_prompt sr) node_outputs true (Some (ne_log_dir env));
          o ← run_subprocess (lit "bash") [lit "-c"; substituted_bash] (ne_cwd env)
                SUBPROCESS_DEFAULT_TIMEOUT (until_env i start prev_output);
          mret (match o with Sub_Success _ _ => true | _ => false end)
      end
  end.

(** The loop is done. *)
Definition complete_loop (i start_time : N) (st : LoopState) : proc IterEnd :=
  let plural := if (1 <? i)%N then lit "s" else [] in
  _ ← notify (lit "Loop node '" ++ nid ++ lit "' completed after " ++ show_N i ++ lit " iteration"
              ++ plural) nid;
  stop_time ← ask Now;
  let completed_ms := millis_between start_time stop_time in
  _ ← emit_workflow_event (lit "node_completed") nid
        ([(lit "duration_ms", json_N completed_ms);
          (lit "node_output", String (last_iteration_output st))]
         ++ match loop_total_cost_usd st with
            | Some c => [(lit "cost_usd", json_f64 c)]
            | None => []
            end
         ++ match loop_final_stop_reason st with
            | Some sr => if negb (is_empty sr) then [(lit "stop_reason", String sr)] else []
            | None => []
            end
         ++ match loop_total_num_turns st with
            | Some nt => [(lit "num_turns", json_N nt)]
            | None => []
            end);
  _ ← bus (lit "node_completed") nid (Some nid) None None (Some completed_ms);
  mret (Finish (mk_NodeExecutionResult Exec_Completed_ (last_iteration_output st)
                  (last_iteration_structured_output st) (current_session_id st) None
                  (loop_total_cost_usd st) None)).

Definition loop_gate_ctx (i : N) (gate_msg : str) (st : LoopState) : ApprovalContext :=
  mk_ApprovalContext nid gate_msg (Some Ctx_InteractiveLoop) (Some (f64_of_Z (Z.of_N i)))
    (current_session_id st) None None None.

(** The interactive gate: the loop waits for the user. *)
Definition pause_loop (i : N) (gate_msg : str) (st : LoopState) : proc IterEnd :=
  sent ← send_text
    (lit "⏸ **Input required** (loop `" ++ nid ++ lit "`, iteration " ++ show_N i ++ lit "): "
     ++ gate_msg ++ newline ++ newline ++ lit "Run ID: `" ++ rid ++ lit "`" ++ newline
     ++ lit "Respond: `/workflow approve " ++ rid ++ lit " <your feedback>` | Cancel: `/workflow reject "
     ++ rid ++ lit "`") nid None;
  if negb (delivered sent) then
    mret (Finish (failed_result (last_iteration_output st) None
                    (lit "Loop gate message failed to deliver for node '" ++ nid
                     ++ lit "' — cannot pause safely")))
  else
    _ ← emit_typed_event ApprovalRequested nid
          [(lit "message", String gate_msg); (lit "iteration", json_N i)];
    paused ← ask (PauseWorkflowRun (loop_gate_ctx i gate_msg st));
    match paused with
    | Err e => mret (Finish (failed_result [] None e))
    | Ok _ =>
        _ ← bus (lit "approval_pending") nid None None None None;
        mret (Finish (mk_NodeExecutionResult Exec_Completed_ (last_iteration_output st) None None
                        None (loop_total_cost_usd st) None))
    end.

(** What follows a pass that did not throw. *)
Definition after_pass (i start start_time : N) (p : Pass) (idle : bool) : proc IterEnd :=
  let st := pass_state p in
  _ ← (if idle
       then notify (lit "Loop node '" ++ nid ++ lit "' iteration " ++ show_N i
                    ++ lit " completed via idle timeout (no output for "
                    ++ idle_timeout_minutes idle_ms ++ lit " min)") nid
       else mret tt);
  if negb idle && is_empty (trim (full_output p))
  then fail_iteration i start_time (loop_total_cost_usd st) empty_error
  else
    _ ← (if is_batch mode && negb (is_empty (clean_output p))
         then notify (clean_output p) nid else mret tt);
    let prev_output := last_iteration_output st in
    let st := set_last_output
                (if is_empty (clean_output p) then full_output p else clean_output p) st in
    signal_detected ← pure_step (detect_completion_signal (full_output p) (loop_until lc));
    bash_complete ← check_until_bash i start prev_output;
    stop_time ← ask Now;
    let duration := millis_between start_time stop_time in
    let completion_detected := signal_detected || bash_complete in
    _ ← bus (lit "loop_iteration_completed") nid None None None (Some duration);
    _ ← emit_typed_event LoopIterationCompleted nid
          [(lit "iteration", json_N i); (lit "duration", json_N duration);
           (lit "completionDetected", Bool completion_detected); (lit "nodeId", String nid)];
    _ ← log_node_complete rid (nid ++ lit "-iteration-" ++ show_N i) nid (Some duration);
    let is_interactive := default false (interactive lc) in
    let interactive_first_run := is_interactive && negb is_loop_resume in
    if completion_detected && negb interactive_first_run then complete_loop i start_time st
    else if is_interactive then
      match gate_message lc with
      | Some gate_msg => pause_loop i gate_msg st
      | None => mret (Again st)
      end
    else mret (Again st).

(** ** One iteration *)

Definition stop_loop (i : N) (effective_status : str) : proc IterEnd :=
  _ ← notify (lit "Loop node '" ++ nid ++ lit "' stopped at iteration " ++ show_N i ++ lit " ("
              ++ effective_status ++ lit ")") nid;
  mret (Finish (failed_result [] None (lit "Workflow " ++ effective_status))).

Definition loop_iteration (i start : N) (st : LoopState) : proc IterEnd :=
  start_time ← ask Now;
  run_status ← ask GetRunStatus;
  match run_status with
  | Err e => mret (Finish (failed_result [] None e))
  | Ok run_status =>
      let status_str := workflow_run_status_str <$> run_status in
      if negb (should_continue_streaming_for_status status_str)
      then stop_loop i (default (lit "deleted") status_str)
      else
        _ ← bus (lit "loop_iteration_started") nid None None None None;
        _ ← emit_typed_event LoopIterationStarted nid
              [(lit "iteration", json_N i); (lit "maxIterations", json_N (max_iterations lc));
               (lit "nodeId", String nid)];
        r ← run_pass i start st;
        match (r : Pass * (bool * option str)) with
        | (p, (_, Some err_msg)) =>
            fail_iteration i start_time (loop_total_cost_usd (pass_state p)) err_msg
        | (p, (idle, None)) => after_pass i start start_time p idle
        end
  end.

(** The iterations from [i] on, [passes] of them. *)
Fixpoint loop_iterations (passes : nat) (i start : N) (st : LoopState)
  : proc (LoopState + NodeExecutionResult) :=
  match passes with
  | O => mret (inl st)
  | S passes =>
      e ← loop_iteration i start st;
      match e with
      | Again st => loop_iterations passes (i + 1) start st
      | Finish r => mret (inr r)
      end
  end.

Definition exceed_iterations (st : LoopState) : proc NodeExecutionResult :=
  let error_msg :=
    lit "Loop node '" ++ nid ++ lit "' exceeded max iterations (" ++ show_N (max_iterations lc)
    ++ lit ") without completion signal '" ++ loop_until lc ++ lit "'" in
  _ ← notify error_msg nid;
  mret (failed_result (last_iteration_output st) (loop_total_cost_usd st) error_msg).

Definition invalid_provider : str :=
  lit "Invalid provider '" ++ workflow_provider ++ lit "' for loop node '" ++ nid
  ++ lit "'. Check workflow YAML or .archon/config.yaml. Original: provider '"
  ++ workflow_provider ++ lit "' is not registered".

Definition execute_loop_node : proc NodeExecutionResult :=
  match get_provider_capabilities workflow_provider registry with
  | Err _ => mret (failed_result [] None invalid_provider)
  | Ok _ =>
      start ← pure_step start_iteration;
      let passes := N.to_nat (max_iterations lc + 1 - start) in
      r ← loop_iterations passes start start (mk_LoopState resume_session [] None None None None);
      match r with
      | inl st => exceed_iterations st
      | inr result => mret result
      end
  end.
End Loop.
