(* ===== verification/LoopSpec.v ===== *)
(** * What a loop node does

    The runs of [execute_loop_node] as an abstract machine over the answers that
    matter to it: the status of the run before an iteration, the stream of the
    iteration's query, the end of the [until_bash] script and the pause of the run. *)

From S2P Require Import Prelude Float64 Json StdModel Regex DagNode Workflow ExecutorShared DagCore.
From S2P Require Import DagRun RunTheorems RunStore Provider NodeProc ScriptNode NodeStream.
From S2P Require Import Beats LoopNode.

(** ** The abstract machine *)

Definition hear (chunks : list MessageChunk) (st : LoopState) : LoopState :=
  match snd (heard chunks) with Some r => capture_result r st | None => st end.
Section Machine.
Context `{RegexEngine} `{SerdeJson} `{UnicodeCase} `{StdText}.
Variable env : NodeEnv.
Variable node : LoopNode.
Variable node_outputs : gmap str NodeOutput.

Let run := ne_run env.
Let nid := base_id (loop_base node).
Let lc := loop_config node.

(** The prompt of iteration [i] of a loop that starts at [start]. *)
Definition loop_prompt_of (i start : N) (st : LoopState) : result str str :=
  match substitute_workflow_variables (loop_prompt lc) (run_id run) (user_message run)
          (ne_artifacts_dir env) (ne_base_branch env) (ne_docs_dir env) (ne_issue_context env)
          (Some (if (i =? start)%N then loop_user_input env node else [])) None
          (Some (if (i =? start)%N then [] else last_iteration_output st)) false with
  | Err _ => Err BaseBranchEmptyError_to_string
  | Ok sr => Ok (fst (substitute_node_output_refs (fun _ _ => false) (sr_prompt sr) node_outputs false None))
  end.
Definition resume_of (i : N) (st : LoopState) : option str :=
  if fresh_context lc || (i =? 1)%N then None else current_session_id st.

Definition is_interactive : bool := default false (interactive lc).
(** An interactive loop does not complete before its first gate. *)
Definition may_complete : bool := negb (is_interactive && negb (is_loop_resume env node)).
Definition gate_of : option str := if is_interactive then gate_message lc else None.

Definition iteration_failed (i : N) (cost : option f64) (msg : str) : NodeExecutionResult :=
  failed_result [] cost (lit "Loop iteration " ++ show_N i ++ lit " failed: " ++ msg).
Definition sdk_failure (i : N) (r : ResultChunk) : str :=
  lit "Loop '" ++ nid ++ lit "' iteration " ++ show_N i ++ lit " failed: SDK returned "
  ++ sdk_error_text r.
Definition loop_completed (st : LoopState) : NodeExecutionResult :=
  mk_NodeExecutionResult Exec_Completed_ (last_iteration_output st)
    (last_iteration_structured_output st) (current_session_id st) None (loop_total_cost_usd st) None.
Definition loop_paused (st : LoopState) : NodeExecutionResult :=
  mk_NodeExecutionResult Exec_Completed_ (last_iteration_output st) None None None
    (loop_total_cost_usd st) None.
Definition undelivered (st : LoopState) : NodeExecutionResult :=
  failed_result (last_iteration_output st) None
    (lit "Loop gate message failed to deliver for node '" ++ nid ++ lit "' — cannot pause safely").

(** How the condition of [until_bash] ends, by the beats of its script. *)
Inductive bash_ends : list beat -> bool -> Prop :=
| Bash_none : bash_ends [] false
| Bash_ran answer :
    until_bash lc <> None ->
    bash_ends [Child answer]
      (match child_outcome answer with Sub_Success _ _ => true | _ => false end).

(** What a stream amounts to: the output kept for the iteration, and whether it
    signals completion. *)
Definition output_of (said shown : list str) : str :=
  if is_empty (concat shown) then concat said else concat shown.
Definition reads (chunks : list MessageChunk) (ending : StreamEnd) (out : str) (signal : bool) : Prop :=
  let said := fst (heard chunks) in
  (went_idle chunks ending = false -> is_empty (trim (concat said)) = false)
  /\ detect_completion_signal (concat said) (loop_until lc) = Ret signal
  /\ exists shown, Forall2 (fun t c => strip_completion_tags t (Some (loop_until lc)) = Ret c) said shown
                   /\ out = output_of said shown.

(** The end of iteration [i], whose stream was [chunks]. *)
Inductive pass_end (i : N) (st : LoopState) (chunks : list MessageChunk) (ending : StreamEnd)
  : list beat -> IterEnd -> Prop :=
| End_sdk r :
    snd (heard chunks) = Some r -> is_sdk_error r = true ->
    pass_end i st chunks ending []
      (Finish (iteration_failed i (loop_total_cost_usd (hear chunks st)) (sdk_failure i r)))
| End_empty :
    went_idle chunks ending = false -> is_empty (trim (concat (fst (heard chunks)))) = true ->
    pass_end i st chunks ending []
      (Finish (iteration_failed i (loop_total_cost_usd (hear chunks st)) empty_error))
| End_complete out signal bs bash :
    reads chunks ending out signal -> bash_ends bs bash -> signal || bash = true ->
    may_complete = true ->
    pass_end i st chunks ending bs
      (Finish (loop_completed (set_last_output out (hear chunks st))))
| End_again out signal bs bash :
    reads chunks ending out signal -> bash_ends bs bash ->
    (signal || bash) && may_complete = false -> gate_of = None ->
    pass_end i st chunks ending bs (Again (set_last_output out (hear chunks st)))
| End_undelivered out signal bs bash gate :
    reads chunks ending out signal -> bash_ends bs bash ->
    (signal || bash) && may_complete = false -> gate_of = Some gate ->
    pass_end i st chunks ending bs (Finish (undelivered (set_last_output out (hear chunks st))))
| End_gate out signal bs bash gate answer :
    reads chunks ending out signal -> bash_ends bs bash ->
    (signal || bash) && may_complete = false -> gate_of = Some gate ->
    let st' := set_last_output out (hear chunks st) in
    pass_end i st chunks ending (bs ++ [Pause (loop_gate_ctx node i gate st') answer])
      (Finish (match answer with
               | Ok _ => loop_paused st'
               | Err e => failed_result [] None e
               end)).

(** A pass panics only in a call of the regex engine, when a tool call is shown, or
    when the environment of the [until_bash] script is read. *)
Definition may_panic (chunks : list MessageChunk) : Prop :=
  is_stream (ne_streaming_mode env) = true
  \/ (exists t, t ∈ fst (heard chunks)
                /\ strip_completion_tags t (Some (loop_until lc)) = Panic)
  \/ until_bash lc <> None
  \/ detect_completion_signal (concat (fst (heard chunks))) (loop_until lc) = Panic.

(** Iteration [i] of a loop that starts at [start]. *)
Inductive iterates (i start : N) (st : LoopState) : list beat -> outcome IterEnd -> Prop :=
| It_store e : iterates i start st [Status (Err e)] (Ret (Finish (failed_result [] None e)))
| It_stopped s :
    continues s = false ->
    iterates i start st [Status (Ok s)]
      (Ret (Finish (failed_result [] None
                      (lit "Workflow " ++ default (lit "deleted") (workflow_run_status_str <$> s)))))
| It_prompt s msg :
    continues s = true -> loop_prompt_of i start st = Err msg ->
    iterates i start st [Status (Ok s)]
      (Ret (Finish (iteration_failed i (loop_total_cost_usd st) msg)))
| It_pass s prompt chunks ending bs e :
    continues s = true -> loop_prompt_of i start st = Ok prompt ->
    pass_end i st chunks ending bs e ->
    iterates i start st (Status (Ok s) :: Query prompt (resume_of i st) (chunks, ending) :: bs) (Ret e)
| It_panic s prompt chunks ending :
    continues s = true -> loop_prompt_of i start st = Ok prompt -> may_panic chunks ->
    iterates i start st [Status (Ok s); Query prompt (resume_of i st) (chunks, ending)] Panic.

(** The iterations from [i] on, [passes] of them. *)
Inductive loops : nat -> N -> N -> LoopState -> list beat ->
    outcome (LoopState + NodeExecutionResult) -> Prop :=
| Loops_max i start st : loops 0 i start st [] (Ret (inl st))
| Loops_end n i start st bs r :
    iterates i start st bs (Ret (Finish r)) -> loops (S n) i start st bs (Ret (inr r))
| Loops_panic n i start st bs :
    iterates i start st bs Panic -> loops (S n) i start st bs Panic
| Loops_again n i start st bs st' bs' o :
    iterates i start st bs (Ret (Again st')) -> loops n (i + 1) start st' bs' o ->
    loops (S n) i start st (bs ++ bs') o.
End Machine.

(** ** The executor is such a machine *)

Section Refinement.
Context `{RegexEngine} `{SerdeJson} `{UnicodeCase} `{StdText}.
Variable env : NodeEnv.
Variable node : LoopNode.
Variable outs : gmap str NodeOutput.
Variable provider : str.
Variable options : option SendQueryOptions.

(** What a pass has heard of the chunks. *)
Definition heard_pass (i : N) (chunks : list MessageChunk) (ending : StreamEnd) (p : Pass)
    (r : Pass * (bool * option str)) : Prop :=
  let '(p', v) := r in
  exists shown,
    Forall2 (fun t c => strip_completion_tags t (Some (loop_until (loop_config node))) = Ret c)
      (fst (heard chunks)) shown
    /\ full_output p' = full_output p ++ concat (fst (heard chunks))
    /\ clean_output p' = clean_output p ++ concat shown
    /\ pass_state p' = hear chunks (pass_state p)
    /\ v = (went_idle chunks ending,
            match snd (heard chunks) with
            | Some r => if is_sdk_error r then Some (sdk_failure node i r) else None
            | None => None
            end).

(** What a chunk does. *)
Definition heard_chunk (i : N) (m : MessageChunk) (p : Pass) (r : Pass * flow) : Prop :=
  let '(p', f) := r in
  match m with
  | Assistant content _ =>
      f = Go /\ exists shown,
        strip_completion_tags content (Some (loop_until (loop_config node))) = Ret shown
        /\ full_output p' = full_output p ++ content /\ clean_output p' = clean_output p ++ shown
        /\ pass_state p' = pass_state p
  | ResultMsg r =>
      full_output p' = full_output p /\ clean_output p' = clean_output p
      /\ pass_state p' = capture_result r (pass_state p)
      /\ f = if is_sdk_error r then Throw (sdk_failure node i r) else Stop
  | _ =>
      f = Go /\ full_output p' = full_output p /\ clean_output p' = clean_output p
      /\ pass_state p' = pass_state p
  end.

Definition chunk_panics (m : MessageChunk) : Prop :=
  is_stream (ne_streaming_mode env) = true
  \/ match m with
     | Assistant content _ =>
         strip_completion_tags content (Some (loop_until (loop_config node))) = Panic
     | _ => False
     end.
Lemma on_chunk_heard i m p :
  silently (on_chunk env node i m p) (heard_chunk i m p) (chunk_panics m).
Proof.
  destruct m; cbn [on_chunk]; try by apply silently_done.
  - unfold on_assistant. eapply silently_bind; [apply silently_pure; [intros c Hc; exact Hc|by right]|].
    intros c Hc. apply silently_skip.
    { case_match; [apply silently_any; [apply notify_silent|apply notify_gives]|by apply silently_done]. }
    intros []. apply silently_skip; [by apply silently_any; [apply node_only_ask|apply node_gives_ask]|]. intros [].
    apply silently_done. split; [done|]. by exists c.
  - unfold on_result. apply silently_skip; [apply silently_any; [apply complete_last_tool_silent|apply complete_last_tool_gives]|].
    intros []. by apply silently_done.
  - unfold on_tool. apply silently_skip; [by apply silently_any; [apply node_only_ask|apply node_gives_ask]|].
    intros now. apply silently_skip.
    { apply silently_any; [apply complete_tool_silent|apply complete_tool_gives]. }
    intros []. apply silently_skip; [by apply silently_any; [apply node_only_ask|apply node_gives_ask]|]. intros [].
    apply silently_skip; [case_match; [|by apply silently_done]|].
    { unfold show_tool_call. apply silently_skip; [apply silently_pure; [done|by left]|].
      intros msg. apply silently_any; unfold send_text; [silent_steps|gives_steps]. }
    intros []. apply silently_skip; [by apply silently_any; [apply node_only_ask|apply node_gives_ask]|]. intros [].
    apply silently_skip; [by apply silently_any; [apply node_only_ask|apply node_gives_ask]|]. intros [].
    by apply silently_done.
  - apply silently_skip; [by apply silently_any; [apply node_only_ask|apply node_gives_ask]|].
    intros []. by apply silently_done.
Qed.

Definition stream_panics (chunks : list MessageChunk) : Prop :=
  is_stream (ne_streaming_mode env) = true
  \/ exists t, t ∈ fst (heard chunks)
               /\ strip_completion_tags t (Some (loop_until (loop_config node))) = Panic.
Lemma chunk_panics_stream m rest : chunk_panics m -> stream_panics (m :: rest).
Proof.
  intros [Hm|Hm]; [by left|]. destruct m; try done. right. exists content. cbn [heard].
  destruct (heard rest). split; [constructor|exact Hm].
Qed.
Lemma stream_panics_skip m rest :
  match m with ResultMsg _ => False | _ => True end -> stream_panics rest -> stream_panics (m :: rest).
Proof.
  intros Hm [Hr|(t & Ht & Hr)]; [by left|right]. exists t. split; [|exact Hr].
  destruct m; try done. cbn [heard]. destruct (heard rest). by constructor.
Qed.

Lemma stream_loop_heard i chunks ending p :
  silently (stream_loop env node i chunks ending p) (heard_pass i chunks ending p) (stream_panics chunks).
Proof.
  revert p. induction chunks as [|m rest IH]; intros p; cbn [stream_loop].
  { apply silently_done. exists []. rewrite !app_nil_r.
    repeat split; [constructor|reflexivity..]. }
  eapply silently_bind; [eapply silently_weaken, on_chunk_heard; apply chunk_panics_stream|].
  intros [q f]. destruct m; cbn [heard_chunk];
    try (intros (-> & Hf & Hc & Hs); eapply silently_weaken; [by apply stream_panics_skip|];
         specialize (IH q); unfold heard_pass, hear, went_idle in *; cbn [heard];
         rewrite Hf, Hc, Hs in IH; exact IH).
  - intros (-> & c & Hc & Hf & Hcl & Hs). eapply silently_weaken; [by apply stream_panics_skip|].
    specialize (IH q). destruct IH as [IHs IH]. split; [exact IHs|]. eapply always_mono, IH.
    intros tr [[q' v]|] Ho; [|exact Ho]. revert Ho. unfold heard_pass, hear, went_idle.
    rewrite Hf, Hcl, Hs. cbn [heard]. destruct (heard rest) as [ts r]. cbn [fst snd].
    intros (shown & HF & Hf' & Hc' & Hs' & Hv).
    exists (c :: shown). rewrite Hf', Hc'. cbn [concat].
    split_and!; [by constructor|symmetry; apply app_assoc|symmetry; apply app_assoc|done..].
  - intros (Hf & Hc & Hs & ->). unfold heard_pass, hear, went_idle. cbn [heard fst snd].
    destruct (is_sdk_error _); apply silently_done;
      exists []; cbn [concat]; rewrite !app_nil_r; repeat split; done.
Qed.

Lemma run_subprocess_beats {B} cmd args t overlay (f : SubprocessOutcome -> proc B) R :
  R [] Panic ->
  (forall o, (match o with Sub_Success _ _ => False | _ => True end) -> beating (f o) R) ->
  (forall e, beating (f (child_outcome e)) (fun bs o => R (Child e :: bs) o)) ->
  beating (run_subprocess cmd args (ne_cwd env) t overlay ≫= f) R.
Proof.
  intros Hpanic Hfailed Hran. unfold run_subprocess. intros [vars|]; [|exact Hpanic].
  intros [[]|kind]; [|by apply Hfailed]. intros e. apply Hran.
Qed.

Lemma until_bash_beats {B} i start prev (f : bool -> proc B) R :
  (until_bash (loop_config node) <> None -> R [] Panic) ->
  (forall bs b, bash_ends node bs b -> beating (f b) (fun bs' o => R (bs ++ bs') o)) ->
  beating (check_until_bash env node outs i start prev ≫= f) R.
Proof.
  intros Hpanic Hf. unfold check_until_bash.
  assert (beating (f false) R) as Hfalse by apply (Hf [] false), Bash_none.
  destruct (until_bash _) as [script|] eqn:Hs; [|exact Hfalse].
  destruct (substitute_workflow_variables _ _ _ _ _ _ _ _ _ _ _) as [sr|e]; [|exact Hfalse].
  apply always_assoc, substitute_refs_then. intros write_ok. cbn zeta. apply always_assoc.
  apply run_subprocess_beats.
  - apply Hpanic. done.
  - intros o Ho. by destruct o.
  - intros e. apply (Hf [Child e]). constructor. by rewrite Hs.
Qed.

Lemma fail_iteration_ends i t cost msg (R : list beat -> outcome IterEnd -> Prop) :
  R [] (Ret (Finish (iteration_failed i cost msg))) -> beating (fail_iteration node i t cost msg) R.
Proof.
  intros HR. unfold fail_iteration. do 3 (apply ask_then; [done|]; intros ?). exact HR.
Qed.
Lemma complete_loop_ends i t st (R : list beat -> outcome IterEnd -> Prop) :
  R [] (Ret (Finish (loop_completed st))) -> beating (complete_loop node i t st) R.
Proof.
  intros HR. unfold complete_loop.
  apply silent_then; [apply notify_silent|apply notify_gives|]. intros [].
  do 3 (apply ask_then; [done|]; intros ?). exact HR.
Qed.
Lemma pause_loop_ends i gate st (R : list beat -> outcome IterEnd -> Prop) :
  R [] (Ret (Finish (undelivered node st))) ->
  (forall answer, R [Pause (loop_gate_ctx node i gate st) answer]
     (Ret (Finish (match answer with Ok _ => loop_paused st | Err e => failed_result [] None e end)))) ->
  beating (pause_loop env node i gate st) R.
Proof.
  intros Hun HR. unfold pause_loop.
  apply silent_then; [unfold send_text; silent_steps|unfold send_text; gives_steps|].
  intros sent. destruct (negb (delivered sent)); [exact Hun|].
  intros [] [u|e]; [intros []; exact (HR (Ok u))|exact (HR (Err e))].
Qed.

(** The end of an iteration, or nothing more when it panics. *)
Definition pass_ends (i : N) (st : LoopState) (chunks : list MessageChunk) (ending : StreamEnd)
    (bs : list beat) (o : outcome IterEnd) : Prop :=
  match o with
  | Ret e => pass_end env node i st chunks ending bs e
  | Panic => bs = [] /\ may_panic env node chunks
  end.

Lemma after_pass_ends i start t st chunks ending p :
  heard_pass i chunks ending (mk_Pass [] [] None st) (p, (went_idle chunks ending, None)) ->
  beating (after_pass env node outs i start t p (went_idle chunks ending))
    (pass_ends i st chunks ending).
Proof.
  intros (shown & HF & Hf & Hc & Hs & _). cbn [full_output clean_output pass_state app] in *.
  unfold after_pass. rewrite Hs.
  apply silent_then; [case_match; [apply notify_silent|apply only_done]
                     |case_match; [apply notify_gives|by apply gives_done]|]. intros _.
  destruct (negb (went_idle chunks ending) && is_empty (trim (full_output p))) eqn:Hempty.
  { apply andb_prop in Hempty as [Hidle%negb_true_iff Hempty]. rewrite Hf in Hempty.
    apply fail_iteration_ends. by apply End_empty. }
  apply silent_then; [case_match; [apply notify_silent|apply only_done]
                     |case_match; [apply notify_gives|by apply gives_done]|]. intros _.
  eapply silently_then; [apply silently_pure; [intros b Hb; exact Hb|intros Hb; exact Hb]| |].
  { intros Hb. rewrite Hf in Hb. split; [done|]. by do 3 right. }
  intros signal Hsignal.
  rewrite Hf in *. rewrite Hc.
  set (st' := set_last_output _ (hear chunks st)).
  assert (reads node chunks ending (output_of (fst (heard chunks)) shown) signal) as Hreads.
  { split; [|split; [exact Hsignal|by exists shown]]. intros Hidle. by rewrite Hidle in Hempty. }
  apply until_bash_beats; [intros Hb; split; [done|by right; right; left]|]. intros bs bash Hbash.
  apply ask_then; [done|]. intros stop. do 3 (apply ask_then; [done|]; intros []).
  fold (is_interactive node). change (negb (is_interactive node && _)) with (may_complete env node).
  destruct (_ && may_complete env node) eqn:Hdone.
  { apply andb_prop in Hdone as [Hdone Hmay]. apply complete_loop_ends.
    rewrite app_nil_r. by eapply End_complete. }
  destruct (is_interactive node) eqn:Hi; [destruct (gate_message _) as [gate|] eqn:Hg|].
  - assert (gate_of node = Some gate) as Hgate by (unfold gate_of; by rewrite Hi).
    apply pause_loop_ends.
    + rewrite app_nil_r. by eapply End_undelivered.
    + intros answer. by eapply End_gate.
  - change (pass_ends i st chunks ending (bs ++ []) (Ret (Again st'))).
    rewrite app_nil_r. eapply End_again; [done..|]. unfold gate_of. by rewrite Hi.
  - change (pass_ends i st chunks ending (bs ++ []) (Ret (Again st'))).
    rewrite app_nil_r. eapply End_again; [done..|]. unfold gate_of. by rewrite Hi.
Qed.

Lemma run_pass_beats {B} i start st (f : Pass * (bool * option str) -> proc B) R :
  (forall msg p, loop_prompt_of env node outs i start st = Err msg ->
     pass_state p = st -> beating (f (p, (false, Some msg))) R) ->
  (forall prompt chunks ending, loop_prompt_of env node outs i start st = Ok prompt ->
     let q := Query prompt (resume_of node i st) (chunks, ending) in
     (stream_panics chunks -> R [q] Panic)
     /\ forall r, heard_pass i chunks ending (mk_Pass [] [] None st) r ->
        beating (f r) (fun bs o => R (q :: bs) o)) ->
  beating (run_pass env node outs provider options i start st ≫= f) R.
Proof.
  intros Herr Hok. unfold run_pass, loop_prompt_of in *.
  destruct (substitute_workflow_variables _ _ _ _ _ _ _ _ _ _ _) as [sr|e]; [|by apply Herr].
  apply always_assoc, substitute_refs_then. intros write_ok. cbn zeta.
  rewrite (substitute_unescaped write_ok (fun _ _ => false)).
  intros [chunks ending]. destruct (Hok _ chunks ending eq_refl) as [Hpanic Hf].
  apply (silently_then _ f (heard_pass i chunks ending (mk_Pass [] [] None st))
           (stream_panics chunks) (fun bs o => R (Query _ (resume_of node i st) (chunks, ending) :: bs) o));
    [apply stream_loop_heard|exact Hpanic|exact Hf].
Qed.

Lemma loop_iteration_iterates i start st :
  beating (loop_iteration env node outs provider options i start st) (iterates env node outs i start st).
Proof.
  unfold loop_iteration. apply ask_then; [done|]. intros t.
  apply status_then. intros [s|e]; [|apply It_store]. cbn zeta.
  change (should_continue_streaming_for_status (workflow_run_status_str <$> s)) with (continues s).
  destruct (continues s) eqn:Hs; cbn [negb].
  2:{ apply silent_then; [apply notify_silent|apply notify_gives|]. intros []. by apply It_stopped. }
  apply ask_then; [done|]. intros []. apply ask_then; [done|]. intros []. apply run_pass_beats.
  - intros msg p Hmsg Hp. rewrite Hp. by apply fail_iteration_ends, It_prompt.
  - intros prompt chunks ending Hprompt q. split.
    { intros [Hp|Hp]; (apply It_panic; [done..|]); [by left|by right; left]. }
    intros [p [idle thrown]] Hheard. pose proof Hheard as (shown & _ & _ & _ & Hstate & [= -> ->]).
    destruct (snd (heard chunks)) as [r|] eqn:Hr; [destruct (is_sdk_error r) eqn:Herr|].
    + rewrite Hstate. apply fail_iteration_ends. apply It_pass; [done..|]. by apply End_sdk.
    + eapply beating_mono; [|by eapply after_pass_ends].
      intros bs [e|]; [intros He; by apply It_pass|intros [-> Hp]; by apply It_panic].
    + eapply beating_mono; [|by eapply after_pass_ends].
      intros bs [e|]; [intros He; by apply It_pass|intros [-> Hp]; by apply It_panic].
Qed.

Lemma loop_iterations_loops passes i start st :
  beating (loop_iterations env node outs provider options passes i start st)
    (loops env node outs passes i start st).
Proof.
  revert i st. induction passes as [|n IH]; intros i st; [apply Loops_max|].
  apply beating_bind. eapply beating_mono; [|apply loop_iteration_iterates].
  intros bs [[st'|r]|] Hbs.
  - eapply beating_mono; [|apply IH]. intros bs' o. by apply Loops_again.
  - cbn. rewrite app_nil_r. by apply Loops_end.
  - by apply Loops_panic.
Qed.
End Refinement.

(** ** Consequences *)

Definition session_from (chunks : list MessageChunk) (s : option str) : option str :=
  match snd (heard chunks) with
  | Some r => match rc_session_id r with Some sid => Some sid | None => s end
  | None => s
  end.
(** The session known after some beats. *)
Fixpoint session_after (s : option str) (bs : list beat) : option str :=
  match bs with
  | [] => s
  | Query _ _ (chunks, _) :: rest => session_after (session_from chunks s) rest
  | _ :: rest => session_after s rest
  end.
Definition is_pause (b : beat) : bool := match b with Pause _ _ => true | _ => false end.

Section Consequences.
Context `{RegexEngine} `{SerdeJson} `{UnicodeCase} `{StdText}.
Context {agent : Type}.
Variable registry : Registry agent.
Variable env : NodeEnv.
Variable node : LoopNode.
Variable outs : gmap str NodeOutput.
Variable provider : str.
Variable options : option SendQueryOptions.

Let lc := loop_config node.

(** The beats of a whole node. *)
Definition passes_from (start : N) : nat := N.to_nat (max_iterations lc + 1 - start).
Definition first_state : LoopState := mk_LoopState (resume_session env node) [] None None None None.
Definition exceeded (st : LoopState) : NodeExecutionResult :=
  failed_result (last_iteration_output st) (loop_total_cost_usd st)
    (lit "Loop node '" ++ base_id (loop_base node) ++ lit "' exceeded max iterations ("
     ++ show_N (max_iterations lc) ++ lit ") without completion signal '" ++ loop_until lc ++ lit "'").
Definition node_loops (bs : list beat) (o : outcome NodeExecutionResult) : Prop :=
  match get_provider_capabilities provider registry with
  | Err _ => bs = [] /\ o = Ret (failed_result [] None (invalid_provider node provider))
  | Ok _ =>
      match start_iteration env node with
      | Panic => bs = [] /\ o = Panic
      | Ret start =>
          exists o', loops env node outs (passes_from start) start start first_state bs o'
            /\ o = match o' with
                   | Ret (inl st) => Ret (exceeded st)
                   | Ret (inr r) => Ret r
                   | Panic => Panic
                   end
      end
  end.

Lemma execute_loop_node_loops :
  beating (execute_loop_node registry env node outs provider options) node_loops.
Proof.
  unfold execute_loop_node, node_loops.
  destruct (get_provider_capabilities provider registry); [|by apply beating_done].
  destruct (start_iteration env node) as [start|]; [|split; reflexivity].
  apply pure_then, beating_bind. eapply beating_mono; [|apply loop_iterations_loops].
  intros bs [[st|r]|] Hbs.
  - unfold exceed_iterations. apply silent_then; [apply notify_silent|apply notify_gives|]. intros [].
    apply beating_done. rewrite app_nil_r. by exists (Ret (inl st)).
  - apply beating_done. rewrite app_nil_r. by exists (Ret (inr r)).
  - by exists Panic.
Qed.

(** ** Pacing *)

(** [passes] iterations from [i] on are left; [asked] says that the store has just
    answered that the run goes on. *)
Fixpoint paced (passes : nat) (i : N) (s : option str) (asked : bool) (bs : list beat) : Prop :=
  match bs with
  | [] => True
  | Status answer :: rest =>
      paced passes i s (match answer with Ok x => continues x | Err _ => false end) rest
  | Query _ resume (chunks, _) :: rest =>
      asked = true /\ resume = (if fresh_context lc || (i =? 1)%N then None else s)
      /\ match passes with
         | O => False
         | S passes => paced passes (i + 1) (session_from chunks s) false rest
         end
  | Child _ :: rest => paced passes i s false rest
  | Pause _ _ :: rest => rest = []
  end.

Lemma paced_bash passes i s bs b :
  bash_ends node bs b -> paced passes i s false bs.
Proof. by intros []. Qed.
Lemma paced_bash_again passes i s bs b rest :
  bash_ends node bs b -> paced passes i s false rest -> paced passes i s false (bs ++ rest).
Proof. by intros []. Qed.

Lemma session_of_hear out chunks st :
  current_session_id (set_last_output out (hear chunks st)) = session_from chunks (current_session_id st).
Proof. unfold hear, session_from. by destruct (snd (heard chunks)) as [[? [] ? ? ? ? ? ? ? ?]|]. Qed.

Lemma pass_end_paced n i st chunks ending bs e :
  pass_end env node i st chunks ending bs e ->
  paced n (i + 1) (session_from chunks (current_session_id st)) false bs
  /\ forall st', e = Again st' ->
       current_session_id st' = session_from chunks (current_session_id st)
       /\ exists b, bash_ends node bs b.
Proof.
  intros [r Hr Herr|Hidle He|out signal bs' b Hr Hb Hd Hm|out signal bs' b Hr Hb Hd Hg
         |out signal bs' b gate Hr Hb Hd Hg|out signal bs' b gate answer Hr Hb Hd Hg st0];
    (split; [|intros st' [=]]); try done; try by eapply paced_bash.
  - subst st'. split; [apply session_of_hear|by exists b].
  - by eapply paced_bash_again.
Qed.

Lemma iterates_paced n i start st bs o :
  iterates env node outs i start st bs o -> paced (S n) i (current_session_id st) false bs.
Proof.
  intros [e|s Hs|s msg Hs Hp|s prompt chunks ending bs' e Hs Hp He|s prompt chunks ending Hs Hp Hm];
    try done; cbn [paced]; rewrite Hs; split_and!; try done.
  by eapply pass_end_paced.
Qed.

Lemma iterates_again_paced n i start st bs st' rest :
  iterates env node outs i start st bs (Ret (Again st')) ->
  paced n (i + 1) (current_session_id st') false rest ->
  paced (S n) i (current_session_id st) false (bs ++ rest).
Proof.
  intros Hbs Hrest. inversion Hbs as [| | |s prompt chunks ending bs' e Hs Hp He|]; subst.
  cbn [app paced]. rewrite Hs. split; [done|]. split; [done|].
  apply (pass_end_paced n) in He as [_ He]. destruct (He st' eq_refl) as [Hsession [b Hb]].
  rewrite Hsession in Hrest. by eapply paced_bash_again.
Qed.

Lemma loops_paced n i start st bs o :
  loops env node outs n i start st bs o -> paced n i (current_session_id st) false bs.
Proof.
  induction 1 as [|n i start st bs r Hbs|n i start st bs Hbs|n i start st bs st' bs' o Hbs _ IH].
  - done.
  - by eapply iterates_paced.
  - by eapply iterates_paced.
  - by eapply iterates_again_paced.
Qed.

(** What pacing says of a query. *)
Lemma paced_query n i s asked pre prompt resume x post :
  paced n i s asked (pre ++ Query prompt resume x :: post) ->
  count_queries pre < n
  /\ (pre = [] -> asked = true)
  /\ (pre <> [] -> exists pre' st, pre = pre' ++ [Status (Ok st)] /\ continues st = true)
  /\ resume = (if fresh_context lc || (i + N.of_nat (count_queries pre) =? 1)%N then None
               else session_after s pre)
  /\ existsb is_pause pre = false.
Proof.
  revert n i s asked. induction pre as [|b pre IH]; intros n i s asked; cbn [app paced].
  - destruct x as [chunks ending]. intros (Ha & Hr & Hn). cbn [count_queries].
    rewrite N.add_0_r. split_and!; try done. by destruct n; [|lia].
  - assert (forall asked', (pre = [] -> asked' = true) ->
      (pre <> [] -> exists pre' st, pre = pre' ++ [Status (Ok st)] /\ continues st = true) ->
      (asked' = true -> exists st, b = Status (Ok st) /\ continues st = true) ->
      exists pre' st, b :: pre = pre' ++ [Status (Ok st)] /\ continues st = true) as Hlast.
    { intros asked' He Hne Hb. destruct pre as [|b' pre].
      - destruct (Hb (He eq_refl)) as (st & -> & Hst). by exists [], st.
      - destruct (Hne ltac:(done)) as (pre' & st & -> & Hst). by exists (b :: pre'), st. }
    destruct b as [answer|prompt' resume' [chunks ending]|answer|ctx answer].
    + intros (Hn & He & Hne & Hr & Hp)%IH. split_and!; try done. intros _.
      eapply Hlast; [done..|]. destruct answer as [st|]; [|done]. eauto.
    + destruct n as [|n]; [by intros (_ & _ & ?)|].
      intros (_ & _ & (Hn & He & Hne & Hr & Hp)%IH). cbn [count_queries]. split_and!; try done.
      * lia.
      * intros _. by eapply Hlast.
      * rewrite Hr. replace (i + 1 + N.of_nat (count_queries pre))%N
          with (i + N.of_nat (S (count_queries pre)))%N by lia. done.
    + intros (Hn & He & Hne & Hr & Hp)%IH. split_and!; try done. intros _. by eapply Hlast.
    + by destruct pre.
Qed.

Lemma loop_beats_paced w past pre prompt resume x post :
  let tr := fst (exec w past (execute_loop_node registry env node outs provider options)) in
  beats tr = pre ++ Query prompt resume x :: post ->
  exists start, start_iteration env node = Ret start
    /\ paced (passes_from start) start (resume_session env node) false (pre ++ Query prompt resume x :: post).
Proof.
  intros tr Hbs. pose proof (beating_exec _ _ w past execute_loop_node_loops) as Hloops.
  fold tr in Hloops. rewrite Hbs in Hloops. unfold node_loops in Hloops.
  destruct (get_provider_capabilities provider registry); [|by destruct Hloops as [?%symmetry%app_cons_not_nil ?]].
  destruct (start_iteration env node) as [start|]; [|by destruct Hloops as [?%symmetry%app_cons_not_nil ?]].
  destruct Hloops as (o' & Hp%loops_paced & _). by exists start.
Qed.

(** C12: every query of a loop node belongs to an iteration within [max_iterations] and
    directly follows an answer of the store that the run goes on; nothing follows a
    pause.  It resumes no session when a fresh context is asked for and in iteration
    1, and otherwise the session that the last result before it named. *)
Theorem loop_protocol w past pre prompt resume x post :
  let tr := fst (exec w past (execute_loop_node registry env node outs provider options)) in
  beats tr = pre ++ Query prompt resume x :: post ->
  exists start st pre',
    start_iteration env node = Ret start
    /\ let i := (start + N.of_nat (count_queries pre))%N in
       (i <= max_iterations lc)%N
       /\ pre = pre' ++ [Status (Ok st)] /\ continues st = true
       /\ existsb is_pause pre = false
       /\ resume = (if fresh_context lc || (i =? 1)%N then None
                    else session_after (resume_session env node) pre).
Proof.
  intros tr (start & Hstart & (Hn & He & Hne & Hr & Hp)%paced_query)%loop_beats_paced.
  destruct Hne as (pre' & st & Hpre & Hst); [by intros ?%He|]. exists start, st, pre'.
  unfold passes_from, lc in *. split_and!; try done. lia.
Qed.

(** ** Completion *)

Lemma loops_completed n i start st bs r :
  loops env node outs n i start st bs (Ret (inr r)) -> er_state r = Exec_Completed_ ->
  exists pre j st' prompt resume chunks ending tail,
    bs = pre ++ Query prompt resume (chunks, ending) :: tail
    /\ j = (i + N.of_nat (count_queries pre))%N
    /\ current_session_id st' = session_after (current_session_id st) pre
    /\ pass_end env node j st' chunks ending tail (Finish r).
Proof.
  intros Hloops. remember (Ret (inr r)) as o eqn:Ho. revert Ho.
  induction Hloops as [|n i start st bs r' Hbs|n i start st bs Hbs|n i start st bs st' bs' o Hbs Hrest IH];
    intros [=] Hr; subst.
  - inversion Hbs as [| | |s prompt chunks ending bs' e Hs Hp He|]; subst; try done.
    exists [Status (Ok s)], i, st, prompt, (resume_of node i st), chunks, ending, bs'.
    split_and!; try done. by rewrite N.add_0_r.
  - destruct (IH eq_refl Hr) as (pre & j & st2 & prompt & resume & chunks & ending & tail & -> & -> & Hst & He).
    inversion Hbs as [| | |s prompt' chunks' ending' bs' e Hs Hp Hpass|]; subst.
    apply (pass_end_paced 0) in Hpass as [_ Hpass].
    destruct (Hpass st' eq_refl) as [Hsession [b Hb]].
    exists (Status (Ok s) :: Query prompt' (resume_of node i st) (chunks', ending') :: bs' ++ pre).
    eexists _, st2, prompt, resume, chunks, ending, tail. split_and!; [|reflexivity| |].
    + cbn [app]. by rewrite <- app_assoc.
    + rewrite Hst, Hsession. cbn [session_after]. by destruct Hb.
    + cbn [count_queries]. rewrite count_queries_app.
      replace (count_queries bs') with 0 by (by destruct Hb).
      by replace (i + N.of_nat (S (0 + count_queries pre)))%N
        with (i + 1 + N.of_nat (count_queries pre))%N by lia.
Qed.

(** C13: a loop node completes only when it is done or waits for the user.  Either the
    output of its last stream signals completion or the [until_bash] script ended with
    0, and the loop is not interactive before its first gate; or the last thing it
    did was to pause the run, which the store accepted, with the gate's message, the
    number of the iteration and the session to go on with.  Its output is then what
    that stream said, which is blank only when the provider went silent. *)
Theorem loop_completion w past r :
  let x := exec w past (execute_loop_node registry env node outs provider options) in
  snd x = Ret r -> er_state r = Exec_Completed_ ->
  exists start pre prompt resume chunks ending tail bs signal bash,
    start_iteration env node = Ret start
    /\ beats (fst x) = pre ++ Query prompt resume (chunks, ending) :: tail
    /\ reads node chunks ending (er_output r) signal /\ bash_ends node bs bash
    /\ ((tail = bs /\ signal || bash = true /\ may_complete env node = true)
        \/ exists gate u,
            let ctx := {|
              ctx_node_id := base_id (loop_base node);
              ctx_message := gate;
              approval_type := Some Ctx_InteractiveLoop;
              iteration := Some (f64_of_Z (Z.of_N (start + N.of_nat (count_queries pre))));
              ctx_session_id := session_after (resume_session env node) (beats (fst x));
              ctx_capture_response := None;
              ctx_on_reject_prompt := None;
              ctx_on_reject_max_attempts := None;
            |} in
            gate_of node = Some gate /\ tail = bs ++ [Pause ctx (Ok u)]).
Proof.
  intros x Hr Hc. pose proof (beating_exec _ _ w past execute_loop_node_loops) as Hloops.
  fold x in Hloops. rewrite Hr in Hloops. unfold node_loops in Hloops.
  destruct (get_provider_capabilities provider registry); [|by destruct Hloops as [_ [= ->]]].
  destruct (start_iteration env node) as [start|]; [|by destruct Hloops as [_ [=]]].
  destruct Hloops as (o' & Hloops & Ho). destruct o' as [[st|r']|]; [by injection Ho as ->| |done].
  injection Ho as <-. apply loops_completed in Hloops; [|done].
  destruct Hloops as (pre & j & st & prompt & resume & chunks & ending & tail & Hbs & -> & Hst & Hpass).
  rewrite Hbs. exists start, pre, prompt, resume, chunks, ending, tail.
  inversion Hpass as [| |out signal bs b Hreads Hb Hd Hm| | |out signal bs b gate answer Hreads Hb Hd Hg st' Hbs' Hend];
    subst; try done.
  - exists tail, signal, b. split_and!; try done. by left.
  - destruct answer as [u|e]; [|done]. exists bs, signal, b. split_and!; try done. right.
    exists gate, u. split; [done|]. subst st'. unfold loop_gate_ctx.
    rewrite session_of_hear, Hst. repeat f_equal.
    assert (forall l s, session_after s (pre ++ Query prompt resume (chunks, ending) :: l)
                        = session_after (session_from chunks (session_after s pre)) l) as Happ.
    { clear. intros l. induction pre as [|[| ? ? []| |] pre IH]; intros s'; cbn; auto. }
    rewrite Happ. by destruct Hb.
Qed.

(** ** Progress *)

(** A stream that is understood and is not an error, and whether it signals. *)
Definition healthy (x : list MessageChunk * StreamEnd) (signal : bool) : Prop :=
  (forall r, snd (heard (fst x)) = Some r -> is_sdk_error r = false)
  /\ (exists out, reads node (fst x) (snd x) out signal).
(** Every status goes on; the streams are healthy, and signal from the [k]-th on. *)
Definition statuses_continue (bs : list beat) : Prop :=
  forall answer, Status answer ∈ bs -> exists s, answer = Ok s /\ continues s = true.
Definition streams_signal (k : nat) (bs : list beat) : Prop :=
  forall pre prompt resume x post, bs = pre ++ Query prompt resume x :: post ->
    exists signal, healthy x signal /\ (k <= count_queries pre -> signal = true).
(** No stream of these beats signals. *)
Definition none_signals (bs : list beat) : Prop :=
  forall pre prompt resume x post, bs = pre ++ Query prompt resume x :: post -> healthy x false.

Section Progress.
Hypothesis Hgate : gate_of node = None.
Hypothesis Hmay : may_complete env node = true.
Hypothesis Hbash : until_bash lc = None.
Hypothesis Hmode : is_stream (ne_streaming_mode env) = false.
Hypothesis Hprompt : forall i start st, exists prompt, loop_prompt_of env node outs i start st = Ok prompt.

Lemma pass_end_healthy i st chunks ending bs e signal :
  healthy (chunks, ending) signal -> pass_end env node i st chunks ending bs e ->
  bs = [] /\ if signal then exists out, reads node chunks ending out true
                            /\ e = Finish (loop_completed (set_last_output out (hear chunks st)))
             else exists st', e = Again st'.
Proof.
  intros [Hsdk (out & Hout)].
  assert (forall bs b, bash_ends node bs b -> bs = [] /\ b = false) as Hnone.
  { intros bs' b [|answer Hb]; [done|]. by destruct Hb. }
  assert (forall out' b, reads node chunks ending out' b -> b = signal) as Hsignal.
  { intros out' b (_ & Hb & _). destruct Hout as (_ & Hs & _). cbn [fst snd] in *. congruence. }
  intros [r Hr Herr|Hidle He|out' b bs' c Hr [-> ->]%Hnone Hd _|out' b bs' c Hr [-> ->]%Hnone Hd _
         |out' b bs' c gate Hr Hb Hd Hg|out' b bs' c gate answer Hr Hb Hd Hg st0]; try congruence.
  - by rewrite (Hsdk r Hr) in Herr.
  - destruct Hout as [Hblank _]. cbn [fst snd] in Hblank. by rewrite (Hblank Hidle) in He.
  - split; [done|]. rewrite orb_false_r in Hd. subst b. rewrite <- (Hsignal out' true Hr). eauto.
  - split; [done|]. rewrite Hmay, orb_false_r, andb_true_r in Hd. subst b.
    rewrite <- (Hsignal out' false Hr). eauto.
Qed.

(** An iteration is a status and a query; it completes the loop or goes on. *)
Lemma iterates_healthy i start st bs o k :
  iterates env node outs i start st bs o -> statuses_continue bs -> streams_signal k bs ->
  exists s prompt chunks ending,
    bs = [Status s; Query prompt (resume_of node i st) (chunks, ending)]
    /\ ((exists out, reads node chunks ending out true
          /\ o = Ret (Finish (loop_completed (set_last_output out (hear chunks st)))))
        \/ (k <> 0 /\ healthy (chunks, ending) false /\ exists st', o = Ret (Again st'))).
Proof.
  intros Hit Hstatus Hquery.
  inversion Hit as [e|s Hs|s msg Hs Hp|s prompt chunks ending bs' e Hs Hp He|s prompt chunks ending Hs Hp Hm]; subst.
  - destruct (Hstatus (Err e)) as (s & [=] & _). constructor.
  - destruct (Hstatus (Ok s)) as (s' & [= <-] & Hc); [constructor|congruence].
  - destruct (Hprompt i start st) as [prompt Hok]. congruence.
  - destruct (Hquery [_] prompt (resume_of node i st) (chunks, ending) bs' eq_refl) as (signal & Hh & Hk).
    destruct (pass_end_healthy _ _ _ _ _ _ _ Hh He) as [-> Hend].
    exists (Ok s), prompt, chunks, ending. split; [done|]. destruct signal.
    + left. destruct Hend as (out & Hr & ->). eauto.
    + right. destruct Hend as (st' & ->). split_and!; [|done|eauto]. intros ->.
      by discriminate (Hk ltac:(cbn; lia)).
  - destruct (Hquery [_] prompt (resume_of node i st) (chunks, ending) [] eq_refl)
      as (signal & (_ & out & _ & Hdetect & shown & HF & _) & _). cbn [fst snd] in *.
    destruct Hm as [Hm|[(t & Ht & Hm)|[Hm|Hm]]]; try (unfold lc in *; congruence).
    apply list_elem_of_lookup in Ht as [j Ht].
    eapply Forall2_lookup_l in HF as (c & _ & Hc); [|exact Ht]. congruence.
Qed.

Lemma loops_progress n i start st bs o k :
  loops env node outs n i start st bs o -> statuses_continue bs -> streams_signal k bs -> k < n ->
  exists r pre prompt resume chunks ending,
    o = Ret (inr r) /\ er_state r = Exec_Completed_
    /\ bs = pre ++ [Query prompt resume (chunks, ending)]
    /\ reads node chunks ending (er_output r) true /\ count_queries pre <= k /\ none_signals pre.
Proof.
  intros Hloops. revert k.
  induction Hloops as [|n i start st bs r' Hbs|n i start st bs Hbs|n i start st bs st' bs' o Hbs Hrest IH];
    intros k Hstatus Hquery Hk; [lia|..].
  - destruct (iterates_healthy _ _ _ _ _ _ Hbs Hstatus Hquery)
      as (s & prompt & chunks & ending & -> & [(out & Hr & [= ->])|(_ & _ & st' & [=])]).
    exists (loop_completed (set_last_output out (hear chunks st))), [Status s], prompt.
    exists (resume_of node i st), chunks, ending. split_and!; try done; [cbn; lia|].
    by intros [|b [|b' pre]] ? ? ? ? [=].
  - by destruct (iterates_healthy _ _ _ _ _ _ Hbs Hstatus Hquery)
      as (s & prompt & chunks & ending & -> & [(out & Hr & [=])|(_ & _ & st' & [=])]).
  - destruct (iterates_healthy _ _ _ _ _ k Hbs) as (s & prompt & chunks & ending & -> & Hend).
    { intros answer Ha. apply Hstatus. apply elem_of_app. by left. }
    { intros pre prompt resume x post ->. eapply (Hquery pre prompt resume x (post ++ bs')).
      by rewrite <- app_assoc. }
    destruct Hend as [(out & Hr & [=])|(Hk0 & Hfalse & st2 & [= <-])].
    destruct (IH (k - 1)) as (r & pre & p2 & r2 & c2 & e2 & -> & Hr & -> & Hreads & Hcount & Hnone).
    { intros answer Ha. apply Hstatus. apply elem_of_app. by right. }
    { intros pre p2 r2 x post ->.
      destruct (Hquery (Status s :: Query prompt (resume_of node i st) (chunks, ending) :: pre)
                  p2 r2 x post eq_refl) as (signal & Hh & Hsig).
      exists signal. split; [done|]. intros Hle. apply Hsig. cbn [count_queries]. lia. }
    { lia. }
    exists r, (Status s :: Query prompt (resume_of node i st) (chunks, ending) :: pre), p2, r2, c2, e2.
    split_and!; try done; [cbn [count_queries]; lia|].
    intros [|b [|b' l]] p3 r3 x post [=]; subst; [done|by eapply Hnone].
Qed.
End Progress.

(** C14: no completion signal is missed.  Take a loop that is not interactive, has no
    [until_bash], is not resumed, shows its output in batches and runs with a base branch
    on a registered provider; let every status read find its run running or paused, and
    let every stream be understood, be no error and, from the [k]-th on, signal
    completion, with [k] below the limit of iterations.  Then the loop completes with
    the output of a stream that signals: no stream before it signals, at most [k] come
    before it, and nothing is done after it. *)
Theorem loop_progress (w : world) (k : nat) :
  interactive lc <> Some true -> until_bash lc = None -> ne_streaming_mode env = Batch ->
  ne_base_branch env <> [] -> is_loop_resume env node = false ->
  contains_key provider registry = true -> k < N.to_nat (max_iterations lc) ->
  (forall past, exists s, w past GetRunStatus = Ok s /\ continues s = true) ->
  (forall past p prompt cwd resume o t, exists signal,
     healthy (w past (SendQuery p prompt cwd resume o t)) signal
     /\ (k <= count_queries (beats past) -> signal = true)) ->
  let x := exec w [] (execute_loop_node registry env node outs provider options) in
  exists r pre prompt resume chunks ending,
    snd x = Ret r /\ er_state r = Exec_Completed_
    /\ beats (fst x) = pre ++ [Query prompt resume (chunks, ending)]
    /\ reads node chunks ending (er_output r) true /\ count_queries pre <= k
    /\ (forall pre' q s y post, pre = pre' ++ Query q s y :: post -> healthy y false).
Proof.
  intros Hint Hbash Hmode Hbase Hresume Hreg Hk Hstatus Hstreams x.
  pose proof (beating_exec _ _ w [] execute_loop_node_loops) as Hloops. fold x in Hloops.
  assert (is_interactive node = false) as Hi.
  { unfold is_interactive. fold lc. destruct (interactive lc) as [[]|]; [by destruct Hint|done..]. }
  unfold node_loops, start_iteration in Hloops. rewrite Hresume in Hloops.
  unfold contains_key, get_provider_capabilities in *.
  destruct (registry_get provider registry); [|done]. destruct Hloops as (o & Hloops & Ho).
  eapply loops_progress in Hloops as (r & pre & q & s & chunks & ending & -> & Hr & Hbs & Hreads & Hle & Hnone).
  - rewrite Ho. by exists r, pre, q, s, chunks, ending.
  - unfold gate_of. by rewrite Hi.
  - unfold may_complete. by rewrite Hi.
  - exact Hbash.
  - by rewrite Hmode.
  - intros i start st. unfold loop_prompt_of.
    destruct (substitute_workflow_variables _ _ _ _ _ _ _ _ _ _ _) as [sr|e] eqn:He; [by eexists|].
    by apply substitute_workflow_variables_error in He as [? _].
  - intros answer (l1 & l2 & Hl)%list_elem_of_split. apply beats_split in Hl as (t1 & e & t2 & Htr & _ & He).
    pose proof (exec_answer _ w [] _ _ _ Htr) as Ha. destruct e as [[] a]; try discriminate He.
    injection He as <-. destruct (Hstatus ([] ++ t1)) as (s & Hs & Hc). exists s. by rewrite <- Hs.
  - intros pre q s y post (t1 & e & t2 & Htr & <- & He)%beats_split.
    pose proof (exec_answer _ w [] _ _ _ Htr) as Ha. destruct e as [[] a]; try discriminate He.
    injection He as _ _ <-. cbn [ev_call ev_answer] in Ha. subst a.
    apply Hstreams.
  - unfold passes_from, lc in *. lia.
Qed.
End Consequences.

(** ** A concrete loop *)

#[local] Existing Instance backtracking_engine.
#[local] Existing Instance ascii_case.

Definition said_in (session text : string) : list MessageChunk * StreamEnd :=
  ([Assistant (lit text) None;
    ResultMsg (mk_ResultChunk (Some (lit session)) None None None None None None None None None)],
   Closed).
(** A provider that works on it once, then is done. *)
Definition loop_world : world := fun past c =>
  match c return ret c with
  | SendQuery _ _ _ _ _ _ =>
      if count_queries (beats past) =? 0 then said_in "s1" "On it." else said_in "s2" "Tests pass. DONE"
  | c => good_world past c
  end.
Definition loop_node (interactive : bool) : LoopNode :=
  mk_LoopNode (base_default (lit "l") [])
    (mk_LoopNodeConfig (lit "Fix it: $LOOP_PREV_OUTPUT") (lit "DONE") 3 false None
       (Some interactive) (if interactive then Some (lit "Go on?") else None)).
Definition loop_env : NodeEnv := sample_node_env (lit "hello") [].
Abbreviation run_loop interactive :=
  (exec loop_world []
     (execute_loop_node (register_bundled (fun id => id) []) loop_env (loop_node interactive) ∅
        (lit "claude") None)).

Lemma loop_protocol_witness :
  exists start st pre', start_iteration loop_env (loop_node false) = Ret start
    /\ let pre := take 3 (beats (fst (run_loop false))) in
       (start + N.of_nat (count_queries pre) <= 3)%N
       /\ pre = pre' ++ [Status (Ok st)] /\ continues st = true
       /\ session_after None pre = Some (lit "s1").
Proof.
  destruct (loop_protocol (register_bundled (fun id => id) []) loop_env (loop_node false) ∅
              (lit "claude") None loop_world []
              (take 3 (beats (fst (run_loop false)))) (lit "Fix it: On it.") (Some (lit "s1"))
              (said_in "s2" "Tests pass. DONE") [])
    as (start & st & pre' & Hstart & Hmax & Hpre & Hst & _ & _); [by_compute|].
  exists start, st, pre'. split; [exact Hstart|]. split; [exact Hmax|]. split; [exact Hpre|].
  split; [exact Hst|by_compute].
Defined.

Definition loop_result : NodeExecutionResult :=
  mk_NodeExecutionResult Exec_Completed_ (lit "Tests pass. DONE") None (Some (lit "s2")) None None None.
Lemma loop_completion_witness :
  snd (run_loop false) = Ret loop_result
  /\ exists pre prompt resume chunks ending tail signal bash,
       beats (fst (run_loop false)) = pre ++ Query prompt resume (chunks, ending) :: tail
       /\ reads (loop_node false) chunks ending (lit "Tests pass. DONE") signal
       /\ bash_ends (loop_node false) tail bash /\ signal || bash = true.
Proof.
  assert (snd (run_loop false) = Ret loop_result) as Hr by by_compute.
  split; [exact Hr|].
  destruct (loop_completion (register_bundled (fun id => id) []) loop_env (loop_node false) ∅
              (lit "claude") None loop_world [] _ Hr eq_refl)
    as (start & pre & prompt & resume & chunks & ending & tail & bs & signal & bash & _ & Hbs & Hreads & Hbash & Hend).
  destruct Hend as [(-> & Hend & _)|(gate & u & [=] & _)].
  exists pre, prompt, resume, chunks, ending, bs, signal, bash. auto.
Defined.

Lemma loop_progress_witness :
  exists r pre prompt resume chunks ending,
    snd (run_loop false) = Ret r /\ er_state r = Exec_Completed_
    /\ beats (fst (run_loop false)) = pre ++ [Query prompt resume (chunks, ending)]
    /\ reads (loop_node false) chunks ending (er_output r) true /\ count_queries pre <= 1.
Proof.
  destruct (loop_progress (register_bundled (fun id => id) []) loop_env (loop_node false) ∅
           (lit "claude") None loop_world 1)
    as (r & pre & prompt & resume & chunks & ending & Hx & Hr & Hbs & Hreads & Hle & _);
    [..|exists r, pre, prompt, resume, chunks, ending; exact (conj Hx (conj Hr (conj Hbs (conj Hreads Hle))))].
  1-6: first [discriminate | vm_compute; reflexivity].
  - cbn. lia.
  - intros past. by exists (Some Run_Running).
  - intros past p prompt cwd resume o t. cbn [loop_world].
    assert (forall session text (signal : bool) out shown,
      detect_completion_signal (lit text) (lit "DONE") = Ret signal ->
      strip_completion_tags (lit text) (Some (lit "DONE")) = Ret shown ->
      output_of [lit text] [shown] = out ->
      is_empty (trim (lit text ++ [])) = false ->
      healthy (loop_node false) (said_in session text) signal) as Hhealthy.
    { intros session text signal out shown Hd Hs Ho Hb. split.
      - intros r [= <-]. done.
      - exists out. unfold reads, said_in. cbn [fst snd heard concat]. split; [done|].
        split; [by rewrite app_nil_r|]. exists [shown].
        split; [by repeat constructor|done]. }
    destruct (Nat.eqb_spec (count_queries (beats past)) 0) as [->|Hne].
    + exists false. split; [|lia].
      eapply Hhealthy; by_compute.
    + exists true. split; [|done]. eapply Hhealthy; by_compute.
Defined.
