(* ===== verification/GateResume.v ===== *)
(** * Resuming a run from a gate

    [ApprovalContext] as [serde] writes it into the metadata of a paused run, and what
    the node that opened the gate reads from it when the run goes on. *)

From S2P Require Import Prelude Float64 Json StdModel Regex DagNode Workflow ExecutorShared DagCore.
From S2P Require Import DagRun RunTheorems RunStore Provider NodeProc NodeStream.
From S2P Require Import Beats ApprovalNode LoopNode LoopSpec.

Definition ApprovalContextType_to_str (t : ApprovalContextType) : str :=
  match t with
  | Ctx_Approval => lit "approval"
  | Ctx_InteractiveLoop => lit "interactive_loop"
  end.
(** A field that is left out when it is [None]. *)
Definition opt_field {A} (key : string) (f : A -> value) (o : option A) : object :=
  match o with Some a => [(lit key, f a)] | None => [] end.
Definition ApprovalContext_to_value (c : ApprovalContext) : value :=
  Object
    ([(lit "nodeId", String (ctx_node_id c)); (lit "message", String (ctx_message c))]
     ++ opt_field "type" (fun t => String (ApprovalContextType_to_str t)) (approval_type c)
     ++ opt_field "iteration" json_f64 (iteration c)
     ++ opt_field "sessionId" String (ctx_session_id c)
     ++ opt_field "captureResponse" Bool (ctx_capture_response c)
     ++ opt_field "onRejectPrompt" String (ctx_on_reject_prompt c)
     ++ opt_field "onRejectMaxAttempts" json_f64 (ctx_on_reject_max_attempts c)).

(** ** Reading it back *)

Lemma value_get_opt_field {A} key k (f : A -> value) o rest :
  value_get (lit key) (Object (opt_field k f o ++ rest)) =
    match o with
    | Some a => if str_eqb (lit key) (lit k) then Some (f a) else value_get (lit key) (Object rest)
    | None => value_get (lit key) (Object rest)
    end.
Proof. by destruct o. Qed.

Lemma context_type c :
  meta_str "type" (Some (ApprovalContext_to_value c)) = ApprovalContextType_to_str <$> approval_type c.
Proof. by destruct c as [? ? [[]|] [] [] [] [] []]. Qed.
Lemma context_node c : meta_str "nodeId" (Some (ApprovalContext_to_value c)) = Some (ctx_node_id c).
Proof. by destruct c as [? ? [[]|] [] [] [] [] []]. Qed.
Lemma context_session c :
  meta_str "sessionId" (Some (ApprovalContext_to_value c)) = ctx_session_id c.
Proof. by destruct c as [? ? [[]|] [] [] [] [] []]. Qed.
Lemma context_iteration c x :
  iteration c = Some x -> f64_is_finite x = true ->
  meta_f64 "iteration" (Some (ApprovalContext_to_value c)) = Some x.
Proof.
  destruct c as [? ? [[]|] [] [] [] [] []]; intros [= ->]; unfold ApprovalContext_to_value;
    cbn [opt_field iteration]; unfold json_f64 at 1; intros ->; done.
Qed.

Lemma context_is_approval c : is_approval_context (ApprovalContext_to_value c) = true.
Proof. by destruct c as [? ? [[]|] [] [] [] [] []]. Qed.

(** The metadata of a run paused with a context. *)
Definition paused_with (run : WorkflowRun) (c : ApprovalContext) : Prop :=
  assoc_get (lit "approval") (metadata run) = Some (ApprovalContext_to_value c).

Lemma paused_meta run c : paused_with run c -> approval_meta run = Some (ApprovalContext_to_value c).
Proof. intros Hc. unfold approval_meta. by rewrite Hc, context_is_approval. Qed.
Lemma paused_matches run c type id :
  paused_with run c ->
  gate_matches type id run =
    bool_decide (ApprovalContextType_to_str <$> approval_type c = Some (lit type))
    && bool_decide (ctx_node_id c = id).
Proof.
  intros Hc. unfold gate_matches. rewrite (paused_meta run c Hc), context_type, context_node.
  f_equal. apply bool_decide_ext. split; [by intros [= ->]|by intros ->].
Qed.

Lemma f64_of_N_finite n : (n < 2 ^ 53)%N -> f64_is_finite (f64_of_Z (Z.of_N n)) = true.
Proof.
  intros Hn. pose proof (f64_to_u64_of_Z n Hn) as Hback.
  destruct (f64_of_Z (Z.of_N n)) as [| [] | |] eqn:Hx; try done; cbn in Hback.
  - by subst n.
  - subst n. by vm_compute in Hn.
  - by subst n.
Qed.
Lemma next_iteration_of i :
  (i < u32_max)%N -> next_iteration (f64_of_Z (Z.of_N i)) = Ret (i + 1)%N.
Proof.
  intros Hi. unfold next_iteration, f64_to_u32.
  rewrite f64_to_u64_of_Z by (unfold u32_max in *; lia).
  rewrite N.min_r by lia. by rewrite (proj2 (N.ltb_lt _ _) Hi).
Qed.

Section Resume.
Context `{RegexEngine} `{SerdeJson} `{UnicodeCase} `{StdText}.
Variable env : NodeEnv.

Lemma loop_gate_resumes node i gate st :
  paused_with (ne_run env) (loop_gate_ctx node i gate st) -> (i < u32_max)%N ->
  is_loop_resume env node = true /\ start_iteration env node = Ret (i + 1)%N
  /\ resume_session env node = current_session_id st.
Proof.
  intros Hc Hi. assert (is_loop_resume env node = true) as Hr.
  { unfold is_loop_resume. by rewrite (paused_matches _ _ _ _ Hc), !bool_decide_true. }
  unfold start_iteration, resume_session. rewrite Hr, (paused_meta _ _ Hc). split; [done|].
  rewrite (context_iteration _ (f64_of_Z (Z.of_N i))), context_session;
    [|done|apply f64_of_N_finite; unfold u32_max in *; lia].
  split; [by apply next_iteration_of|done].
Qed.

(** C15: a paused loop goes on where it stopped.  When the metadata of the run hold the
    context an interactive loop paused it with in iteration [i], the first query of the
    node belongs to iteration [i + 1], within [max_iterations], and resumes the session
    known at the gate unless a fresh context is asked for; no approval node takes the
    gate for its own rejection. *)
Theorem gate_resumes {agent} (registry : Registry agent) node outs provider options
    i gate st (w : world) past pre prompt resume x post :
  paused_with (ne_run env) (loop_gate_ctx node i gate st) -> (0 < i < u32_max)%N ->
  beats (fst (exec w past (execute_loop_node registry env node outs provider options)))
    = pre ++ Query prompt resume x :: post ->
  count_queries pre = 0 ->
  start_iteration env node = Ret (i + 1)%N /\ (i + 1 <= max_iterations (loop_config node))%N
  /\ resume = (if fresh_context (loop_config node) then None else current_session_id st)
  /\ forall id, rejection_reason (ne_run env) id = [].
Proof.
  intros Hc Hi Hbs Hpre. destruct (loop_gate_resumes node i gate st Hc) as (_ & Hstart & Hsession); [lia|].
  apply loop_beats_paced in Hbs as (start & Hs & (Hn & _ & _ & Hr & _)%paced_query).
  rewrite Hstart in Hs. injection Hs as <-. rewrite Hpre, N.add_0_r, Hsession in Hr.
  replace (i + 1 =? 1)%N with false in Hr by (symmetry; apply N.eqb_neq; lia).
  unfold passes_from in Hn. split_and!; [done|lia| |].
  - rewrite Hr, orb_false_r. clear - Hpre. by induction pre as [|[] pre IH]; cbn in *; auto.
  - intros id. unfold rejection_reason. by rewrite (paused_matches _ _ _ _ Hc).
Qed.
End Resume.

(** ** A concrete gate *)

#[local] Existing Instance backtracking_engine.
#[local] Existing Instance ascii_case.

Definition gate_state : LoopState := mk_LoopState (Some (lit "s1")) (lit "On it.") None None None None.
Definition resumed_env : NodeEnv :=
  sample_node_env (lit "hello")
    [(lit "approval",
      ApprovalContext_to_value (loop_gate_ctx (loop_node true) 1 (lit "Go on?") gate_state))].

Abbreviation resumed_loop :=
  (exec loop_world []
     (execute_loop_node (register_bundled (fun id => id) []) resumed_env (loop_node true) ∅
        (lit "claude") None)).

Lemma gate_resumes_witness :
  start_iteration resumed_env (loop_node true) = Ret 2%N /\ Some (lit "s1") = current_session_id gate_state.
Proof.
  assert (paused_with (ne_run resumed_env) (loop_gate_ctx (loop_node true) 1 (lit "Go on?") gate_state))
    as Hc by by_compute.
  assert (beats (fst resumed_loop)
    = [Status (Ok (Some Run_Running))]
      ++ Query (lit "Fix it: ") (Some (lit "s1")) (said_in "s1" "On it.")
      :: [Pause (loop_gate_ctx (loop_node true) 2 (lit "Go on?") gate_state) (Ok tt)]) as Hbs by by_compute.
  destruct (gate_resumes resumed_env (register_bundled (fun id => id) []) (loop_node true) ∅
              (lit "claude") None 1 (lit "Go on?") gate_state loop_world [] _ _ _ _ _
              Hc (conj eq_refl eq_refl) Hbs eq_refl)
    as (Hstart & _ & Hsession & _).
  split; [exact Hstart|exact Hsession].
Defined.
