(* ===== verification/CliStream.v ===== *)
(** * Command-line agents: their output and their errors

    [cli_stream/stream.rs], [cli_stream/stderr.rs] and [cli_stream/retry.rs] of
    [har-provider]: the lines of JSON an agent prints, read from chunks of bytes; the
    lines it writes to its error output; which failures are worth another attempt.

    Chunks of bytes arrive cut anywhere.  The text of a JSON parse error is an argument,
    the class [JsonErrors]. *)

From S2P Require Import Prelude StdModel Float64 Json.

(** ** UTF-8 *)

Abbreviation bytes := (list N).

Definition continuation (b : N) : bool := (128 <=? b)%N && (b <? 192)%N.

(** [str::from_utf8]: overlong forms, surrogates and values past the last character are
    refused. *)
Fixpoint from_utf8 (bs : bytes) : option str :=
  match bs with
  | [] => Some []
  | b :: r =>
      if (b <? 128)%N then s ← from_utf8 r; Some (b :: s)
      else if (b <? 194)%N then None
      else if (b <? 224)%N then
        match r with
        | c :: r' =>
            if continuation c then s ← from_utf8 r'; Some (((b - 192) * 64 + (c - 128))%N :: s) else None
        | _ => None
        end
      else if (b <? 240)%N then
        match r with
        | c :: d :: r' =>
            let x := ((b - 224) * 4096 + (c - 128) * 64 + (d - 128))%N in
            if continuation c && continuation d && (2048 <=? x)%N && ((x <? 55296)%N || (57344 <=? x)%N)
            then s ← from_utf8 r'; Some (x :: s) else None
        | _ => None
        end
      else if (b <? 245)%N then
        match r with
        | c :: d :: e :: r' =>
            let x := ((b - 240) * 262144 + (c - 128) * 4096 + (d - 128) * 64 + (e - 128))%N in
            if continuation c && continuation d && continuation e && (65536 <=? x)%N && (x <? 1114112)%N
            then s ← from_utf8 r'; Some (x :: s) else None
        | _ => None
        end
      else None
  end.

(** [str::as_bytes]. *)
Definition encode_char (c : char) : bytes :=
  if (c <? 128)%N then [c]
  else if (c <? 2048)%N then [192 + c / 64; 128 + c mod 64]%N
  else if (c <? 65536)%N then [224 + c / 4096; 128 + (c / 64) mod 64; 128 + c mod 64]%N
  else [240 + c / 262144; 128 + (c / 4096) mod 64; 128 + (c / 64) mod 64; 128 + c mod 64]%N.
Definition as_bytes (s : str) : bytes := flat_map encode_char s.

(** ** Lines of JSON ([stream.rs]) *)

(** The message of [serde_json::from_str] on a text it refuses, and a [str] as [{:?}]
    prints it. *)
Class JsonErrors : Type := { parse_message : str -> str; str_debug : str -> str }.

Inductive StreamError : Type :=
| Io (e : io.Error)
| ParseError (line_no : N) (line : str).

Definition StreamError_display `{JsonErrors} (e : StreamError) : str :=
  match e with
  | Io e => lit "I/O error reading subprocess stdout: " ++ io.text e
  | ParseError n line =>
      lit "JSON parse error on line " ++ show_N n ++ lit ": " ++ parse_message line ++ [10%N]
      ++ lit "  line: " ++ str_debug line
  end.

Section Ndjson.
Context `{SerdeJson}.

(** A line without its newline, and without a carriage return before it. *)
Definition strip_cr (raw_line : bytes) : bytes :=
  match rev raw_line with 13%N :: r => rev r | _ => raw_line end.

Definition parse_line (line_no : N) (s : str) : result StreamError value :=
  match from_str s with Some v => Ok v | None => Err (ParseError line_no s) end.

(** The complete lines of a buffer, and what is left of it. *)
Definition drain_lines (buf : bytes) : list bytes * bytes :=
  let pieces := split [10%N] buf in (removelast pieces, List.last pieces []).

Definition line_item (line_no : N) (raw_line : bytes) : N * list (result StreamError value) :=
  let line_bytes := strip_cr raw_line in
  if is_empty line_bytes then (line_no, [])
  else
    let line_no := (line_no + 1)%N in
    match from_utf8 line_bytes with
    | Some s => (line_no, [parse_line line_no s])
    | None => (line_no, [])
    end.
Fixpoint line_items (line_no : N) (lines : list bytes) : N * list (result StreamError value) :=
  match lines with
  | [] => (line_no, [])
  | line :: lines =>
      let '(line_no, item) := line_item line_no line in
      let '(line_no, items) := line_items line_no lines in
      (line_no, item ++ items)
  end.

(** What is left when the output ends. *)
Definition last_item (buf : bytes) (line_no : N) : list (result StreamError value) :=
  if is_empty buf then []
  else
    match from_utf8 buf with
    | Some s => let s := trim s in if is_empty s then [] else [parse_line (line_no + 1) s]
    | None => []
    end.

Fixpoint from_byte_stream (buf : bytes) (line_no : N) (byte_stream : list (result io.Error bytes))
  : list (result StreamError value) :=
  match byte_stream with
  | [] => last_item buf line_no
  | Err e :: _ => [Err (Io e)]
  | Ok chunk :: byte_stream =>
      let '(lines, buf) := drain_lines (buf ++ chunk) in
      let '(line_no, items) := line_items line_no lines in
      items ++ from_byte_stream buf line_no byte_stream
  end.
Definition ndjson (byte_stream : list (result io.Error bytes)) : list (result StreamError value) :=
  from_byte_stream [] 0 byte_stream.
End Ndjson.

(** ** Error output ([stderr.rs]) *)

Inductive StderrClass : Type := InfoBanner | StderrErrorLine | StderrInfo.

Section Errors.
Context `{UnicodeCase}.

Definition mentions (ps : list string) (s : str) : bool := existsb (fun p => contains (lit p) s) ps.

Definition classify_stderr_line (line : str) : StderrClass :=
  let lower := to_lowercase line in
  let is_info_message :=
    mentions ["Spawning Claude Code"; "--output-format"; "--permission-mode"]%string line in
  let is_error :=
    mentions ["error"; "fatal"; "failed"; "exception"]%string lower || mentions ["at "; "Error:"]%string line in
  if is_error && negb is_info_message then StderrErrorLine
  else if is_info_message then InfoBanner
  else StderrInfo.

Definition accumulate_stderr_lines (raw_lines : list str) (new_line : str) : list str :=
  let trimmed := trim new_line in
  if is_empty trimmed then raw_lines else raw_lines ++ [trimmed].

(** ** Retries ([retry.rs]) *)

Definition MAX_SUBPROCESS_RETRIES : nat := 3.
Definition RETRY_BASE_DELAY_MS : N := 2000.

Inductive ErrorClass : Type := ClassRateLimit | ClassAuth | ClassCrash | ClassUnknown.
#[export] Instance ErrorClass_eq_dec : EqDecision ErrorClass.
Proof. solve_decision. Defined.
Definition ErrorClass_display (c : ErrorClass) : str :=
  match c with
  | ClassRateLimit => lit "rate_limit"
  | ClassAuth => lit "auth"
  | ClassCrash => lit "crash"
  | ClassUnknown => lit "unknown"
  end.

Definition RATE_LIMIT_PATTERNS : list string :=
  ["rate limit"; "too many requests"; "429"; "overloaded"]%string.
Definition AUTH_PATTERNS : list string :=
  ["credit balance"; "unauthorized"; "authentication"; "invalid token"; "401"; "403"]%string.
Definition SUBPROCESS_CRASH_PATTERNS : list string :=
  ["exited with code"; "killed"; "signal"; "operation aborted"]%string.

Definition classify_subprocess_error (error_message stderr_output : str) : ErrorClass :=
  let combined := to_lowercase (error_message ++ lit " " ++ stderr_output) in
  if mentions RATE_LIMIT_PATTERNS combined then ClassRateLimit
  else if mentions AUTH_PATTERNS combined then ClassAuth
  else if mentions SUBPROCESS_CRASH_PATTERNS combined then ClassCrash
  else ClassUnknown.

Record EnrichedError : Type := mk_EnrichedError {
  ee_message : str; ee_class : ErrorClass; ee_should_retry : bool;
}.

Definition classify_and_enrich_error (error_message : str) (stderr_lines : list str)
    (controller_was_aborted : bool) : EnrichedError :=
  if controller_was_aborted then
    if contains (lit "produced no output within") error_message
    then mk_EnrichedError error_message ClassUnknown false
    else mk_EnrichedError (lit "Query aborted") ClassUnknown false
  else
    let stderr_context := join [10%N] stderr_lines in
    let error_class := classify_subprocess_error error_message stderr_context in
    if bool_decide (error_class = ClassAuth) then
      mk_EnrichedError
        (lit "Claude Code auth error: " ++ error_message
         ++ (if is_empty stderr_context then [] else lit " (" ++ stderr_context ++ lit ")"))
        error_class false
    else
      mk_EnrichedError
        (lit "Claude Code " ++ ErrorClass_display error_class ++ lit ": " ++ error_message
         ++ (if is_empty stderr_context then [] else lit " (stderr: " ++ stderr_context ++ lit ")"))
        error_class
        (bool_decide (error_class = ClassRateLimit) || bool_decide (error_class = ClassCrash)).
End Errors.

(** ** How an output is read *)

Lemma drain_lines_whole (buf : bytes) : 10%N ∉ buf -> drain_lines buf = ([], buf).
Proof. intros Hb. unfold drain_lines. by rewrite split_char_absent. Qed.

Lemma drain_lines_cons (line rest : bytes) :
  10%N ∉ line ->
  drain_lines (line ++ 10%N :: rest) = (line :: fst (drain_lines rest), snd (drain_lines rest)).
Proof.
  intros Hl. unfold drain_lines. rewrite split_app_char, (split_char_absent _ line) by done.
  cbn [app fst snd]. destruct (split [10%N] rest) as [|p ps] eqn:E; [by apply split_not_nil in E|].
  done.
Qed.

(** Reading a buffer in two goes. *)
Lemma drain_lines_app (x y : bytes) :
  drain_lines (x ++ y) =
    (fst (drain_lines x) ++ fst (drain_lines (snd (drain_lines x) ++ y)),
     snd (drain_lines (snd (drain_lines x) ++ y))).
Proof.
  apply (split_ind [10%N]) with (s := x); [done|clear x; intros x E|clear x; intros x a b E IH].
  - rewrite (drain_lines_whole x); [cbn [fst snd app]; by destruct (drain_lines (x ++ y))|].
    intros Hin%list_elem_of_In%contains_char. apply contains_false in E. congruence.
  - apply split_once_char_Some in E as Ha. apply split_once_Some in E as ->.
    rewrite <- !app_assoc. cbn [app]. rewrite !drain_lines_cons by done. rewrite IH. done.
Qed.

Section Reading.
Context `{SerdeJson}.

Lemma line_items_app n a b :
  line_items n (a ++ b) =
    (fst (line_items (fst (line_items n a)) b),
     snd (line_items n a) ++ snd (line_items (fst (line_items n a)) b)).
Proof.
  revert n. induction a as [|l a IH]; intros n; cbn [line_items app fst snd].
  - by destruct (line_items n b).
  - destruct (line_item n l) as [m item]. rewrite IH.
    destruct (line_items m a) as [k items]. cbn [fst snd].
    destruct (line_items k b). cbn [fst snd]. by rewrite app_assoc.
Qed.

Lemma from_byte_stream_join buf n a b rest :
  from_byte_stream buf n (Ok a :: Ok b :: rest) = from_byte_stream buf n (Ok (a ++ b) :: rest).
Proof.
  cbn [from_byte_stream]. rewrite app_assoc, (drain_lines_app (buf ++ a)).
  destruct (drain_lines (buf ++ a)) as [l1 r1]. cbn [fst snd].
  destruct (drain_lines (r1 ++ b)) as [l2 r2]. cbn [fst snd]. rewrite line_items_app.
  destruct (line_items n l1) as [n1 i1]. cbn [fst snd].
  destruct (line_items n1 l2) as [n2 i2]. cbn [fst snd]. by rewrite app_assoc.
Qed.

Lemma ndjson_concat (chunks : list bytes) (stop : list (result io.Error bytes)) :
  ndjson (map Ok chunks ++ stop) = ndjson (Ok (concat chunks) :: stop).
Proof.
  unfold ndjson. induction chunks as [|a chunks IH] using rev_ind.
  - destruct stop as [|[c|e] stop]; [done| |done]. cbn [map app concat].
    by rewrite from_byte_stream_join.
  - clear IH. cut (forall buf n, from_byte_stream buf n (map Ok (chunks ++ [a]) ++ stop)
                     = from_byte_stream buf n (Ok (concat (chunks ++ [a])) :: stop)); [done|].
    induction chunks as [|b chunks IH]; intros buf n.
    + cbn [map app concat]. by rewrite app_nil_r.
    + cbn [map app concat]. destruct (chunks ++ [a]) as [|c cs] eqn:E; [by destruct chunks|].
      rewrite <- from_byte_stream_join. cbn [from_byte_stream].
      destruct (drain_lines (buf ++ b)) as [l r]. destruct (line_items n l) as [m items]. f_equal.
      rewrite IH. cbn [from_byte_stream]. done.
Qed.

(** What is read from an agent's output does not depend on how its bytes are cut into
    chunks: characters and lines that a cut splits are put together again. *)
Theorem ndjson_chunks_irrelevant (chunks chunks' : list bytes) (stop : list (result io.Error bytes)) :
  concat chunks = concat chunks' ->
  ndjson (map Ok chunks ++ stop) = ndjson (map Ok chunks' ++ stop).
Proof. intros E. by rewrite !ndjson_concat, E. Qed.
End Reading.

(** ** Values come through *)

Lemma div_mod_64 (c : N) : (c = 64 * (c / 64) + c mod 64 /\ c mod 64 < 64)%N.
Proof. split; [by apply N.div_mod'|by apply N.mod_lt]. Qed.
Lemma div_4096 (c : N) : (c / 4096 = c / 64 / 64)%N.
Proof. by rewrite N.Div0.div_div. Qed.
Lemma div_262144 (c : N) : (c / 262144 = c / 64 / 64 / 64)%N.
Proof. by rewrite !N.Div0.div_div. Qed.

(** The test of a conditional, by arithmetic. *)
Ltac decide_tests :=
  repeat match goal with
  | |- context [N.ltb ?a ?b] =>
      first [ rewrite (proj2 (N.ltb_lt a b)) by lia | rewrite (proj2 (N.ltb_ge a b)) by lia ]
  | |- context [N.leb ?a ?b] =>
      first [ rewrite (proj2 (N.leb_le a b)) by lia | rewrite (proj2 (N.leb_gt a b)) by lia ]
  end; cbn [andb orb].

Lemma from_utf8_char (c : char) (r : bytes) :
  scalar c -> from_utf8 (encode_char c ++ r) = (s ← from_utf8 r; Some (c :: s)).
Proof.
  intros Hc. unfold scalar in Hc. unfold encode_char. rewrite ?div_262144, ?div_4096.
  pose proof (div_mod_64 c) as [E0 L0]. pose proof (div_mod_64 (c / 64)) as [E1 L1].
  pose proof (div_mod_64 (c / 64 / 64)) as [E2 L2].
  generalize dependent (c / 64 / 64 / 64)%N. intros q3.
  generalize dependent (c / 64 / 64 mod 64)%N. intros r2.
  generalize dependent (c / 64 / 64)%N. intros q2.
  generalize dependent (c / 64 mod 64)%N. intros r1.
  generalize dependent (c / 64)%N. intros q1. generalize dependent (c mod 64)%N. intros r0. intros.
  destruct (N.ltb_spec c 128); [cbn [app from_utf8]; by decide_tests|].
  destruct (N.ltb_spec c 2048).
  { cbn [app from_utf8]. unfold continuation. decide_tests.
    replace ((192 + q1 - 192) * 64 + (128 + r0 - 128))%N with c by lia. done. }
  destruct (N.ltb_spec c 65536).
  { cbn [app from_utf8]. unfold continuation. cbv zeta.
    replace ((224 + q2 - 224) * 4096 + (128 + r1 - 128) * 64 + (128 + r0 - 128))%N with c by lia.
    decide_tests. destruct Hc; decide_tests; [done|]. by destruct (c <? 55296)%N. }
  cbn [app from_utf8]. unfold continuation. cbv zeta.
  replace ((240 + q3 - 240) * 262144 + (128 + r2 - 128) * 4096 + (128 + r1 - 128) * 64
           + (128 + r0 - 128))%N with c by lia.
  by decide_tests.
Qed.

Lemma from_utf8_as_bytes (s : str) : Forall scalar s -> from_utf8 (as_bytes s) = Some s.
Proof.
  induction 1 as [|c s Hc Hs IH]; [done|]. unfold as_bytes in *. cbn [flat_map].
  by rewrite from_utf8_char, IH.
Qed.

(** A byte of an encoded character is the character itself, or no ASCII. *)
Lemma encode_char_bytes (c b : N) : b ∈ encode_char c -> b = c \/ (128 <= b)%N.
Proof.
  unfold encode_char. destruct (c <? 128)%N; [|destruct (c <? 2048)%N; [|destruct (c <? 65536)%N]];
    rewrite !elem_of_cons, elem_of_nil; intros H; repeat destruct H as [->|H]; try done;
    first [by left | right; (etransitivity; [|apply N.le_add_r]); lia].
Qed.
Lemma as_bytes_ascii (s : str) (b : N) : (b < 128)%N -> b ∈ as_bytes s -> b ∈ s.
Proof.
  intros Hb. unfold as_bytes. induction s as [|c s IH]; cbn [flat_map]; [by intros ?%elem_of_nil|].
  rewrite elem_of_app, elem_of_cons. intros [Hin|Hin]; [|right; by apply IH].
  apply encode_char_bytes in Hin as [->|]; [by left|lia].
Qed.

Section Printing.
Context `{SerdeJson}.

(** What [serde_json] documents of the compact form of a value: it is one line without
    control characters, and it is read back. *)
Definition printed_ok (v : value) : Prop :=
  to_string v <> [] /\ Forall (fun c => scalar c /\ (32 <= c)%N) (to_string v)
  /\ from_str (to_string v) = Some v.

Lemma plain_text (s : str) :
  forallb (fun c => (c <? 55296)%N && (32 <=? c)%N) s = true -> Forall (fun c => scalar c /\ (32 <= c)%N) s.
Proof.
  intros Hs. apply Forall_forall. intros c Hc%list_elem_of_In. rewrite forallb_forall in Hs.
  apply Hs, andb_true_iff in Hc as [H1%N.ltb_lt H2%N.leb_le]. split; [by left|done].
Qed.

Definition print_line (v : value) : bytes := as_bytes (to_string v) ++ [10%N].

Lemma strip_cr_absent (l : bytes) : 13%N ∉ l -> strip_cr l = l.
Proof.
  intros Hl. unfold strip_cr. destruct (rev l) as [|b r] eqn:E; [done|].
  destruct (decide (b = 13%N)) as [->|Hb].
  - exfalso. apply Hl. apply list_elem_of_In, in_rev. rewrite E. by left.
  - destruct b as [|p]; [done|]. do 4 (destruct p as [p|p|]; try done).
Qed.

Lemma printed_line_item n v :
  printed_ok v -> line_item n (as_bytes (to_string v)) = ((n + 1)%N, [Ok v]).
Proof.
  intros (Hne & Hc & Hr). assert (Hl : 13%N ∉ as_bytes (to_string v)).
  { intros Hin%as_bytes_ascii; [|lia]. rewrite Forall_forall in Hc. apply Hc in Hin. lia. }
  unfold line_item. rewrite strip_cr_absent by done.
  rewrite from_utf8_as_bytes by (eapply Forall_impl; [exact Hc|by intros ? []]).
  unfold parse_line. rewrite Hr. destruct (is_empty (as_bytes _)) eqn:E; [|done].
  exfalso. apply is_empty_spec in E. destruct (to_string v) as [|c s] eqn:Es; [done|].
  unfold as_bytes in E. cbn [flat_map] in E. apply app_eq_nil in E as [E _].
  unfold encode_char in E. repeat case_match; done.
Qed.

Lemma drain_printed (vs : list value) :
  Forall printed_ok vs ->
  drain_lines (flat_map print_line vs) = (map (fun v => as_bytes (to_string v)) vs, []).
Proof.
  induction 1 as [|v vs (_ & Hc & _) Hvs IH]; [done|]. unfold print_line in *. cbn [flat_map map].
  rewrite <- app_assoc. cbn [app]. rewrite drain_lines_cons, IH; [done|].
  intros Hin%as_bytes_ascii; [|lia]. rewrite Forall_forall in Hc. apply Hc in Hin. lia.
Qed.

Lemma line_items_printed n (vs : list value) :
  Forall printed_ok vs ->
  snd (line_items n (map (fun v => as_bytes (to_string v)) vs)) = map Ok vs.
Proof.
  intros H0. revert n. induction H0 as [|v vs Hv Hvs IH]; intros n; [done|]. cbn [map line_items].
  rewrite printed_line_item by done. specialize (IH (n + 1)%N).
  destruct (line_items (n + 1) _) as [k items]. cbn [snd] in *. by rewrite IH.
Qed.

Lemma ndjson_round_trip_lemma (vs : list value) (chunks : list bytes) :
  Forall printed_ok vs -> concat chunks = flat_map print_line vs -> ndjson (map Ok chunks) = map Ok vs.
Proof.
  intros Hvs E. pose proof (ndjson_concat chunks []) as Hc. rewrite app_nil_r in Hc. rewrite Hc, E.
  unfold ndjson. cbn [from_byte_stream app]. rewrite drain_printed by done.
  pose proof (line_items_printed 0 vs Hvs) as Hi. destruct (line_items 0 _) as [n items].
  cbn [snd] in Hi. subst items. cbn [last_item is_empty]. by rewrite app_nil_r.
Qed.

(** An agent that prints JSON values one to a line is read back exactly: the values,
    in order, without an error, however its output is cut into chunks. *)
Theorem ndjson_round_trip (vs : list value) (chunks : list bytes) :
  Forall printed_ok vs -> concat chunks = flat_map print_line vs -> ndjson (map Ok chunks) = map Ok vs.
Proof. apply ndjson_round_trip_lemma. Qed.
End Printing.

Definition sample_docs : SerdeJson := table_json [(lit "null", Null); (lit "true", Bool true); (lit "é", String (lit "é"))].

(** A character is cut in two. *)
Lemma ndjson_round_trip_witness :
  @ndjson sample_docs [Ok [110; 117; 108]; Ok [108; 10; 195]; Ok [169; 10; 116; 114; 117; 101; 10]]%N
    = map Ok [Null; String (lit "é"); Bool true].
Proof.
  apply (@ndjson_round_trip sample_docs [Null; String (lit "é"); Bool true]
           [[110; 117; 108]; [108; 10; 195]; [169; 10; 116; 114; 117; 101; 10]]%N); [|by_compute].
  repeat apply Forall_cons_2; [..|apply Forall_nil_2]; (split; [discriminate|split; [|by_compute]]);
    apply plain_text; by_compute.
Defined.

(** A carriage return before a newline, an empty line, and bytes that are no UTF-8 are
    passed over; a last line needs no newline; a line that is no JSON is reported with its
    number, which counts the lines that are not empty. *)
Example ndjson_borders :
  @ndjson sample_docs [Ok [110; 117; 108; 108; 13; 10; 10; 255; 10; 120; 10; 116; 114; 117; 101]]%N
    = [Ok Null; Err (ParseError 3 (lit "x")); Ok (Bool true)].
Proof. by_compute. Qed.
