(* ===== verification/AgentProc.v ===== *)
(** * What an agent provider calls

    The calls of the providers of [har-provider] that drive a command line: the
    environment, files, one subprocess at a time, the token that cancels the query, and
    the messages they yield.  A provider is a process over them; the messages of a query
    are the [Yield] calls of its trace.

    The providers of the command lines of Claude and of Codex share their loop of attempts,
    and what is shown of it.

    The output of a subprocess is given as its chunks of bytes up to the end or to an
    error: it is finite.  [Stdout] is awaited for a first item when a time is given, and
    answered [None] when there was none within it; without a time there is always an
    answer, and [None] counts as an empty output.  Only the spawner of production is
    modelled, not the scripted one of the tests; log entries are left out. *)

From S2P Require Import Prelude StdModel Float64 Json Provider CliStream.
From S2P Require Export Process.

(** What [fs::metadata] finds. *)
Inductive PathStat : Type := StatFile | StatDirectory | StatOther.

Inductive agent_call : Type :=
| EnvVars
| StatPath (path : str)
| ReadText (path : str)
| WriteTempFile (content : str)
| StartLoopback
| IsCancelled
| Yield (chunk : MessageChunk)
| SpawnAgent (program : str) (argv : list str) (env : gmap str str) (cwd : str)
| WriteStdin (text : str)
| Stdout (first_within_ms : option N)
| StderrLines
| ExitCode
| SleepMs (ms : N).

(** [EnvVars] is [None] when a variable is not Unicode, which [std::env::vars] panics at;
    [WriteTempFile] answers with the path of the file; [StartLoopback] with its port. *)
Definition agent_ret (c : agent_call) : Type :=
  match c with
  | EnvVars => option (gmap str str)
  | StatPath _ => result io.Error PathStat
  | ReadText _ => result io.Error str
  | WriteTempFile _ => result str str
  | StartLoopback => result str N
  | IsCancelled => bool
  | Yield _ => unit
  | SpawnAgent _ _ _ _ => result io.Error unit
  | WriteStdin _ => result io.Error unit
  | Stdout _ => option (list (result io.Error bytes))
  | StderrLines => list str
  | ExitCode => Z
  | SleepMs _ => unit
  end.
#[export] Instance agent_calls : Calls agent_call := agent_ret.

Abbreviation agent := (@Process.proc agent_call agent_calls).
Definition call (c : agent_call) : agent (agent_ret c) := ask c.

Fixpoint yield_all (chunks : list MessageChunk) : agent unit :=
  match chunks with
  | [] => Done tt
  | c :: chunks => _ ← call (Yield c); yield_all chunks
  end.

(** [std::env::vars()] collected. *)
Definition env_vars : agent (gmap str str) :=
  vars ← call EnvVars; match vars with Some m => Done m | None => Halt end.

(** The environment of the subprocess: that of the process under that of the request. *)
Definition build_subprocess_env (request_env : option (gmap str str)) : agent (gmap str str) :=
  vars ← env_vars; Done (default ∅ request_env ∪ vars).

(** Answers of surroundings in which little happens, for the samples. *)
Definition plain_answer (c : agent_call) : agent_ret c :=
  match c with
  | EnvVars => Some ∅
  | StatPath _ => Ok StatFile
  | ReadText _ => Err (io.mk_Error io.NotFound [])
  | WriteTempFile _ => Err (lit "no space")
  | StartLoopback => Err (lit "no port")
  | IsCancelled => false
  | Yield _ => tt
  | SpawnAgent _ _ _ _ | WriteStdin _ => Ok tt
  | Stdout _ => None
  | StderrLines => []
  | ExitCode => 0%Z
  | SleepMs _ => tt
  end.

(** ** The messages of a query *)

Abbreviation agent_trace := (Process.trace agent_call).

Definition yielded (tr : agent_trace) : list MessageChunk :=
  omap (fun e => match ev_call e with Yield c => Some c | _ => None end) tr.
(** What was started: program, arguments, environment, directory. *)
Definition spawned (tr : agent_trace) : list (str * list str * gmap str str * str) :=
  omap (fun e => match ev_call e with SpawnAgent p a v d => Some (p, a, v, d) | _ => None end) tr.
Definition slept (tr : agent_trace) : list N :=
  omap (fun e => match ev_call e with SleepMs n => Some n | _ => None end) tr.

Lemma yielded_app a b : yielded (a ++ b) = yielded a ++ yielded b.
Proof. apply omap_app. Qed.
Lemma spawned_app a b : spawned (a ++ b) = spawned a ++ spawned b.
Proof. apply omap_app. Qed.
Lemma slept_app a b : slept (a ++ b) = slept a ++ slept b.
Proof. apply omap_app. Qed.

(** ** What a query does *)

(** What the agents printed, how they ended, and whether the query was found cancelled. *)
Definition output_of (e : event agent_call) : option (list (result io.Error bytes)) :=
  match e with
  | mk_event c r =>
      match c return response c -> option (list (result io.Error bytes)) with
      | Stdout _ => fun r => r
      | _ => fun _ => None
      end r
  end.
Definition exit_of (e : event agent_call) : option Z :=
  match e with
  | mk_event c r =>
      match c return response c -> option Z with ExitCode => fun r => Some r | _ => fun _ => None end r
  end.
Definition cancelled_at (e : event agent_call) : option bool :=
  match e with
  | mk_event c r =>
      match c return response c -> option bool with IsCancelled => fun r => Some r | _ => fun _ => None end r
  end.
Definition starts (c : agent_call) : bool :=
  match c with SpawnAgent _ _ _ _ | SleepMs _ => true | _ => false end.
Definition handed (c : agent_call) : option str := match c with WriteStdin t => Some t | _ => None end.

Definition outputs (tr : agent_trace) : list (list (result io.Error bytes)) := omap output_of tr.
Definition exits (tr : agent_trace) : list Z := omap exit_of tr.
Definition written (tr : agent_trace) : list str := omap (fun e => handed (ev_call e)) tr.
Definition seen_cancelled (tr : agent_trace) : bool :=
  existsb (fun e => bool_decide (cancelled_at e = Some true)) tr.

(** Nothing is started, and nothing waited for, once the query was found cancelled; a
    cancelled query stays so. *)
Fixpoint calm (seen : bool) (tr : agent_trace) : Prop :=
  match tr with
  | [] => True
  | e :: tr =>
      match cancelled_at e with
      | Some c => (seen = true -> c = true) -> calm c tr
      | None => (starts (ev_call e) = true -> seen = false) /\ calm seen tr
      end
  end.

(** Calls that neither look at the token nor start or yield anything. *)
Definition quiet (c : agent_call) : Prop :=
  match c with
  | EnvVars | StatPath _ | ReadText _ | WriteTempFile _ | StartLoopback | StderrLines => True
  | _ => False
  end.
(** The calls of an attempt after its start. *)
Definition reading (c : agent_call) : Prop :=
  match c with IsCancelled | StderrLines | ExitCode => True | _ => False end.

Lemma omap_none {A B} (f : A -> option B) (P : A -> Prop) (l : list A) :
  (forall a, P a -> f a = None) -> Forall P l -> omap f l = [].
Proof. intros Hf. induction 1 as [|a l Ha Hl IH]; [done|]. cbn. by rewrite Hf, IH. Qed.

Lemma calm_app s a b : calm s a -> calm (s || seen_cancelled a) b -> calm s (a ++ b).
Proof.
  revert s. induction a as [|e a IH]; intros s Ha Hb; cbn [app calm seen_cancelled existsb] in *.
  - by rewrite orb_false_r in Hb.
  - destruct (cancelled_at e) as [c|] eqn:E.
    + intros Hc. apply IH; [by apply Ha|]. destruct c; [by destruct s|].
      destruct s; [by discriminate Hc|exact Hb].
    + destruct Ha as [Hs Ha]. split; [done|]. apply IH; [done|].
      rewrite bool_decide_false in Hb by done. exact Hb.
Qed.

(** A trace without starts. *)
Lemma calm_idle s tr : Forall (fun e => starts (ev_call e) = false) tr -> calm s tr.
Proof.
  revert s. induction tr as [|e tr IH]; intros s H; cbn [calm]; [done|].
  inversion_clear H as [|? ? H1 H2]. destruct (cancelled_at e); [intros _; by apply IH|].
  split; [by rewrite H1|by apply IH].
Qed.

(** *** The calls of each part *)

Lemma only_yield_all chunks : only_calls (fun c => exists m, c = Yield m) (yield_all chunks).
Proof.
  induction chunks as [|m chunks IH]; [apply only_done|]. apply only_bind; [by apply (only_ask _ (Yield m)); exists m|done].
Qed.
Lemma yield_all_yielded chunks : always (yield_all chunks) (fun tr o => yielded tr = chunks /\ o = Ret tt).
Proof.
  induction chunks as [|m chunks IH]; [done|]. intros r. eapply always_mono, IH.
  intros tr o [E ->]. split; [|done]. unfold yielded in *. cbn. by rewrite E.
Qed.

Lemma messages_calls tr : Forall (fun e => exists m, ev_call e = Yield m) tr ->
  spawned tr = [] /\ slept tr = [] /\ written tr = [] /\ outputs tr = [] /\ exits tr = []
  /\ seen_cancelled tr = false /\ (forall s, calm s tr).
Proof.
  intros Htr. split_and!; [refine (omap_none _ _ _ _ Htr); intros [c r] [m E]; cbn in E; by subst c..| |].
  - apply not_true_is_false. intros (e & He & Hc)%existsb_exists. apply bool_decide_eq_true in Hc.
    rewrite Forall_forall in Htr. apply list_elem_of_In, Htr in He as [m E].
    destruct e as [c r]. cbn in E. by subst c.
  - intros s. apply calm_idle. eapply Forall_impl; [exact Htr|]. intros [c r] [m E]. cbn in E. by subst c.
Qed.

Lemma seen_cancelled_app a b : seen_cancelled (a ++ b) = seen_cancelled a || seen_cancelled b.
Proof. apply existsb_app. Qed.

(** The calls of a quiet part, and of reading, are not observed. *)
Lemma idle_trace (P : agent_call -> Prop) (tr : agent_trace) :
  (forall c, P c -> quiet c \/ reading c) -> Forall (fun e => P (ev_call e)) tr ->
  spawned tr = [] /\ slept tr = [] /\ yielded tr = [] /\ written tr = [] /\ (forall s, calm s tr).
Proof.
  intros HP Htr. assert (Hi : Forall (fun e => quiet (ev_call e) \/ reading (ev_call e)) tr).
  { eapply Forall_impl; [exact Htr|]. intros e. apply HP. }
  split_and!; [refine (omap_none _ _ _ _ Hi); by intros [[] r] [[]|[]]..|].
  intros s. apply calm_idle. eapply Forall_impl; [exact Hi|]. by intros [[] r] [[]|[]].
Qed.

Lemma quiet_calls tr : Forall (fun e => quiet (ev_call e)) tr ->
  (spawned tr = [] /\ slept tr = [] /\ written tr = [] /\ outputs tr = [] /\ exits tr = []
   /\ seen_cancelled tr = false /\ (forall s, calm s tr)) /\ yielded tr = [].
Proof.
  intros Htr. pose proof (idle_trace quiet tr) as (Q1 & Q2 & Q3 & Q4 & Q5); [by left|done|].
  split_and!; try done; [refine (omap_none _ _ _ _ Htr); by intros [[] r]..|].
  apply not_true_is_false. intros (e & He & Hc)%existsb_exists. apply bool_decide_eq_true in Hc.
  rewrite Forall_forall in Htr. apply list_elem_of_In, Htr in He. by destruct e as [[] r].
Qed.

(** *** Attempts *)

(** What is started in an attempt, and what it is handed. *)
Definition one_start (what : str * list str * gmap str str * str) (prompt : str) (tr : agent_trace) : Prop :=
  spawned tr = [what] /\ slept tr = [] /\ yielded tr = [] /\ Forall (eq prompt) (written tr) /\ calm false tr.

Definition delay (base : N) (attempt : nat) : N := (base * 2 ^ N.of_nat attempt)%N.

(** The pauses double, and an attempt is between any two. *)
Definition paced (base : N) (first : nat) (tr : agent_trace) : Prop :=
  slept tr = map (delay base) (seq first (length (slept tr)))
  /\ length (slept tr) <= length (spawned tr) <= S (length (slept tr)).


(** *** Common parts *)

Lemma gives_if_ask (W : event agent_call -> Prop) c : gives_if W (ask c) (fun r => W (mk_event c r)).
Proof. intros r Hw. exists r. split; [done|]. by inversion_clear Hw. Qed.
Lemma gives_if_call (W : event agent_call -> Prop) c : gives_if W (call c) (fun _ => True).
Proof. intros r _. by exists r. Qed.

Lemma only_env_vars : only_calls quiet env_vars.
Proof. apply only_bind; [by apply (only_ask _ EnvVars)|]. intros [m|]; [apply only_done|constructor]. Qed.
Lemma only_build_env env : only_calls quiet (build_subprocess_env env).
Proof. apply only_bind; [apply only_env_vars|]. intros vars. apply only_done. Qed.

(** A process that succeeds. *)
Definition is_ok {E A} (r : result E A) : Prop := exists a, r = Ok a.
