(* ===== verification/AgentRetry.v ===== *)
(** * The attempts of a query

    The loop of [claude/provider.rs] and [codex/provider.rs] of [har-provider]: a query is
    tried again after some failures, after a pause that doubles each time.  What an attempt
    does and which failures are worth another one are the provider's; what the loop
    promises is shown once, for both. *)

From S2P Require Import Prelude StdModel Float64 Json Provider CliStream AgentProc.

(** ** The loop *)

Section Loop.
(** An attempt by its number; after a failure, whether there is another one, and what is
    yielded when there is none: by its message, and whether the query was cancelled. *)
Context (attempt : nat -> agent (result str (list MessageChunk)))
  (on_error : str -> bool -> bool * list MessageChunk) (retry_base_delay_ms : N).

Fixpoint attempts (retries : nat) : agent unit :=
  let n := (MAX_SUBPROCESS_RETRIES - retries)%nat in
  aborted ← call IsCancelled;
  if aborted : bool then Done tt
  else
    attempt_result ← attempt n;
    match attempt_result with
    | Ok chunks => yield_all chunks
    | Err err_msg =>
        controller_was_aborted ← call IsCancelled;
        let '(should_retry, last_words) := on_error err_msg controller_was_aborted in
        match should_retry, retries with
        | true, S retries =>
            _ ← call (SleepMs (delay retry_base_delay_ms n));
            attempts retries
        | _, _ => yield_all last_words
        end
    end.
End Loop.

(** ** What it promises *)

Abbreviation start := (str * list str * gmap str str * str)%type.

Section Promises.
Context (attempt : nat -> agent (result str (list MessageChunk)))
  (on_error : str -> bool -> bool * list MessageChunk) (base : N) (prompt : str).
(** What an attempt starts, and what its calls say of its result. *)
Context (starts_as : nat -> start -> Prop) (Ends : agent_trace -> result str (list MessageChunk) -> Prop).

Definition attempt_post (n : nat) (tr : agent_trace) (o : outcome (result str (list MessageChunk))) : Prop :=
  exists what, starts_as n what /\ one_start what prompt tr
    /\ match o with Ret r => Ends tr r | Panic => True end.

Hypothesis attempt_ok : forall n, always (attempt n) (attempt_post n).
Hypothesis cancelled_final : forall msg, fst (on_error msg true) = false.

(** The last attempt of [tr] is [seg]. *)
Definition last_attempt (tr seg : agent_trace) : Prop :=
  exists a b, tr = a ++ seg ++ b /\ spawned b = [] /\ slept b = [].

(** How the messages come about: there are none when the query was found cancelled before
    an attempt, or panicked; else they are those of the last attempt, or the last words
    on its failure. *)
Inductive ending (tr : agent_trace) (o : outcome unit) : list MessageChunk -> Prop :=
| end_cancelled : seen_cancelled tr = true -> o = Ret tt -> ending tr o []
| end_panic : o = Panic -> ending tr o []
| end_ok seg chunks : last_attempt tr seg -> Ends seg (Ok chunks) -> o = Ret tt -> ending tr o chunks
| end_failed seg msg cancelled :
    last_attempt tr seg -> Ends seg (Err msg) -> o = Ret tt ->
    (cancelled = true -> seen_cancelled tr = true) -> ending tr o (snd (on_error msg cancelled)).

(** The attempts from the [k]-th on. *)
Definition loop_spec (k retries : nat) (tr : agent_trace) (o : outcome unit) : Prop :=
  paced base k tr /\ length (slept tr) <= retries
  /\ (forall i what, spawned tr !! i = Some what -> starts_as (k + i) what)
  /\ Forall (eq prompt) (written tr) /\ calm false tr /\ ending tr o (yielded tr).

Lemma ending_prefix a b o cs : ending b o cs -> ending (a ++ b) o cs.
Proof.
  assert (Hl : forall seg, last_attempt b seg -> last_attempt (a ++ b) seg).
  { intros seg (x & y & -> & Hy). exists (a ++ x), y. by rewrite <- app_assoc. }
  destruct 1 as [Hc Ho|Ho|seg cs Hs He Ho|seg msg c Hs He Ho Hc]; [|by apply end_panic|eapply end_ok; eauto|].
  - apply end_cancelled; [|done]. by rewrite seen_cancelled_app, Hc, orb_true_r.
  - eapply end_failed; eauto. intros E. by rewrite seen_cancelled_app, (Hc E), orb_true_r.
Qed.

(** One attempt, and what comes after it without another. *)
Lemma one_attempt_spec k n what tr more o :
  starts_as k what -> one_start what prompt tr ->
  spawned more = [] -> slept more = [] -> written more = [] -> calm (seen_cancelled tr) more ->
  ending (tr ++ more) o (yielded more) -> loop_spec k n (tr ++ more) o.
Proof.
  intros Hw (E1 & E2 & E3 & E4 & E5) M1 M2 M3 M4 He.
  assert (Hs : slept (tr ++ more) = []) by (by rewrite slept_app, E2, M2).
  assert (Ht : spawned (tr ++ more) = [what]) by (by rewrite spawned_app, E1, M1).
  unfold loop_spec, paced. rewrite Hs, Ht. split_and!; cbn [length seq map]; [done|lia|lia|lia| | | |].
  - intros [|i] w Hi; [injection Hi as <-; by rewrite Nat.add_0_r|done].
  - unfold written in *. by rewrite omap_app, M3, app_nil_r.
  - by apply calm_app.
  - by rewrite yielded_app, E3.
Qed.

(** A failed attempt, and the next ones. *)
Lemma next_attempt_spec k n what tr r more o :
  starts_as k what -> one_start what prompt tr -> loop_spec (S k) n more o ->
  loop_spec k (S n) (tr ++ mk_event IsCancelled false :: mk_event (SleepMs (delay base k)) r :: more) o.
Proof.
  intros Hw (E1 & E2 & E3 & E4 & E5) ((Hd & Hl1 & Hl2) & Hr & Hst & Hp & Hc & Hy).
  set (mid := mk_event IsCancelled false :: mk_event (SleepMs (delay base k)) r :: more).
  assert (Hsl : slept (tr ++ mid) = delay base k :: slept more) by (by rewrite slept_app, E2).
  assert (Hsp : spawned (tr ++ mid) = what :: spawned more) by (by rewrite spawned_app, E1).
  unfold loop_spec, paced. rewrite Hsl, Hsp. cbn [length seq map].
  split_and!; [by f_equal|lia|lia|lia| | | |].
  - intros [|i] w Hi; [injection Hi as <-; by rewrite Nat.add_0_r|].
    replace (k + S i)%nat with (S k + i)%nat by lia. by apply Hst.
  - unfold written in *. by rewrite omap_app, Forall_app.
  - apply calm_app; [done|]. intros _. by split.
  - rewrite yielded_app, E3. cbn [app]. change (yielded mid) with (yielded more).
    by apply ending_prefix, (ending_prefix [_; _]).
Qed.

(** The look at the token before an attempt. *)
Lemma loop_look k n tr o : loop_spec k n tr o -> loop_spec k n (mk_event IsCancelled false :: tr) o.
Proof.
  intros (Hd & Hr & Hst & Hp & Hc & Hy). split_and!; try done; [by intros _|].
  by apply (ending_prefix [_]).
Qed.

Lemma last_attempt_here a b : spawned b = [] -> slept b = [] -> last_attempt (a ++ b) a.
Proof. intros H1 H2. by exists [], b. Qed.

(** The messages of the end are yielded, and nothing else is done. *)
Lemma yield_end k n what tr mid cs :
  starts_as k what -> one_start what prompt tr -> Forall (fun e => ev_call e = IsCancelled) mid ->
  (forall b, spawned b = [] -> slept b = [] -> ending (tr ++ mid ++ b) (Ret tt) cs) ->
  always (yield_all cs) (fun tr' o => loop_spec k n (tr ++ mid ++ tr') o).
Proof.
  intros Hw H1 Hmid He.
  assert (Hm : spawned mid = [] /\ slept mid = [] /\ written mid = [] /\ yielded mid = []
               /\ Forall (fun e => starts (ev_call e) = false) mid).
  { split_and!; [refine (omap_none _ _ _ _ Hmid); intros [c r] E; cbn in E; by subst c..|].
    eapply Forall_impl; [exact Hmid|]. by intros e ->. }
  destruct Hm as (M1 & M2 & M3 & M4 & M5).
  eapply always_mono, (always_and _ _ _ (only_yield_all cs) (yield_all_yielded cs)).
  intros tr' o [Hy%messages_calls [Ey ->]]. destruct Hy as (Q1 & Q2 & Q3 & Q4 & Q5 & Q6 & Q7).
  eapply one_attempt_spec; try done.
  - by rewrite spawned_app, M1, Q1.
  - by rewrite slept_app, M2, Q2.
  - unfold written in *. by rewrite omap_app, M3, Q3.
  - apply calm_app; [by apply calm_idle|apply Q7].
  - rewrite yielded_app, M4, Ey. by apply He.
Qed.

Lemma loop_stop k n : loop_spec k n [mk_event IsCancelled true] (Ret tt).
Proof.
  unfold loop_spec, paced. cbn. split_and!; [done|lia|lia|lia|done|constructor|done|].
  by apply end_cancelled.
Qed.

(** A failure that is final. *)
Lemma final_failure k n what tr msg c :
  starts_as k what -> one_start what prompt tr -> Ends tr (Err msg) ->
  always (yield_all (snd (on_error msg c)))
    (fun tr' o => loop_spec k n (tr ++ mk_event IsCancelled c :: tr') o).
Proof.
  intros Hw H1 He. apply (yield_end _ _ what _ [mk_event IsCancelled c]); [done|done|by constructor|].
  intros b Hb1 Hb2. eapply end_failed; [|exact He|done|].
  - exists [], (mk_event IsCancelled c :: b). by split_and!.
  - intros ->. rewrite seen_cancelled_app. cbn. by rewrite orb_true_r.
Qed.

Lemma attempts_spec n : n <= MAX_SUBPROCESS_RETRIES ->
  always (attempts attempt on_error base n) (loop_spec (MAX_SUBPROCESS_RETRIES - n) n).
Proof.
  induction n as [|n IH]; intros Hn.
  all: match goal with |- always (attempts _ _ _ ?n) _ => set (k := (MAX_SUBPROCESS_RETRIES - n)%nat) end.
  all: cbn [attempts]; intros [|]; [apply loop_stop|].
  1: apply (always_mono _ (loop_spec k 0)); [intros tr o; apply loop_look|].
  2: apply (always_mono _ (loop_spec k (S n))); [intros tr o; apply loop_look|].
  all: apply always_bind; eapply always_mono, attempt_ok; fold k.
  all: intros tr o (what & Hw & H1 & Ho).
  all: destruct o as [[cs|msg]|];
    [by apply (yield_end _ _ what _ []); [..|intros b Hb1 Hb2; eapply end_ok; [by apply last_attempt_here|exact Ho|done]]| |].
  all: try (rewrite <- (app_nil_r tr); eapply one_attempt_spec; try done; by apply end_panic).
  all: intros c; cbn beta iota delta [mbind proc_bind call ask].
  - destruct (on_error msg c) as [retry last] eqn:E. replace last with (snd (on_error msg c)) by (by rewrite E).
    destruct retry; by eapply final_failure.
  - destruct (on_error msg c) as [retry last] eqn:E.
    destruct retry; [|replace last with (snd (on_error msg c)) by (by rewrite E); by eapply final_failure].
    assert (c = false) as ->.
    { destruct c; [|done]. pose proof (cancelled_final msg) as Hc. by rewrite E in Hc. }
    intros r. eapply always_mono; [|apply IH; lia]. intros more o Hmore.
    eapply next_attempt_spec; [done|done|].
    replace (S k) with (MAX_SUBPROCESS_RETRIES - n)%nat by (unfold k, MAX_SUBPROCESS_RETRIES in *; lia). done.
Qed.

(** ** A whole query *)

(** What is yielded when the query cannot be tried at all. *)
Context (Refused : list MessageChunk -> Prop).

(** The messages [ws] first, and then the attempts; or a refusal. *)
Definition query_spec (ws : list MessageChunk) (tr : agent_trace) (o : outcome unit) : Prop :=
  paced base 0 tr /\ length (slept tr) <= MAX_SUBPROCESS_RETRIES
  /\ (forall i what, spawned tr !! i = Some what -> starts_as i what)
  /\ Forall (eq prompt) (written tr) /\ calm false tr
  /\ exists chunks, yielded tr = ws ++ chunks
       /\ (ending tr o chunks \/ spawned tr = [] /\ o = Ret tt /\ Refused chunks).

Lemma query_attempts_spec :
  always (attempts attempt on_error base MAX_SUBPROCESS_RETRIES) (query_spec []).
Proof.
  eapply always_mono, attempts_spec; [|done]. intros tr o (Hp & Hl & Hs & Hw & Hc & Hy).
  rewrite Nat.sub_diag in *. split_and!; try done. exists (yielded tr). split; [done|by left].
Qed.

(** A query that yields [cs] and is over. *)
Lemma query_refused_spec cs : Refused cs -> always (yield_all cs) (query_spec []).
Proof.
  intros Hr. eapply always_mono, (always_and _ _ _ (only_yield_all cs) (yield_all_yielded cs)).
  intros tr o [(Q1 & Q2 & Q3 & Q4 & Q5 & Q6 & Q7)%messages_calls [Hy ->]].
  unfold query_spec, paced. rewrite Q1, Q2, Q3. cbn [length seq map].
  split_and!; [done|lia|lia|lia|done|constructor|done|]. exists cs. split; [done|by right].
Qed.

Lemma query_spec_prefix ws ws' a b o :
  spawned a = [] /\ slept a = [] /\ written a = [] /\ outputs a = [] /\ exits a = []
    /\ seen_cancelled a = false /\ (forall s, calm s a) ->
  yielded a = ws' -> query_spec ws b o -> query_spec (ws' ++ ws) (a ++ b) o.
Proof.
  intros (Q1 & Q2 & Q3 & Q4 & Q5 & Q6 & Q7) Hws ((Hp1 & Hp2) & Hl & Hs & Hw & Hc & cs & Hy & Ho).
  unfold query_spec, paced. rewrite spawned_app, slept_app, yielded_app, Q1, Q2, Hws.
  unfold written in *. rewrite omap_app, Q3.
  split_and!; [done|apply Hp2|apply Hp2|done|done|done|apply calm_app; [done|by rewrite Q6]|].
  exists cs. rewrite Hy, <- app_assoc. split; [done|].
  destruct Ho as [Ho|Ho]; [left; by apply ending_prefix|by right].
Qed.

Lemma query_spec_panic tr : spawned tr = [] -> slept tr = [] -> written tr = [] -> calm false tr ->
  yielded tr = [] -> query_spec [] tr Panic.
Proof.
  intros E1 E2 E3 E4 E5. unfold query_spec, paced. rewrite E1, E2, E3, E5. cbn [length seq map].
  split_and!; [done|lia|lia|lia|done|constructor|done|]. exists []. split; [done|left]. by apply end_panic.
Qed.

(** A look at the token: the query stops there, or goes on. *)
Lemma query_spec_cancelled : query_spec [] [mk_event IsCancelled true] (Ret tt).
Proof.
  unfold query_spec, paced. cbn. split_and!; [done|lia|lia|lia|done|constructor|done|].
  exists []. split; [done|left]. by apply end_cancelled.
Qed.
Lemma query_spec_look ws tr o : query_spec ws tr o -> query_spec ws (mk_event IsCancelled false :: tr) o.
Proof.
  intros (Hp & Hl & Hs & Hw & Hc & cs & Hy & Ho). split_and!; try done; [by intros _|].
  exists cs. split; [done|]. destruct Ho as [Ho|Ho]; [left; by apply (ending_prefix [_])|by right].
Qed.

(** ** A query that goes well *)

(** One start, no pause, and the messages [cs] after [ws]. *)
Definition read_back (ws cs : list MessageChunk) (tr : agent_trace) : Prop :=
  length (spawned tr) = 1 /\ slept tr = [] /\ yielded tr = ws ++ cs.

Lemma attempts_well (W : event agent_call -> Prop) cs n :
  (forall k, gives_if W (attempt k) (fun r => r = Ok cs)) ->
  (forall c, W (mk_event IsCancelled c) -> c = false) ->
  always (attempts attempt on_error base n) (fun tr o => Forall W tr -> o = Ret tt /\ read_back [] cs tr).
Proof.
  intros Hg HW. destruct n as [|n].
  all: cbn [attempts]; intros [|];
    [intros Hw; inversion_clear Hw as [|? ? Hf _]; apply HW in Hf; discriminate Hf|].
  all: apply always_bind; eapply always_mono, (always_and _ _ _ (Hg _) (attempt_ok _)).
  all: intros tr [[cs'|e]|] [Hr (what & _ & (E1 & E2 & E3 & _) & _)].
  all: try (apply always_any; intros tr' o' Hw; inversion_clear Hw as [|? ? _ Hw'];
            apply Forall_app in Hw' as [Hw' _]; by destruct (Hr Hw') as (r & [= <-] & [=])).
  all: try (intros Hw; inversion_clear Hw as [|? ? _ Hw']; by destruct (Hr Hw') as (r & [=] & _)).
  all: eapply always_mono, (always_and _ _ _ (only_yield_all cs') (yield_all_yielded cs')).
  all: intros tr' o' [Hm'%messages_calls [Hy ->]] Hw; inversion_clear Hw as [|? ? _ Hw'].
  all: apply Forall_app in Hw' as [Hw' _]; destruct (Hr Hw') as (r & [= <-] & [= ->]).
  all: destruct Hm' as (M1 & M2 & _); split; [done|].
  all: change (read_back [] cs (tr ++ tr')); unfold read_back.
  all: by rewrite spawned_app, slept_app, yielded_app, E1, E2, E3, M1, M2, Hy.
Qed.

(** A quiet part first. *)
Lemma well_bind {A} W (P : agent_trace -> Prop) (p : agent A) (f : A -> agent unit) :
  only_calls quiet p -> gives_if W p (fun _ => True) ->
  (forall a b, spawned a = [] -> slept a = [] -> yielded a = [] -> P b -> P (a ++ b)) ->
  (forall a, always (f a) (fun tr o => Forall W tr -> o = Ret tt /\ P tr)) ->
  always (p ≫= f) (fun tr o => Forall W tr -> o = Ret tt /\ P tr).
Proof.
  intros Hp Hg HP Hf. apply always_bind. eapply always_mono, (always_and _ _ _ Hp Hg).
  intros tr [a|] [[(Q1 & Q2 & _) Q3]%quiet_calls Hr].
  - eapply always_mono, Hf. intros tr' o Ho [Hw1 Hw2]%Forall_app. destruct (Ho Hw2) as [-> Hb].
    split; [done|]. by apply HP.
  - intros Hw. by destruct (Hr Hw) as (a & [=] & _).
Qed.
Lemma read_back_app ws cs a b :
  spawned a = [] -> slept a = [] -> yielded a = [] -> read_back ws cs b -> read_back ws cs (a ++ b).
Proof. unfold read_back. intros Q1 Q2 Q3. by rewrite spawned_app, slept_app, yielded_app, Q1, Q2, Q3. Qed.
End Promises.

(** ** A query of which the program is not known beforehand *)

Section Some.
Context (on_error : str -> bool -> bool * list MessageChunk) (base : N) (prompt : str)
  (Refused : list MessageChunk -> Prop).
(** What is known before the attempts: what they start, and how they end. *)
Context {T : Type} (ok : T -> Prop) (starts_as : T -> nat -> start -> Prop)
  (Ends : T -> agent_trace -> result str (list MessageChunk) -> Prop).

Definition query_some (ws : list MessageChunk) (tr : agent_trace) (o : outcome unit) : Prop :=
  exists t, ok t /\ query_spec on_error base prompt (starts_as t) (Ends t) Refused ws tr o.

(** Some messages in [P] come first. *)
Definition query_some_in (P : list MessageChunk -> Prop) (tr : agent_trace) (o : outcome unit) : Prop :=
  exists ws, P ws /\ query_some ws tr o.

Context (t0 : T) (t0_ok : ok t0).

Lemma query_some_attempts t attempt :
  ok t -> (forall n, always (attempt n) (attempt_post prompt (starts_as t) (Ends t) n)) ->
  (forall msg, fst (on_error msg true) = false) ->
  always (attempts attempt on_error base MAX_SUBPROCESS_RETRIES) (query_some []).
Proof.
  intros Ht Ha Hc. eapply always_mono, (query_attempts_spec _ on_error base _ _ (Ends t) Ha Hc Refused).
  intros tr o Hq. by exists t.
Qed.
Lemma query_some_refused cs : Refused cs -> always (yield_all cs) (query_some []).
Proof.
  intros Hr. eapply always_mono, (query_refused_spec on_error base prompt (starts_as t0) (Ends t0) Refused cs Hr).
  intros tr o Hq. by exists t0.
Qed.
Lemma query_some_yield ws (q : agent unit) :
  always q (query_some []) -> always (_ ← yield_all ws; q) (query_some ws).
Proof.
  intros Hq. apply always_bind. eapply always_mono, (always_and _ _ _ (only_yield_all ws) (yield_all_yielded ws)).
  intros tr o [Hm%messages_calls [Hy ->]]. eapply always_mono, Hq. intros tr' o' (t & Ht & Hq').
  exists t. split; [done|]. rewrite <- (app_nil_r ws). by eapply query_spec_prefix.
Qed.
Lemma query_some_look (q : agent unit) :
  always q (query_some []) ->
  always (aborted ← call IsCancelled; if aborted : bool then Done tt else q) (query_some []).
Proof.
  intros Hq [|]; [exists t0; split; [done|apply query_spec_cancelled]|].
  eapply always_mono, Hq. intros tr o (t & Ht & Hq'). exists t. split; [done|]. by apply query_spec_look.
Qed.
Lemma query_some_bind {A} P (p : agent A) (f : A -> agent unit) :
  only_calls quiet p -> P [] -> (forall a, always (f a) (query_some_in P)) -> always (p ≫= f) (query_some_in P).
Proof.
  intros Hp HP Hf. apply always_bind. eapply always_mono, Hp. intros tr [a|] [Htr Hy]%quiet_calls.
  - eapply always_mono, Hf. intros tr' o (ws & Hws & t & Ht & Hq). exists ws. split; [done|].
    exists t. split; [done|]. by eapply (query_spec_prefix _ _ _ _ _ _ _ []).
  - exists []. split; [done|]. exists t0. split; [done|].
    destruct Htr as (Q1 & Q2 & Q3 & _ & _ & _ & Q7). by apply query_spec_panic.
Qed.
(** A query without messages first. *)
Lemma query_some_in_nil (P : list MessageChunk -> Prop) (q : agent unit) :
  P [] -> always q (query_some []) -> always q (query_some_in P).
Proof. intros HP. apply always_mono. intros tr o Hq. by exists []. Qed.
Lemma query_some_quiet {A} (p : agent A) (f : A -> agent unit) :
  only_calls quiet p -> (forall a, always (f a) (query_some [])) -> always (p ≫= f) (query_some []).
Proof.
  intros Hp Hf. apply (always_mono _ (query_some_in (eq []))); [by intros tr o (ws & <- & Hq)|].
  apply query_some_bind; [done|done|]. intros a. by apply query_some_in_nil.
Qed.
End Some.
