(* ===== verification/McpConfig.v ===== *)
(** * MCP configurations

    [mcp/config.rs] of [har-provider]: the servers of a configuration file, with the
    variables of the environment expanded in their [env] and [headers]. *)

From S2P Require Import Prelude StdModel Float64 Json Regex Paths Provider CliStream AgentProc.

Record LoadedMcpConfig : Type := mk_LoadedMcpConfig {
  servers : object; server_names : list str; missing_vars : list str;
}.

Definition describe_json_type (v : value) : str :=
  match v with
  | Null => lit "null"
  | Array _ => lit "array"
  | Object _ => lit "object"
  | String _ => lit "string"
  | Number _ => lit "number"
  | Bool _ => lit "boolean"
  end.

(** A dollar before a name in upper case, in braces (group 1) or bare (group 2). *)
Definition is_ascii_uppercase (c : char) : bool := (65 <=? c)%N && (c <=? 90)%N.
Definition var_start (c : char) : bool := is_ascii_uppercase c || (c =? 95)%N.
Definition var_char (c : char) : bool := var_start c || is_ascii_digit c.
Definition var_name_re : regex := RSeq (RClass var_start) (RStar true (RClass var_char)).
Definition env_var_regex : regex :=
  RSeq (RChar 36)
    (RAlt (RSeq (RChar 123) (RSeq (RGroup 1 var_name_re) (RChar 125))) (RGroup 2 var_name_re)).

Section Load.
Context `{RegexEngine} `{SerdeJson} `{JsonErrors}.

(** [${NAME}], or [$NAME]. *)
Definition var_name (m : re_match) : str :=
  match group 1 m with Some n => n | None => default [] (group 2 m) end.
Definition is_missing (env_source : gmap str str) (name : str) : bool :=
  match env_source !! name with Some _ => false | None => true end.

(** A text with its variables replaced, and those that are not defined. *)
Definition expand_text (env_source : gmap str str) (s : str) : str * list str :=
  (replace_all env_var_regex (fun m => default [] (env_source !! var_name m)) s,
   List.filter (is_missing env_source) (map var_name (fst (captures_iter env_var_regex s)))).

Fixpoint expand_env_vars_in_record (env_source : gmap str str) (field_path : str) (record : object)
  : result str (object * list str) :=
  match record with
  | [] => Ok ([], [])
  | (key, String s) :: record =>
      let '(expanded, missing) := expand_text env_source s in
      rest ← expand_env_vars_in_record env_source field_path record;
      Ok ((key, String expanded) :: fst rest, missing ++ snd rest)
  | (key, other) :: _ =>
      Err (lit "MCP config " ++ field_path ++ lit "." ++ key ++ lit " must be a string (got "
           ++ describe_json_type other ++ lit ")")
  end.

(** One field of a server, [env] or [headers], when it is there. *)
Definition expand_field (env_source : gmap str str) (server_name : str) (field : str) (server : object)
  : result str (object * list str) :=
  match assoc_get field server with
  | None => Ok (server, [])
  | Some (Object o) =>
      r ← expand_env_vars_in_record env_source (server_name ++ lit "." ++ field) o;
      Ok (index_insert field (Object (fst r)) server, snd r)
  | Some other =>
      Err (lit "MCP config " ++ server_name ++ lit "." ++ field
           ++ lit " must be a JSON object of string values (got " ++ describe_json_type other ++ lit ")")
  end.

Definition expand_server (env_source : gmap str str) (server_name : str) (server_config : value)
  : result str (object * list str) :=
  match server_config with
  | Object server =>
      e ← expand_field env_source server_name (lit "env") server;
      h ← expand_field env_source server_name (lit "headers") (fst e);
      Ok (fst h, snd e ++ snd h)
  | other =>
      Err (lit "MCP server " ++ [dquote] ++ server_name ++ [dquote] ++ lit " must be a JSON object (got "
           ++ describe_json_type other ++ lit ")")
  end.

Fixpoint expand_env_vars (env_source : gmap str str) (config : object) : result str (object * list str) :=
  match config with
  | [] => Ok ([], [])
  | (server_name, server_config) :: config =>
      s ← expand_server env_source server_name server_config;
      rest ← expand_env_vars env_source config;
      Ok ((server_name, Object (fst s)) :: fst rest, snd s ++ snd rest)
  end.

Definition normalize_mcp_config (parsed : object) (mcp_path : str) : result str object :=
  match assoc_get (lit "mcpServers") parsed with
  | None => Ok parsed
  | Some inner =>
      if Nat.ltb 1 (length parsed) then
        Err (lit "MCP config cannot mix top-level " ++ [dquote] ++ lit "mcpServers" ++ [dquote]
             ++ lit " with other keys: " ++ mcp_path ++ lit ". Use either a direct server map or { "
             ++ [dquote] ++ lit "mcpServers" ++ [dquote] ++ lit ": { ... } }.")
      else
        match inner with
        | Object o => Ok o
        | _ => Err (lit "MCP config field " ++ [dquote] ++ lit "mcpServers" ++ [dquote]
                    ++ lit " must be a JSON object: " ++ mcp_path)
        end
  end.

Definition full_path (mcp_path cwd : str) : str :=
  if is_absolute mcp_path then mcp_path else path_join cwd mcp_path.

(** What the text of a configuration file amounts to. *)
Definition parse_mcp_config (env_source : gmap str str) (mcp_path raw : str) : result str LoadedMcpConfig :=
  match from_str raw with
  | None => Err (lit "MCP config file is not valid JSON: " ++ mcp_path ++ lit " - " ++ parse_message raw)
  | Some (Object parsed) =>
      normalized ← normalize_mcp_config parsed mcp_path;
      expanded ← expand_env_vars env_source normalized;
      Ok (mk_LoadedMcpConfig (fst expanded) (map fst (fst expanded)) (snd expanded))
  | Some _ =>
      Err (lit "MCP config must be a JSON object (Record<string, ServerConfig>): " ++ mcp_path)
  end.

Definition load_mcp_config (mcp_path cwd : str) (env_source : gmap str str)
  : agent (result str LoadedMcpConfig) :=
  let path := full_path mcp_path cwd in
  raw ← call (ReadText path);
  match raw with
  | Ok raw => Done (parse_mcp_config env_source mcp_path raw)
  | Err e =>
      Done (Err (if io.is_not_found e
                 then lit "MCP config file not found: " ++ mcp_path ++ lit " (resolved to " ++ path ++ lit ")"
                 else lit "Failed to read MCP config file: " ++ mcp_path ++ lit " - " ++ io.text e))
  end.

(** ** What loading keeps *)

(** A field that is expanded: the same keys, with texts; a text without a variable is
    itself. *)
Definition expanded_field (env_source : gmap str str) (v v' : value) : Prop :=
  exists o o', v = Object o /\ v' = Object o'
    /\ Forall2 (fun e e' => fst e = fst e'
                  /\ exists s, snd e = String s /\ snd e' = String (fst (expand_text env_source s))) o o'.

(** A server after loading: the same keys in the same order; only [env] and [headers]
    may differ, by their variables. *)
Definition expanded_server (env_source : gmap str str) (server server' : object) : Prop :=
  map fst server' = map fst server
  /\ forall k, match assoc_get k server, assoc_get k server' with
               | Some v, Some v' =>
                   if bool_decide (k = lit "env" \/ k = lit "headers")
                   then expanded_field env_source v v' else v' = v
               | None, None => True
               | _, _ => False
               end.

Lemma expand_record_spec env_source path o r :
  expand_env_vars_in_record env_source path o = Ok r ->
  Forall2 (fun e e' => fst e = fst e'
             /\ exists s, snd e = String s /\ snd e' = String (fst (expand_text env_source s))) o (fst r).
Proof.
  revert r. induction o as [|[k v] o IH]; intros r; cbn [expand_env_vars_in_record].
  - intros [= <-]. constructor.
  - destruct v as [| | |s| |]; try done. destruct (expand_text env_source s) as [x m] eqn:E.
    destruct (expand_env_vars_in_record env_source path o) as [rest|e]; [|done].
    intros [= <-]. constructor; [|by apply IH]. split; [done|]. exists s. by rewrite E.
Qed.

Lemma index_insert_present {V} k (v v' : V) m :
  assoc_get k m = Some v' -> map fst (index_insert k v m) = map fst m.
Proof.
  intros Hk. rewrite index_insert_keys, bool_decide_true; [done|].
  apply assoc_get_Some_In, (in_map fst) in Hk. by apply list_elem_of_In.
Qed.

Lemma expand_field_spec env_source name field server r :
  expand_field env_source name field server = Ok r ->
  map fst (fst r) = map fst server
  /\ forall k, match assoc_get k server, assoc_get k (fst r) with
               | Some v, Some v' => if bool_decide (k = field) then expanded_field env_source v v' else v' = v
               | None, None => True
               | _, _ => False
               end.
Proof.
  unfold expand_field. destruct (assoc_get field server) as [v|] eqn:Ef.
  - destruct v as [| | | | |o]; try done.
    destruct (expand_env_vars_in_record env_source _ o) as [x|e] eqn:Ex; [|done]. intros [= <-].
    cbn [fst]. split; [by eapply index_insert_present|]. intros k. rewrite index_insert_get.
    case_bool_decide as Hk; [subst; rewrite Ef; by exists o, (fst x); split_and!; [..|by eapply expand_record_spec]|].
    by destruct (assoc_get k server).
  - intros [= <-]. split; [done|]. intros k. cbn [fst]. destruct (assoc_get k server) eqn:E; [|done].
    case_bool_decide; [congruence|done].
Qed.

Lemma expand_server_spec env_source name v r :
  expand_server env_source name v = Ok r ->
  exists server, v = Object server /\ expanded_server env_source server (fst r).
Proof.
  unfold expand_server. destruct v as [| | | | |server]; try done.
  destruct (expand_field env_source name (lit "env") server) as [e|?] eqn:Ee; [|done].
  cbn [mbind result_bind].
  destruct (expand_field env_source name (lit "headers") (fst e)) as [h|?] eqn:Eh; [|done].
  intros [= <-]. exists server. split; [done|]. cbn [fst].
  apply expand_field_spec in Ee as [Ke He], Eh as [Kh Hh]. split; [congruence|]. intros k.
  specialize (He k). specialize (Hh k).
  destruct (assoc_get k server) as [v|], (assoc_get k (fst e)) as [v1|], (assoc_get k (fst h)) as [v2|]; try done.
  destruct (decide (k = lit "env")) as [->|Henv].
  - rewrite bool_decide_true in He by done. rewrite bool_decide_true by (by left).
    rewrite bool_decide_false in Hh by (by intros ?%(f_equal length)). by subst.
  - rewrite bool_decide_false in He by done. subst v1.
    destruct (decide (k = lit "headers")) as [->|Hhd].
    + rewrite bool_decide_true in Hh by done. by rewrite bool_decide_true by (by right).
    + rewrite bool_decide_false in Hh by done. by rewrite bool_decide_false by tauto.
Qed.

(** A configuration that loads keeps its servers: their names in order, their keys
    and values, except that the variables in the texts of [env] and [headers] are
    replaced; whatever is no text there, or no object, is an error instead. *)
Theorem load_keeps_servers (env_source : gmap str str) (mcp_path raw : str) (loaded : LoadedMcpConfig) :
  parse_mcp_config env_source mcp_path raw = Ok loaded ->
  exists parsed config,
    from_str raw = Some (Object parsed)
    /\ (config = parsed /\ assoc_get (lit "mcpServers") parsed = None
        \/ parsed = [(lit "mcpServers", Object config)])
    /\ server_names loaded = map fst config
    /\ Forall2 (fun e e' => fst e = fst e' /\ exists s s', snd e = Object s /\ snd e' = Object s'
                  /\ expanded_server env_source s s') config (servers loaded).
Proof.
  unfold parse_mcp_config. destruct (from_str raw) as [v|]; [|done]. destruct v as [| | | | |parsed]; try done.
  destruct (normalize_mcp_config parsed mcp_path) as [config|?] eqn:En; [|done].
  cbn [mbind result_bind]. destruct (expand_env_vars env_source config) as [x|?] eqn:Ex; [|done].
  intros [= <-]. exists parsed, config. cbn [server_names servers].
  assert (Hs : Forall2 (fun e e' => fst e = fst e' /\ exists s s', snd e = Object s /\ snd e' = Object s'
                 /\ expanded_server env_source s s') config (fst x)).
  { clear En. revert x Ex. induction config as [|[n c] config IH]; intros x; cbn [expand_env_vars].
    - intros [= <-]. constructor.
    - destruct (expand_server env_source n c) as [s|?] eqn:Es; [|done]. cbn [mbind result_bind].
      destruct (expand_env_vars env_source config) as [rest|?]; [|done]. intros [= <-].
      apply expand_server_spec in Es as (o & -> & Ho). constructor; [|by apply IH].
      split; [done|]. by exists o, (fst s). }
  split_and!; [done| | |done].
  - unfold normalize_mcp_config in En. destruct (assoc_get (lit "mcpServers") parsed) as [inner|] eqn:Ei.
    + right. destruct (Nat.ltb_spec 1 (length parsed)) as [|Hl]; [done|].
      destruct inner as [| | | | |o]; try done. injection En as ->.
      destruct parsed as [|[k v] [|? ?]]; [done| |cbn in Hl; lia]. cbn [assoc_get] in Ei.
      case_bool_decide as Ek; [|done]. injection Ei as Ev. rewrite Ev, Ek. reflexivity.
    + left. by injection En as ->.
  - revert Hs. clear. generalize (fst x). intros l Hs.
    induction Hs as [|e e' l l' [He _] _ IH]; [done|]. cbn [map]. by rewrite He, IH.
Qed.
End Load.

(** ** A sample *)

#[local] Existing Instance backtracking_engine.

Definition sample_config : object :=
  [(lit "db", Object [(lit "command", String (lit "$HOME/db")); (lit "env", Object [(lit "K", String (lit "a-${TOKEN}-$NONE"))])])].
Definition sample_mcp_json : SerdeJson := table_json [(lit "{..}", Object [(lit "mcpServers", Object sample_config)])].
Definition sample_errors : JsonErrors := {| parse_message := fun _ => lit "bad"; str_debug := fun s => s |}.
Definition sample_vars : gmap str str := {[ lit "TOKEN" := lit "t"; lit "HOME" := lit "/h" ]}.

Definition sample_loaded : LoadedMcpConfig :=
  mk_LoadedMcpConfig
    [(lit "db", Object [(lit "command", String (lit "$HOME/db")); (lit "env", Object [(lit "K", String (lit "a-t-"))])])]
    [lit "db"] [lit "NONE"].

Lemma load_keeps_servers_witness :
  @parse_mcp_config _ sample_mcp_json sample_errors sample_vars (lit "m.json") (lit "{..}") = Ok sample_loaded
  /\ exists parsed config, @from_str sample_mcp_json (lit "{..}") = Some (Object parsed)
       /\ parsed = [(lit "mcpServers", Object config)] /\ map fst config = [lit "db"].
Proof.
  assert (E : @parse_mcp_config _ sample_mcp_json sample_errors sample_vars (lit "m.json") (lit "{..}")
              = Ok sample_loaded) by by_compute.
  split; [exact E|].
  destruct (@load_keeps_servers _ sample_mcp_json sample_errors sample_vars (lit "m.json") (lit "{..}")
              sample_loaded E) as (p & c & Hp & Hc & Hn & _).
  exists p, c. split_and!; [exact Hp| |symmetry; exact Hn].
  destruct Hc as [[_ Hno]|Hc]; [|exact Hc]. exfalso.
  change (@from_str sample_mcp_json (lit "{..}")) with (Some (Object [(lit "mcpServers", Object sample_config)])) in Hp.
  injection Hp as <-. discriminate Hno.
Defined.
