(* ===== verification/NativeTools.v ===== *)
(** * Native tools, and the server that offers them to an agent

    [claude/native_tools.rs] of [har-provider]: the input schema of a tool as fields, and
    the fields as the schema an agent is sent; [cli_stream/mcp_sidecar.rs]: the requests
    of the agent, answered by the handlers of the tools, and the configuration file that
    names the server.

    A handler is a call of the process: it answers with its text, or with the message it
    panicked with.  The HTTP server is left out: it hands each body to
    [handle_mcp_request] and returns its answer. *)

From S2P Require Import Prelude StdModel Float64 Json Provider StructuredOutput CliStream.
From S2P Require Export Process.

Definition ARCHON_TOOL_SERVER : str := lit "archon".

(** ** Fields of a tool *)

Inductive ToolFieldKind : Type :=
| FieldString
| FieldStringEnum (values : list str)
| FieldBoolean.

Record ToolField : Type := mk_ToolField {
  field_name : str;
  field_kind : ToolFieldKind;
  field_description : option str;
  field_required : bool;
}.
Record SdkToolDef : Type := mk_SdkToolDef { def_name : str; def_description : str; def_fields : list ToolField }.
Record McpServerDescriptor : Type := mk_McpServerDescriptor {
  descriptor_name : str; descriptor_version : str; always_load : bool; descriptor_tools : list SdkToolDef;
}.

Definition not_an_object_schema : str :=
  lit "native tool inputSchema must be an object schema with `properties`".
Definition unsupported_type (name : str) : str :=
  lit "native tool schema: unsupported type for '" ++ name ++ lit "' (only string / string-enum / boolean)".

Definition convert_kind (name : str) (prop_obj : object) : result str ToolFieldKind :=
  match assoc_get (lit "enum") prop_obj with
  | Some (Array enum_vals) =>
      match omap as_str enum_vals with
      | [] => Err (lit "native tool schema: enum for '" ++ name ++ lit "' must be non-empty strings")
      | values => Ok (FieldStringEnum values)
      end
  | _ =>
      if bool_decide (obj_str "type" prop_obj = Some (lit "string")) then Ok FieldString
      else if bool_decide (obj_str "type" prop_obj = Some (lit "boolean")) then Ok FieldBoolean
      else Err (unsupported_type name)
  end.

Fixpoint convert_props (required : list str) (props : object) : result str (list ToolField) :=
  match props with
  | [] => Ok []
  | (name, Object prop_obj) :: props =>
      kind ← convert_kind name prop_obj;
      fields ← convert_props required props;
      Ok (mk_ToolField name kind (obj_str "description" prop_obj) (bool_decide (name ∈ required)) :: fields)
  | (name, _) :: _ => Err (unsupported_type name)
  end.

Definition validate_and_convert_schema (schema : object) : result str (list ToolField) :=
  if negb (bool_decide (obj_str "type" schema = Some (lit "object"))) then Err not_an_object_schema
  else
    match assoc_get (lit "properties") schema with
    | Some (Object props) =>
        let required := omap as_str (default [] (assoc_get (lit "required") schema ≫= as_array)) in
        convert_props required props
    | _ => Err not_an_object_schema
    end.

(** The result of the first error, or all the results. *)
Fixpoint map_result {A B} (f : A -> result str B) (l : list A) : result str (list B) :=
  match l with
  | [] => Ok []
  | a :: l => b ← f a; bs ← map_result f l; Ok (b :: bs)
  end.

Definition build_archon_mcp_server `{HashMapOrder} (native_tools : list NativeTool)
  : result str McpServerDescriptor :=
  tool_defs ← map_result (fun tool =>
    fields ← validate_and_convert_schema (hm_iter (input_schema tool));
    Ok (mk_SdkToolDef (tool_name_ tool) (tool_description tool) fields)) native_tools;
  Ok (mk_McpServerDescriptor ARCHON_TOOL_SERVER (lit "1.0.0") true tool_defs).

(** ** Fields as an agent is sent them *)

Definition wire_prop (f : ToolField) : object :=
  match field_description f with
  | Some d => if field_required f then [key "description" (String d)] else []
  | None => []
  end
  ++ match field_kind f with
     | FieldStringEnum values =>
         [key "type" (String (lit "string")); key "enum" (Array (map String values))]
     | FieldString => [key "type" (String (lit "string"))]
     | FieldBoolean => [key "type" (String (lit "boolean"))]
     end.

(** The properties, keyed by the names of the fields: of two fields of a name the later
    one stays, in the place of the first. *)
Definition wire_props (fields : list ToolField) : object :=
  fold_left (fun props f => index_insert (field_name f) (Object (wire_prop f)) props) fields [].

Definition wire_input_schema (fields : list ToolField) : object :=
  let required := map (fun f => String (field_name f)) (List.filter field_required fields) in
  [key "$schema" (String (lit "http://json-schema.org/draft-07/schema#"));
   key "type" (String (lit "object"));
   key "properties" (Object (wire_props fields))]
  ++ match required with [] => [] | _ => [key "required" (Array required)] end.

Definition wire_tool_list_item (tool : SdkToolDef) : value :=
  Object
    [key "name" (String (def_name tool));
     key "description" (String (def_description tool));
     key "inputSchema" (Object (wire_input_schema (def_fields tool)));
     key "execution" (Object [key "taskSupport" (String (lit "forbidden"))]);
     key "_meta" (Object [key "anthropic/alwaysLoad" (Bool true)])].

(** ** Arguments of a call *)

Definition type_name_for_field (f : ToolField) : str :=
  match field_kind f with FieldStringEnum _ | FieldString => lit "string" | FieldBoolean => lit "boolean" end.

Definition invalid_type (f : ToolField) (expected message : str) : value :=
  Object [key "expected" (String expected); key "code" (String (lit "invalid_type"));
          key "path" (Array [String (field_name f)]); key "message" (String message)].
Definition expected_of (expected : string) (f : ToolField) : value :=
  invalid_type f (lit expected) (lit "Invalid input: expected " ++ lit expected).

Definition field_issue (args : object) (f : ToolField) : option value :=
  match assoc_get (field_name f) args with
  | None =>
      if field_required f
      then Some (invalid_type f (type_name_for_field f)
                   (lit "Invalid input: expected " ++ type_name_for_field f ++ lit ", received undefined"))
      else None
  | Some v =>
      match field_kind f with
      | FieldStringEnum values =>
          match as_str v with
          | None => Some (expected_of "string" f)
          | Some s =>
              if existsb (str_eqb s) values then None
              else Some (Object
                [key "code" (String (lit "invalid_value")); key "values" (Array (map String values));
                 key "path" (Array [String (field_name f)]);
                 key "message" (String (lit "Invalid option: expected one of "
                   ++ join (lit "|") (map (fun v => [dquote] ++ v ++ [dquote]) values)))])
          end
      | FieldString => match v with String _ => None | _ => Some (expected_of "string" f) end
      | FieldBoolean => match v with Bool _ => None | _ => Some (expected_of "boolean" f) end
      end
  end.

(** ** Requests *)

Record JsonRpcRequest : Type := mk_JsonRpcRequest {
  rq_id : option value; rq_method : str; rq_params : option value;
}.
Record JsonRpcError : Type := mk_JsonRpcError { je_code : Z; je_message : str; je_data : option value }.
Record JsonRpcResponse : Type := mk_JsonRpcResponse {
  rs_id : value; rs_result : option value; rs_error : option JsonRpcError;
}.

(** A handler runs on its own task. *)
Inductive handler_call : Type := CallHandler (tool_name : str) (args : gmap str value).
#[export] Instance handler_calls : Calls handler_call := fun _ => result str str.
Abbreviation handler := (@Process.proc handler_call handler_calls).

Section Sidecar.
Context `{StructuredText} `{HashMapOrder}.

Definition validate_tool_args (fields : list ToolField) (args : object) (tool_name : str) : result str unit :=
  match omap (field_issue args) fields with
  | [] => Ok tt
  | issues =>
      Err (lit "MCP error -32602: Input validation error: Invalid arguments for tool " ++ tool_name
           ++ lit ": " ++ to_string_pretty (Array issues))
  end.

Definition content_of (message : str) : str * value :=
  key "content" (Array [Object [key "type" (String (lit "text")); key "text" (String message)]]).
Definition tools_call_error_result (message : str) : value :=
  Object [content_of message; key "isError" (Bool true)].

(** The tools with whether they have a handler, and what they are offered as. *)
Record McpSidecar : Type := mk_McpSidecar {
  sc_tools : list (NativeTool * bool); sc_descriptor : McpServerDescriptor;
}.
Definition sidecar_new (tools : list (NativeTool * bool)) : result str McpSidecar :=
  descriptor ← build_archon_mcp_server (map fst tools); Ok (mk_McpSidecar tools descriptor).

Definition handle_initialize (params : option value) : value :=
  let protocol_version :=
    default (lit "2024-11-05") (p ← params; v ← value_get (lit "protocolVersion") p; as_str v) in
  Object
    [key "protocolVersion" (String protocol_version);
     key "capabilities" (Object [key "tools" (Object [key "listChanged" (Bool true)])]);
     key "serverInfo" (Object [key "name" (String (lit "archon")); key "version" (String (lit "1.0.0"))])].

Definition handle_tools_list (self : McpSidecar) : value :=
  Object [key "tools" (Array (map wire_tool_list_item (descriptor_tools (sc_descriptor self))))].

Definition call_args (arguments : value) : option object :=
  match arguments with Object m => Some m | Null => Some [] | _ => None end.

Definition handle_tools_call (self : McpSidecar) (params : option value) : handler value :=
  let params := default Null params in
  let tool_name := default [] (v ← value_get (lit "name") params; as_str v) in
  let arguments := default (Object []) (value_get (lit "arguments") params) in
  let tool_def := List.find (fun t => str_eqb (def_name t) tool_name) (descriptor_tools (sc_descriptor self)) in
  let native_tool := List.find (fun t => str_eqb (tool_name_ (fst t)) tool_name) (sc_tools self) in
  match tool_def, native_tool with
  | None, _ | _, None =>
      Done (tools_call_error_result (lit "MCP error -32602: Tool " ++ tool_name ++ lit " not found"))
  | Some def, Some (_, has_handler) =>
      match call_args arguments with
      | None =>
          Done (tools_call_error_result
                  (lit "MCP error -32602: Input validation error: arguments must be an object"))
      | Some args_map =>
          match validate_tool_args (def_fields def) args_map tool_name with
          | Err msg => Done (tools_call_error_result msg)
          | Ok _ =>
              if has_handler : bool then
                r ← ask (CallHandler tool_name (list_to_map args_map));
                Done match r with
                     | Ok text => Object [content_of text]
                     | Err panic_message => tools_call_error_result panic_message
                     end
              else
                Done (tools_call_error_result
                        (lit "MCP error -32602: Tool " ++ tool_name ++ lit " has no handler"))
          end
      end
  end.

Definition handle_method (self : McpSidecar) (method : str) (params : option value)
  : handler (result JsonRpcError value) :=
  if str_eqb method (lit "initialize") then Done (Ok (handle_initialize params))
  else if str_eqb method (lit "tools/list") then Done (Ok (handle_tools_list self))
  else if str_eqb method (lit "tools/call") then v ← handle_tools_call self params; Done (Ok v)
  else if str_eqb method (lit "ping") then Done (Ok (Object []))
  else Done (Err (mk_JsonRpcError (-32601) (lit "Method not found: " ++ method) None)).

Definition handle_mcp_request (self : McpSidecar) (req : JsonRpcRequest) : handler (option JsonRpcResponse) :=
  if str_eqb (rq_method req) (lit "notifications/initialized") then Done None
  else
    match rq_id req with
    | None => Done None
    | Some id =>
        result ← handle_method self (rq_method req) (rq_params req);
        Done (Some match result with
                   | Ok v => mk_JsonRpcResponse id (Some v) None
                   | Err e => mk_JsonRpcResponse id None (Some e)
                   end)
    end.
End Sidecar.
(** ** The configuration file *)

Section Config.
Context `{SerdeJson} `{JsonErrors}.

Definition archon_entry (port : N) : value :=
  Object [key "type" (String (lit "http"));
          key "url" (String (lit "http://127.0.0.1:" ++ show_N port ++ lit "/mcp"))].

(** The servers of the file that is merged in. *)
Definition existing_servers (path : str) (raw : result io.Error str) : result str object :=
  match raw with
  | Err e => Err (lit "failed to read existing MCP config '" ++ path ++ lit "': " ++ io.text e)
  | Ok raw =>
      match from_str raw with
      | None => Err (lit "existing MCP config '" ++ path ++ lit "' is not valid JSON: " ++ parse_message raw)
      | Some (Object parsed_obj) =>
          match assoc_get (lit "mcpServers") parsed_obj with
          | None => Ok parsed_obj
          | Some (Object o) => Ok o
          | Some _ => Err (lit "existing MCP config '" ++ path ++ lit "': 'mcpServers' must be a JSON object")
          end
      | Some _ => Err (lit "existing MCP config '" ++ path ++ lit "' must be a JSON object")
      end
  end.
Definition merged_mcp_config (port : N) (existing : object) : str :=
  to_string (Object [key "mcpServers"
    (Object (index_insert (lit "archon") (archon_entry port) existing))]).
End Config.

(** ** What the server promises *)

(** The argument of a field is of its kind. *)
Definition field_ok (args : object) (f : ToolField) : Prop :=
  match assoc_get (field_name f) args with
  | None => field_required f = false
  | Some v =>
      match field_kind f with
      | FieldStringEnum values => exists s, v = String s /\ s ∈ values
      | FieldString => exists s, v = String s
      | FieldBoolean => exists b, v = Bool b
      end
  end.

Lemma existsb_str_eqb s values : existsb (str_eqb s) values = true <-> s ∈ values.
Proof.
  rewrite existsb_exists. split.
  - intros (x & Hx & ->%str_eqb_spec). by apply list_elem_of_In.
  - intros Hs%list_elem_of_In. exists s. split; [done|apply str_eqb_refl].
Qed.

Lemma field_issue_None args f : field_issue args f = None <-> field_ok args f.
Proof.
  unfold field_issue, field_ok. destruct (assoc_get (field_name f) args) as [v|].
  2:{ by destruct (field_required f). }
  destruct (field_kind f) as [|values|].
  - destruct v; split; try done; try (by intros [? ?]). intros _. by eexists.
  - destruct v as [| | |s| |]; cbn [as_str]; try (split; [done|by intros (? & ? & ?)]).
    destruct (existsb (str_eqb s) values) eqn:E.
    + split; [|done]. intros _. apply existsb_str_eqb in E. by exists s.
    + split; [done|]. intros (x & [= <-] & Hx%existsb_str_eqb). congruence.
  - destruct v; split; try done; try (by intros [? ?]). intros _. by eexists.
Qed.

Lemma omap_nil_Forall {A B} (f : A -> option B) l : omap f l = [] <-> Forall (fun a => f a = None) l.
Proof.
  induction l as [|a l IH]; [done|]. cbn [omap list_omap].
  destruct (f a) as [b|] eqn:E.
  - split; [done|]. intros [H _]%Forall_cons. congruence.
  - split.
    + intros H%IH. by constructor.
    + intros [_ H]%Forall_cons. by apply IH.
Qed.

Lemma map_result_Forall2 {A B} (f : A -> result str B) l r :
  map_result f l = Ok r -> Forall2 (fun a b => f a = Ok b) l r.
Proof.
  revert r. induction l as [|a l IH]; intros r; cbn [map_result]; [intros [= <-]; constructor|].
  destruct (f a) as [b|] eqn:E; [|done]. cbn [mbind result_bind].
  destruct (map_result f l) as [bs|]; [|done]. intros [= <-]. constructor; [done|by apply IH].
Qed.

Section SidecarSpecs.
Context `{StructuredText} `{HashMapOrder}.

Lemma validate_tool_args_spec fields args name :
  match validate_tool_args fields args name with
  | Ok _ => Forall (field_ok args) fields
  | Err _ => ~ Forall (field_ok args) fields
  end.
Proof.
  assert (omap (field_issue args) fields = [] <-> Forall (field_ok args) fields) as Hf.
  { rewrite omap_nil_Forall. apply Forall_iff. intros f. apply field_issue_None. }
  unfold validate_tool_args. destruct (omap (field_issue args) fields); [by apply Hf|].
  by intros ?%Hf.
Qed.

(** The first tool of a name, and what it is offered as. *)
Definition tool_named (name : str) (tools : list (NativeTool * bool)) : option (NativeTool * bool) :=
  List.find (fun t => str_eqb (tool_name_ (fst t)) name) tools.
Lemma sidecar_find tools self name :
  sidecar_new tools = Ok self ->
  sc_tools self = tools /\
  let def := List.find (fun t => str_eqb (def_name t) name) (descriptor_tools (sc_descriptor self)) in
  match tool_named name tools with
  | Some (native, _) => tool_name_ native = name /\ exists def', def = Some def'
      /\ validate_and_convert_schema (hm_iter (input_schema native)) = Ok (def_fields def')
  | None => def = None
  end.
Proof.
  unfold sidecar_new, build_archon_mcp_server, tool_named.
  destruct (map_result _ (map fst tools)) as [defs|] eqn:Ed; [|done]. intros [= <-].
  cbn [sc_descriptor sc_tools descriptor_tools]. split; [done|].
  apply map_result_Forall2 in Ed. revert defs Ed.
  induction tools as [|[t ht] tools IH]; intros defs Ed; inversion Ed as [|? d ? defs' Hd Hds]; subst; [done|].
  cbn [fst] in Hd.
  destruct (validate_and_convert_schema (hm_iter (input_schema t))) as [fields|] eqn:Ef; [|done].
  injection Hd as <-. cbn [List.find def_name fst].
  destruct (str_eqb (tool_name_ t) name) eqn:Et; [|by apply IH].
  apply str_eqb_spec in Et. split; [done|]. by eexists.
Qed.

Ltac lits_differ := let Heq := fresh in intros Heq; vm_compute in Heq; discriminate Heq.

(** The request asks for a call of the tool of this name, with these arguments. *)
Definition asks_for (req : JsonRpcRequest) (name : str) (args : object) : Prop :=
  rq_id req <> None /\ rq_method req = lit "tools/call"
  /\ (let params := default Null (rq_params req) in
      default [] (v ← value_get (lit "name") params; as_str v) = name
      /\ match value_get (lit "arguments") params with
         | Some (Object m) => args = m
         | Some Null | None => args = []
         | Some _ => False
         end).
(** The tool is the one the request asks for, it has a handler, and its schema allows
    the arguments. *)
Definition callable (tools : list (NativeTool * bool)) (req : JsonRpcRequest) (tool : NativeTool)
    (args : object) : Prop :=
  asks_for req (tool_name_ tool) args
  /\ tool_named (tool_name_ tool) tools = Some (tool, true)
  /\ exists fields, validate_and_convert_schema (hm_iter (input_schema tool)) = Ok fields
       /\ Forall (field_ok args) fields.
(** What a request does: one call of the handler it asks for, whose answer is the result,
    and nothing when there is no such handler. *)
Definition guarded (tools : list (NativeTool * bool)) (req : JsonRpcRequest) (tr : trace handler_call)
    (r : option JsonRpcResponse) : Prop :=
  (tr = [] /\ forall tool args, ~ callable tools req tool args) \/
  exists tool args answer id,
    tr = [mk_event (CallHandler (tool_name_ tool) (list_to_map args)) answer]
    /\ callable tools req tool args /\ rq_id req = Some id
    /\ r = Some (mk_JsonRpcResponse id (Some match answer with
                                             | Ok text => Object [content_of text]
                                             | Err message => tools_call_error_result message
                                             end) None).

Lemma handle_tools_call_guarded tools self req id :
  sidecar_new tools = Ok self -> rq_id req = Some id -> rq_method req = lit "tools/call" ->
  always (handle_tools_call self (rq_params req)) (fun tr o => exists v, o = Ret v
    /\ guarded tools req tr (Some (mk_JsonRpcResponse id (Some v) None))).
Proof.
  intros Hs Hid Hm. unfold handle_tools_call.
  set (params := default Null _). set (name := default [] _). set (arguments := default (Object []) _).
  destruct (sidecar_find tools self name Hs) as [-> Hfind]. cbv zeta in Hfind.
  assert (forall args', match value_get (lit "arguments") params with
      | Some (Object m) => args' = m | Some Null | None => args' = [] | Some _ => False end
    <-> call_args arguments = Some args') as Hcall.
  { intros args'. unfold arguments. destruct (value_get (lit "arguments") params) as [[]|]; cbn; split;
      try done; intros; congruence. }
  assert (forall tool args, asks_for req (tool_name_ tool) args ->
    tool_name_ tool = name /\ call_args arguments = Some args) as Hasked.
  { intros tool args (_ & _ & Hname & Hargs). fold params in Hname, Hargs.
    split; [symmetry; exact Hname|by apply Hcall]. }
  assert (Hquiet : (forall tool args, tool_name_ tool = name -> call_args arguments = Some args ->
      tool_named name tools = Some (tool, true) ->
      forall fields, validate_and_convert_schema (hm_iter (input_schema tool)) = Ok fields ->
      ~ Forall (field_ok args) fields) ->
    forall v, always (Done v : handler value) (fun tr o => exists v, o = Ret v
      /\ guarded tools req tr (Some (mk_JsonRpcResponse id (Some v) None)))).
  { intros Hno v. exists v. split; [done|]. left. split; [done|].
    intros tool args (Ha & Ht & fields & Hf & Hok). apply Hasked in Ha as [Hname Hargs].
    rewrite Hname in Ht. by eapply Hno. }
  fold (tool_named name tools). destruct (tool_named name tools) as [[native h]|] eqn:Hnamed.
  2:{ rewrite Hfind. by apply Hquiet. }
  destruct Hfind as (Hname & def & -> & Hf).
  destruct (call_args arguments) as [args|] eqn:Hargs; [|by apply Hquiet].
  pose proof (validate_tool_args_spec (def_fields def) args name) as Hv.
  destruct (validate_tool_args (def_fields def) args name) as [u|msg].
  2:{ apply Hquiet. intros tool args' _ [= <-] [= -> ->] fields Hf'. congruence. }
  destruct h; [|apply Hquiet; congruence]. intros r. eexists. split; [done|]. right.
  exists native, args, r, id. split_and!; [by rewrite Hname| |done|done].
  split_and!; [|by rewrite Hname|by exists (def_fields def)].
  split_and!; [by rewrite Hid|done|]. fold params. rewrite Hname. split; [done|by apply Hcall].
Qed.

Lemma handle_method_guarded tools self req id :
  sidecar_new tools = Ok self -> rq_id req = Some id ->
  always (handle_method self (rq_method req) (rq_params req)) (fun tr o => exists r, o = Ret r
    /\ guarded tools req tr (Some match r with
                                  | Ok v => mk_JsonRpcResponse id (Some v) None
                                  | Err e => mk_JsonRpcResponse id None (Some e)
                                  end)).
Proof.
  intros Hs Hid. unfold handle_method.
  set (answer := fun r : result JsonRpcError value => Some match r with
    | Ok v => mk_JsonRpcResponse id (Some v) None | Err e => mk_JsonRpcResponse id None (Some e) end).
  assert (forall r : result JsonRpcError value, rq_method req <> lit "tools/call" ->
    always (Done r : handler (result JsonRpcError value)) (fun tr o => exists r, o = Ret r
      /\ guarded tools req tr (answer r))) as Hother.
  { intros r Hm. exists r. split; [done|]. left. split; [done|]. by intros tool args ((_ & ? & _) & _). }
  destruct (str_eqb _ (lit "initialize")) eqn:E1; [apply str_eqb_spec in E1; apply Hother; rewrite E1; lits_differ|].
  destruct (str_eqb _ (lit "tools/list")) eqn:E2; [apply str_eqb_spec in E2; apply Hother; rewrite E2; lits_differ|].
  destruct (str_eqb _ (lit "tools/call")) eqn:E3.
  2:{ assert (rq_method req <> lit "tools/call") by (intros E; by rewrite E, str_eqb_refl in E3).
      destruct (str_eqb _ (lit "ping")); by apply Hother. }
  apply str_eqb_spec in E3.
  rewrite always_bind. eapply always_mono, handle_tools_call_guarded; [|done..].
  intros tr o (v & -> & Hv). cbn [always]. exists (Ok v). split; [done|]. by rewrite app_nil_r.
Qed.

(** C30: the server answers every request that has an identifier, and only those, with
    that identifier and either a result or an error.  It runs a handler exactly for a
    request with an identifier to call a tool it offers that has a handler, whose
    arguments the schema of the tool allows: then it runs the handler of that tool, once,
    with the arguments of the request, and the answer is the text the handler returned,
    or the message it panicked with marked as an error. *)
Theorem sidecar_guards_handlers (tools : list (NativeTool * bool)) (self : McpSidecar) (req : JsonRpcRequest) :
  sidecar_new tools = Ok self ->
  always (handle_mcp_request self req) (fun tr o => exists r, o = Ret r
    /\ (r = None <-> rq_method req = lit "notifications/initialized" \/ rq_id req = None)
    /\ (forall resp, r = Some resp -> rq_id req = Some (rs_id resp)
          /\ (rs_error resp = None <-> rs_result resp <> None))
    /\ guarded tools req tr r).
Proof.
  intros Hs. unfold handle_mcp_request.
  destruct (str_eqb _ _) eqn:Em.
  { apply str_eqb_spec in Em. exists None. split_and!; [done|split; [by left|done]|done|]. left.
    split; [done|]. intros tool args ((_ & Hm & _) & _). rewrite Em in Hm. revert Hm. lits_differ. }
  destruct (rq_id req) as [id|] eqn:Eid.
  2:{ exists None. split_and!; [done|split; [by right|done]|done|]. left. split; [done|].
      by intros tool args ((? & _) & _). }
  rewrite always_bind. eapply always_mono, handle_method_guarded; [|done..].
  intros tr o (r & -> & Hr). cbn [always]. rewrite app_nil_r. eexists. split; [done|]. split_and!.
  - split; [done|]. intros [E|E]; [|done]. rewrite E, str_eqb_refl in Em. done.
  - intros resp [= <-]. by destruct r.
  - exact Hr.
Qed.
End SidecarSpecs.

(** ** Schemas come through *)

(** What an agent is told of a field: the description of a field it may leave out is
    not sent. *)
Definition sent (f : ToolField) : ToolField :=
  mk_ToolField (field_name f) (field_kind f) (if field_required f then field_description f else None)
    (field_required f).
Definition field_wf (f : ToolField) : Prop :=
  match field_kind f with FieldStringEnum [] => False | _ => True end.

Lemma wire_props_map fields : NoDup (map field_name fields) ->
  wire_props fields = map (fun f => (field_name f, Object (wire_prop f))) fields.
Proof.
  unfold wire_props. intros Hn. rewrite <- (app_nil_l (map (fun f => (_, _)) fields)).
  assert (Hd : forall f, f ∈ fields -> assoc_get (field_name f) ([] : object) = None) by done.
  revert Hn Hd. generalize ([] : object) as acc.
  induction fields as [|f fields IH]; intros acc Hn Hd; cbn [fold_left map]; [by rewrite app_nil_r|].
  cbn [map] in Hn. apply NoDup_cons in Hn as [Hf Hn].
  rewrite index_insert_new by (apply Hd; by left).
  rewrite (IH (acc ++ [(field_name f, Object (wire_prop f))])), <- app_assoc; [done|done|].
  intros g Hg. rewrite assoc_get_app, Hd by (by right). cbn [assoc_get].
  rewrite bool_decide_false; [done|]. intros E. apply Hf. rewrite <- E.
  apply list_elem_of_fmap. by exists g.
Qed.

Lemma omap_strings l : omap as_str (map String l) = l.
Proof. induction l as [|s l IH]; [done|]. cbn. by rewrite IH. Qed.

Lemma convert_wired f : field_wf f ->
  convert_kind (field_name f) (wire_prop f) = Ok (field_kind f)
  /\ obj_str "description" (wire_prop f) = field_description (sent f).
Proof.
  intros Hf. destruct f as [name kind desc req].
  assert (He : assoc_get (lit "enum") (wire_prop (mk_ToolField name kind desc req))
    = match kind with FieldStringEnum values => Some (Array (map String values)) | _ => None end)
    by (destruct kind, desc, req; reflexivity).
  assert (Ht : obj_str "type" (wire_prop (mk_ToolField name kind desc req))
    = Some match kind with FieldBoolean => lit "boolean" | _ => lit "string" end)
    by (destruct kind, desc, req; reflexivity).
  split; [|by destruct kind, desc, req].
  unfold convert_kind. rewrite He, Ht. unfold field_wf in Hf. cbn [field_kind] in *.
  destruct kind as [|values|]; [done| |done]. rewrite omap_strings. by destruct values.
Qed.

Lemma convert_props_wired required fields :
  Forall field_wf fields ->
  (forall f, f ∈ fields -> (field_name f ∈ required <-> field_required f = true)) ->
  convert_props required (map (fun f => (field_name f, Object (wire_prop f))) fields) = Ok (map sent fields).
Proof.
  induction fields as [|f fields IH]; intros Hw Hr; [done|]. apply Forall_cons in Hw as [Hf Hw].
  cbn [map convert_props]. destruct (convert_wired f Hf) as [-> Hd]. cbn [mbind result_bind].
  rewrite IH by (try done; intros g Hg; apply Hr; by right). cbn [mbind result_bind]. rewrite Hd.
  assert (bool_decide (field_name f ∈ required) = field_required f) as ->.
  { destruct (field_required f) eqn:E; case_bool_decide as H; try done.
    - exfalso. apply H, Hr; [by left|done].
    - apply Hr in H; [congruence|by left]. }
  done.
Qed.

(** The schema an agent is sent describes the fields it was made from: reading it
    gives them back, with their kinds, their order and whether they are required; only
    the description of a field that is not required is lost. *)
Theorem wire_schema_round_trip (fields : list ToolField) :
  NoDup (map field_name fields) -> Forall field_wf fields ->
  validate_and_convert_schema (wire_input_schema fields) = Ok (map sent fields).
Proof.
  intros Hn Hw. unfold validate_and_convert_schema, wire_input_schema.
  set (req := map (fun f => String (field_name f)) (List.filter field_required fields)).
  set (tail := match req with [] => [] | _ => _ end).
  change (obj_str "type" _) with (Some (lit "object")). rewrite bool_decide_true by done. cbn [negb].
  change (assoc_get (lit "properties") _) with (Some (Object (wire_props fields))).
  assert (Hr : omap as_str (default [] (assoc_get (lit "required")
      ([key "$schema" (String (lit "http://json-schema.org/draft-07/schema#")); key "type" (String (lit "object"));
        key "properties" (Object (wire_props fields))] ++ tail) ≫= as_array))
    = map field_name (List.filter field_required fields)).
  { change (assoc_get (lit "required") (_ ++ tail)) with (assoc_get (lit "required") tail).
    subst tail. unfold req. destruct (List.filter field_required fields) as [|f l]; [done|].
    change (assoc_get (lit "required") [key "required" (Array ?x)]) with (Some (Array x)).
    cbn [map default from_option mbind option_bind as_array id].
    rewrite <- (map_map field_name String), <- (omap_strings (map field_name (f :: l))) at 1. done. }
  rewrite Hr, wire_props_map by done. apply convert_props_wired; [done|].
  intros f Hf. split.
  - intros (g & Eg & Hg)%list_elem_of_fmap. apply list_elem_of_In, filter_In in Hg as [Hg Hq].
    assert (f = g) as ->; [|done].
    apply list_elem_of_In in Hg. apply list_elem_of_lookup in Hf as [i Hi], Hg as [j Hj].
    assert (i = j) as ->; [|congruence].
    eapply (NoDup_lookup (map field_name fields)); [exact Hn| |];
      rewrite list_lookup_fmap; [by rewrite Hi|by rewrite Hj, Eg].
  - intros Hq. apply list_elem_of_fmap. exists f. split; [done|]. apply list_elem_of_In, filter_In.
    split; [by apply list_elem_of_In|done].
Qed.

(** ** A sample *)

Definition sample_text : StructuredText := {|
  to_string_pretty := fun _ => lit "[..]"; jsonrepair := fun _ => None; draft7_new := fun _ => Err [];
|}.
Definition sample_fields : list ToolField :=
  [mk_ToolField (lit "name") FieldString (Some (lit "whom")) true;
   mk_ToolField (lit "mood") (FieldStringEnum [lit "kind"; lit "curt"]) None false].
Definition greet : NativeTool := mk_NativeTool (lit "greet") (lit "Greets") (list_to_map (wire_input_schema sample_fields)).
Definition sample_sidecar : McpSidecar :=
  mk_McpSidecar [(greet, true)]
    (mk_McpServerDescriptor ARCHON_TOOL_SERVER (lit "1.0.0") true
       [mk_SdkToolDef (lit "greet") (lit "Greets") (map sent sample_fields)]).
Definition call_greet (args : object) : JsonRpcRequest :=
  mk_JsonRpcRequest (Some (Number (PosInt 7))) (lit "tools/call")
    (Some (Object [key "name" (String (lit "greet")); key "arguments" (Object args)])).
Definition ada : object := [key "name" (String (lit "Ada")); key "mood" (String (lit "kind"))].
Definition greeting : Process.world handler_call := fun _ _ => Ok (lit "Hello Ada").

(** The call runs the handler; one with another mood does not. *)
Lemma sidecar_guards_handlers_witness :
  sidecar_new [(greet, true)] = Ok sample_sidecar
  /\ exec greeting [] (@handle_mcp_request sample_text sample_sidecar (call_greet ada))
     = ([@mk_event _ handler_calls (CallHandler (lit "greet") (list_to_map ada)) (Ok (lit "Hello Ada"))],
        Ret (Some (mk_JsonRpcResponse (Number (PosInt 7)) (Some (Object [content_of (lit "Hello Ada")])) None)))
  /\ fst (exec greeting [] (@handle_mcp_request sample_text sample_sidecar
            (call_greet [key "name" (String (lit "Ada")); key "mood" (String (lit "wild"))]))) = []
  /\ exists r, snd (exec greeting [] (@handle_mcp_request sample_text sample_sidecar (call_greet ada))) = Ret r
       /\ guarded [(greet, true)] (call_greet ada)
            (fst (exec greeting [] (@handle_mcp_request sample_text sample_sidecar (call_greet ada)))) r.
Proof.
  assert (E : sidecar_new [(greet, true)] = Ok sample_sidecar) by by_compute.
  split; [exact E|]. split; [by_compute|]. split; [by_compute|].
  destruct (always_exec _ _ greeting [] (@sidecar_guards_handlers sample_text _ [(greet, true)] sample_sidecar
              (call_greet ada) E)) as (r & Hr & _ & _ & Hg).
  exists r. split; [exact Hr|exact Hg].
Defined.

Lemma wire_schema_round_trip_witness :
  validate_and_convert_schema (wire_input_schema sample_fields) = Ok (map sent sample_fields).
Proof.
  apply wire_schema_round_trip; [|by repeat constructor].
  apply (bool_decide_eq_true_1 (NoDup _)). by_compute.
Defined.

(** A server of the node's own configuration that is called [archon] is replaced. *)
Example archon_server_replaced :
  @index_insert value (lit "archon") (archon_entry 80) [key "archon" Null; key "db" Null]
  = [key "archon" (archon_entry 80); key "db" Null].
Proof. by_compute. Qed.
