(* ===== verification/ClaudeCli.v ===== *)
(** * The Claude command line

    [claude/parser.rs] of [har-provider]: one event, a JSON object on a line of its own,
    gives the messages a query answers with.  [claude/config.rs],
    [claude/binary_resolver.rs] and [claude/argv.rs]: the defaults of the assistant, the
    executable, and its arguments.  Log entries are left out. *)
From S2P Require Import Prelude StdModel Float64 Json Provider Paths CliStream AgentProc NativeTools.

(** ** Usage *)

Record RawUsage : Type := mk_RawUsage {
  ru_input_tokens : option f64; ru_output_tokens : option f64; ru_total_tokens : option f64;
}.

(** The derived [Deserialize] of [Option<f64>], and of the struct: an object, whose
    unknown keys are passed over, or an array of its fields. *)
Definition read_opt_f64 (v : option value) : option (option f64) :=
  match v with
  | None | Some Null => Some None
  | Some v => x ← value_as_f64 v; Some (Some x)
  end.
Definition read_usage (input output total : option value) : option RawUsage :=
  i ← read_opt_f64 input; o ← read_opt_f64 output; t ← read_opt_f64 total; Some (mk_RawUsage i o t).
Definition RawUsage_from_value (v : value) : option RawUsage :=
  match v with
  | Object o =>
      read_usage (assoc_get (lit "input_tokens") o) (assoc_get (lit "output_tokens") o)
        (assoc_get (lit "total_tokens") o)
  | Array [i; o; t] => read_usage (Some i) (Some o) (Some t)
  | _ => None
  end.

Definition normalize_claude_usage (usage : option RawUsage) : option TokenUsage :=
  usage ← usage;
  input ← ru_input_tokens usage;
  output ← ru_output_tokens usage;
  if negb (f64_is_finite input) || negb (f64_is_finite output) then None
  else Some (mk_TokenUsage (f64_to_u64 input) (f64_to_u64 output)
               (t ← ru_total_tokens usage; if f64_is_finite t then Some (f64_to_u64 t) else None) None).

(** ** Results of tools *)

Record ToolResultEntry : Type := mk_ToolResultEntry {
  tre_tool_name : str; tre_tool_output : str; tre_tool_call_id : option str;
}.

Definition MAX_TOOL_OUTPUT_LEN : nat := 10000.

(** The text of a block of content. *)
Definition block_text (b : value) : option str :=
  o ← as_object b; type ← obj_str "type" o;
  if str_eqb type (lit "text") then obj_str "text" o else None.

Section Parser.
Context `{SerdeJson}.

Definition raw_output (content : option value) : str :=
  match content with
  | Some (String s) => s
  | Some (Array blocks) => concat (omap block_text blocks)
  | Some v => to_string v
  | None => []
  end.

(** The first block of the message, when it is the result of a tool. *)
Definition tool_result_block (obj : object) : option object :=
  message ← assoc_get (lit "message") obj ≫= as_object;
  content_arr ← assoc_get (lit "content") message ≫= as_array;
  first ← head content_arr ≫= as_object;
  type ← obj_str "type" first;
  if str_eqb type (lit "tool_result") then Some first else None.

Definition parse_user_tool_result (obj : object) : outcome (option ToolResultEntry) :=
  match tool_result_block obj with
  | None => Ret None
  | Some first =>
      let raw := raw_output (assoc_get (lit "content") first) in
      tool_output ← (if Nat.ltb MAX_TOOL_OUTPUT_LEN (byte_len raw)
                     then p ← byte_prefix MAX_TOOL_OUTPUT_LEN raw; Ret (p ++ lit "...")
                     else Ret raw);
      Ret (Some (mk_ToolResultEntry (lit "unknown") tool_output (obj_str "tool_use_id" first)))
  end.

(** ** Events *)

Definition message_content (obj : object) : option (list value) :=
  m ← assoc_get (lit "message") obj; m ← as_object m; c ← assoc_get (lit "content") m; as_array c.
Definition assistant_block (block : object) : list MessageChunk :=
  let block_type := default [] (obj_str "type" block) in
  if str_eqb block_type (lit "text") then
    match obj_str "text" block with
    | Some text => if is_empty text then [] else [Assistant text None]
    | None => []
    end
  else if str_eqb block_type (lit "tool_use") then
    match obj_str "name" block with
    | Some name =>
        let tool_input := match assoc_get (lit "input") block with
                          | Some Null | None => Object []
                          | Some v => v
                          end in
        [Tool name (Some tool_input) (obj_str "id" block)]
    | None => []
    end
  else [].

Definition failed_server (s : value) : option str :=
  o ← as_object s; name ← obj_str "name" o; status ← obj_str "status" o;
  if str_eqb status (lit "connected") then None else Some (name ++ lit " (" ++ status ++ lit ")").

Definition system_event (obj : object) : list MessageChunk :=
  if bool_decide (obj_str "subtype" obj = Some (lit "init")) then
    match assoc_get (lit "mcp_servers") obj ≫= as_array with
    | Some servers =>
        let failed := omap failed_server servers in
        match failed with
        | [] => []
        | _ => [System (lit "MCP server connection failed: " ++ join (lit ", ") failed)]
        end
    | None => []
    end
  else [].

(** An object as a [HashMap]. *)
Definition to_map (o : object) : gmap str value := list_to_map o.

Definition is_real_error (obj : object) : bool :=
  bool_decide (assoc_get (lit "is_error") obj ≫= as_bool = Some true)
  && negb (bool_decide (obj_str "subtype" obj = Some (lit "success"))).

Definition result_event (obj : object) : ResultChunk :=
  let is_real_error := is_real_error obj in
  let errors :=
    match assoc_get (lit "errors") obj ≫= as_array with
    | Some arr => match omap as_str arr with [] => None | l => Some l end
    | None => None
    end in
  mk_ResultChunk (obj_str "session_id" obj)
    (normalize_claude_usage (assoc_get (lit "usage") obj ≫= RawUsage_from_value))
    (assoc_get (lit "structured_output") obj)
    (if is_real_error then Some true else None)
    (if is_real_error then obj_str "subtype" obj else None)
    (if is_real_error then errors else None)
    (assoc_get (lit "total_cost_usd") obj ≫= value_as_f64)
    (obj_str "stop_reason" obj)
    (n ← assoc_get (lit "num_turns") obj ≫= as_u64; Some (n mod 2 ^ 32)%N)
    (m ← assoc_get (lit "model_usage") obj ≫= as_object; Some (to_map m)).

Definition parse_claude_stream_json (obj : object) : outcome (list MessageChunk) :=
  match obj_str "type" obj with
  | None => Ret []
  | Some event_type =>
      if str_eqb event_type (lit "assistant") then
        Ret (flat_map (fun b => match as_object b with Some b => assistant_block b | None => [] end)
               (default [] (message_content obj)))
      else if str_eqb event_type (lit "system") then Ret (system_event obj)
      else if str_eqb event_type (lit "rate_limit_event") then
        Ret [RateLimit (to_map (default [] (assoc_get (lit "rate_limit_info") obj ≫= as_object)))]
      else if str_eqb event_type (lit "result") then Ret [ResultMsg (result_event obj)]
      else if str_eqb event_type (lit "user") then
        entry ← parse_user_tool_result obj;
        Ret match entry with
            | Some e => [ToolResult (tre_tool_name e) (tre_tool_output e) (tre_tool_call_id e)]
            | None => []
            end
      else Ret []
  end.

Definition parse_claude_stream_json_line (line : str) : outcome (option (list MessageChunk)) :=
  match from_str line ≫= as_object with
  | Some obj => chunks ← parse_claude_stream_json obj; Ret (Some chunks)
  | None => Ret None
  end.
End Parser.

(** ** What an event gives *)

Section Specs.
Context `{SerdeJson}.

(** The output of a tool that the cut at [MAX_TOOL_OUTPUT_LEN] bytes falls inside a
    character of. *)
Definition cuts_character (obj : object) : Prop :=
  exists first, tool_result_block obj = Some first
    /\ let raw := raw_output (assoc_get (lit "content") first) in
       MAX_TOOL_OUTPUT_LEN < byte_len raw /\ byte_prefix MAX_TOOL_OUTPUT_LEN raw = Panic.

Definition type_is (t : string) (obj : object) : Prop := obj_str "type" obj = Some (lit t).

(** The messages of an event that is a result of a tool. *)
Definition tool_messages (obj : object) (l : list MessageChunk) : Prop :=
  match tool_result_block obj with
  | None => l = []
  | Some first =>
      let raw := raw_output (assoc_get (lit "content") first) in
      exists output, l = [ToolResult (lit "unknown") output (obj_str "tool_use_id" first)]
        /\ (byte_len raw <= MAX_TOOL_OUTPUT_LEN /\ output = raw
            \/ exists p q, raw = p ++ q /\ byte_len p = MAX_TOOL_OUTPUT_LEN /\ q <> []
                           /\ output = p ++ lit "...")
  end.

Lemma parse_user_spec obj :
  match parse_user_tool_result obj with
  | Ret entry =>
      tool_messages obj match entry with
                        | Some e => [ToolResult (tre_tool_name e) (tre_tool_output e) (tre_tool_call_id e)]
                        | None => []
                        end
  | Panic => cuts_character obj
  end.
Proof.
  unfold parse_user_tool_result, tool_messages, cuts_character.
  destruct (tool_result_block obj) as [first|]; [|done].
  set (raw := raw_output _). destruct (Nat.ltb_spec MAX_TOOL_OUTPUT_LEN (byte_len raw)) as [Hl|Hl].
  - destruct (byte_prefix MAX_TOOL_OUTPUT_LEN raw) as [p|] eqn:E; cbn [mbind outcome_bind].
    + eexists. split; [done|]. right. apply byte_prefix_Ret in E as (q & Eq & Hp). exists p, q.
      split_and!; [done|done| |done]. intros ->. rewrite app_nil_r in Eq. subst p. lia.
    + exists first. done.
  - cbn [mbind outcome_bind]. eexists. split; [done|]. left. done.
Qed.

(** The messages of an event, by its type: the texts and the tool calls of an answer
    in their order, a system message exactly when a server did not connect, one result,
    which is an error only when the command line calls it one and not a success, and
    the output of a tool, cut when it is longer than 10,000 bytes.  An event of another
    type, or of none, gives nothing.  Reading panics exactly where that cut falls
    inside a character. *)
Theorem parse_claude_spec (obj : object) :
  match parse_claude_stream_json obj with
  | Ret l =>
      (type_is "assistant" obj ->
         l = flat_map (fun b => match as_object b with Some b => assistant_block b | None => [] end)
               (default [] (message_content obj)))
      /\ (type_is "system" obj -> l = system_event obj)
      /\ (type_is "result" obj -> exists r, l = [ResultMsg r]
            /\ rc_is_error r = (if is_real_error obj then Some true else None)
            /\ (is_real_error obj = false -> rc_error_subtype r = None /\ rc_errors r = None))
      /\ (type_is "user" obj -> tool_messages obj l)
      /\ (Forall (fun t => ~ type_is t obj)
            ["assistant"; "system"; "rate_limit_event"; "result"; "user"]%string -> l = [])
  | Panic => type_is "user" obj /\ cuts_character obj
  end.
Proof.
  unfold parse_claude_stream_json, type_is. destruct (obj_str "type" obj) as [t|]; [|done].
  destruct (str_eqb t (lit "assistant")) eqn:E1; [apply str_eqb_spec in E1 as ->|].
  { split_and!; [done|done|done|done|]. by intros [[] _]%Forall_cons. }
  destruct (str_eqb t (lit "system")) eqn:E2; [apply str_eqb_spec in E2 as ->|].
  { split_and!; [done|done|done|done|]. by intros [_ [[] _]%Forall_cons]%Forall_cons. }
  destruct (str_eqb t (lit "rate_limit_event")) eqn:E3; [apply str_eqb_spec in E3 as ->|].
  { split_and!; [done|done|done|done|]. by intros [_ [_ [[] _]%Forall_cons]%Forall_cons]%Forall_cons. }
  destruct (str_eqb t (lit "result")) eqn:E4; [apply str_eqb_spec in E4 as ->|].
  { split_and!; [done|done| |done|].
    - intros _. eexists. split; [done|]. unfold result_event. cbn. split; [done|]. by intros ->.
    - by intros [_ [_ [_ [[] _]%Forall_cons]%Forall_cons]%Forall_cons]%Forall_cons. }
  destruct (str_eqb t (lit "user")) eqn:E5; [apply str_eqb_spec in E5 as ->|].
  { pose proof (parse_user_spec obj) as Hu. destruct (parse_user_tool_result obj) as [e|]; cbn [mbind outcome_bind];
      [|by split].
    split_and!; [done|done|done|done|].
    by intros [_ [_ [_ [_ [[] _]%Forall_cons]%Forall_cons]%Forall_cons]%Forall_cons]%Forall_cons. }
  assert (Hno : forall x, str_eqb t (lit x) = false -> Some t = Some (lit x) -> False).
  { intros x E [= ->]. by rewrite str_eqb_refl in E. }
  split_and!; try (intros E; by apply Hno in E). done.
Qed.
End Specs.

(** * How Claude is started

    [claude/config.rs], [claude/binary_resolver.rs] and [claude/argv.rs] of
    [har-provider]: the defaults of the assistant, the executable, and the arguments it is
    started with.  The platform is Unix. *)

(** ** Defaults ([config.rs]) *)

Inductive SettingSource : Type := SourceProject | SourceUser.
(** [ClaudeProviderDefaults]; other keys are never kept. *)
Record ClaudeProviderDefaults : Type := mk_ClaudeProviderDefaults {
  cd_model : option str;
  cd_setting_sources : option (list SettingSource);
  cd_claude_binary_path : option str;
}.

Definition setting_source (v : value) : option SettingSource :=
  match v with
  | String s =>
      if str_eqb s (lit "project") then Some SourceProject
      else if str_eqb s (lit "user") then Some SourceUser else None
  | _ => None
  end.
Definition parse_claude_config (raw : gmap str value) : ClaudeProviderDefaults :=
  mk_ClaudeProviderDefaults
    (raw !! lit "model" ≫= as_str)
    (match raw !! lit "settingSources" with
     | Some (Array sources) => match omap setting_source sources with [] => None | valid => Some valid end
     | _ => None
     end)
    (raw !! lit "claudeBinaryPath" ≫= as_str).

(** ** The executable ([binary_resolver.rs]) *)

Definition CLAUDE_BINARY_NAME : str := lit "claude".

Inductive PathKind : Type := KindFile | KindDirectory | KindMissing.
#[export] Instance PathKind_eq_dec : EqDecision PathKind.
Proof. solve_decision. Defined.

Definition path_kind (path : str) : agent PathKind :=
  meta ← call (StatPath path);
  Done match meta with
       | Ok StatFile => KindFile
       | Ok StatDirectory => KindDirectory
       | Ok StatOther | Err _ => KindMissing
       end.

Definition newline : str := [10%N].
Definition in_quotes (s : str) : str := [dquote] ++ s ++ [dquote].
Definition validate_and_expand (raw_path source_label : str) : agent (result str str) :=
  kind ← path_kind raw_path;
  match kind with
  | KindFile => Done (Ok raw_path)
  | KindDirectory =>
      let candidate := path_join raw_path CLAUDE_BINARY_NAME in
      inner ← path_kind candidate;
      if bool_decide (inner = KindFile) then Done (Ok candidate)
      else
        Done (Err (source_label ++ lit " is set to " ++ in_quotes raw_path
          ++ lit ", which is a directory, but it does not contain " ++ CLAUDE_BINARY_NAME ++ lit "."
          ++ newline ++ lit "Please point this setting at the Claude Code executable itself (native binary"
          ++ newline ++ lit "from the curl/PowerShell installer, or cli.js from an npm global install)."))
  | KindMissing =>
      Done (Err (source_label ++ lit " is set to " ++ in_quotes raw_path
        ++ lit " but the file does not exist." ++ newline
        ++ lit "Please verify the path points to the Claude Code executable (native binary" ++ newline
        ++ lit "from the curl/PowerShell installer, or cli.js from an npm global install)."))
  end.

Definition INSTALL_INSTRUCTIONS : str :=
  join newline
    [lit "Claude Code not found. Archon requires the Claude Code executable to be";
     lit "reachable at a configured path in compiled builds."; [];
     lit "To fix, install Claude Code and point Archon at it:"; [];
     lit "  macOS / Linux (recommended — native installer):";
     lit "    curl -fsSL https://claude.ai/install.sh | bash";
     lit "    export CLAUDE_BIN_PATH=" ++ in_quotes (lit "$HOME/.local/bin/claude"); [];
     lit "  Windows (PowerShell):";
     lit "    irm https://claude.ai/install.ps1 | iex";
     lit "    $env:CLAUDE_BIN_PATH = " ++ in_quotes (lit "$env:USERPROFILE\.local\bin\claude.exe"); [];
     lit "  Or via npm (alternative):";
     lit "    npm install -g @anthropic-ai/claude-code";
     lit "    export CLAUDE_BIN_PATH=" ++ in_quotes (lit "$(npm root -g)/@anthropic-ai/claude-code/cli.js"); [];
     lit "Persist the path in ~/.archon/config.yaml instead of the env var:";
     lit "    assistants:"; lit "      claude:";
     lit "        claudeBinaryPath: /absolute/path/to/claude"; [];
     lit "See: https://archon.diy/docs/reference/configuration#claude"].

Section Resolver.
Context `{ProcessEnvironment}.

(** [Ok None] outside of binary mode: the executable is looked up by its name. *)
Definition resolve_claude_binary_path (config_claude_binary_path : option str) (is_binary_mode : bool)
  : agent (result str (option str)) :=
  let env_path := default [] (env_var (lit "CLAUDE_BIN_PATH")) in
  if negb (is_empty env_path) then
    r ←? validate_and_expand env_path (lit "CLAUDE_BIN_PATH"); Done (Ok (Some r))
  else if negb is_binary_mode then Done (Ok None)
  else
    match config_claude_binary_path with
    | Some ((_ :: _) as config_path) =>
        r ←? validate_and_expand config_path (lit "assistants.claude.claudeBinaryPath"); Done (Ok (Some r))
    | _ =>
        match base_dirs_home with
        | Some home =>
            let native_path := path_join (path_join (path_join home (lit ".local")) (lit "bin")) CLAUDE_BINARY_NAME in
            kind ← path_kind native_path;
            Done (if bool_decide (kind = KindFile) then Ok (Some native_path) else Err INSTALL_INSTRUCTIONS)
        | None => Done (Err INSTALL_INSTRUCTIONS)
        end
    end.
End Resolver.

Definition should_pass_no_env_file (cli_path : option str) : bool :=
  match cli_path with
  | None => false
  | Some path => existsb (fun ext => ends_with (lit ext) path) [".js"; ".mjs"; ".cjs"]%string
  end.

(** ** Arguments ([argv.rs]) *)

Record ProviderWarning : Type := mk_ProviderWarning { pw_code : str; pw_message : str }.

Definition TRANSPORT_FLAGS : list str :=
  map lit ["--print"; "--output-format"; "stream-json"; "--verbose"; "--input-format"; "text"]%string.

(** [f64::to_string]. *)
Class FloatText := f64_to_string : f64 -> str.

(** The derived [Serialize] of an agent: absent fields are skipped. *)
Definition opt_entry {A} (k : string) (f : A -> value) (o : option A) : object :=
  match o with Some a => [key k (f a)] | None => [] end.
Definition strings (l : list str) : value := Array (map String l).
Definition agent_to_value (d : InlineAgentDefinition) : value :=
  Object ([key "description" (String (ia_description d)); key "prompt" (String (ia_prompt d))]
          ++ opt_entry "model" String (ia_model d)
          ++ opt_entry "tools" strings (ia_tools d)
          ++ opt_entry "disallowedTools" strings (ia_disallowed_tools d)
          ++ opt_entry "skills" strings (ia_skills d)
          ++ opt_entry "maxTurns" (fun n => Number (PosInt n)) (ia_max_turns d)).

(** A flag with its value, when there is one. *)
Definition flag (name : string) (v : option str) : list str :=
  match v with Some v => [lit name; v] | None => [] end.
Definition switch (name : string) (on : bool) : list str := if on then [lit name] else [].
Definition non_empty_list {A} (l : list A) : option (list A) := match l with [] => None | _ => Some l end.

Definition or_else {A} (a b : option A) : option A := match a with Some _ => a | None => b end.
Definition push_new (l : list str) (s : str) : list str := if bool_decide (s ∈ l) then l else l ++ [s].
Definition mcp_wildcard (server : str) : str := lit "mcp__" ++ server ++ lit "__*".

Definition setting_source_text (s : SettingSource) : str :=
  match s with SourceProject => lit "project" | SourceUser => lit "user" end.

Definition system_prompt_args (p : option SystemPromptInput) : list str :=
  match p with
  | Some (SP_Single s) => [lit "--system-prompt"; s]
  | Some (SP_Multi parts) => [lit "--system-prompt"; join [10%N] parts]
  | Some (SP_Preset preset) =>
      flag "--append-system-prompt" (sp_append preset)
      ++ switch "--exclude-dynamic-system-prompt-sections"
           (bool_decide (exclude_dynamic_sections preset = Some true))
  | None => []
  end.

Section Argv.
Context `{SerdeJson} `{HashMapOrder} `{UnicodeCase} `{FloatText}.
Context (request_options : option SendQueryOptions) (node_config : option NodeConfig)
  (defaults : ClaudeProviderDefaults) (resume_session_id cli_path : option str)
  (mcp_server_names mcp_missing_vars : list str) (native_tools_mcp_config_path : option str).

Definition argv_model : option str := or_else (request_options ≫= so_model) (cd_model defaults).

(** The flags from the transport to the betas. *)
Definition base_args : list str :=
  switch "--no-env-file" (should_pass_no_env_file cli_path)
  ++ TRANSPORT_FLAGS
  ++ flag "--model" argv_model
  ++ flag "--fallback-model" (or_else (request_options ≫= so_fallback_model) (node_config ≫= nc_fallback_model))
  ++ flag "--max-budget-usd"
       (b ← or_else (request_options ≫= so_max_budget_usd) (node_config ≫= nc_max_budget_usd);
        Some (f64_to_string b))
  ++ [lit "--permission-mode"; lit "bypassPermissions"; lit "--dangerously-skip-permissions"]
  ++ system_prompt_args (or_else (node_config ≫= nc_system_prompt) (request_options ≫= so_system_prompt))
  ++ [lit "--setting-sources";
      join (lit ",") (match cd_setting_sources defaults with
                      | Some ss => map setting_source_text ss
                      | None => [lit "project"; lit "user"]
                      end)]
  ++ switch "--fork-session" (bool_decide ((request_options ≫= so_fork_session) = Some true))
  ++ switch "--no-session-persistence" (bool_decide ((request_options ≫= so_persist_session) = Some false))
  ++ flag "--resume" resume_session_id
  ++ flag "--effort" (node_config ≫= nc_effort)
  ++ flag "--thinking" (t ← node_config ≫= nc_thinking; Some (to_string t))
  ++ flag "--sandbox" (s ← node_config ≫= nc_sandbox; Some (to_string s))
  ++ flag "--betas" (b ← node_config ≫= nc_betas; l ← non_empty_list b; Some (join (lit ",") l)).

Definition output_format_schema : option value :=
  or_else (m ← node_config ≫= nc_output_format; Some (Object (hm_iter m)))
    (f ← request_options ≫= so_output_format; Some (Object (schema f))).

Definition agent_roster_tools : list str := default [] (node_config ≫= nc_allowed_tools).
Definition denied_tools : list str := default [] (node_config ≫= nc_denied_tools).
Definition node_skills : option (list str) := s ← node_config ≫= nc_skills; non_empty_list s.

(** The configuration of the node's servers, unless the merged one subsumes it. *)
Definition node_mcp_args : list str :=
  match node_config ≫= nc_mcp with
  | Some mcp_path =>
      switch "--mcp-config" (negb (bool_decide (is_Some native_tools_mcp_config_path)))
      ++ (if bool_decide (is_Some native_tools_mcp_config_path) then [] else [mcp_path])
  | None => []
  end.

(** The tools that need no permission: the servers of the node, skills, native tools. *)
Definition permission_allowlist : list str :=
  let l := match node_config ≫= nc_mcp with
           | Some _ => fold_left (fun l name => push_new l (mcp_wildcard name)) mcp_server_names []
           | None => []
           end in
  let l := match node_skills with Some _ => push_new l (lit "Skill") | None => l end in
  match native_tools_mcp_config_path with
  | Some _ => push_new l (mcp_wildcard ARCHON_TOOL_SERVER)
  | None => l
  end.

Definition argv_warnings : list ProviderWarning :=
  match node_config ≫= nc_mcp with
  | None => []
  | Some _ =>
      (if match argv_model with Some m => contains (lit "haiku") (to_lowercase m) | None => false end
       then [mk_ProviderWarning (lit "mcp_haiku_tool_search")
               (lit "Using Haiku model with MCP servers — tool search (lazy loading for many tools) is not supported on Haiku. Consider using Sonnet or Opus.")]
       else [])
      ++ match mcp_missing_vars with
         | [] => []
         | vars =>
             [mk_ProviderWarning (lit "mcp_env_vars_missing")
                (lit "MCP config references undefined env vars: " ++ join (lit ", ") (dedup [] vars)
                 ++ lit ". These will be empty strings — MCP servers may fail to authenticate.")]
         end
  end.

Definition skill_agent_id : str := lit "dag-node-skills".
Definition skill_agent (skills : list str) : value :=
  Object ([key "description" (String (lit "DAG node with skills"));
           key "prompt" (String (lit "You have preloaded skills: " ++ join (lit ", ") skills
                                 ++ lit ". Use them when relevant."));
           key "skills" (strings skills)]
          ++ opt_entry "tools" (fun l => strings (l ++ [lit "Skill"])) (non_empty_list agent_roster_tools)
          ++ opt_entry "model" String argv_model).
(** The agents by their identifiers: one of the node's own replaces the skills agent. *)
Definition agents_map : object :=
  let m := match node_skills with Some skills => [(skill_agent_id, skill_agent skills)] | None => [] end in
  match node_config ≫= nc_agents with
  | Some agents => fold_left (fun m e => index_insert (fst e) (agent_to_value (snd e)) m) (hm_iter agents) m
  | None => m
  end.

Definition build_claude_argv : list str * list ProviderWarning :=
  (base_args
   ++ flag "--output-format-schema" (s ← output_format_schema; Some (to_string s))
   ++ node_mcp_args
   ++ flag "--agents" (m ← non_empty_list agents_map; Some (to_string (Object m)))
   ++ flag "--agent" (_ ← node_skills; Some skill_agent_id)
   ++ flag "--mcp-config" native_tools_mcp_config_path
   ++ flag "--allowed-tools" (l ← non_empty_list permission_allowlist; Some (join (lit ",") l))
   ++ flag "--disallowed-tools" (l ← non_empty_list denied_tools; Some (join (lit ",") l)),
   argv_warnings).
End Argv.
