(* ===== verification/ClaudeProvider.v ===== *)
(** * The Claude provider

    [claude/provider.rs] of [har-provider]: a query, from its options to the messages the
    command line prints, with the attempts that failed.  One attempt starts the program,
    hands it the prompt on its standard input, and reads what it prints to the end; its
    messages are only passed on when it has ended well. *)

From S2P Require Import Prelude StdModel Float64 Json Regex Paths Provider CliStream AgentProc DagCore.
From S2P Require Import AgentRetry McpConfig NativeTools ClaudeCli.

(** ** Hooks *)

Record HookCommand : Type := mk_HookCommand { hc_kind : str; hc_command : str }.
Record HookSettingsEntry : Type := mk_HookSettingsEntry {
  he_matcher : option str; he_hooks : list HookCommand; he_timeout : option f64;
}.

(** The derived [Serialize]. *)
Definition HookCommand_to_value (c : HookCommand) : value :=
  Object [key "type" (String (hc_kind c)); key "command" (String (hc_command c))].
Definition HookSettingsEntry_to_value (e : HookSettingsEntry) : value :=
  Object (opt_entry "matcher" String (he_matcher e)
          ++ [key "hooks" (Array (map HookCommand_to_value (he_hooks e)))]
          ++ opt_entry "timeout" (fun t => Number (Float t)) (he_timeout e)).

Section Hooks.
Context `{SerdeJson}.

(** The response as a command that prints it. *)
Definition echo_command (response : value) : str :=
  let safe_response := replace [squote] [squote; backslash; squote; squote] (to_string response) in
  lit "echo '" ++ safe_response ++ lit "'".

Definition hook_entry (m : value) : HookSettingsEntry :=
  mk_HookSettingsEntry
    (v ← value_get (lit "matcher") m; as_str v)
    [mk_HookCommand (lit "command") (echo_command (default Null (value_get (lit "response") m)))]
    (v ← value_get (lit "timeout") m; value_as_f64 v).

(** The matchers of an event, when it has any. *)
Definition event_matchers (matchers_val : value) : option (list value) :=
  match as_array matchers_val with Some ((_ :: _) as a) => Some a | _ => None end.

Definition hooks_block (obj : object) : object :=
  fold_left (fun block e =>
    match event_matchers (snd e) with
    | Some matchers =>
        index_insert (fst e) (Array (map (fun m => HookSettingsEntry_to_value (hook_entry m)) matchers)) block
    | None => block
    end) obj [].

Definition build_hooks_settings_json (node_hooks : value) : option object :=
  obj ← as_object node_hooks;
  match hooks_block obj with
  | [] => None
  | block => Some [key "hooks" (Object block)]
  end.
End Hooks.

(** ** One attempt *)

Definition produced_no_output (timeout_ms : N) : str :=
  lit "Claude Code subprocess produced no output within " ++ show_N timeout_ms
  ++ lit "ms. See logs for claude.first_event_timeout diagnostic dump. Details: https://github.com/coleam00/Archon/issues/1067".

Section Attempt.
Context `{SerdeJson} `{JsonErrors}.

(** The messages of a line: only an object has any. *)
Definition value_messages (val : value) : outcome (list MessageChunk) :=
  match as_object val with Some map => parse_claude_stream_json map | None => Ret [] end.

Definition stderr_context : agent str :=
  lines ← call StderrLines; Done (join [10%N] (fold_left accumulate_stderr_lines lines [])).

(** The items after the first; the query may be cancelled before each. *)
Fixpoint read_items (items : list (result StreamError value)) (chunks : list MessageChunk)
  : agent (result str (list MessageChunk)) :=
  match items with
  | [] => Done (Ok chunks)
  | item :: items =>
      cancelled ← call IsCancelled;
      if cancelled : bool then Done (Ok chunks)
      else
        match item with
        | Ok val => new ← pure_step (value_messages val); read_items items (chunks ++ new)
        | Err (Io e) =>
            ctx ← stderr_context;
            Done (Err (lit "I/O reading stdout (stderr: " ++ ctx ++ lit "): " ++ io.text e))
        | Err (ParseError _ _) => read_items items chunks
        end
  end.

Definition check_exit (chunks : list MessageChunk) : agent (result str (list MessageChunk)) :=
  ctx ← stderr_context;
  code ← call ExitCode;
  Done (if bool_decide (code = 0%Z) then Ok chunks
        else Err (lit "process exited with code " ++ show_Z code
                  ++ (if is_empty ctx then [] else lit " (stderr: " ++ ctx ++ lit ")"))).

(** What is printed, from the first item, which alone is waited for with a limit. *)
Definition read_output (items : list (result StreamError value)) : agent (result str (list MessageChunk)) :=
  match items with
  | Err e :: _ => Done (Err (lit "stream error: " ++ StreamError_display e))
  | Ok val :: items =>
      chunks ← pure_step (value_messages val);
      chunks ←? read_items items chunks; check_exit chunks
  | [] => chunks ←? read_items [] []; check_exit chunks
  end.

Definition run_single_attempt (program : str) (argv : list str) (env : gmap str str) (cwd prompt : str)
    (timeout_ms : N) : agent (result str (list MessageChunk)) :=
  outcome ← call (SpawnAgent program argv env cwd);
  match outcome with
  | Err e => Done (Err (lit "spawn failed: " ++ io.text e))
  | Ok _ =>
      written ← call (WriteStdin prompt);
      match written with
      | Err e => Done (Err (lit "stdin write failed: " ++ io.text e))
      | Ok _ =>
          stdout ← call (Stdout (Some timeout_ms));
          match stdout with
          | None => Done (Err (produced_no_output timeout_ms))
          | Some byte_stream => read_output (ndjson byte_stream)
          end
      end
  end.
End Attempt.

(** ** The query *)

Section Query.
Context `{SerdeJson} `{JsonErrors} `{HashMapOrder} `{UnicodeCase} `{FloatText} `{RegexEngine}
  `{ProcessEnvironment}.

(** What [new] refuses: root outside of a sandbox. *)
Definition with_options (uid : N) (retry_base_delay_ms : N) : result str N :=
  if (uid =? 0)%N && negb (str_eqb (default [] (env_var (lit "IS_SANDBOX"))) (lit "1"))
  then Err (lit "Claude Code SDK does not support bypassPermissions when running as root (UID 0). Run as a non-root user, set IS_SANDBOX=1, or use the Dockerfile which creates a non-root appuser.")
  else Ok retry_base_delay_ms.

Definition first_event_timeout_ms : N :=
  match env_var (lit "ARCHON_CLAUDE_FIRST_EVENT_TIMEOUT_MS") ≫= f64_from_str with
  | Some n => if f64_is_finite n && f64_ltb f64_zero n then f64_to_u64 n else 60000
  | None => 60000
  end%N.

(** The names of the node's servers and the variables they miss. *)
Definition load_node_mcp (mcp_path : option str) (cwd : str) : agent (result str (list str * list str)) :=
  match mcp_path with
  | Some mcp_path =>
      env_source ← env_vars;
      loaded ←? load_mcp_config mcp_path cwd env_source;
      Done (Ok (server_names loaded, missing_vars loaded))
  | None => Done (Ok ([], []))
  end.

Definition write_mcp_config_merged (port : N) (existing_mcp_config_path : option str)
  : agent (result str str) :=
  existing ←? match existing_mcp_config_path with
              | Some path => raw ← call (ReadText path); Done (existing_servers path raw)
              | None => Done (Ok [])
              end;
  call (WriteTempFile (merged_mcp_config port existing)).

(** The configuration that names the server of the native tools; a query goes on without
    it when a step fails. *)
Definition start_native_tools (native_tools : option (list NativeTool)) (existing_mcp : option str)
  : agent (option str) :=
  match native_tools with
  | Some ((_ :: _) as tools) =>
      match sidecar_new (map (fun t => (t, true)) tools) with
      | Err _ => Done None
      | Ok _ =>
          server ← call StartLoopback;
          match server with
          | Err _ => Done None
          | Ok port =>
              path ← write_mcp_config_merged port existing_mcp;
              Done match path with Ok path => Some path | Err _ => None end
          end
      end
  | _ => Done None
  end.

(** The arguments that name the file of the hooks. *)
Definition hooks_args (hooks : option value) : agent (list str) :=
  match hooks ≫= build_hooks_settings_json with
  | Some settings_map =>
      file ← call (WriteTempFile (to_string (Object settings_map)));
      Done match file with Ok path => [lit "--settings"; path] | Err _ => [] end
  | None => Done []
  end.

(** What the attempts of a query share. *)
Record Prepared : Type := mk_Prepared {
  p_program : str; p_argv : list str; p_hooks : option value; p_env : gmap str str;
  p_cwd : str; p_prompt : str; p_timeout_ms : N;
}.

(** An attempt: the file of the hooks is written anew. *)
Definition attempt (p : Prepared) (n : nat) : agent (result str (list MessageChunk)) :=
  settings ← hooks_args (p_hooks p);
  run_single_attempt (p_program p) (p_argv p ++ settings) (p_env p) (p_cwd p) (p_prompt p) (p_timeout_ms p).

(** A failed query ends without a message. *)
Definition on_error (err_msg : str) (controller_was_aborted : bool) : bool * list MessageChunk :=
  (ee_should_retry (classify_and_enrich_error err_msg [] controller_was_aborted), []).

Definition warning_chunk (w : ProviderWarning) : MessageChunk := System (lit "⚠️ " ++ pw_message w).

Definition send_query (retry_base_delay_ms : N) (prompt cwd : str) (resume_session_id : option str)
    (options : option SendQueryOptions) : agent unit :=
  let assistant_defaults := parse_claude_config (default ∅ (options ≫= so_assistant_config)) in
  let node_config := options ≫= so_node_config in
  cli_path ← resolve_claude_binary_path (cd_claude_binary_path assistant_defaults) true;
  match cli_path with
  | Err _ => Done tt
  | Ok cli_path =>
      subprocess_env ← build_subprocess_env (options ≫= so_env);
      mcp ← load_node_mcp (node_config ≫= nc_mcp) cwd;
      match mcp with
      | Err _ => Done tt
      | Ok (mcp_server_names, mcp_missing_vars) =>
          let argv := build_claude_argv options node_config assistant_defaults resume_session_id cli_path
                        mcp_server_names mcp_missing_vars in
          _ ← yield_all (map warning_chunk (snd (argv None)));
          native_mcp_config_path ← start_native_tools (options ≫= so_native_tools) (node_config ≫= nc_mcp);
          attempts
            (attempt (mk_Prepared (default (lit "claude") cli_path) (fst (argv native_mcp_config_path))
               (node_config ≫= nc_hooks) subprocess_env cwd prompt first_event_timeout_ms))
            on_error retry_base_delay_ms MAX_SUBPROCESS_RETRIES
      end
  end.
End Query.

Section Specs.
Context `{SerdeJson} `{JsonErrors} `{HashMapOrder} `{UnicodeCase} `{FloatText} `{RegexEngine}
  `{ProcessEnvironment}.

(** The messages of what is read, in order; a line that is no JSON has none. *)
Fixpoint messages (items : list (result StreamError value)) : outcome (list MessageChunk) :=
  match items with
  | [] => Ret []
  | Ok v :: items => a ← value_messages v; b ← messages items; Ret (a ++ b)
  | Err _ :: items => messages items
  end.

(** *** The calls of each part *)

Lemma only_stderr_context : only_calls (fun c => c = StderrLines) stderr_context.
Proof. apply only_bind; [by apply (only_ask _ StderrLines)|]. intros lines. apply only_done. Qed.
Lemma only_check_exit chunks : only_calls reading (check_exit chunks).
Proof.
  apply only_bind; [eapply only_impl, only_stderr_context; by intros ? ->|].
  intros ctx. apply only_bind; [by apply only_ask|]. intros code. apply only_done.
Qed.
Lemma only_read_items items chunks : only_calls reading (read_items items chunks).
Proof.
  revert chunks. induction items as [|item items IH]; intros chunks; [apply only_done|].
  apply only_bind; [by apply (only_ask _ IsCancelled)|]. intros [|]; [apply only_done|].
  destruct item as [v|[e|n l]].
  - apply only_bind; [apply only_pure|]. intros new. apply IH.
  - apply only_bind; [eapply only_impl, only_stderr_context; by intros ? ->|]. intros ctx. apply only_done.
  - apply IH.
Qed.
Lemma only_read_output items : only_calls reading (read_output items).
Proof.
  destruct items as [|[v|e] items]; cbn [read_output].
  - apply only_try; [apply only_read_items|apply only_check_exit].
  - apply only_bind; [apply only_pure|]. intros chunks.
    apply only_try; [apply only_read_items|apply only_check_exit].
  - apply only_done.
Qed.
Lemma only_hooks_args hooks : only_calls quiet (hooks_args hooks).
Proof.
  unfold hooks_args. destruct (hooks ≫= build_hooks_settings_json); [|apply only_done].
  apply only_bind; [by apply (only_ask _ (WriteTempFile _))|]. intros file. apply only_done.
Qed.
Lemma only_path_kind path : only_calls quiet (path_kind path).
Proof. apply only_bind; [by apply (only_ask _ (StatPath _))|]. intros meta. apply only_done. Qed.
Lemma only_validate raw label : only_calls quiet (validate_and_expand raw label).
Proof.
  apply only_bind; [apply only_path_kind|]. intros [| |]; [apply only_done| |apply only_done].
  apply only_bind; [apply only_path_kind|]. intros kind. case_bool_decide; apply only_done.
Qed.
Lemma only_resolve path binary : only_calls quiet (resolve_claude_binary_path path binary).
Proof.
  unfold resolve_claude_binary_path. destruct (negb _).
  { apply only_try; [apply only_validate|]. intros r. apply only_done. }
  destruct (negb _); [apply only_done|]. destruct path as [[|c path]|].
  2: { apply only_try; [apply only_validate|]. intros r. apply only_done. }
  all: destruct base_dirs_home; [|apply only_done]; apply only_bind; [apply only_path_kind|];
    intros kind; apply only_done.
Qed.
Lemma only_load_node_mcp mcp cwd : only_calls quiet (load_node_mcp mcp cwd).
Proof.
  destruct mcp as [path|]; [|apply only_done]. apply only_bind; [apply only_env_vars|]. intros env.
  apply only_try; [|intros loaded; apply only_done].
  apply only_bind; [by apply (only_ask _ (ReadText _))|]. intros [raw|e]; apply only_done.
Qed.
Lemma only_start_native_tools tools mcp : only_calls quiet (start_native_tools tools mcp).
Proof.
  unfold start_native_tools. destruct tools as [[|t tools]|]; [apply only_done| |apply only_done].
  destruct (sidecar_new _); [|apply only_done]. apply only_bind; [by apply (only_ask _ StartLoopback)|].
  intros [port|e]; [|apply only_done]. apply only_bind; [|intros [p|e]; apply only_done].
  apply only_try; [|intros existing; by apply (only_ask _ (WriteTempFile _))].
  destruct mcp; [|apply only_done]. apply only_bind; [by apply (only_ask _ (ReadText _))|]. intros raw. apply only_done.
Qed.

(** *** One attempt *)

Lemma messages_cons v items : messages (Ok v :: items) =
  (a ← value_messages v; b ← messages items; Ret (a ++ b)).
Proof. done. Qed.

(** What was taken of the items, and what it says. *)
Lemma read_items_post items chunks :
  post (read_items items chunks) (fun tr r =>
    match r with
    | Ok cs => exists taken new, taken `prefix_of` items /\ messages taken = Ret new /\ cs = chunks ++ new
                 /\ (seen_cancelled tr = false -> taken = items)
    | Err _ => True
    end).
Proof.
  revert chunks. induction items as [|item items IH]; intros chunks; cbn [read_items].
  { apply post_done. exists [], []. split_and!; [done..|by rewrite app_nil_r|done]. }
  intros [|].
  { exists [], []. split_and!; [apply prefix_nil|done|by rewrite app_nil_r|discriminate]. }
  destruct item as [v|[e|n l]]; cbn beta iota.
  - destruct (value_messages v) as [new|] eqn:Ev; [|done]. eapply post_mono, IH. intros tr [cs|e]; [|done].
    intros (taken & rest & Hp & Hm & -> & Hc). exists (Ok v :: taken), (new ++ rest).
    split_and!; [by apply prefix_cons|by rewrite messages_cons, Ev, Hm|by rewrite app_assoc|].
    intros E. by rewrite Hc.
  - intros lines. done.
  - eapply post_mono, IH. intros tr [cs|e]; [|done].
    intros (taken & rest & Hp & Hm & -> & Hc). exists (Err (ParseError n l) :: taken), rest.
    split_and!; [by apply prefix_cons|done|done|]. intros E. by rewrite Hc.
Qed.

(** An attempt that ends well: what it printed was read to the end, or to where the query
    was found cancelled. *)
Definition ended_well (tr : agent_trace) (chunks : list MessageChunk) : Prop :=
  exists byte_stream taken, outputs tr = [byte_stream] /\ exits tr = [0%Z]
    /\ taken `prefix_of` ndjson byte_stream /\ messages taken = Ret chunks
    /\ (seen_cancelled tr = false -> taken = ndjson byte_stream).

Lemma check_exit_post chunks :
  post (check_exit chunks) (fun tr r =>
    match r with
    | Ok cs => cs = chunks /\ exits tr = [0%Z] /\ outputs tr = [] /\ seen_cancelled tr = false
    | Err _ => True
    end).
Proof.
  intros lines code. unfold check_exit. cbn beta iota delta [mbind proc_bind stderr_context call ask always].
  case_bool_decide as Ec; [|exact I]. by rewrite Ec.
Qed.

(** Reading neither ends a program nor looks at what another printed. *)
Lemma read_items_idle items chunks :
  only_calls (fun c => c = IsCancelled \/ c = StderrLines) (read_items items chunks).
Proof.
  revert chunks. induction items as [|item items IH]; intros chunks; [apply only_done|].
  apply only_bind; [apply (only_ask _ IsCancelled); by left|]. intros [|]; [apply only_done|].
  destruct item as [v|[e|n l]]; [apply only_bind; [apply only_pure|intros new; apply IH]| |apply IH].
  apply only_bind; [eapply only_impl, only_stderr_context; intros ? ->; by right|].
  intros ctx. apply only_done.
Qed.
Lemma read_items_silent items chunks :
  always (read_items items chunks) (fun tr _ => exits tr = [] /\ outputs tr = []).
Proof.
  eapply always_mono, read_items_idle. intros tr o Htr.
  split; refine (omap_none _ _ _ _ Htr); (intros [c r] [E|E]; cbn [ev_call] in E; by subst).
Qed.

Lemma read_output_post items :
  post (read_output items) (fun tr r =>
    match r with
    | Ok cs => exists taken, taken `prefix_of` items /\ messages taken = Ret cs /\ exits tr = [0%Z]
                 /\ outputs tr = [] /\ (seen_cancelled tr = false -> taken = items)
    | Err _ => True
    end).
Proof.
  (* what is read from some items and then checked *)
  assert (Hrest : forall items chunks, post (chunks ←? read_items items chunks; check_exit chunks) (fun tr r =>
    match r with
    | Ok cs => exists taken new, taken `prefix_of` items /\ messages taken = Ret new /\ cs = chunks ++ new
                 /\ exits tr = [0%Z] /\ outputs tr = [] /\ (seen_cancelled tr = false -> taken = items)
    | Err _ => True
    end)).
  { clear items. intros items chunks. apply post_try with (R := fun tr cs =>
      exists taken new, taken `prefix_of` items /\ messages taken = Ret new /\ cs = chunks ++ new
        /\ exits tr = [] /\ outputs tr = [] /\ (seen_cancelled tr = false -> taken = items)).
    - pose proof (always_and _ _ _ (read_items_post items chunks) (read_items_silent items chunks)) as Hb.
      eapply always_mono, Hb. intros tr [[cs|e]|] [Hr [He Ho]]; [|done..].
      destruct Hr as (taken & new & Hp & Hm & -> & Hc). exists taken, new. by split_and!.
    - intros cs. eapply post_mono, check_exit_post. intros tr' [cs'|e]; [|done].
      intros (-> & He & Ho & Hs) tr (taken & new & Hp & Hm & -> & He0 & Ho0 & Hc). exists taken, new.
      split_and!; try done.
      + unfold exits in *. by rewrite omap_app, He0, He.
      + unfold outputs in *. by rewrite omap_app, Ho0, Ho.
      + rewrite seen_cancelled_app, Hs, orb_false_r. exact Hc. }
  destruct items as [|[v|e] items]; cbn [read_output]; [| |done].
  - eapply post_mono, Hrest. intros tr [cs|e]; [|done].
    intros (taken & new & Hp & Hm & -> & He & Ho & Hc). exists taken. by split_and!.
  - destruct (value_messages v) as [first|] eqn:Ev; [|done]. cbn [pure_step mbind proc_bind].
    eapply post_mono, Hrest. intros tr [cs|e]; [|done].
    intros (taken & new & Hp & Hm & -> & He & Ho & Hc). exists (Ok v :: taken).
    split_and!; [by apply prefix_cons|by rewrite messages_cons, Ev, Hm|done|done|].
    intros Hs. by rewrite Hc.
Qed.

Lemma run_single_attempt_spec program argv env cwd prompt ms :
  always (run_single_attempt program argv env cwd prompt ms) (fun tr o =>
    one_start (program, argv, env, cwd) prompt tr
    /\ match o with Ret (Ok cs) => ended_well tr cs | _ => True end).
Proof.
  intros [[]|e]; [|by repeat split].
  intros [[]|e]; [|by repeat split; try constructor].
  intros [bs|]; [|by repeat split; try constructor].
  pose proof (always_and _ _ _ (only_read_output (ndjson bs)) (read_output_post (ndjson bs))) as Hr.
  eapply always_mono, Hr. clear Hr. intros tr o [Htr Hp].
  apply (idle_trace reading) in Htr as (Q1 & Q2 & Q3 & Q4 & Q5); [|by right].
  split.
  - repeat split; [unfold spawned in *; cbn; by rewrite Q1|done|done| |by apply Q5]. unfold written in *. cbn. rewrite Q4. by constructor.
  - destruct o as [[cs|e]|]; [|done..]. destruct Hp as (taken & Hpre & Hm & He & Ho & Hs).
    exists bs, taken. split_and!; [|done..]. unfold outputs in *. cbn. by rewrite Ho.
Qed.

(** *** The query *)

(** What is started: the arguments, and the file of the hooks. *)
Definition started_as (p : Prepared) (n : nat) (what : start) : Prop :=
  exists settings, what = (p_program p, p_argv p ++ settings, p_env p, p_cwd p)
    /\ (settings = [] \/ exists path, settings = [lit "--settings"; path]).
Definition attempt_ended (tr : agent_trace) (r : result str (list MessageChunk)) : Prop :=
  match r with Ok cs => ended_well tr cs | Err _ => True end.

Lemma hooks_args_shape hooks :
  gives (hooks_args hooks) (fun s => s = [] \/ exists path, s = [lit "--settings"; path]).
Proof.
  unfold hooks_args. destruct (hooks ≫= build_hooks_settings_json) as [m|]; [|apply gives_done; by left].
  intros [path|e]; eexists; split; [done| |done|by left]. right. by exists path.
Qed.

Lemma attempt_ok p n :
  always (attempt p n) (attempt_post (p_prompt p) (started_as p) attempt_ended n).
Proof.
  apply always_bind. eapply always_mono, (always_and _ _ _ (only_hooks_args (p_hooks p)) (hooks_args_shape (p_hooks p))).
  intros tr o [Htr (settings & -> & Hs)].
  apply quiet_calls in Htr as [(Q1 & Q2 & Q3 & Q4 & Q5 & Q6 & Q7) Q8].
  eapply always_mono, run_single_attempt_spec. intros tr' o ((E1 & E2 & E3 & E4 & E5) & Ho).
  eexists. split_and!; [by exists settings| |].
  - split_and!.
    + by rewrite spawned_app, Q1, E1.
    + by rewrite slept_app, Q2, E2.
    + by rewrite yielded_app, Q8, E3.
    + unfold written in *. by rewrite omap_app, Q3.
    + apply calm_app; [done|]. by rewrite Q6.
  - destruct o as [[cs|e]|]; [|done..]. destruct Ho as (bs & taken & Ho & He & Hp & Hm & Hc).
    exists bs, taken. split_and!; [| |done|done|].
    + unfold outputs in *. by rewrite omap_app, Q4, Ho.
    + unfold exits in *. by rewrite omap_app, Q5, He.
    + by rewrite seen_cancelled_app, Q6.
Qed.

Lemma cancelled_final msg : fst (on_error msg true) = false.
Proof. unfold on_error, classify_and_enrich_error. by destruct (contains _ _). Qed.

(** The messages of warnings, and then the attempts of some program. *)
Definition is_warnings (ws : list MessageChunk) : Prop := exists warnings, ws = map warning_chunk warnings.
Definition prepared_for (prompt cwd : str) (p : Prepared) : Prop := p_prompt p = prompt /\ p_cwd p = cwd.
Definition query_post (base : N) (prompt cwd : str) : agent_trace -> outcome unit -> Prop :=
  query_some_in on_error base prompt (eq []) (prepared_for prompt cwd) started_as (fun _ => attempt_ended) is_warnings.

(** C24: The attempts of a query.  The program is started at most four times, each time as
    the same program with the same arguments, environment and directory, save for the
    file of the hooks, and is handed nothing but the prompt; the pauses between two starts
    double.  Once the query was found cancelled, nothing is started and nothing waited
    for.  What is yielded is warnings, and then the messages of what the last attempt
    printed, which ended with code 0: of all of it, unless that attempt found the query
    cancelled; nothing when that attempt failed, when the query was cancelled, or when it
    cannot be tried. *)
Theorem query_attempts (base : N) (prompt cwd : str) (resume : option str) (options : option SendQueryOptions) :
  always (send_query base prompt cwd resume options) (query_post base prompt cwd).
Proof.
  set (t0 := mk_Prepared [] [] None ∅ cwd prompt 0).
  assert (Hok : prepared_for prompt cwd t0) by done.
  assert (Hnil : is_warnings []) by (by exists []).
  assert (Hstop : always (Done tt) (query_post base prompt cwd)).
  { apply query_some_in_nil; [done|]. by apply (query_some_refused _ _ _ _ _ _ _ t0 Hok []). }
  unfold query_post. apply (query_some_bind _ _ _ _ _ _ _ t0 Hok); [apply only_resolve|done|].
  intros [cli_path|e]; [|exact Hstop].
  apply (query_some_bind _ _ _ _ _ _ _ t0 Hok); [apply only_build_env|done|]. intros env.
  apply (query_some_bind _ _ _ _ _ _ _ t0 Hok); [apply only_load_node_mcp|done|].
  intros [[names missing]|e]; [|exact Hstop]. cbv beta iota zeta.
  match goal with |- context [yield_all (map warning_chunk ?l)] => set (warnings := l) end.
  eapply always_mono; [intros tr o Hq; exists (map warning_chunk warnings); split; [by exists warnings|exact Hq]|].
  apply query_some_yield. apply (query_some_quiet _ _ _ _ _ _ _ t0 Hok); [apply only_start_native_tools|].
  intros path. eapply query_some_attempts; [|apply attempt_ok|apply cancelled_final]. done.
Qed.

(** *** A query that goes well *)

(** The environment is Unicode, the query is not cancelled, the program starts, prints the
    values [vs] one to a line, however its output is cut, and ends with code 0. *)
Definition goes_well (vs : list value) (e : event agent_call) : Prop :=
  match e with
  | mk_event c r =>
      match c return response c -> Prop with
      | EnvVars => fun r => is_Some r
      | IsCancelled => fun r => r = false
      | SpawnAgent _ _ _ _ | WriteStdin _ => fun r => r = Ok tt
      | Stdout _ => fun r => exists chunks, r = Some (map Ok chunks) /\ concat chunks = flat_map print_line vs
      | ExitCode => fun r => r = 0%Z
      | _ => fun _ => True
      end r
  end.

Lemma stderr_context_gives W : gives_if W stderr_context (fun _ => True).
Proof.
  eapply gives_if_bind; [apply (gives_if_ask _ StderrLines)|]. intros lines _. by apply gives_if_done.
Qed.
Lemma check_exit_well vs cs : gives_if (goes_well vs) (check_exit cs) is_ok.
Proof.
  eapply gives_if_bind; [apply stderr_context_gives|]. intros ctx _.
  eapply gives_if_bind; [apply (gives_if_ask _ ExitCode)|]. intros code Hc. apply gives_if_done.
  cbn in Hc. rewrite Hc. by exists cs.
Qed.
Lemma read_items_well vs ws acc cs :
  messages (map Ok ws) = Ret cs -> gives_if (goes_well vs) (read_items (map Ok ws) acc) is_ok.
Proof.
  revert acc cs. induction ws as [|w ws IH]; intros acc cs Hm; [apply gives_if_done; by exists acc|].
  cbn [map] in Hm. rewrite messages_cons in Hm.
  destruct (value_messages w) as [a|] eqn:Ea; [|done]. cbn [mbind outcome_bind] in Hm.
  destruct (messages (map Ok ws)) as [b|]; [|done].
  eapply gives_if_bind; [apply (gives_if_ask _ IsCancelled)|]. intros c Hc. cbn in Hc. subst c. cbn iota.
  rewrite Ea. by apply (IH (acc ++ a) b).
Qed.
Lemma read_output_well vs cs :
  messages (map Ok vs) = Ret cs -> gives_if (goes_well vs) (read_output (map Ok vs)) is_ok.
Proof.
  intros Hm. assert (Hrest : forall ws acc cs, messages (map Ok ws) = Ret cs ->
    gives_if (goes_well vs) (chunks ←? read_items (map Ok ws) acc; check_exit chunks) is_ok).
  { intros ws acc cs' Hw. eapply gives_if_bind; [by eapply read_items_well|]. intros r [a ->].
    apply check_exit_well. }
  destruct vs as [|v vs]; [by apply (Hrest [] [] [])|]. cbn [map] in *. rewrite messages_cons in Hm.
  cbn [read_output]. destruct (value_messages v) as [a|]; [|done]. cbn [mbind outcome_bind] in Hm.
  destruct (messages (map Ok vs)) as [b|] eqn:Eb; [|done]. by apply (Hrest vs a b).
Qed.

Lemma run_single_attempt_well vs cs program argv env cwd prompt ms :
  Forall printed_ok vs -> messages (map Ok vs) = Ret cs ->
  gives_if (goes_well vs) (run_single_attempt program argv env cwd prompt ms) (fun r => r = Ok cs).
Proof.
  intros Hvs Hm. assert (Hok : gives_if (goes_well vs) (run_single_attempt program argv env cwd prompt ms) is_ok).
  { eapply gives_if_bind; [apply (gives_if_ask _ (SpawnAgent _ _ _ _))|]. intros r Hr. cbn in Hr. subst r.
    eapply gives_if_bind; [apply (gives_if_ask _ (WriteStdin _))|]. intros r Hr. cbn in Hr. subst r.
    eapply gives_if_bind; [apply (gives_if_ask _ (Stdout _))|]. intros r (chunks & -> & Hc).
    cbn iota. rewrite (ndjson_round_trip_lemma vs) by done. by eapply read_output_well. }
  pose proof (always_and _ _ _ Hok (run_single_attempt_spec program argv env cwd prompt ms)) as Hb.
  eapply always_mono, Hb. intros tr o [Ho [_ He]] Hw. destruct (Ho Hw) as (r & -> & [cs' ->]).
  exists (Ok cs'). split; [done|]. f_equal.
  destruct He as (bs & taken & E1 & _ & _ & Hmsg & Ht).
  assert (Hn : ndjson bs = map Ok vs).
  { assert (Hin : bs ∈ outputs tr) by (rewrite E1; by left).
    apply list_elem_of_omap in Hin as ([c r] & Hin & Hbs). rewrite Forall_forall in Hw. apply Hw in Hin.
    destruct c; try done. cbn in Hin, Hbs. destruct Hin as (chunks & -> & Hc). injection Hbs as <-.
    by apply ndjson_round_trip_lemma. }
  rewrite Ht, Hn, Hm in Hmsg; [by injection Hmsg|].
  apply not_true_is_false. intros (e & Hin & Hc)%existsb_exists. apply bool_decide_eq_true in Hc.
  apply list_elem_of_In in Hin. rewrite Forall_forall in Hw. apply Hw in Hin. destruct e as [c r].
  destruct c; try done. cbn in Hin, Hc. congruence.
Qed.

(** Nothing is started, for want of an executable or of a configuration, or all is read. *)
Definition answered (cs : list MessageChunk) (tr : agent_trace) : Prop :=
  (spawned tr = [] /\ yielded tr = []) \/ exists warnings, read_back (map warning_chunk warnings) cs tr.

Lemma answered_app cs a b :
  spawned a = [] -> slept a = [] -> yielded a = [] -> answered cs b -> answered cs (a ++ b).
Proof. unfold answered, read_back. intros Q1 Q2 Q3. by rewrite spawned_app, slept_app, yielded_app, Q1, Q2, Q3. Qed.

Lemma hooks_well vs hooks : gives_if (goes_well vs) (hooks_args hooks) (fun _ => True).
Proof. apply gives_if_gives. eapply always_mono, hooks_args_shape. intros tr o (s & -> & _). by exists s. Qed.
Lemma done_well {A} vs (a : A) : gives_if (goes_well vs) (Done a) (fun _ => True).
Proof. by apply gives_if_done. Qed.
Lemma env_vars_well vs : gives_if (goes_well vs) env_vars (fun _ => True).
Proof. eapply gives_if_bind; [apply (gives_if_ask _ EnvVars)|]. intros r [m ->]. by apply done_well. Qed.
Lemma path_kind_well vs path : gives_if (goes_well vs) (path_kind path) (fun _ => True).
Proof. apply gives_if_then; [apply gives_if_call|]. intros meta. apply done_well. Qed.
Lemma validate_well vs raw label : gives_if (goes_well vs) (validate_and_expand raw label) (fun _ => True).
Proof.
  apply gives_if_then; [apply path_kind_well|]. intros [| |]; [apply done_well| |apply done_well].
  apply gives_if_then; [apply path_kind_well|]. intros kind. case_bool_decide; apply done_well.
Qed.
Lemma resolve_well vs path binary : gives_if (goes_well vs) (resolve_claude_binary_path path binary) (fun _ => True).
Proof.
  unfold resolve_claude_binary_path. destruct (negb _).
  { apply gives_if_try; [apply validate_well|]. intros r. apply done_well. }
  destruct (negb _); [apply done_well|]. destruct path as [[|c path]|].
  2: { apply gives_if_try; [apply validate_well|]. intros r. apply done_well. }
  all: destruct base_dirs_home; [|apply done_well]; apply gives_if_then; [apply path_kind_well|];
    intros kind; apply done_well.
Qed.
Lemma load_node_mcp_well vs mcp cwd : gives_if (goes_well vs) (load_node_mcp mcp cwd) (fun _ => True).
Proof.
  destruct mcp as [path|]; [|apply done_well]. apply gives_if_then; [apply env_vars_well|]. intros env.
  apply gives_if_try; [|intros loaded; apply done_well].
  apply gives_if_then; [apply gives_if_call|]. intros [raw|e]; apply done_well.
Qed.
Lemma start_native_tools_well vs tools mcp : gives_if (goes_well vs) (start_native_tools tools mcp) (fun _ => True).
Proof.
  unfold start_native_tools. destruct tools as [[|t tools]|]; [apply done_well| |apply done_well].
  destruct (sidecar_new _); [|apply done_well]. apply gives_if_then; [apply gives_if_call|].
  intros [port|e]; [|apply done_well]. apply gives_if_then; [|intros [p|e]; apply done_well].
  apply gives_if_try; [|intros existing; apply gives_if_call].
  destruct mcp; [|apply done_well]. apply gives_if_then; [apply gives_if_call|]. intros raw. apply done_well.
Qed.

(** C25: A query whose program prints the events [vs], and ends well without having been
    cancelled, yields the messages of these events, all and in order, after the warnings;
    one program is started and no pause made.  Nothing is started only where no
    executable was found, or the configuration of the node's servers is refused. *)
Theorem query_reads_back (vs : list value) (cs : list MessageChunk) (base : N) (prompt cwd : str)
    (resume : option str) (options : option SendQueryOptions) :
  Forall printed_ok vs -> messages (map Ok vs) = Ret cs ->
  always (send_query base prompt cwd resume options)
    (fun tr o => Forall (goes_well vs) tr -> o = Ret tt /\ answered cs tr).
Proof.
  intros Hvs Hm. pose proof (answered_app cs) as Happ.
  assert (Hnil : Ret tt = Ret tt /\ answered cs []) by (split; [done|by left]).
  apply well_bind; [apply only_resolve|apply resolve_well|done|]. intros [cli_path|e]; [|intros _; exact Hnil].
  apply well_bind; [|apply gives_if_then; [apply env_vars_well|intros m; apply done_well]|done|].
  { apply only_bind; [apply only_env_vars|]. intros vars. apply only_done. }
  intros env. apply well_bind; [apply only_load_node_mcp|apply load_node_mcp_well|done|].
  intros [[names missing]|e]; [|intros _; exact Hnil].
  cbv beta iota zeta. apply always_bind.
  match goal with |- context [yield_all (map warning_chunk ?l)] => set (ws := l) end.
  eapply always_mono, (always_and _ _ _ (only_yield_all _) (yield_all_yielded (map warning_chunk ws))).
  intros tr o [(Q1 & Q2 & _)%messages_calls [Hy ->]].
  apply (always_mono _ (fun tr' o' => Forall (goes_well vs) tr' -> o' = Ret tt /\ read_back [] cs tr')).
  { intros tr' o' Ho [_ Hw]%Forall_app. destruct (Ho Hw) as [-> (E1 & E2 & E3)]. split; [done|]. right. exists ws.
    unfold read_back. by rewrite spawned_app, slept_app, yielded_app, Q1, Q2, Hy, E3. }
  apply well_bind; [apply only_start_native_tools|apply start_native_tools_well|apply read_back_app|].
  intros path. apply (attempts_well _ _ _ _ _ attempt_ended (attempt_ok _)); [|by intros [|]].
  intros k. eapply gives_if_bind; [apply gives_if_gives, hooks_args_shape|]. intros settings _.
  by apply run_single_attempt_well.
Qed.
End Specs.

(** ** What the hooks say *)

Section HookSpecs.
Context `{SerdeJson}.

Lemma echo_command_quoted response : echo_command response = lit "echo " ++ shell_quote (to_string response).
Proof. reflexivity. Qed.

(** The entry of an event. *)
Definition event_entry (e : str * value) : option (str * value) :=
  matchers ← event_matchers (snd e);
  Some (fst e, Array (map (fun m => HookSettingsEntry_to_value (hook_entry m)) matchers)).

Lemma event_entry_key e e' : event_entry e = Some e' -> fst e' = fst e.
Proof. unfold event_entry. destruct (event_matchers _); [|done]. by intros [= <-]. Qed.

Lemma hooks_block_omap (obj : object) : NoDup (map fst obj) -> hooks_block obj = omap event_entry obj.
Proof.
  intros Hnd. unfold hooks_block. rewrite <- (app_nil_l (omap event_entry obj)).
  assert (Hfresh : forall k, k ∈ map fst obj -> assoc_get k (@nil (str * value)) = None) by done.
  revert Hfresh. generalize (@nil (str * value)) as block. induction obj as [|[ev v] obj IH]; intros block Hf.
  { by rewrite app_nil_r. }
  apply NoDup_cons in Hnd as [Hn Hnd]. cbn [fold_left omap list_omap].
  assert (Ee : event_entry (ev, v) = (matchers ← event_matchers v;
            Some (ev, Array (map (fun m => HookSettingsEntry_to_value (hook_entry m)) matchers)))) by done.
  rewrite Ee. cbn [fst snd]. destruct (event_matchers v) as [ms|]; cbn [mbind option_bind].
  - rewrite index_insert_new by (apply Hf; by left). rewrite IH; [by rewrite <- app_assoc|done|].
    intros k Hk. rewrite assoc_get_app, (Hf k) by (by right). cbn [assoc_get].
    rewrite bool_decide_false; [done|]. intros ->. by apply Hn.
  - apply IH; [done|]. intros k Hk. apply Hf. by right.
Qed.

(** The hooks of a node, as settings of the command line: the events that have
    matchers, in order, each with one entry per matcher, in order; the command of an
    entry is an [echo] of one word that the shell reads back as the response in compact
    JSON, whatever characters it has, and [null] when there is none.  There are no
    settings exactly when no event has a matcher. *)
Theorem hooks_settings_spec (obj : object) :
  NoDup (map fst obj) ->
  build_hooks_settings_json (Object obj)
    = match omap event_entry obj with [] => None | block => Some [key "hooks" (Object block)] end
  /\ forall m, exists word,
       he_hooks (hook_entry m) = [mk_HookCommand (lit "command") (lit "echo " ++ word)]
       /\ sh_read false word = Some (to_string (default Null (value_get (lit "response") m)), []).
Proof.
  intros Hnd. split.
  - unfold build_hooks_settings_json. cbn [as_object mbind option_bind]. by rewrite hooks_block_omap.
  - intros m. exists (shell_quote (to_string (default Null (value_get (lit "response") m)))).
    split; [done|]. pose proof (shell_quote_round_trip_lemma (to_string (default Null (value_get (lit "response") m))) []) as Hs.
    rewrite app_nil_r in Hs. by apply Hs.
Qed.
End HookSpecs.

(** ** Concrete queries *)

Definition ask_user : object :=
  [key "type" (String (lit "assistant"));
   key "message" (Object [key "content" (Array [Object [key "type" (String (lit "text")); key "text" (String (lit "hi"))]])])].
Program Definition provider_docs : SerdeJson := {|
  from_str := @from_str (table_json [(lit "{..}", Object ask_user); (lit "null", Null)]);
  to_string := fun v => match v with Object _ => lit "{..}" | v => @to_string (table_json []) v end;
  number_to_string := @number_to_string (table_json []);
|}.
Solve Obligations with done.
Definition provider_errors : JsonErrors := {| parse_message := fun _ => lit "bad"; str_debug := fun s => s |}.
Definition no_floats : FloatText := fun _ => lit "1.5".

Definition sample_query : agent unit :=
  @send_query provider_docs provider_errors canonical_order ascii_case no_floats backtracking_engine sample_env
    2000 (lit "do it") (lit "/repo") None None.

(** The answers of a host where the executable is in its home directory; its output comes
    in two chunks. *)
Definition printed_chunks : list bytes := [lit "{."; lit ".}" ++ [10%N]].
Definition working : Process.world agent_call := fun past c =>
  match c with
  | EnvVars => Some ∅
  | StatPath _ => Ok StatFile
  | ReadText _ => Err (io.mk_Error io.NotFound [])
  | WriteTempFile _ => Err (lit "no space")
  | StartLoopback => Err (lit "no port")
  | IsCancelled => false
  | Yield _ => tt
  | SpawnAgent _ _ _ _ | WriteStdin _ => Ok tt
  | Stdout _ => Some (map Ok printed_chunks)
  | StderrLines => []
  | ExitCode => 0%Z
  | SleepMs _ => tt
  end.
(** The program fails the first [n] times it is started. *)
Definition failing (n : nat) : Process.world agent_call := fun past c =>
  match c with
  | ExitCode => if bool_decide (length (spawned past) <= n) then 1%Z else 0%Z
  | c => working past c
  end.

(** Two failures, two pauses, and the answer of the third attempt. *)
Example third_time :
  let tr := fst (Process.exec (failing 2) [] sample_query) in
  (length (spawned tr), slept tr, yielded tr) = (3, [2000; 4000]%N, [Assistant (lit "hi") None]).
Proof. by_compute. Qed.

Lemma query_reads_back_witness :
  let '(tr, o) := Process.exec working [] sample_query in
  o = Ret tt /\ answered [Assistant (lit "hi") None] tr.
Proof.
  assert (Hall : forall A (p : agent A) past, Forall (@goes_well provider_docs [Object ask_user]) (fst (Process.exec working past p))).
  { intros A p. induction p as [a| |c k IH]; intros past; [constructor..|]. cbn [Process.exec].
    specialize (IH (working past c) (past ++ [mk_event c (working past c)])).
    destruct (Process.exec working _ (k _)) as [tr o]. constructor; [|exact IH].
    destruct c; try done; [by eexists|]. exists printed_chunks. split; [done|by_compute]. }
  specialize (Hall _ sample_query []).
  pose proof (Process.always_exec _ _ working [] (@query_reads_back provider_docs provider_errors canonical_order
    ascii_case no_floats backtracking_engine sample_env [Object ask_user] [Assistant (lit "hi") None] 2000
    (lit "do it") (lit "/repo") None None
    ltac:(apply Forall_cons_2; [split; [discriminate|split; [apply plain_text; by_compute|by_compute]]|apply Forall_nil_2])
    ltac:(by_compute))) as Hq.
  fold sample_query in Hq. destruct (Process.exec working [] sample_query) as [tr o]. exact (Hq Hall).
Defined.

Lemma hooks_settings_spec_witness :
  @build_hooks_settings_json provider_docs
      (Object [key "Stop" (Array [Object []]); key "PreToolUse" (Array [])])
    = Some [key "hooks" (Object [key "Stop" (Array [HookSettingsEntry_to_value (@hook_entry provider_docs (Object []))])])].
Proof.
  apply (@hooks_settings_spec provider_docs [key "Stop" (Array [Object []]); key "PreToolUse" (Array [])]).
  apply (bool_decide_unpack _). by_compute.
Defined.
