(* ===== verification/CodexCli.v ===== *)
(** * The Codex command line

    [codex/config.rs], [codex/binary_resolver.rs] and [codex/argv.rs] of [har-provider]:
    the defaults of the assistant, the executable, and the arguments it is started with,
    overrides of its configuration among them, which are written as TOML.  The platform is
    Linux on [x86_64] or [aarch64].  [codex/parser.rs]: an event it prints, and the messages
    it gives. *)
From S2P Require Import Prelude StdModel Float64 Json Paths Provider CliStream AgentProc ClaudeCli.

(** ** Defaults ([config.rs]) *)

Inductive ModelReasoningEffort : Type := Minimal | Low | Medium | High | Xhigh.
Inductive WebSearchMode : Type := SearchDisabled | SearchCached | SearchLive.

(** [CodexProviderDefaults]; other keys are never kept. *)
Record CodexProviderDefaults : Type := mk_CodexProviderDefaults {
  xd_model : option str;
  xd_model_reasoning_effort : option ModelReasoningEffort;
  xd_web_search_mode : option WebSearchMode;
  xd_additional_directories : option (list str);
  xd_codex_binary_path : option str;
}.

Definition effort_text (e : ModelReasoningEffort) : str :=
  match e with
  | Minimal => lit "minimal" | Low => lit "low" | Medium => lit "medium" | High => lit "high" | Xhigh => lit "xhigh"
  end.
Definition mode_text (m : WebSearchMode) : str :=
  match m with SearchDisabled => lit "disabled" | SearchCached => lit "cached" | SearchLive => lit "live" end.

(** The value that is written so, of a finite list. *)
Definition read_text {A} (text : A -> str) (all : list A) (s : str) : option A :=
  List.find (fun a => str_eqb s (text a)) all.

Definition parse_codex_config (raw : gmap str value) : CodexProviderDefaults :=
  mk_CodexProviderDefaults
    (raw !! lit "model" ≫= as_str)
    (effort ← raw !! lit "modelReasoningEffort"; s ← as_str effort;
     read_text effort_text [Minimal; Low; Medium; High; Xhigh] s)
    (mode ← raw !! lit "webSearchMode"; s ← as_str mode;
     read_text mode_text [SearchDisabled; SearchCached; SearchLive] s)
    (dirs ← raw !! lit "additionalDirectories"; l ← as_array dirs; Some (omap (M:=list) as_str l))
    (raw !! lit "codexBinaryPath" ≫= as_str).

(** ** The executable ([binary_resolver.rs]) *)

Definition CODEX_BINARY_NAME : str := lit "codex".
Definition CODEX_VENDOR_DIR : str := lit "vendor/codex".

Definition file_exists (path : str) : agent bool :=
  meta ← call (StatPath path); Done match meta with Ok StatFile => true | _ => false end.

Definition codex_env_missing (env_path : str) : str :=
  lit "CODEX_BIN_PATH is set to " ++ in_quotes env_path ++ lit " but the file does not exist." ++ newline
  ++ lit "Please verify the path points to the Codex CLI binary.".
Definition codex_config_missing (config_path : str) : str :=
  lit "assistants.codex.codexBinaryPath is set to " ++ in_quotes config_path ++ lit " but the file does not exist."
  ++ newline ++ lit "Please verify the path in .archon/config.yaml points to the Codex CLI binary.".
Definition codex_not_found : str :=
  join newline
    [lit "Codex CLI binary not found. The Codex provider requires a native binary";
     lit "that cannot be resolved automatically in compiled Archon builds."; [];
     lit "To fix, choose one of:";
     lit "  1. Install globally: npm install -g @openai/codex";
     lit "     Then set: CODEX_BIN_PATH=$(which codex)"; [];
     lit "  2. Place the binary at: ~/.archon/" ++ CODEX_VENDOR_DIR ++ lit "/"; [];
     lit "  3. Set the path in config:"; lit "     # .archon/config.yaml"; lit "     assistants:";
     lit "       codex:"; lit "         codexBinaryPath: /path/to/codex"; []].

Section Resolver.
Context `{ProcessEnvironment}.

Definition codex_is_binary_mode : bool :=
  match env_var (lit "BUNDLED_IS_BINARY") with
  | Some v => str_eqb v (lit "true") || str_eqb v (lit "1")
  | None => false
  end.

(** The home of the resolver: an override is taken as it is. *)
Definition codex_archon_home : str :=
  match env_var (lit "ARCHON_HOME") with
  | Some override_home => override_home
  | None => match base_dirs_home with Some home => path_join home (lit ".archon") | None => lit ".archon" end
  end.

Definition get_autodetect_paths : list str :=
  let home := default (lit "~") base_dirs_home in
  [path_join (path_join (path_join home (lit ".npm-global")) (lit "bin")) (lit "codex"); lit "/usr/local/bin/codex"].

Fixpoint first_existing (paths : list str) : agent (option str) :=
  match paths with
  | [] => Done None
  | path :: paths => found ← file_exists path; if found : bool then Done (Some path) else first_existing paths
  end.

(** A path that is named is used or refused; otherwise the first of the usual ones. *)
Definition resolve_codex_binary_path (config_codex_binary_path : option str) : agent (result str (option str)) :=
  if negb codex_is_binary_mode then Done (Ok None)
  else
    let env_path := default [] (env_var (lit "CODEX_BIN_PATH")) in
    let config_path := default [] config_codex_binary_path in
    if negb (is_empty env_path) then
      found ← file_exists env_path;
      Done (if found : bool then Ok (Some env_path) else Err (codex_env_missing env_path))
    else if negb (is_empty config_path) then
      found ← file_exists config_path;
      Done (if found : bool then Ok (Some config_path) else Err (codex_config_missing config_path))
    else
      let vendor_binary_path := path_join (path_join codex_archon_home CODEX_VENDOR_DIR) CODEX_BINARY_NAME in
      probe ← first_existing (vendor_binary_path :: get_autodetect_paths);
      Done match probe with Some path => Ok (Some path) | None => Err codex_not_found end.
End Resolver.

(** ** TOML ([argv.rs]) *)

(** [char::is_alphanumeric], which knows Unicode. *)
Class Alphanumeric : Type := {
  is_alphanumeric : char -> bool;
  alphanumeric_ascii : forall c, (c < 128)%N -> is_alphanumeric c = is_ascii_alphanumeric c;
}.

Section Toml.
Context `{SerdeJson} `{Alphanumeric}.

Definition format_toml_key (k : str) : str :=
  if forallb (fun c => is_alphanumeric c || (c =? 95)%N || (c =? 45)%N) k then k
  else in_quotes (replace [dquote] [backslash; dquote] (replace [backslash] [backslash; backslash] k)).

Fixpoint to_toml_value (v : value) (path : str) : result str str :=
  match v with
  | String s => Ok (to_string (String s))
  | Number n =>
      match value_as_f64 (Number n) with
      | None => Err (lit "non-finite number at " ++ path)
      | Some f =>
          if f64_is_finite f then Ok (number_to_string n)
          else Err (lit "Codex config override at " ++ path ++ lit " must be a finite number")
      end
  | Bool b => Ok (if b then lit "true" else lit "false")
  | Array arr =>
      parts ← (fix items i arr :=
                 match arr with
                 | [] => Ok []
                 | item :: arr =>
                     part ← to_toml_value item (path ++ lit "[" ++ show_nat i ++ lit "]");
                     parts ← items (S i) arr; Ok (part :: parts)
                 end) 0%nat arr;
      Ok (lit "[" ++ join (lit ", ") parts ++ lit "]")
  | Object obj =>
      parts ← (fix entries obj :=
                 match obj with
                 | [] => Ok []
                 | (k, child) :: obj =>
                     child_val ← to_toml_value child (path ++ lit "." ++ k);
                     parts ← entries obj; Ok ((format_toml_key k ++ lit " = " ++ child_val) :: parts)
                 end) obj;
      Ok (lit "{" ++ join (lit ", ") parts ++ lit "}")
  | Null => Err (lit "Codex config override at " ++ path ++ lit " cannot be null")
  end.

(** One entry of the configuration under its path: a table is walked into, [null] and what
    has no TOML are left out. *)
Fixpoint flatten_value (child : value) (path : str) : list str :=
  match child with
  | Object [] => [path ++ lit "={}"]
  | Object nested =>
      (fix entries obj :=
         match obj with
         | [] => []
         | (k, child) :: obj =>
             (if is_empty k then [] else flatten_value child (path ++ lit "." ++ k)) ++ entries obj
         end) nested
  | Null => []
  | _ => match to_toml_value child path with Ok toml_val => [path ++ lit "=" ++ toml_val] | Err _ => [] end
  end.
Definition flatten_config_overrides (obj : object) (prefix : str) : list str :=
  flat_map (fun e =>
    if is_empty (fst e) then []
    else flatten_value (snd e) (if is_empty prefix then fst e else prefix ++ lit "." ++ fst e)) obj.

(** ** Arguments *)

Definition SANDBOX_MODE : str := lit "danger-full-access".
Definition APPROVAL_POLICY : str := lit "never".

Definition config_flag (kv : str) : list str := [lit "--config"; kv].

Definition build_codex_argv (model : option str) (defaults : CodexProviderDefaults)
    (resume_session_id output_schema_path : option str) (cwd : str) (config_overrides : option value) : list str :=
  [lit "exec"; lit "--experimental-json"]
  ++ match config_overrides with
     | Some (Object obj) => flat_map config_flag (flatten_config_overrides obj [])
     | _ => []
     end
  ++ flag "--model" (or_else model (xd_model defaults))
  ++ [lit "--sandbox"; SANDBOX_MODE; lit "--cd"; cwd]
  ++ flat_map (fun dir => [lit "--add-dir"; dir]) (default [] (xd_additional_directories defaults))
  ++ [lit "--skip-git-repo-check"]
  ++ flag "--output-schema" output_schema_path
  ++ match xd_model_reasoning_effort defaults with
     | Some effort => config_flag (lit "model_reasoning_effort=" ++ in_quotes (effort_text effort))
     | None => []
     end
  ++ config_flag (lit "sandbox_workspace_write.network_access=true")
  ++ match xd_web_search_mode defaults with
     | Some mode => config_flag (lit "web_search=" ++ in_quotes (mode_text mode))
     | None => []
     end
  ++ config_flag (lit "approval_policy=" ++ in_quotes APPROVAL_POLICY)
  ++ match resume_session_id with Some thread_id => [lit "resume"; thread_id] | None => [] end.
End Toml.

(** A path whose key has a dot is that of a table: two configurations are written as one. *)
Example dotted_key `{SerdeJson} `{Alphanumeric} :
  flatten_config_overrides [(lit "a.b", Bool true)] []
    = flatten_config_overrides [(lit "a", Object [(lit "b", Bool true)])] [].
Proof. reflexivity. Qed.

(** * The events of Codex

    [codex/parser.rs] of [har-provider]: what an event of the command line of Codex becomes,
    and the state that is kept from one to the next within an attempt. *)

(** ** State *)

Record CodexStreamState : Type := mk_CodexStreamState {
  cs_last_todo_list_signature : option str;
  cs_accumulated_text : str;
  cs_resolved_thread_id : option str;
  cs_last_non_mcp_error : option str;
}.
Definition state_new (seed_thread_id : option str) : CodexStreamState :=
  mk_CodexStreamState None [] seed_thread_id None.

Definition set_signature (s : str) (st : CodexStreamState) : CodexStreamState :=
  mk_CodexStreamState (Some s) (cs_accumulated_text st) (cs_resolved_thread_id st) (cs_last_non_mcp_error st).
Definition set_text (s : str) (st : CodexStreamState) : CodexStreamState :=
  mk_CodexStreamState (cs_last_todo_list_signature st) s (cs_resolved_thread_id st) (cs_last_non_mcp_error st).
Definition set_thread (s : str) (st : CodexStreamState) : CodexStreamState :=
  mk_CodexStreamState (cs_last_todo_list_signature st) (cs_accumulated_text st) (Some s) (cs_last_non_mcp_error st).
Definition set_error (s : str) (st : CodexStreamState) : CodexStreamState :=
  mk_CodexStreamState (cs_last_todo_list_signature st) (cs_accumulated_text st) (cs_resolved_thread_id st) (Some s).

(** The result of an event: its messages, and whether the stream ends with them. *)
Inductive ParseResult : Type :=
| Chunks (l : list MessageChunk)
| Terminal (c : MessageChunk)
| TerminalWithPreamble (l : list MessageChunk).
Definition is_terminal (r : ParseResult) : bool :=
  match r with Chunks _ => false | Terminal _ | TerminalWithPreamble _ => true end.
Definition into_chunks (r : ParseResult) : list MessageChunk :=
  match r with Chunks l => l | Terminal c => [c] | TerminalWithPreamble l => l end.

(** The result of a turn that failed in some way. *)
Definition error_result (session_id : option str) (subtype : str) (message : str) : MessageChunk :=
  ResultMsg (mk_ResultChunk session_id None None (Some true) (Some subtype) (Some [message]) None None None None).

Definition str_or (k : string) (d : str) (o : object) : str := default d (obj_str k o).
Definition non_empty (s : str) : option str := if is_empty s then None else Some s.
(** A tool that is called and answers at once. *)
Definition tool_pair (name output : str) : list MessageChunk :=
  [Tool name None None; ToolResult name output None].

(** ** Items *)

Section Items.
Context `{SerdeJson}.

Definition todo_item (t : value) : str * bool :=
  (default (lit "(unnamed task)") (v ← value_get (lit "text") t; as_str v),
   default false (v ← value_get (lit "completed") t; as_bool v)).
(** A pair is written as an array of two. *)
Definition todo_signature (normalized : list (str * bool)) : str :=
  to_string (Array (map (fun t => Array [String (fst t); Bool (snd t)]) normalized)).
Definition todo_line (t : str * bool) : str :=
  (if snd t then lit "✅" else lit "⬜") ++ lit " " ++ fst t.

(** A list that is not the last one that was shown. *)
Definition todo_list (item : object) (st : CodexStreamState) : list MessageChunk * CodexStreamState :=
  match assoc_get (lit "items") item with
  | Some (Array ((_ :: _) as items_arr)) =>
      let normalized := map todo_item items_arr in
      let signature := todo_signature normalized in
      if bool_decide (Some signature = cs_last_todo_list_signature st) then ([], st)
      else
        ([System (lit "📋 Tasks:" ++ [10%N] ++ join [10%N] (map todo_line normalized))], set_signature signature st)
  | _ => ([], st)
  end.

Definition file_error_message (item : object) : option str :=
  match assoc_get (lit "error") item with
  | Some (String s) => Some s
  | Some (Object obj) => obj_str "message" obj
  | _ => None
  end.
Definition change_line (c : value) : str :=
  let kind := default [] (v ← value_get (lit "kind") c; as_str v) in
  let path := default (lit "(unknown file)") (v ← value_get (lit "path") c; as_str v) in
  (if str_eqb kind (lit "add") then lit "➕" else if str_eqb kind (lit "delete") then lit "➖" else lit "📝")
  ++ lit " " ++ path.
Definition file_change (item : object) : list MessageChunk :=
  let failed := str_eqb (str_or "status" [] item) (lit "failed") in
  let status_icon := if failed then lit "❌" else lit "✅" in
  match assoc_get (lit "changes") item with
  | Some (Array ((_ :: _) as changes)) =>
      let error_suffix :=
        match file_error_message item with Some e => if failed then [10%N] ++ e else [] | None => [] end in
      [System (status_icon ++ lit " File changes:" ++ [10%N] ++ join [10%N] (map change_line changes) ++ error_suffix)]
  | _ =>
      if failed then
        [System match file_error_message item with
                | Some e => lit "❌ File change failed: " ++ e
                | None => lit "❌ File change failed"
                end]
      else []
  end.

Definition mcp_tool_info (server tool : option str) : str :=
  match server, tool with
  | Some s, Some t => s ++ lit "/" ++ t
  | None, Some t => t
  | Some s, None => s
  | None, None => lit "MCP tool"
  end.
Definition mcp_tool_call (item : object) : list MessageChunk :=
  let name := lit "🔌 MCP: " ++ mcp_tool_info (obj_str "server" item) (obj_str "tool" item) in
  tool_pair name
    (if str_eqb (str_or "status" [] item) (lit "failed") then
       match e ← assoc_get (lit "error") item; o ← as_object e; obj_str "message" o with
       | Some msg => lit "❌ Error: " ++ msg
       | None => lit "❌ Error: MCP tool failed"
       end
     else
       match r ← assoc_get (lit "result") item; o ← as_object r; assoc_get (lit "content") o with
       | Some ((Array _) as content) => to_string content
       | _ => []
       end).

Definition command_execution (item : object) : list MessageChunk :=
  match c ← obj_str "command" item; non_empty c with
  | Some cmd =>
      let exit_suffix :=
        match c ← assoc_get (lit "exit_code") item; value_as_i64 c with
        | Some code => if bool_decide (code = 0%Z) then [] else [10%N] ++ lit "[exit code: " ++ show_Z code ++ lit "]"
        | None => []
        end in
      tool_pair cmd (str_or "aggregated_output" [] item ++ exit_suffix)
  | None => []
  end.

Definition web_search (item : object) : list MessageChunk :=
  match q ← obj_str "query" item; non_empty q with
  | Some query => tool_pair (lit "🔍 Searching: " ++ query) []
  | None => []
  end.

(** [item.completed]. *)
Definition completed_item (item : object) (st : CodexStreamState) (has_output_format : bool)
  : list MessageChunk * CodexStreamState :=
  let item_type := str_or "type" [] item in
  if str_eqb item_type (lit "agent_message") then
    match t ← obj_str "text" item; non_empty t with
    | Some text => ([Assistant text None], if has_output_format then set_text text st else st)
    | None => ([], st)
    end
  else if str_eqb item_type (lit "command_execution") then (command_execution item, st)
  else if str_eqb item_type (lit "reasoning") then
    (match t ← obj_str "text" item; non_empty t with Some text => [Thinking text] | None => [] end, st)
  else if str_eqb item_type (lit "web_search") then (web_search item, st)
  else if str_eqb item_type (lit "todo_list") then todo_list item st
  else if str_eqb item_type (lit "file_change") then (file_change item, st)
  else if str_eqb item_type (lit "mcp_tool_call") then (mcp_tool_call item, st)
  else ([], st).
End Items.

(** ** Events *)

Section Events.
Context `{SerdeJson} `{UnicodeCase}.

Definition extract_usage_from_turn_completed (event : object) : TokenUsage :=
  match u ← assoc_get (lit "usage") event; as_object u with
  | Some usage_obj =>
      mk_TokenUsage (default 0%N (v ← assoc_get (lit "input_tokens") usage_obj; as_u64 v))
        (default 0%N (v ← assoc_get (lit "output_tokens") usage_obj; as_u64 v)) None None
  | None => mk_TokenUsage 0 0 None None
  end.

Definition not_json_warning : MessageChunk :=
  System (lit "⚠️ Structured output requested but Codex returned non-JSON text. Downstream $nodeId.output.field references may not evaluate correctly.").

Definition turn_completed (event : object) (st : CodexStreamState) (has_output_format : bool) : ParseResult :=
  let text := if has_output_format then non_empty (cs_accumulated_text st) else None in
  let structured_output := text ≫= from_str in
  let result := ResultMsg (mk_ResultChunk (cs_resolved_thread_id st) (Some (extract_usage_from_turn_completed event))
                             structured_output None None None None None None None) in
  match text, structured_output with
  | Some _, None => TerminalWithPreamble [not_json_warning; result]
  | _, _ => Terminal result
  end.

Definition parse_codex_event (event : object) (st : CodexStreamState)
    (has_output_format surface_mcp_client_errors : bool) : ParseResult * CodexStreamState :=
  let event_type := str_or "type" [] event in
  if str_eqb event_type (lit "thread.started") then
    (Chunks [], match t ← obj_str "thread_id" event; non_empty t with Some tid => set_thread tid st | None => st end)
  else if str_eqb event_type (lit "item.started") then (Chunks [], st)
  else if str_eqb event_type (lit "error") then
    let message := str_or "message" [] event in
    if contains (lit "mcp client") (to_lowercase message)
    then (Chunks (if surface_mcp_client_errors then [System (lit "⚠️ " ++ message)] else []), st)
    else (Chunks [], set_error message st)
  else if str_eqb event_type (lit "turn.failed") then
    let error_message :=
      default (lit "Unknown error") (e ← assoc_get (lit "error") event; o ← as_object e; obj_str "message" o) in
    (Terminal (error_result (cs_resolved_thread_id st) (lit "codex_turn_failed") error_message), st)
  else if str_eqb event_type (lit "item.completed") then
    match i ← assoc_get (lit "item") event; as_object i with
    | Some item => let '(chunks, st) := completed_item item st has_output_format in (Chunks chunks, st)
    | None => (Chunks [], st)
    end
  else if str_eqb event_type (lit "turn.completed") then (turn_completed event st has_output_format, st)
  else (Chunks [], st).
End Events.

(** ** What an event gives *)

Definition is_result (c : MessageChunk) : bool := match c with ResultMsg _ => true | _ => false end.

(** Messages that end with their only result. *)
Definition ends_in_result (l : list MessageChunk) : Prop :=
  exists pre r, l = pre ++ [ResultMsg r] /\ Forall (fun c => is_result c = false) pre.

Section Specs.
Context `{SerdeJson} `{UnicodeCase}.

Lemma completed_item_no_result item st has_format :
  Forall (fun c => is_result c = false) (fst (completed_item item st has_format)).
Proof.
  unfold completed_item, command_execution, web_search, todo_list, file_change, mcp_tool_call, tool_pair.
  repeat case_match; simplify_eq/=; repeat constructor.
Qed.

(** A result comes with the event that ends a turn, and only then. *)
Lemma parse_codex_event_results event st has_format surface :
  let r := fst (parse_codex_event event st has_format surface) in
  (is_terminal r = true ->
     ends_in_result (into_chunks r)
     /\ (str_or "type" [] event = lit "turn.completed" \/ str_or "type" [] event = lit "turn.failed"))
  /\ (is_terminal r = false -> Forall (fun c => is_result c = false) (into_chunks r)).
Proof.
  cbv zeta. unfold parse_codex_event. set (t := str_or "type" [] event).
  destruct (str_eqb t (lit "thread.started")); [by split|].
  destruct (str_eqb t (lit "item.started")); [by split|].
  destruct (str_eqb t (lit "error")).
  { case_match; [|by split]. split; [done|intros _]. case_match; by repeat constructor. }
  destruct (str_eqb t (lit "turn.failed")) eqn:E4; [apply str_eqb_spec in E4|].
  { split; [|done]. intros _. split; [|by right]. eexists [], _. by split. }
  destruct (str_eqb t (lit "item.completed")).
  { destruct (assoc_get (lit "item") event ≫= as_object) as [item|]; [|by split].
    pose proof (completed_item_no_result item st has_format) as Hi.
    destruct (completed_item item st has_format) as [chunks st']. by split. }
  destruct (str_eqb t (lit "turn.completed")) eqn:E6; [apply str_eqb_spec in E6|by split].
  split; [|by unfold turn_completed; repeat case_match].
  intros _. split; [|by left]. unfold turn_completed, ends_in_result.
  repeat case_match; cbn [fst into_chunks]; first [ eexists [_], _; split; [reflexivity|by repeat constructor] | eexists [], _; by split ].
Qed.
End Specs.
