(* ===== verification/CodexSchema.v ===== *)
(** * What Codex is configured with

    Two conversions of [codex/provider.rs] of [har-provider]: the schema of an answer,
    which the strict mode of the service only takes when every object in it is closed, and
    the servers of a node, as overrides of the configuration. *)

From S2P Require Import Prelude Json.

(** ** Schemas *)

Definition is_object_schema_node (node : object) : bool :=
  match assoc_get (lit "type") node with
  | Some (String s) => str_eqb s (lit "object")
  | Some (Array arr) => existsb (fun v => bool_decide (as_str v = Some (lit "object"))) arr
  | _ => false
  end || bool_decide (is_Some (assoc_get (lit "properties") node)).

Definition additionalProperties : str := lit "additionalProperties".

(** The keys of an object are distinct: its entries are inserted one after the other. *)
Fixpoint normalize_node (v : value) : value :=
  match v with
  | Array arr => Array (map normalize_node arr)
  | Object obj =>
      let result := map (fun e => (fst e, normalize_node (snd e))) obj in
      Object (if is_object_schema_node result then index_insert additionalProperties (Bool false) result else result)
  | other => other
  end.
Definition normalize_json_schema_for_openai_strict (schema : object) : object :=
  match normalize_node (Object schema) with Object m => m | _ => schema end.

Definition is_false (v : value) : bool := match v with Bool false => true | _ => false end.
Fixpoint has_open_additional_properties (schema : value) : bool :=
  match schema with
  | Array arr => existsb has_open_additional_properties arr
  | Object obj =>
      (is_object_schema_node obj
       && match assoc_get additionalProperties obj with Some ap => negb (is_false ap) | None => false end)
      || existsb (fun e => has_open_additional_properties (snd e)) obj
  | _ => false
  end.

(** What is written to the file of the schema. *)
Definition schema_text `{SerdeJson} (schema : value) : str :=
  to_string match schema with
            | Object obj => Object (normalize_json_schema_for_openai_strict obj)
            | _ => normalize_node schema
            end.

(** ** Servers *)

Definition CODEX_MCP_PASSTHROUGH_KEYS : list str :=
  map lit ["command"; "args"; "env"; "url"; "enabled"; "required"; "startup_timeout_sec"; "startup_timeout_ms";
           "tool_timeout_sec"; "enabled_tools"; "disabled_tools"; "supports_parallel_tool_calls"; "cwd"; "env_vars";
           "experimental_environment"; "http_headers"; "env_http_headers"; "oauth_resource"; "scopes";
           "bearer_token_env_var"; "default_tools_approval_mode"; "tools"]%string.

(** A value without the [null]s in it. *)
Fixpoint to_codex_config_value (v : value) : option value :=
  match v with
  | String _ | Number _ | Bool _ => Some v
  | Array arr => Some (Array (omap to_codex_config_value arr))
  | Object obj =>
      Some (Object (omap (fun e => match to_codex_config_value (snd e) with
                                   | Some converted => Some (fst e, converted)
                                   | None => None
                                   end) obj))
  | Null => None
  end.

Definition converted_key (server_config : object) (k : str) : option value :=
  val ← assoc_get k server_config; to_codex_config_value val.

Definition convert_mcp_server_config_for_codex (server_config : object) : object :=
  let result := flat_map (fun k => match converted_key server_config k with
                                   | Some converted => [(k, converted)]
                                   | None => []
                                   end) CODEX_MCP_PASSTHROUGH_KEYS in
  match assoc_get (lit "http_headers") result, converted_key server_config (lit "headers") with
  | None, Some converted => index_insert (lit "http_headers") converted result
  | _, _ => result
  end.

Definition build_codex_mcp_config_overrides (servers : object) : option value :=
  match omap (fun e =>
          match snd e with
          | Object obj =>
              match convert_mcp_server_config_for_codex obj with
              | [] => None
              | converted => Some (fst e, Object converted)
              end
          | _ => None
          end) servers with
  | [] => None
  | mcp_servers => Some (Object [(lit "mcp_servers", Object mcp_servers)])
  end.

(** ** Closed schemas *)

Lemma Forall_id_map {A} (f : A -> Prop) l : Forall id (map f l) <-> (forall a, a ∈ l -> f a).
Proof.
  rewrite Forall_forall. split; intros Hf; [intros a Ha; apply (Hf (f a)), list_elem_of_In, in_map, list_elem_of_In, Ha|].
  intros P (a & <- & Ha)%list_elem_of_In%in_map_iff. by apply Hf, list_elem_of_In.
Qed.

(** Every object schema in a value says that it takes no other properties. *)
Fixpoint closed (v : value) : Prop :=
  match v with
  | Array arr => Forall id (map closed arr)
  | Object obj =>
      (is_object_schema_node obj = true -> assoc_get additionalProperties obj = Some (Bool false))
      /\ Forall id (map (fun e => closed (snd e)) obj)
  | _ => True
  end.

Section Entries.
Context (f : value -> value).
#[local] Abbreviation on_values := (map (fun e => (fst e, f (snd e)))).

Lemma assoc_get_map k (o : object) : assoc_get k (on_values o) = option_map f (assoc_get k o).
Proof. induction o as [|[k' v] o IH]; cbn; [done|]. by case_bool_decide. Qed.
Lemma map_index_insert k v (o : object) : on_values (index_insert k v o) = index_insert k (f v) (on_values o).
Proof. induction o as [|[k' v'] o IH]; cbn; [done|]. case_bool_decide; cbn; [done|]. by rewrite IH. Qed.
End Entries.

Lemma index_insert_same {V} k (v : V) o : assoc_get k o = Some v -> index_insert k v o = o.
Proof.
  induction o as [|[k' v'] o IH]; cbn; [done|]. case_bool_decide as E; [by intros [= ->]; subst|].
  intros H. by rewrite IH.
Qed.
Lemma index_insert_Forall {V} (P : str * V -> Prop) k v o : P (k, v) -> Forall P o -> Forall P (index_insert k v o).
Proof.
  intros Hv. induction 1 as [|[k' v'] o He Ho IH]; cbn; [by constructor|]. case_bool_decide as E; [subst k'|]; by constructor.
Qed.

Lemma as_str_normalize v : as_str (normalize_node v) = as_str v.
Proof. by destruct v. Qed.

(** Neither the values of an object nor the added entry change what kind of node it is. *)
Lemma node_normalized o : is_object_schema_node (map (fun e => (fst e, normalize_node (snd e))) o) = is_object_schema_node o.
Proof.
  unfold is_object_schema_node. rewrite !assoc_get_map. f_equal.
  - destruct (assoc_get (lit "type") o) as [[| | | |l|]|]; try reflexivity. cbn [option_map normalize_node].
    induction l as [|v l IH]; cbn [map existsb]; [done|]. by rewrite as_str_normalize, IH.
  - apply bool_decide_ext. by destruct (assoc_get (lit "properties") o).
Qed.
Lemma node_inserted o : is_object_schema_node (index_insert additionalProperties (Bool false) o) = is_object_schema_node o.
Proof.
  unfold is_object_schema_node. rewrite !index_insert_get.
  replace (bool_decide (lit "type" = additionalProperties)) with false by by_compute.
  by replace (bool_decide (lit "properties" = additionalProperties)) with false by by_compute.
Qed.

Lemma normalize_closed v : closed (normalize_node v).
Proof.
  induction v as [| | | |l IH|o IH] using value_nested_ind; try done.
  - cbn [normalize_node closed]. by apply Forall_map, Forall_map.
  - cbn [normalize_node]. set (result := map _ o).
    assert (Hr : Forall id (map (fun e => closed (snd e)) result)).
    { unfold result. by apply Forall_map, Forall_map. }
    destruct (is_object_schema_node result) eqn:E; cbn [closed].
    + split; [intros _; by rewrite index_insert_get, bool_decide_true|].
      apply Forall_map, index_insert_Forall; [exact I|]. exact (proj1 (Forall_map _ _ _) Hr).
    + split; [by rewrite E|done].
Qed.

Lemma closed_not_open v : closed v -> has_open_additional_properties v = false.
Proof.
  induction v as [| | | |l IH|o IH] using value_nested_ind; try done; cbn [closed has_open_additional_properties].
  - intros Hc. rewrite Forall_id_map in Hc. apply not_true_is_false. intros (v & Hin & Hv)%existsb_exists.
    rewrite Forall_forall in IH. apply list_elem_of_In in Hin. by rewrite (IH _ Hin (Hc _ Hin)) in Hv.
  - intros [Hn Hc]. rewrite Forall_id_map in Hc. apply orb_false_iff. split.
    + destruct (is_object_schema_node o); [|done]. by rewrite Hn.
    + apply not_true_is_false. intros (e & Hin & Hv)%existsb_exists.
      rewrite Forall_forall in IH. apply list_elem_of_In in Hin. by rewrite (IH _ Hin (Hc _ Hin)) in Hv.
Qed.

(** What is closed already stays as it is. *)
Lemma closed_normalize v : closed v -> normalize_node v = v.
Proof.
  induction v as [| | | |l IH|o IH] using value_nested_ind; try done; cbn [closed normalize_node].
  - intros Hc. rewrite Forall_id_map in Hc. f_equal. rewrite <- (map_id l) at 2. apply map_ext_Forall.
    rewrite Forall_forall in *. intros v Hin. exact (IH _ Hin (Hc _ Hin)).
  - intros [Hn Hc]. rewrite Forall_id_map in Hc.
    assert (Ho : map (fun e => (fst e, normalize_node (snd e))) o = o).
    { rewrite <- (map_id o) at 2. apply map_ext_Forall. rewrite Forall_forall in *. intros [k v] Hin.
      cbn. f_equal. exact (IH _ Hin (Hc _ Hin)). }
    rewrite Ho. destruct (is_object_schema_node o) eqn:E; [|done]. by rewrite index_insert_same by (by apply Hn).
Qed.

(** The schema that is written for the strict mode is closed: every object schema in
    it, however deep, says that it takes no other properties, and the check for open ones
    finds none.  Closing changes nothing else: the entries of an object keep their keys
    and order, with their values closed, save for the one that is set; a schema that is
    closed stays as it is, so closing twice is closing once. *)
Theorem strict_schema_closed (v : value) :
  closed (normalize_node v) /\ has_open_additional_properties (normalize_node v) = false
  /\ (closed v -> normalize_node v = v) /\ normalize_node (normalize_node v) = normalize_node v
  /\ forall o, v = Object o ->
       exists o', normalize_node v = Object o'
         /\ map fst o' = (if is_object_schema_node o && negb (bool_decide (additionalProperties ∈ map fst o))
                          then map fst o ++ [additionalProperties] else map fst o)
         /\ forall k, k <> additionalProperties \/ is_object_schema_node o = false ->
              assoc_get k o' = option_map normalize_node (assoc_get k o).
Proof.
  split_and!; [apply normalize_closed|apply closed_not_open, normalize_closed|apply closed_normalize
              |apply closed_normalize, normalize_closed|].
  intros o ->. cbn [normalize_node]. rewrite node_normalized. eexists. split; [done|].
  assert (Hk : map fst (map (fun e => (fst e, normalize_node (snd e))) o) = map fst o) by (by rewrite map_map).
  destruct (is_object_schema_node o); cbn [andb].
  - split; [rewrite index_insert_keys, Hk; by case_bool_decide|].
    intros k [Hne|]; [|done]. by rewrite index_insert_get, bool_decide_false, assoc_get_map.
  - split; [done|]. intros k _. apply assoc_get_map.
Qed.

(** A table of properties that has one called [properties] is taken for a schema itself,
    and gets a property of its own. *)
Example property_named_properties :
  let text := Object [(lit "type", String (lit "string"))] in
  normalize_json_schema_for_openai_strict
    [(lit "type", String (lit "object")); (lit "properties", Object [(lit "properties", text)])]
  = [(lit "type", String (lit "object"));
     (lit "properties", Object [(lit "properties", text); (additionalProperties, Bool false)]);
     (additionalProperties, Bool false)].
Proof. by_compute. Qed.

(** ** What the servers become *)

(** No [null] anywhere. *)
Fixpoint no_null (v : value) : Prop :=
  match v with
  | Null => False
  | Array arr => Forall id (map no_null arr)
  | Object obj => Forall id (map (fun e => no_null (snd e)) obj)
  | _ => True
  end.

Lemma config_value_no_null v v' : to_codex_config_value v = Some v' -> no_null v'.
Proof.
  revert v'. induction v as [| | | |l IH|o IH] using value_nested_ind; intros v' E; try (by injection E as <-); [done| |];
    injection E as <-; cbn [no_null]; apply Forall_id_map; rewrite Forall_forall in IH.
  - intros a (v & Hin & Ev)%list_elem_of_omap. by eapply IH.
  - intros [k a] ([k' v] & Hin & Ev)%list_elem_of_omap. cbn [fst snd] in *.
    destruct (to_codex_config_value v) as [c|] eqn:Ec; [|done]. injection Ev as <- <-. by apply (IH (k', v)).
Qed.
Lemma config_value_same v : no_null v -> to_codex_config_value v = Some v.
Proof.
  induction v as [| | | |l IH|o IH] using value_nested_ind; try done; cbn [no_null to_codex_config_value];
    rewrite Forall_id_map; intros Hn; do 2 f_equal; rewrite Forall_forall in IH.
  - induction l as [|v l IHl]; [done|]. cbn. rewrite (IH v) by (try apply Hn; by left).
    f_equal. apply IHl; intros a Ha; [apply IH|apply Hn]; by right.
  - induction o as [|[k v] o IHo]; [done|]. cbn.
    assert (Ev : to_codex_config_value v = Some v) by (apply (IH (k, v)); [by left|apply (Hn (k, v)); by left]).
    rewrite Ev.
    f_equal. apply IHo; intros a Ha; [apply IH|apply Hn]; by right.
Qed.

(** Servers whose keys are distinct, as those of an object are. *)
Definition converted_server (server converted : object) : Prop :=
  converted <> [] /\ no_null (Object converted)
  /\ (forall k, k ∈ map fst converted -> k ∈ CODEX_MCP_PASSTHROUGH_KEYS)
  /\ (forall k, k ∈ CODEX_MCP_PASSTHROUGH_KEYS -> k <> lit "http_headers" ->
        assoc_get k converted = converted_key server k)
  /\ assoc_get (lit "http_headers") converted =
       match converted_key server (lit "http_headers") with
       | Some headers => Some headers
       | None => converted_key server (lit "headers")
       end.

Section Picked.
Context (f : str -> option value).
#[local] Abbreviation picked := (flat_map (fun k => match f k with Some v => [(k, v)] | None => [] end)).

Lemma assoc_get_picked keys k :
  assoc_get k (picked keys) = (if bool_decide (k ∈ keys) then f k else None).
Proof.
  induction keys as [|k' keys IH]; [done|]. cbn [flat_map]. rewrite assoc_get_app, IH.
  destruct (decide (k = k')) as [->|Hne].
  - rewrite (bool_decide_true (k' ∈ k' :: keys)) by (by left). destruct (f k') as [v|] eqn:E; cbn [assoc_get].
    + by rewrite bool_decide_true.
    + case_bool_decide; [done|done].
  - assert (assoc_get k match f k' with Some v => [(k', v)] | None => [] end = None) as ->.
    { destruct (f k'); cbn [assoc_get]; [by rewrite bool_decide_false|done]. }
    destruct (decide (k ∈ keys)) as [Hin|Hin].
    + rewrite !bool_decide_true; [done|by right|done].
    + rewrite !bool_decide_false; [done| |done]. by intros [->|]%elem_of_cons.
Qed.
Lemma picked_elem keys k v : (k, v) ∈ picked keys -> k ∈ keys /\ f k = Some v.
Proof.
  intros (k' & Hk & Hin)%list_elem_of_In%in_flat_map. destruct (f k') as [v'|] eqn:E; [|done].
  destruct Hin as [[= -> ->]|[]]. split; [by apply list_elem_of_In|done].
Qed.
End Picked.

Lemma converted_key_no_null server k v : converted_key server k = Some v -> no_null v.
Proof.
  unfold converted_key. destruct (assoc_get k server); [|done]. apply config_value_no_null.
Qed.

Definition passed_keys (server : object) : object :=
  flat_map (fun k => match converted_key server k with Some converted => [(k, converted)] | None => [] end)
    CODEX_MCP_PASSTHROUGH_KEYS.

Lemma http_headers_passed : lit "http_headers" ∈ CODEX_MCP_PASSTHROUGH_KEYS.
Proof. apply (bool_decide_unpack _). by_compute. Qed.

(** What holds of the keys that are passed, and of [headers] under its new name. *)
Lemma convert_server_spec server :
  let converted := convert_mcp_server_config_for_codex server in
  no_null (Object converted)
  /\ (forall k, k ∈ map fst converted -> k ∈ CODEX_MCP_PASSTHROUGH_KEYS)
  /\ (forall k, k ∈ CODEX_MCP_PASSTHROUGH_KEYS -> k <> lit "http_headers" ->
        assoc_get k converted = converted_key server k)
  /\ assoc_get (lit "http_headers") converted =
       match converted_key server (lit "http_headers") with
       | Some headers => Some headers
       | None => converted_key server (lit "headers")
       end.
Proof.
  cbv zeta. unfold convert_mcp_server_config_for_codex. fold (passed_keys server).
  assert (Hn : Forall (fun e => no_null (snd e)) (passed_keys server)).
  { apply Forall_forall. intros [k v] [_ Hv]%picked_elem. by eapply converted_key_no_null. }
  assert (Hk : forall k, k ∈ map fst (passed_keys server) -> k ∈ CODEX_MCP_PASSTHROUGH_KEYS).
  { intros k ([k' v] & <- & [Hin _]%list_elem_of_In%picked_elem)%list_elem_of_In%in_map_iff. done. }
  assert (Hg : forall k, k ∈ CODEX_MCP_PASSTHROUGH_KEYS -> assoc_get k (passed_keys server) = converted_key server k).
  { intros k Hin. unfold passed_keys. by rewrite assoc_get_picked, bool_decide_true. }
  rewrite (Hg _ http_headers_passed).
  destruct (converted_key server (lit "http_headers")) as [h|] eqn:E.
  { split_and!; [by apply Forall_map|done|by intros k Hin _; apply Hg|]. by rewrite (Hg _ http_headers_passed). }
  destruct (converted_key server (lit "headers")) as [h|] eqn:Eh.
  - split_and!.
    + apply Forall_map, index_insert_Forall; [by eapply converted_key_no_null|done].
    + intros k. rewrite index_insert_keys. case_bool_decide; [apply Hk|].
      intros [Hin|Hin]%elem_of_app; [by apply Hk|]. apply list_elem_of_singleton in Hin as ->. apply http_headers_passed.
    + intros k Hin Hne. by rewrite index_insert_get, bool_decide_false, Hg.
    + by rewrite index_insert_get, bool_decide_true.
  - split_and!; [by apply Forall_map|done|by intros k Hin _; apply Hg|]. by rewrite (Hg _ http_headers_passed).
Qed.

(** The servers of a node as overrides for Codex: an override for each server that has
    something to pass, in their order, and no override at all when none has.  A server is
    passed with the keys Codex knows and no others, its headers under Codex's name unless
    they are there already; no [null] is left in it, and what has none is passed as it is. *)
Theorem codex_servers_spec (servers : object) :
  match build_codex_mcp_config_overrides servers with
  | None => forall name server, (name, Object server) ∈ servers -> convert_mcp_server_config_for_codex server = []
  | Some overrides =>
      exists converted, overrides = Object [(lit "mcp_servers", Object converted)] /\ converted <> []
        /\ Forall (fun e => exists server c, (fst e, Object server) ∈ servers /\ snd e = Object c
             /\ converted_server server c) converted
  end
  /\ (forall v, no_null v -> to_codex_config_value v = Some v).
Proof.
  split; [|apply config_value_same]. unfold build_codex_mcp_config_overrides.
  match goal with |- context [omap ?g servers] => set (f := g) end.
  assert (Hf : forall e e', f e = Some e' -> exists server c, snd e = Object server /\ e' = (fst e, Object c)
             /\ converted_server server c).
  { intros [name v] e' E. unfold f in E. cbn [fst snd] in E. destruct v as [| | | | |server]; try done.
    pose proof (convert_server_spec server) as Hc. cbv zeta in Hc.
    destruct (convert_mcp_server_config_for_codex server) as [|x c] eqn:Ec; [done|]. injection E as <-.
    eexists _, _. split_and!; [done|done|]. by split. }
  destruct (omap f servers) as [|x converted] eqn:E.
  - intros name server Hin. destruct (convert_mcp_server_config_for_codex server) as [|y c] eqn:Ec; [done|].
    exfalso. assert (Hx : (name, Object (y :: c)) ∈ omap f servers).
    { apply list_elem_of_omap. eexists. split; [exact Hin|]. unfold f. cbn [fst snd]. by rewrite Ec. }
    rewrite E in Hx. by apply elem_of_nil in Hx.
  - eexists. split_and!; [done..|]. apply Forall_forall. intros e He. rewrite <- E in He.
    apply list_elem_of_omap in He as ([name v] & Hin & Hfe). apply Hf in Hfe as (server & c & Hs & -> & Hc).
    cbn [fst snd] in *. subst v. by exists server, c.
Qed.
