(* ===== verification/CodexProvider.v ===== *)
(** * The Codex provider

    [codex/provider.rs] of [har-provider]: a query, from its options to its result.  The
    loop of attempts is the one of [AgentRetry]; an attempt reads the events of the command
    line up to the one that ends the turn, and a query that fails ends with a result that
    says so. *)

From S2P Require Import Prelude StdModel Float64 Json Regex Paths Provider CliStream AgentProc.
From S2P Require Import AgentRetry McpConfig ClaudeCli CodexCli CodexSchema.

(** ** Errors *)

Inductive CodexErrorClass : Type := CodexRateLimit | CodexAuth | CodexCrash | CodexModelAccess | CodexUnknown.
#[export] Instance CodexErrorClass_eq_dec : EqDecision CodexErrorClass.
Proof. solve_decision. Defined.
Definition CodexErrorClass_display (c : CodexErrorClass) : str :=
  match c with
  | CodexRateLimit => lit "rate_limit"
  | CodexAuth => lit "auth"
  | CodexCrash => lit "crash"
  | CodexModelAccess => lit "model_access"
  | CodexUnknown => lit "unknown"
  end.

Definition CODEX_CRASH_PATTERNS : list string := ["exited with code"; "killed"; "signal"; "codex exec"]%string.
Definition CODEX_MODEL_FALLBACKS : list (str * str) := [(lit "gpt-5.3-codex", lit "gpt-5.2-codex")].

Section Errors.
Context `{UnicodeCase}.

Definition is_model_access_error (error_message : str) : bool :=
  let m := to_lowercase error_message in
  contains (lit "model") m && mentions ["not available"; "not found"; "access denied"]%string m.

Definition classify_codex_error (error_message : str) : CodexErrorClass :=
  let m := to_lowercase error_message in
  if is_model_access_error error_message then CodexModelAccess
  else if mentions RATE_LIMIT_PATTERNS m then CodexRateLimit
  else if mentions AUTH_PATTERNS m then CodexAuth
  else if mentions CODEX_CRASH_PATTERNS m then CodexCrash
  else CodexUnknown.

Definition build_model_access_message (model : option str) : str :=
  let normalized_model := m ← model; non_empty (trim m) in
  let suggested := m ← normalized_model; assoc_get m CODEX_MODEL_FALLBACKS in
  let fix_line :=
    match suggested with
    | Some sug =>
        join newline [lit "To fix: update your model in ~/.archon/config.yaml:"; lit "  assistants:"; lit "    codex:";
                      lit "      model: " ++ sug]
    | None => lit "To fix: update your model in ~/.archon/config.yaml to one your account can access."
    end in
  let workflow_line :=
    match suggested with
    | Some sug => lit "Or set it per-workflow with `model: " ++ sug ++ lit "` in workflow YAML."
    | None => lit "Or set it per-workflow with a valid `model:` in workflow YAML."
    end in
  lit "❌ Model " ++ in_quotes (default (lit "the configured model") normalized_model)
  ++ lit " is not available for your account." ++ newline ++ newline ++ fix_line ++ newline ++ newline ++ workflow_line.

Record EnrichedCodexError : Type := mk_EnrichedCodexError {
  xe_message : str; xe_class : CodexErrorClass; xe_should_retry : bool;
}.
Definition classify_and_enrich_codex_error (error_message : str) (model : option str) : EnrichedCodexError :=
  let error_class := classify_codex_error error_message in
  match error_class with
  | CodexModelAccess => mk_EnrichedCodexError (build_model_access_message model) error_class false
  | CodexAuth => mk_EnrichedCodexError (lit "Codex auth error: " ++ error_message) error_class false
  | _ =>
      mk_EnrichedCodexError
        (lit "Codex " ++ CodexErrorClass_display error_class ++ lit ": " ++ error_message) error_class
        (bool_decide (error_class = CodexRateLimit) || bool_decide (error_class = CodexCrash))
  end.
End Errors.

(** ** One attempt *)

Section Attempt.
Context `{SerdeJson} `{JsonErrors} `{UnicodeCase}.
Context (has_output_format surface_mcp_client_errors : bool).

Definition codex_stderr : agent str := lines ← call StderrLines; Done (join newline lines).

(** The items up to the end of the turn, of the output, or of the query: their messages, the
    state, and whether the turn has ended. *)
Fixpoint read_events (items : list (result StreamError value)) (chunks : list MessageChunk) (st : CodexStreamState)
  : agent (result str (list MessageChunk * CodexStreamState * bool)) :=
  cancelled ← call IsCancelled;
  if cancelled : bool then Done (Ok (chunks, st, false))
  else
    match items with
    | [] => Done (Ok (chunks, st, false))
    | Ok val :: items =>
        match as_object val with
        | Some map =>
            let '(r, st) := parse_codex_event map st has_output_format surface_mcp_client_errors in
            let chunks := chunks ++ into_chunks r in
            if is_terminal r then Done (Ok (chunks, st, true)) else read_events items chunks st
        | None => read_events items chunks st
        end
    | Err (Io e) :: _ =>
        ctx ← codex_stderr;
        Done (Err (lit "I/O reading Codex stdout (stderr: " ++ ctx ++ lit "): " ++ io.text e))
    | Err (ParseError _ _) :: items => read_events items chunks st
    end.

Definition stream_incomplete (st : CodexStreamState) : MessageChunk :=
  error_result (cs_resolved_thread_id st) (lit "codex_stream_incomplete")
    (default (lit "Codex stream closed without turn.completed or turn.failed") (cs_last_non_mcp_error st)).

Definition end_attempt (chunks : list MessageChunk) (st : CodexStreamState) (is_done : bool)
  : agent (result str (list MessageChunk)) :=
  let chunks := if is_done then chunks else chunks ++ [stream_incomplete st] in
  ctx ← codex_stderr;
  code ← call ExitCode;
  Done (if negb (bool_decide (code = 0%Z)) && negb is_done
        then Err (lit "codex exec exited with code " ++ show_Z code
                  ++ (if is_empty ctx then [] else lit " (stderr: " ++ ctx ++ lit ")"))
        else Ok chunks).

Definition run_codex_attempt (program : str) (argv : list str) (env : gmap str str) (cwd prompt : str)
    (seed_thread_id : option str) : agent (result str (list MessageChunk)) :=
  outcome ← call (SpawnAgent program argv env cwd);
  match outcome with
  | Err e => Done (Err (lit "spawn failed: " ++ io.text e))
  | Ok _ =>
      written ← call (WriteStdin prompt);
      match written with
      | Err e => Done (Err (lit "stdin write failed: " ++ io.text e))
      | Ok _ =>
          stdout ← call (Stdout None);
          read ←? read_events (ndjson (default [] stdout)) [] (state_new seed_thread_id);
          let '(chunks, st, is_done) := read in end_attempt chunks st is_done
      end
  end.
End Attempt.

(** ** The query *)

Section Query.
Context `{SerdeJson} `{JsonErrors} `{UnicodeCase} `{Alphanumeric} `{RegexEngine}
  `{ProcessEnvironment}.

(** The variables that a configuration of servers may name. *)
Definition build_mcp_env_source (request_env : option (gmap str str)) : agent (gmap str str) :=
  vars ← env_vars; Done (default ∅ request_env ∪ vars).

(** The overrides for the servers of the node, and the variables they miss. *)
Definition load_overrides (mcp_path : option str) (cwd : str) (request_env : option (gmap str str))
  : agent (result str (option value * list str)) :=
  match mcp_path with
  | Some mcp_path =>
      env_source ← build_mcp_env_source request_env;
      loaded ←? load_mcp_config mcp_path cwd env_source;
      Done (Ok (build_codex_mcp_config_overrides (servers loaded), missing_vars loaded))
  | None => Done (Ok (None, []))
  end.

Definition missing_vars_warning (mcp_missing_vars : list str) : list MessageChunk :=
  match mcp_missing_vars with
  | [] => []
  | vars =>
      [System (lit "⚠️ MCP config references undefined env vars: " ++ join (lit ", ") (dedup [] vars)
               ++ lit ". These will be empty strings - MCP servers may fail to authenticate.")]
  end.

(** The file of the schema of the answer; a query goes on without it. *)
Definition write_schema_temp_file (schema : option value) : agent (option str) :=
  match schema with
  | Some schema =>
      file ← call (WriteTempFile (schema_text schema));
      Done match file with Ok path => Some path | Err _ => None end
  | None => Done None
  end.

Definition wants_output_format (options : option SendQueryOptions) : bool :=
  match options with
  | Some o =>
      bool_decide (is_Some (so_output_format o))
      || bool_decide (is_Some (n ← so_node_config o; nc_output_format n))
  | None => false
  end.

(** What the attempts of a query share. *)
Record CodexPrepared : Type := mk_CodexPrepared {
  xp_program : str; xp_argv : option str -> list str; xp_env : gmap str str; xp_cwd : str; xp_prompt : str;
  xp_resume : option str; xp_has_output_format : bool; xp_surface : bool;
}.

(** The first attempt resumes the session, the others start a new one. *)
Definition codex_attempt (p : CodexPrepared) (n : nat) : agent (result str (list MessageChunk)) :=
  let attempt_argv := xp_argv p (if bool_decide (n = 0) then xp_resume p else None) in
  run_codex_attempt (xp_has_output_format p) (xp_surface p) (xp_program p) attempt_argv (xp_env p) (xp_cwd p)
    (xp_prompt p) (xp_resume p).

Definition codex_on_error (model : option str) (err_msg : str) (cancelled : bool) : bool * list MessageChunk :=
  if cancelled then (false, [])
  else
    let enriched := classify_and_enrich_codex_error err_msg model in
    (xe_should_retry enriched, [error_result None (lit "codex_error") (xe_message enriched)]).

Definition send_codex_query (retry_base_delay_ms : N) (prompt cwd : str) (resume_session_id : option str)
    (options : option SendQueryOptions) : agent unit :=
  let codex_config := parse_codex_config (default ∅ (options ≫= so_assistant_config)) in
  let mcp_path := n ← options ≫= so_node_config; nc_mcp n in
  let model := options ≫= so_model in
  loaded ← load_overrides mcp_path cwd (options ≫= so_env);
  match loaded with
  | Err e => yield_all [error_result None (lit "codex_mcp_config_invalid") e]
  | Ok (codex_config_overrides, mcp_missing_vars) =>
      _ ← yield_all (missing_vars_warning mcp_missing_vars);
      binary_path ← resolve_codex_binary_path (xd_codex_binary_path codex_config);
      match binary_path with
      | Err e => yield_all [error_result None (lit "codex_binary_not_found") e]
      | Ok binary_path =>
          aborted ← call IsCancelled;
          if aborted : bool then Done tt
          else
            output_schema_path ← write_schema_temp_file (f ← options ≫= so_output_format; Some (Object (schema f)));
            subprocess_env ← build_subprocess_env (options ≫= so_env);
            let argv resume :=
              build_codex_argv model codex_config resume output_schema_path cwd codex_config_overrides in
            attempts
              (codex_attempt (mk_CodexPrepared (default (lit "codex") binary_path) argv subprocess_env cwd prompt
                                resume_session_id (wants_output_format options) (bool_decide (is_Some mcp_path))))
              (codex_on_error model) retry_base_delay_ms MAX_SUBPROCESS_RETRIES
      end
  end.
End Query.

(** ** What a query does *)

Section Specs.
Context `{SerdeJson} `{JsonErrors} `{UnicodeCase} `{Alphanumeric} `{RegexEngine}
  `{ProcessEnvironment}.

Section Reading.
Context (has_output_format surface : bool).

(** What the lines of an output say, up to the end of the turn: the messages, the state, and
    whether the turn has ended. *)
Fixpoint turn (items : list (result StreamError value)) (chunks : list MessageChunk) (st : CodexStreamState)
  : list MessageChunk * CodexStreamState * bool :=
  match items with
  | [] => (chunks, st, false)
  | Ok v :: items =>
      match as_object v with
      | Some map =>
          let '(r, st) := parse_codex_event map st has_output_format surface in
          if is_terminal r then (chunks ++ into_chunks r, st, true) else turn items (chunks ++ into_chunks r) st
      | None => turn items chunks st
      end
  | Err _ :: items => turn items chunks st
  end.

(** The messages of an attempt that read as much. *)
Definition attempt_messages (read : list MessageChunk * CodexStreamState * bool) : list MessageChunk :=
  let '(chunks, st, is_done) := read in if is_done then chunks else chunks ++ [stream_incomplete st].

Definition no_results (l : list MessageChunk) : Prop := Forall (fun c => is_result c = false) l.

Lemma turn_results items chunks st :
  no_results chunks -> ends_in_result (attempt_messages (turn items chunks st)).
Proof.
  revert chunks st. induction items as [|[v|e] items IH]; intros chunks st Hc; cbn [turn].
  - exists chunks, (mk_ResultChunk (cs_resolved_thread_id st) None None (Some true) (Some (lit "codex_stream_incomplete"))
      (Some [default (lit "Codex stream closed without turn.completed or turn.failed") (cs_last_non_mcp_error st)])
      None None None None). by split.
  - destruct (as_object v) as [m|]; [|by apply IH].
    pose proof (parse_codex_event_results m st has_output_format surface) as [H1' H2']. cbv zeta in *.
    destruct (parse_codex_event m st has_output_format surface) as [r st']. cbn [fst] in *.
    destruct (is_terminal r).
    + destruct (H1' eq_refl) as [(pre & res & E & Hp) _]. exists (chunks ++ pre), res. cbn [attempt_messages].
      rewrite E, app_assoc. split; [done|]. by apply Forall_app.
    + apply IH, Forall_app. split; [done|]. by apply H2'.
  - by apply IH.
Qed.

(** What was read: some first items, all of them unless the query was found cancelled or the
    turn has ended. *)
Lemma read_events_post items chunks st :
  post (read_events has_output_format surface items chunks st) (fun tr r =>
    match r with
    | Ok read => exists taken, taken `prefix_of` items /\ read = turn taken chunks st
                   /\ (seen_cancelled tr = false -> read = turn items chunks st)
    | Err _ => True
    end).
Proof.
  revert chunks st. induction items as [|item items IH]; intros chunks st; cbn [read_events]; intros [|].
  1, 3: exists []; split_and!; [apply prefix_nil|done|discriminate].
  { exists []. by split_and!. }
  destruct item as [v|[e|n l]]; cbn [turn]; [|by intros lines|].
  - destruct (as_object v) as [m|] eqn:Em.
    + destruct (parse_codex_event m st has_output_format surface) as [r st'] eqn:Er. destruct (is_terminal r) eqn:Et.
      * exists [Ok v]. split_and!; [by apply prefix_cons, prefix_nil| |done]. cbn [turn]. by rewrite Em, Er, Et.
      * eapply post_mono, IH. intros tr [read|]; [|done]. intros (taken & Hp & Hr & Hc). exists (Ok v :: taken).
        split_and!; [by apply prefix_cons| |exact Hc]. cbn [turn]. by rewrite Em, Er, Et.
    + eapply post_mono, IH. intros tr [read|]; [|done]. intros (taken & Hp & Hr & Hc). exists (Ok v :: taken).
      split_and!; [by apply prefix_cons| |exact Hc]. cbn [turn]. by rewrite Em.
  - eapply post_mono, IH. intros tr [read|]; [|done]. intros (taken & Hp & Hr & Hc).
    exists (Err (ParseError n l) :: taken). split_and!; [by apply prefix_cons|done|exact Hc].
Qed.

Lemma read_events_idle items chunks st :
  only_calls (fun c => c = IsCancelled \/ c = StderrLines) (read_events has_output_format surface items chunks st).
Proof.
  revert chunks st. induction items as [|item items IH]; intros chunks st; cbn [read_events].
  { apply only_bind; [apply (only_ask _ IsCancelled); by left|]. intros [|]; apply only_done. }
  apply only_bind; [apply (only_ask _ IsCancelled); by left|]. intros [|]; [apply only_done|].
  destruct item as [v|[e|n l]]; [| |apply IH].
  - destruct (as_object v); [|apply IH]. destruct (parse_codex_event _ _ _ _) as [r st'].
    destruct (is_terminal r); [apply only_done|apply IH].
  - apply only_bind; [|intros ctx; apply only_done].
    apply only_bind; [apply (only_ask _ StderrLines); by right|]. intros lines. apply only_done.
Qed.

(** The end of an attempt. *)
Lemma end_attempt_post chunks st is_done :
  post (end_attempt chunks st is_done) (fun tr r =>
    match r with
    | Ok cs => cs = attempt_messages (chunks, st, is_done) /\ (is_done = false -> exits tr = [0%Z])
    | Err _ => is_done = false
    end).
Proof.
  intros lines code. unfold end_attempt. cbn beta iota delta [mbind proc_bind codex_stderr call ask always].
  destruct is_done; cbn [negb]; [rewrite andb_false_r; by split|]. case_bool_decide as E; cbn [negb andb]; [|done].
  split; [done|]. intros _. by rewrite E.
Qed.
Lemma end_attempt_idle chunks st is_done : only_calls reading (end_attempt chunks st is_done).
Proof.
  apply only_bind; [|intros ctx; apply only_bind; [by apply (only_ask _ ExitCode)|intros code; apply only_done]].
  apply only_bind; [by apply (only_ask _ StderrLines)|]. intros lines. apply only_done.
Qed.
End Reading.

(** *** Attempts *)

(** An attempt that gives messages read some lines of its output: all up to the end of the
    turn, unless it found the query cancelled; without that end, the program ended well. *)
Definition codex_ended (has_format surface : bool) (resume : option str) (tr : agent_trace)
    (r : result str (list MessageChunk)) : Prop :=
  match r with
  | Ok cs =>
      exists taken, let items := ndjson (default [] (last (outputs tr))) in
        let read := turn has_format surface taken [] (state_new resume) in
        taken `prefix_of` items /\ cs = attempt_messages read
        /\ (seen_cancelled tr = false -> read = turn has_format surface items [] (state_new resume))
        /\ (snd read = false -> exits tr = [0%Z])
  | Err _ => True
  end.

Lemma read_events_silent has_format surface items chunks st :
  always (read_events has_format surface items chunks st) (fun tr _ =>
    Forall (fun e => reading (ev_call e)) tr /\ exits tr = [] /\ outputs tr = []).
Proof.
  eapply always_mono, read_events_idle. intros tr o Htr. split_and!.
  - eapply Forall_impl; [exact Htr|]. by intros e [->| ->].
  - refine (omap_none _ _ _ _ Htr). intros [c r] [E|E]; cbn [ev_call] in E; by subst.
  - refine (omap_none _ _ _ _ Htr). intros [c r] [E|E]; cbn [ev_call] in E; by subst.
Qed.

(** What happens after the output is there. *)
Lemma read_and_end_spec has_format surface items resume :
  always (read ←? read_events has_format surface items [] (state_new resume);
          let '(chunks, st, is_done) := read in end_attempt chunks st is_done)
    (fun tr o => Forall (fun e => reading (ev_call e)) tr /\ outputs tr = []
       /\ match o with
          | Ret (Ok cs) =>
              exists taken, let read := turn has_format surface taken [] (state_new resume) in
                taken `prefix_of` items /\ cs = attempt_messages read
                /\ (seen_cancelled tr = false -> read = turn has_format surface items [] (state_new resume))
                /\ (snd read = false -> exits tr = [0%Z])
          | _ => True
          end).
Proof.
  apply always_bind. eapply always_mono, (always_and _ _ _ (read_events_silent _ _ _ _ _) (read_events_post _ _ _ _ _)).
  intros tr [[[[cs st] fin]|e]|] [(Hr & He & Ho) Hp]; [|cbn [try mbind proc_bind always]; by rewrite app_nil_r|done].
  destruct Hp as (taken & Hpre & Hread & Hall).
  pose proof (end_attempt_idle cs st fin) as Hi. pose proof (end_attempt_post cs st fin) as Hb.
  unfold only_calls in Hi. unfold post in Hb. revert Hi Hb.
  generalize (end_attempt cs st fin). intros q Hi Hb. pose proof (always_and _ _ _ Hi Hb) as Hib. clear Hi Hb.
  eapply always_mono, Hib. clear Hib. intros tr' o' [Hr' Hp']. split_and!; [by apply Forall_app| |].
  - unfold outputs in *. rewrite omap_app, Ho. refine (omap_none _ _ _ _ Hr'). by intros [[] r].
  - destruct o' as [[cs'|e']|]; [|done..]. destruct Hp' as [-> He']. exists taken. cbv zeta. rewrite <- Hread.
    split_and!; [done|done| |].
    + rewrite seen_cancelled_app, orb_false_iff. intros [Hs _]. by apply Hall.
    + intros Hf. unfold exits in *. by rewrite omap_app, He, (He' Hf).
Qed.

Lemma run_codex_attempt_spec has_format surface program argv env cwd prompt resume :
  always (run_codex_attempt has_format surface program argv env cwd prompt resume) (fun tr o =>
    one_start (program, argv, env, cwd) prompt tr
    /\ match o with Ret r => codex_ended has_format surface resume tr r | Panic => True end).
Proof.
  intros [[]|e]; [|by repeat split].
  intros [[]|e]; [|by repeat split; try constructor].
  intros bs. eapply always_mono, (read_and_end_spec has_format surface (ndjson (default [] bs)) resume).
  intros tr o (Htr & Ho & Hp). pose proof (idle_trace reading tr) as (Q1 & Q2 & Q3 & Q4 & Q5); [by right|done|].
  split.
  - repeat split; [unfold spawned in *; cbn; by rewrite Q1|done|done| |by apply Q5].
    unfold written in *. cbn. rewrite Q4. by constructor.
  - destruct o as [[cs|e]|]; [|done..]. destruct Hp as (taken & Hpre & Hm & Hs & He). exists taken. cbv zeta in *.
    replace (last (outputs _)) with bs; [by split_and!|].
    unfold outputs in *. cbn. destruct bs as [bs|]; cbn; by rewrite Ho.
Qed.

(** *** The query *)

(** Every attempt starts the same program; only the first resumes the session. *)
Definition codex_started_as (p : CodexPrepared) (n : nat) (what : start) : Prop :=
  what = (xp_program p, xp_argv p (if bool_decide (n = 0) then xp_resume p else None), xp_env p, xp_cwd p).
Definition codex_attempt_ended (p : CodexPrepared) : agent_trace -> result str (list MessageChunk) -> Prop :=
  codex_ended (xp_has_output_format p) (xp_surface p) (xp_resume p).
Definition codex_refused (cs : list MessageChunk) : Prop :=
  exists subtype message, cs = [error_result None subtype message].

Lemma codex_attempt_ok p n :
  always (codex_attempt p n) (attempt_post (xp_prompt p) (codex_started_as p) (codex_attempt_ended p) n).
Proof.
  unfold codex_attempt, attempt_post, codex_attempt_ended. cbv zeta.
  eapply always_mono; [|apply run_codex_attempt_spec]. intros tr o [H1' Ho].
  eexists. split; [reflexivity|]. by split.
Qed.
Lemma codex_cancelled_final model msg : fst (codex_on_error model msg true) = false.
Proof. done. Qed.

(** What is known of the program: the session is resumed by its arguments. *)
Definition codex_prepared_for (prompt cwd : str) (resume : option str) (p : CodexPrepared) : Prop :=
  xp_prompt p = prompt /\ xp_cwd p = cwd /\ xp_resume p = resume
  /\ exists defaults model schema_path overrides, forall r,
       xp_argv p r = build_codex_argv model defaults r schema_path cwd overrides.
(** At most a warning. *)
Definition is_warning (ws : list MessageChunk) : Prop := exists vars, ws = missing_vars_warning vars.
Definition codex_query_post (base : N) (prompt cwd : str) (resume model : option str)
  : agent_trace -> outcome unit -> Prop :=
  query_some_in (codex_on_error model) base prompt codex_refused (codex_prepared_for prompt cwd resume)
    codex_started_as codex_attempt_ended is_warning.

Lemma only_file_exists path : only_calls quiet (file_exists path).
Proof. apply only_bind; [by apply (only_ask _ (StatPath _))|]. intros meta. apply only_done. Qed.
Lemma only_first_existing paths : only_calls quiet (first_existing paths).
Proof.
  induction paths as [|path paths IH]; [apply only_done|]. apply only_bind; [apply only_file_exists|].
  intros [|]; [apply only_done|exact IH].
Qed.
Lemma only_resolve_codex path : only_calls quiet (resolve_codex_binary_path path).
Proof.
  unfold resolve_codex_binary_path. destruct (negb codex_is_binary_mode); [apply only_done|].
  destruct (negb _); [apply only_bind; [apply only_file_exists|intros found; apply only_done]|].
  destruct (negb _); [apply only_bind; [apply only_file_exists|intros found; apply only_done]|].
  apply only_bind; [apply only_first_existing|]. intros probe. apply only_done.
Qed.
Lemma only_load_overrides mcp cwd env : only_calls quiet (load_overrides mcp cwd env).
Proof.
  destruct mcp as [path|]; [|apply only_done]. apply only_bind.
  { apply only_bind; [apply only_env_vars|]. intros vars. apply only_done. }
  intros source. apply only_try; [|intros loaded; apply only_done].
  apply only_bind; [by apply (only_ask _ (ReadText _))|]. intros [raw|e]; apply only_done.
Qed.
Lemma only_write_schema schema : only_calls quiet (write_schema_temp_file schema).
Proof.
  destruct schema; [|apply only_done]. apply only_bind; [by apply (only_ask _ (WriteTempFile _))|].
  intros file. apply only_done.
Qed.

Lemma codex_query_lemma base prompt cwd resume options :
  always (send_codex_query base prompt cwd resume options)
    (codex_query_post base prompt cwd resume (options ≫= so_model)).
Proof.
  set (t0 := mk_CodexPrepared [] (fun r => build_codex_argv None (parse_codex_config ∅) r None cwd None) ∅ cwd prompt
               resume false false).
  assert (Hok : codex_prepared_for prompt cwd resume t0) by (split_and!; [done..|by eexists _, _, _, _]).
  assert (Hnil : is_warning []) by (by exists []).
  unfold codex_query_post. apply (query_some_bind _ _ _ _ _ _ _ t0 Hok); [apply only_load_overrides|done|].
  intros [[overrides missing]|e].
  2: { apply query_some_in_nil; [done|]. apply (query_some_refused _ _ _ _ _ _ _ t0 Hok). by eexists _, _. }
  eapply always_mono; [intros tr o Hq; exists (missing_vars_warning missing); split; [by exists missing|exact Hq]|].
  apply query_some_yield. apply (query_some_quiet _ _ _ _ _ _ _ t0 Hok); [apply only_resolve_codex|].
  intros [path|e]; [|apply (query_some_refused _ _ _ _ _ _ _ t0 Hok); by eexists _, _].
  apply (query_some_look _ _ _ _ _ _ _ t0 Hok).
  apply (query_some_quiet _ _ _ _ _ _ _ t0 Hok); [apply only_write_schema|]. intros schema_path.
  apply (query_some_quiet _ _ _ _ _ _ _ t0 Hok); [apply only_build_env|]. intros env.
  cbv zeta. match goal with |- context [codex_attempt ?p] => apply (query_some_attempts _ _ _ _ _ _ _ p) end;
    [|apply codex_attempt_ok|apply codex_cancelled_final].
  split_and!; [done..|]. by eexists _, _, _, _.
Qed.

(** The attempts of a query to Codex.  The program is started at most four times, with
    the same arguments but for the session, which only the first start resumes, and is
    handed nothing but the prompt; the pauses between two starts double, and once the
    query was found cancelled nothing is started and nothing waited for.  What is yielded
    is at most a warning, and then what the last attempt read, up to the end of the turn
    (all of it, unless that attempt found the query cancelled; without an end of the turn
    the program had ended with code 0), or a result for its failure; a result for what
    kept the query from being tried; nothing when it was cancelled before. *)
Theorem codex_query_attempts (base : N) (prompt cwd : str) (resume : option str) (options : option SendQueryOptions) :
  always (send_codex_query base prompt cwd resume options)
    (codex_query_post base prompt cwd resume (options ≫= so_model)).
Proof. apply codex_query_lemma. Qed.

Lemma ended_one_result p tr cs : codex_attempt_ended p tr (Ok cs) -> ends_in_result cs.
Proof. intros (taken & _ & -> & _). apply turn_results, Forall_nil_2. Qed.

Lemma error_ends sid sub msg : ends_in_result [error_result sid sub msg].
Proof. eexists [], _. by split. Qed.

(** C26: A query to Codex that returns has exactly one result, and it comes last, unless the
    query was found cancelled: whatever the program prints and however it ends, and when
    it cannot be started. *)
Theorem codex_one_result (base : N) (prompt cwd : str) (resume : option str) (options : option SendQueryOptions) :
  always (send_codex_query base prompt cwd resume options) (fun tr o =>
    o = Ret tt -> ends_in_result (yielded tr) \/ seen_cancelled tr = true).
Proof.
  eapply always_mono, codex_query_lemma. intros tr o (ws & [vars ->] & p & _ & Hq) ->.
  destruct Hq as (_ & _ & _ & _ & _ & cs & -> & Hc).
  assert (Hw : forall cs, ends_in_result cs -> ends_in_result (missing_vars_warning vars ++ cs)).
  { intros l (pre & r & -> & Hp). exists (missing_vars_warning vars ++ pre), r. split; [by rewrite app_assoc|].
    apply Forall_app. split; [|done]. destruct vars; by repeat constructor. }
  destruct Hc as [[Hs _|Hp|seg cs' _ He _|seg msg c _ _ _ Hs]|(_ & _ & sub & msg & ->)].
  - by right.
  - discriminate Hp.
  - left. by eapply Hw, ended_one_result.
  - destruct c; [right; by apply Hs|left]. apply Hw, error_ends.
  - left. apply Hw, error_ends.
Qed.
End Specs.

(** ** A concrete query *)

Program Definition ascii_alphanumeric : Alphanumeric := {| is_alphanumeric := is_ascii_alphanumeric |}.
Solve Obligations with done.

Definition turn_done : object :=
  [key "type" (String (lit "turn.completed"));
   key "usage" (Object [key "input_tokens" (Number (PosInt 7)); key "output_tokens" (Number (PosInt 2))])].
Definition codex_docs : SerdeJson := table_json [(lit "done", Object turn_done); (lit "null", Null)].
Definition codex_errors : JsonErrors := {| parse_message := fun _ => lit "bad"; str_debug := fun s => s |}.
Definition sample_codex_query : agent unit :=
  @send_codex_query codex_docs codex_errors ascii_case ascii_alphanumeric backtracking_engine sample_env
    2000 (lit "do it") (lit "/repo") (Some (lit "s1")) None.

(** The program is killed the first time it is started; then it prints the end of a turn. *)
Definition codex_world : Process.world agent_call := fun past c =>
  match c with
  | EnvVars => Some ∅
  | StatPath _ => Ok StatFile
  | ReadText _ => Err (io.mk_Error io.NotFound [])
  | WriteTempFile _ => Err (lit "no space")
  | StartLoopback => Err (lit "no port")
  | IsCancelled => false
  | Yield _ => tt
  | SpawnAgent _ _ _ _ | WriteStdin _ => Ok tt
  | Stdout _ => Some (if bool_decide (length (spawned past) = 1) then [] else [Ok (lit "do"); Ok (lit "ne" ++ [10%N])])
  | StderrLines => []
  | ExitCode => if bool_decide (length (spawned past) = 1) then (-1)%Z else 0%Z
  | SleepMs _ => tt
  end.
(** The session of the result is the one that was asked for, though the start that gave it
    began another. *)
Example second_start :
  let tr := fst (Process.exec codex_world [] sample_codex_query) in
  map (fun s => last (snd (fst (fst s)))) (spawned tr)
    = [Some (lit "s1"); Some (lit "approval_policy=" ++ in_quotes (lit "never"))]
  /\ slept tr = [2000%N]
  /\ yielded tr = [ResultMsg (mk_ResultChunk (Some (lit "s1")) (Some (mk_TokenUsage 7 2 None None)) None None None None
                                None None None None)].
Proof. split_and!; by_compute. Qed.
