(* ===== verification/JsonRpc.v ===== *)
(** * JSON-RPC over a pipe

    [ContentLengthCodec], [RpcWriter] and [JsonRpcClient] of [copilot/jsonrpc_client.rs]:
    messages in frames that carry their length, and the client that several tasks share.

    The client is a state and the steps of its tasks.  A task that makes a request takes a
    number, enters itself in the table of requests in flight, and writes; each is one step,
    since each holds one lock.  The task that reads takes a message at a time and answers
    the request it is for, passes a notification on, or answers a request of the server;
    when it ends, it fails the requests that are in the table, and none later.  Requests
    are not given up by their callers.

    The last part is the invariant of the client, under every interleaving. *)
From S2P Require Import Prelude StdModel Float64 Json CliStream.

(** ** Frames *)

(** The messages of [str::from_utf8] and of [serde_json::from_slice] on bytes they refuse. *)
Class FrameErrors : Type := { utf8_message : bytes -> str; slice_message : bytes -> str }.

Inductive CodecError : Type :=
| CodecIo (e : io.Error)
| BadHeader (m : str)
| FrameTooLarge (n : N)
| JsonEncode (m : str).
Definition CodecError_display (e : CodecError) : str :=
  match e with
  | CodecIo e => lit "I/O error: " ++ io.text e
  | BadHeader m => lit "malformed Content-Length header: " ++ m
  | FrameTooLarge n => lit "frame too large: " ++ show_N n ++ lit " bytes"
  | JsonEncode m => lit "JSON encode error: " ++ m
  end.

Definition MAX_FRAME_SIZE : N := (64 * 1024 * 1024)%N.
Definition sep : bytes := [13; 10; 13; 10]%N.

(** [str::lines]. *)
Definition lines (s : str) : list str :=
  let pieces := split [10%N] s in
  let rest := List.last pieces [] in
  map strip_cr (removelast pieces) ++ (if is_empty rest then [] else [rest]).

(** [str::parse::<u64>]; [usize] has 64 bits. *)
Definition parse_u64 (s : str) : option N :=
  let s := match s with c :: r => if (c =? 43)%N then r else s | [] => s end in
  if is_empty s || negb (all_digits s) || (u64_max <? digits_value s)%N then None
  else Some (digits_value s).

Definition content_length_key : str := lit "content-length:".
Definition header_length (line : str) : option N :=
  let line := trim line in
  if starts_with content_length_key (map to_ascii_lowercase line)
  then parse_u64 (trim (drop (length content_length_key) line)) else None.
(** [Iterator::find_map]. *)
Fixpoint find_map {A B} (f : A -> option B) (l : list A) : option B :=
  match l with
  | [] => None
  | a :: l => match f a with Some b => Some b | None => find_map f l end
  end.

(** [serde_json::from_slice]: text that is no UTF-8 is no JSON. *)
Definition from_slice `{SerdeJson} (body : bytes) : option value := s ← from_utf8 body; from_str s.
Definition to_vec `{SerdeJson} (v : value) : bytes := as_bytes (to_string v).

Section Codec.
Context `{SerdeJson} `{JsonErrors} `{FrameErrors}.

(** What is decoded, and what is left of the buffer. *)
Definition decode (src : bytes) : result CodecError (option value) * bytes :=
  match split_once sep src with
  | None => (Ok None, src)
  | Some (header_bytes, rest) =>
      match from_utf8 header_bytes with
      | None => (Err (BadHeader (utf8_message header_bytes)), src)
      | Some header_str =>
          match find_map header_length (lines header_str) with
          | None => (Err (BadHeader (lit "no Content-Length in: " ++ str_debug header_str)), src)
          | Some content_length =>
              if (MAX_FRAME_SIZE <? content_length)%N then (Err (FrameTooLarge content_length), src)
              else if (N.of_nat (length rest) <? content_length)%N then (Ok None, src)
              else
                let body := take (N.to_nat content_length) rest in
                let src := drop (N.to_nat content_length) rest in
                match from_slice body with
                | Some v => (Ok (Some v), src)
                | None => (Err (BadHeader (lit "JSON parse error: " ++ slice_message body)), src)
                end
          end
      end
  end.

Definition header (body : bytes) : str :=
  lit "Content-Length: " ++ show_nat (length body) ++ [13; 10; 13; 10]%N.
(** A value is always printed. *)
Definition encode (item : value) (dst : bytes) : bytes :=
  let body := to_vec item in dst ++ as_bytes (header body) ++ body.

(** Why the task that reads ends: the message its requests get. *)
Definition exited : str := lit "subprocess exited".

(** What one chunk adds: the messages that are complete with it. *)
Fixpoint decode_all (fuel : nat) (buf : bytes) : list value * result str bytes :=
  match fuel with
  | O => ([], Ok buf)
  | S fuel =>
      match decode buf with
      | (Ok (Some value), buf) => let '(vs, r) := decode_all fuel buf in (value :: vs, r)
      | (Ok None, buf) => ([], Ok buf)
      | (Err e, _) => ([], Err (CodecError_display e))
      end
  end.

(** The loop of [reader_task]: the messages it dispatches, and the message it ends with.
    The chunks are the reads up to the end of the output. *)
Fixpoint reader_task (buf : bytes) (reads : list (result io.Error bytes)) : list value * str :=
  let '(vs, r) := decode_all (S (length buf)) buf in
  match r with
  | Err e => (vs, e)
  | Ok buf =>
      match reads with
      | [] | Ok [] :: _ => (vs, exited)
      | Err e :: _ => (vs, io.text e)
      | Ok chunk :: reads => let '(vs', e) := reader_task (buf ++ chunk) reads in (vs ++ vs', e)
      end
  end.
End Codec.

(** ** Messages *)

(** [RpcError]. *)
Inductive RpcError : Type :=
| RpcCodec (e : CodecError)
| RpcIo (e : io.Error)
| RemoteError (m : str)
| ChannelClosed
| ProtocolVersionMismatch (got min max : N)
| SessionCreate (m : str)
| RpcSpawn (m : str)
| RpcTimeout.
Definition RpcError_display (e : RpcError) : str :=
  match e with
  | RpcCodec e => lit "codec error: " ++ CodecError_display e
  | RpcIo e => lit "process I/O error: " ++ io.text e
  | RemoteError m => lit "JSON-RPC error: " ++ m
  | ChannelClosed => lit "response channel closed (request timed out or process exited)"
  | ProtocolVersionMismatch got min max =>
      lit "protocol version mismatch: got " ++ show_N got ++ lit ", expected " ++ show_N min ++ lit "..="
      ++ show_N max
  | SessionCreate m => lit "session create failed: " ++ m
  | RpcSpawn m => lit "process spawn failed: " ++ m
  | RpcTimeout => lit "timeout"
  end.

Definition jsonrpc : str * value := key "jsonrpc" (String (lit "2.0")).
(** What is written for a request, a notification, a response; the keys of an object that
    [json!] builds are in the order of the source. *)
Definition request_message (id : N) (method : str) (params : value) : value :=
  Object [jsonrpc; key "id" (Number (PosInt id)); key "method" (String method); key "params" params].
Definition notify_message (method : str) (params : value) : value :=
  Object [jsonrpc; key "method" (String method); key "params" params].
Definition response_message (id response : value) : value :=
  Object [jsonrpc; key "id" id; key "result" response].

Definition str_param (k : string) (d : str) (params : value) : str :=
  default d (v ← value_get (lit k) params; as_str v).

Definition tool_unsupported (tool_name : str) : value :=
  Object [key "result" (Object [
    key "textResultForLlm" (String (lit "Tool '" ++ tool_name ++ lit "' is not supported by this client instance."));
    key "resultType" (String (lit "failure"));
    key "error" (String (lit "tool '" ++ tool_name ++ lit "' not supported"));
    key "toolTelemetry" (Object [])])].
Definition handle_server_request (method : str) (params : value) : value :=
  if str_eqb method (lit "tool.call") then tool_unsupported (str_param "toolName" (lit "unknown") params)
  else if str_eqb method (lit "permission.request") then
    Object [key "result" (Object [key "kind" (String (lit "approved"))])]
  else
    Object [key "code" (Number (NegInt (-32601)));
            key "message" (String (lit "Method not found: " ++ method))].

(** ** The client *)

Abbreviation answer := (result str value).
(** The one-shot channel of a request, as its receiver sees it. *)
Inductive cell : Type := Pending | Closed | Answered (a : answer).
Inductive stage : Type := Numbered | Registered | Written.

Record rpc_request : Type := mk_request {
  rq_id : N;
  rq_message : value;
  rq_stage : stage;
  rq_cell : cell;
  rq_outcome : option (result RpcError value);
}.
(** [reader] is the message the task that reads ended with. *)
Record rpc_client : Type := mk_client {
  next_id : N;
  in_flight : gmap N nat;
  requests : list rpc_request;
  written_out : list value;
  notified : list value;
  reader : option str;
}.
Definition new_client : rpc_client := mk_client 1 ∅ [] [] [] None.

Definition with_stage (s : stage) (r : rpc_request) : rpc_request :=
  mk_request (rq_id r) (rq_message r) s (rq_cell r) (rq_outcome r).
Definition with_cell (c : cell) (r : rpc_request) : rpc_request :=
  mk_request (rq_id r) (rq_message r) (rq_stage r) c (rq_outcome r).
Definition with_outcome (o : result RpcError value) (r : rpc_request) : rpc_request :=
  mk_request (rq_id r) (rq_message r) (rq_stage r) (rq_cell r) (Some o).

(** A sender that is used, or dropped. *)
Definition settle (c : cell) (r : rpc_request) : rpc_request :=
  match rq_cell r with Pending => with_cell c r | _ => r end.

Definition with_requests (f : list rpc_request -> list rpc_request) (c : rpc_client) : rpc_client :=
  mk_client (next_id c) (in_flight c) (f (requests c)) (written_out c) (notified c) (reader c).
Definition with_in_flight (t : gmap N nat) (c : rpc_client) : rpc_client :=
  mk_client (next_id c) t (requests c) (written_out c) (notified c) (reader c).
Definition write (v : value) (c : rpc_client) : rpc_client :=
  mk_client (next_id c) (in_flight c) (requests c) (written_out c ++ [v]) (notified c) (reader c).

(** [tx.send(answer)] for the request that is taken out of the table. *)
Definition complete (id : N) (a : answer) (c : rpc_client) : rpc_client :=
  match in_flight c !! id with
  | Some i => with_in_flight (delete id (in_flight c)) (with_requests (alter (settle (Answered a)) i) c)
  | None => c
  end.

Section Client.
Context `{SerdeJson}.

(** The request a message answers, and the answer. *)
Definition response_of (v : value) : option (N * answer) :=
  let has_id := match value_get (lit "id") v with Some i => negb (is_null i) | None => false end in
  let has k := bool_decide (is_Some (value_get (lit k) v)) in
  if negb (has "method") && has_id && (has "result" || has "error") then
    id ← value_get (lit "id") v ≫= as_u64;
    Some (id, if has "error" then Err (to_string (default Null (value_get (lit "error") v)))
              else Ok (default Null (value_get (lit "result") v)))
  else None.

(** [writable]: whether the reply to a request of the server can be written. *)
Definition dispatch_message (v : value) (writable : bool) (c : rpc_client) : rpc_client :=
  let has_id := match value_get (lit "id") v with Some i => negb (is_null i) | None => false end in
  match value_get (lit "method") v with
  | Some method =>
      if has_id then
        let method := default [] (as_str method) in
        let params := default Null (value_get (lit "params") v) in
        let reply := response_message (default Null (value_get (lit "id") v)) (handle_server_request method params) in
        if writable then write reply c else c
      else mk_client (next_id c) (in_flight c) (requests c) (written_out c) (notified c ++ [v]) (reader c)
  | None =>
      match response_of v with
      | Some (id, a) => complete id a c
      | None => c
      end
  end.

(** The steps of the tasks. *)
Inductive action : Type :=
| Begin (method : str) (params : value)
| Register (i : nat)
| Send (i : nat)
| SendFails (i : nat) (e : io.Error)
| Return (i : nat)
| Notify (method : str) (params : value)
| Receive (v : value) (writable : bool)
| ReaderEnds (msg : str).

Definition outcome_of (c : cell) : option (result RpcError value) :=
  match c with
  | Pending => None
  | Closed => Some (Err ChannelClosed)
  | Answered (Ok v) => Some (Ok v)
  | Answered (Err m) => Some (Err (RemoteError m))
  end.

Definition u64_add1 (n : N) : N := ((n + 1) mod 2 ^ 64)%N.

(** [None]: the step cannot be taken. *)
Definition step (a : action) (c : rpc_client) : option rpc_client :=
  match a with
  | Begin method params =>
      let id := next_id c in
      let r := mk_request id (request_message id method params) Numbered Pending None in
      Some (mk_client (u64_add1 id) (in_flight c) (requests c ++ [r]) (written_out c) (notified c) (reader c))
  | Register i =>
      r ← requests c !! i;
      match rq_stage r with
      | Numbered =>
          let requests' :=
            match in_flight c !! rq_id r with
            | Some j => alter (settle Closed) j (requests c)
            | None => requests c
            end in
          Some (with_in_flight (<[rq_id r := i]> (in_flight c))
                  (with_requests (fun _ => alter (with_stage Registered) i requests') c))
      | _ => None
      end
  | Send i =>
      r ← requests c !! i;
      match rq_stage r, rq_outcome r with
      | Registered, None => Some (write (rq_message r) (with_requests (alter (with_stage Written) i) c))
      | _, _ => None
      end
  | SendFails i e =>
      r ← requests c !! i;
      match rq_stage r, rq_outcome r with
      | Registered, None =>
          Some (with_in_flight (delete (rq_id r) (in_flight c))
                  (with_requests (alter (with_outcome (Err (RpcIo e))) i) c))
      | _, _ => None
      end
  | Return i =>
      r ← requests c !! i;
      match rq_stage r, rq_outcome r with
      | Written, None => o ← outcome_of (rq_cell r); Some (with_requests (alter (with_outcome o) i) c)
      | _, _ => None
      end
  | Notify method params => Some (write (notify_message method params) c)
  | Receive v writable =>
      match reader c with None => Some (dispatch_message v writable c) | Some _ => None end
  | ReaderEnds msg =>
      match reader c with
      | None =>
          Some (mk_client (next_id c) ∅
                  (imap (fun i r => if bool_decide (in_flight c !! rq_id r = Some i)
                                    then settle (Answered (Err msg)) r else r) (requests c))
                  (written_out c) (notified c) (Some msg))
      | Some _ => None
      end
  end.

Fixpoint run_actions (acts : list action) (c : rpc_client) : option rpc_client :=
  match acts with
  | [] => Some c
  | a :: acts => c ← step a c; run_actions acts c
  end.
End Client.

(** ** Frames come through *)

Section Frames.
Context `{SerdeJson} `{JsonErrors} `{FrameErrors}.

Definition frame (v : value) : bytes := encode v [].

(** A value whose text is read back and fits into a frame. *)
Definition frameable (v : value) : Prop :=
  Forall scalar (to_string v) /\ from_str (to_string v) = Some v
  /\ (N.of_nat (length (to_vec v)) <= MAX_FRAME_SIZE)%N.

Lemma split_once_absent (c : char) (s' a : str) :
  c ∉ a -> (forall r, split_once (c :: s') (a ++ (c :: s') ++ r) = Some (a, r))
           /\ split_once (c :: s') a = None.
Proof.
  intros Ha. split.
  - intros r. induction a as [|x a IH]; cbn [app split_once].
    + change (c :: s' ++ r) with ((c :: s') ++ r). by rewrite strip_prefix_app.
    + apply not_elem_of_cons in Ha as [Hx Ha]. cbn [strip_prefix].
      apply N.eqb_neq in Hx as ->. cbn [app] in IH. by rewrite (IH Ha).
  - apply split_once_None. intros x y ->. apply Ha. rewrite !elem_of_app, elem_of_cons. auto.
Qed.

(** *** The header of a frame *)

Lemma as_bytes_plain (s : str) : Forall (fun c => c < 128)%N s -> as_bytes s = s.
Proof.
  unfold as_bytes. induction 1 as [|c s Hc Hs IH]; [done|]. cbn [flat_map]. rewrite IH. unfold encode_char.
  apply N.ltb_lt in Hc as ->. done.
Qed.

Lemma digit_bounds (c : char) : is_ascii_digit c = true <-> (48 <= c <= 57)%N.
Proof. unfold is_ascii_digit, in_range. rewrite andb_true_iff, !N.leb_le. done. Qed.
Lemma digits_Forall (d : str) : all_digits d = true -> Forall (fun c => 48 <= c <= 57)%N d.
Proof.
  unfold all_digits. rewrite forallb_forall, Forall_forall. intros Hd c Hc%list_elem_of_In.
  by apply digit_bounds, Hd.
Qed.

Lemma digit_not_white (c : char) : (48 <= c <= 57)%N -> is_whitespace c = false.
Proof.
  intros Hc. assert (c = 48 \/ c = 49 \/ c = 50 \/ c = 51 \/ c = 52 \/ c = 53 \/ c = 54 \/ c = 55
    \/ c = 56 \/ c = 57)%N as Hd by lia.
  by repeat destruct Hd as [->|Hd]; [..|rewrite Hd].
Qed.

Lemma trim_start_digits (d : str) : all_digits d = true -> trim_start d = d.
Proof.
  destruct d as [|c d]; [done|]. intros Hd%digits_Forall. inversion_clear Hd as [|? ? Hc _].
  unfold trim_start. cbn [trim_start_matches]. by rewrite (digit_not_white c Hc).
Qed.
Lemma trim_digits (d : str) : all_digits d = true -> trim d = d.
Proof.
  intros Hd. unfold trim, trim_end. rewrite (trim_start_digits d Hd).
  rewrite trim_start_digits; [apply rev_involutive|]. unfold all_digits in *. rewrite forallb_forall in *.
  intros c Hc%in_rev. by apply Hd.
Qed.

Lemma parse_show_N (n : N) : (n <= u64_max)%N -> parse_u64 (show_N n) = Some n.
Proof.
  intros Hn. destruct (show_N_spec n) as (Hd & Hv & Hne). unfold parse_u64.
  destruct (show_N n) as [|c r] eqn:E; [done|].
  pose proof Hd as Hc%digits_Forall. inversion_clear Hc as [|? ? Hb _].
  replace (c =? 43)%N with false by (symmetry; apply N.eqb_neq; lia).
  rewrite Hd, Hv. cbn [is_empty negb orb]. apply N.ltb_ge in Hn as ->. done.
Qed.

Definition length_line (n : nat) : str := lit "Content-Length: " ++ show_nat n.

Lemma length_line_plain (n : nat) : Forall (fun c => 32 <= c < 128)%N (length_line n).
Proof.
  apply Forall_app. split.
  - apply Forall_forall. intros c Hc%list_elem_of_In.
    assert (forallb (fun c => (32 <=? c)%N && (c <? 128)%N) (lit "Content-Length: ") = true) as Hf by by_compute.
    rewrite forallb_forall in Hf. apply Hf, andb_true_iff in Hc as [?%N.leb_le ?%N.ltb_lt]. done.
  - destruct (show_N_spec (N.of_nat n)) as (Hd & _). eapply Forall_impl; [by apply digits_Forall|].
    cbv beta. lia.
Qed.

Lemma length_line_read (n : nat) :
  (N.of_nat n <= u64_max)%N -> find_map header_length (lines (length_line n)) = Some (N.of_nat n).
Proof.
  intros Hn. pose proof (length_line_plain n) as Hp.
  assert (H10 : 10%N ∉ length_line n).
  { intros Hin. rewrite Forall_forall in Hp. apply Hp in Hin. lia. }
  unfold lines. rewrite split_char_absent by done. cbn [removelast map app List.last].
  destruct (show_N_spec (N.of_nat n)) as (Hd & _ & Hne).
  destruct (is_empty (length_line n)) eqn:E; [by apply is_empty_spec in E|].
  cbn [find_map]. unfold header_length, length_line, show_nat.
  destruct (exists_last Hne) as (d & x & Ed).
  assert (Hx : is_whitespace x = false).
  { pose proof Hd as Hf%digits_Forall. rewrite Ed in Hf. apply Forall_app in Hf as [_ Hf].
    inversion_clear Hf as [|? ? Hb _]. by apply digit_not_white. }
  assert (Ht : trim (lit "Content-Length: " ++ show_N (N.of_nat n)) = lit "Content-Length: " ++ show_N (N.of_nat n)).
  { rewrite Ed. change (lit "Content-Length: ") with (67%N :: lit "ontent-Length: ").
    cbn [app]. rewrite app_assoc. by apply trim_wrapped. }
  rewrite Ht. change (lit "Content-Length: ") with (lit "Content-Length:" ++ [32%N]).
  rewrite <- !app_assoc, map_app.
  change (map to_ascii_lowercase (lit "Content-Length:")) with content_length_key.
  rewrite (proj2 (starts_with_spec _ _)) by (by eexists).
  rewrite drop_app_length' by reflexivity. cbn [app].
  rewrite trim_space_l, trim_digits, parse_show_N by done. done.
Qed.

Lemma split_once_more (p a b x y : str) : split_once p a = Some (x, y) -> split_once p (a ++ b) = Some (x, y ++ b).
Proof.
  revert x y. induction a as [|c a IH]; intros x y.
  - cbn [split_once]. destruct (strip_prefix p []) as [r|] eqn:E; [|done]. apply strip_prefix_Some in E.
    symmetry in E. apply app_eq_nil in E as [-> ->]. intros [= <- <-]. cbn [app]. by destruct b.
  - cbn [split_once app]. destruct (strip_prefix p (c :: a)) as [r|] eqn:E.
    + intros [= <- <-]. apply strip_prefix_Some in E.
      replace (c :: a ++ b) with (p ++ r ++ b) by (rewrite app_assoc, <- E; done).
      by rewrite strip_prefix_app.
    + destruct (split_once p a) as [[u w]|] eqn:E2; [|done]. intros [= <- <-].
      destruct (strip_prefix p (c :: a ++ b)) as [r|] eqn:E3; [|by rewrite (IH u w)].
      exfalso. apply strip_prefix_Some in E3. apply split_once_Some in E2 as Ea.
      change (c :: a ++ b) with ((c :: a) ++ b) in E3. apply (f_equal (take (length p))) in E3.
      rewrite take_app_length, take_app_le in E3
        by (rewrite Ea; cbn [length]; rewrite !length_app; lia).
      assert (Hp : c :: a = p ++ drop (length p) (c :: a)) by (rewrite <- E3 at 1; by rewrite take_drop).
      apply strip_prefix_Some in Hp. congruence.
Qed.

Lemma frame_parts (v : value) : frame v = length_line (length (to_vec v)) ++ sep ++ to_vec v.
Proof.
  unfold frame, encode. cbn [app]. rewrite as_bytes_plain; [|].
  - unfold header, length_line. by rewrite <- !app_assoc.
  - unfold header. rewrite app_assoc. apply Forall_app. split.
    + eapply Forall_impl; [apply length_line_plain|]. cbv beta. lia.
    + repeat (apply Forall_cons_2; [done|]). by apply Forall_nil_2.
Qed.
Lemma line_no_cr (n : nat) : 13%N ∉ length_line n.
Proof. intros Hin. pose proof (length_line_plain n) as Hp. rewrite Forall_forall in Hp. apply Hp in Hin. lia. Qed.

(** What is decoded once the header of a value is there. *)
Lemma decode_body (v : value) (src rest : bytes) :
  frameable v -> split_once sep src = Some (length_line (length (to_vec v)), rest) ->
  decode src =
    if (N.of_nat (length rest) <? N.of_nat (length (to_vec v)))%N then (Ok None, src)
    else match from_slice (take (length (to_vec v)) rest) with
         | Some read => (Ok (Some read), drop (length (to_vec v)) rest)
         | None => (Err (BadHeader (lit "JSON parse error: " ++ slice_message (take (length (to_vec v)) rest))),
                    drop (length (to_vec v)) rest)
         end.
Proof.
  intros (_ & _ & Hm) E. unfold decode. rewrite E.
  assert (Hu : from_utf8 (length_line (length (to_vec v))) = Some (length_line (length (to_vec v)))).
  { rewrite <- (as_bytes_plain (length_line _)) at 1
      by (eapply Forall_impl; [apply length_line_plain|]; cbv beta; lia).
    apply from_utf8_as_bytes. eapply Forall_impl; [apply length_line_plain|]. cbv beta.
    intros c Hc. left. lia. }
  rewrite Hu, length_line_read by (unfold MAX_FRAME_SIZE, u64_max in *; lia).
  apply N.ltb_ge in Hm as ->. cbv zeta. by rewrite Nat2N.id.
Qed.

Lemma from_slice_to_vec (v : value) : frameable v -> from_slice (to_vec v) = Some v.
Proof. intros (Hs & Hr & _). unfold from_slice, to_vec. rewrite from_utf8_as_bytes by done. exact Hr. Qed.

Lemma decode_frame (v : value) (rest : bytes) : frameable v -> decode (frame v ++ rest) = (Ok (Some v), rest).
Proof.
  intros Hv. rewrite (decode_body v _ (to_vec v ++ rest)); [|done|].
  - rewrite length_app. replace (N.of_nat (length (to_vec v) + length rest) <? _)%N with false
      by (symmetry; apply N.ltb_ge; lia).
    by rewrite take_app_length, drop_app_length, from_slice_to_vec.
  - rewrite frame_parts, <- !app_assoc. apply (split_once_absent 13 [10; 13; 10]%N). apply line_no_cr.
Qed.

Lemma decode_partial (v : value) (a b : bytes) :
  frameable v -> frame v = a ++ b -> b <> [] -> decode a = (Ok None, a).
Proof.
  intros Hv E Hb. destruct (split_once sep a) as [[h r]|] eqn:Es; [|unfold decode; by rewrite Es].
  pose proof (split_once_more _ _ b _ _ Es) as Ef. rewrite <- E, frame_parts in Ef.
  rewrite (proj1 (split_once_absent 13 [10; 13; 10]%N _ (line_no_cr _))) in Ef. injection Ef as Eh Er. subst h.
  rewrite (decode_body v _ r) by done. apply (f_equal length) in Er. rewrite length_app in Er.
  replace (N.of_nat (length r) <? _)%N with true; [done|]. symmetry. apply N.ltb_lt.
  destruct b; [done|]. cbn [length] in Er. lia.
Qed.

Lemma frame_nonempty (v : value) : frame v <> [].
Proof. rewrite frame_parts. by unfold length_line. Qed.

(** *** A stream of frames, however it is cut *)

Lemma decode_all_frames (fuel : nat) (vs : list value) (buf rest : bytes) :
  Forall frameable vs -> buf ++ rest = flat_map frame vs -> length buf < fuel ->
  exists vs1 vs2 buf', vs = vs1 ++ vs2 /\ decode_all fuel buf = (vs1, Ok buf')
    /\ buf' ++ rest = flat_map frame vs2 /\ (rest = [] -> vs2 = []).
Proof.
  revert vs buf. induction fuel as [|fuel IH]; intros vs buf Hvs E Hf; [lia|].
  destruct vs as [|v vs].
  { apply app_eq_nil in E as [-> ->]. by exists [], [], []. }
  inversion_clear Hvs as [|? ? Hv Hvs']. cbn [flat_map] in E. cbn [decode_all].
  assert ((exists k, buf = frame v ++ k /\ flat_map frame vs = k ++ rest)
          \/ (exists k, frame v = buf ++ k /\ k <> [] /\ rest = k ++ flat_map frame vs)) as [(k & -> & Ek)|(k & Ek & Hk & ->)].
  { destruct (app_eq_inv _ _ _ _ E) as [(k & Ek & El)|(k & Ek & El)]; [by left; exists k|].
    destruct k as [|x k]; [|by right; exists (x :: k)].
    left. exists []. rewrite app_nil_r in *. by subst. }
  - rewrite decode_frame by done.
    destruct (IH vs k Hvs') as (vs1 & vs2 & buf' & -> & -> & E' & Hn); [done| |].
    { rewrite length_app in Hf. pose proof (frame_nonempty v). destruct (frame v); [done|]. cbn [length] in Hf. lia. }
    by exists (v :: vs1), vs2, buf'.
  - rewrite (decode_partial v buf k) by done. exists [], (v :: vs), buf. split_and!; [done|done|exact E|].
    intros [-> _]%app_eq_nil. done.
Qed.

Lemma reader_frames (chunks : list bytes) (vs : list value) (buf : bytes) :
  Forall frameable vs -> Forall (fun c => c <> []) chunks -> buf ++ concat chunks = flat_map frame vs ->
  reader_task buf (map Ok chunks) = (vs, exited).
Proof.
  revert vs buf. induction chunks as [|c chunks IH]; intros vs buf Hvs Hc E; cbn [map concat reader_task] in *.
  - destruct (decode_all_frames (S (length buf)) vs buf [] Hvs E) as (vs1 & vs2 & buf' & -> & -> & _ & Hn); [lia|].
    by rewrite Hn, app_nil_r.
  - inversion_clear Hc as [|? ? Hc1 Hc2].
    destruct (decode_all_frames (S (length buf)) vs buf _ Hvs E) as (vs1 & vs2 & buf' & -> & -> & E' & _); [lia|].
    destruct c as [|x c]; [done|]. rewrite (IH vs2); [done| |done|by rewrite <- app_assoc].
    by apply Forall_app in Hvs as [_ ?].
Qed.

(** C28: What is sent in frames is received: whatever values are written, one frame after the
    other, and however the bytes are cut into reads, the task that reads dispatches these
    values, all of them and in order, and ends when the output does; no byte of one message
    is ever taken for the header of another. *)
Theorem frames_round_trip (vs : list value) (chunks : list bytes) :
  Forall frameable vs -> Forall (fun c => c <> []) chunks -> concat chunks = fold_left (fun dst v => encode v dst) vs [] ->
  reader_task [] (map Ok chunks) = (vs, exited).
Proof.
  intros Hvs Hc E. apply reader_frames; [done|done|]. cbn [app]. rewrite E. clear.
  assert (forall dst, fold_left (fun dst v => encode v dst) vs dst = dst ++ flat_map frame vs) as ->; [|done].
  induction vs as [|v vs IH]; intros dst; cbn [fold_left flat_map]; [by rewrite app_nil_r|].
  rewrite IH. unfold frame, encode. by rewrite <- !app_assoc.
Qed.
End Frames.

(** *** A concrete stream *)

Definition rpc_json : SerdeJson :=
  table_json [(lit "null", Null); (lit "true", Bool true); (lit "é", String (lit "é"))].
Definition rpc_errors : JsonErrors := {| parse_message := fun _ => lit "bad"; str_debug := fun s => s |}.
Definition frame_errors : FrameErrors :=
  {| utf8_message := fun _ => lit "no UTF-8"; slice_message := fun _ => lit "no JSON" |}.

(** The cut falls into the header and into a character. *)
Lemma frames_round_trip_witness :
  @reader_task rpc_json rpc_errors frame_errors []
    (map Ok [lit "Content-Len"; lit "gth: 4" ++ [13; 10]%N; [13; 10]%N ++ lit "nullContent-Length: 2" ++ [13; 10; 13; 10; 195]%N;
             [169]%N])
    = ([Null; String (lit "é")], exited).
Proof.
  apply (@frames_round_trip rpc_json rpc_errors frame_errors [Null; String (lit "é")]
           [lit "Content-Len"; lit "gth: 4" ++ [13; 10]%N; [13; 10]%N ++ lit "nullContent-Length: 2" ++ [13; 10; 13; 10; 195]%N;
            [169]%N]); [|by repeat constructor|by_compute].
  repeat apply Forall_cons_2; [..|apply Forall_nil_2];
    (split; [|split; [by_compute|vm_compute; discriminate]]).
  - repeat apply Forall_cons_2; [left; by_compute..|apply Forall_nil_2].
  - repeat apply Forall_cons_2; [left; by_compute..|apply Forall_nil_2].
Defined.

(** * Which request gets which answer

    The invariant of the client of [JsonRpc] under every interleaving of its tasks: what a
    request returns is the first answer to its number after it entered the table. *)

Section Answers.
Context `{SerdeJson}.

(** [reach acts c]: the client [c] after the steps [acts] of its tasks. *)
Inductive reach : list action -> rpc_client -> Prop :=
| reach_new : reach [] new_client
| reach_step acts c a c' : reach acts c -> step a c = Some c' -> reach (acts ++ [a]) c'.

Lemma run_reach acts c : run_actions acts new_client = Some c -> reach acts c.
Proof.
  assert (forall acts pre c0, reach pre c0 -> run_actions acts c0 = Some c -> reach (pre ++ acts) c) as Hgen.
  { intros acts0. induction acts0 as [|a acts0 IH]; intros pre c0 Hr E; cbn [run_actions] in E.
    - injection E as <-. by rewrite app_nil_r.
    - apply bind_Some in E as (c1 & E1 & E2). change (a :: acts0) with ([a] ++ acts0). rewrite app_assoc.
      eapply IH; [|exact E2]. by eapply reach_step. }
  intros E. exact (Hgen acts [] new_client reach_new E).
Qed.

(** The answer a step has for a number: a response with this number, or the end of the
    task that reads. *)
Definition gives (id : N) (a : action) : option answer :=
  match a with
  | Receive v _ => match response_of v with Some (id', x) => if (id' =? id)%N then Some x else None | None => None end
  | ReaderEnds msg => Some (Err msg)
  | _ => None
  end.
Definition registers (i : nat) (a : action) : bool :=
  match a with Register j => bool_decide (i = j) | _ => false end.
(** The steps after a request was entered in the table. *)
Fixpoint since (i : nat) (acts : list action) : option (list action) :=
  match acts with
  | [] => None
  | a :: acts => if registers i a then Some acts else since i acts
  end.
Definition id_of (i : nat) : N := (N.of_nat i + 1)%N.
(** The first answer to a number. *)
Definition first_answer (id : N) (acts : list action) : option answer := find_map (gives id) acts.
Definition cell_of (x : option answer) : cell := match x with Some a => Answered a | None => Pending end.

Inductive row (h : list action) (t : gmap N nat) (i : nat) : rpc_request -> Prop :=
| row_fresh m : since i h = None -> t !! id_of i = None -> row h t i (mk_request (id_of i) m Numbered Pending None)
| row_failed m s c e l : since i h = Some l -> s <> Numbered -> SendFails i e ∈ h -> t !! id_of i = None ->
    row h t i (mk_request (id_of i) m s c (Some (Err (RpcIo e))))
| row_live m s l o : since i h = Some l -> s <> Numbered ->
    t !! id_of i = (match first_answer (id_of i) l with None => Some i | _ => None end) ->
    o = None \/ o = outcome_of (cell_of (first_answer (id_of i) l)) ->
    row h t i (mk_request (id_of i) m s (cell_of (first_answer (id_of i) l)) o).

Lemma since_snoc i h a :
  since i (h ++ [a]) = match since i h with
                       | Some l => Some (l ++ [a])
                       | None => if registers i a then Some [] else None
                       end.
Proof. induction h as [|b h IH]; cbn [since app]; [by destruct (registers i a)|]. by destruct (registers i b). Qed.
Lemma first_answer_snoc id l a :
  first_answer id (l ++ [a]) = match first_answer id l with Some x => Some x | None => gives id a end.
Proof.
  unfold first_answer. induction l as [|b l IH]; cbn [find_map app]; [by destruct (gives id a)|].
  by destruct (gives id b).
Qed.
Lemma id_of_inj i j : id_of i = id_of j -> i = j.
Proof. unfold id_of. lia. Qed.

(** A step that has no answer for the request. *)
Lemma row_keeps h t i r a t' :
  gives (id_of i) a = None -> registers i a = false -> t' !! id_of i = t !! id_of i ->
  row h t i r -> row (h ++ [a]) t' i r.
Proof.
  intros Hg Hr Ht [m Hs Hn|m s c e l Hs Hne He Hn|m s l o Hs Hne Hl Ho].
  - apply row_fresh; [by rewrite since_snoc, Hs, Hr|congruence].
  - eapply row_failed; [by rewrite since_snoc, Hs|done|apply elem_of_app; by left|congruence].
  - assert (E : first_answer (id_of i) (l ++ [a]) = first_answer (id_of i) l)
      by (rewrite first_answer_snoc; by destruct (first_answer (id_of i) l)).
    rewrite <- E. apply row_live; rewrite ?E; [by rewrite since_snoc, Hs|done|congruence|done].
Qed.
(** A step that has one. *)
Lemma row_answered h t i r a t' x :
  gives (id_of i) a = Some x -> registers i a = false -> t' !! id_of i = None -> row h t i r ->
  row (h ++ [a]) t' i (if bool_decide (t !! id_of i = Some i) then settle (Answered x) r else r).
Proof.
  intros Hg Hr Ht [m Hs Hn|m s c e l Hs Hne He Hn|m s l o Hs Hne Hl Ho].
  - rewrite Hn. cbn. apply row_fresh; [by rewrite since_snoc, Hs, Hr|done].
  - rewrite Hn. cbn. eapply row_failed; [by rewrite since_snoc, Hs|done|apply elem_of_app; by left|done].
  - pose proof (first_answer_snoc (id_of i) l a) as E. rewrite Hg in E. rewrite Hl.
    destruct (first_answer (id_of i) l) as [y|] eqn:Ey.
    + rewrite bool_decide_false by done. rewrite <- E. apply row_live; rewrite ?E; [by rewrite since_snoc, Hs|done..].
    + rewrite bool_decide_true by done. unfold settle. cbn [rq_cell cell_of].
      unfold with_cell. cbn [rq_id rq_message rq_stage rq_outcome].
      change (Answered x) with (cell_of (Some x)). rewrite <- E.
      apply row_live; rewrite ?E; [by rewrite since_snoc, Hs|done|done|].
      left. by destruct Ho as [-> | ->].
Qed.

Record client_ok (h : list action) (c : rpc_client) : Prop := mk_client_ok {
  ok_next : next_id c = (id_of (length (requests c)) mod 2 ^ 64)%N;
  ok_rows : forall i r, requests c !! i = Some r -> row h (in_flight c) i r;
  ok_table : forall k i, in_flight c !! k = Some i -> k = id_of i /\ i < length (requests c);
  ok_since : forall i, since i h <> None -> i < length (requests c);
}.
Lemma client_ok_new : client_ok [] new_client.
Proof. split; [done|intros i r E; by destruct i|by intros k i E|done]. Qed.

Lemma row_id h t i r : row h t i r -> rq_id r = id_of i.
Proof. by destruct 1. Qed.

(** The steps that only touch one request, which has entered the table already. *)
Lemma client_ok_alter h c a t' i f :
  client_ok h c -> (forall id, gives id a = None) -> (forall j, registers j a = false) ->
  (forall j, j <> i -> t' !! id_of j = in_flight c !! id_of j) ->
  (forall k j, t' !! k = Some j -> in_flight c !! k = Some j) ->
  (forall r, requests c !! i = Some r -> row (h ++ [a]) t' i (f r)) ->
  forall w n, client_ok (h ++ [a]) (mk_client (next_id c) t' (alter f i (requests c)) w n (reader c)).
Proof.
  intros [Hn Hr Ht Hs] Hg Hreg Hother Hin Hf w n. split; cbn [next_id requests in_flight].
  - by rewrite length_alter.
  - intros j r E. destruct (decide (j = i)) as [->|Hji].
    + rewrite list_lookup_alter_eq in E. apply fmap_Some in E as (r0 & E0 & ->). by apply Hf.
    + rewrite list_lookup_alter_ne in E by done. apply row_keeps with (t := in_flight c); auto.
  - intros k j E. rewrite length_alter. by apply Ht, Hin.
  - intros j. rewrite length_alter, since_snoc, Hreg. intros Hj. apply Hs. by destruct (since j h).
Qed.

Lemma client_ok_begin h c method params c' :
  client_ok h c -> (N.of_nat (length (requests c)) + 1 < 2 ^ 64)%N ->
  step (Begin method params) c = Some c' -> client_ok (h ++ [Begin method params]) c'.
Proof.
  intros [Hn Hr Ht Hs] Hb [= <-]. rewrite N.mod_small in Hn by (unfold id_of; lia).
  split; cbn [next_id requests in_flight].
  - rewrite Hn, length_app. unfold u64_add1, id_of. f_equal. cbn [length]. lia.
  - intros j r E. apply lookup_app_Some in E as [E|[Hj E]].
    + apply row_keeps with (t := in_flight c); auto.
    + apply list_lookup_singleton_Some in E as [Ej <-]. rewrite Hn.
      replace (length (requests c)) with j by lia. apply row_fresh.
      * rewrite since_snoc. cbn [registers]. destruct (since j h) eqn:E; [|done].
        assert (j < length (requests c)) by (apply Hs; congruence). lia.
      * destruct (in_flight c !! id_of j) as [i|] eqn:E; [|done]. apply Ht in E as [E1%id_of_inj E2]. lia.
  - intros k j E. apply Ht in E as [-> ?]. split; [done|]. rewrite length_app. lia.
  - intros j. rewrite since_snoc, length_app. cbn [registers length]. specialize (Hs j).
    destruct (since j h); [|done]. intros _. assert (j < length (requests c)) by by apply Hs. lia.
Qed.

Lemma client_ok_register h c i c' :
  client_ok h c -> step (Register i) c = Some c' -> client_ok (h ++ [Register i]) c'.
Proof.
  intros [Hn Hr Ht Hs] E. cbn [step] in E. apply bind_Some in E as (r & Er & E).
  pose proof (Hr i r Er) as Hrow.
  destruct Hrow as [m Hnone Hfree|m s cl e l Hl Hne He Hf|m s l o Hl Hne Hf Ho]; cbn [rq_stage rq_id] in E; [|by destruct s..].
  rewrite Hfree in E. injection E as <-.
  split; cbn [next_id requests in_flight with_in_flight with_requests].
  - by rewrite length_alter.
  - intros j r E. destruct (decide (j = i)) as [->|Hji].
    + rewrite list_lookup_alter_eq, Er in E. injection E as <-.
      apply (row_live _ _ _ _ Registered []); [|done|by rewrite lookup_insert_eq|by left].
      rewrite since_snoc, Hnone. cbn [registers]. by rewrite bool_decide_true.
    + rewrite list_lookup_alter_ne in E by done. apply row_keeps with (t := in_flight c); auto.
      * cbn [registers]. by apply bool_decide_eq_false.
      * rewrite lookup_insert_ne; [done|]. intros F%id_of_inj. congruence.
  - intros k j. rewrite length_alter. intros [[<- <-]|[_ E]]%lookup_insert_Some; [|by apply Ht].
    split; [done|]. by eapply lookup_lt_Some.
  - intros j. rewrite since_snoc, length_alter. cbn [registers]. specialize (Hs j).
    destruct (since j h) as [l|]; [intros _; by apply Hs|].
    destruct (bool_decide_reflect (j = i)) as [->|]; [|done]. intros _. by eapply lookup_lt_Some.
Qed.

Lemma client_ok_receive h c v w :
  client_ok h c -> client_ok (h ++ [Receive v w]) (dispatch_message v w c).
Proof.
  intros [Hn Hr Ht Hs].
  assert (Hsame : forall wr no, (forall id, gives id (Receive v w) = None) ->
            client_ok (h ++ [Receive v w]) (mk_client (next_id c) (in_flight c) (requests c) wr no (reader c))).
  { intros wr no Hg. split; cbn [next_id requests in_flight]; [done| |done|].
    - intros j r E. apply row_keeps with (t := in_flight c); auto.
    - intros j. rewrite since_snoc. cbn [registers]. intros Hj. apply Hs. by destruct (since j h). }
  assert (Hreg : forall j, since j (h ++ [Receive v w]) <> None -> j < length (requests c)).
  { intros j. rewrite since_snoc. cbn [registers]. intros Hj. apply Hs. by destruct (since j h). }
  unfold dispatch_message. destruct (value_get (lit "method") v) as [method|] eqn:Em.
  { assert (Hg : forall id, gives id (Receive v w) = None).
    { intros id. cbn [gives]. unfold response_of. rewrite Em. done. }
    destruct (match value_get (lit "id") v with Some i => negb (is_null i) | None => false end); [destruct w|];
      [by apply Hsame| |by apply Hsame]. destruct c. by apply Hsame. }
  destruct (response_of v) as [[id x]|] eqn:Er.
  2:{ destruct c. apply Hsame. intros id. cbn [gives]. by rewrite Er. }
  assert (Hgid : forall j, gives (id_of j) (Receive v w) = if (id =? id_of j)%N then Some x else None).
  { intros j. cbn [gives]. by rewrite Er. }
  unfold complete. destruct (in_flight c !! id) as [i|] eqn:Ei.
  - pose proof (Ht id i Ei) as [-> Hi]. split; cbn [next_id requests in_flight with_in_flight with_requests].
    + by rewrite length_alter.
    + intros j r E. destruct (decide (j = i)) as [->|Hji].
      * rewrite list_lookup_alter_eq in E. apply fmap_Some in E as (r0 & E0 & ->).
        pose proof (row_answered h (in_flight c) i r0 (Receive v w) (delete (id_of i) (in_flight c)) x) as Ha.
        rewrite bool_decide_true in Ha by done. apply Ha; [by rewrite Hgid, N.eqb_refl|done|by rewrite lookup_delete_eq|].
        by apply Hr.
      * rewrite list_lookup_alter_ne in E by done. apply row_keeps with (t := in_flight c); auto.
        -- rewrite Hgid. destruct (N.eqb_spec (id_of i) (id_of j)) as [F%id_of_inj|]; [congruence|done].
        -- rewrite lookup_delete_ne; [done|]. intros F%id_of_inj. congruence.
    + intros k j. rewrite length_alter. intros [_ E]%lookup_delete_Some. by apply Ht.
    + intros j. rewrite length_alter. apply Hreg.
  - split; [done| |done|exact Hreg]. intros j r E. specialize (Hr j r E).
    destruct (N.eqb_spec id (id_of j)) as [->|Hne].
    + pose proof (row_answered h (in_flight c) j r (Receive v w) (in_flight c) x) as Ha.
      rewrite Ei, bool_decide_false in Ha by done. apply Ha; [by rewrite Hgid, N.eqb_refl|done|done|done].
    + apply row_keeps with (t := in_flight c); auto. rewrite Hgid. by apply N.eqb_neq in Hne as ->.
Qed.

Lemma client_ok_ends h c msg c' :
  client_ok h c -> step (ReaderEnds msg) c = Some c' -> client_ok (h ++ [ReaderEnds msg]) c'.
Proof.
  intros [Hn Hr Ht Hs] E. cbn [step] in E. destruct (reader c); [done|]. injection E as <-.
  split; cbn [next_id requests in_flight].
  - by rewrite length_imap.
  - intros j r E. rewrite list_lookup_imap in E. apply fmap_Some in E as (r0 & E0 & ->).
    specialize (Hr j r0 E0). rewrite (row_id _ _ _ _ Hr).
    apply (row_answered h (in_flight c) j r0 (ReaderEnds msg) ∅ (Err msg)); [done..|exact Hr].
  - intros k j E. by rewrite lookup_empty in E.
  - intros j. rewrite since_snoc, length_imap. cbn [registers]. intros Hj. apply Hs. by destruct (since j h).
Qed.

Lemma client_ok_step h c a c' :
  client_ok h c -> (N.of_nat (length (requests c')) < 2 ^ 64)%N -> step a c = Some c' -> client_ok (h ++ [a]) c'.
Proof.
  intros Hok Hb E. destruct a as [method params|i|i|i e|i|method params|v w|msg].
  - apply (client_ok_begin h c); [done| |done]. injection E as <-. cbn [requests] in Hb.
    rewrite length_app in Hb. cbn [length] in Hb. lia.
  - by apply (client_ok_register h c).
  - cbn [step] in E. apply bind_Some in E as (r & Er & E).
    destruct (rq_stage r) eqn:Es, (rq_outcome r) eqn:Eo; try discriminate E. injection E as <-.
    apply (client_ok_alter h c); [done..|]. intros r0 E0. rewrite Er in E0. injection E0 as <-.
    destruct (ok_rows _ _ Hok i r Er) as [m Hnone Hfree|m s cl e l Hl Hne He Hf|m s l o Hl Hne Hf Ho];
      cbn [rq_stage rq_outcome] in *; [done..|]. subst s o.
    apply (row_keeps h (in_flight c)); [done..|]. apply row_live; [done..|by left].
  - cbn [step] in E. apply bind_Some in E as (r & Er & E).
    destruct (rq_stage r) eqn:Es, (rq_outcome r) eqn:Eo; try discriminate E. injection E as <-.
    pose proof (ok_rows _ _ Hok i r Er) as Hrow. pose proof (row_id _ _ _ _ Hrow) as Hid. rewrite Hid.
    apply (client_ok_alter h c); [done..| | |].
    + intros j Hj. rewrite lookup_delete_ne; [done|]. intros F%id_of_inj. congruence.
    + intros k j [_ F]%lookup_delete_Some. done.
    + intros r0 E0. rewrite Er in E0. injection E0 as <-.
      destruct Hrow as [m Hnone Hfree|m s cl e0 l Hl Hne He Hf|m s l o Hl Hne Hf Ho];
        cbn [rq_stage rq_outcome] in *; [done..|]. eapply row_failed; [|done| |by rewrite lookup_delete_eq].
      * by rewrite since_snoc, Hl.
      * apply elem_of_app. right. by apply list_elem_of_singleton.
  - cbn [step] in E. apply bind_Some in E as (r & Er & E).
    destruct (rq_stage r) eqn:Es, (rq_outcome r) eqn:Eo; try discriminate E.
    apply bind_Some in E as (o' & Eo' & E). injection E as <-.
    apply (client_ok_alter h c); [done..|]. intros r0 E0. rewrite Er in E0. injection E0 as <-.
    destruct (ok_rows _ _ Hok i r Er) as [m Hnone Hfree|m s cl e l Hl Hne He Hf|m s l o Hl Hne Hf Ho];
      cbn [rq_stage rq_outcome] in *; [done..|]. subst s o.
    apply (row_keeps h (in_flight c)); [done..|]. apply row_live; [done..|]. right. by rewrite <- Eo'.
  - injection E as <-. destruct Hok as [Hn Hr Ht Hs]. split; cbn [next_id requests in_flight write]; [done| |done|].
    + intros j r E. apply row_keeps with (t := in_flight c); auto.
    + intros j. rewrite since_snoc. cbn [registers]. intros Hj. apply Hs. by destruct (since j h).
  - cbn [step] in E. destruct (reader c); [done|]. injection E as <-. by apply client_ok_receive.
  - by apply (client_ok_ends h c).
Qed.

Lemma requests_grow a c c' : step a c = Some c' -> length (requests c) <= length (requests c').
Proof.
  destruct a; cbn [step]; intros E; try (apply bind_Some in E as (r & _ & E));
    repeat case_match; simplify_eq; try (apply bind_Some in E as (o & _ & E); injection E as <-);
    unfold dispatch_message, complete, with_requests, with_in_flight, write in *; repeat case_match;
    cbn [requests]; rewrite ?length_app, ?length_alter, ?length_imap; lia.
Qed.

Lemma reach_ok h c : reach h c -> (N.of_nat (length (requests c)) < 2 ^ 64)%N -> client_ok h c.
Proof.
  induction 1 as [|h c a c' Hr IH E]; intros Hb; [apply client_ok_new|].
  apply (client_ok_step h c); [apply IH|done|done]. pose proof (requests_grow _ _ _ E). lia.
Qed.

(** The message of a request carries its number. *)
Definition message_ok (r : rpc_request) : Prop := exists m p, rq_message r = request_message (rq_id r) m p.

Lemma settle_message x r : message_ok r -> message_ok (settle x r).
Proof. intros Hr. unfold settle. by destruct (rq_cell r). Qed.
Lemma alter_messages f i l :
  (forall r, message_ok r -> message_ok (f r)) -> Forall message_ok l -> Forall message_ok (alter f i l).
Proof. intros Hf Hl. apply Forall_alter; [done|]. intros r _. apply Hf. Qed.

Lemma reach_messages h c : reach h c -> Forall message_ok (requests c).
Proof.
  induction 1 as [|h c a c' _ IH E]; [constructor|].
  destruct a; cbn [step] in E; try (apply bind_Some in E as (r & _ & E));
    repeat case_match; simplify_eq; try (apply bind_Some in E as (o & _ & E); injection E as <-);
    unfold dispatch_message, complete; repeat case_match; cbn [requests with_requests with_in_flight write];
    try done; repeat first [apply alter_messages; [by auto using settle_message|]]; try done.
  - apply Forall_app. split; [done|]. apply Forall_singleton. by eexists _, _.
  - apply Forall_lookup. intros i r E. rewrite list_lookup_imap in E. apply fmap_Some in E as (r0 & E0 & ->).
    rewrite Forall_lookup in IH. specialize (IH i r0 E0). case_match; [by apply settle_message|done].
Qed.

(** C27: Every request gets the answer that was meant for it, whatever its task and the
    others, and the task that reads, do in between: no two requests share a number; the
    message of a request carries its number; what a request returns is the error its write
    failed with, or the first thing that was received for its number after it entered the
    table: a response with this number, or the end of the task that reads.  And a request
    that was written can return as soon as there was one. *)
Theorem requests_get_their_answers (acts : list action) (c : rpc_client) :
  reach acts c -> (N.of_nat (length (requests c)) < 2 ^ 64)%N ->
  (forall i j r r', requests c !! i = Some r -> requests c !! j = Some r' -> rq_id r = rq_id r' -> i = j)
  /\ forall i r, requests c !! i = Some r ->
       (exists method params, rq_message r = request_message (rq_id r) method params)
       /\ (forall o, rq_outcome r = Some o ->
             (exists e, o = Err (RpcIo e) /\ SendFails i e ∈ acts)
             \/ exists l x, since i acts = Some l /\ first_answer (rq_id r) l = Some x
                            /\ o = map_err RemoteError x)
       /\ (rq_stage r = Written -> rq_outcome r = None ->
           (is_Some (step (Return i) c) <-> is_Some (since i acts ≫= first_answer (rq_id r)))).
Proof.
  intros Hr Hb. pose proof (reach_ok _ _ Hr Hb) as Hok. pose proof (reach_messages _ _ Hr) as Hm.
  split.
  { intros i j r r' Ei Ej E. apply (ok_rows _ _ Hok), row_id in Ei, Ej. apply id_of_inj. congruence. }
  intros i r Ei. rewrite Forall_lookup in Hm. specialize (Hm i r Ei). split; [exact Hm|].
  destruct (ok_rows _ _ Hok i r Ei) as [m Hnone Hfree|m s cl e l Hl Hne He Hf|m s l o Hl Hne Hf Ho];
    cbn [rq_outcome rq_stage rq_id].
  - split; [intros o [=]|]. by intros [=].
  - split; [|done]. intros o [= <-]. left. by exists e.
  - split.
    + intros o' ->. right. exists l. destruct Ho as [[=]|Ho].
      destruct (first_answer (id_of i) l) as [x|]; [|done]. exists x. split_and!; [done|done|].
      destruct x; by injection Ho as ->.
    + intros -> ->. cbn [step]. rewrite Ei, Hl. cbn [mbind option_bind rq_stage rq_outcome rq_cell].
      destruct (first_answer (id_of i) l) as [[v|m']|]; split; intros [y Hy]; first [discriminate Hy | by eexists].
Qed.

(** *** Nobody answers once the task that reads has ended *)

Lemma reader_ended_step a c c' msg :
  reader c = Some msg -> step a c = Some c' -> reader c' = Some msg /\ forall id, gives id a = None.
Proof.
  intros Hm E. destruct a; cbn [step] in E; rewrite ?Hm in E; try discriminate E;
    (split; [|done]); try (apply bind_Some in E as (r & _ & E));
    repeat case_match; simplify_eq; try done; apply bind_Some in E as (o & _ & E); by injection E as <-.
Qed.
Lemma reader_ended_run acts c c' msg :
  reader c = Some msg -> run_actions acts c = Some c' -> Forall (fun a => forall id, gives id a = None) acts.
Proof.
  revert c. induction acts as [|a acts IH]; intros c Hm E; [constructor|]. cbn [run_actions] in E.
  apply bind_Some in E as (c1 & E1 & E2). pose proof (reader_ended_step _ _ _ _ Hm E1) as [Hm1 Hg].
  constructor; [done|]. by eapply IH.
Qed.
Lemma reach_run acts acts' c c' : reach acts c -> run_actions acts' c = Some c' -> reach (acts ++ acts') c'.
Proof.
  revert acts c. induction acts' as [|a acts' IH]; intros acts c Hr E; cbn [run_actions] in E.
  - injection E as <-. by rewrite app_nil_r.
  - apply bind_Some in E as (c1 & E1 & E2). change (a :: acts') with ([a] ++ acts'). rewrite app_assoc.
    eapply IH; [|exact E2]. by eapply reach_step.
Qed.
Lemma since_app i h h' l : since i h = None -> since i (h ++ h') = Some l -> exists k, h' = k ++ l.
Proof.
  induction h as [|a h IH]; cbn [since app].
  - intros _. induction h' as [|b h' IH]; cbn [since]; [done|]. destruct (registers i b).
    + intros [= ->]. by exists [b].
    + intros E. destruct (IH E) as [k ->]. by exists (b :: k).
  - by destruct (registers i a).
Qed.
Lemma first_answer_none id l : Forall (fun a => forall id, gives id a = None) l -> first_answer id l = None.
Proof. unfold first_answer. induction 1 as [|a l Ha Hl IH]; cbn [find_map]; [done|]. by rewrite Ha. Qed.

(** Only what was entered can fail. *)
Lemma fails_registered h c i e :
  reach h c -> (N.of_nat (length (requests c)) < 2 ^ 64)%N -> SendFails i e ∈ h -> since i h <> None.
Proof.
  intros Hr. induction Hr as [|h c a c' Hr IH E]; intros Hb; [by intros ?%elem_of_nil|].
  pose proof (requests_grow _ _ _ E) as Hg. rewrite since_snoc.
  intros [Hin|Hin%list_elem_of_singleton]%elem_of_app.
  - specialize (IH ltac:(lia) Hin). by destruct (since i h).
  - subst a. cbn [step] in E. apply bind_Some in E as (r & Er & E).
    destruct (ok_rows _ _ (reach_ok _ _ Hr ltac:(lia)) i r Er) as [m Hnone Hfree|m s cl e0 l Hl Hne He Hf|m s l o Hl Hne Hf Ho];
      [done| |]; by rewrite Hl.
Qed.
Lemma requests_grow_run acts c c' : run_actions acts c = Some c' -> length (requests c) <= length (requests c').
Proof.
  revert c. induction acts as [|a acts IH]; intros c E; cbn [run_actions] in E; [by injection E as ->|].
  apply bind_Some in E as (c1 & E1 & E2). etransitivity; [by eapply requests_grow|by apply IH].
Qed.

(** A request that enters the table after the task that reads has ended returns only if
    its write fails: whatever happens, nothing answers it, and there is no time limit.  The
    task ends at a frame it cannot read while the program may well be alive. *)
Theorem late_requests_never_return (acts acts' : list action) (c c' : rpc_client) (msg : str) (i : nat)
    (r : rpc_request) (o : result RpcError value) :
  reach acts c -> reader c = Some msg -> since i acts = None ->
  run_actions acts' c = Some c' -> (N.of_nat (length (requests c')) < 2 ^ 64)%N ->
  requests c' !! i = Some r -> rq_outcome r = Some o -> exists e, o = Err (RpcIo e) /\ SendFails i e ∈ acts'.
Proof.
  intros Hr Hm Hs Hrun Hb Ei Ho. pose proof (reader_ended_run _ _ _ _ Hm Hrun) as Hg.
  pose proof (reach_run _ _ _ _ Hr Hrun) as Hr'. pose proof (reach_ok _ _ Hr' Hb) as Hok.
  pose proof (requests_grow_run _ _ _ Hrun) as Hgr.
  destruct (ok_rows _ _ Hok i r Ei) as [m Hnone Hfree|m s cl e l Hl Hne He Hfr|m s l o' Hl Hne Hfr Ho'];
    cbn [rq_outcome] in Ho; [done| |].
  - injection Ho as <-. exists e. split; [done|]. apply elem_of_app in He as [He|He]; [|done].
    apply (fails_registered _ _ i e Hr) in He; [done|lia].
  - exfalso. destruct (since_app _ _ _ _ Hs Hl) as [k ->]. apply Forall_app in Hg as [_ Hg].
    rewrite (first_answer_none _ l Hg) in Ho'. destruct Ho' as [-> | ->]; done.
Qed.
End Answers.

(** ** A concrete client *)

Definition reply_to (id : N) (v : value) : action :=
  Receive (response_message (Number (PosInt id)) v) true.
(** Two requests, answered in the other order, and the second answered twice. *)
Definition two_requests : list action :=
  [Begin (lit "ping") Null; Begin (lit "pong") Null; Register 1; Send 1; Register 0; Send 0;
   reply_to 2 (Bool true); reply_to 2 (Bool false); reply_to 1 Null; Return 0; Return 1].
Definition two_answered : rpc_client := default new_client (@run_actions rpc_json two_requests new_client).

Lemma requests_get_their_answers_witness :
  map rq_outcome (requests two_answered) = [Some (Ok Null); Some (Ok (Bool true))]
  /\ (forall i j r r', requests two_answered !! i = Some r -> requests two_answered !! j = Some r' ->
        rq_id r = rq_id r' -> i = j).
Proof.
  split; [by_compute|].
  refine (proj1 (@requests_get_their_answers rpc_json two_requests two_answered _ _)); [|by_compute].
  apply run_reach. by_compute.
Defined.

(** The header is broken: the requests in the table fail, and the next one waits for ever. *)
Definition broken : list action :=
  [Begin (lit "session.send") Null; Register 0; Send 0; ReaderEnds (lit "malformed"); Return 0; Begin (lit "session.abort") Null].
Definition after_broken : rpc_client := default new_client (@run_actions rpc_json broken new_client).
Definition refused : io.Error := io.mk_Error (io.OtherKind (lit "BrokenPipe") (lit "broken pipe")) (lit "Broken pipe (os error 32)").
Lemma late_requests_never_return_witness :
  exists e, @Err RpcError value (RpcIo refused) = Err (RpcIo e) /\ SendFails 1 e ∈ [Register 1; SendFails 1 refused].
Proof.
  refine (@late_requests_never_return rpc_json broken [Register 1; SendFails 1 refused] after_broken
           (default new_client (@run_actions rpc_json [Register 1; SendFails 1 refused] after_broken))
           (lit "malformed") 1
           (default (mk_request 0 Null Numbered Pending None)
              (requests (default new_client (@run_actions rpc_json [Register 1; SendFails 1 refused] after_broken)) !! 1))
           (Err (RpcIo refused)) _ _ _ _ _ _ _); try by_compute.
  apply run_reach. by_compute.
Defined.
