(* ===== verification/Skills.v ===== *)
(** * Skills

    [shared/skills.rs] of [har-provider]: the directories of the skills a node names.  A
    skill is looked for in four roots, of which the first that has it wins. *)

From S2P Require Import Prelude StdModel Json Paths Provider CliStream AgentProc.

Record ResolvedSkills : Type := mk_ResolvedSkills { sk_paths : list str; sk_missing : list str }.

Section Skills.
Context `{ProcessEnvironment}.

Definition skill_search_roots (cwd : str) : list str :=
  let home := match env_var (lit "HOME") with Some h => h | None => default (lit "~") base_dirs_home end in
  [path_join (path_join cwd (lit ".agents")) (lit "skills"); path_join (path_join cwd (lit ".claude")) (lit "skills");
   path_join (path_join home (lit ".agents")) (lit "skills"); path_join (path_join home (lit ".claude")) (lit "skills")].

Definition is_bad_skill_name (name : str) : bool :=
  str_eqb name (lit ".") || str_eqb name (lit "..") || is_absolute name
  || negb (Nat.eqb (length (components name)) 1).

(** [Path::exists]. *)
Definition path_exists (path : str) : agent bool :=
  meta ← call (StatPath path); Done match meta with Ok _ => true | Err _ => false end.

Definition skill_md (candidate : str) : str := path_join candidate (lit "SKILL.md").
Fixpoint find_skill (roots : list str) (name : str) : agent (option str) :=
  match roots with
  | [] => Done None
  | root :: roots =>
      let candidate := path_join root name in
      found ← path_exists (skill_md candidate);
      if found : bool then Done (Some candidate) else find_skill roots name
  end.

(** The names in order; [seen] are those looked for already. *)
Fixpoint resolve_names (roots : list str) (skill_names : list str) (seen : list str) : agent ResolvedSkills :=
  match skill_names with
  | [] => Done (mk_ResolvedSkills [] [])
  | raw_name :: skill_names =>
      let name := trim raw_name in
      if is_empty name then resolve_names roots skill_names seen
      else if is_bad_skill_name name then
        rest ← resolve_names roots skill_names seen;
        Done (mk_ResolvedSkills (sk_paths rest) (raw_name :: sk_missing rest))
      else if bool_decide (name ∈ seen) then resolve_names roots skill_names seen
      else
        found ← find_skill roots name;
        rest ← resolve_names roots skill_names (name :: seen);
        Done match found with
             | Some path => mk_ResolvedSkills (path :: sk_paths rest) (sk_missing rest)
             | None => mk_ResolvedSkills (sk_paths rest) (raw_name :: sk_missing rest)
             end
  end.

Definition resolve_skill_directories (cwd : str) (skill_names : list str) : agent ResolvedSkills :=
  resolve_names (skill_search_roots cwd) skill_names [].
End Skills.

(** ** Looking for skills returns, and is not seen *)

Section Quiet.
Context `{ProcessEnvironment}.

Lemma stat_gives path : gives (call (StatPath path)) (fun _ => True).
Proof. intros r. by exists r. Qed.
Lemma find_skill_quiet roots name : only_calls quiet (find_skill roots name) /\ gives (find_skill roots name) (fun _ => True).
Proof.
  induction roots as [|root roots [IH1 IH2]]; cbn [find_skill]; [split; [apply only_done|by apply gives_done]|]. split.
  - apply only_bind; [apply only_bind; [by apply (only_ask _ (StatPath _))|intros; apply only_done]|].
    intros [|]; [apply only_done|done].
  - apply gives_then; [apply gives_then; [apply stat_gives|intros; by apply gives_done]|].
    intros [|]; [by apply gives_done|done].
Qed.
Lemma resolve_names_quiet roots names seen :
  only_calls quiet (resolve_names roots names seen) /\ gives (resolve_names roots names seen) (fun _ => True).
Proof.
  revert seen. induction names as [|raw names IH]; intros seen; cbn [resolve_names]; cbv zeta.
  { split; [apply only_done|by apply gives_done]. }
  destruct (is_empty _); [apply IH|]. destruct (is_bad_skill_name _); [|destruct (bool_decide _); [apply IH|]]; split.
  1: apply only_bind; [apply IH|intros; apply only_done].
  1: apply gives_then; [apply IH|intros; by apply gives_done].
  1: apply only_bind; [apply find_skill_quiet|intros found; apply only_bind; [apply IH|intros; apply only_done]].
  apply gives_then; [apply find_skill_quiet|intros found; apply gives_then; [apply IH|intros; by apply gives_done]].
Qed.
End Quiet.

(** ** What is found *)

Section Specs.
Context `{ProcessEnvironment}.
(** Which paths exist. *)
Variable F : str -> bool.

Definition exists_as (e : event agent_call) : Prop :=
  match e with
  | mk_event c r => match c return response c -> Prop with
                    | StatPath p => fun r => match r with Ok _ => true | Err _ => false end = F p
                    | _ => fun _ => True
                    end r
  end.

(** Where a skill is, and what becomes of the names of a node: blank ones are passed over,
    and those that were looked for before; each of the others is a directory that was
    found, or a name that was not. *)
Definition skill_at (roots : list str) (name : str) : option str :=
  List.find (fun candidate => F (skill_md candidate)) (map (fun root => path_join root name) roots).
Fixpoint resolved_names (roots skill_names seen : list str) : list (str + str) :=
  match skill_names with
  | [] => []
  | raw :: skill_names =>
      let name := trim raw in
      if is_empty name then resolved_names roots skill_names seen
      else if is_bad_skill_name name then inr raw :: resolved_names roots skill_names seen
      else if bool_decide (name ∈ seen) then resolved_names roots skill_names seen
      else match skill_at roots name with Some path => inl path | None => inr raw end
             :: resolved_names roots skill_names (name :: seen)
  end.
Definition lefts (l : list (str + str)) : list str := omap (fun x => match x with inl p => Some p | inr _ => None end) l.
Definition rights (l : list (str + str)) : list str := omap (fun x => match x with inl _ => None | inr n => Some n end) l.

Lemma find_skill_spec roots name : gives_if exists_as (find_skill roots name) (eq (skill_at roots name)).
Proof.
  induction roots as [|root roots IH]; [by apply gives_if_done|]. cbn [find_skill].
  eapply gives_if_bind with (P := eq (F (skill_md (path_join root name)))).
  - eapply gives_if_bind; [apply (gives_if_ask _ (StatPath _))|]. intros r Hr. by apply gives_if_done.
  - intros found <-. unfold skill_at. cbn [map List.find].
    destruct (F (skill_md (path_join root name))); [by apply gives_if_done|exact IH].
Qed.

(** What skills a node gets: when the files do not change in between, each name is the
    directory in the first root that has a file [SKILL.md] for it, in the order of the
    names, or it is reported; each once. *)
Theorem resolve_skills_spec (cwd : str) (skill_names : list str) :
  gives_if exists_as (resolve_skill_directories cwd skill_names)
    (fun r => let l := resolved_names (skill_search_roots cwd) skill_names [] in
              r = mk_ResolvedSkills (lefts l) (rights l)).
Proof.
  unfold resolve_skill_directories. generalize (skill_search_roots cwd). intros roots. generalize (@nil str).
  induction skill_names as [|raw names IH]; intros seen; [by apply gives_if_done|].
  cbn [resolve_names resolved_names]. cbv zeta. destruct (is_empty (trim raw)); [apply IH|].
  destruct (is_bad_skill_name (trim raw)).
  { eapply gives_if_bind; [apply IH|]. intros rest ->. by apply gives_if_done. }
  destruct (bool_decide (trim raw ∈ seen)); [apply IH|].
  eapply gives_if_bind; [apply find_skill_spec|]. intros found <-.
  eapply gives_if_bind; [apply IH|]. intros rest ->. apply gives_if_done.
  by destruct (skill_at roots (trim raw)).
Qed.
End Specs.

(** A name is one component; with a separator after it, the parent directory is one too, so
    that a skill named so is looked for outside of the root. *)
Example parent_is_a_skill_name :
  is_bad_skill_name (lit "../") = false
  /\ components (path_join (lit "/w/.agents/skills") (lit "../"))
     = [RootDir; Normal (lit "w"); Normal (lit ".agents"); Normal (lit "skills"); ParentDir].
Proof. split; by_compute. Qed.
