(* ===== verification/CopilotEvents.v ===== *)
(** * The events of a Copilot session

    [copilot/event_bridge.rs] and the parser of session events of
    [copilot/jsonrpc_client.rs]: what an event of the session says to the conversation, and
    what is kept of it until the session is idle.  The queue of [event_bridge.rs], which
    nothing uses, is left out. *)

From S2P Require Import Prelude StdModel Float64 Json Provider.

(** ** Events *)

Record ToolStartEventData : Type := mk_ToolStart {
  ts_tool_call_id : str; ts_tool_name : str; ts_arguments : option value;
}.
Record ToolCompleteEventData : Type := mk_ToolComplete {
  tc_tool_call_id : str; tc_success : bool; tc_detailed_content : option str; tc_content : option str;
}.

Inductive CopilotEvent : Type :=
| AssistantMessageDelta (delta_content : option str)
| AssistantReasoningDelta (delta_content : option str)
| AssistantUsage (input_tokens output_tokens : option f64)
| ToolExecutionStart (data : ToolStartEventData)
| ToolExecutionComplete (data : ToolCompleteEventData)
| SessionError (message : option str)
| SessionCompactionStart
| Other (event_type : str).

Definition get_str (k : string) (data : value) : option str := v ← value_get (lit k) data; as_str v.

(** [parse_session_event]. *)
Definition parse_session_event (event_type : str) (data : value) : CopilotEvent :=
  let kind (s : string) := str_eqb event_type (lit s) in
  if kind "assistant.message_delta" then AssistantMessageDelta (get_str "deltaContent" data)
  else if kind "assistant.reasoning_delta" then AssistantReasoningDelta (get_str "deltaContent" data)
  else if kind "assistant.usage" then
    AssistantUsage (value_get (lit "inputTokens") data ≫= value_as_f64)
      (value_get (lit "outputTokens") data ≫= value_as_f64)
  else if kind "tool.execution_start" then
    ToolExecutionStart (mk_ToolStart (default [] (get_str "toolCallId" data)) (default [] (get_str "toolName" data))
      (value_get (lit "arguments") data))
  else if kind "tool.execution_complete" then
    let result := value_get (lit "result") data in
    ToolExecutionComplete (mk_ToolComplete (default [] (get_str "toolCallId" data))
      (default true (value_get (lit "success") data ≫= as_bool))
      (result ≫= get_str "detailedContent") (result ≫= get_str "content"))
  else if kind "session.error" then SessionError (get_str "message" data)
  else if kind "session.compaction_start" then SessionCompactionStart
  else Other event_type.

(** ** What is kept *)

Record EventMapperContext : Type := mk_EventMapperContext {
  tool_call_id_to_name : gmap str str;
  captured_tokens : option TokenUsage;
  error_message : option str;
}.
Definition new_context : EventMapperContext := mk_EventMapperContext ∅ None None.

Definition normalize_copilot_usage (input_tokens output_tokens : option f64) : option TokenUsage :=
  match input_tokens, output_tokens with
  | None, None => None
  | _, _ => Some (mk_TokenUsage (f64_to_u64 (default f64_zero input_tokens))
                    (f64_to_u64 (default f64_zero output_tokens)) None None)
  end.

(** "⚠️ ", "❌ ", "⚙️ " *)
Definition warning_sign : str := [9888; 65039; 32]%N.
Definition cross_mark : str := [10060; 32]%N.
Definition compacting : str := [9881; 65039; 32]%N ++ lit "Compacting context" ++ [8230%N].

Definition non_empty (o : option str) : option str :=
  match o with Some [] => None | _ => o end.
Definition or_empty_object (arguments : option value) : value :=
  match arguments with Some Null | None => Object [] | Some v => v end.

(** What an event says, and what is kept after it. *)
Definition map_copilot_event (event : CopilotEvent) (ctx : EventMapperContext)
  : list MessageChunk * EventMapperContext :=
  match event with
  | AssistantMessageDelta d =>
      (match non_empty d with Some content => [Assistant content None] | None => [] end, ctx)
  | AssistantReasoningDelta d =>
      (match non_empty d with Some content => [Thinking content] | None => [] end, ctx)
  | AssistantUsage input output =>
      ([], match normalize_copilot_usage input output with
           | Some usage => mk_EventMapperContext (tool_call_id_to_name ctx) (Some usage) (error_message ctx)
           | None => ctx
           end)
  | ToolExecutionStart data =>
      ([Tool (ts_tool_name data) (Some (or_empty_object (ts_arguments data))) (Some (ts_tool_call_id data))],
       mk_EventMapperContext (<[ts_tool_call_id data := ts_tool_name data]> (tool_call_id_to_name ctx))
         (captured_tokens ctx) (error_message ctx))
  | ToolExecutionComplete data =>
      let tool_name := default (lit "unknown") (tool_call_id_to_name ctx !! tc_tool_call_id data) in
      let raw_output :=
        default [] (match tc_detailed_content data with Some d => Some d | None => tc_content data end) in
      ((if tc_success data then [] else [System (warning_sign ++ lit "Tool " ++ tool_name ++ lit " failed")])
       ++ [ToolResult tool_name (if tc_success data then raw_output else cross_mark ++ raw_output)
             (Some (tc_tool_call_id data))], ctx)
  | SessionError message =>
      ([], mk_EventMapperContext (tool_call_id_to_name ctx) (captured_tokens ctx)
             (Some (default (lit "Copilot session error") (non_empty message))))
  | SessionCompactionStart => ([System compacting], ctx)
  | Other _ => ([], ctx)
  end.

(** The events of a session, one after the other. *)
Fixpoint map_events (events : list CopilotEvent) (ctx : EventMapperContext)
  : list MessageChunk * EventMapperContext :=
  match events with
  | [] => ([], ctx)
  | event :: events =>
      let '(chunks, ctx) := map_copilot_event event ctx in
      let '(rest, ctx) := map_events events ctx in
      (chunks ++ rest, ctx)
  end.

(** ** What the events of a session amount to *)

Definition answer_text (chunks : list MessageChunk) : str :=
  concat (omap (fun c => match c with Assistant s _ => Some s | _ => None end) chunks).
Definition thought_text (chunks : list MessageChunk) : str :=
  concat (omap (fun c => match c with Thinking s => Some s | _ => None end) chunks).
Definition delta_text (e : CopilotEvent) : str :=
  match e with AssistantMessageDelta (Some s) => s | _ => [] end.
Definition reasoning_text (e : CopilotEvent) : str :=
  match e with AssistantReasoningDelta (Some s) => s | _ => [] end.
(** The name a call was started under, by the last start of this call. *)
Definition start_name (id : str) (name : option str) (e : CopilotEvent) : option str :=
  match e with ToolExecutionStart d => if str_eqb (ts_tool_call_id d) id then Some (ts_tool_name d) else name | _ => name end.
Definition session_error (e : CopilotEvent) : option str :=
  match e with SessionError m => Some (default (lit "Copilot session error") (non_empty m)) | _ => None end.
Definition reported (e : CopilotEvent) : option TokenUsage :=
  match e with AssistantUsage i o => normalize_copilot_usage i o | _ => None end.

Lemma map_events_app a b ctx :
  map_events (a ++ b) ctx =
    (fst (map_events a ctx) ++ fst (map_events b (snd (map_events a ctx))), snd (map_events b (snd (map_events a ctx)))).
Proof.
  revert ctx. induction a as [|e a IH]; intros ctx; cbn [map_events app fst snd].
  - by destruct (map_events b ctx).
  - destruct (map_copilot_event e ctx) as [c ctx1]. rewrite IH. destruct (map_events a ctx1) as [r ctx2]. cbn [fst snd].
    by rewrite app_assoc.
Qed.

Lemma answer_text_app a b : answer_text (a ++ b) = answer_text a ++ answer_text b.
Proof. unfold answer_text. by rewrite omap_app, concat_app. Qed.
Lemma thought_text_app a b : thought_text (a ++ b) = thought_text a ++ thought_text b.
Proof. unfold thought_text. by rewrite omap_app, concat_app. Qed.

(** The state after a session. *)
Definition context_after (events : list CopilotEvent) (ctx : EventMapperContext) : Prop :=
  (forall id, tool_call_id_to_name ctx !! id = fold_left (start_name id) events None)
  /\ captured_tokens ctx = last (omap reported events) /\ error_message ctx = last (omap session_error events).

Lemma last_omap_snoc {A B} (f : A -> option B) l a :
  last (omap f (l ++ [a])) = match f a with Some b => Some b | None => last (omap f l) end.
Proof.
  rewrite omap_app. cbn [omap list_omap]. destruct (f a) as [b|]; [by rewrite last_snoc|by rewrite app_nil_r].
Qed.

Lemma map_event_context e events ctx :
  context_after events ctx -> context_after (events ++ [e]) (snd (map_copilot_event e ctx)).
Proof.
  intros (Hn & Ht & He). unfold context_after.
  assert (Hf : forall id, fold_left (start_name id) (events ++ [e]) None
                 = start_name id (fold_left (start_name id) events None) e) by (intros id; by rewrite fold_left_app).
  rewrite !last_omap_snoc. destruct e as [d|d|i o|d|d|m| |t]; cbn [map_copilot_event snd reported session_error];
    try (split_and!; [intros id; by rewrite Hf, Hn|done|done]).
  - destruct (normalize_copilot_usage i o); split_and!; try (intros id; by rewrite Hf, <- Hn); done.
  - split_and!; [|done|done]. intros id. rewrite Hf. cbn [start_name tool_call_id_to_name].
    rewrite lookup_insert. unfold str_eqb. case_decide as E.
    + by rewrite bool_decide_true.
    + by rewrite bool_decide_false, Hn.
Qed.

Lemma map_event_text e ctx :
  answer_text (fst (map_copilot_event e ctx)) = delta_text e
  /\ thought_text (fst (map_copilot_event e ctx)) = reasoning_text e.
Proof.
  destruct e as [[[|c s]|]|[[|c s]|]|i o|d|d|m| |t]; cbn [map_copilot_event fst non_empty delta_text reasoning_text];
    try done; try (by destruct (tc_success d)); unfold answer_text, thought_text; cbn; by rewrite app_nil_r.
Qed.

Lemma map_events_text events ctx :
  answer_text (fst (map_events events ctx)) = flat_map delta_text events
  /\ thought_text (fst (map_events events ctx)) = flat_map reasoning_text events.
Proof.
  revert ctx. induction events as [|e events IH]; intros ctx; cbn [map_events]; [done|].
  pose proof (map_event_text e ctx) as [Ha Ht]. destruct (map_copilot_event e ctx) as [c1 ctx1].
  specialize (IH ctx1) as [IHa IHt]. destruct (map_events events ctx1) as [c2 ctx2]. cbn [fst flat_map] in *.
  by rewrite answer_text_app, thought_text_app, Ha, Ht, IHa, IHt.
Qed.

Lemma map_events_context events : context_after events (snd (map_events events new_context)).
Proof.
  induction events as [|e events IH] using rev_ind; [done|]. rewrite map_events_app. cbn [snd map_events].
  pose proof (map_event_context e events _ IH) as Hn.
  by destruct (map_copilot_event e (snd (map_events events new_context))).
Qed.

(** What a session says, event by event: the answer is the concatenation of the deltas
    of the assistant and the thoughts that of its reasoning, in order and without loss;
    every end of a tool is told under the name its call was started with last; the usage is
    the last one reported, and the error the last one. *)
Theorem session_reads_back (events : list CopilotEvent) :
  let '(chunks, ctx) := map_events events new_context in
  answer_text chunks = flat_map delta_text events /\ thought_text chunks = flat_map reasoning_text events
  /\ context_after events ctx
  /\ forall pre data post, events = pre ++ ToolExecutionComplete data :: post ->
       exists before after out, chunks = before ++ ToolResult (default (lit "unknown") (fold_left (start_name (tc_tool_call_id data)) pre None)) out
                                          (Some (tc_tool_call_id data)) :: after.
Proof.
  pose proof (map_events_text events new_context) as [Ha Ht]. pose proof (map_events_context events) as Hc.
  destruct (map_events events new_context) as [chunks ctx] eqn:E. split_and!; [done..|].
  intros pre data post ->. rewrite map_events_app in E. injection E as <- _.
  cbn [map_events map_copilot_event]. destruct (map_events post _) as [rest ctx2]. cbn [fst].
  destruct (map_events_context pre) as (Hn & _ & _). rewrite Hn.
  match goal with
  | |- context [(?a ++ [ToolResult _ ?o _]) ++ rest] => exists (fst (map_events pre new_context) ++ a), rest, o
  end.
  rewrite <- !app_assoc. reflexivity.
Qed.
