(* ===== verification/CopilotSession.v ===== *)
(** * A Copilot session

    [CopilotCliSession] and [bridge_session_via_rpc] of [copilot/jsonrpc_client.rs]: the
    program is started and asked for its protocol, a session is created or resumed, the
    prompt is sent, the notifications are read until the session is idle, and everything is
    taken down again.

    The requests are calls, answered as [JsonRpc] describes; a request that is never
    answered is a call that does not return.  What is received from the subscription until
    nothing more comes in time is one finite answer, [None] for a notification that cannot
    be received, since the channel is closed or its receiver has fallen behind. *)

From S2P Require Import Prelude StdModel Float64 Json Paths Provider CliStream AgentProc JsonRpc.
From S2P Require Import CopilotEvents StructuredOutput.

(** ** Calls *)

Inductive copilot_call : Type :=
| Common (c : agent_call)
| FileMode (path : str)
| RunWhich (program : str)
| RandomBytes
| Now
| RpcStart (program : str) (args : list str) (env : gmap str str) (cwd : str)
| RpcRequest (method : str) (params : value)
| Subscribe
| Notifications
| RpcKill.
(** [FileMode]: whether the path is a file, and its permissions; [RunWhich]: what the
    program printed, when it succeeded; [RandomBytes]: sixteen; [Now] in nanoseconds. *)
Definition copilot_ret (c : copilot_call) : Type :=
  match c with
  | Common c => agent_ret c
  | FileMode _ => option (bool * N)
  | RunWhich _ => option str
  | RandomBytes => bytes
  | Now => N
  | RpcStart _ _ _ _ => result io.Error unit
  | RpcRequest _ _ => result RpcError value
  | Subscribe => unit
  | Notifications => list (option value)
  | RpcKill => unit
  end.
#[export] Instance copilot_calls : Calls copilot_call := copilot_ret.
Abbreviation copilot := (@Process.proc copilot_call copilot_calls).
Abbreviation copilot_trace := (Process.trace copilot_call).
Definition rpc (c : copilot_call) : copilot (copilot_ret c) := ask c.

Definition common {A} : agent A -> copilot A := lift Common (fun _ r => r).
Definition is_cancelled : copilot bool := rpc (Common IsCancelled).

(** ** Identifiers *)

Definition hex_digit (n : N) : char := (if n <? 10 then 48 + n else 87 + n)%N.
Definition hex_byte (b : N) : str := [hex_digit (N.land (N.shiftr b 4) 15); hex_digit (N.land b 15)].
(** The version and the variant of a random UUID. *)
Definition uuid_bytes (b : bytes) : bytes :=
  imap (fun i x => if Nat.eqb i 6 then N.lor (N.land x 15) 64
                   else if Nat.eqb i 8 then N.lor (N.land x 63) 128 else x)%N b.
Definition hex_part (from len : nat) (b : bytes) : str := flat_map hex_byte (take len (drop from b)).
Definition new_uuid_v4 (b : bytes) : str :=
  let b := uuid_bytes b in
  join (lit "-") [hex_part 0 4 b; hex_part 4 2 b; hex_part 6 2 b; hex_part 8 2 b; hex_part 10 6 b].

(** ** Parameters *)

Record SystemMessageWire : Type := mk_SystemMessageWire { sm_mode : str; sm_content : str }.
Record CopilotSessionParams : Type := mk_SessionParams {
  cs_session_id : option str;
  cs_model : str;
  cs_working_directory : str;
  cs_streaming : bool;
  cs_reasoning_effort : option str;
  cs_system_message : option SystemMessageWire;
  cs_available_tools : option (list str);
  cs_excluded_tools : option (list str);
  cs_mcp_servers : option value;
  cs_skill_directories : option (list str);
  cs_custom_agents : option (list value);
  cs_config_dir : option str;
  cs_enable_config_discovery : bool;
}.

Definition strings (l : list str) : value := Array (map String l).
Definition or_null (v : option value) : value := default Null v.

(** What creating and resuming a session say alike, in their orders. *)
Definition mode_params (p : CopilotSessionParams) : object :=
  [key "workingDirectory" (String (cs_working_directory p)); key "streaming" (Bool (cs_streaming p));
   key "requestPermission" (Bool true); key "envValueMode" (String (lit "direct"));
   key "enableConfigDiscovery" (Bool (cs_enable_config_discovery p))].

Definition build_session_create_params (session_id : str) (p : CopilotSessionParams) : value :=
  let listed (k : string) (l : option (list value)) :=
    match l with Some ((_ :: _) as l) => [key k (Array l)] | _ => [] end in
  Object
    ([key "model" (String (cs_model p)); key "sessionId" (String session_id)] ++ mode_params p
     ++ [key "reasoningEffort" (or_null (String <$> cs_reasoning_effort p));
         key "systemMessage" (or_null ((fun sm => Object [key "mode" (String (sm_mode sm));
                                                          key "content" (String (sm_content sm))])
                                       <$> cs_system_message p));
         key "availableTools" (or_null (strings <$> cs_available_tools p));
         key "excludedTools" (or_null (strings <$> cs_excluded_tools p))]
     ++ match cs_mcp_servers p with Some mcp => [key "mcpServers" mcp] | None => [] end
     ++ listed "skillDirectories"%string (map String <$> cs_skill_directories p)
     ++ listed "customAgents"%string (cs_custom_agents p)
     ++ match cs_config_dir p with Some d => [key "configDir" (String d)] | None => [] end).
Definition build_session_resume_params (session_id : str) (p : CopilotSessionParams) : value :=
  Object ([key "sessionId" (String session_id); key "model" (String (cs_model p))] ++ mode_params p).

Definition build_cli_args (log_level : str) (github_token : option str) (use_logged_in_user : bool) : list str :=
  [lit "--headless"; lit "--no-auto-update"; lit "--log-level"; log_level; lit "--stdio"]
  ++ (if github_token then [lit "--auth-token-env"; lit "COPILOT_SDK_AUTH_TOKEN"] else [])
  ++ (if use_logged_in_user then [] else [lit "--no-auto-login"]).
Definition build_cli_env (base_env : gmap str str) (github_token : option str) : gmap str str :=
  let env := delete (lit "NODE_DEBUG") base_env in
  match github_token with Some token => <[lit "COPILOT_SDK_AUTH_TOKEN" := token]> env | None => env end.

(** ** The session *)

Definition MIN_PROTOCOL_VERSION : N := 2.
Definition MAX_PROTOCOL_VERSION : N := 3.

(** The program, with [node] before a script. *)
Definition command_line (cli_path : str) (args : list str) : str * list str :=
  if ends_with (lit ".js") cli_path then (lit "node", cli_path :: args) else (cli_path, args).

(** [CopilotCliSession::start]. *)
Definition start_session (cli_path : str) (args : list str) (env : gmap str str) (cwd : str)
  : copilot (result RpcError unit) :=
  let '(program, full_args) := command_line cli_path args in
  spawned ← rpc (RpcStart program full_args env cwd);
  match spawned with
  | Err e => Done (Err (RpcSpawn (io.text e)))
  | Ok _ =>
      ping_result ←? rpc (RpcRequest (lit "ping") (Object []));
      let protocol_version := default 0%N (value_get (lit "protocolVersion") ping_result ≫= as_u64) in
      if (MIN_PROTOCOL_VERSION <=? protocol_version)%N && (protocol_version <=? MAX_PROTOCOL_VERSION)%N
      then Done (Ok tt)
      else
        _ ← rpc RpcKill;
        Done (Err (ProtocolVersionMismatch protocol_version MIN_PROTOCOL_VERSION MAX_PROTOCOL_VERSION))
  end.

(** The session that is created or resumed; of the response only the identifier is used. *)
Definition create_session (p : CopilotSessionParams) : copilot (result RpcError str) :=
  session_id ← match cs_session_id p with
               | Some id => Done id
               | None => b ← rpc RandomBytes; Done (new_uuid_v4 b)
               end;
  _ ←? rpc (RpcRequest (lit "session.create") (build_session_create_params session_id p));
  Done (Ok session_id).
Definition resume_session (session_id : str) (p : CopilotSessionParams) : copilot (result RpcError str) :=
  _ ←? rpc (RpcRequest (lit "session.resume") (build_session_resume_params session_id p));
  Done (Ok session_id).

Inductive SessionSignal : Type := NoSignal | ResumeFailed | ForkedToFresh.

Definition resolve_session (p : CopilotSessionParams) (resume_session_id : option str) (wants_fork : bool)
  : copilot (result RpcError (str * SessionSignal)) :=
  match resume_session_id with
  | Some resume_id =>
      if wants_fork then id ←? create_session p; Done (Ok (id, ForkedToFresh))
      else
        resumed ← resume_session resume_id p;
        match resumed with
        | Ok id => Done (Ok (id, NoSignal))
        | Err _ => id ←? create_session p; Done (Ok (id, ResumeFailed))
        end
  | None => id ←? create_session p; Done (Ok (id, NoSignal))
  end.

(** ** Notifications *)

Inductive notified_as : Type :=
| NotOurs
| SessionIdle (data : value)
| SessionEvent (e : CopilotEvent).

Definition route (session_id : str) (notif : value) : notified_as :=
  if str_eqb (default [] (get_str "method" notif)) (lit "session.event") then
    let params := default Null (value_get (lit "params") notif) in
    if negb (str_eqb (default [] (get_str "sessionId" params)) session_id) then NotOurs
    else
      let event_obj := default Null (value_get (lit "event") params) in
      let event_type := default [] (get_str "type" event_obj) in
      let data := default Null (value_get (lit "data") event_obj) in
      if str_eqb event_type (lit "session.idle") then SessionIdle data
      else SessionEvent (parse_session_event event_type data)
  else NotOurs.

(** What the loop of [send_and_wait] ends with, what it sent, and what it kept. *)
Fixpoint event_loop (session_id : str) (deadline : N) (items : list (option value)) (ctx : EventMapperContext)
  : copilot (result RpcError (option value) * list MessageChunk * EventMapperContext) :=
  cancelled ← is_cancelled;
  if cancelled : bool then Done (Ok None, [], ctx)
  else
    now ← rpc Now;
    if (deadline <=? now)%N then Done (Err RpcTimeout, [], ctx)
    else
      match items with
      | [] => Done (Err RpcTimeout, [], ctx)
      | None :: _ => Done (Ok None, [], ctx)
      | Some notif :: items =>
          match route session_id notif with
          | NotOurs => event_loop session_id deadline items ctx
          | SessionIdle data => Done (Ok (Some data), [], ctx)
          | SessionEvent e =>
              let '(chunks, ctx) := map_copilot_event e ctx in
              rest ← event_loop session_id deadline items ctx;
              Done (rest.1.1, chunks ++ rest.1.2, rest.2)
          end
      end.

Definition send_and_wait (session_id prompt : str) (timeout_ms : N) (ctx : EventMapperContext)
  : copilot (result RpcError (option value) * list MessageChunk * EventMapperContext) :=
  _ ← rpc Subscribe;
  sent ← rpc (RpcRequest (lit "session.send")
                (Object [key "sessionId" (String session_id); key "prompt" (String prompt)]));
  match sent with
  | Err e => Done (Err e, [], ctx)
  | Ok _ =>
      now ← rpc Now;
      items ← rpc Notifications;
      event_loop session_id (now + timeout_ms * 1000000)%N items ctx
  end.

(** Teardown: errors do not matter. *)
Definition session_param (session_id : str) : value := Object [key "sessionId" (String session_id)].
Definition tear_down (session_id : str) : copilot unit :=
  cancelled ← is_cancelled;
  _ ← (if cancelled : bool then Done tt
       else _ ← rpc (RpcRequest (lit "session.abort") (session_param session_id)); Done tt);
  _ ← rpc (RpcRequest (lit "session.destroy") (session_param session_id));
  rpc RpcKill.

(** ** From the prompt to the result *)

Definition extract_final_message_content (data : value) : option str :=
  match get_str "content" data with
  | Some content => Some content
  | None =>
      match value_get (lit "message") data ≫= get_str "content" with
      | Some content => Some content
      | None => get_str "text" data
      end
  end.

Definition copilot_error (subtype error : str) : MessageChunk :=
  ResultMsg (mk_ResultChunk None None None (Some true) (Some subtype) (Some [error]) None None None None).
Definition is_assistant (c : MessageChunk) : bool := match c with Assistant _ _ => true | _ => false end.

(** "⚠️ Could not resume Copilot session — starting a fresh conversation." *)
Definition resume_warning : str :=
  warning_sign ++ lit "Could not resume Copilot session " ++ [8212%N] ++ lit " starting a fresh conversation.".
Definition fork_warning : str :=
  warning_sign
  ++ lit "Copilot SDK does not support session forking; starting a fresh conversation to keep retries safe.".
Definition signal_chunks (s : SessionSignal) : list MessageChunk :=
  match s with
  | NoSignal => []
  | ResumeFailed => [System resume_warning]
  | ForkedToFresh => [System fork_warning]
  end.

Section Bridge.
Context `{SerdeJson} `{StructuredText}.

(** The message of the idle session, when nothing was streamed. *)
Definition fallback (has_assistant_content : bool) (send_result : result RpcError (option value)) : list MessageChunk :=
  if has_assistant_content then []
  else match send_result with
       | Ok (Some final_data) =>
           match non_empty (extract_final_message_content final_data) with
           | Some content => [Assistant content None]
           | None => []
           end
       | _ => []
       end.

(** Everything that is yielded, from what the session sent. *)
Definition bridge_chunks (active_session_id : str) (signal : SessionSignal) (wants_structured : bool)
    (send_result : result RpcError (option value)) (streamed : list MessageChunk) (ctx : EventMapperContext)
  : list MessageChunk :=
  let has_assistant_content := existsb is_assistant (signal_chunks signal ++ streamed) in
  let fell_back := fallback has_assistant_content send_result in
  let output_chunks := signal_chunks signal ++ streamed ++ fell_back in
  let assistant_buffer := answer_text (streamed ++ fell_back) in
  let is_error := bool_decide (is_Some (error_message ctx)) && negb (existsb is_assistant output_chunks) in
  let deferred :=
    match error_message ctx with
    | Some m => if has_assistant_content then [] else [System (warning_sign ++ m)]
    | None => []
    end in
  let structured_output := if wants_structured then try_parse_structured_output assistant_buffer else None in
  let timeout_error := match send_result with Err RpcTimeout => true | _ => false end in
  let errors :=
    match send_result with Err e => [RpcError_display e] | Ok _ => [] end
    ++ match error_message ctx with Some m => if is_error then [m] else [] | None => [] end in
  output_chunks ++ deferred
  ++ [ResultMsg (mk_ResultChunk (Some active_session_id) (captured_tokens ctx) structured_output
        (if is_error || timeout_error || negb (is_empty errors) then Some true else None)
        (if timeout_error then Some (lit "copilot_timeout") else None)
        (if is_empty errors then None else Some errors) None None None None)].

Definition SESSION_TIMEOUT_MS : N := 120000.

Definition bridge_session_via_rpc (cli_path github_token : option str) (use_logged_in_user : bool) (log_level : str)
    (merged_env : gmap str str) (session_config : CopilotSessionParams) (resume_session_id : option str)
    (wants_fork : bool) (prompt : str) (wants_structured : bool) : copilot (list MessageChunk) :=
  match cli_path with
  | None =>
      Done [copilot_error (lit "copilot_cli_not_found")
              (lit "Copilot CLI path not resolved (dev mode or missing binary). Set BUNDLED_IS_BINARY=true or provide copilotCliPath.")]
  | Some cli =>
      started ← start_session cli (build_cli_args log_level github_token use_logged_in_user)
                  (build_cli_env merged_env github_token) (cs_working_directory session_config);
      match started with
      | Err e => Done [copilot_error (lit "copilot_cli_spawn_failed") (RpcError_display e)]
      | Ok _ =>
          resolved ← resolve_session session_config resume_session_id wants_fork;
          match resolved with
          | Err e =>
              _ ← rpc RpcKill;
              Done [copilot_error (lit "copilot_session_create_failed") (RpcError_display e)]
          | Ok (active_session_id, signal) =>
              sent ← send_and_wait active_session_id prompt SESSION_TIMEOUT_MS new_context;
              let '(send_result, streamed, ctx) := sent in
              _ ← tear_down active_session_id;
              Done (bridge_chunks active_session_id signal wants_structured send_result streamed ctx)
          end
      end
  end.
End Bridge.
