(* ===== verification/CopilotSpecs.v ===== *)
(** * What a Copilot session guarantees

    The life of the program and of the session behind a query ([CopilotSession]), whatever
    is answered; and that a session that goes well is read back. *)

From S2P Require Import Prelude StdModel Float64 Json Paths Provider CliStream AgentProc JsonRpc.
From S2P Require Import CopilotEvents StructuredOutput CopilotSession.

(** ** The steps of a session *)

(** The start of the program, a request with the session it names and whether it was
    answered with a result, the end of the program, what the conversation is told, and
    whether the query was found cancelled. *)
Inductive life : Type :=
| Said (chunk : MessageChunk)
| Started (ok : bool)
| Asked (method : str) (session : option str) (ok : bool)
| Killed
| Polled (cancelled : bool).

Definition life_of (e : event copilot_call) : option life :=
  match e with
  | mk_event c r =>
      match c return response c -> option life with
      | RpcStart _ _ _ _ => fun r => Some (Started (match r with Ok _ => true | Err _ => false end))
      | RpcRequest m p => fun r => Some (Asked m (get_str "sessionId" p) (match r with Ok _ => true | Err _ => false end))
      | RpcKill => fun _ => Some Killed
      | Common (Yield chunk) => fun _ => Some (Said chunk)
      | Common IsCancelled => fun r => Some (Polled r)
      | _ => fun _ => None
      end r
  end.
Definition lives (tr : copilot_trace) : list life := omap life_of tr.

Definition PING : str := lit "ping".
Definition OPEN_METHODS : list str := [lit "session.create"; lit "session.resume"].
(** The requests that open a session: all but the last failed. *)
Inductive opening (id : str) (ok : bool) : list life -> Prop :=
| opening_once m : m ∈ OPEN_METHODS -> opening id ok [Asked m (Some id) ok]
| opening_twice id' : opening id ok [Asked (lit "session.resume") (Some id') false; Asked (lit "session.create") (Some id) ok].

(** One result, which is the last message. *)
Definition one_result (chunks : list MessageChunk) (P : ResultChunk -> Prop) : Prop :=
  exists body r, chunks = body ++ [ResultMsg r] /\ P r /\ Forall (fun c => forall r', c <> ResultMsg r') body.

(** While the events are read: it is found not to be cancelled, time and again; when it is,
    that is the last time. *)
Definition polls (l : list life) : Prop :=
  exists n (cut : bool), l = repeat (Polled false) n ++ (if cut then [Polled true] else []).
(** The end of a session, which is aborted unless the query was cancelled. *)
Inductive teardown (id : str) : list life -> Prop :=
| teardown_cancelled destroyed :
    teardown id [Polled true; Asked (lit "session.destroy") (Some id) destroyed; Killed]
| teardown_abort aborted destroyed :
    teardown id [Polled false; Asked (lit "session.abort") (Some id) aborted;
                 Asked (lit "session.destroy") (Some id) destroyed; Killed].

(** From the start to the end of a query, with the executable if there is one. *)
Inductive session_life (cli : option str) : list life -> list MessageChunk -> Prop :=
| life_unset subtype error : cli = None -> session_life cli [] [copilot_error subtype error]
| life_refused l subtype error :
    l ∈ [[Started false]; [Started true; Asked PING None false]; [Started true; Asked PING None true; Killed]] ->
    session_life cli l [copilot_error subtype error]
| life_not_opened l id error :
    opening id false l ->
    session_life cli ([Started true; Asked PING None true] ++ l ++ [Killed])
      [copilot_error (lit "copilot_session_create_failed") error]
| life_whole l id sent watched ending chunks :
    opening id true l -> polls watched -> (sent = false -> watched = []) -> teardown id ending ->
    one_result chunks (fun r => rc_session_id r = Some id /\ (sent = false -> rc_is_error r = Some true)) ->
    session_life cli ([Started true; Asked PING None true] ++ l ++ [Asked (lit "session.send") (Some id) sent]
                      ++ watched ++ ending) chunks.

(** ** Rules *)

(** The process returns, whatever is answered, and its steps and its result are in [R]. *)
Definition runs {A} (p : copilot A) (R : list life -> A -> Prop) : Prop :=
  always p (fun tr o => exists a, o = Ret a /\ R (lives tr) a).

Lemma lives_app a b : lives (a ++ b) = lives a ++ lives b.
Proof. apply omap_app. Qed.
Lemma runs_done {A} (a : A) (R : list life -> A -> Prop) : R [] a -> runs (Done a) R.
Proof. intros Ha. by exists a. Qed.
Lemma runs_rpc c (R : list life -> copilot_ret c -> Prop) :
  (forall r, R (lives [mk_event c r]) r) -> runs (rpc c) R.
Proof. intros HR r. by exists r. Qed.
Lemma runs_mono {A} (p : copilot A) (R R' : list life -> A -> Prop) :
  (forall l a, R l a -> R' l a) -> runs p R -> runs p R'.
Proof. intros H. apply always_mono. intros tr o (a & -> & Ha). exists a. split; [done|by apply H]. Qed.
Lemma runs_bind {A B} (p : copilot A) (f : A -> copilot B) R (R' : list life -> B -> Prop) :
  runs p R -> (forall k a, R k a -> runs (f a) (fun l b => R' (k ++ l) b)) -> runs (p ≫= f) R'.
Proof.
  intros Hp Hf. unfold runs. rewrite always_bind. eapply always_mono, Hp.
  intros tr o (a & -> & Ha). eapply always_mono, (Hf _ _ Ha).
  intros tr' o' (b & -> & Hb). exists b. split; [done|]. by rewrite lives_app.
Qed.
Lemma runs_try {E A B} (p : copilot (result E A)) (f : A -> copilot (result E B)) R (R' : list life -> result E B -> Prop) :
  runs p R -> (forall k e, R k (Err e) -> R' k (Err e)) -> (forall k a, R k (Ok a) -> runs (f a) (fun l b => R' (k ++ l) b)) ->
  runs (try p f) R'.
Proof.
  intros Hp He Hf. eapply runs_bind; [exact Hp|]. intros k [a|e] Hk; [by apply Hf|].
  apply runs_done. rewrite app_nil_r. by apply He.
Qed.
(** A call that is no step. *)
Lemma runs_skip {A} c (f : copilot_ret c -> copilot A) (R : list life -> A -> Prop) :
  (forall r, life_of (mk_event c r) = None) -> (forall r, runs (f r) R) -> runs (rpc c ≫= f) R.
Proof.
  intros Hc Hf. eapply runs_bind with (R := fun k _ => k = []).
  - apply runs_rpc. intros r. unfold lives. cbn [omap list_omap]. by rewrite Hc.
  - intros k a ->. apply Hf.
Qed.
Lemma runs_request {A} m p (f : result RpcError value -> copilot A) (R : list life -> A -> Prop) :
  (forall r, runs (f r) (fun l a => R (Asked m (get_str "sessionId" p) (match r with Ok _ => true | Err _ => false end) :: l) a)) ->
  runs (rpc (RpcRequest m p) ≫= f) R.
Proof.
  intros Hf. eapply runs_bind with (R := fun k r => k = [Asked m (get_str "sessionId" p) (match r with Ok _ => true | Err _ => false end)]).
  - apply runs_rpc. intros r. reflexivity.
  - intros k r ->. apply Hf.
Qed.
Lemma runs_kill {A} (f : unit -> copilot A) (R : list life -> A -> Prop) :
  runs (f tt) (fun l a => R (Killed :: l) a) -> runs (rpc RpcKill ≫= f) R.
Proof.
  intros Hf. eapply runs_bind with (R := fun k _ => k = [Killed]); [by apply runs_rpc|].
  intros k [] ->. apply Hf.
Qed.

Lemma runs_poll {A} (f : bool -> copilot A) (R : list life -> A -> Prop) :
  (forall r, runs (f r) (fun l a => R (Polled r :: l) a)) -> runs (is_cancelled ≫= f) R.
Proof.
  intros Hf. eapply runs_bind with (R := fun k r => k = [Polled r]); [by apply runs_rpc|].
  intros k r ->. apply Hf.
Qed.

(** ** The parts *)

Lemma start_session_runs cli args env cwd :
  runs (start_session cli args env cwd)
    (fun l r => match r with
                | Ok _ => l = [Started true; Asked PING None true]
                | Err _ => l ∈ [[Started false]; [Started true; Asked PING None false];
                                [Started true; Asked PING None true; Killed]]
                end).
Proof.
  unfold start_session. destruct (command_line cli args) as [program full].
  eapply runs_bind with (R := fun k r => k = [Started (match r with Ok _ => true | Err _ => false end)]); [by apply runs_rpc|].
  intros k [[]|e] ->; [|apply runs_done; set_solver]. unfold try. apply runs_request.
  intros [ping|e]; [|apply runs_done; set_solver]. cbv zeta.
  case_match; [by apply runs_done|]. apply runs_kill, runs_done. set_solver.
Qed.

(** The parameters name the session. *)
Lemma create_params_session id p : get_str "sessionId" (build_session_create_params id p) = Some id.
Proof. reflexivity. Qed.
Lemma resume_params_session id p : get_str "sessionId" (build_session_resume_params id p) = Some id.
Proof. reflexivity. Qed.
Lemma session_param_session id : get_str "sessionId" (session_param id) = Some id.
Proof. reflexivity. Qed.

Lemma create_session_runs p :
  runs (create_session p)
    (fun l r => exists id, l = [Asked (lit "session.create") (Some id) (match r with Ok _ => true | Err _ => false end)]
                           /\ (forall id', r = Ok id' -> id' = id)).
Proof.
  unfold create_session. apply (runs_bind _ _ (fun k _ => k = [])).
  - destruct (cs_session_id p) as [id|]; [by apply runs_done|]. apply runs_skip; [done|]. intros r. by apply runs_done.
  - intros k id ->. unfold try. apply runs_request. rewrite create_params_session.
    intros [v|e]; apply runs_done; exists id; (split; [reflexivity|]); [by intros id' [= ->]|done].
Qed.

Definition opened (l : list life) (r : result RpcError (str * SessionSignal)) : Prop :=
  match r with Ok (id, _) => opening id true l | Err _ => exists id, opening id false l end.

Lemma create_opens p (s : SessionSignal) :
  runs (id ←? create_session p; Done (Ok (id, s))) opened.
Proof.
  eapply runs_try; [apply create_session_runs| |].
  - intros k e (id & -> & _). exists id. apply opening_once. set_solver.
  - intros k id (id' & -> & Hid). rewrite (Hid id eq_refl). apply runs_done. rewrite app_nil_r.
    apply opening_once. set_solver.
Qed.

Lemma resolve_session_runs p resume fork : runs (resolve_session p resume fork) opened.
Proof.
  unfold resolve_session. destruct resume as [id|]; [|apply create_opens].
  destruct fork; [apply create_opens|]. unfold resume_session, try.
  eapply (runs_bind _ _ (fun k r => k = [Asked (lit "session.resume") (Some id) (match r with Ok _ => true | Err _ => false end)]
                                    /\ forall id', r = Ok id' -> id' = id)).
  { apply runs_request. rewrite resume_params_session.
    intros [v|e]; apply runs_done; (split; [reflexivity|]); [by intros id' [= ->]|done]. }
  intros k [id'|e] [-> Hid].
  - rewrite (Hid id' eq_refl). apply runs_done. apply opening_once. set_solver.
  - eapply runs_try; [apply create_session_runs| |].
    + intros k e' (id2 & -> & _). exists id2. apply opening_twice.
    + intros k id2 (id' & -> & Hid2). rewrite (Hid2 id2 eq_refl). apply runs_done. rewrite app_nil_r. apply opening_twice.
Qed.

Lemma polls_more l : polls l -> polls (Polled false :: l).
Proof. intros (n & cut & ->). by exists (S n), cut. Qed.
Lemma polls_last : polls [Polled false].
Proof. by exists 1, false. Qed.

Lemma event_loop_runs id deadline items ctx :
  runs (event_loop id deadline items ctx)
    (fun l r => polls l /\ Forall (fun c => forall r', c <> ResultMsg r') r.1.2).
Proof.
  revert ctx. induction items as [|item items IH]; intros ctx; cbn [event_loop]; apply runs_poll;
    (intros [|]; [apply runs_done; split; [by exists 0, true|done]|]);
    (apply runs_skip; [done|]); intros now;
    (destruct (deadline <=? now)%N; [apply runs_done; by split; [apply polls_last|]|]);
    [apply runs_done; by split; [apply polls_last|]|].
  destruct item as [notif|]; [|apply runs_done; by split; [apply polls_last|]].
  destruct (route id notif) as [|data|e]; [|apply runs_done; by split; [apply polls_last|]|].
  { eapply runs_mono, IH. intros l r [Hl Hr]. by split; [apply polls_more|]. }
  destruct (map_copilot_event e ctx) as [chunks ctx1] eqn:E. eapply runs_bind; [apply IH|].
  intros k r [Hk Hr]. apply runs_done. rewrite app_nil_r. split; [by apply polls_more|].
  cbn [fst snd]. apply Forall_app. split; [|done].
  assert (chunks = fst (map_copilot_event e ctx)) as -> by (by rewrite E).
  destruct e as [[[|c s]|]|[[|c s]|]|i o|d|d|m| |t]; cbn [map_copilot_event fst non_empty]; repeat constructor; try done.
  by destruct (tc_success d); repeat constructor.
Qed.

Lemma send_and_wait_runs id prompt t ctx :
  runs (send_and_wait id prompt t ctx)
    (fun l r => exists sent watched, l = Asked (lit "session.send") (Some id) sent :: watched
                /\ polls watched /\ (sent = false -> watched = [])
                /\ (sent = false -> exists e, r.1.1 = Err e) /\ Forall (fun c => forall r', c <> ResultMsg r') r.1.2).
Proof.
  unfold send_and_wait. apply runs_skip; [done|]. intros _. apply runs_request. intros [v|e].
  - apply runs_skip; [done|]. intros now. apply runs_skip; [done|]. intros items.
    eapply runs_mono, event_loop_runs. intros l r [Hl Hr]. by exists true, l.
  - apply runs_done. exists false, []. split_and!; [done|by exists 0, false|done|by exists e|by constructor].
Qed.

Lemma tear_down_runs id : runs (tear_down id) (fun l _ => teardown id l).
Proof.
  assert (Hd : runs (_ ← rpc (RpcRequest (lit "session.destroy") (session_param id)); rpc RpcKill)
                 (fun l _ => exists ok, l = [Asked (lit "session.destroy") (Some id) ok; Killed])).
  { apply runs_request. intros r. apply runs_rpc. intros []. eexists. reflexivity. }
  unfold tear_down. apply runs_poll. intros [|].
  - eapply runs_bind with (R := fun k _ => k = []); [by apply runs_done|]. intros k _ ->.
    eapply runs_mono, Hd. intros l _ [ok ->]. apply teardown_cancelled.
  - eapply runs_bind with (R := fun k _ => exists ok, k = [Asked (lit "session.abort") (Some id) ok]).
    { apply runs_request. intros r. apply runs_done. by eexists. }
    intros k _ [ok ->]. eapply runs_mono, Hd. intros l _ [ok' ->]. apply teardown_abort.
Qed.

Section Bridge.
Context `{SerdeJson} `{StructuredText}.

Lemma bridge_one_result id signal wants send_result streamed ctx :
  Forall (fun c => forall r', c <> ResultMsg r') streamed ->
  one_result (bridge_chunks id signal wants send_result streamed ctx)
    (fun r => rc_session_id r = Some id /\ ((exists e, send_result = Err e) -> rc_is_error r = Some true)).
Proof.
  intros Hs. unfold bridge_chunks. cbv zeta. rewrite !app_assoc. eexists _, _. split; [reflexivity|]. split.
  - cbn [rc_session_id rc_is_error]. split; [done|]. intros [e ->]. cbn [app is_empty negb]. by rewrite orb_true_r.
  - rewrite !Forall_app. split_and!; [by destruct signal; repeat constructor|done| |].
    + unfold fallback. repeat case_match; repeat constructor; done.
    + repeat case_match; repeat constructor; done.
Qed.

Lemma session_lifecycle_runs cli_path github_token login log_level env config resume fork prompt wants :
  runs (bridge_session_via_rpc cli_path github_token login log_level env config resume fork prompt wants)
    (session_life cli_path).
Proof.
  unfold bridge_session_via_rpc. destruct cli_path as [cli|]; [|by apply runs_done, life_unset].
  eapply runs_bind; [apply start_session_runs|]. intros k [[]|e] Hk.
  2:{ apply runs_done, life_refused. rewrite app_nil_r. set_solver. }
  subst k. eapply runs_bind; [apply resolve_session_runs|]. intros k [[id signal]|e] Hk; cbn [opened] in Hk.
  2:{ destruct Hk as [id Hk]. apply runs_kill, runs_done. by eapply life_not_opened. }
  eapply runs_bind; [apply send_and_wait_runs|]. intros k2 [[sr streamed] ctx] (sent & watched & -> & Hpolls & Hwatched & Hsent & Hres).
  cbn [fst snd] in *. eapply runs_bind; [apply tear_down_runs|]. intros k3 [] Hend.
  apply runs_done. rewrite app_nil_r. cbn [app]. eapply life_whole; [exact Hk|exact Hpolls|exact Hwatched|exact Hend|].
  destruct (bridge_one_result id signal wants sr streamed ctx Hres) as (body & r & -> & [Hid Herr] & Hb).
  exists body, r. split_and!; [done|done| |done]. intros Hf. apply Herr. by apply Hsent.
Qed.

(** The life of a query to Copilot, whatever is answered: it always returns; the program
    is started at most once and asked for its protocol first; a program that answered is
    ended exactly once, after everything else; a session is opened by one request, or by a
    second one when it could not be resumed; the prompt is sent once, to the session that
    was opened, which is the one the result names and the one that is destroyed before the
    end; and exactly one result is yielded, last, an error unless the prompt was taken. *)
Theorem session_lifecycle (cli_path github_token : option str) (use_logged_in_user : bool) (log_level : str)
    (env : gmap str str) (config : CopilotSessionParams) (resume : option str) (wants_fork : bool)
    (prompt : str) (wants_structured : bool) :
  always (bridge_session_via_rpc cli_path github_token use_logged_in_user log_level env config resume
            wants_fork prompt wants_structured)
    (fun tr o => exists chunks, o = Ret chunks /\ session_life cli_path (lives tr) chunks).
Proof. apply session_lifecycle_runs. Qed.
End Bridge.

(** ** A session that goes well *)

(** The events of a session among the notifications, up to the one that says it is idle. *)
Fixpoint heard (id : str) (notifs : list value) : list CopilotEvent * option value :=
  match notifs with
  | [] => ([], None)
  | n :: notifs =>
      match route id n with
      | NotOurs => heard id notifs
      | SessionIdle data => ([], Some data)
      | SessionEvent e => (e :: fst (heard id notifs), snd (heard id notifs))
      end
  end.

Definition two_minutes : N := (SESSION_TIMEOUT_MS * 1000000)%N.
(** The program starts and speaks the protocol; every request is answered; the query is not
    cancelled; less than two minutes pass from [t0] on; the notifications are [notifs]. *)
Definition session_well (t0 : N) (notifs : list value) (e : event copilot_call) : Prop :=
  match e with
  | mk_event c r =>
      match c return response c -> Prop with
      | Common IsCancelled => fun r => r = false
      | RpcStart _ _ _ _ => fun r => r = Ok tt
      | RpcRequest m _ => fun r => exists v, r = Ok v
          /\ (m = PING -> exists n, value_get (lit "protocolVersion") v ≫= as_u64 = Some n /\ (2 <= n <= 3)%N)
      | Now => fun r => (t0 <= r < t0 + two_minutes)%N
      | Notifications => fun r => r = map Some notifs
      | _ => fun _ => True
      end r
  end.

Section ReadBack.
Variables (t0 : N) (notifs : list value).
Let W := session_well t0 notifs.

Lemma well_rpc {A} c (f : copilot_ret c -> copilot A) (Q : A -> Prop) :
  (forall r, W (@mk_event copilot_call copilot_calls c r) -> gives_if W (f r) Q) -> gives_if W (rpc c ≫= f) Q.
Proof.
  intros Hf r. apply (always_mono _ (fun tr o => W (@mk_event copilot_call copilot_calls c r) -> Forall W tr -> exists a, o = Ret a /\ Q a)).
  - intros tr o Ho Hall. inversion_clear Hall as [|? ? H1 H2]. by apply Ho.
  - apply always_impl. intros Hr. by apply Hf.
Qed.
Lemma well_request {B} m p (f : value -> copilot (result RpcError B)) (Q : result RpcError B -> Prop) :
  (forall v, (m = PING -> exists n, value_get (lit "protocolVersion") v ≫= as_u64 = Some n /\ (2 <= n <= 3)%N) ->
             gives_if W (f v) Q) -> gives_if W (try (rpc (RpcRequest m p)) f) Q.
Proof. intros Hf. unfold try. apply well_rpc. intros r (v & -> & Hv). by apply Hf. Qed.
(** A call whose answer does not matter. *)
Lemma well_skip {A} c (f : copilot_ret c -> copilot A) (Q : A -> Prop) :
  (forall r, gives_if W (f r) Q) -> gives_if W (rpc c ≫= f) Q.
Proof. intros Hf. apply well_rpc. intros r _. apply Hf. Qed.

Lemma event_loop_well id deadline ns data ctx :
  (t0 + two_minutes <= deadline)%N -> snd (heard id ns) = Some data ->
  gives_if W (event_loop id deadline (map Some ns) ctx)
    (fun r => r = (Ok (Some data), fst (map_events (fst (heard id ns)) ctx), snd (map_events (fst (heard id ns)) ctx))).
Proof.
  intros Hd. revert ctx. induction ns as [|n ns IH]; intros ctx Hs; [done|].
  cbn [map event_loop heard] in *. apply well_rpc. intros r Hr. cbn in Hr. subst r.
  apply well_rpc. intros now Hnow. cbn in Hnow. destruct (N.leb_spec deadline now) as [Hle|_]; [lia|].
  destruct (route id n) as [|d|e]; cbn [fst snd] in *.
  - by apply IH.
  - injection Hs as ->. by apply gives_if_done.
  - cbn [map_events]. destruct (map_copilot_event e ctx) as [chunks ctx1]. eapply gives_if_bind; [by apply IH|].
    intros r ->. apply gives_if_done. cbn [fst snd]. by destruct (map_events (fst (heard id ns)) ctx1).
Qed.

Context `{SerdeJson} `{StructuredText}.

Lemma bridge_well cli token login log_level env config id prompt wants data :
  snd (heard id notifs) = Some data ->
  gives_if W (bridge_session_via_rpc (Some cli) token login log_level env config (Some id) false prompt wants)
    (eq (bridge_chunks id NoSignal wants (Ok (Some data)) (fst (map_events (fst (heard id notifs)) new_context))
           (snd (map_events (fst (heard id notifs)) new_context)))).
Proof.
  intros Hd. unfold bridge_session_via_rpc, start_session.
  destruct (command_line cli (build_cli_args log_level token login)) as [program args].
  eapply gives_if_bind with (P := eq (Ok tt)).
  { apply well_rpc. intros r Hr. cbn in Hr. subst r. apply well_request. intros v Hv.
    destruct (Hv eq_refl) as (n & -> & Hn). change (default 0%N (Some n)) with n. cbv zeta. 
    replace ((MIN_PROTOCOL_VERSION <=? n)%N && (n <=? MAX_PROTOCOL_VERSION)%N) with true; [by apply gives_if_done|].
    symmetry. apply andb_true_iff. unfold MIN_PROTOCOL_VERSION, MAX_PROTOCOL_VERSION. by rewrite !N.leb_le. }
  intros r <-. eapply gives_if_bind with (P := eq (Ok (id, NoSignal))).
  { eapply gives_if_bind with (P := eq (Ok id)); [|intros r <-; by apply gives_if_done].
    unfold resume_session. apply well_request. intros v _. by apply gives_if_done. }
  intros r <-. eapply gives_if_bind.
  { unfold send_and_wait. apply well_skip. intros _. apply well_rpc. intros r (v & -> & _).
    apply well_rpc. intros now Hnow. apply well_rpc. intros items Hi. cbn in Hi, Hnow. subst items.
    apply event_loop_well; [unfold two_minutes; lia|exact Hd]. }
  intros r ->. eapply gives_if_bind with (P := fun _ => True); [|intros _ _; by apply gives_if_done].
  unfold tear_down. apply well_skip. intros cancelled. eapply gives_if_bind with (P := fun _ => True).
  { destruct cancelled; [by apply gives_if_done|]. apply well_skip. intros _. by apply gives_if_done. }
  intros _ _. apply well_skip. intros _ r Hr. by exists r.
Qed.
End ReadBack.

(** The answer: what was streamed, or the message of the idle session. *)
Definition whole_answer (events : list CopilotEvent) (data : value) : str :=
  match flat_map delta_text events with
  | [] => default [] (extract_final_message_content data)
  | answer => answer
  end.
(** The result: an error only when the session reported one and gave no answer. *)
Definition good_result (id : str) (events : list CopilotEvent) (data : value) (r : ResultChunk) : Prop :=
  rc_session_id r = Some id /\ rc_tokens r = last (omap reported events) /\ rc_error_subtype r = None
  /\ (rc_is_error r = None <-> omap session_error events = [] \/ whole_answer events data <> []).

Lemma map_events_assistant events ctx :
  existsb is_assistant (fst (map_events events ctx)) = negb (is_empty (flat_map delta_text events)).
Proof.
  revert ctx. induction events as [|e events IH]; intros ctx; cbn [map_events]; [done|].
  assert (He : existsb is_assistant (fst (map_copilot_event e ctx)) = negb (is_empty (delta_text e))).
  { destruct e as [[[|c s]|]|[[|c s]|]|i o|d|d|m| |t]; cbn [map_copilot_event fst non_empty]; try done.
    by destruct (tc_success d). }
  destruct (map_copilot_event e ctx) as [c1 ctx1]. specialize (IH ctx1). destruct (map_events events ctx1) as [c2 ctx2].
  cbn [fst flat_map] in *. rewrite existsb_app, He, IH. by destruct (delta_text e).
Qed.
Lemma map_events_results events ctx : Forall (fun c => forall r, c <> ResultMsg r) (fst (map_events events ctx)).
Proof.
  revert ctx. induction events as [|e events IH]; intros ctx; cbn [map_events]; [constructor|].
  assert (He : Forall (fun c => forall r, c <> ResultMsg r) (fst (map_copilot_event e ctx))).
  { destruct e as [[[|c s]|]|[[|c s]|]|i o|d|d|m| |t]; cbn [map_copilot_event fst non_empty]; repeat constructor; try done.
    by destruct (tc_success d); repeat constructor. }
  destruct (map_copilot_event e ctx) as [c1 ctx1]. specialize (IH ctx1). destruct (map_events events ctx1) as [c2 ctx2].
  cbn [fst] in *. by apply Forall_app.
Qed.
Lemma last_none {A} (l : list A) : last l = None <-> l = [].
Proof. apply last_None. Qed.

Section GoodSession.
Context `{SerdeJson} `{StructuredText}.

(** What is yielded when the session becomes idle. *)
Lemma idle_chunks id events data wants :
  let chunks := bridge_chunks id NoSignal wants (Ok (Some data)) (fst (map_events events new_context))
                  (snd (map_events events new_context)) in
  one_result chunks (good_result id events data)
  /\ answer_text chunks = whole_answer events data /\ thought_text chunks = flat_map reasoning_text events.
Proof.
  cbv zeta. pose proof (map_events_text events new_context) as [Ha Ht].
  pose proof (map_events_context events) as (_ & Htok & Herr).
  pose proof (map_events_assistant events new_context) as Has.
  pose proof (map_events_results events new_context) as Hres.
  set (streamed := fst (map_events events new_context)) in *. set (ctx := snd (map_events events new_context)) in *.
  unfold bridge_chunks. cbv zeta. cbn [signal_chunks app].
  set (fell := fallback (existsb is_assistant streamed) (Ok (Some data))).
  assert (Hfell : answer_text fell = match flat_map delta_text events with
                                     | [] => default [] (extract_final_message_content data) | _ => [] end
                  /\ thought_text fell = [] /\ Forall (fun c => forall r, c <> ResultMsg r) fell).
  { unfold fell, fallback. rewrite Has. destruct (flat_map delta_text events); cbn [is_empty negb]; [|by repeat constructor].
    destruct (extract_final_message_content data) as [[|c s]|]; cbn [non_empty]; split_and!; repeat constructor; try done.
    unfold answer_text. cbn. by rewrite app_nil_r. }
  destruct Hfell as (Hfa & Hft & Hfr).
  assert (Hans : answer_text streamed ++ answer_text fell = whole_answer events data).
  { rewrite Ha, Hfa. unfold whole_answer. destruct (flat_map delta_text events); [done|]. by rewrite app_nil_r. }
  assert (Hany : existsb is_assistant (streamed ++ fell) = negb (is_empty (whole_answer events data))).
  { rewrite existsb_app, Has. unfold whole_answer, fell, fallback. rewrite Has.
    destruct (flat_map delta_text events); [|done]. cbn [is_empty negb orb].
    by destruct (extract_final_message_content data) as [[|c s]|]. }
  set (deferred := match error_message ctx with Some m => if existsb is_assistant streamed then [] else [System (warning_sign ++ m)] | None => [] end).
  assert (Hdef : answer_text deferred = [] /\ thought_text deferred = [] /\ Forall (fun c => forall r, c <> ResultMsg r) deferred).
  { unfold deferred. destruct (error_message ctx); [|by repeat constructor].
    destruct (existsb is_assistant streamed); split_and!; repeat constructor; done. }
  destruct Hdef as (Hda & Hdt & Hdr). rewrite Hany. split_and!.
  - rewrite !app_assoc. eexists _, _. split; [reflexivity|]. split; [|by rewrite !Forall_app].
    unfold good_result. cbn [rc_session_id rc_tokens rc_error_subtype rc_is_error]. split_and!; [done|done|done|].
    rewrite Herr. cbn [app orb]. rewrite <- (last_none (omap session_error events)).
    destruct (last (omap session_error events)) as [m|], (whole_answer events data); cbn; naive_solver.
  - rewrite !answer_text_app, Hda. cbn [app]. change (answer_text [ResultMsg _]) with (@nil char).
    rewrite app_nil_r. exact Hans.
  - rewrite !thought_text_app, Hdt, Hft, Ht. change (thought_text [ResultMsg _]) with (@nil char).
    by rewrite !app_nil_r.
Qed.

(** A session that goes well is read back: when it is resumed, everything is answered in
    time, and the notifications hold some events of this session, among others, up to the
    one that says it is idle, then the messages yielded are these events' and no others':
    the answer and the thoughts are what was streamed, in order, or the message of the idle
    session when nothing was; and the one result names the session and its usage, and is an
    error only when the session reported one and gave no answer. *)
Theorem copilot_reads_back (t0 : N) (notifs : list value) (cli log_level id prompt : str) (token : option str)
    (login wants : bool) (env : gmap str str) (config : CopilotSessionParams) (data : value) :
  snd (heard id notifs) = Some data ->
  gives_if (session_well t0 notifs)
    (bridge_session_via_rpc (Some cli) token login log_level env config (Some id) false prompt wants)
    (fun chunks => one_result chunks (good_result id (fst (heard id notifs)) data)
                   /\ answer_text chunks = whole_answer (fst (heard id notifs)) data
                   /\ thought_text chunks = flat_map reasoning_text (fst (heard id notifs))).
Proof.
  intros Hd. eapply always_mono, (bridge_well t0 notifs cli token login log_level env config id prompt wants data Hd).
  intros tr o Ho Hw. destruct (Ho Hw) as (chunks & -> & <-). eexists. split; [reflexivity|]. apply idle_chunks.
Qed.
End GoodSession.

(** ** Concrete sessions *)

#[local] Instance session_schemas : StructuredText :=
  Build_StructuredText (fun _ => []) (fun _ => None) (fun _ => Ok (fun _ => [])).
Definition event_of (session type : string) (data : object) : value :=
  Object [key "method" (String (lit "session.event"));
          key "params" (Object [key "sessionId" (String (lit session));
                                key "event" (Object [key "type" (String (lit type)); key "data" (Object data)])])].
Definition delta (session text : string) : value :=
  event_of session "assistant.message_delta" [key "deltaContent" (String (lit text))].
(** Two deltas, one of another session between them. *)
Definition sample_notifs : list value := [delta "s1" "Hel"; delta "s2" "nope"; delta "s1" "lo"; event_of "s1" "session.idle" []].
Definition protocol_3 : value := Object [key "protocolVersion" (Number (PosInt 3))].

Definition session_world (items : list (option value)) : Process.world copilot_call := fun past c =>
  match c with
  | Common c => plain_answer c
  | FileMode _ => None
  | RunWhich _ => None
  | RandomBytes => []
  | Now => 5%N
  | RpcStart _ _ _ _ => Ok tt
  | RpcRequest _ _ => Ok protocol_3
  | Subscribe => tt
  | Notifications => items
  | RpcKill => tt
  end.
Definition sample_params : CopilotSessionParams :=
  mk_SessionParams None (lit "auto") (lit "/repo") true None None None None None None None None false.
Definition sample_session : copilot (list MessageChunk) :=
  @bridge_session_via_rpc rpc_json session_schemas (Some (lit "/bin/copilot.js")) None true (lit "debug") ∅ sample_params
    (Some (lit "s1")) false (lit "hi") false.
Definition plain_result (session : string) : MessageChunk :=
  ResultMsg (mk_ResultChunk (Some (lit session)) None None None None None None None None None).

Lemma copilot_reads_back_witness :
  exists chunks, snd (Process.exec (session_world (map Some sample_notifs)) [] sample_session) = Ret chunks
    /\ one_result chunks (good_result (lit "s1") [AssistantMessageDelta (Some (lit "Hel")); AssistantMessageDelta (Some (lit "lo"))]
                            (Object []))
    /\ answer_text chunks = lit "Hello" /\ thought_text chunks = [].
Proof.
  assert (Hall : forall A (p : copilot A) past,
    Forall (session_well 0 sample_notifs) (fst (Process.exec (session_world (map Some sample_notifs)) past p))).
  { intros A p. induction p as [a| |c k IH]; intros past; [constructor..|]. cbn [Process.exec].
    specialize (IH (session_world (map Some sample_notifs) past c) (past ++ [mk_event c (session_world (map Some sample_notifs) past c)])).
    destruct (Process.exec _ _ (k _)) as [tr o]. constructor; [|exact IH].
    destruct c as [[]| | | | | | | | | ]; try done.
    exists protocol_3. split; [done|]. intros _. exists 3%N. split; [by_compute|done]. }
  specialize (Hall _ sample_session []).
  pose proof (Process.always_exec _ _ (session_world (map Some sample_notifs)) []
    (@copilot_reads_back rpc_json session_schemas 0 sample_notifs (lit "/bin/copilot.js") (lit "debug") (lit "s1") (lit "hi")
       None true false ∅ sample_params (Object []) ltac:(by_compute))) as Hq.
  fold sample_session in Hq. destruct (Process.exec _ [] sample_session) as [tr o]. exact (Hq Hall).
Defined.

(** When notifications are lost, what came before them is passed off as the whole answer. *)
Example lost_notifications :
  snd (Process.exec (session_world [Some (delta "s1" "Hel"); None]) [] sample_session)
    = Ret [Assistant (lit "Hel") None; plain_result "s1"].
Proof. by_compute. Qed.
(** A program that does not speak the protocol is ended; one that does not answer is not. *)
Example silent_program :
  lives (fst (Process.exec (fun past c => match c with RpcRequest _ _ => Err ChannelClosed | c => session_world [] past c end)
                [] sample_session))
    = [Started true; Asked PING None false].
Proof. by_compute. Qed.
