(* ===== verification/CopilotProvider.v ===== *)
(** * The Copilot provider

    [copilot/config.rs], [copilot/binary_resolver.rs] and [copilot/provider.rs] of
    [har-provider]: a query, from its options to the session of [CopilotSession].  The
    platform is Linux on [x86_64] or [aarch64]; the helpers that only a binding of the SDK
    would call are modelled, though nothing here calls them. *)

From S2P Require Import Prelude StdModel Float64 Json Regex Paths Provider CliStream AgentProc JsonRpc McpConfig.
From S2P Require Import NativeTools ClaudeCli CodexCli Skills CopilotEvents StructuredOutput CopilotSession CopilotSpecs.

(** ** Defaults ([config.rs]) *)

Inductive CopilotEffort : Type := EffortLow | EffortMedium | EffortHigh | EffortXhigh.
Definition CopilotEffort_as_str (e : CopilotEffort) : str :=
  match e with
  | EffortLow => lit "low" | EffortMedium => lit "medium" | EffortHigh => lit "high" | EffortXhigh => lit "xhigh"
  end.
(** Also the alias [max]. *)
Definition normalize_reasoning (v : str) : option CopilotEffort :=
  if str_eqb v (lit "max") then Some EffortXhigh
  else read_text CopilotEffort_as_str [EffortLow; EffortMedium; EffortHigh; EffortXhigh] v.

Inductive CopilotLogLevel : Type := LogNone | LogError | LogWarning | LogInfo | LogDebug | LogAll.
Definition CopilotLogLevel_text (l : CopilotLogLevel) : str :=
  match l with
  | LogNone => lit "none" | LogError => lit "error" | LogWarning => lit "warning" | LogInfo => lit "info"
  | LogDebug => lit "debug" | LogAll => lit "all"
  end.

(** [CopilotProviderDefaults]; other keys are never kept. *)
Record CopilotProviderDefaults : Type := mk_CopilotProviderDefaults {
  pd_model : option str;
  pd_model_reasoning_effort : option CopilotEffort;
  pd_copilot_cli_path : option str;
  pd_config_dir : option str;
  pd_enable_config_discovery : option bool;
  pd_use_logged_in_user : option bool;
  pd_log_level : option CopilotLogLevel;
}.
Definition parse_copilot_config (raw : gmap str value) : CopilotProviderDefaults :=
  let text k := raw !! lit k ≫= as_str in
  mk_CopilotProviderDefaults (text "model") (text "modelReasoningEffort" ≫= normalize_reasoning)
    (text "copilotCliPath") (text "configDir") (raw !! lit "enableConfigDiscovery" ≫= as_bool)
    (raw !! lit "useLoggedInUser" ≫= as_bool)
    (text "logLevel" ≫= read_text CopilotLogLevel_text [LogNone; LogError; LogWarning; LogInfo; LogDebug; LogAll]).

(** ** The executable ([binary_resolver.rs]) *)

Definition COPILOT_VENDOR_DIR : str := lit "vendor/copilot".
Definition COPILOT_BINARY_NAME : str := lit "copilot".

(** A file that somebody may execute. *)
Definition is_executable_file (path : str) : copilot bool :=
  meta ← rpc (FileMode path);
  Done match meta with
       | Some (is_file, mode) => is_file && negb (N.land mode 73 =? 0)%N
       | None => false
       end.

Definition resolve_from_path : copilot (option str) :=
  output ← rpc (RunWhich COPILOT_BINARY_NAME);
  Done (stdout ← output;
        let first := StructuredOutput.trim_end_matches (N.eqb 13) (trim (default [] (head (split [10%N] stdout)))) in
        if is_empty first then None else Some first).

Definition not_executable (source path where_to_look : str) : str :=
  source ++ lit " is set to " ++ in_quotes path ++ lit " but it is not an executable file." ++ newline
  ++ lit "Please verify the path " ++ where_to_look
  ++ lit "points to the Copilot CLI executable (chmod +x if needed).".
Definition copilot_not_found : str :=
  join newline
    [lit "Copilot CLI binary not found. The Copilot provider requires the";
     lit "@github/copilot CLI, which cannot be resolved automatically in"; lit "compiled Archon builds."; [];
     lit "To fix, choose one of:"; lit "1. Install globally: npm install -g @github/copilot";
     lit "Then set: COPILOT_BIN_PATH=$(which copilot)"; [];
     lit "2. Place the binary at: ~/.archon/" ++ COPILOT_VENDOR_DIR ++ lit "/"; [];
     lit "3. Set the path in config:"; lit "# .archon/config.yaml"; lit "assistants:"; lit "copilot:";
     lit "copilotCliPath: /path/to/copilot"; []].

Section Resolver.
Context `{ProcessEnvironment}.

Definition copilot_is_binary_mode : bool :=
  match env_var (lit "BUNDLED_IS_BINARY") with
  | Some v => str_eqb v (lit "true") || str_eqb v (lit "1")
  | None => false
  end.
Definition copilot_archon_home : str :=
  match env_var (lit "ARCHON_HOME") with
  | Some override_home => override_home
  | None => match base_dirs_home with Some home => path_join home (lit ".archon") | None => lit ".archon" end
  end.
Definition copilot_autodetect_paths : list str :=
  let home := default (lit "~") base_dirs_home in
  [path_join (path_join (path_join home (lit ".npm-global")) (lit "bin")) (lit "copilot"); lit "/usr/local/bin/copilot"].

Fixpoint first_executable (paths : list str) : copilot (option str) :=
  match paths with
  | [] => Done None
  | path :: paths =>
      found ← is_executable_file path; if found : bool then Done (Some path) else first_executable paths
  end.

Definition resolve_copilot_binary_path (config_cli_path : option str) : copilot (result str (option str)) :=
  if negb copilot_is_binary_mode then Done (Ok None)
  else
    let env_path := default [] (env_var (lit "COPILOT_BIN_PATH")) in
    let config_path := default [] config_cli_path in
    if negb (is_empty env_path) then
      found ← is_executable_file env_path;
      Done (if found : bool then Ok (Some env_path) else Err (not_executable (lit "COPILOT_BIN_PATH") env_path []))
    else if negb (is_empty config_path) then
      found ← is_executable_file config_path;
      Done (if found : bool then Ok (Some config_path)
            else Err (not_executable (lit "assistants.copilot.copilotCliPath") config_path
                        (lit "in .archon/config.yaml ")))
    else
      let vendor := path_join (path_join copilot_archon_home COPILOT_VENDOR_DIR) COPILOT_BINARY_NAME in
      probe ← first_executable (vendor :: copilot_autodetect_paths);
      match probe with
      | Some path => Done (Ok (Some path))
      | None =>
          from_path ← resolve_from_path;
          match from_path with
          | None => Done (Err copilot_not_found)
          | Some path =>
              found ← is_executable_file path;
              Done (if found : bool then Ok (Some path) else Err copilot_not_found)
          end
      end.
End Resolver.

(** ** Options ([provider.rs]) *)

Definition set_token (k : string) (env : gmap str str) : option str := non_empty (env !! lit k).
Definition resolve_copilot_token (env : gmap str str) : option str := set_token "COPILOT_GITHUB_TOKEN" env.
Definition resolve_generic_github_token (env : gmap str str) : option str :=
  match set_token "GH_TOKEN" env with Some t => Some t | None => set_token "GITHUB_TOKEN" env end.

Inductive TokenSource : Type := CopilotToken | GenericToken | LoggedInUser.
Definition resolve_token_source (copilot_token generic_github_token : option str)
    (use_logged_in_user_config : option bool) : TokenSource :=
  match copilot_token, use_logged_in_user_config, generic_github_token with
  | Some _, _, _ => CopilotToken
  | None, Some false, Some _ => GenericToken
  | None, _, _ => LoggedInUser
  end.
(** The token of the session, and whether the logged-in user may be used. *)
Definition session_auth (copilot_token generic_github_token : option str) (source : TokenSource) : option str * bool :=
  match source with
  | CopilotToken => (copilot_token, true)
  | GenericToken => (generic_github_token, false)
  | LoggedInUser => (None, true)
  end.

Definition ignored_object_thinking : str :=
  lit "Copilot ignored `thinking` (object form is Claude-specific). Use `effort: low|medium|high|max` instead.".
Definition unknown_reasoning (offender : str) : str :=
  lit "Copilot ignored unknown reasoning level '" ++ offender
  ++ lit "'. Valid: low, medium, high, xhigh, max, off.".

(** The effort, and a warning. *)
Definition resolve_copilot_reasoning (node_config : option NodeConfig) (config : CopilotProviderDefaults)
  : option CopilotEffort * option str :=
  match node_config with
  | None => (pd_model_reasoning_effort config, None)
  | Some nc =>
      let thinking := nc_thinking nc ≫= as_str in
      let off o := bool_decide (o = Some (lit "off")) in
      if off thinking || off (nc_effort nc) then (None, None)
      else
        match thinking ≫= normalize_reasoning, nc_effort nc ≫= normalize_reasoning with
        | Some effort, _ | None, Some effort => (Some effort, None)
        | None, None =>
            match nc_thinking nc with
            | Some (Object _) => (None, Some ignored_object_thinking)
            | _ =>
                match thinking, nc_effort nc with
                | Some offender, _ | None, Some offender => (None, Some (unknown_reasoning offender))
                | None, None => (pd_model_reasoning_effort config, None)
                end
            end
        end
  end.

Definition single_prompt (p : option SystemPromptInput) : option str :=
  match p with Some (SP_Single s) => non_empty (Some s) | _ => None end.
Definition resolve_system_message (options : option SendQueryOptions) : option str :=
  options ← options;
  match single_prompt (so_system_prompt options) with
  | Some s => Some s
  | None => nc ← so_node_config options; single_prompt (nc_system_prompt nc)
  end.

Definition resolve_tool_restrictions (node_config : option NodeConfig) : option (list str) * option (list str) :=
  (node_config ≫= nc_allowed_tools, node_config ≫= nc_denied_tools).

Definition undefined_vars_warning (missing : list str) : str :=
  lit "Copilot MCP config references undefined env vars: " ++ join (lit ", ") missing
  ++ lit ". Servers using them may fail at runtime.".

Section Config.
Context `{SerdeJson} `{JsonErrors} `{RegexEngine}.

(** The servers and the warnings, or the error of the configuration. *)
Definition resolve_mcp_config (node_config : option NodeConfig) (cwd : str)
  : copilot (result str (option value * list str)) :=
  match non_empty (node_config ≫= nc_mcp) with
  | None => Done (Ok (None, []))
  | Some mcp_path =>
      env_source ← common env_vars;
      loaded ←? common (load_mcp_config mcp_path cwd env_source);
      Done (Ok (Some (Object (servers loaded)),
                if is_empty (missing_vars loaded) then [] else [undefined_vars_warning (missing_vars loaded)]))
  end.
End Config.

Definition missing_skills_warning (missing : list str) : str :=
  lit "Copilot ignored missing skills: " ++ join (lit ", ") missing
  ++ lit ". Expected a directory with SKILL.md under .agents/skills/ or .claude/skills/ (project or home).".
Definition resolve_skills `{ProcessEnvironment} (node_config : option NodeConfig) (cwd : str)
  : agent (list str * list str) :=
  match node_config ≫= nc_skills with
  | None | Some [] => Done ([], [])
  | Some skills =>
      resolved ← resolve_skill_directories cwd skills;
      Done (sk_paths resolved,
            if is_empty (sk_missing resolved) then [] else [missing_skills_warning (sk_missing resolved)])
  end.

Definition ignored_fields (def : InlineAgentDefinition) : list str :=
  (if ia_model def then [lit "model"] else []) ++ (if ia_disallowed_tools def then [lit "disallowedTools"] else [])
  ++ (if ia_skills def then [lit "skills"] else []) ++ (if ia_max_turns def then [lit "maxTurns"] else []).
Definition ignored_fields_warning (name : str) (ignored : list str) : str :=
  lit "Copilot agent '" ++ name ++ lit "' ignored unsupported fields: " ++ join (lit ", ") ignored
  ++ lit ". Copilot supports description, prompt, tools (allowlist) only.".
Definition custom_agent (name : str) (def : InlineAgentDefinition) : value :=
  Object [key "name" (String name); key "description" (String (ia_description def));
          key "prompt" (String (ia_prompt def)); key "tools" (or_null (strings <$> ia_tools def))].
Definition resolve_agents `{HashMapOrder} (node_config : option NodeConfig) : list value * list str :=
  let agents := hm_iter (default ∅ (node_config ≫= nc_agents)) in
  (map (fun e => custom_agent (fst e) (snd e)) agents,
   omap (fun e => match ignored_fields (snd e) with
                  | [] => None
                  | ignored => Some (ignored_fields_warning (fst e) ignored)
                  end) agents).

(** *** Errors *)

Section Errors.
Context `{UnicodeCase}.

Definition is_model_access_error (error_message : str) : bool :=
  let normalized := to_lowercase error_message in
  contains (lit "model") normalized
  && (contains (lit "not available") normalized || contains (lit "not found") normalized
      || contains (lit "unsupported") normalized).
Definition build_friendly_copilot_error (thrown_message : str) (last_session_error : option str) : str :=
  let combined := join newline (omap non_empty [Some thrown_message; last_session_error]) in
  if is_model_access_error combined then
    lit "Copilot model access error: " ++ combined ++ newline ++ newline
    ++ lit "Try a different model in the workflow node or set assistants.copilot.model in .archon/config.yaml."
  else
    let normalized := to_lowercase combined in
    if existsb (fun w => contains (lit w) normalized) ["auth"; "login"; "unauthorized"; "forbidden"]%string then
      lit "Copilot authentication failed: " ++ combined ++ newline ++ newline
      ++ lit "Run `copilot login` (default), set COPILOT_GITHUB_TOKEN, or set `useLoggedInUser: false` in `.archon/config.yaml` to use GH_TOKEN / GITHUB_TOKEN."
    else combined.
End Errors.

(** ** The query *)

Definition not_blank (o : option str) : option str := non_empty (trim <$> o).
Definition say (chunk : MessageChunk) : copilot unit := rpc (Common (Yield chunk)).
Definition say_all (chunks : list MessageChunk) : copilot unit := common (yield_all chunks).
Definition warn (message : str) : MessageChunk := System (warning_sign ++ message).

Section Query.
Context `{SerdeJson} `{JsonErrors} `{HashMapOrder} `{RegexEngine} `{ProcessEnvironment} `{StructuredText}.

(** What the session is asked for. *)
Definition query_params (options : option SendQueryOptions) (config : CopilotProviderDefaults) (cwd : str)
    (mcp_servers : option value) (skill_paths : list str) (agents : list value) : CopilotSessionParams :=
  let node_config := options ≫= so_node_config in
  let requested_model := not_blank (options ≫= so_model) in
  mk_SessionParams None
    (default (lit "auto") (or_else requested_model (not_blank (pd_model config))))
    cwd true
    (CopilotEffort_as_str <$> fst (resolve_copilot_reasoning node_config config))
    ((fun content => mk_SystemMessageWire (lit "append") content) <$> resolve_system_message options)
    (fst (resolve_tool_restrictions node_config)) (snd (resolve_tool_restrictions node_config))
    mcp_servers
    (match skill_paths with [] => None | _ => Some skill_paths end)
    (match agents with [] => None | _ => Some agents end)
    None (default false (pd_enable_config_discovery config)).

Definition copilot_send_query (prompt cwd : str) (resume_session_id : option str)
    (options : option SendQueryOptions) : copilot unit :=
  let config := parse_copilot_config (default ∅ (options ≫= so_assistant_config)) in
  let node_config := options ≫= so_node_config in
  merged_env ← common (build_subprocess_env (options ≫= so_env));
  let copilot_token := resolve_copilot_token merged_env in
  let generic_github_token := resolve_generic_github_token merged_env in
  cli_path ← resolve_copilot_binary_path (pd_copilot_cli_path config);
  match cli_path with
  | Err e => say (copilot_error (lit "copilot_binary_not_found") e)
  | Ok cli_path =>
      mcp ← resolve_mcp_config node_config cwd;
      match mcp with
      | Err e => say (copilot_error (lit "copilot_mcp_config_invalid") e)
      | Ok (mcp_servers, mcp_warnings) =>
          skills ← common (resolve_skills node_config cwd);
          let agents := resolve_agents node_config in
          let warnings :=
            option_list (snd (resolve_copilot_reasoning node_config config))
            ++ mcp_warnings ++ snd skills ++ snd agents in
          _ ← say_all (map warn warnings);
          cancelled ← is_cancelled;
          if cancelled : bool then Done tt
          else
            let output_format := options ≫= so_output_format in
            let effective_prompt :=
              match output_format with
              | Some f => augment_prompt_for_json_schema prompt (schema f)
              | None => prompt
              end in
            let auth := session_auth copilot_token generic_github_token
                          (resolve_token_source copilot_token generic_github_token (pd_use_logged_in_user config)) in
            output_chunks ← bridge_session_via_rpc cli_path (fst auth) (snd auth) (lit "debug") merged_env
              (query_params options config cwd mcp_servers (fst skills) (fst agents)) resume_session_id
              (default false (options ≫= so_fork_session)) effective_prompt
              (bool_decide (is_Some output_format));
            say_all output_chunks
      end
  end.
End Query.

(** ** What a query does *)

(** From the options to the end: an error of the configuration; warnings and nothing more,
    since the query was cancelled; or warnings, the life of a session, and its messages. *)
Inductive query_life `{ProcessEnvironment} : list life -> Prop :=
| query_refused subtype e : subtype ∈ [lit "copilot_binary_not_found"; lit "copilot_mcp_config_invalid"] ->
    query_life [Said (copilot_error subtype e)]
| query_cancelled warnings : query_life (map Said (map warn warnings) ++ [Polled true])
| query_session warnings cli l chunks :
    (cli = None <-> copilot_is_binary_mode = false) -> session_life cli l chunks ->
    query_life (map Said (map warn warnings) ++ [Polled false] ++ l ++ map Said chunks).

(** The variables of the process were asked for, and are not Unicode. *)
Definition not_unicode (tr : copilot_trace) : Prop :=
  exists tr', tr = tr' ++ [mk_event (Common EnvVars) (None : copilot_ret (Common EnvVars))].
(** A process that does nothing that is seen, and panics only when the variables of the
    process are not Unicode. *)
Definition unseen {A} (p : copilot A) : Prop :=
  always p (fun tr o => lives tr = [] /\ (o = Panic -> not_unicode tr)).
Lemma not_unicode_app a tr : not_unicode tr -> not_unicode (a ++ tr).
Proof. intros [tr' ->]. exists (a ++ tr'). by rewrite app_assoc. Qed.
Lemma unseen_done {A} (a : A) : unseen (Done a).
Proof. done. Qed.
Lemma unseen_bind {A B} (p : copilot A) (f : A -> copilot B) : unseen p -> (forall a, unseen (f a)) -> unseen (p ≫= f).
Proof.
  intros Hp Hf. unfold unseen. rewrite always_bind. eapply always_mono, Hp. intros tr [a|] [Htr Hn]; [|by split; [|auto]].
  eapply always_mono, Hf. intros tr' o [Ho Hn']. split; [by rewrite lives_app, Htr, Ho|].
  intros ->. by apply not_unicode_app, Hn'.
Qed.
Lemma unseen_rpc c : (forall r, life_of (mk_event c r) = None) -> unseen (rpc c).
Proof. intros Hc r. unfold lives. cbn [omap list_omap]. rewrite Hc. by split. Qed.
Lemma unseen_common {A} (p : agent A) : only_calls quiet p -> gives p (fun _ => True) -> unseen (common p).
Proof.
  intros Hp Hg. apply always_lift. eapply always_mono, (always_and _ _ _ Hp Hg).
  intros tr o [H (a & -> & _)] tr' Htr. split; [|done]. cbv beta in H. unfold lives.
  induction Htr as [|e e' tr tr' (c & r & -> & ->) _ IH]; [done|]. inversion_clear H as [|? ? He Ht].
  destruct c; first [by destruct He | by apply IH].
Qed.
Lemma unseen_env_vars {A} (f : gmap str str -> agent A) :
  (forall vars, unseen (common (f vars))) -> unseen (common (env_vars ≫= f)).
Proof.
  intros Hf [vars|].
  - eapply always_mono, Hf. intros tr o [Htr Hn]. split; [exact Htr|]. intros Ho.
    apply (not_unicode_app [_]), Hn, Ho.
  - split; [done|]. intros _. by exists [].
Qed.

Section Specs.
Context `{SerdeJson} `{JsonErrors} `{HashMapOrder} `{RegexEngine} `{ProcessEnvironment} `{StructuredText}.

(** A query so far: a panic, of which nothing is seen, or the end. *)
Definition query_post (tr : copilot_trace) (o : outcome unit) : Prop :=
  (o = Panic /\ lives tr = [] /\ not_unicode tr) \/ (o = Ret tt /\ query_life (lives tr)).
Lemma query_unseen {A} (p : copilot A) (f : A -> copilot unit) :
  unseen p -> (forall a, always (f a) (query_post)) -> always (p ≫= f) (query_post).
Proof.
  intros Hp Hf. rewrite always_bind. eapply always_mono, Hp. intros tr [a|] [Htr Hn]; [|left; auto].
  eapply always_mono, Hf. intros tr' o. unfold query_post. rewrite lives_app, Htr.
  intros [(Ho & Hl & Hn')|Hend]; [left; split_and!; [done|done|by apply not_unicode_app]|by right].
Qed.

Lemma unseen_executable path : unseen (is_executable_file path).
Proof. apply unseen_bind; [by apply unseen_rpc|done]. Qed.
Lemma unseen_binary_path config : unseen (resolve_copilot_binary_path config).
Proof.
  unfold resolve_copilot_binary_path. destruct (negb copilot_is_binary_mode); [done|]. cbv zeta.
  destruct (negb (is_empty (default [] (env_var _)))); [apply unseen_bind; [apply unseen_executable|done]|].
  destruct (negb (is_empty (default [] config))); [apply unseen_bind; [apply unseen_executable|done]|].
  apply unseen_bind.
  - induction (path_join _ _ :: copilot_autodetect_paths) as [|path paths IH]; [done|].
    apply unseen_bind; [apply unseen_executable|]. by intros [|].
  - intros [path|]; [done|]. apply unseen_bind; [apply unseen_bind; [by apply unseen_rpc|done]|].
    intros [path|]; [|done]. apply unseen_bind; [apply unseen_executable|done].
Qed.
(** There is no executable exactly outside binary mode. *)
Lemma binary_path_mode config :
  always (resolve_copilot_binary_path config) (fun _ o =>
    match o with
    | Ret (Ok cli) => cli = None <-> copilot_is_binary_mode = false
    | _ => True
    end).
Proof.
  unfold resolve_copilot_binary_path. destruct copilot_is_binary_mode eqn:Hmode; cbn [negb]; [|done]. cbv zeta.
  assert (forall path : str, Some path = None <-> true = false) as Hsome by done.
  destruct (negb (is_empty (default [] (env_var _)))); [rewrite always_bind; apply always_any; by intros ? [[|]|]|].
  destruct (negb (is_empty (default [] config))); [rewrite always_bind; apply always_any; by intros ? [[|]|]|].
  rewrite always_bind. apply always_any. intros tr [[path|]|]; [done| |done].
  rewrite always_bind. apply always_any. intros tr' [[path|]|]; [|done..].
  rewrite always_bind. apply always_any. by intros tr2 [[|]|].
Qed.
Lemma unseen_mcp nc cwd : unseen (resolve_mcp_config nc cwd).
Proof.
  unfold resolve_mcp_config. destruct (non_empty _) as [path|]; [|done].
  apply unseen_bind.
  { unfold env_vars. intros [vars|]; [done|]. split; [done|]. intros _. by exists []. }
  intros env. apply unseen_bind; [|by intros [loaded|e]]. apply unseen_common.
  - apply only_bind; [by apply (only_ask _ (ReadText _))|]. intros [raw|e]; apply only_done.
  - apply gives_then; [intros r; by exists r|]. intros [raw|e]; by apply gives_done.
Qed.
Lemma skills_unseen nc cwd : unseen (common (resolve_skills nc cwd)).
Proof.
  unfold resolve_skills. destruct (nc ≫= nc_skills) as [[|s skills]|]; [done| |done].
  destruct (resolve_names_quiet (skill_search_roots cwd) (s :: skills) []) as [Hq Hg].
  apply unseen_common.
  - apply only_bind; [exact Hq|]. intros r. apply only_done.
  - apply gives_then; [exact Hg|]. intros r. by apply gives_done.
Qed.

Lemma say_all_runs chunks : runs (say_all chunks) (fun l _ => l = map Said chunks).
Proof.
  unfold say_all. induction chunks as [|c chunks IH]; [by apply runs_done|].
  eapply (runs_bind (say c) (fun _ => common (yield_all chunks)) (fun k _ => k = [Said c])).
  - by apply runs_rpc.
  - intros k [] ->. eapply runs_mono, IH. by intros l _ ->.
Qed.

(** C22: A query to Copilot, from its options to its end, whatever is found and answered: an
    executable or a configuration that cannot be used is the one result.  Otherwise the
    warnings come first, and then it is asked whether the query was cancelled: if so that
    is the end; if not there is one session, which lives as a session does, and its
    messages are yielded when it has ended.  A session has no executable only outside
    binary mode, and is then refused before anything is started.  The query returns,
    unless the variables of the process are asked for and are not Unicode: then it panics
    and nothing else has been seen of it. *)
Theorem copilot_query (prompt cwd : str) (resume : option str) (options : option SendQueryOptions) :
  always (copilot_send_query prompt cwd resume options)
    (fun tr o => (o = Panic /\ lives tr = [] /\ not_unicode tr) \/ (o = Ret tt /\ query_life (lives tr))).
Proof.
  change (always (copilot_send_query prompt cwd resume options) (query_post)).
  unfold copilot_send_query. cbv zeta. apply query_unseen; [by apply unseen_env_vars|]. intros env.
  rewrite always_bind. eapply always_mono, (always_and _ _ _ (unseen_binary_path _) (binary_path_mode _)).
  intros tr [[cli|e]|] [[Htr Hn] Hmode]; [| |left; auto].
  2:{ intros []. right. split; [done|]. rewrite lives_app, Htr. apply query_refused, list_elem_of_here. }
  eapply (always_mono _ (query_post)).
  { intros tr' o. unfold query_post. rewrite lives_app, Htr.
    intros [(Ho & Hl & Hn')|H']; [left; split_and!; [done|done|by apply not_unicode_app]|by right]. }
  apply query_unseen; [apply unseen_mcp|]. intros [[mcp ws]|e].
  2:{ intros []. right. split; [done|]. apply query_refused, list_elem_of_further, list_elem_of_here. }
  apply query_unseen; [apply skills_unseen|]. intros skills.
  assert (Hr : forall p, runs p (fun l (_ : unit) => query_life l) -> always p (query_post)).
  { intros p. apply always_mono. intros tr' o ([] & -> & Hl). by right. }
  apply Hr. eapply runs_bind; [apply say_all_runs|]. intros k [] ->.
  apply runs_poll. intros [|]; [apply runs_done, query_cancelled|].
  eapply runs_bind; [apply session_lifecycle_runs|]. intros k chunks Hk.
  eapply runs_mono, say_all_runs. intros l _ ->. by eapply (query_session _ cli).
Qed.
End Specs.

(** The user who is logged in is used although the configuration says not to. *)
Example logged_in_user_anyway :
  session_auth None None (resolve_token_source None None (Some false)) = (None, true).
Proof. by_compute. Qed.
(** The directory and the log level of the configuration are not passed on. *)
Example config_dir_ignored :
  let config := parse_copilot_config {[lit "configDir" := String (lit "/etc/copilot")]} in
  pd_config_dir config = Some (lit "/etc/copilot")
  /\ cs_config_dir (query_params None config (lit "/repo") None [] []) = None.
Proof. split; by_compute. Qed.
