(* ===== verification/PiOptions.v ===== *)
(** * The options of a query to Pi

    [pi/config.rs], [pi/model_ref.rs], [pi/options_translator.rs], [pi/native_tools.rs],
    [pi/session_resolver.rs] and the cache of [pi/resource_loader.rs] of [har-provider]:
    what a node and the configuration say, as the Pi provider takes it.

    A [ResourceLoaderStub] is a value, and the cache of them a map; a call of
    [get_or_create_reloaded_extension_loader] is one step, since nothing in it can fail or
    wait. *)

From S2P Require Import Prelude StdModel Float64 Json Paths Provider CliStream AgentProc Skills NativeTools.

(** ** Defaults ([config.rs]) *)

Inductive PiExtensionFlagValue : Type := FlagBool (b : bool) | FlagString (s : str).
Record PiProviderDefaults : Type := mk_PiProviderDefaults {
  pi_model : option str;
  pi_enable_extensions : option bool;
  pi_interactive : option bool;
  pi_extension_flags : option (gmap str PiExtensionFlagValue);
  pi_env : option (gmap str str);
  pi_max_concurrent : option N;
}.

Definition flag_value (v : value) : option PiExtensionFlagValue :=
  match v with Bool b => Some (FlagBool b) | String s => Some (FlagString s) | _ => None end.
(** The entries of an object that are of a kind; nothing when there are none. *)
Definition entries_of {A} (f : value -> option A) (raw : option value) : option (gmap str A) :=
  match raw with
  | Some (Object entries) =>
      match omap (fun e => a ← f (snd e); Some (fst e, a)) entries with
      | [] => None
      | kept => Some (fold_left (fun m e => <[fst e := snd e]> m) kept ∅)
      end
  | _ => None
  end.
Definition u32_max_f64 : f64 := f64_of_Z (2 ^ 32 - 1).
Definition max_concurrent_of (v : value) : option N :=
  f ← value_as_f64 v;
  if f64_ltb f64_zero f && f64_is_integer f && f64_leb f u32_max_f64 then Some (f64_to_u32 f) else None.

Definition parse_pi_config (raw : gmap str value) : PiProviderDefaults :=
  mk_PiProviderDefaults (raw !! lit "model" ≫= as_str) (raw !! lit "enableExtensions" ≫= as_bool)
    (raw !! lit "interactive" ≫= as_bool) (entries_of flag_value (raw !! lit "extensionFlags"))
    (entries_of as_str (raw !! lit "env")) (raw !! lit "maxConcurrent" ≫= max_concurrent_of).

(** ** The reference of a model ([model_ref.rs]) *)

Record PiModelRef : Type := mk_PiModelRef { pm_provider : str; pm_model_id : str }.
Definition provider_char (c : char) : bool := is_ascii_lowercase c || is_ascii_digit c || (c =? 45)%N.
Definition provider_valid (provider : str) : bool :=
  match provider with [] => false | c :: _ => is_ascii_lowercase c && forallb provider_char provider end.
(** Cut at the first slash. *)
Definition parse_pi_model_ref (raw : str) : option PiModelRef :=
  '(provider, model_id) ← split_once slash raw;
  if is_empty provider || is_empty model_id || negb (provider_valid provider) then None
  else Some (mk_PiModelRef provider model_id).

(** ** Thinking and tools ([options_translator.rs]) *)

Definition PI_NATIVE_LEVELS : list str := [lit "minimal"; lit "low"; lit "medium"; lit "high"; lit "xhigh"].
Definition normalize_to_thinking_level (s : str) : option str :=
  if str_eqb s (lit "max") then Some (lit "xhigh")
  else if bool_decide (s ∈ PI_NATIVE_LEVELS) then Some s else None.

(** "Pi ignored `thinking` (object form is Claude-specific). Use … (max → xhigh on Pi)." *)
Definition pi_object_thinking : str :=
  lit "Pi ignored `thinking` (object form is Claude-specific). Use `effort: low|medium|high|max` in YAML (max "
  ++ [8594%N] ++ lit " xhigh on Pi).".
Definition pi_unknown_thinking (offender : str) : str :=
  lit "Pi ignored unknown thinking level '" ++ offender
  ++ lit "'. Valid: minimal, low, medium, high, xhigh, max, off.".

(** The level, and a warning. *)
Definition resolve_pi_thinking_level (node_config : option NodeConfig) : option str * option str :=
  match node_config with
  | None => (None, None)
  | Some nc =>
      let thinking := nc_thinking nc ≫= as_str in
      let off o := bool_decide (o = Some (lit "off")) in
      if off thinking || off (nc_effort nc) then (None, None)
      else
        match thinking ≫= normalize_to_thinking_level, nc_effort nc ≫= normalize_to_thinking_level with
        | Some level, _ | None, Some level => (Some level, None)
        | None, None =>
            match nc_thinking nc with
            | Some (Object _) => (None, Some pi_object_thinking)
            | _ =>
                match thinking, nc_effort nc with
                | Some offender, _ | None, Some offender => (None, Some (pi_unknown_thinking offender))
                | None, None => (None, None)
                end
            end
        end
  end.

Definition PI_TOOL_NAMES : list str :=
  [lit "read"; lit "bash"; lit "edit"; lit "write"; lit "grep"; lit "find"; lit "ls"].
Definition PI_DEFAULT_TOOL_NAMES : list str := [lit "read"; lit "bash"; lit "edit"; lit "write"].
Record PiToolSpec : Type := mk_PiToolSpec { pt_name : str; pt_has_env_hook : bool }.
Definition build_pi_tool_spec (has_env : bool) (name : str) : PiToolSpec :=
  mk_PiToolSpec name (has_env && str_eqb name (lit "bash")).
Definition some_env (env : option (gmap str str)) : bool :=
  match env with Some e => negb (bool_decide (e = ∅)) | None => false end.
Definition build_default_pi_tools (env : option (gmap str str)) : list PiToolSpec :=
  map (build_pi_tool_spec (some_env env)) PI_DEFAULT_TOOL_NAMES.

Section Tools.
Context `{UnicodeCase}.

(** The name of a tool of Pi, or a name that is none. *)
Definition classify_tool (name : str) : str + str :=
  let lower := to_lowercase name in
  if bool_decide (lower ∈ PI_TOOL_NAMES) then inl lower else inr name.
Definition known_tools (names : list str) : list str := lefts (map classify_tool names).
Definition unknown_tools (names : list str) : list str := rights (map classify_tool names).

(** The tools, [None] for those of Pi, and the names that are none. *)
Definition resolve_pi_tools (node_config : option NodeConfig) (env : option (gmap str str))
  : option (list PiToolSpec) * list str :=
  let allowed := node_config ≫= nc_allowed_tools in
  let denied := node_config ≫= nc_denied_tools in
  match allowed, denied with
  | None, None => (if some_env env then Some (build_default_pi_tools env) else None, [])
  | _, _ =>
      let selected := match allowed with Some al => known_tools al | None => PI_TOOL_NAMES end in
      let kept :=
        match denied with
        | Some dn => List.filter (fun n => negb (bool_decide (n ∈ known_tools dn))) selected
        | None => selected
        end in
      (Some (map (build_pi_tool_spec (some_env env)) (dedup [] kept)),
       unknown_tools (default [] allowed) ++ unknown_tools (default [] denied))
  end.
End Tools.

Definition resolve_pi_skills `{ProcessEnvironment} (cwd : str) (skills : option (list str)) : agent ResolvedSkills :=
  match skills with
  | None | Some [] => Done (mk_ResolvedSkills [] [])
  | Some s => resolve_skill_directories cwd s
  end.

(** ** Native tools ([native_tools.rs]) *)

Record PiNativeToolDef : Type := mk_PiNativeToolDef {
  pd_name : str; pd_label : str; pd_description : str; pd_schema : value;
}.

(** A property as the bridge is sent it. *)
Definition normalize_prop (required : list str) (k : str) (prop : value) : result str value :=
  let described (field : object) :=
    let field := match value_get (lit "description") prop ≫= as_str with
                 | Some desc => index_insert (lit "description") (String desc) field
                 | None => field
                 end in
    Object (if bool_decide (k ∈ required) then field else index_insert (lit "optional") (Bool true) field) in
  let typed (t : string) := bool_decide (value_get (lit "type") prop ≫= as_str = Some (lit t)) in
  match value_get (lit "enum") prop ≫= as_array with
  | Some enum_vals =>
      match omap as_str enum_vals with
      | [] => Err (lit "native tool schema: enum for '" ++ k ++ lit "' must be non-empty strings")
      | values => Ok (described [key "type" (String (lit "string")); key "enum" (Array (map String values))])
      end
  | None =>
      if typed "string" then Ok (described [key "type" (String (lit "string"))])
      else if typed "boolean" then Ok (described [key "type" (String (lit "boolean"))])
      else Err (unsupported_type k)
  end.
Fixpoint normalize_props (required : list str) (props acc : object) : result str object :=
  match props with
  | [] => Ok acc
  | (k, prop) :: props => field ← normalize_prop required k prop; normalize_props required props (index_insert k field acc)
  end.
Definition validate_and_normalize_schema (schema : value) : result str value :=
  if negb (bool_decide (value_get (lit "type") schema ≫= as_str = Some (lit "object"))) then Err not_an_object_schema
  else
    match value_get (lit "properties") schema ≫= as_object with
    | None => Err not_an_object_schema
    | Some props =>
        let required := omap as_str (default [] (value_get (lit "required") schema ≫= as_array)) in
        Object <$> normalize_props required props []
    end.

Definition build_pi_native_tool_definitions `{HashMapOrder} (native_tools : list NativeTool)
  : result str (list PiNativeToolDef) :=
  map_result (fun spec =>
    schema ← validate_and_normalize_schema (Object (hm_iter (input_schema spec)));
    Ok (mk_PiNativeToolDef (tool_name_ spec) (tool_name_ spec) (tool_description spec) schema)) native_tools.

(** ** The session ([session_resolver.rs]) *)

Record PiSessionEntry : Type := mk_PiSessionEntry { se_id : str; se_path : str }.
Inductive SessionResolutionDecision : Type :=
| Fresh (cwd : str)
| OpenSession (path : str)
| FreshWithFailedResume (cwd : str).

(** The decision, and whether resuming failed; the sessions are [None] when there is no
    directory of them. *)
Definition resolve_pi_session_logic (cwd : str) (resume_session_id : option str)
    (available_sessions : option (list PiSessionEntry)) : bool * SessionResolutionDecision :=
  match resume_session_id with
  | None | Some [] => (false, Fresh cwd)
  | Some id =>
      match List.find (fun s => str_eqb (se_id s) id) (default [] available_sessions) with
      | Some entry => (false, OpenSession (se_path entry))
      | None => (true, FreshWithFailedResume cwd)
      end
  end.
(** No session is ever looked for. *)
Definition resolve_pi_session (cwd : str) (resume_session_id : option str) : bool * SessionResolutionDecision :=
  resolve_pi_session_logic cwd resume_session_id (Some []).

(** ** The loaders ([resource_loader.rs]) *)

Record NoopResourceLoaderOptions : Type := mk_LoaderOptions {
  lo_system_prompt : option str; lo_skill_paths : list str; lo_enable_extensions : bool;
}.
Record ResourceLoaderStub : Type := mk_ResourceLoaderStub {
  rl_cwd : str; rl_no_extensions : bool; rl_no_skills : bool; rl_no_prompt_templates : bool; rl_no_themes : bool;
  rl_no_context_files : bool; rl_system_prompt : option str; rl_skill_paths : list str; rl_reloaded : bool;
}.
Definition create_noop_resource_loader (cwd : str) (o : NoopResourceLoaderOptions) : ResourceLoaderStub :=
  mk_ResourceLoaderStub cwd (negb (lo_enable_extensions o)) true true true true (lo_system_prompt o)
    (lo_skill_paths o) false.
Definition reload (l : ResourceLoaderStub) : ResourceLoaderStub :=
  mk_ResourceLoaderStub (rl_cwd l) (rl_no_extensions l) (rl_no_skills l) (rl_no_prompt_templates l) (rl_no_themes l)
    (rl_no_context_files l) (rl_system_prompt l) (rl_skill_paths l) true.

Section Loader.
Context `{SerdeJson}.

Definition extension_loader_cache_key (cwd : str) (system_prompt : option str) (skill_paths : list str) : str :=
  to_string (Array [String cwd; default Null (String <$> system_prompt);
                    Array (map String (sort_strings skill_paths))]).
(** The loader, and the cache after it. *)
Definition get_or_create_reloaded_extension_loader (cwd : str) (o : NoopResourceLoaderOptions)
    (cache : gmap str ResourceLoaderStub) : ResourceLoaderStub * gmap str ResourceLoaderStub :=
  let k := extension_loader_cache_key cwd (lo_system_prompt o) (lo_skill_paths o) in
  match cache !! k with
  | Some loader => (loader, cache)
  | None =>
      let loader := reload (create_noop_resource_loader cwd
                              (mk_LoaderOptions (lo_system_prompt o) (lo_skill_paths o) true)) in
      (loader, <[k := loader]> cache)
  end.
End Loader.

(** ** What the options mean *)

(** A reference names a provider, up to the first slash, and a model, which is the rest. *)
Lemma model_ref_spec (raw : str) (r : PiModelRef) :
  parse_pi_model_ref raw = Some r <->
  raw = pm_provider r ++ slash ++ pm_model_id r /\ provider_valid (pm_provider r) = true /\ pm_model_id r <> [].
Proof.
  unfold parse_pi_model_ref. split.
  - destruct (split_once slash raw) as [[p m]|] eqn:E; [|done]. cbn [mbind option_bind].
    destruct (provider_valid p) eqn:Ep; [|by destruct (is_empty p), (is_empty m)].
    destruct p as [|c p]; [done|]. destruct m as [|d m]; [done|]. cbn [is_empty orb negb]. intros [= <-].
    apply split_once_Some in E. done.
  - intros (-> & Hp & Hm). destruct r as [p m]. cbn [pm_provider pm_model_id] in *.
    assert (47%N ∉ p) as Hs.
    { destruct p as [|c p]; [done|]. apply andb_true_iff in Hp as [_ Hp]. rewrite forallb_forall in Hp.
      intros H%list_elem_of_In%Hp. by vm_compute in H. }
    change slash with [47%N]. change (p ++ [47%N] ++ m) with (p ++ 47%N :: m). rewrite (split_once_char 47%N p m Hs). cbn [mbind option_bind]. rewrite Hp.
    destruct p; [done|]. by destruct m.
Qed.

Lemma dedup_spec seen l : NoDup (dedup seen l) /\ forall x, x ∈ dedup seen l <-> x ∈ l /\ x ∉ seen.
Proof.
  revert seen. induction l as [|a l IH]; intros seen; cbn [dedup].
  { split; [constructor|]. intros x. rewrite elem_of_nil. naive_solver. }
  case_bool_decide as Ha.
  - destruct (IH seen) as [Hn Hx]. split; [done|]. intros x. rewrite Hx, elem_of_cons. naive_solver.
  - destruct (IH (a :: seen)) as [Hn Hx]. split.
    + constructor; [|done]. rewrite Hx, elem_of_cons. naive_solver.
    + intros x. rewrite !elem_of_cons, Hx, elem_of_cons. destruct (decide (x = a)); naive_solver.
Qed.

Section ToolSpecs.
Context `{UnicodeCase}.

Lemma known_tools_spec names n :
  n ∈ known_tools names <-> n ∈ PI_TOOL_NAMES /\ exists a, a ∈ names /\ to_lowercase a = n.
Proof.
  unfold known_tools, lefts. rewrite list_elem_of_omap. split.
  - intros (x & (a & -> & Ha)%list_elem_of_fmap & Hx). unfold classify_tool in Hx. case_bool_decide as Hk; [|done].
    injection Hx as <-. eauto.
  - intros [Hn (a & Ha & <-)]. exists (inl (to_lowercase a)). split; [|done]. apply list_elem_of_fmap. exists a.
    unfold classify_tool. by rewrite bool_decide_true.
Qed.

(** The tools of a node with restrictions: each at most once, those that are allowed, by
    their names in any case, or all when nothing says so, and none that is denied. *)
Lemma resolve_pi_tools_spec nc env tools unknown :
  resolve_pi_tools (Some nc) env = (Some tools, unknown) ->
  is_Some (nc_allowed_tools nc) \/ is_Some (nc_denied_tools nc) ->
  NoDup (map pt_name tools) /\
  forall n, n ∈ map pt_name tools <->
    n ∈ PI_TOOL_NAMES /\ (forall al, nc_allowed_tools nc = Some al -> exists a, a ∈ al /\ to_lowercase a = n)
    /\ ~ (exists dn d, nc_denied_tools nc = Some dn /\ d ∈ dn /\ to_lowercase d = n).
Proof.
  unfold resolve_pi_tools. cbn [mbind option_bind]. intros E Hr.
  assert (exists al dn, nc_allowed_tools nc = al /\ nc_denied_tools nc = dn /\
    tools = map (build_pi_tool_spec (some_env env)) (dedup []
      (match dn with
       | Some dn => List.filter (fun n => negb (bool_decide (n ∈ known_tools dn)))
                      match al with Some al => known_tools al | None => PI_TOOL_NAMES end
       | None => match al with Some al => known_tools al | None => PI_TOOL_NAMES end
       end))) as (al & dn & Hal & Hdn & ->).
  { eexists _, _. split_and!; [done..|]. destruct (nc_allowed_tools nc), (nc_denied_tools nc); simplify_eq; try done.
    by destruct Hr as [[? ?]|[? ?]]. }
  rewrite Hal, Hdn. clear E Hr Hal Hdn. rewrite map_map. change (fun x => pt_name _) with (fun x : str => x).
  rewrite map_id. set (sel := match al with Some al => known_tools al | None => PI_TOOL_NAMES end).
  assert (forall n, n ∈ sel <-> n ∈ PI_TOOL_NAMES /\ forall l, al = Some l -> exists a, a ∈ l /\ to_lowercase a = n) as Hsel.
  { intros n. unfold sel. destruct al as [al|]; [rewrite known_tools_spec|]; naive_solver. }
  destruct (dedup_spec [] match dn with
    | Some dn => List.filter (fun n => negb (bool_decide (n ∈ known_tools dn))) sel | None => sel end) as [Hn Hx].
  split; [exact Hn|]. intros n. rewrite Hx. destruct dn as [dn|].
  - rewrite list_elem_of_In, filter_In, <-list_elem_of_In, Hsel, negb_true_iff, bool_decide_eq_false, known_tools_spec.
    rewrite elem_of_nil. naive_solver.
  - rewrite Hsel, elem_of_nil. naive_solver.
Qed.
End ToolSpecs.

(** A loader is made once: asked for again, it is the same, and the cache stays. *)
Lemma loader_cached `{SerdeJson} cwd o cache loader cache' :
  get_or_create_reloaded_extension_loader cwd o cache = (loader, cache') ->
  forall o', lo_system_prompt o' = lo_system_prompt o -> lo_skill_paths o' ≡ₚ lo_skill_paths o ->
  get_or_create_reloaded_extension_loader cwd o' cache' = (loader, cache').
Proof.
  intros E o' Hs Hp. unfold get_or_create_reloaded_extension_loader, extension_loader_cache_key in *.
  rewrite Hs, (sort_strings_perm _ _ Hp). case_match eqn:El; simplify_eq; [by rewrite El|].
  by rewrite lookup_insert_eq.
Qed.
