(* ===== verification/PiSession.v ===== *)
(** * Pi: its events, and a session

    [pi/event_bridge.rs] and the parser of [pi/rpc_client.rs] of [har-provider]: a line
    that Pi prints as an event, and an event as messages.

    [PiRpcEvent] and [PiEvent] have the same variants, and [rpc_event_to_bridge_event] maps
    each to its namesake; they are one type here.  The queue of [event_bridge.rs], which
    nothing uses, is left out.

    The second part is the session of [pi/rpc_client.rs]: the program is started, asked, and
    its lines are read to the end of the agent, with its requests answered. *)
From S2P Require Import Prelude StdModel Float64 Json Provider CopilotEvents CliStream AgentProc StructuredOutput.
From S2P Require Import NativeTools ClaudeCli PiOptions.

Record PiUsage : Type := mk_PiUsage { pu_input : N; pu_output : N; pu_total_tokens : N; pu_cost_total : f64 }.
Record PiAssistantMessage : Type := mk_PiAssistantMessage {
  pa_usage : PiUsage; pa_stop_reason : option str; pa_error_message : option str; pa_text_blocks : list str;
}.
Inductive PiEvent : Type :=
| TextDelta (delta : str)
| ThinkingDelta (delta : str)
| MessageUpdateOther
| PiToolStart (tool_name : str) (args : value) (tool_call_id : str)
| PiToolEnd (tool_name : str) (result : value) (tool_call_id : str) (is_error : bool)
| AgentEnd (last_assistant : option PiAssistantMessage)
| AutoRetryStart (attempt max_attempts : N) (error_message : str)
| TurnStart
| PiOther.

(** ** Lines *)

(** [as u32] of an integer. *)
Definition u64_as_u32 (n : N) : N := (n mod 2 ^ 32)%N.
Definition get_u32 (k : string) (v : value) : N := u64_as_u32 (default 0%N (value_get (lit k) v ≫= as_u64)).
Definition text_of (k : string) (v : value) : str := default [] (get_str k v).

Definition is_role (role : string) (m : value) : bool := bool_decide (get_str "role" m = Some (lit role)).
(** The texts of the text blocks of a message. *)
Definition text_blocks (message : value) : list str :=
  omap (fun block => if bool_decide (get_str "type" block = Some (lit "text")) then get_str "text" block else None)
    (default [] (value_get (lit "content") message ≫= as_array)).
Definition parse_pi_usage (usage : value) : PiUsage :=
  mk_PiUsage (get_u32 "input" usage) (get_u32 "output" usage) (get_u32 "totalTokens" usage)
    (default f64_zero (c ← value_get (lit "cost") usage; value_get (lit "total") c ≫= value_as_f64)).

(** The last message of the assistant, if it says its usage. *)
Definition parse_pi_assistant_message (event : value) : option PiAssistantMessage :=
  messages ← value_get (lit "messages") event ≫= as_array;
  last_assistant ← List.find (is_role "assistant") (rev messages);
  usage ← value_get (lit "usage") last_assistant;
  Some (mk_PiAssistantMessage (parse_pi_usage usage) (get_str "stopReason" last_assistant)
          (get_str "errorMessage" last_assistant) (text_blocks last_assistant)).

Definition message_update (v : value) : option PiEvent :=
  msg_event ← value_get (lit "assistantMessageEvent") v;
  sub_type ← get_str "type" msg_event;
  Some (if str_eqb sub_type (lit "text_delta") then TextDelta (text_of "delta" msg_event)
        else if str_eqb sub_type (lit "thinking_delta") then ThinkingDelta (text_of "delta" msg_event)
        else MessageUpdateOther).

Definition parse_pi_event (v : value) : option PiEvent :=
  event_type ← get_str "type" v;
  let kind (s : string) := str_eqb event_type (lit s) in
  if kind "message_update" then message_update v
  else if kind "tool_execution_start" then
    Some (PiToolStart (text_of "toolName" v) (default (Object []) (value_get (lit "args") v)) (text_of "toolCallId" v))
  else if kind "tool_execution_end" then
    Some (PiToolEnd (text_of "toolName" v) (default Null (value_get (lit "result") v)) (text_of "toolCallId" v)
            (default false (value_get (lit "isError") v ≫= as_bool)))
  else if kind "agent_end" then Some (AgentEnd (parse_pi_assistant_message v))
  else if kind "auto_retry_start" then
    Some (AutoRetryStart (get_u32 "attempt" v) (get_u32 "maxAttempts" v) (text_of "errorMessage" v))
  else if kind "turn_start" then Some TurnStart
  else Some PiOther.
Definition parse_pi_event_json `{SerdeJson} (line : str) : option PiEvent := v ← from_str line; parse_pi_event v.

(** ** Messages *)

Definition usage_to_tokens (u : PiUsage) : TokenUsage :=
  mk_TokenUsage (pu_input u) (pu_output u) (Some (pu_total_tokens u)) (Some (pu_cost_total u)).
Definition stopped_badly (stop_reason : option str) : bool :=
  bool_decide (stop_reason = Some (lit "error")) || bool_decide (stop_reason = Some (lit "aborted")).
(** The result, in the session [session_id]. *)
Definition build_result_chunk (session_id : option str) (last_assistant : option PiAssistantMessage) : ResultChunk :=
  match last_assistant with
  | None =>
      mk_ResultChunk session_id None None (Some true) (Some (lit "missing_assistant_message")) None None None None None
  | Some last =>
      let is_error := stopped_badly (pa_stop_reason last) in
      mk_ResultChunk session_id (Some (usage_to_tokens (pa_usage last))) None (if is_error then Some true else None)
        (if is_error then pa_stop_reason last else None)
        (if is_error then (fun m => [m]) <$> pa_error_message last else None)
        (Some (pu_cost_total (pa_usage last))) (pa_stop_reason last) None None
  end.

Section Messages.
Context `{SerdeJson}.

Definition serialize_tool_result (result : value) : str :=
  match result with String s => s | other => to_string other end.
Definition pi_tool_input (args : value) : value :=
  match args with Object _ | Array _ => args | _ => Object [] end.

Definition map_pi_event (event : PiEvent) : list MessageChunk :=
  match event with
  | TextDelta delta => [Assistant delta None]
  | ThinkingDelta delta => [Thinking delta]
  | PiToolStart tool_name args tool_call_id => [Tool tool_name (Some (pi_tool_input args)) (Some tool_call_id)]
  | PiToolEnd tool_name result tool_call_id is_error =>
      (if is_error then [System (warning_sign ++ lit "Tool " ++ tool_name ++ lit " failed")] else [])
      ++ [ToolResult tool_name (serialize_tool_result result) (Some tool_call_id)]
  | AgentEnd last_assistant => [ResultMsg (build_result_chunk None last_assistant)]
  | AutoRetryStart attempt max_attempts error_message =>
      [System (warning_sign ++ lit "retry " ++ show_N attempt ++ lit "/" ++ show_N max_attempts ++ lit ": "
               ++ error_message)]
  | MessageUpdateOther | TurnStart | PiOther => []
  end.
End Messages.

(** *** The end of the answer *)

(** The text of the turn after an event. *)
Definition turn_text (current_turn_text : str) (event : PiEvent) : str :=
  match event with TextDelta delta => current_turn_text ++ delta | TurnStart => [] | _ => current_turn_text end.
(** What the final text has beyond what was streamed of the turn. *)
Definition streaming_tail (current_turn_text : str) (last_assistant : option PiAssistantMessage) : list MessageChunk :=
  match last_assistant with
  | None => []
  | Some msg =>
      match strip_prefix current_turn_text (concat (pa_text_blocks msg)) with
      | Some (c :: tail) => [Assistant (c :: tail) (Some true)]
      | _ => []
      end
  end.
(** What an event says, with the text of its turn before it. *)
Definition event_chunks `{SerdeJson} (session_id : option str) (current_turn_text : str) (event : PiEvent) : list MessageChunk :=
  match event with
  | AgentEnd last_assistant =>
      streaming_tail current_turn_text last_assistant ++ [ResultMsg (build_result_chunk session_id last_assistant)]
  | event => map_pi_event event
  end.

(** * A session of Pi

    [run_pi_rpc_session] of [pi/rpc_client.rs]: Pi is started, asked for its state, sent the
    prompt, and its lines are read until the agent has ended; requests of its extensions are
    answered in between, those for a native tool by the handler of the tool.

    What Pi prints is one finite answer of its start, the lines up to the end of the output,
    though Pi may well decide them by what it is written later; a line that cannot be read
    is an error.  [WriteLine] is answered with whether the text could be written; the pipes
    are always there.  A handler is a call: a tool may have none, and it may panic, which
    takes the query with it. *)

Inductive tool_answer : Type := NoHandler | HandlerPanics | HandlerText (s : str).

Inductive pi_call : Type :=
| Common (c : agent_call)
| GetVar (k : str)
| SetVar (k v : str)
| TempDir
| CreateDirAll (path : str)
| WriteFile (path content : str)
| SpawnPi (program : str) (args : list str) (env : gmap str str) (cwd : str)
| WriteLine (text : str)
| RunTool (name : str) (args : gmap str value)
| AcquirePermit (max : N)
| ReleasePermit
| KillPi.
Definition pi_ret (c : pi_call) : Type :=
  match c with
  | Common c => agent_ret c
  | GetVar _ => option str
  | SetVar _ _ => unit
  | TempDir => str
  | CreateDirAll _ | WriteFile _ _ => result io.Error unit
  | SpawnPi _ _ _ _ => result io.Error (list (result io.Error str))
  | WriteLine _ => bool
  | RunTool _ _ => tool_answer
  | AcquirePermit _ | ReleasePermit | KillPi => unit
  end.
#[export] Instance pi_calls : Calls pi_call := pi_ret.
Abbreviation pi := (@Process.proc pi_call pi_calls).
Abbreviation pi_trace := (Process.trace pi_call).
Definition rpc (c : pi_call) : pi (pi_ret c) := ask c.
Definition common {A} : agent A -> pi A := lift Common (fun _ r => r).
Definition say_all (chunks : list MessageChunk) : pi unit := common (yield_all chunks).

Definition pi_error (subtype error : str) : MessageChunk :=
  ResultMsg (mk_ResultChunk None None None (Some true) (Some subtype) (Some [error]) None None None None).

(** The command of Pi, if there is one. *)
Definition find_pi_argv : pi (option (list str)) :=
  val ← rpc (GetVar (lit "PI_CODING_AGENT_CLI"));
  Done (split_whitespace <$> non_empty val).

(** ** Lines *)

Definition session_flags (d : SessionResolutionDecision) : list str :=
  match d with
  | Fresh _ | FreshWithFailedResume _ => [lit "--no-session"]
  | OpenSession path => [lit "--session"; path]
  end.

Section Session.
Context `{SerdeJson} `{HashMapOrder}.

Definition ui_response (id k : str) (v : value) : str :=
  to_string (Object [key "type" (String (lit "extension_ui_response")); key "id" (String id); (k, v)]) ++ newline.
Definition cancelled_response (id : str) : str := ui_response id (lit "cancelled") (Bool true).

(** The tool that a request is for, and its arguments. *)
Definition dispatch_of (placeholder : str) : option (str * gmap str value) :=
  payload ← from_str placeholder;
  tool_name ← get_str "tool" payload;
  Some (tool_name, match default (Object []) (value_get (lit "params") payload) with
                   | Object m => list_to_map m
                   | _ => ∅
                   end).

Inductive pi_line : Type :=
| Skipped
| Notified (message : str)
| Answered (response : str)
| Dispatched (id : str) (request : option (str * gmap str value))
| PiEventLine (e : PiEvent).

Definition ui_request (v : value) : pi_line :=
  let req_id := text_of "id" v in
  let is_method (s : string) := str_eqb (text_of "method" v) (lit s) in
  if is_method "notify" then
    match text_of "message" v with [] => Skipped | msg => Notified msg end
  else if is_method "setStatus" || is_method "setWidget" || is_method "setTitle" || is_method "set_editor_text" then Skipped
  else if is_method "select" then Answered (cancelled_response req_id)
  else if is_method "confirm" then Answered (ui_response req_id (lit "confirmed") (Bool false))
  else if is_method "input" && str_eqb (text_of "title" v) (lit "native_tool_dispatch") then
    Dispatched req_id (dispatch_of (text_of "placeholder" v))
  else Answered (cancelled_response req_id).

Definition without_cr (line : str) : str := StructuredOutput.trim_end_matches (N.eqb 13) line.
Definition classify_line (line : str) : pi_line :=
  let line := without_cr line in
  if is_empty line then Skipped
  else
    match from_str line with
    | None => Skipped
    | Some v =>
        match get_str "type" v with
        | None => Skipped
        | Some ev_type =>
            if str_eqb ev_type (lit "extension_ui_request") then ui_request v
            else if str_eqb ev_type (lit "response") then Skipped
            else match parse_pi_event_json line with Some e => PiEventLine e | None => Skipped end
        end
    end.

(** The handler's text, unless the tool is none of the query, or has no handler. *)
Definition dispatch_tool (native_tools : list NativeTool) (request : option (str * gmap str value)) : pi (option str) :=
  match request with
  | None => Done None
  | Some (tool_name, params) =>
      if existsb (fun t => str_eqb (tool_name_ t) tool_name) native_tools then
        answer ← rpc (RunTool tool_name params);
        match answer with
        | NoHandler => Done None
        | HandlerPanics => Halt
        | HandlerText s => Done (Some s)
        end
      else Done None
  end.
Definition dispatch_response (id : str) (result : option str) : str :=
  match result with Some s => ui_response id (lit "value") (String s) | None => cancelled_response id end.

(** The loop over the lines. *)
Fixpoint pi_event_loop (native_tools : list NativeTool) (session_id : option str) (current_turn_text : str)
    (lines : list (result io.Error str)) : pi unit :=
  cancelled ← rpc (Common IsCancelled);
  if cancelled : bool then Done tt
  else
    match lines with
    | [] | Err _ :: _ => Done tt
    | Ok line :: lines =>
        match classify_line line with
        | Skipped => pi_event_loop native_tools session_id current_turn_text lines
        | Notified msg =>
            _ ← say_all [Assistant msg (Some true)];
            pi_event_loop native_tools session_id current_turn_text lines
        | Answered response =>
            _ ← rpc (WriteLine response);
            pi_event_loop native_tools session_id current_turn_text lines
        | Dispatched id request =>
            result ← dispatch_tool native_tools request;
            _ ← rpc (WriteLine (dispatch_response id result));
            pi_event_loop native_tools session_id current_turn_text lines
        | PiEventLine e =>
            _ ← say_all (event_chunks session_id current_turn_text e);
            match e with
            | AgentEnd _ => Done tt
            | _ => pi_event_loop native_tools session_id (turn_text current_turn_text e) lines
            end
        end
    end.

(** ** The start *)

(** The session a line names, if it is the response to [get_state]. *)
Definition state_response (line : str) : option (option str) :=
  v ← from_str line;
  if bool_decide (get_str "type" v = Some (lit "response")) && bool_decide (get_str "command" v = Some (lit "get_state"))
  then Some (d ← value_get (lit "data") v; get_str "sessionId" d) else None.
Definition GET_STATE_ATTEMPTS : nat := 20.
(** The session, and the lines that are left. *)
Fixpoint read_state (attempts : nat) (lines : list (result io.Error str)) : option str * list (result io.Error str) :=
  match attempts, lines with
  | O, _ | _, [] => (None, lines)
  | S _, Err _ :: lines => (None, lines)
  | S attempts, Ok line :: lines =>
      let line := without_cr line in
      if is_empty line then read_state attempts lines
      else match state_response line with
           | Some session_id => (session_id, lines)
           | None => read_state attempts lines
           end
  end.

Record PiRpcSessionOptions : Type := mk_PiRpcSessionOptions {
  po_prompt : str;
  po_decision : SessionResolutionDecision;
  po_provider : str;
  po_model_id : str;
  po_cwd : str;
  po_native_tools : list NativeTool;
  po_enable_extensions : bool;
  po_env_vars : gmap str str;
}.

(** The text of [assets/native-tools-bridge.js]. *)
Context (bridge_src : str).

Definition tool_def_json (d : PiNativeToolDef) : value :=
  Object [key "name" (String (pd_name d)); key "description" (String (pd_description d)); key "schema" (pd_schema d)].
(** The flags and the variable of the bridge; without them the tools are left out. *)
Definition native_tools_bridge (native_tools : list NativeTool) : pi (list str * option str) :=
  match native_tools with
  | [] => Done ([], None)
  | _ =>
      match build_pi_native_tool_definitions native_tools with
      | Err _ => Done ([], None)
      | Ok defs =>
          tempfile ← rpc (Common (WriteTempFile bridge_src));
          Done match tempfile with
               | Ok path => ([lit "--extension"; path], Some (to_string (Array (map tool_def_json defs))))
               | Err _ => ([], None)
               end
      end
  end.

Definition get_state_cmd : str := lit "{" ++ in_quotes (lit "type") ++ lit ":" ++ in_quotes (lit "get_state") ++ lit "}" ++ newline.
Definition prompt_cmd (prompt : str) : str :=
  to_string (Object [key "type" (String (lit "prompt")); key "message" (String prompt)]) ++ newline.

(** From the lines of Pi to the end. *)
Definition pi_conversation (opts : PiRpcSessionOptions) (lines : list (result io.Error str)) : pi unit :=
  written ← rpc (WriteLine get_state_cmd);
  if negb written then say_all [pi_error (lit "pi_write_failed") (lit "Failed to write get_state to Pi CLI")]
  else
    let '(session_id, lines) := read_state GET_STATE_ATTEMPTS lines in
    written ← rpc (WriteLine (prompt_cmd (po_prompt opts)));
    if negb written then say_all [pi_error (lit "pi_write_failed") (lit "Failed to write prompt to Pi CLI")]
    else
      _ ← pi_event_loop (po_native_tools opts) session_id [] lines;
      rpc KillPi.

Definition run_pi_rpc_session (opts : PiRpcSessionOptions) : pi unit :=
  pi_argv ← find_pi_argv;
  match pi_argv with
  | None => say_all [pi_error (lit "pi_binary_not_found") (lit "Pi CLI not found. Set PI_CODING_AGENT_CLI env var.")]
  | Some [] => Halt
  | Some (program :: rest) =>
      bridge ← native_tools_bridge (po_native_tools opts);
      let args :=
        rest ++ [lit "--mode"; lit "rpc"] ++ session_flags (po_decision opts)
        ++ [lit "--provider"; po_provider opts; lit "--model"; po_model_id opts] ++ fst bridge
        ++ (if po_enable_extensions opts then [] else [lit "--no-extensions"]) in
      let env := match snd bridge with
                 | Some defs => <[lit "NATIVE_TOOLS_BRIDGE_NAMES" := defs]> (po_env_vars opts)
                 | None => po_env_vars opts
                 end in
      spawned ← rpc (SpawnPi program args env (po_cwd opts));
      match spawned with
      | Err e => say_all [pi_error (lit "pi_spawn_failed") (lit "Failed to spawn Pi CLI: " ++ io.text e)]
      | Ok lines => pi_conversation opts lines
      end
  end.
End Session.
