(* ===== verification/PiProvider.v ===== *)
(** * The Pi provider

    [pi/provider.rs] of [har-provider]: a query, from its options to the session of
    [PiSession].  The variables of the process are calls, since a query sets some of them.

    The loader of resources is left out of the query, which makes one and does not use it;
    so are the entries of the log.  The semaphore is a call: [AcquirePermit] waits for one
    of at most [max] permits, by the number that was the first to be asked for.

    The last part is what a query guarantees. *)
From S2P Require Import Prelude StdModel Float64 Json Paths Provider CliStream AgentProc Skills.
From S2P Require Import StructuredOutput NativeTools ClaudeCli CopilotEvents PiOptions PiSession.

Definition PI_PROVIDER_ENV_VARS : list (str * str) :=
  map (fun e => (lit (fst e), lit (snd e)))
    [("anthropic", "ANTHROPIC_API_KEY"); ("openai", "OPENAI_API_KEY"); ("google", "GEMINI_API_KEY");
     ("groq", "GROQ_API_KEY"); ("mistral", "MISTRAL_API_KEY"); ("cerebras", "CEREBRAS_API_KEY");
     ("xai", "XAI_API_KEY"); ("openrouter", "OPENROUTER_API_KEY"); ("huggingface", "HUGGINGFACE_API_KEY")]%string.
Definition pi_provider_env_var (provider : str) : option str := assoc_get provider PI_PROVIDER_ENV_VARS.

(** [std::env::set_var] panics at a name or a value the system refuses. *)
Definition settable (k v : str) : bool := settable_name k && settable_value v.
Definition set_var (k v : str) : pi unit := if settable k v then rpc (SetVar k v) else Halt.

(** ** The shim *)

Definition shim_failed (shim_dir : str) (e : io.Error) : str :=
  lit "Pi shim setup failed at " ++ shim_dir ++ lit ": " ++ io.text e.
Definition map_io_err {A} (f : io.Error -> str) (p : pi (result io.Error A)) : pi (result str A) :=
  r ← p; Done (map_err f r).

Section Query.
Context `{SerdeJson} `{HashMapOrder} `{UnicodeCase} `{ProcessEnvironment} `{StructuredText}.
Context (bridge_src : str).

Definition shim_content : str :=
  to_string (Object [key "name" (String (lit "archon-pi-shim")); key "version" (String (lit "0.0.0"));
                     key "piConfig" (Object [])]).
Definition ensure_pi_package_dir_shim : pi (result str unit) :=
  tmp ← rpc TempDir;
  let shim_dir := path_join tmp (lit "archon-pi-shim") in
  let shim_pkg := path_join shim_dir (lit "package.json") in
  there ← common (path_exists shim_pkg);
  _ ←? (if there : bool then Done (Ok tt)
        else
          _ ←? map_io_err (shim_failed shim_dir) (rpc (CreateDirAll shim_dir));
          map_io_err (shim_failed shim_dir) (rpc (WriteFile shim_pkg shim_content)));
  _ ← set_var (lit "PI_PACKAGE_DIR") shim_dir;
  Done (Ok tt).

(** ** The options *)

(** The variables of the configuration that the process does not have. *)
Fixpoint apply_config_env (env : list (str * str)) : pi unit :=
  match env with
  | [] => Done tt
  | (k, v) :: env =>
      current ← rpc (GetVar k);
      _ ← match current with Some _ => Done tt | None => set_var k v end;
      apply_config_env env
  end.

(** The variable of the key of the provider, and the key. *)
Definition resolve_key (provider : str) (request_env : option (gmap str str)) : pi (option (str * str)) :=
  match pi_provider_env_var provider with
  | None => Done None
  | Some var_name =>
      found ← match request_env ≫= lookup var_name with
              | Some v => Done (Some v)
              | None => rpc (GetVar var_name)
              end;
      Done (v ← non_empty found; Some (var_name, v))
  end.

Definition pi_model_missing : str :=
  lit "Pi provider requires a model. Set `model` on the workflow node or `assistants.pi.model` in .archon/config.yaml. Format: '<pi-provider-id>/<model-id>' (e.g. 'google/gemini-2.5-pro').".
Definition pi_invalid_model_ref (raw : str) : str :=
  lit "Invalid Pi model ref: '" ++ raw
  ++ lit "'. Expected format '<pi-provider-id>/<model-id>' (e.g. 'google/gemini-2.5-pro').".
Definition unknown_tools_warning (names : list str) : str :=
  lit "Pi ignored unknown tool names: " ++ join (lit ", ") names
  ++ lit ". Pi's built-in tools: read, bash, edit, write, grep, find, ls.".
Definition unresolved_skills_warning (names : list str) : str :=
  lit "Pi could not resolve skill names: " ++ join (lit ", ") names
  ++ lit ". Searched .agents/skills and .claude/skills (project + user-global). Each must be a directory containing SKILL.md.".
Definition resume_failed_warning : str := lit "Could not resume Pi session. Starting fresh conversation.".
Definition pi_warn (message : str) : MessageChunk := System (warning_sign ++ message).
Definition listed (f : list str -> str) (names : list str) : list MessageChunk :=
  match names with [] => [] | _ => [pi_warn (f names)] end.

(** What the session is asked for. *)
Definition rpc_options (prompt cwd : str) (options : option SendQueryOptions) (config : PiProviderDefaults)
    (parsed : PiModelRef) (env_override : option (str * str)) (decision : SessionResolutionDecision)
  : PiRpcSessionOptions :=
  let request_env := default ∅ (options ≫= so_env) in
  mk_PiRpcSessionOptions
    (match options ≫= so_output_format with
     | Some fmt => augment_prompt_for_json_schema prompt (schema fmt)
     | None => prompt
     end)
    decision (pm_provider parsed) (pm_model_id parsed) cwd (default [] (options ≫= so_native_tools))
    (negb (bool_decide (pi_enable_extensions config = Some false)))
    (match env_override with Some (k, v) => <[k := v]> request_env | None => request_env end).

(** A session, with a permit when there is a limit. *)
Definition with_permit (max_concurrent : option N) (session : pi unit) : pi unit :=
  _ ← match max_concurrent with Some max => rpc (AcquirePermit max) | None => Done tt end;
  cancelled ← rpc (Common IsCancelled);
  _ ← (if cancelled : bool then Done tt else session);
  match max_concurrent with Some _ => rpc ReleasePermit | None => Done tt end.

Definition pi_model_query (prompt cwd : str) (resume_session_id : option str) (options : option SendQueryOptions)
    (config : PiProviderDefaults) (parsed : PiModelRef) : pi unit :=
  let node_config := options ≫= so_node_config in
  env_override ← resolve_key (pm_provider parsed) (options ≫= so_env);
  _ ← say_all (pi_warn <$> option_list (snd (resolve_pi_thinking_level node_config)));
  _ ← say_all (listed unknown_tools_warning (snd (resolve_pi_tools node_config (options ≫= so_env))));
  skills ← common (resolve_pi_skills cwd (node_config ≫= nc_skills));
  _ ← say_all (listed unresolved_skills_warning (sk_missing skills));
  let '(resume_failed, decision) := resolve_pi_session cwd resume_session_id in
  _ ← say_all (if resume_failed : bool then [pi_warn resume_failed_warning] else []);
  with_permit (pi_max_concurrent config)
    (run_pi_rpc_session bridge_src (rpc_options prompt cwd options config parsed env_override decision)).

Definition pi_send_query (prompt cwd : str) (resume_session_id : option str) (options : option SendQueryOptions)
  : pi unit :=
  shim ← ensure_pi_package_dir_shim;
  match shim with
  | Err e => say_all [pi_error (lit "pi_shim_setup_failed") e]
  | Ok _ =>
      let config := parse_pi_config (default ∅ (options ≫= so_assistant_config)) in
      _ ← apply_config_env (hm_iter (default ∅ (pi_env config)));
      match (match options ≫= so_model with Some m => Some m | None => pi_model config end) with
      | None => say_all [pi_error (lit "pi_model_missing") pi_model_missing]
      | Some raw =>
          match parse_pi_model_ref raw with
          | None => say_all [pi_error (lit "pi_invalid_model_ref") (pi_invalid_model_ref raw)]
          | Some parsed => pi_model_query prompt cwd resume_session_id options config parsed
          end
      end
  end.
End Query.

(** * What a query to Pi guarantees

    The life of the program behind a query ([PiSession], [PiProvider]), whatever is
    answered; and that a session that goes well is read back. *)

(** ** The steps of a query *)

Inductive pi_life : Type :=
| Said (chunk : MessageChunk)
| Started (args : list str) (ok : bool)
| Wrote (text : str) (ok : bool)
| Ran (name : str) (args : gmap str value) (answer : tool_answer)
| Killed
| Acquired (max : N)
| Released
| Asked (cancelled : bool)
| Looked (command : option str).

(** What is done, and what is seen: also whether the query was found cancelled, and what
    the variable with the command of Pi holds. *)
Definition pi_life_of (e : event pi_call) : option pi_life :=
  match e with
  | mk_event c r =>
      match c return response c -> option pi_life with
      | SpawnPi _ args _ _ => fun r => Some (Started args (match r with Ok _ => true | Err _ => false end))
      | WriteLine t => fun r => Some (Wrote t r)
      | RunTool name args => fun r => Some (Ran name args r)
      | KillPi => fun _ => Some Killed
      | AcquirePermit max => fun _ => Some (Acquired max)
      | ReleasePermit => fun _ => Some Released
      | Common (Yield chunk) => fun _ => Some (Said chunk)
      | _ => fun _ => None
      end r
  end.
Definition pi_seen_of (e : event pi_call) : option pi_life :=
  match e with
  | mk_event c r =>
      match c return response c -> option pi_life with
      | Common IsCancelled => fun r => Some (Asked r)
      | GetVar name => fun r =>
          if str_eqb name (lit "PI_CODING_AGENT_CLI") then Some (Looked r) else None
      | c => fun r => pi_life_of (mk_event c r)
      end r
  end.
Abbreviation shows := (Process.shows pi_seen_of).
Abbreviation hidden := (Process.hidden pi_seen_of).

Definition is_done (x : pi_life) : bool := match x with Asked _ | Looked _ => false | _ => true end.
Lemma observed_done tr : observed pi_life_of tr = List.filter is_done (observed pi_seen_of tr).
Proof.
  unfold observed. induction tr as [|[c r] tr IH]; [done|]. cbn [omap list_omap].
  destruct c as [[]|name| | | | | | | | | | ]; cbn [pi_seen_of pi_life_of]; rewrite ?IH; try done.
  by destruct (str_eqb name _).
Qed.
(** What is done, from what is seen. *)
Lemma shows_done_part {A} (p : pi A) (R : list pi_life -> outcome A -> Prop) :
  shows p R -> Process.shows pi_life_of p (fun l o => exists k, l = List.filter is_done k /\ R k o).
Proof. apply always_mono. intros tr o HR. rewrite observed_done. by eexists. Qed.

(** What a line of Pi leads to: messages, none of them a result; an answer that is
    written; or a handler of a tool of the query, whose reply is written at once. *)
Inductive reaction (tools : list str) : list pi_life -> Prop :=
| re_said chunks : Forall (fun c => forall r, c <> ResultMsg r) chunks -> reaction tools (map Said chunks)
| re_wrote t ok : reaction tools [Wrote t ok]
| re_ran name args answer t ok : name ∈ tools -> answer <> HandlerPanics ->
    reaction tools [Ran name args answer; Wrote t ok].
(** What happens between the prompt and the end of the agent.  Before each line it is
    asked whether the query is cancelled, and if so that is the end; so is the end of the
    output.  A result is the last thing said; a handler that panics ends everything. *)
Inductive conversation (tools : list str) (sid : option str) : list pi_life -> outcome unit -> Prop :=
| conv_cancelled : conversation tools sid [Asked true] (Ret tt)
| conv_over : conversation tools sid [Asked false] (Ret tt)
| conv_result chunks r : Forall (fun c => forall r, c <> ResultMsg r) chunks -> rc_session_id r = sid ->
    conversation tools sid (Asked false :: map Said chunks ++ [Said (ResultMsg r)]) (Ret tt)
| conv_line s l o : reaction tools s -> conversation tools sid l o -> conversation tools sid (Asked false :: s ++ l) o
| conv_panic name args : name ∈ tools ->
    conversation tools sid [Asked false; Ran name args HandlerPanics] Panic.

Definition infix {A} (l k : list A) : Prop := exists a b, k = a ++ l ++ b.
Definition pi_failed (subtype : string) (c : MessageChunk) : Prop := exists e, c = pi_error (lit subtype) e.
(** The words of the command of Pi. *)
Definition argv_of (command : option str) : option (list str) := split_whitespace <$> CopilotEvents.non_empty command.
(** Pi in a session: not there, not started, deaf to what is written, or spoken to, and
    then killed unless a handler panicked.  It is started with the arguments of the
    command, followed by the flags. *)
Inductive pi_session (get_state prompt : str) (tools : list str) (flags : list str) : list pi_life -> outcome unit -> Prop :=
| ps_absent command c : argv_of command = None -> pi_failed "pi_binary_not_found" c ->
    pi_session get_state prompt tools flags [Looked command; Said c] (Ret tt)
| ps_blank command : argv_of command = Some [] -> pi_session get_state prompt tools flags [Looked command] Panic
| ps_not_started command program rest args c : argv_of command = Some (program :: rest) ->
    rest ++ flags `prefix_of` args -> pi_failed "pi_spawn_failed" c ->
    pi_session get_state prompt tools flags [Looked command; Started args false; Said c] (Ret tt)
| ps_deaf command program rest args c written : argv_of command = Some (program :: rest) ->
    rest ++ flags `prefix_of` args -> pi_failed "pi_write_failed" c ->
    written ∈ [[Wrote get_state false]; [Wrote get_state true; Wrote prompt false]] ->
    pi_session get_state prompt tools flags ([Looked command; Started args true] ++ written ++ [Said c]) (Ret tt)
| ps_spoken command program rest args sid l o : argv_of command = Some (program :: rest) ->
    rest ++ flags `prefix_of` args -> conversation tools sid l o ->
    pi_session get_state prompt tools flags
      ([Looked command; Started args true; Wrote get_state true; Wrote prompt true] ++ l
       ++ match o with Ret _ => [Killed] | Panic => [] end) o.

(** ** The parts *)

Lemma say_all_shows chunks : shows (say_all chunks) (fun l o => l = map Said chunks /\ o = Ret tt).
Proof.
  unfold say_all, common. induction chunks as [|c chunks IH]; [by apply shows_done|]. intros r.
  eapply always_mono, IH. intros tr o [E ->]. unfold observed in *. cbn. by rewrite E.
Qed.
Lemma shows_say {B} chunks (f : unit -> pi B) (R : list pi_life -> outcome B -> Prop) :
  shows (f tt) (fun l o => R (map Said chunks ++ l) o) -> shows (say_all chunks ≫= f) R.
Proof.
  intros Hf. eapply shows_bind; [apply say_all_shows|by intros k [_ ?]|]. intros k [] [-> _]. exact Hf.
Qed.
(** The last thing said. *)
Lemma shows_say_end chunks (R : list pi_life -> outcome unit -> Prop) :
  R (map Said chunks) (Ret tt) -> shows (say_all chunks) R.
Proof. intros HR. eapply shows_mono, say_all_shows. by intros l o [-> ->]. Qed.

Lemma hidden_rpc c : (forall r, pi_seen_of (mk_event c r) = None) -> hidden (rpc c).
Proof. apply hidden_ask. Qed.
Lemma hidden_common {A} (p : agent A) : only_calls quiet p -> gives p (fun _ => True) -> hidden (common p).
Proof.
  intros Hq Hg. apply always_lift. eapply always_mono, (always_and _ _ _ Hq Hg). intros tr o [H (a & -> & _)] tr' Htr.
  split; [|done]. cbv beta in H. unfold observed.
  induction Htr as [|e e' tr tr' (c & r & -> & ->) _ IH]; [done|]. inversion_clear H as [|? ? He Ht].
  destruct c; first [by destruct He | by apply IH].
Qed.

Section Session.
Context `{SerdeJson} `{HashMapOrder}.

(** The chunks of an event: none is a result, but for the last one of the end. *)
Lemma event_chunks_said tools sid turn e :
  match e with
  | AgentEnd _ => exists chunks r, event_chunks sid turn e = chunks ++ [ResultMsg r] /\ rc_session_id r = sid
      /\ Forall (fun c => forall r, c <> ResultMsg r) chunks
  | _ => reaction tools (map Said (event_chunks sid turn e))
  end.
Proof.
  destruct e as [d|d| |name args id|name res id err|last|n m msg| |]; cbn [event_chunks map_pi_event];
    try (apply re_said; by repeat constructor).
  - apply re_said. destruct err; by repeat constructor.
  - eexists _, _. split; [done|]. split; [by destruct last|]. unfold streaming_tail. destruct last as [msg|]; [|done].
    destruct (strip_prefix _ _) as [[|c t]|]; by repeat constructor.
Qed.

Lemma event_loop_conversation tools sid turn lines :
  shows (pi_event_loop tools sid turn lines) (conversation (map tool_name_ tools) sid).
Proof.
  revert turn. induction lines as [|[line|e] lines IH]; intros turn; cbn [pi_event_loop]; apply shows_call;
    (intros [|]; [apply shows_done, conv_cancelled|]); [apply shows_done, conv_over| |apply shows_done, conv_over].
  cbn [pi_seen_of option_list app].
  assert (Hgo : forall s turn', reaction (map tool_name_ tools) s ->
    shows (pi_event_loop tools sid turn' lines)
      (fun l o => conversation (map tool_name_ tools) sid (Asked false :: s ++ l) o)).
  { intros s turn' Hs. eapply shows_mono, IH. intros l o Hl. by apply conv_line. }
  destruct (classify_line line) as [|msg|resp|id request|e].
  - apply (Hgo []), (re_said _ []). constructor.
  - apply shows_say, Hgo, re_said. by repeat constructor.
  - apply shows_call. intros ok. apply (Hgo [_]), re_wrote.
  - assert (Hreply : forall pre res, (forall t ok, reaction (map tool_name_ tools) (pre ++ [Wrote t ok])) ->
        shows (_ ← rpc (WriteLine (dispatch_response id res)); pi_event_loop tools sid turn lines)
          (fun l o => conversation (map tool_name_ tools) sid (Asked false :: pre ++ l) o)).
    { intros pre res Hpre. apply shows_call. intros ok. eapply shows_mono, (Hgo (pre ++ [Wrote (dispatch_response id res) ok]) turn (Hpre _ ok)).
      intros l o Hl. cbv beta in Hl. rewrite <- app_assoc in Hl. exact Hl. }
    unfold dispatch_tool. destruct request as [[name args]|]; [|apply (Hreply [] None), re_wrote].
    destruct (existsb _ tools) eqn:Et; [|apply (Hreply [] None), re_wrote].
    apply existsb_exists in Et as (tool & Hin & <-%str_eqb_spec).
    assert (tool_name_ tool ∈ map tool_name_ tools) as Hn by (apply list_elem_of_fmap; exists tool; by rewrite list_elem_of_In).
    cbn [mbind proc_bind]. apply (shows_call pi_seen_of (RunTool (tool_name_ tool) args)).
    intros [| |text]; cbn [pi_seen_of pi_life_of option_list app].
    + apply (Hreply [_] None). intros t ok. by apply re_ran.
    + by apply conv_panic.
    + apply (Hreply [_] (Some text)). intros t ok. by apply re_ran.
  - apply shows_say. pose proof (event_chunks_said (map tool_name_ tools) sid turn e) as He.
    destruct e; try (by apply Hgo). apply shows_done.
    destruct He as (chunks & r & -> & Hr & Hc). rewrite app_nil_r, map_app. by apply conv_result.
Qed.

(** What the program is told of the session and the model. *)
Definition model_flags (opts : PiRpcSessionOptions) : list str :=
  [lit "--mode"; lit "rpc"] ++ session_flags (po_decision opts)
  ++ [lit "--provider"; po_provider opts; lit "--model"; po_model_id opts].
Definition session_of (opts : PiRpcSessionOptions) : list pi_life -> outcome unit -> Prop :=
  pi_session get_state_cmd (prompt_cmd (po_prompt opts)) (map tool_name_ (po_native_tools opts)) (model_flags opts).

Lemma conversation_shows opts command program rest args lines :
  argv_of command = Some (program :: rest) -> rest ++ model_flags opts `prefix_of` args ->
  shows (pi_conversation opts lines) (fun l o => session_of opts (Looked command :: Started args true :: l) o).
Proof.
  intros Hc Ha. unfold pi_conversation. apply shows_call. intros [|]; cbn [negb pi_seen_of pi_life_of option_list app].
  2:{ apply shows_say_end. eapply (ps_deaf _ _ _ _ command _ _ args _ [_]); [done|done|by eexists|set_solver]. }
  destruct (read_state _ lines) as [sid left]. apply shows_call. intros [|]; cbn [negb pi_seen_of pi_life_of option_list app].
  2:{ apply shows_say_end. eapply (ps_deaf _ _ _ _ command _ _ args _ [_; _]); [done|done|by eexists|set_solver]. }
  eapply shows_bind; [apply event_loop_conversation| |].
  - intros k Hk. rewrite <- (app_nil_r k). by eapply (ps_spoken _ _ _ _ command _ _ args sid k Panic).
  - intros k [] Hk. apply (shows_ask pi_seen_of KillPi). intros [].
    by eapply (ps_spoken _ _ _ _ command _ _ args sid k (Ret tt)).
Qed.

Lemma bridge_hidden bridge_src tools : hidden (native_tools_bridge bridge_src tools).
Proof.
  unfold native_tools_bridge. destruct tools as [|t tools]; [apply hidden_done|]. generalize (t :: tools). intros l.
  destruct (build_pi_native_tool_definitions l); [|apply hidden_done]. apply hidden_bind; [by apply hidden_rpc|].
  intros tf. apply hidden_done.
Qed.

Lemma session_shows bridge_src opts : shows (run_pi_rpc_session bridge_src opts) (session_of opts).
Proof.
  unfold run_pi_rpc_session, find_pi_argv. apply shows_assoc, (shows_call pi_seen_of (GetVar _)). intros command.
  cbn [mbind proc_bind]. fold (argv_of command).
  destruct (argv_of command) as [[|program rest]|] eqn:Hc.
  - by apply ps_blank.
  - eapply shows_hidden; [apply bridge_hidden|]. intros bridge. cbv zeta. eapply (shows_call pi_seen_of (SpawnPi program _ _ _)).
    match goal with |- context [SpawnPi _ ?a _ _] => set (args := a) end.
    assert (rest ++ model_flags opts `prefix_of` args) as Ha.
    { exists (fst bridge ++ (if po_enable_extensions opts then [] else [lit "--no-extensions"])).
      unfold args, model_flags. by rewrite <- !app_assoc. }
    clearbody args. intros [lines|e].
    + by eapply conversation_shows.
    + apply shows_say_end. eapply ps_not_started; [done..|by eexists].
  - apply shows_say_end. apply ps_absent; [done|by eexists].
Qed.
End Session.

(** ** The query *)

(** From the options to the end: what is wrong before anything is started; a variable that
    cannot be set, which panics; or the warnings, the permit if there is a limit, and then
    nothing when the query was found cancelled, and the session when it was not.  The
    permit is given back; a panic gives it back by unwinding, which is not seen here. *)
Definition refusals : list string :=
  ["pi_shim_setup_failed"; "pi_model_missing"; "pi_invalid_model_ref"]%string.
Inductive pi_query_life (permit : option N) (session : list pi_life -> outcome unit -> Prop) : list pi_life -> outcome unit -> Prop :=
| pq_refused (subtype : string) (c : MessageChunk) : subtype ∈ refusals -> pi_failed subtype c -> pi_query_life permit session [Said c] (Ret tt)
| pq_variable : pi_query_life permit session [] Panic
| pq_looked command l o : pi_query_life permit session l o -> pi_query_life permit session (Looked command :: l) o
| pq_cancelled (warnings : list str) :
    pi_query_life permit session
      (map Said (map pi_warn warnings) ++ option_list (Acquired <$> permit) ++ [Asked true]
       ++ match permit with Some _ => [Released] | None => [] end) (Ret tt)
| pq_session (warnings : list str) (l : list pi_life) (o : outcome unit) : session l o ->
    pi_query_life permit session
      (map Said (map pi_warn warnings) ++ option_list (Acquired <$> permit) ++ [Asked false] ++ l
       ++ match permit, o with Some _, Ret _ => [Released] | _, _ => [] end) o.

Section Query.
Context `{SerdeJson} `{HashMapOrder} `{UnicodeCase} `{ProcessEnvironment} `{StructuredText}.
Context (bridge_src : str).

Lemma exists_hidden path : hidden (common (path_exists path)).
Proof.
  apply hidden_common; unfold path_exists.
  - apply only_bind; [by apply (only_ask _ (StatPath path))|]. intros. apply only_done.
  - apply gives_then; [apply stat_gives|]. intros. by apply gives_done.
Qed.

Lemma skills_hidden cwd skills : hidden (common (resolve_pi_skills cwd skills)).
Proof. destruct skills as [[|s l]|]; [apply hidden_done| |apply hidden_done]. apply hidden_common; apply resolve_names_quiet. Qed.

(** Setting variables: the command of Pi may be looked up, and a name or a value refused. *)
Definition maybe_panics {A} (p : pi A) : Prop :=
  shows p (fun l _ => Forall (fun x => exists command, x = Looked command) l).
Lemma set_var_panics k v : maybe_panics (set_var k v).
Proof. unfold set_var, maybe_panics. destruct (settable k v); [|constructor]. apply (shows_ask pi_seen_of (SetVar k v)). constructor. Qed.
Lemma panics_then {A B} (p : pi A) (f : A -> pi B) :
  maybe_panics p -> (forall a, maybe_panics (f a)) -> maybe_panics (p ≫= f).
Proof.
  intros Hp Hf. eapply shows_bind; [exact Hp|done|]. intros k a Hk. eapply shows_mono, Hf. intros l o Hl. by apply Forall_app.
Qed.
Lemma hidden_panics {A} (p : pi A) : hidden p -> maybe_panics p.
Proof. apply shows_mono. by intros l o [-> _]. Qed.
Lemma get_var_panics name : maybe_panics (rpc (GetVar name)).
Proof. apply (shows_ask pi_seen_of (GetVar name)). intros r. cbn [pi_seen_of]. destruct (str_eqb _ _); [|constructor]. repeat constructor. by exists r. Qed.
Lemma looked_life permit session k l o :
  Forall (fun x => exists command, x = Looked command) k -> pi_query_life permit session l o ->
  pi_query_life permit session (k ++ l) o.
Proof. induction 1 as [|x k [command ->] _ IH]; [done|]. intros Hl. by apply pq_looked, IH. Qed.
(** A part of the query that sets variables. *)
Lemma panics_bind {A} permit session (p : pi A) (f : A -> pi unit) :
  maybe_panics p -> (forall a, shows (f a) (pi_query_life permit session)) ->
  shows (p ≫= f) (pi_query_life permit session).
Proof.
  intros Hp Hf. eapply shows_bind; [exact Hp| |].
  - intros k Hk. rewrite <- (app_nil_r k). apply looked_life; [done|apply pq_variable].
  - intros k a Hk. eapply shows_mono, Hf. intros l o Hl. by apply looked_life.
Qed.

Lemma shim_panics : maybe_panics ensure_pi_package_dir_shim.
Proof.
  unfold ensure_pi_package_dir_shim. eapply shows_hidden; [by apply hidden_rpc|]. intros tmp. cbv zeta.
  eapply shows_hidden; [apply exists_hidden|]. intros there. unfold try.
  eapply shows_hidden.
  - destruct there; [apply hidden_done|]. unfold map_io_err. apply hidden_bind.
    + apply hidden_bind; [by apply hidden_rpc|intros; apply hidden_done].
    + intros [[]|e]; [|apply hidden_done]. apply hidden_bind; [by apply hidden_rpc|intros; apply hidden_done].
  - intros [[]|e]; [|constructor]. apply panics_then; [apply set_var_panics|]. intros []. constructor.
Qed.
Lemma env_panics env : maybe_panics (apply_config_env env).
Proof.
  induction env as [|[k v] env IH]; [by apply shows_done|]. cbn [apply_config_env].
  apply panics_then; [apply get_var_panics|]. intros current. cbv beta.
  apply panics_then; [destruct current; [constructor|apply set_var_panics]|]. intros []. apply IH.
Qed.
Lemma other_variable provider name :
  pi_provider_env_var provider = Some name -> str_eqb name (lit "PI_CODING_AGENT_CLI") = false.
Proof.
  unfold pi_provider_env_var. intros Hn%assoc_get_Some_In%list_elem_of_In.
  assert (Forall (fun e => str_eqb (snd e) (lit "PI_CODING_AGENT_CLI") = false) PI_PROVIDER_ENV_VARS) as Hall
    by (repeat constructor; by_compute).
  rewrite Forall_forall in Hall. exact (Hall _ Hn).
Qed.
Lemma key_hidden provider env : hidden (resolve_key provider env).
Proof.
  unfold resolve_key. destruct (pi_provider_env_var provider) as [name|] eqn:Hn; [|apply hidden_done]. apply hidden_bind.
  - destruct (env ≫= _); [apply hidden_done|]. apply hidden_rpc. intros r. cbn [pi_seen_of].
    rewrite (other_variable provider) by done. done.
  - intros. apply hidden_done.
Qed.

Lemma permit_shows max (session : pi unit) S :
  shows session S ->
  shows (with_permit max session)
    (fun l o => exists cancelled k, (if cancelled : bool then k = [] /\ o = Ret tt else S k o) /\
       l = option_list (Acquired <$> max) ++ [Asked cancelled] ++ k
           ++ match max, o with Some _, Ret _ => [Released] | _, _ => [] end).
Proof.
  intros Hs. unfold with_permit.
  assert (Hrest : shows (cancelled ← rpc (Common IsCancelled); _ ← (if cancelled : bool then Done tt else session);
      match max with Some _ => rpc ReleasePermit | None => Done tt end)
    (fun l o => exists cancelled k, (if cancelled : bool then k = [] /\ o = Ret tt else S k o) /\
       l = [Asked cancelled] ++ k ++ match max, o with Some _, Ret _ => [Released] | _, _ => [] end)).
  { apply (shows_call pi_seen_of (Common IsCancelled)). intros cancelled.
    eapply (shows_bind _ _ _ (fun k o => if cancelled : bool then k = [] /\ o = Ret tt else S k o)).
    - destruct cancelled; [by apply shows_done|]. exact Hs.
    - intros k Hk. exists cancelled, k. split; [done|]. destruct max; by rewrite app_nil_r.
    - intros k [] Hk. destruct max.
      + apply (shows_ask pi_seen_of ReleasePermit). intros []. by exists cancelled, k.
      + apply shows_done. by exists cancelled, k. }
  destruct max as [max|].
  - apply (shows_call pi_seen_of (AcquirePermit max)). intros []. eapply shows_mono, Hrest.
    intros l o (cancelled & k & Hk & ->). by exists cancelled, k.
  - eapply shows_hidden; [apply hidden_done|]. intros []. eapply shows_mono, Hrest.
    intros l o (cancelled & k & Hk & ->). by exists cancelled, k.
Qed.

(** C40: A query to Pi, from its options to its end, whatever is found and answered: what is
    wrong with the options is the one result, and nothing is started; otherwise the warnings
    come first, then the permit if there is a limit, and then it is asked whether the query
    was cancelled: if so nothing more is done, and if not there is one session.  Pi is
    missing only when no command is set; it is started at most once, with the arguments of
    the command and the session and the model of the options; it is told the prompt once.
    Before each of its lines it is asked for a cancellation, which ends the conversation;
    every handler that runs is one of a tool of the query, and is answered for at once; at
    most one result is said, last.  When the session returns, Pi has been killed unless it
    could not be written to, and the permit has been given back.  The query panics only
    when a variable cannot be set, when the command of Pi is blank, or in a handler, and
    then nothing more is done: Pi is not killed. *)
Theorem pi_query (prompt cwd : str) (resume : option str) (options : option SendQueryOptions) :
  let config := parse_pi_config (default ∅ (options ≫= so_assistant_config)) in
  shows (pi_send_query bridge_src prompt cwd resume options)
    (pi_query_life (pi_max_concurrent config)
       (fun l o => exists key parsed,
          session_of (rpc_options prompt cwd options config parsed key (snd (resolve_pi_session cwd resume))) l o)).
Proof.
  intros config. unfold pi_send_query. apply panics_bind; [apply shim_panics|]. intros [[]|e].
  2:{ apply shows_say_end. eapply (pq_refused _ _ "pi_shim_setup_failed"); [set_solver|by eexists]. }
  cbv zeta. apply panics_bind; [apply env_panics|]. intros [].
  destruct (match options ≫= so_model with Some m => Some m | None => _ end) as [raw|].
  2:{ apply shows_say_end. eapply (pq_refused _ _ "pi_model_missing"); [set_solver|by eexists]. }
  destruct (parse_pi_model_ref raw) as [parsed|].
  2:{ apply shows_say_end. eapply (pq_refused _ _ "pi_invalid_model_ref"); [set_solver|by eexists]. }
  fold config. unfold pi_model_query. cbv zeta. eapply shows_hidden; [apply key_hidden|]. intros k.
  do 2 apply shows_say. eapply shows_hidden; [apply skills_hidden|]. intros skills. apply shows_say.
  set (opts := rpc_options prompt cwd options config parsed k).
  rewrite (surjective_pairing (resolve_pi_session cwd resume)). apply shows_say.
  eapply shows_mono; [|apply permit_shows, session_shows]. intros l o (cancelled & m & Hm & ->).
  set (warnings := option_list (snd (resolve_pi_thinking_level (options ≫= so_node_config)))
     ++ match snd (resolve_pi_tools (options ≫= so_node_config) (options ≫= so_env)) with [] => [] | l => [unknown_tools_warning l] end
     ++ match sk_missing skills with [] => [] | l => [unresolved_skills_warning l] end
     ++ (if fst (resolve_pi_session cwd resume) then [resume_failed_warning] else [])).
  eenough (_ = map Said (map pi_warn warnings) ++ _) as ->.
  { destruct cancelled; [|by apply pq_session; eexists _, _]. destruct Hm as [-> ->]. exact (pq_cancelled _ _ warnings). }
  unfold warnings, listed. rewrite !map_app, <- !app_assoc.
  by destruct (snd (resolve_pi_tools _ _)), (sk_missing skills), (fst (resolve_pi_session cwd resume)).
Qed.
End Query.

(** No session is ever resumed: the list of sessions that is looked at is empty. *)
Lemma pi_never_resumes cwd resume : session_flags (snd (resolve_pi_session cwd resume)) = [lit "--no-session"].
Proof. unfold resolve_pi_session, resolve_pi_session_logic. by destruct resume as [[|c id]|]. Qed.

(** ** A session that goes well *)

Section GoodSession.
Context `{SerdeJson} `{HashMapOrder}.
(** What Pi prints, and what the tools answer. *)
Variable lines : list (result io.Error str).
Variable run : str -> gmap str value -> tool_answer.

Definition goes_well (e : event pi_call) : Prop :=
  match e with
  | mk_event c r =>
      match c return response c -> Prop with
      | Common IsCancelled => fun r => r = false
      | GetVar _ => fun r => exists c s, r = Some (c :: s) /\ is_whitespace c = false
      | SpawnPi _ _ _ _ => fun r => r = Ok lines
      | WriteLine _ => fun r => r = true
      | RunTool name args => fun r => r = run name args /\ r <> HandlerPanics
      | _ => fun _ => True
      end r
  end.

(** The lines up to the end of the agent, and its last message. *)
Fixpoint heard (lines : list (result io.Error str)) : list pi_line * option (option PiAssistantMessage) :=
  match lines with
  | [] | Err _ :: _ => ([], None)
  | Ok line :: lines =>
      match classify_line line with
      | PiEventLine (AgentEnd last) => ([], Some last)
      | k => (k :: fst (heard lines), snd (heard lines))
      end
  end.

(** The text of the turn after a line. *)
Definition line_turn (turn : str) (k : pi_line) : str :=
  match k with PiEventLine e => turn_text turn e | _ => turn end.
(** What a line leads to, whatever the others are. *)
Definition line_life (tools : list NativeTool) (k : pi_line) : list pi_life :=
  match k with
  | Skipped => []
  | Notified m => [Said (Assistant m (Some true))]
  | Answered r => [Wrote r true]
  | Dispatched id (Some (name, args)) =>
      if existsb (fun t => str_eqb (tool_name_ t) name) tools then
        [Ran name args (run name args);
         Wrote (dispatch_response id (match run name args with HandlerText s => Some s | _ => None end)) true]
      else [Wrote (dispatch_response id None) true]
  | Dispatched id None => [Wrote (dispatch_response id None) true]
  | PiEventLine e => map Said (map_pi_event e)
  end.

Definition well {A} (p : pi A) (R : list pi_life -> outcome A -> Prop) : Prop :=
  always p (fun tr o => Forall goes_well tr -> R (observed pi_life_of tr) o).

Lemma well_mono {A} (p : pi A) (R R' : list pi_life -> outcome A -> Prop) :
  (forall l o, R l o -> R' l o) -> well p R -> well p R'.
Proof. intros HR. apply always_mono. intros tr o Ho Hw. by apply HR, Ho. Qed.
Lemma well_call {A} c (f : pi_ret c -> pi A) (R : list pi_life -> outcome A -> Prop) :
  (forall r, goes_well (mk_event c r) -> well (f r) (fun l o => R (option_list (pi_life_of (mk_event c r)) ++ l) o)) ->
  well (rpc c ≫= f) R.
Proof.
  intros Hf. apply (always_assume goes_well c f (fun tr o => R (observed pi_life_of tr) o)). intros r Hr.
  eapply always_mono, (Hf r Hr). intros tr o Ho Hw. specialize (Ho Hw). unfold observed in *. cbn [omap list_omap].
  by destruct (pi_life_of _).
Qed.
Lemma well_shows {A B} (p : pi A) (f : A -> pi B) S (R : list pi_life -> outcome B -> Prop) :
  Process.shows pi_life_of p S -> (forall k, S k Panic -> R k Panic) ->
  (forall k a, S k (Ret a) -> well (f a) (fun l o => R (k ++ l) o)) -> well (p ≫= f) R.
Proof.
  intros Hp HP Hf. unfold well. rewrite always_bind. eapply always_mono, Hp. intros tr [a|] Ha; [|by intros _; apply HP].
  eapply always_mono, Hf, Ha. intros tr' o Ho [_ Hw]%Forall_app. rewrite observed_app. by apply Ho.
Qed.
Lemma well_say {A} chunks (f : unit -> pi A) (R : list pi_life -> outcome A -> Prop) :
  well (f tt) (fun l o => R (map Said chunks ++ l) o) -> well (say_all chunks ≫= f) R.
Proof.
  intros Hf. eapply well_shows; [apply shows_done_part, say_all_shows|by intros k (? & _ & _ & ?)|].
  intros k [] (said & -> & -> & _).
  assert (List.filter is_done (map Said chunks) = map Said chunks) as ->; [|exact Hf].
  clear. induction chunks as [|c chunks IH]; [done|]. cbn. by rewrite IH.
Qed.

Lemma pi_loop_well tools sid turn ls last :
  snd (heard ls) = Some last ->
  well (pi_event_loop tools sid turn ls)
    (fun l o => o = Ret tt /\ l = flat_map (line_life tools) (fst (heard ls))
       ++ map Said (streaming_tail (fold_left line_turn (fst (heard ls)) turn) last)
       ++ [Said (ResultMsg (build_result_chunk sid last))]).
Proof.
  revert turn. induction ls as [|[line|e] ls IH]; intros turn E; [done| |done].
  cbn [pi_event_loop]. apply (well_call (Common IsCancelled)). intros cancelled Hc. cbn [goes_well] in Hc. subst cancelled.
  cbn [pi_life_of option_list app]. cbn [heard] in E |- *.
  destruct (classify_line line) as [|msg|resp|id request|e]; cbn [fst snd flat_map line_life] in *.
  - by apply IH.
  - apply well_say. eapply well_mono, (IH turn E). intros l o [-> ->]. done.
  - apply (well_call (WriteLine resp)). intros r Hr. cbn [goes_well] in Hr. subst r. eapply well_mono, (IH turn E). by intros l o [-> ->].
  - assert (Hreply : forall pre res, well (_ ← rpc (WriteLine (dispatch_response id res)); pi_event_loop tools sid turn ls)
      (fun l o => o = Ret tt /\ pre ++ l = pre ++ [Wrote (dispatch_response id res) true]
         ++ flat_map (line_life tools) (fst (heard ls))
         ++ map Said (streaming_tail (fold_left line_turn (fst (heard ls)) turn) last)
         ++ [Said (ResultMsg (build_result_chunk sid last))])).
    { intros pre res. apply (well_call (WriteLine _)). intros r Hr. cbn [goes_well] in Hr. subst r.
      eapply well_mono, (IH turn E). intros l o [-> ->]. split; [done|]. by rewrite <- ?app_assoc. }
    unfold dispatch_tool. destruct request as [[name args]|]; cbn [line_turn fold_left]; [|apply (Hreply [] None)].
    destruct (existsb _ tools); [|apply (Hreply [] None)].
    cbn [mbind proc_bind]. apply (well_call (RunTool name args)). intros r [-> Hp]. cbn [pi_life_of option_list].
    destruct (run name args) as [| |s]; [|done|]; cbn [mbind proc_bind].
    + apply (Hreply [Ran name args NoHandler] None).
    + apply (Hreply [Ran name args (HandlerText s)] (Some s)).
  - apply well_say. destruct e as [d|d| |name args id|name res id err|l|n m msg| |]; cbn [fst snd] in *;
      try (eapply well_mono, (IH _ E); intros l o [-> ->]; split; [done|];
           cbn [event_chunks line_turn flat_map line_life fold_left]; by rewrite <- app_assoc).
    injection E as ->. intros _. split; [done|]. cbn [event_chunks fold_left flat_map app].
    by rewrite map_app, app_nil_r.
Qed.

(** What was said. *)
Definition said (l : list pi_life) : list MessageChunk := omap (fun x => match x with Said c => Some c | _ => None end) l.
Definition spoken (k : pi_line) : str :=
  match k with Notified m => m | PiEventLine (TextDelta d) => d | _ => [] end.
Lemma said_app a b : said (a ++ b) = said a ++ said b.
Proof. apply omap_app. Qed.
Lemma said_map chunks : said (map Said chunks) = chunks.
Proof. unfold said. induction chunks as [|c chunks IH]; [done|]. cbn [map omap list_omap]. by rewrite IH. Qed.
Lemma line_text tools k : answer_text (said (line_life tools k)) = spoken k.
Proof.
  destruct k as [|m|r|id [[name args]|]|e]; cbn [line_life]; try done.
  - unfold answer_text, said. cbn. apply app_nil_r.
  - by destruct (existsb _ tools).
  - rewrite said_map. destruct e as [d|d| |name args id|name res id []|last|n m msg| |]; try done.
    unfold answer_text. cbn. apply app_nil_r.
Qed.
Lemma lines_text tools ks : answer_text (said (flat_map (line_life tools) ks)) = flat_map spoken ks.
Proof.
  induction ks as [|k ks IH]; [done|]. cbn [flat_map]. by rewrite said_app, answer_text_app, line_text, IH.
Qed.
Lemma tail_text turn last :
  match last with
  | Some msg => forall final, final = concat (pa_text_blocks msg) -> starts_with turn final = true ->
      turn ++ answer_text (streaming_tail turn last) = final
  | None => streaming_tail turn last = []
  end.
Proof.
  destruct last as [msg|]; [|done]. intros final -> (r & E)%starts_with_spec. unfold streaming_tail. rewrite E.
  rewrite (proj2 (strip_prefix_Some turn _ r) eq_refl).
  destruct r as [|c r]; [done|]. unfold answer_text. cbn. by rewrite app_nil_r.
Qed.

Lemma words_after_start w s : w <> [] -> exists v vs, words_after w s = v :: vs.
Proof.
  revert w. induction s as [|c s IH]; intros w Hw; cbn [words_after]; unfold word_of.
  - destruct w; [done|]. by eexists _, _.
  - destruct (is_whitespace c); [destruct w; [done|]; by eexists _, _|]. apply IH. by destruct w.
Qed.
Lemma well_hidden {A B} (p : pi A) (f : A -> pi B) (R : list pi_life -> outcome B -> Prop) :
  hidden p -> (forall a, well (f a) R) -> well (p ≫= f) R.
Proof.
  intros Hp Hf. eapply well_shows; [exact (shows_done_part _ _ Hp)|by intros k (? & _ & _ & ?)|].
  intros k a (? & -> & -> & _). apply Hf.
Qed.

(** C29: A session that goes well is read back: when the command of Pi is set, everything can
    be written, nothing is cancelled, and Pi prints some lines up to the end of its agent,
    then the session returns, and all it does is: to start Pi, with the session and the
    model it was asked for; to ask for the state and send the prompt; to react to each line
    in order (the message of an event, the note of an extension, one answer to a request of
    an extension, which for a native tool of the query is what its handler says); to say
    the rest of the final text, and the one result, in the session that Pi named; and to
    kill Pi.  The text that is said is what was streamed and noted and this rest; and when
    the final text begins with what was streamed of the last turn, the two together are
    the final text. *)
Theorem pi_reads_back (bridge_src : str) (opts : PiRpcSessionOptions) (last : option PiAssistantMessage) :
  let '(sid, rest) := read_state GET_STATE_ATTEMPTS lines in
  let turn := fold_left line_turn (fst (heard rest)) [] in
  let tail := streaming_tail turn last in
  snd (heard rest) = Some last ->
  well (run_pi_rpc_session bridge_src opts)
    (fun l o => o = Ret tt /\ exists args body,
       infix (model_flags opts) args
       /\ l = [Started args true; Wrote get_state_cmd true; Wrote (prompt_cmd (po_prompt opts)) true] ++ body ++ [Killed]
       /\ body = flat_map (line_life (po_native_tools opts)) (fst (heard rest)) ++ map Said tail
                  ++ [Said (ResultMsg (build_result_chunk sid last))]
       /\ answer_text (said body) = flat_map spoken (fst (heard rest)) ++ answer_text tail
       /\ match last with
          | Some msg => starts_with turn (concat (pa_text_blocks msg)) = true ->
              turn ++ answer_text tail = concat (pa_text_blocks msg)
          | None => tail = []
          end).
Proof.
  destruct (read_state GET_STATE_ATTEMPTS lines) as [sid rest] eqn:Es. intros turn tail E.
  unfold run_pi_rpc_session, find_pi_argv.
  apply (well_call (GetVar (lit "PI_CODING_AGENT_CLI"))). intros r (c & s & -> & Hc). cbn [pi_life_of option_list app].
  cbn [CopilotEvents.non_empty fmap option_fmap option_map mbind proc_bind].
  unfold split_whitespace. cbn [words_after]. rewrite Hc. destruct (words_after_start ([] ++ [c]) s) as (program & args0 & ->); [done|].
  apply well_hidden; [apply bridge_hidden|]. intros bridge. cbv zeta.
  eapply (well_call (SpawnPi program _ _ _)).
  match goal with |- context [SpawnPi _ ?a _ _] => set (args := a) end.
  assert (infix (model_flags opts) args) as Ha.
  { exists args0, (fst bridge ++ (if po_enable_extensions opts then [] else [lit "--no-extensions"])).
    unfold args, model_flags. by rewrite <- !app_assoc. }
  clearbody args. intros r Hr. cbn [goes_well] in Hr. subst r. unfold pi_conversation.
  apply (well_call (WriteLine get_state_cmd)). intros r Hr. cbn [goes_well] in Hr. subst r. cbn [negb]. rewrite Es.
  apply (well_call (WriteLine (prompt_cmd _))). intros r Hr. cbn [goes_well] in Hr. subst r. cbn [negb].
  assert (Hl := pi_loop_well (po_native_tools opts) sid [] rest last E).
  set (body := flat_map _ _ ++ _) in Hl.
  unfold well. rewrite always_bind. eapply always_mono, Hl. intros tr o Ho. destruct o as [[]|].
  2:{ intros Hw. by destruct (Ho Hw) as [? _]. }
  intros r Hw. apply Forall_app in Hw as [Hw _]. destruct (Ho Hw) as [_ Eb]. split; [by destruct r|]. exists args, body.
  split_and!; [done| |done| |].
  - rewrite observed_app, Eb. done.
  - unfold body. rewrite !said_app, !answer_text_app, lines_text, said_map. cbn. by rewrite app_nil_r.
  - pose proof (tail_text turn last) as Ht. destruct last; [|done]. by apply Ht.
Qed.
End GoodSession.

(** ** A concrete session *)

Definition pi_json : SerdeJson := table_json
  [(lit "S", Object [key "type" (String (lit "response")); key "command" (String (lit "get_state"));
                     key "data" (Object [key "sessionId" (String (lit "s1"))])]);
   (lit "D", Object [key "type" (String (lit "message_update"));
                     key "assistantMessageEvent" (Object [key "type" (String (lit "text_delta")); key "delta" (String (lit "Hel"))])]);
   (lit "U", Object [key "type" (String (lit "extension_ui_request")); key "id" (String (lit "u1"));
                     key "method" (String (lit "input")); key "title" (String (lit "native_tool_dispatch"));
                     key "placeholder" (String (lit "P"))]);
   (lit "P", Object [key "tool" (String (lit "echo")); key "params" (Object [])]);
   (lit "E", Object [key "type" (String (lit "agent_end"));
                     key "messages" (Array [Object [key "role" (String (lit "assistant")); key "usage" (Object []);
                       key "content" (Array [Object [key "type" (String (lit "text")); key "text" (String (lit "Hello"))]])]])])].
Definition pi_sample_lines : list (result io.Error str) := map (fun s => Ok (lit s)) ["S"; "D"; "U"; "E"; "D"]%string.
Definition echo_tool : NativeTool :=
  mk_NativeTool (lit "echo") [] (list_to_map [key "type" (String (lit "object")); key "properties" (Object [])]).
Definition pi_sample_options : PiRpcSessionOptions :=
  mk_PiRpcSessionOptions (lit "hi") (Fresh (lit "/repo")) (lit "google") (lit "gemini") (lit "/repo") [echo_tool] true ∅.
Definition echo_answer (name : str) (args : gmap str value) : tool_answer := HandlerText (lit "done").
Definition pi_world : Process.world pi_call := fun past c =>
  match c with
  | Common c => plain_answer c
  | GetVar _ => Some (lit "node cli.js")
  | TempDir => lit "/tmp"
  | CreateDirAll _ | WriteFile _ _ => Ok tt
  | SpawnPi _ _ _ _ => Ok pi_sample_lines
  | WriteLine _ => true
  | RunTool name args => echo_answer name args
  | SetVar _ _ | AcquirePermit _ | ReleasePermit | KillPi => tt
  end.
Definition pi_sample_message : PiAssistantMessage :=
  mk_PiAssistantMessage (mk_PiUsage 0 0 0 f64_zero) None None [lit "Hello"].
Definition pi_sample_session : pi unit :=
  @run_pi_rpc_session pi_json canonical_order (lit "bridge") pi_sample_options.

Lemma pi_reads_back_witness :
  exists l args body,
    l = observed pi_life_of (fst (Process.exec pi_world [] pi_sample_session))
    /\ l = [Started args true; Wrote get_state_cmd true; Wrote (@prompt_cmd pi_json (lit "hi")) true] ++ body ++ [Killed]
    /\ answer_text (said body) = lit "Hello" /\ length body = 5.
Proof.
  assert (Hall : forall A (p : pi A) past,
    Forall (goes_well pi_sample_lines echo_answer) (fst (Process.exec pi_world past p))).
  { intros A p. induction p as [a| |c k IH]; intros past; [constructor..|]. cbn [Process.exec].
    specialize (IH (pi_world past c) (past ++ [mk_event c (pi_world past c)])).
    destruct (Process.exec _ _ (k _)) as [tr o]. constructor; [|exact IH].
    destruct c as [[]| | | | | | | | | | | ]; try done. by exists 110%N, (lit "ode cli.js"). }
  specialize (Hall _ pi_sample_session []).
  pose proof (@pi_reads_back pi_json canonical_order pi_sample_lines echo_answer (lit "bridge") pi_sample_options
                (Some pi_sample_message)) as Hq.
  destruct (@read_state pi_json GET_STATE_ATTEMPTS pi_sample_lines) as [sid rest] eqn:Es.
  assert (@heard pi_json rest = ([PiEventLine (TextDelta (lit "Hel"));
            Dispatched (lit "u1") (Some (lit "echo", ∅))], Some (Some pi_sample_message))) as Eh.
  { vm_compute in Es. injection Es as <- <-. by_compute. }
  rewrite Eh in Hq. cbv zeta in Hq.
  pose proof (Process.always_exec _ _ pi_world [] (Hq eq_refl) Hall) as (_ & args & body & _ & El & Eb & Et & _).
  fold pi_sample_session in El. exists (observed pi_life_of (fst (Process.exec pi_world [] pi_sample_session))), args, body.
  split; [done|]. split; [exact El|]. split; [rewrite Et; by_compute|]. rewrite Eb. by_compute.
Defined.

(** Output that ends before the agent does: the conversation gets no result at all. *)
Example pi_without_end :
  observed pi_life_of (fst (Process.exec (fun past c => match c with SpawnPi _ _ _ _ => Ok [Ok (lit "S")] | c => pi_world past c end)
                              [] pi_sample_session))
  = [Started [lit "cli.js"; lit "--mode"; lit "rpc"; lit "--no-session"; lit "--provider"; lit "google"; lit "--model"; lit "gemini"] true;
     Wrote get_state_cmd true; Wrote (@prompt_cmd pi_json (lit "hi")) true; Killed].
Proof. by_compute. Qed.
(** Pi that cannot be written to is left running. *)
Example deaf_pi_stays :
  existsb (fun e => match e with Killed => true | _ => false end)
    (observed pi_life_of (fst (Process.exec (fun past c => match c with WriteLine _ => false | c => pi_world past c end)
                                 [] pi_sample_session))) = false.
Proof. by_compute. Qed.
(** A command of blanks has no program, and a variable without a name cannot be set. *)
Example blank_command_panics :
  snd (Process.exec (fun past c => match c with GetVar _ => Some (lit "  ") | c => pi_world past c end) [] pi_sample_session)
    = Panic
  /\ snd (Process.exec (fun past c => match c with GetVar _ => None | c => pi_world past c end) []
            (apply_config_env [([], lit "x")])) = Panic.
Proof. split; by_compute. Qed.
