(* ===== verification/OpencodeParts.v ===== *)
(** * OpenCode: configuration, agents and their files

    [config.rs], [tokens.rs], [errors.rs], [agent_config.rs], [agent_fs.rs] and
    [multi_agent.rs] of [har-provider/src/opencode]: the options of a query, the agents a
    node defines, the files they are written to, and the texts of errors.

    The files of the agents are written by calls, [FileCall]; a directory is read to its end
    or to an error.  The writes of one query are started together ([join_all]) and all of
    them are awaited: they are in the order of the map, and none is skipped.  The flag that
    a warning was logged is left out, as all entries of the log are. *)

From S2P Require Import Prelude StdModel Float64 Json Paths DagNode Provider.
From S2P Require Export Process.

(** ** Options ([config.rs]) *)

Record ProviderModel : Type := mk_ProviderModel { provider_id : str; model_id : str }.

Definition parse_model_ref (model_ref : str) : option ProviderModel :=
  '(before, after) ← split_once slash model_ref;
  if is_empty before || is_empty after then None
  else
    let provider := trim before in
    let model := trim after in
    if is_empty provider || is_empty model then None else Some (mk_ProviderModel provider model).

Record OpencodeProviderDefaults : Type := mk_OpencodeDefaults {
  oc_model : option str; oc_base_url : option str; oc_agent : option str;
}.
Definition parse_opencode_config (raw : gmap str value) : OpencodeProviderDefaults :=
  mk_OpencodeDefaults ((raw !! lit "model") ≫= as_str) ((raw !! lit "baseUrl") ≫= as_str)
    (opencode ← (raw !! lit "opencode") ≫= as_object; obj_str "agent" opencode).

(** ** Tokens ([tokens.rs]) *)

Definition u64_add (a b : N) : outcome N := if (a + b <=? u64_max)%N then Ret (a + b)%N else Panic.

Definition token_count (k : string) (tokens : object) : N :=
  default 0%N (f64_to_u64 <$> (assoc_get (lit k) tokens ≫= value_as_f64)).
Definition normalize_tokens (info : option object) : outcome (option TokenUsage) :=
  match info ≫= (fun i => tokens ← assoc_get (lit "tokens") i ≫= as_object; Some (i, tokens)) with
  | None => Ret None
  | Some (i, tokens) =>
      let input := token_count "input" tokens in
      let output := token_count "output" tokens in
      subtotal ← u64_add input output;
      total ← u64_add subtotal (token_count "reasoning" tokens);
      Ret (Some (mk_TokenUsage input output (if (0 <? total)%N then Some total else None)
                   (assoc_get (lit "cost") i ≫= value_as_f64)))
  end.

(** ** Errors ([errors.rs]) *)

Inductive RetryableErrorClass : Type := OcRateLimit | OcAuth | OcCrash | OcAgentNotFound | OcUnknown | OcAborted.
#[export] Instance RetryableErrorClass_eq_dec : EqDecision RetryableErrorClass.
Proof. solve_decision. Defined.
Definition RetryableErrorClass_display (c : RetryableErrorClass) : str :=
  match c with
  | OcRateLimit => lit "rate_limit"
  | OcAuth => lit "auth"
  | OcCrash => lit "crash"
  | OcAgentNotFound => lit "agent_not_found"
  | OcUnknown => lit "unknown"
  | OcAborted => lit "aborted"
  end.

Definition OC_RATE_LIMIT_PATTERNS : list string := ["rate limit"; "too many requests"; "429"; "overloaded"].
Definition OC_AUTH_PATTERNS : list string :=
  ["unauthorized"; "authentication"; "invalid token"; "401"; "403"; "api key"].
Definition CRASH_PATTERNS : list string :=
  ["server disconnected"; "disposed"; "econnreset"; "socket hang up"; "connection terminated"; "process terminated"].
Definition AGENT_NOT_FOUND_PATTERNS : list string :=
  ["agent not found"; "unknown agent"; "invalid agent"; "no agent named"].

Definition any_pattern (ps : list string) (s : str) : bool := existsb (fun p => contains (lit p) s) ps.
Definition classify_opencode_error (combined_lower : str) (aborted : bool) : RetryableErrorClass :=
  if aborted then OcAborted
  else if any_pattern OC_RATE_LIMIT_PATTERNS combined_lower then OcRateLimit
  else if any_pattern OC_AUTH_PATTERNS combined_lower then OcAuth
  else if any_pattern CRASH_PATTERNS combined_lower then OcCrash
  else if any_pattern AGENT_NOT_FOUND_PATTERNS combined_lower then OcAgentNotFound
  else OcUnknown.
Definition enrich_opencode_error (original_message : str) (error_class : RetryableErrorClass) : str :=
  match error_class with
  | OcAborted => lit "OpenCode query aborted"
  | c => lit "OpenCode " ++ RetryableErrorClass_display c ++ lit ": " ++ original_message
  end.
Definition build_error_combined `{UnicodeCase} (message : str) : str := to_lowercase message.

Definition error_message_from_value `{SerdeJson} (error : value) : str :=
  let message := match error with
                 | Object obj =>
                     match obj_str "message" obj with
                     | Some msg => Some msg
                     | None => data ← assoc_get (lit "data") obj ≫= as_object; obj_str "message" data
                     end
                 | _ => None
                 end in
  match message with Some msg => msg | None => to_string error end.

(** ** Agents ([agent_config.rs]) *)

Record NamedAgentConfig : Type := mk_NamedAgent {
  na_key : str; opencode_agent_name : str; na_config : InlineAgentDefinition;
}.

(** [in_sep]: characters were passed over since the last one that was kept; [started]:
    one was kept. *)
Fixpoint kebab_from (in_sep started : bool) (s : str) : str :=
  match s with
  | [] => []
  | c :: s =>
      if is_ascii_alphanumeric c then
        (if in_sep && started then [45%N] else []) ++ c :: kebab_from false true s
      else kebab_from true started s
  end.

Section Agents.
Context `{HashMapOrder} `{UnicodeCase}.

Definition to_kebab_case (name : str) : str := kebab_from false false (to_lowercase name).
Definition agent_name (key : str) : str := lit "archon-" ++ to_kebab_case key.

Definition list_named_agents (agents : option (gmap str InlineAgentDefinition)) : list NamedAgentConfig :=
  match agents with
  | None => []
  | Some agents => map (fun e => mk_NamedAgent (fst e) (agent_name (fst e)) (snd e)) (hm_iter agents)
  end.
Definition has_multiple_agents (agents : option (gmap str InlineAgentDefinition)) : bool :=
  Nat.ltb 1 (length (list_named_agents agents)).
Definition get_ordered_agents (node_config : option NodeConfig) : list NamedAgentConfig :=
  list_named_agents (node_config ≫= nc_agents).
Definition select_single_agent (agents : option (gmap str InlineAgentDefinition)) : option NamedAgentConfig :=
  head (list_named_agents agents).
Definition select_primary_agent (agents : gmap str InlineAgentDefinition) : option str :=
  na_key <$> select_single_agent (Some agents).

Definition insert_all (b : bool) (tools : list str) (m : gmap str bool) : gmap str bool :=
  fold_left (fun m t => <[t := b]> m) tools m.
Definition build_tools_permissions_map (allowed denied : option (list str)) : option (gmap str bool) :=
  let tools := insert_all false (default [] denied) (insert_all true (default [] allowed) ∅) in
  if decide (tools = ∅) then None else Some tools.

Record AdaptedAgentConfig : Type := mk_AdaptedAgent {
  ad_agent : str; ad_model : option ProviderModel; ad_tools : option (gmap str bool);
}.
Definition invalid_agent_model (key model_ref : str) : str :=
  lit "Invalid OpenCode agent model ref for '" ++ key ++ lit "': '" ++ model_ref
  ++ lit "'. Expected format '<provider>/<model>' (for example 'anthropic/claude-3-5-sonnet').".
Definition adapt_named_agent_for_opencode (agent : NamedAgentConfig) : result str AdaptedAgentConfig :=
  model ← match ia_model (na_config agent) with
          | None => Ok None
          | Some model_ref =>
              match parse_model_ref model_ref with
              | None => Err (invalid_agent_model (na_key agent) model_ref)
              | Some m => Ok (Some m)
              end
          end;
  Ok (mk_AdaptedAgent (opencode_agent_name agent) model
        (build_tools_permissions_map (ia_tools (na_config agent)) (ia_disallowed_tools (na_config agent)))).
Definition adapt_agent_config_for_opencode (node_config : option NodeConfig) : option (result str AdaptedAgentConfig) :=
  agents ← node_config ≫= nc_agents;
  selected ← select_single_agent (Some agents);
  Some (adapt_named_agent_for_opencode selected).
Definition resolve_prompt_for_agent (agent : option NamedAgentConfig) (node_prompt : str) : str := node_prompt.
End Agents.

(** ** Agent files ([agent_fs.rs]) *)

Section AgentFiles.
Context `{SerdeJson}.

Definition json_str (s : str) : str := to_string (String s).
(** The tools in the order they are first named; what is said last of each counts. *)
Definition tools_vec (config : InlineAgentDefinition) : list (str * bool) :=
  fold_left (fun v t => index_insert t false v) (default [] (ia_disallowed_tools config))
    (fold_left (fun v t => index_insert t true v) (default [] (ia_tools config)) []).

Definition agent_file_lines (config : InlineAgentDefinition) : list str :=
  [lit "---"; lit "mode: subagent"]
  ++ (if is_empty (ia_description config) then [] else [lit "description: " ++ json_str (ia_description config)])
  ++ match ia_model config with Some m => [lit "model: " ++ json_str m] | None => [] end
  ++ match ia_max_turns config with Some n => [lit "steps: " ++ show_N n] | None => [] end
  ++ match ia_skills config with
     | Some (s :: skills) => lit "skills:" :: map (fun s => lit "- " ++ json_str s) (s :: skills)
     | _ => []
     end
  ++ match tools_vec config with
     | [] => []
     | v => lit "tools:" :: map (fun e => lit "  " ++ fst e ++ lit ": " ++ show_bool (snd e)) v
     end
  ++ [lit "---"]
  ++ (if is_empty (ia_prompt config) then [] else [[]; ia_prompt config]).
Definition build_agent_file_content (config : InlineAgentDefinition) : str :=
  join [10%N] (agent_file_lines config).
End AgentFiles.

Inductive file_call : Type :=
| MakeDirAll (path : str)
| ListDir (path : str)
| RemoveFile (path : str)
| WriteFile (path content : str).
(** A directory that opens is its names up to the end, or to an error. *)
Definition file_ret (c : file_call) : Type :=
  match c with
  | MakeDirAll _ | RemoveFile _ | WriteFile _ _ => result io.Error unit
  | ListDir _ => result io.Error (list (result io.Error str))
  end.
#[export] Instance file_calls : Calls file_call := file_ret.
Abbreviation files := (@Process.proc file_call file_calls).

(** All the entries, or the first error. *)
Fixpoint read_entries (entries : list (result io.Error str)) : result io.Error (list str) :=
  match entries with
  | [] => Ok []
  | Err e :: _ => Err e
  | Ok n :: entries => names ← read_entries entries; Ok (n :: names)
  end.

Section Materialize.
Context `{HashMapOrder} `{UnicodeCase} `{SerdeJson}.

Definition agents_dir (cwd : str) : str := path_join (path_join cwd (lit ".opencode")) (lit "agents").
Definition agent_file (key : str) : str := agent_name key ++ lit ".md".
Definition is_stale (current : list str) (name : str) : bool :=
  starts_with (lit "archon-") name && negb (bool_decide (name ∈ current)).

Fixpoint remove_files (paths : list str) : files unit :=
  match paths with
  | [] => Done tt
  | p :: paths => _ ← ask (RemoveFile p); remove_files paths
  end.
(** Every file is written; the first error is the one that is returned. *)
Fixpoint write_files (fs : list (str * str)) : files (result io.Error unit) :=
  match fs with
  | [] => Done (Ok tt)
  | (path, content) :: fs =>
      r ← (ask (WriteFile path content) : files (result io.Error unit));
      rest ← write_files fs;
      Done match r with Ok _ => rest | Err e => Err e end
  end.
Definition agent_files (cwd : str) (agents : gmap str InlineAgentDefinition) : list (str * str) :=
  map (fun e => (path_join (agents_dir cwd) (agent_file (fst e)), build_agent_file_content (snd e))) (hm_iter agents).

Definition remove_stale (cwd : str) (current : list str) : files (result io.Error unit) :=
  entries ← (ask (ListDir (agents_dir cwd)) : files (result io.Error (list (result io.Error str))));
  match entries with
  | Err _ => Done (Ok tt)
  | Ok entries =>
      match read_entries entries with
      | Err e => Done (Err e)
      | Ok names =>
          _ ← remove_files (map (path_join (agents_dir cwd)) (List.filter (is_stale current) names));
          Done (Ok tt)
      end
  end.
Definition materialize_agents (cwd : str) (agents : gmap str InlineAgentDefinition) : files (result io.Error unit) :=
  _ ←? (ask (MakeDirAll (agents_dir cwd)) : files (result io.Error unit));
  _ ←? remove_stale cwd (map (fun e => agent_file (fst e)) (hm_iter agents));
  write_files (agent_files cwd agents).
End Materialize.

(** ** Several agents ([multi_agent.rs]) *)

Record AgentRunState : Type := mk_AgentRunState {
  ar_agent : NamedAgentConfig;
  ar_cwd : str;
  ar_session_id : str;
  ar_chunks : list MessageChunk;
  ar_latest_assistant_info : option object;
  ar_last_assistant_message_id : option str;
  ar_done : bool;
}.

Definition default_node_config : NodeConfig :=
  mk_NodeConfig None None None None None None None None None None None None None None None None ∅.
Definition with_agents (agents : option (gmap str InlineAgentDefinition)) (c : NodeConfig) : NodeConfig :=
  mk_NodeConfig (nc_node_id c) (nc_mcp c) (nc_hooks c) (nc_skills c) agents (nc_allowed_tools c) (nc_denied_tools c)
    (nc_effort c) (nc_thinking c) (nc_sandbox c) (nc_betas c) (nc_output_format c) (nc_max_budget_usd c)
    (nc_system_prompt c) (nc_fallback_model c) (nc_idle_timeout c) (nc_extra c).
Definition with_agent_node_config (request_options : option SendQueryOptions) (agent : NamedAgentConfig) : SendQueryOptions :=
  let o := default default_options request_options in
  mk_SendQueryOptions (so_model o) (so_system_prompt o) (so_output_format o) (so_env o) (so_max_budget_usd o)
    (so_fallback_model o) (so_fork_session o) (so_persist_session o) (so_native_tools o)
    (Some (with_agents (Some {[ na_key agent := na_config agent ]}) (default default_node_config (so_node_config o))))
    (so_assistant_config o).

Definition assistant_text (chunks : list MessageChunk) : str :=
  concat (omap (fun c => match c with Assistant t _ => Some t | _ => None end) chunks).
Definition thinking_text (chunks : list MessageChunk) : str :=
  concat (omap (fun c => match c with Thinking t => Some t | _ => None end) chunks).
Definition agent_section (state : AgentRunState) : str :=
  let thinking := thinking_text (ar_chunks state) in
  let assistant := assistant_text (ar_chunks state) in
  join [10; 10]%N
    ([lit "## " ++ na_key (ar_agent state)]
     ++ (if is_empty thinking then [] else [lit "<thinking>" ++ [10%N] ++ thinking ++ [10%N] ++ lit "</thinking>"])
     ++ [if is_empty assistant then lit "(no output)" else assistant]).
Definition format_buffered_assistant_output (states : list AgentRunState) : str :=
  join ([10; 10]%N ++ lit "---" ++ [10; 10]%N) (map agent_section states).

Definition is_tool_chunk (c : MessageChunk) : bool :=
  match c with Tool _ _ _ | ToolResult _ _ _ => true | _ => false end.
Definition collect_tool_chunks_for_emission (states : list AgentRunState) : list MessageChunk :=
  flat_map (fun s => List.filter is_tool_chunk (ar_chunks s)) states.

(** The sums in brackets are computed whether they are needed or not. *)
Definition add_usage (acc next : TokenUsage) : outcome TokenUsage :=
  input ← u64_add (tok_input acc) (tok_input next);
  output ← u64_add (tok_output acc) (tok_output next);
  acc_sum ← u64_add (tok_input acc) (tok_output acc);
  next_sum ← u64_add (tok_input next) (tok_output next);
  total ← u64_add (default acc_sum (tok_total acc)) (default next_sum (tok_total next));
  Ret (mk_TokenUsage input output (Some total)
         (Some (f64_add (default f64_zero (tok_cost acc)) (default f64_zero (tok_cost next))))).
Fixpoint sum_usages (acc : option TokenUsage) (states : list AgentRunState) : outcome (option TokenUsage) :=
  match states with
  | [] => Ret acc
  | s :: states =>
      usage ← normalize_tokens (ar_latest_assistant_info s);
      acc ← match acc, usage with
            | Some a, Some u => t ← add_usage a u; Ret (Some t)
            | Some a, None => Ret (Some a)
            | None, u => Ret u
            end;
      sum_usages acc states
  end.
Definition aggregate_tokens (states : list AgentRunState) : outcome (option TokenUsage) := sum_usages None states.

(** ** Names of agents *)

Section Names.
Context `{UnicodeCase}.

Lemma lower_is_alphanumeric c : is_lower_or_digit c = true -> is_ascii_alphanumeric c = true /\ to_ascii_lowercase c = c.
Proof.
  unfold is_lower_or_digit, is_ascii_alphanumeric, is_ascii_alphabetic, to_ascii_lowercase, is_ascii_uppercase,
    is_ascii_lowercase, is_ascii_digit, in_range.
  intros Hc. split.
  - apply orb_true_iff in Hc as [Hc|Hc]; rewrite Hc; by rewrite ?orb_true_r.
  - case_match eqn:E; [|done]. apply orb_true_iff in Hc. rewrite !andb_true_iff, !N.leb_le in *. lia.
Qed.

(** A word of lower-case letters, digits and single hyphens is left as it is. *)
Lemma kebab_tail s : agent_id_tail s = true -> kebab_from false true s = s.
Proof.
  induction s as [|c s IH]; [done|]. cbn [agent_id_tail kebab_from].
  destruct (c =? 45)%N eqn:Ec.
  - apply N.eqb_eq in Ec as ->. destruct s as [|nc s]; [done|]. destruct (is_lower_or_digit nc) eqn:En; [|done].
    intros Ht. specialize (IH Ht). apply lower_is_alphanumeric in En as [En _].
    cbn [kebab_from] in *. rewrite En in *. change (is_ascii_alphanumeric 45) with false. cbn [andb app].
    f_equal. exact IH.
  - destruct (is_lower_or_digit c) eqn:Ec'; [|done]. intros Ht. apply lower_is_alphanumeric in Ec' as [-> _].
    cbn [andb app]. f_equal. by apply IH.
Qed.
Lemma agent_id_tail_lower s :
  agent_id_tail s = true -> forallb is_ascii s = true /\ map to_ascii_lowercase s = s.
Proof.
  induction s as [|c s IH]; [done|]. cbn [agent_id_tail forallb map]. destruct (c =? 45)%N eqn:Ec.
  - apply N.eqb_eq in Ec as ->. intros Ht. destruct s as [|nc s]; [done|]. destruct (is_lower_or_digit nc); [|done].
    destruct (IH Ht) as [-> ->]. done.
  - destruct (is_lower_or_digit c) eqn:Ec'; [|done]. intros Ht. destruct (IH Ht) as [-> ->].
    destruct (lower_is_alphanumeric c Ec') as [_ ->]. split; [|done]. rewrite andb_true_r.
    unfold is_lower_or_digit, is_ascii_lowercase, is_ascii_digit, in_range in Ec'. unfold is_ascii.
    apply orb_true_iff in Ec'. rewrite !andb_true_iff, !N.leb_le in Ec'. apply N.ltb_lt. lia.
Qed.
(** The identifiers that a validated workflow has are the names of their agents. *)
Lemma kebab_valid id : is_valid_agent_id id = true -> to_kebab_case id = id.
Proof.
  unfold is_valid_agent_id, to_kebab_case. destruct id as [|c s]; [done|]. cbn [is_empty].
  destruct (is_lower_or_digit c) eqn:Ec; [|done]. intros Ht.
  assert (agent_id_tail (c :: s) = true) as Ht'. { cbn [agent_id_tail]. by rewrite (lower_or_digit_not_hyphen _ Ec), Ec. }
  destruct (agent_id_tail_lower _ Ht') as [Ha Hl]. rewrite to_lowercase_ascii, Hl by done.
  cbn [kebab_from]. destruct (lower_is_alphanumeric c Ec) as [-> _]. cbn [andb app]. f_equal. by apply kebab_tail.
Qed.
(** Whatever the key, the name of its file has no separator. *)
Lemma kebab_chars a b s : Forall (fun c => is_ascii_alphanumeric c = true \/ c = 45%N) (kebab_from a b s).
Proof.
  revert a b. induction s as [|c s IH]; intros a b; [constructor|]. cbn [kebab_from].
  destruct (is_ascii_alphanumeric c) eqn:Ec; [|apply IH].
  apply Forall_app. split; [|constructor; [by left|apply IH]].
  destruct (a && b); [|constructor]. constructor; [by right|constructor].
Qed.
End Names.

(** ** Permissions *)

Lemma assoc_insert_all (b : bool) (ts : list str) (v : list (str * bool)) (m : gmap str bool) :
  (forall t, assoc_get t v = m !! t) ->
  forall t, assoc_get t (fold_left (fun v t => index_insert t b v) ts v) = insert_all b ts m !! t.
Proof.
  unfold insert_all. revert v m. induction ts as [|x ts IH]; intros v m Hv t; [apply Hv|]. cbn [fold_left]. apply IH.
  intros y. rewrite index_insert_get. case_bool_decide as E; [subst; by rewrite lookup_insert_eq|].
  rewrite lookup_insert_ne by congruence. apply Hv.
Qed.
(** The file of an agent and the body of a prompt permit the same tools. *)
Lemma permissions_agree config t :
  assoc_get t (tools_vec config)
  = build_tools_permissions_map (ia_tools config) (ia_disallowed_tools config) ≫= lookup t.
Proof.
  unfold tools_vec, build_tools_permissions_map. cbv zeta.
  transitivity (insert_all false (default [] (ia_disallowed_tools config))
                  (insert_all true (default [] (ia_tools config)) ∅) !! t).
  - apply assoc_insert_all. by apply assoc_insert_all.
  - case_decide as E; [|done]. by rewrite E.
Qed.

(** ** The directory of the agents *)

(** What the calls do to the files: each path with its content. *)
Definition file_effect (d : gmap str str) (e : event file_call) : gmap str str :=
  match e with
  | mk_event c r =>
      match c return response c -> gmap str str with
      | RemoveFile p => fun r => match r with Ok _ => delete p d | Err _ => d end
      | WriteFile p content => fun r => match r with Ok _ => <[p := content]> d | Err _ => d end
      | _ => fun _ => d
      end r
  end.
Definition files_after (d : gmap str str) (tr : Process.trace file_call) : gmap str str := fold_left file_effect tr d.

Section Directory.
(** The names that the directory is found to have. *)
Variable names : list str.

Definition files_well (e : event file_call) : Prop :=
  match e with
  | mk_event c r =>
      match c return response c -> Prop with
      | ListDir _ => fun r => r = Ok (map Ok names)
      | MakeDirAll _ | RemoveFile _ | WriteFile _ _ => fun r => r = Ok tt
      end r
  end.
(** When all goes well, the process returns [a], and leaves [f d] of the files [d]. *)
Definition leaves {A} (p : files A) (a : A) (f : gmap str str -> gmap str str) : Prop :=
  always p (fun tr o => Forall files_well tr -> o = Ret a /\ forall d, files_after d tr = f d).

Lemma leaves_done {A} (a : A) : leaves (Done a) a id.
Proof. by intros _. Qed.
Lemma leaves_bind {A B} (p : files A) (k : A -> files B) a b f g :
  leaves p a f -> leaves (k a) b g -> leaves (p ≫= k) b (fun d => g (f d)).
Proof.
  intros Hp Hk. unfold leaves. rewrite always_bind. eapply always_mono, Hp. intros tr [a'|] Ha.
  - enough (forall B' (q : files B') Q, (a' = a -> always q Q) -> always q (fun tr' o => a' = a -> Q tr' o)) as Hi.
    { eapply always_mono; [|apply Hi; intros E; rewrite E; exact Hk]. intros tr' o Ho [Hw1 Hw2]%Forall_app.
      destruct (Ha Hw1) as [[= ->] Hf]. destruct (Ho eq_refl Hw2) as [-> Hg]. split; [done|]. intros d.
      unfold files_after in *. by rewrite fold_left_app, Hf, Hg. }
    intros B' q Q. apply always_impl.
  - intros Hw. by destruct (Ha Hw) as [? _].
Qed.
Lemma leaves_ask c r f :
  (forall r', files_well (mk_event c r') -> r' = r) -> (forall d, file_effect d (mk_event c r) = f d) -> leaves (ask c) r f.
Proof. intros Hr Hf r' Hw. inversion_clear Hw. rewrite (Hr r') by done. split; [done|]. intros d. apply Hf. Qed.

Lemma remove_leaves (paths : list str) : leaves (remove_files paths) tt (fun d => fold_left (fun d p => delete p d) paths d).
Proof.
  induction paths as [|p paths IH]; [apply leaves_done|]. cbn [remove_files fold_left].
  eapply (leaves_bind _ _ (Ok tt) tt (delete p)); [by apply (leaves_ask (RemoveFile p))|exact IH].
Qed.
Lemma write_leaves (fs : list (str * str)) : leaves (write_files fs) (Ok tt) (fun d => fold_left (fun d f => <[fst f := snd f]> d) fs d).
Proof.
  induction fs as [|[p t] fs IH]; [apply leaves_done|]. cbn [write_files fold_left].
  eapply (leaves_bind _ _ (Ok tt) (Ok tt) (<[p := t]>)); [by apply (leaves_ask (WriteFile p t))|].
  eapply (leaves_bind _ _ (Ok tt) (Ok tt) _ id); [exact IH|]. apply leaves_done.
Qed.

Lemma deleted_lookup (paths : list str) (d : gmap str str) q :
  fold_left (fun d p => delete p d) paths d !! q = if bool_decide (q ∈ paths) then None else d !! q.
Proof.
  revert d. induction paths as [|p paths IH]; intros d; [done|]. cbn [fold_left]. rewrite IH.
  destruct (decide (q = p)) as [->|Hne].
  - rewrite (bool_decide_true (p ∈ p :: _)) by apply list_elem_of_here. rewrite lookup_delete_eq. by case_bool_decide.
  - rewrite lookup_delete_ne by congruence. erewrite (bool_decide_ext (q ∈ p :: paths)); [done|]. set_solver.
Qed.
Lemma written_lookup (fs : list (str * str)) (d : gmap str str) q :
  NoDup (map fst fs) ->
  fold_left (fun d f => <[fst f := snd f]> d) fs d !! q = match assoc_get q fs with Some t => Some t | None => d !! q end.
Proof.
  revert d. induction fs as [|[p t] fs IH]; intros d; [done|]. cbn [fold_left map fst snd]. intros [Hn Hd]%NoDup_cons.
  rewrite IH by done. cbn [assoc_get]. case_bool_decide as E; [subst|by rewrite lookup_insert_ne].
  destruct (assoc_get p fs) as [s|] eqn:Ep; [|by rewrite lookup_insert_eq]. exfalso. apply Hn. apply list_elem_of_fmap.
  exists (p, s). split; [done|]. by apply list_elem_of_In, assoc_get_Some_In.
Qed.
End Directory.

Section Materialized.
Context `{HashMapOrder} `{UnicodeCase} `{SerdeJson}.

Definition agent_path (cwd name : str) : str := path_join (agents_dir cwd) name.
Lemma agent_path_app cwd name : starts_with (lit "/") name = false -> agent_path cwd name = agents_dir cwd ++ lit "/" ++ name.
Proof.
  intros Hn. unfold agent_path, path_join at 1. rewrite Hn.
  assert (exists a, agents_dir cwd = a ++ lit "agents") as [a Ea].
  { unfold agents_dir. unfold path_join at 1. change (starts_with (lit "/") (lit "agents")) with false.
    cbv iota. case_match; [by eexists|]. eexists. by rewrite app_assoc. }
  rewrite Ea. destruct (is_empty _) eqn:E1; [apply is_empty_spec, app_eq_nil in E1 as [_ [=]]|].
  replace (drop _ _) with (lit "s"); [done|]. rewrite length_app. change (length (lit "agents")) with 6.
  replace (length a + 6 - 1) with (length a + 5) by lia. rewrite drop_app_add. by_compute.
Qed.

Lemma is_stale_spec current name :
  is_stale current name = true <-> starts_with (lit "archon-") name = true /\ name ∉ current.
Proof. unfold is_stale. by rewrite andb_true_iff, negb_true_iff, bool_decide_eq_false. Qed.

Lemma materialize_leaves names cwd agents :
  leaves names (materialize_agents cwd agents) (Ok tt)
    (fun d => fold_left (fun d f => <[fst f := snd f]> d) (agent_files cwd agents)
       (fold_left (fun d p => delete p d)
          (map (agent_path cwd) (List.filter (is_stale (map (fun e => agent_file (fst e)) (hm_iter agents))) names)) d)).
Proof.
  unfold materialize_agents, try. eapply (leaves_bind names _ _ (Ok tt) (Ok tt) id); [by apply (leaves_ask names (MakeDirAll _))|].
  cbv beta iota. eapply (leaves_bind names _ _ (Ok tt) (Ok tt)); [|apply write_leaves].
  unfold remove_stale. eapply (leaves_bind names _ _ (Ok (map Ok names)) _ id); [by apply (leaves_ask names (ListDir _))|].
  cbv beta iota. replace (read_entries (map Ok names)) with (@Ok io.Error _ names).
  - eapply (leaves_bind names _ _ tt _ _ id); [apply remove_leaves|apply leaves_done].
  - induction names as [|n ns IH]; [done|]. cbn [map read_entries]. by rewrite <- IH.
Qed.

Lemma agent_path_inj cwd a b :
  starts_with (lit "/") a = false -> starts_with (lit "/") b = false -> agent_path cwd a = agent_path cwd b -> a = b.
Proof. intros Ha Hb. rewrite !agent_path_app by done. intros [= E]%app_inv_head. done. Qed.
Lemma agent_file_relative key : starts_with (lit "/") (agent_file key) = false.
Proof. done. Qed.

Definition valid_agents (agents : gmap str InlineAgentDefinition) : Prop :=
  forall k config, agents !! k = Some config -> is_valid_agent_id k = true.
Lemma agent_file_valid k : is_valid_agent_id k = true -> agent_file k = lit "archon-" ++ k ++ lit ".md".
Proof. intros Hk. unfold agent_file, agent_name. by rewrite kebab_valid, <- app_assoc. Qed.

Lemma agent_files_distinct cwd agents : valid_agents agents -> NoDup (map fst (agent_files cwd agents)).
Proof.
  intros Hv. unfold agent_files. rewrite map_map. cbn [fst].
  assert (forall l : list (str * InlineAgentDefinition), NoDup l.*1 ->
    (forall k c, (k, c) ∈ l -> is_valid_agent_id k = true) ->
    NoDup (map (fun e => agent_path cwd (agent_file (fst e))) l)) as Hl.
  { induction l as [|[k c] l IH]; [constructor|]. cbn [fmap list_fmap map fst]. intros [Hn Hd]%NoDup_cons Hk. constructor.
    - intros ((k' & c') & E & Hin)%list_elem_of_fmap. apply Hn. cbv beta in E. cbn [fst] in E.
      apply agent_path_inj in E; [|apply agent_file_relative..].
      rewrite !agent_file_valid in E by (eapply Hk; by rewrite elem_of_cons; eauto).
      apply app_inv_head, app_inv_tail in E as ->. apply list_elem_of_fmap. by exists (k', c').
    - apply IH; [done|]. intros k' c' Hin. eapply (Hk k' c'). by right. }
  apply Hl; [apply hm_iter_NoDup|]. intros k c Hin%hm_iter_elem. by eapply Hv.
Qed.
Lemma agent_files_get cwd agents k config :
  valid_agents agents -> agents !! k = Some config ->
  assoc_get (agent_path cwd (agent_file k)) (agent_files cwd agents) = Some (build_agent_file_content config).
Proof.
  intros Hv Hk. pose proof (agent_files_distinct cwd agents Hv) as Hd. apply hm_iter_elem in Hk. revert Hd.
  unfold agent_files. revert Hk. generalize (hm_iter agents). induction l as [|[k' c'] l IH]; [by intros ?%elem_of_nil|].
  rewrite elem_of_cons. cbn [map fst snd assoc_get]. intros [[= -> ->]|Hin]; [by rewrite bool_decide_true|]. intros [Hn Hd]%NoDup_cons.
  rewrite bool_decide_false; [by apply IH|]. intros E. apply Hn. rewrite <- E. rewrite map_map. apply list_elem_of_fmap.
  by exists (k, config).
Qed.
Lemma agent_files_paths cwd agents p :
  assoc_get p (agent_files cwd agents) <> None -> exists k config, agents !! k = Some config /\ p = agent_path cwd (agent_file k).
Proof.
  intros Hp. destruct (assoc_get p _) as [t|] eqn:E; [|done]. apply assoc_get_Some_In, in_map_iff in E as ((k & c) & [= <- _] & Hin).
  apply list_elem_of_In, hm_iter_elem in Hin. by exists k, c.
Qed.

(** C34: The files of the agents of a node: when the names in the directory are those that are
    listed, and every call succeeds, then afterwards each agent of the node, whose keys are
    identifiers that a workflow may have, has its own file with its content; every other
    file whose name begins with [archon-] is gone from the directory; and no other path has
    changed, in the directory or elsewhere. *)
Theorem materialize_sync (cwd : str) (agents : gmap str InlineAgentDefinition) (names : list str) (d : gmap str str) :
  valid_agents agents ->
  (forall name, starts_with (lit "/") name = false -> d !! agent_path cwd name <> None -> name ∈ names) ->
  always (materialize_agents cwd agents) (fun tr o => Forall (files_well names) tr ->
    o = Ret (Ok tt)
    /\ (forall k config, agents !! k = Some config ->
          files_after d tr !! agent_path cwd (lit "archon-" ++ k ++ lit ".md") = Some (build_agent_file_content config))
    /\ (forall name, starts_with (lit "archon-") name = true ->
          (forall k, agents !! k <> None -> name <> lit "archon-" ++ k ++ lit ".md") ->
          files_after d tr !! agent_path cwd name = None)
    /\ (forall path, (forall name, path = agent_path cwd name -> starts_with (lit "archon-") name = false) ->
          files_after d tr !! path = d !! path)).
Proof.
  intros Hv Hd. eapply always_mono, (materialize_leaves names cwd agents). intros tr o Ho Hw.
  destruct (Ho Hw) as [-> Hf]. rewrite Hf. split; [done|].
  set (current := map (fun e => agent_file (fst e)) (hm_iter agents)).
  assert (forall k config, agents !! k = Some config -> agent_file k = lit "archon-" ++ k ++ lit ".md") as Hname.
  { intros k config Hk. eapply agent_file_valid, Hv, Hk. }
  split_and!.
  - intros k config Hk. rewrite <- (Hname k config Hk), written_lookup by by apply agent_files_distinct.
    by rewrite (agent_files_get cwd agents k config).
  - intros name Hn Hno. assert (starts_with (lit "/") name = false) as Hrel.
    { apply starts_with_spec in Hn as [r ->]. done. }
    rewrite written_lookup by by apply agent_files_distinct.
    destruct (assoc_get _ _) as [t|] eqn:E.
    { exfalso. destruct (agent_files_paths cwd agents (agent_path cwd name)) as (k & c & Hk & Ep); [by rewrite E|].
      apply agent_path_inj in Ep; [|done|apply agent_file_relative]. apply (Hno k); [by rewrite Hk|].
      rewrite Ep. by eapply Hname. }
    rewrite deleted_lookup. case_bool_decide as Hin; [done|]. destruct (d !! _) eqn:Ed; [|done]. exfalso. apply Hin.
    apply list_elem_of_fmap. exists name. split; [done|]. apply list_elem_of_In, filter_In. split.
    + apply list_elem_of_In, Hd; [done|]. by rewrite Ed.
    + apply is_stale_spec. split; [done|]. intros ((k & c) & Ek & Hkc)%list_elem_of_fmap. cbn [fst] in Ek.
      apply hm_iter_elem in Hkc. apply (Hno k); [by rewrite Hkc|]. rewrite Ek. by eapply Hname.
  - intros path Hp. rewrite written_lookup by by apply agent_files_distinct. destruct (assoc_get _ _) as [t|] eqn:E.
    { exfalso. destruct (agent_files_paths cwd agents path) as (k & c & Hk & Ep); [by rewrite E|].
      by specialize (Hp _ Ep). }
    rewrite deleted_lookup. case_bool_decide as Hin; [|done]. exfalso.
    apply list_elem_of_fmap in Hin as (name & Ep & Hin). apply list_elem_of_In, filter_In in Hin as [_ [Hs _]%is_stale_spec].
    by rewrite (Hp _ Ep) in Hs.
Qed.
End Materialized.

(** ** A concrete directory *)

Definition sample_agent (model : option str) : InlineAgentDefinition :=
  mk_InlineAgentDefinition (lit "Reviews") (lit "Review it.") model (Some [lit "read"; lit "bash"]) (Some [lit "bash"; lit "edit"])
    None (Some 3%N).
Definition agents_json : SerdeJson := table_json [(lit "D", String (lit "Reviews"))].
Definition sample_agents : gmap str InlineAgentDefinition := {[ lit "reviewer" := sample_agent None ]}.
Definition sample_listing : list str := [lit "archon-old.md"; lit "notes.md"].
Definition sample_dir : gmap str str :=
  {[ lit "/w/.opencode/agents/archon-old.md" := lit "old"; lit "/w/.opencode/agents/notes.md" := lit "mine" ]}.
Definition files_world : Process.world file_call := fun past c =>
  match c with ListDir _ => Ok (map Ok sample_listing) | MakeDirAll _ | RemoveFile _ | WriteFile _ _ => Ok tt end.
Definition sample_materialized : gmap str str :=
  files_after sample_dir
    (fst (Process.exec files_world [] (@materialize_agents canonical_order ascii_case agents_json (lit "/w") sample_agents))).

Lemma materialize_sync_witness :
  sample_materialized !! lit "/w/.opencode/agents/archon-reviewer.md"
    = Some (@build_agent_file_content agents_json (sample_agent None))
  /\ sample_materialized !! lit "/w/.opencode/agents/archon-old.md" = None
  /\ sample_materialized !! lit "/w/.opencode/agents/notes.md" = Some (lit "mine").
Proof.
  assert (Hall : forall A (p : files A) past, Forall (files_well sample_listing) (fst (Process.exec files_world past p))).
  { intros A p. induction p as [a| |c k IH]; intros past; [constructor..|]. cbn [Process.exec].
    specialize (IH (files_world past c) (past ++ [mk_event c (files_world past c)])).
    destruct (Process.exec _ _ (k _)) as [tr o]. constructor; [|exact IH]. by destruct c. }
  assert (Hv : valid_agents sample_agents).
  { intros k c Hk. unfold sample_agents in Hk. apply lookup_singleton_Some in Hk as [<- _]. by_compute. }
  assert (Hp : forall name n, starts_with (lit "/") name = false ->
            lit "/w/.opencode/agents/" ++ n = agent_path (lit "/w") name -> name = n).
  { intros name n Hr E. rewrite agent_path_app in E by done. rewrite app_assoc in E. by apply app_inv_head in E. }
  assert (Hd : forall name, starts_with (lit "/") name = false -> sample_dir !! agent_path (lit "/w") name <> None ->
            name ∈ sample_listing).
  { intros name Hr Hn. destruct (sample_dir !! _) as [t|] eqn:E in Hn; [|done]. unfold sample_dir in E.
    apply lookup_insert_Some in E as [[E _]|[_ E]].
    - rewrite (Hp name (lit "archon-old.md") Hr E). by left.
    - apply lookup_singleton_Some in E as [E _]. rewrite (Hp name (lit "notes.md") Hr E). right. by left. }
  pose proof (Process.always_exec _ _ files_world []
    (@materialize_sync canonical_order ascii_case agents_json (lit "/w") sample_agents sample_listing sample_dir Hv Hd)
    (Hall _ _ _)) as (_ & H1 & H2 & H3).
  fold sample_materialized in H1, H2, H3. split_and!.
  - exact (H1 (lit "reviewer") (sample_agent None) ltac:(apply lookup_singleton_eq)).
  - refine (H2 (lit "archon-old.md") eq_refl _). intros k Hk. destruct (sample_agents !! k) eqn:E; [|done].
    unfold sample_agents in E. apply lookup_singleton_Some in E as [<- _]. by vm_compute.
  - rewrite (H3 (lit "/w/.opencode/agents/notes.md")); [by_compute|]. intros name E.
    destruct (starts_with (lit "/") name) eqn:Es.
    + by apply starts_with_spec in Es as [r ->].
    + by rewrite (Hp name (lit "notes.md") Es E).
Defined.

(** What is said last of a tool counts, in its first place. *)
Example sample_agent_file :
  split [10%N] (@build_agent_file_content agents_json (sample_agent (Some (lit "a/b"))))
  = [lit "---"; lit "mode: subagent"; lit "description: " ++ @json_str agents_json (lit "Reviews");
     lit "model: " ++ @json_str agents_json (lit "a/b"); lit "steps: 3"; lit "tools:"; lit "  read: true"; lit "  bash: false";
     lit "  edit: false"; lit "---"; []; lit "Review it."].
Proof. by_compute. Qed.

(** Keys that differ in case or punctuation only have one file between them. *)
Example agents_share_a_file :
  @agent_file ascii_case (lit "My Agent") = lit "archon-my-agent.md"
  /\ @agent_file ascii_case (lit "my_agent!") = lit "archon-my-agent.md" /\ @agent_file ascii_case (lit "***") = lit "archon-.md".
Proof. split_and!; by_compute. Qed.
(** Numbers of tokens are sums of 64 bits: larger ones panic. *)
Example token_overflow :
  normalize_tokens (Some [key "tokens" (Object [key "input" (Number (PosInt (2 ^ 63))); key "output" (Number (PosInt (2 ^ 63)))])])
  = Panic.
Proof. by_compute. Qed.
Example model_refs :
  map parse_model_ref [lit " anthropic / claude/x "; lit "/x"; lit "x/"; lit "x"; lit "a/ "]
  = [Some (mk_ProviderModel (lit "anthropic") (lit "claude/x")); None; None; None; None].
Proof. by_compute. Qed.
