(* ===== verification/OpencodeSession.v ===== *)
(** * OpenCode: the client of the server, and a session

    [http_client.rs] and [session.rs] of [har-provider/src/opencode]: requests to the
    server, the events it sends, and a session read from them up to its end.

    A request is one call, answered with the status and the text of the response.  The
    events of a subscription are one answer, the chunks of bytes up to the end of the body
    or to an error: it is finite, though a server may well stay silent for ever.  What the
    [url] crate does to a directory is an argument, the class [UrlCrate].  An object keeps
    the order of its entries; removing one moves the last into its place. *)

From S2P Require Import Prelude StdModel Float64 Json Paths Provider CliStream AgentProc JsonRpc.
From S2P Require Import StructuredOutput OpencodeParts.

(** ** Calls *)

(** [form_urlencoded::byte_serialize], and the explicit port of a URL that parses. *)
Class UrlCrate : Type := { byte_serialize : bytes -> str; url_port : str -> option N }.

Record HttpResponse : Type := mk_HttpResponse { status : N; body_text : result str str }.
Record EventsResponse : Type := mk_EventsResponse { ev_head : HttpResponse; ev_chunks : list (result str bytes) }.
(** The runtime that is kept between queries. *)
Record EmbeddedRuntime : Type := mk_EmbeddedRuntime { server_url : str; ref_count : N }.
(** The lines of the server until it has said its URL, or closed its output, or the time
    is up; and whether it is. *)
Record ServeOutput : Type := mk_ServeOutput { serve_lines : list str; serve_elapsed : bool }.

Inductive oc_call : Type :=
| OcCommon (c : agent_call)
| Files (c : file_call)
| HttpGet (url : str)
| HttpPost (url : str) (body : option value)
| OpenEvents (url : str)
| GetVar (k : str)
| RandomPort
| RandomPassword
| NewTempDir
| Serve (args : list str) (env : list (str * str))
| ServeLines (within_ms : N)
| ServeStderr (within_ms : N)
| KillServe
| PidOnPort (port : N)
| KillPid (pid : N)
| GetRuntime
| SetRuntime (r : option EmbeddedRuntime).
(** An error of [HttpGet], [HttpPost] and [OpenEvents] is the text of the error of
    [reqwest]; [PidOnPort] is what the shell prints, if it could be run. *)
Definition oc_ret (c : oc_call) : Type :=
  match c with
  | OcCommon c => agent_ret c
  | Files c => file_ret c
  | HttpGet _ | HttpPost _ _ => result str HttpResponse
  | OpenEvents _ => result str EventsResponse
  | GetVar _ => option str
  | RandomPort => N
  | RandomPassword => bytes
  | NewTempDir => result io.Error str
  | Serve _ _ => result io.Error unit
  | ServeLines _ => ServeOutput
  | ServeStderr _ => list str
  | PidOnPort _ => option str
  | KillServe | KillPid _ | SetRuntime _ => unit
  | GetRuntime => option EmbeddedRuntime
  end.
#[export] Instance oc_calls : Calls oc_call := oc_ret.
Abbreviation oc := (@Process.proc oc_call oc_calls).
Abbreviation oc_trace := (Process.trace oc_call).
Definition act (c : oc_call) : oc (oc_ret c) := ask c.
Definition oc_common {A} : agent A -> oc A := lift OcCommon (fun _ r => r).
Definition on_files {A} : files A -> oc A := lift Files (fun _ r => r).

(** ** Lossy UTF-8 ([String::from_utf8_lossy]) *)

Definition second_ok (first b : N) : bool :=
  if (first =? 224)%N then in_range 160 191 b
  else if (first =? 237)%N then in_range 128 159 b
  else if (first =? 240)%N then in_range 144 191 b
  else if (first =? 244)%N then in_range 128 143 b
  else continuation b.
Definition replacement : str := [65533%N].
(** The longest prefix that begins a character, and the rest, are replaced apart. *)
Fixpoint from_utf8_lossy (bs : bytes) : str :=
  match bs with
  | [] => []
  | b :: r =>
      if (b <? 128)%N then b :: from_utf8_lossy r
      else if (b <? 194)%N || (244 <? b)%N then replacement ++ from_utf8_lossy r
      else
        match r with
        | c :: r' =>
            if negb (second_ok b c) then replacement ++ from_utf8_lossy r
            else if (b <? 224)%N then ((b - 192) * 64 + (c - 128))%N :: from_utf8_lossy r'
            else
              match r' with
              | d :: r'' =>
                  if negb (continuation d) then replacement ++ from_utf8_lossy r'
                  else if (b <? 240)%N
                  then ((b - 224) * 4096 + (c - 128) * 64 + (d - 128))%N :: from_utf8_lossy r''
                  else
                    match r'' with
                    | e :: r''' =>
                        if negb (continuation e) then replacement ++ from_utf8_lossy r''
                        else ((b - 240) * 262144 + (c - 128) * 4096 + (d - 128) * 64 + (e - 128))%N :: from_utf8_lossy r'''
                    | [] => replacement
                    end
              | [] => replacement
              end
        | [] => replacement
        end
  end.

(** ** Requests ([http_client.rs]) *)

Inductive HttpClientError : Type :=
| Reqwest (e : str)
| JsonError (e : str)
| SseParse (e : str)
| ServerError (status : N) (body : str).
Definition HttpClientError_display (e : HttpClientError) : str :=
  match e with
  | Reqwest e => lit "HTTP request failed: " ++ e
  | JsonError e => lit "JSON parse error: " ++ e
  | SseParse e => lit "SSE parse error: " ++ e
  | ServerError status body => lit "Server error " ++ show_N status ++ lit ": " ++ body
  end.
Definition success_status (status : N) : bool := (200 <=? status)%N && (status <? 300)%N.

(** An event of the server. *)
Record SseEvent : Type := mk_SseEvent { event_type : str; properties : object }.
Abbreviation item := (result HttpClientError SseEvent).

Record OpenCodeClient : Type := mk_OpenCodeClient { base_url : str; directory : str }.
Definition client_for (base_url directory : str) : OpenCodeClient :=
  mk_OpenCodeClient (StructuredOutput.trim_end_matches (N.eqb 47) base_url) directory.

Section Client.
Context `{SerdeJson} `{JsonErrors} `{UrlCrate}.

Definition server_error (r : HttpResponse) : HttpClientError :=
  ServerError (status r) (unwrap_or (body_text r) []).
Definition json_or_error (r : result str HttpResponse) : result HttpClientError value :=
  match r with
  | Err e => Err (Reqwest e)
  | Ok r =>
      if success_status (status r) then
        match body_text r with
        | Err e => Err (Reqwest e)
        | Ok text => match from_str text with Some v => Ok v | None => Err (JsonError (parse_message text)) end
        end
      else Err (server_error r)
  end.
Definition unit_or_error (r : result str HttpResponse) : result HttpClientError unit :=
  match r with
  | Err e => Err (Reqwest e)
  | Ok r => if success_status (status r) then Ok tt else Err (server_error r)
  end.

Section Requests.
Context (client : OpenCodeClient).

Definition url (path : str) : str :=
  if starts_with slash path then base_url client ++ path else base_url client ++ slash ++ path.
Definition request_url (path : str) : str :=
  url path ++ lit "?directory=" ++ byte_serialize (as_bytes (directory client)).
Definition session_path (session_id : str) : str := lit "/session/" ++ session_id.

Definition create_session (parent_id title : option str) : oc (result HttpClientError value) :=
  let body := match parent_id with Some p => [key "parentID" (String p)] | None => [] end
              ++ match title with Some t => [key "title" (String t)] | None => [] end in
  r ← act (HttpPost (request_url (lit "/session")) (Some (Object body))); Done (json_or_error r).
Definition get_session (session_id : str) : oc (result HttpClientError value) :=
  r ← act (HttpGet (request_url (session_path session_id))); Done (json_or_error r).
Definition prompt_url (session_id : str) : str := request_url (session_path session_id ++ lit "/prompt_async").
Definition prompt_async (session_id : str) (body : value) : oc (result HttpClientError unit) :=
  r ← act (HttpPost (prompt_url session_id) (Some body)); Done (unit_or_error r).
Definition get_message (session_id message_id : str) : oc (result HttpClientError value) :=
  r ← act (HttpGet (request_url (session_path session_id ++ lit "/message/" ++ message_id))); Done (json_or_error r).
Definition abort_session (session_id : str) : oc (result HttpClientError unit) :=
  r ← act (HttpPost (request_url (session_path session_id ++ lit "/abort")) None); Done (unit_or_error r).
Definition dispose_instance : oc (result HttpClientError unit) :=
  r ← act (HttpPost (request_url (lit "/instance/dispose")) None); Done (unit_or_error r).
End Requests.

(** ** Events *)

(** [Map::remove]: the last entry takes the place of the one that is removed. *)
Fixpoint swap_remove (k : str) (m : object) : object :=
  match m with
  | [] => []
  | (k', v) :: m' =>
      if bool_decide (k = k') then
        match rev m' with [] => [] | last :: front => last :: rev front end
      else (k', v) :: swap_remove k m'
  end.
Definition sse_event_of (obj : object) : SseEvent :=
  mk_SseEvent (default (lit "unknown") (obj_str "type" obj))
    (match assoc_get (lit "properties") obj ≫= as_object with
     | Some props => props
     | None => swap_remove (lit "type") obj
     end).

Definition line_event (line : str) : option item :=
  data ← strip_prefix (lit "data: ") line;
  if is_empty data || str_eqb data (lit "[DONE]") then None
  else
    match from_str data with
    | None => Some (Err (SseParse (parse_message data ++ lit ": " ++ data)))
    | Some (Object obj) => Some (Ok (sse_event_of obj))
    | Some _ => None
    end.
Definition frame_events (frame : str) : list item := omap line_event (lines frame).

Definition frame_end : str := [10; 10]%N.
(** The frames of a buffer, and what is left of it. *)
Definition drain_frames (buf : str) : list str * str :=
  let pieces := split frame_end buf in (removelast pieces, List.last pieces []).
Fixpoint events_from (buf : str) (byte_stream : list (result str bytes)) : list item :=
  match byte_stream with
  | [] => []
  | Err e :: _ => [Err (Reqwest e)]
  | Ok chunk :: byte_stream =>
      let '(frames, buf) := drain_frames (buf ++ from_utf8_lossy chunk) in
      flat_map frame_events frames ++ events_from buf byte_stream
  end.
(** A stream that fails has ended. *)
Fixpoint until_error {E A} (items : list (result E A)) : list (result E A) :=
  match items with
  | [] => []
  | Err e :: _ => [Err e]
  | Ok a :: items => Ok a :: until_error items
  end.
Definition sse_events (byte_stream : list (result str bytes)) : list item := until_error (events_from [] byte_stream).

Definition subscribe_events (client : OpenCodeClient) : oc (result HttpClientError (list item)) :=
  r ← act (OpenEvents (request_url client (lit "/event")));
  Done match r with
       | Err e => Err (Reqwest e)
       | Ok r => if success_status (status (ev_head r)) then Ok (sse_events (ev_chunks r)) else Err (server_error (ev_head r))
       end.
End Client.

(** ** The body of a prompt ([session.rs]) *)

Record ResolvedSession : Type := mk_ResolvedSession { session_id : str; resumed : bool }.
Definition resolve_session_id_logic (resume_session_id resumed_session : option str) (new_session_id : str) : ResolvedSession :=
  match resume_session_id, resumed_session with
  | Some _, Some ((_ :: _) as existing) => mk_ResolvedSession existing true
  | _, _ => mk_ResolvedSession new_session_id false
  end.

Definition model_value (m : ProviderModel) : value :=
  Object [key "providerID" (String (provider_id m)); key "modelID" (String (model_id m))].
Definition system_prompt_value (s : SystemPromptInput) : value :=
  match s with
  | SP_Single s => String s
  | SP_Multi l => Array (map String l)
  | SP_Preset p =>
      Object ([key "type" (String (lit "preset")); key "preset" (String (lit "claude_code"))]
              ++ match sp_append p with Some a => [key "append" (String a)] | None => [] end
              ++ match exclude_dynamic_sections p with Some b => [key "excludeDynamicSections" (Bool b)] | None => [] end)
  end.
Definition is_falsy (s : SystemPromptInput) : bool := match s with SP_Single s => is_empty s | _ => false end.

Section Prompt.
Context `{HashMapOrder} `{UnicodeCase}.

Definition prompt_body (effective_prompt : str) (model : ProviderModel) (request_options : option SendQueryOptions)
    (adapted : option AdaptedAgentConfig) : object :=
  [key "parts" (Array [Object [key "type" (String (lit "text")); key "text" (String effective_prompt)]]);
   key "model" (model_value (default model (adapted ≫= ad_model)))]
  ++ match adapted with Some a => [key "agent" (String (ad_agent a))] | None => [] end
  ++ match adapted ≫= ad_tools with
     | Some tools => [key "tools" (Object (map (fun e => (fst e, Bool (snd e))) (hm_iter tools)))]
     | None => []
     end
  ++ match request_options ≫= so_system_prompt with
     | Some system => if is_falsy system then [] else [key "system" (system_prompt_value system)]
     | None => []
     end
  ++ match request_options ≫= so_output_format with
     | Some fmt => [key "format" (Object [key "type" (String (lit "json_schema")); key "schema" (Object (schema fmt))])]
     | None => []
     end.
Definition create_session_prompt_body (prompt : str) (model : ProviderModel) (request_options : option SendQueryOptions)
    (agent_override : option NamedAgentConfig) : result str object :=
  let single_agent := match agent_override with
                      | Some a => Some a
                      | None => select_single_agent (o ← request_options; nc ← so_node_config o; nc_agents nc)
                      end in
  adapted ← match single_agent with
            | None => Ok None
            | Some a => ad ← adapt_named_agent_for_opencode a; Ok (Some ad)
            end;
  Ok (prompt_body (resolve_prompt_for_agent single_agent prompt) model request_options adapted).
End Prompt.

(** ** The events of a session *)

Definition read_structured_output_from_info (info : value) : option value :=
  match info with Object obj => assoc_get (lit "structured_output") obj | _ => None end.

Definition text_or (d : str) (k : string) (o : object) : str := default d (obj_str k o).

(** What is kept between events: the last information on the answer, its identifier, and
    the tools that were called, and have ended. *)
Record SessionState : Type := mk_SessionState {
  latest_assistant_info : option object;
  last_assistant_message_id : option str;
  seen_tool_calls : gset str;
  completed_tool_calls : gset str;
}.
Definition fresh_session : SessionState := mk_SessionState None None ∅ ∅.

Definition process_message_updated (props : object) (sid : str) (st : SessionState) : SessionState :=
  match assoc_get (lit "info") props ≫= as_object with
  | None => st
  | Some info =>
      if str_eqb (text_or [] "role" info) (lit "assistant") && str_eqb (text_or [] "sessionID" info) sid then
        mk_SessionState (Some info)
          (match obj_str "id" info with Some id => Some id | None => last_assistant_message_id st end)
          (seen_tool_calls st) (completed_tool_calls st)
      else st
  end.

(** The delta of a text, or the whole of it. *)
Definition part_text (props part : object) : str :=
  match obj_str "delta" props with Some d => d | None => text_or [] "text" part end.
Definition record_or_array (v : value) : option value :=
  match v with Object _ | Array _ => Some v | _ => None end.
Definition tool_state (part : object) : option object := assoc_get (lit "state") part ≫= as_object.
(** The output of a tool that has ended. *)
Definition tool_end (part : object) : option str :=
  state ← tool_state part;
  status ← obj_str "status" state;
  if str_eqb status (lit "completed") then Some (text_or [] "output" state)
  else if str_eqb status (lit "error") then Some (text_or (lit "Tool failed") "error" state)
  else None.
Definition tool_announced (part : object) (call_id : str) : MessageChunk :=
  Tool (text_or (lit "unknown") "tool" part)
    (state ← tool_state part; input ← assoc_get (lit "input") state; record_or_array input) (Some call_id).
Definition tool_ended (part : object) (call_id output : str) : MessageChunk :=
  ToolResult (text_or (lit "unknown") "tool" part) output (Some call_id).

(** The part of an event, if it is one of the session. *)
Definition own_part (props : object) (sid : str) : option object :=
  part ← assoc_get (lit "part") props ≫= as_object;
  if str_eqb (text_or [] "sessionID" part) sid then Some part else None.

Definition process_tool (part : object) (st : SessionState) : list MessageChunk * SessionState :=
  match obj_str "callID" part with
  | None => ([], st)
  | Some call_id =>
      let announced := if bool_decide (call_id ∈ seen_tool_calls st) then [] else [tool_announced part call_id] in
      let seen := {[ call_id ]} ∪ seen_tool_calls st in
      let '(ended, completed) :=
        if bool_decide (call_id ∈ completed_tool_calls st) then ([], completed_tool_calls st)
        else match tool_end part with
             | Some output => ([tool_ended part call_id output], {[ call_id ]} ∪ completed_tool_calls st)
             | None => ([], completed_tool_calls st)
             end in
      (announced ++ ended, mk_SessionState (latest_assistant_info st) (last_assistant_message_id st) seen completed)
  end.
Definition process_message_part_updated (props : object) (sid : str) (st : SessionState) : list MessageChunk * SessionState :=
  match own_part props sid with
  | None => ([], st)
  | Some part =>
      match obj_str "type" part with
      | None => ([], st)
      | Some part_type =>
          if str_eqb part_type (lit "text") then
            (match part_text props part with [] => [] | t => [Assistant t None] end, st)
          else if str_eqb part_type (lit "reasoning") then
            (match part_text props part with [] => [] | t => [Thinking t] end, st)
          else if str_eqb part_type (lit "tool") then process_tool part st
          else ([], st)
      end
  end.

Definition value_or_null (k : string) (o : object) : value := default Null (assoc_get (lit k) o).
Definition model_usage (info : object) : gmap str value :=
  let tokens := default [] (assoc_get (lit "tokens") info ≫= as_object) in
  list_to_map [key "providerID" (value_or_null "providerID" info); key "modelID" (value_or_null "modelID" info);
               key "reasoning" (value_or_null "reasoning" tokens); key "cache" (value_or_null "cache" tokens)].
Definition build_result_chunk (sid : str) (info : option object) (structured_output : option value) : outcome ResultChunk :=
  tokens ← normalize_tokens info;
  Ret (mk_ResultChunk (Some sid) tokens structured_output None None None
         (i ← info; cost ← assoc_get (lit "cost") i; value_as_f64 cost) (i ← info; obj_str "finish" i) None
         (model_usage <$> info)).

(** Whether an event that names a session names another one. *)
Definition of_other_session (props : object) (sid : str) : bool :=
  match obj_str "sessionID" props with Some esid => negb (str_eqb esid sid) | None => false end.

Section Session.
Context `{SerdeJson} `{JsonErrors} `{UrlCrate}.
Context (client : OpenCodeClient).

Definition session_id_of (session_data : value) : str := default [] (d ← value_get (lit "id") session_data; as_str d).

Definition created_session : oc (result str ResolvedSession) :=
  r ← create_session client None None;
  Done match r with
       | Ok session_data =>
           match session_id_of session_data with
           | [] => Err (lit "Server returned empty session ID")
           | id => Ok (mk_ResolvedSession id false)
           end
       | Err e => Err (lit "Failed to create session: " ++ HttpClientError_display e)
       end.
Definition resolve_session_id (resume_session_id : option str) : oc (result str ResolvedSession) :=
  match resume_session_id with
  | None => created_session
  | Some resume_id =>
      r ← get_session client resume_id;
      match r with
      | Ok session_data =>
          match session_id_of session_data with
          | [] => created_session
          | id => Done (Ok (mk_ResolvedSession id true))
          end
      | Err _ => created_session
      end
  end.

Definition session_error_text (props : object) : str :=
  lit "session.error: "
  ++ error_message_from_value
       (match assoc_get (lit "error") props with Some (Object err) => Object err | _ => Object props end).

Definition read_structured_output (sid : str) (message_id : option str) : oc (option value) :=
  match message_id with
  | None => Done None
  | Some id =>
      r ← get_message client sid id;
      Done match r with
           | Ok msg_data => read_structured_output_from_info (default Null (value_get (lit "info") msg_data))
           | Err _ => None
           end
  end.

(** The loop over the events; [chunks] is what was read so far. *)
Fixpoint session_loop (sid : str) (chunks : list MessageChunk) (st : SessionState) (items : list item)
  : oc (result str (list MessageChunk)) :=
  cancelled ← act (OcCommon IsCancelled);
  if cancelled : bool then
    _ ← abort_session client sid;
    Done (Err (lit "aborted"))
  else
    match items with
    | [] => Done (Err (lit "SSE stream ended without session.idle"))
    | Err e :: _ => Done (Err (lit "SSE stream error: " ++ HttpClientError_display e))
    | Ok event :: items =>
        let props := properties event in
        let is_type (t : string) := str_eqb (event_type event) (lit t) in
        if is_type "message.updated" then session_loop sid chunks (process_message_updated props sid st) items
        else if is_type "message.part.updated" then
          let '(new_chunks, st) := process_message_part_updated props sid st in
          session_loop sid (chunks ++ new_chunks) st items
        else if is_type "session.error" then
          if of_other_session props sid then session_loop sid chunks st items
          else Done (Err (session_error_text props))
        else if is_type "session.idle" then
          if of_other_session props sid then session_loop sid chunks st items
          else
            structured_output ← read_structured_output sid (last_assistant_message_id st);
            result_chunk ← pure_step (build_result_chunk sid (latest_assistant_info st) structured_output);
            Done (Ok (chunks ++ [ResultMsg result_chunk]))
        else session_loop sid chunks st items
    end.

Definition stream_opencode_session (sid : str) (body : object) : oc (result str (list MessageChunk)) :=
  events ← subscribe_events client;
  match events with
  | Err e => Done (Err (lit "SSE subscribe failed: " ++ HttpClientError_display e))
  | Ok items =>
      sent ← prompt_async client sid (Object body);
      match sent with
      | Err e => Done (Err (lit "prompt_async failed: " ++ HttpClientError_display e))
      | Ok _ => session_loop sid [] fresh_session items
      end
  end.
End Session.

(** * The events are read back *)

(** ** Text in chunks *)

Lemma second_byte (q r b : N) :
  (r < 64)%N -> b = (128 + r)%N ->
  (q = 224 -> 32 <= r)%N -> (q = 237 -> r < 32)%N -> (q = 240 -> 16 <= r)%N -> (q = 244 -> r < 16)%N -> second_ok q b = true.
Proof.
  intros Hr -> H1 H2 H3 H4. unfold second_ok, in_range, continuation.
  repeat (match goal with |- context [N.eqb ?a ?b] => destruct (N.eqb_spec a b) end);
    rewrite andb_true_iff, ?N.leb_le, ?N.ltb_lt; lia.
Qed.
Lemma tail_byte (r : N) : (r < 64)%N -> continuation (128 + r) = true.
Proof. intros Hr. unfold continuation. rewrite andb_true_iff, N.leb_le, N.ltb_lt. lia. Qed.

Lemma lossy_cons b r : from_utf8_lossy (b :: r) =
  if (b <? 128)%N then b :: from_utf8_lossy r
  else if (b <? 194)%N || (244 <? b)%N then replacement ++ from_utf8_lossy r
  else
    match r with
    | c :: r' =>
        if negb (second_ok b c) then replacement ++ from_utf8_lossy r
        else if (b <? 224)%N then ((b - 192) * 64 + (c - 128))%N :: from_utf8_lossy r'
        else
          match r' with
          | d :: r'' =>
              if negb (continuation d) then replacement ++ from_utf8_lossy r'
              else if (b <? 240)%N
              then ((b - 224) * 4096 + (c - 128) * 64 + (d - 128))%N :: from_utf8_lossy r''
              else
                match r'' with
                | e :: r''' =>
                    if negb (continuation e) then replacement ++ from_utf8_lossy r''
                    else ((b - 240) * 262144 + (c - 128) * 4096 + (d - 128) * 64 + (e - 128))%N :: from_utf8_lossy r'''
                | [] => replacement
                end
          | [] => replacement
          end
    | [] => replacement
    end.
Proof. reflexivity. Qed.
Lemma lossy_char (c : char) (r : bytes) : scalar c -> from_utf8_lossy (encode_char c ++ r) = c :: from_utf8_lossy r.
Proof.
  intros Hc. unfold scalar in Hc. unfold encode_char. rewrite ?div_262144, ?div_4096.
  pose proof (div_mod_64 c) as [E0 L0]. pose proof (div_mod_64 (c / 64)) as [E1 L1].
  pose proof (div_mod_64 (c / 64 / 64)) as [E2 L2].
  generalize dependent (c / 64 / 64 / 64)%N. intros q3.
  generalize dependent (c / 64 / 64 mod 64)%N. intros r2.
  generalize dependent (c / 64 / 64)%N. intros q2.
  generalize dependent (c / 64 mod 64)%N. intros r1.
  generalize dependent (c / 64)%N. intros q1. generalize dependent (c mod 64)%N. intros r0. intros.
  destruct (N.ltb_spec c 128); cbn [app]; [rewrite lossy_cons; by decide_tests|].
  destruct (N.ltb_spec c 2048); cbn [app]; [|destruct (N.ltb_spec c 65536); cbn [app]]; rewrite lossy_cons; cbv beta iota.
  - rewrite (second_byte _ r0) by lia. cbn [negb]. decide_tests.
    by replace ((192 + q1 - 192) * 64 + (128 + r0 - 128))%N with c by lia.
  - rewrite (second_byte _ r1), tail_byte by lia. cbn [negb]. decide_tests.
    by replace ((224 + q2 - 224) * 4096 + (128 + r1 - 128) * 64 + (128 + r0 - 128))%N with c by lia.
  - rewrite (second_byte _ r2), !tail_byte by lia. cbn [negb]. decide_tests.
    by replace ((240 + q3 - 240) * 262144 + (128 + r2 - 128) * 4096 + (128 + r1 - 128) * 64 + (128 + r0 - 128))%N with c by lia.
Qed.
Lemma lossy_text (s : str) (r : bytes) : Forall scalar s -> from_utf8_lossy (as_bytes s ++ r) = s ++ from_utf8_lossy r.
Proof.
  induction 1 as [|c s Hc Hs IH]; [done|]. unfold as_bytes in *. cbn [flat_map app].
  by rewrite <- app_assoc, lossy_char, IH.
Qed.

(** ** Frames *)

Lemma drain_none buf : split_once frame_end buf = None -> drain_frames buf = ([], buf).
Proof. intros E. unfold drain_frames. rewrite split_unfold by done. by rewrite E. Qed.
Lemma drain_some buf frame rest :
  split_once frame_end buf = Some (frame, rest) ->
  drain_frames buf = (frame :: fst (drain_frames rest), snd (drain_frames rest)).
Proof.
  intros E. unfold drain_frames. rewrite (split_unfold _ buf) by done. rewrite E.
  pose proof (split_not_nil frame_end rest). by destruct (split frame_end rest).
Qed.
Lemma drain_app a b :
  drain_frames (a ++ b) = (fst (drain_frames a) ++ fst (drain_frames (snd (drain_frames a) ++ b)),
                           snd (drain_frames (snd (drain_frames a) ++ b))).
Proof.
  revert a. apply (split_ind frame_end); [done| |].
  - intros a E. rewrite (drain_none a) by done. cbn [fst snd app]. by destruct (drain_frames (a ++ b)).
  - intros a x y E IH. rewrite (drain_some _ x (y ++ b)) by by apply split_once_more.
    rewrite (drain_some a x y) by done. cbn [fst snd app]. by rewrite IH.
Qed.

Section Events.
Context `{SerdeJson} `{JsonErrors}.

(** However a text is cut between its characters, its events are the same. *)
Lemma events_cut buf chunks rest :
  Forall (Forall scalar) chunks ->
  events_from buf (map (fun c => Ok (as_bytes c)) chunks ++ rest)
  = let '(frames, remains) := drain_frames (buf ++ concat chunks) in
    match chunks with
    | [] => events_from buf rest
    | _ => flat_map frame_events frames ++ events_from remains rest
    end.
Proof.
  intros Hc. revert buf. induction Hc as [|c chunks Hc Hcs IH]; intros buf.
  { cbn [map app concat]. by destruct (drain_frames _). }
  cbn [map app events_from concat].
  assert (from_utf8_lossy (as_bytes c) = c) as ->. { rewrite <- (app_nil_r (as_bytes c)), lossy_text by done. apply app_nil_r. }
  rewrite app_assoc, (drain_app (buf ++ c)). destruct (drain_frames (buf ++ c)) as [f1 l1] eqn:E1. cbn [fst snd].
  rewrite IH. destruct chunks as [|c' chunks].
  - cbn [concat]. rewrite app_nil_r. enough (drain_frames l1 = ([], l1)) as ->. { cbn [fst snd]. by rewrite app_nil_r. }
    apply (f_equal snd) in E1. cbn [snd] in E1. subst l1. generalize (buf ++ c). apply (split_ind frame_end); [done| |].
    + intros s E. rewrite (drain_none s) by done. by apply drain_none.
    + intros s x y E Hy. by rewrite (drain_some s x y).
  - destruct (drain_frames (l1 ++ _)) as [f2 l2]. cbn [fst snd]. by rewrite flat_map_app, app_assoc.
Qed.

(** ** Events in frames of their own *)

Definition event_line (o : object) : str := lit "data: " ++ to_string (Object o).
Definition print_event (o : object) : str := event_line o ++ frame_end.
(** An event that [serde_json] prints on a line, and reads back; it begins with a brace. *)
Definition event_ok (o : object) : Prop := printed_ok (Object o) /\ starts_with (lit "{") (to_string (Object o)) = true.

Lemma event_line_chars o : event_ok o -> Forall (fun c => scalar c /\ (32 <= c)%N) (event_line o).
Proof.
  intros [(_ & Hc & _) _]. unfold event_line. apply Forall_app. split; [|exact Hc]. by apply plain_text.
Qed.
Lemma no_newline s : Forall (fun c => scalar c /\ (32 <= c)%N) s -> 10%N ∉ s.
Proof. intros Hs Hin. rewrite Forall_forall in Hs. apply Hs in Hin. lia. Qed.
Lemma line_event_printed o : event_ok o -> line_event (event_line o) = Some (Ok (sse_event_of o)).
Proof.
  intros [(Hne & _ & Hr) Hb]. unfold line_event, event_line. rewrite strip_prefix_app.
  cbn [mbind option_bind]. rewrite Hr. destruct (is_empty _) eqn:E; [by apply is_empty_spec in E|].
  destruct (str_eqb _ _) eqn:Ed; [|done]. apply str_eqb_spec in Ed. by rewrite Ed in Hb.
Qed.
Lemma frame_events_printed o : event_ok o -> frame_events (event_line o) = [Ok (sse_event_of o)].
Proof.
  intros Ho. unfold frame_events, lines. rewrite split_char_absent by by apply no_newline, event_line_chars.
  cbn [removelast List.last map app]. unfold event_line at 1. change (is_empty (lit "data: " ++ _)) with false.
  cbn [omap list_omap]. by rewrite line_event_printed.
Qed.
Lemma drain_printed_events os :
  Forall event_ok os -> drain_frames (concat (map print_event os)) = (map event_line os, []).
Proof.
  induction 1 as [|o os Ho Hos IH]; [done|]. cbn [map concat]. unfold print_event at 1. rewrite <- app_assoc.
  rewrite (drain_some _ (event_line o) (concat (map print_event os))); [by rewrite IH|].
  apply (split_once_absent 10 [10%N]). by apply no_newline, event_line_chars.
Qed.
Lemma until_error_ok {E A} (l : list A) : until_error (map (@Ok E A) l) = map Ok l.
Proof. induction l as [|a l IH]; [done|]. cbn [map until_error]. by rewrite IH. Qed.

(** The events of the server are read back: when it sends objects, each in a frame of one
    line, the client yields them in order and nothing else, however the body is cut into
    chunks between characters. *)
Theorem events_round_trip (os : list object) (chunks : list str) :
  Forall event_ok os -> concat chunks = concat (map print_event os) ->
  sse_events (map (fun c => Ok (as_bytes c)) chunks) = map (fun o => Ok (sse_event_of o)) os.
Proof.
  intros Hos Ec. unfold sse_events.
  assert (Forall (Forall scalar) chunks) as Hs.
  { apply Forall_concat. rewrite Ec. apply Forall_concat, Forall_map. eapply Forall_impl; [exact Hos|]. intros o Ho.
    unfold print_event. apply Forall_app. split; [|repeat constructor].
    eapply Forall_impl; [by apply event_line_chars|]. by intros c []. }
  pose proof (events_cut [] chunks [] Hs) as Hc. rewrite app_nil_r in Hc. cbn [app] in Hc. rewrite Hc, Ec, drain_printed_events by done.
  transitivity (until_error (flat_map frame_events (map event_line os))).
  { destruct chunks; [|cbn [events_from]; by rewrite app_nil_r]. destruct os as [|o os]; [done|].
    exfalso. apply (f_equal length) in Ec. cbn [concat map] in Ec. unfold print_event, event_line in Ec. rewrite !length_app in Ec.
    unfold frame_end in Ec. cbn [length] in Ec. lia. }
  rewrite <- (map_map sse_event_of Ok), <- (until_error_ok (map sse_event_of os)). f_equal.
  clear Hs Hc Ec. induction Hos as [|o os' Ho Hos IH]; [done|]. cbn [map flat_map]. by rewrite frame_events_printed, IH.
Qed.
End Events.

(** * A session is read from its events *)

(** ** What the events of a session say *)

Definition is_event (t : string) (e : SseEvent) : bool := str_eqb (event_type e) (lit t).

(** A session ends with an error or when it is idle; events of another session are passed
    over. *)
Inductive session_end : Type :=
| EndOfStream
| StreamFails (e : HttpClientError)
| SessionError (props : object)
| SessionIdle.
Fixpoint until_end (sid : str) (items : list item) : list SseEvent * session_end :=
  match items with
  | [] => ([], EndOfStream)
  | Err e :: _ => ([], StreamFails e)
  | Ok e :: items =>
      if negb (of_other_session (properties e) sid) && is_event "session.error" e then ([], SessionError (properties e))
      else if negb (of_other_session (properties e) sid) && is_event "session.idle" e then ([], SessionIdle)
      else let '(es, fin) := until_end sid items in (e :: es, fin)
  end.

(** The information on an answer of the session, and the part of the session an event has. *)
Definition info_of (sid : str) (e : SseEvent) : option object :=
  if is_event "message.updated" e then
    info ← assoc_get (lit "info") (properties e) ≫= as_object;
    if str_eqb (text_or [] "role" info) (lit "assistant") && str_eqb (text_or [] "sessionID" info) sid then Some info else None
  else None.
Definition part_of (sid : str) (t : string) (e : SseEvent) : option object :=
  if is_event "message.part.updated" e then
    part ← own_part (properties e) sid;
    if bool_decide (obj_str "type" part = Some (lit t)) then Some part else None
  else None.
(** The call of a tool an event is about, and the one it ends. *)
Definition call_of (sid : str) (e : SseEvent) : option str := part_of sid "tool" e ≫= obj_str "callID".
Definition ended_call (sid : str) (e : SseEvent) : option str :=
  part ← part_of sid "tool" e; _ ← tool_end part; obj_str "callID" part.

(** The messages of an event, after those before it: a tool is announced by the first event
    about its call, and its output is told by the first that ends it. *)
Definition event_messages (sid : str) (before : list SseEvent) (e : SseEvent) : list MessageChunk :=
  let text (p : object) (f : str -> MessageChunk) := match part_text (properties e) p with [] => [] | t => [f t] end in
  match part_of sid "text" e, part_of sid "reasoning" e, part_of sid "tool" e with
  | Some p, _, _ => text p (fun t => Assistant t None)
  | _, Some p, _ => text p Thinking
  | _, _, Some p =>
      match obj_str "callID" p with
      | None => []
      | Some id =>
          (if bool_decide (id ∈ omap (call_of sid) before) then [] else [tool_announced p id])
          ++ (if bool_decide (id ∈ omap (ended_call sid) before) then []
              else match tool_end p with Some output => [tool_ended p id output] | None => [] end)
      end
  | _, _, _ => []
  end.
Fixpoint messages_after (sid : str) (before es : list SseEvent) : list MessageChunk :=
  match es with
  | [] => []
  | e :: es => event_messages sid before e ++ messages_after sid (before ++ [e]) es
  end.
Definition session_messages (sid : str) (es : list SseEvent) : list MessageChunk := messages_after sid [] es.
Definition last_info (sid : str) (es : list SseEvent) : option object := last (omap (info_of sid) es).
Definition last_id (sid : str) (es : list SseEvent) : option str :=
  last (omap (fun e => info_of sid e ≫= obj_str "id") es).

(** ** The loop *)

(** What the loop keeps after some events. *)
Definition state_after (sid : str) (es : list SseEvent) : SessionState :=
  mk_SessionState (last_info sid es) (last_id sid es) (list_to_set (omap (call_of sid) es)) (list_to_set (omap (ended_call sid) es)).

Lemma omap_snoc {A B} (f : A -> option B) l a : omap f (l ++ [a]) = omap f l ++ option_list (f a).
Proof. by rewrite omap_app. Qed.
Lemma last_more {A B} (f : A -> option B) l a : last (omap f (l ++ [a])) = match f a with Some b => Some b | None => last (omap f l) end.
Proof.
  rewrite omap_snoc. destruct (f a) as [b|]; [exact (last_snoc b _)|]. change (option_list None) with (@nil B).
  by rewrite app_nil_r.
Qed.

Lemma calls_more (f : SseEvent -> option str) es e :
  (list_to_set (omap f (es ++ [e])) : gset str)
  = match f e with Some id => {[ id ]} ∪ list_to_set (omap f es) | None => list_to_set (omap f es) end.
Proof.
  rewrite omap_snoc. destruct (f e) as [id|]; [|change (option_list None) with (@nil str); by rewrite app_nil_r].
  change (option_list (Some id)) with [id]. rewrite list_to_set_app_L, list_to_set_singleton_L. apply union_comm_L.
Qed.

Lemma updated_state sid es e :
  is_event "message.updated" e = true -> process_message_updated (properties e) sid (state_after sid es) = state_after sid (es ++ [e]).
Proof.
  intros Et. unfold state_after, last_info, last_id. rewrite !last_more, !calls_more.
  assert (is_event "message.part.updated" e = false) as En.
  { unfold is_event in *. apply str_eqb_spec in Et. by rewrite Et. }
  unfold call_of, ended_call, part_of, info_of. rewrite Et, En. unfold process_message_updated.
  cbn [mbind option_bind]. destruct (assoc_get (lit "info") _ ≫= as_object) as [info|]; [|done]. cbn [mbind option_bind].
  by destruct (str_eqb _ _ && _).
Qed.

Lemma part_state sid es e :
  is_event "message.part.updated" e = true ->
  process_message_part_updated (properties e) sid (state_after sid es) = (event_messages sid es e, state_after sid (es ++ [e])).
Proof.
  intros Et. unfold state_after, last_info, last_id. rewrite !last_more, !calls_more.
  assert (is_event "message.updated" e = false) as En.
  { unfold is_event in *. apply str_eqb_spec in Et. by rewrite Et. }
  unfold info_of. rewrite En. unfold event_messages, call_of, ended_call, part_of. rewrite Et.
  unfold process_message_part_updated. destruct (own_part _ sid) as [part|]; [|done]. cbn [mbind option_bind].
  destruct (obj_str "type" part) as [ty|]; [|done].
  destruct (str_eqb ty (lit "text")) eqn:E1.
  { apply str_eqb_spec in E1 as ->. rewrite bool_decide_true by done. cbn [mbind option_bind].
    rewrite bool_decide_false by discriminate. done. }
  assert (forall s, str_eqb ty (lit s) = bool_decide (Some ty = Some (lit s))) as Hs.
  { intros s. unfold str_eqb. apply bool_decide_ext. naive_solver. }
  rewrite <- !Hs, E1.
  destruct (str_eqb ty (lit "reasoning")) eqn:E2.
  { apply str_eqb_spec in E2 as ->. done. }
  destruct (str_eqb ty (lit "tool")) eqn:E3; [|done]. cbn [mbind option_bind]. unfold process_tool.
  destruct (obj_str "callID" part) as [id|]; [|by destruct (tool_end part)].
  cbn [seen_tool_calls completed_tool_calls latest_assistant_info last_assistant_message_id].
  rewrite !(bool_decide_ext (id ∈ list_to_set _) _ (elem_of_list_to_set id _)).
  destruct (tool_end part) as [output|]; cbn [mbind option_bind].
  - case_bool_decide as Hin; [|done]. f_equal. f_equal. apply set_eq. intros x. rewrite elem_of_union, elem_of_singleton.
    split; [auto|]. intros [->|]; [by apply elem_of_list_to_set|done].
  - by case_bool_decide.
Qed.

(** *** Every call is announced once, and told once *)

Definition announced (chunks : list MessageChunk) : list str :=
  omap (fun c => match c with Tool _ _ id => id | _ => None end) chunks.
Definition told (chunks : list MessageChunk) : list str :=
  omap (fun c => match c with ToolResult _ _ id => id | _ => None end) chunks.

(** What is new of an event after those before it. *)
Definition new_of (f : SseEvent -> option str) (before : list SseEvent) (e : SseEvent) : list str :=
  match f e with Some id => if bool_decide (id ∈ omap f before) then [] else [id] | None => [] end.
Lemma event_news sid before e :
  announced (event_messages sid before e) = new_of (call_of sid) before e
  /\ told (event_messages sid before e) = new_of (ended_call sid) before e.
Proof.
  unfold event_messages, new_of, ended_call, call_of. unfold part_of at 1 4 7.
  destruct (is_event "message.part.updated" e) eqn:Et; [|unfold part_of; by rewrite Et].
  unfold part_of. rewrite Et. destruct (own_part _ sid) as [part|]; [|done]. cbn [mbind option_bind].
  destruct (obj_str "type" part) as [ty|]; [|done].
  case_bool_decide as E1; [injection E1 as ->; rewrite !bool_decide_false by discriminate; cbn [mbind option_bind];
    by destruct (part_text _ part)|].
  case_bool_decide as E2; [injection E2 as ->; rewrite !bool_decide_false by discriminate; cbn [mbind option_bind];
    by destruct (part_text _ part)|].
  case_bool_decide as E3; [|done]. cbn [mbind option_bind].
  destruct (obj_str "callID" part) as [id|]; [|by destruct (tool_end part)]. unfold announced, told. rewrite !omap_app.
  destruct (tool_end part) as [output|]; cbn [mbind option_bind]; repeat case_bool_decide; done.
Qed.
Lemma news_once (f : SseEvent -> option str) (g : list MessageChunk -> list str) sid :
  (forall a b, g (a ++ b) = g a ++ g b) -> g [] = [] -> (forall before e, g (event_messages sid before e) = new_of f before e) ->
  forall es before, NoDup (g (messages_after sid before es))
    /\ (forall id, id ∈ g (messages_after sid before es) <-> id ∈ omap f es /\ id ∉ omap f before).
Proof.
  intros Happ H0 He. induction es as [|e es IH]; intros before; cbn [messages_after].
  { rewrite H0. split; [constructor|]. intros id. cbn [omap list_omap]. rewrite elem_of_nil. tauto. }
  rewrite Happ, He. destruct (IH (before ++ [e])) as [Hn Hin]. unfold new_of in *. rewrite omap_snoc in Hin. split.
  - apply NoDup_app. split_and!; [..|exact Hn].
    + destruct (f e); [|constructor]. case_bool_decide; [constructor|apply NoDup_singleton].
    + intros id Hid [_ Hx]%Hin. destruct (f e) as [x|]; [|by apply elem_of_nil in Hid]. case_bool_decide; [by apply elem_of_nil in Hid|].
      apply list_elem_of_singleton in Hid as ->. apply Hx, elem_of_app. right. by left.
  - intros id. rewrite elem_of_app, Hin. cbn [omap list_omap]. destruct (f e) as [x|]; cbn [option_list].
    + change (option_list (Some x)) with [x]. case_bool_decide as Hb; rewrite !elem_of_app, !elem_of_cons, !elem_of_nil.
      * destruct (decide (id = x)) as [->|]; tauto.
      * destruct (decide (id = x)) as [->|]; tauto.
    + change (option_list None) with (@nil str). rewrite app_nil_r, elem_of_nil. tauto.
Qed.

(** *** The loop *)

Definition found_cancelled (e : event oc_call) : bool :=
  match e with
  | mk_event c r =>
      match c return response c -> bool with OcCommon IsCancelled => fun r => r | _ => fun _ => false end r
  end.
Definition oc_cancelled (tr : oc_trace) : bool := existsb found_cancelled tr.

Section Loop.
Context `{SerdeJson} `{JsonErrors} `{UrlCrate}.
Context (client : OpenCodeClient).

Definition aborts (sid : str) (tr : oc_trace) : Prop :=
  ev_call <$> last tr = Some (HttpPost (request_url client (session_path sid ++ lit "/abort")) None).
(** What the loop returns when nobody cancels: by the way the session ends. *)
Definition session_result (sid : str) (before es : list SseEvent) (fin : session_end) (chunks : list MessageChunk)
    (o : outcome (result str (list MessageChunk))) : Prop :=
  match fin with
  | EndOfStream => o = Ret (Err (lit "SSE stream ended without session.idle"))
  | StreamFails e => o = Ret (Err (lit "SSE stream error: " ++ HttpClientError_display e))
  | SessionError props => o = Ret (Err (session_error_text props))
  | SessionIdle => exists structured,
      (last_id sid (before ++ es) = None -> structured = None)
      /\ o = (r ← build_result_chunk sid (last_info sid (before ++ es)) structured;
              Ret (Ok (chunks ++ messages_after sid before es ++ [ResultMsg r])))
  end.

Lemma loop_reads sid items before chunks :
  always (session_loop client sid chunks (state_after sid before) items) (fun tr o =>
    if oc_cancelled tr then o = Ret (Err (lit "aborted")) /\ aborts sid tr
    else session_result sid before (fst (until_end sid items)) (snd (until_end sid items)) chunks o).
Proof.
  revert before chunks. induction items as [|[e|e] items IH]; intros before chunks; cbn [session_loop]; intros [|];
    try (by intros r; split; [|done]); [done| |done].
  assert (Hstep : forall e' st c, st = state_after sid (before ++ [e']) ->
    e' = e -> of_other_session (properties e) sid = true \/ is_event "session.error" e = false /\ is_event "session.idle" e = false ->
    c = chunks ++ event_messages sid before e ->
    always (session_loop client sid c st items) (fun tr o =>
      if oc_cancelled (mk_event (OcCommon IsCancelled) false :: tr) then o = Ret (Err (lit "aborted")) /\ aborts sid (mk_event (OcCommon IsCancelled) false :: tr)
      else session_result sid before (fst (until_end sid (Ok e :: items))) (snd (until_end sid (Ok e :: items))) chunks o)).
  { intros e' st c -> -> Hend ->. eapply always_mono, IH. intros tr o Ho. cbv beta in Ho.
    change (oc_cancelled (_ :: tr)) with (oc_cancelled tr). destruct (oc_cancelled tr) eqn:Ec.
    - destruct Ho as [-> Ha]. split; [done|]. unfold aborts in *. by destruct tr.
    - cbn [until_end]. replace (negb _ && is_event "session.error" e) with false by (destruct Hend as [->|[-> _]]; by rewrite ?andb_false_r).
      replace (negb _ && is_event "session.idle" e) with false by (destruct Hend as [->|[_ ->]]; by rewrite ?andb_false_r).
      destruct (until_end sid items) as [es fin]. cbn [fst snd] in *. unfold session_result in *. destruct fin; [done..|].
      destruct Ho as (so & Hso & ->). rewrite <- app_assoc in Hso. exists so. split; [exact Hso|].
      rewrite <- app_assoc. cbn [app messages_after]. destruct (build_result_chunk _ _ _); [|done]. cbn. by rewrite <- !app_assoc. }
  unfold is_event in *. cbv zeta.
  destruct (str_eqb (event_type e) (lit "message.updated")) eqn:E1.
  { apply (Hstep e); [by apply updated_state|done| |].
    - right. apply str_eqb_spec in E1 as ->. done.
    - apply str_eqb_spec in E1. unfold event_messages, part_of, is_event. rewrite E1. by rewrite app_nil_r. }
  destruct (str_eqb (event_type e) (lit "message.part.updated")) eqn:E2.
  { rewrite (part_state sid before e E2). apply (Hstep e); [done|done| |done]. right. apply str_eqb_spec in E2 as ->. done. }
  assert (Hsame : state_after sid before = state_after sid (before ++ [e]) /\ event_messages sid before e = []).
  { unfold state_after, last_info, last_id. rewrite !last_more, !calls_more. unfold call_of, ended_call, event_messages, part_of, info_of, is_event.
    by rewrite E1, E2. }
  destruct Hsame as [Hst Hm].
  destruct (str_eqb (event_type e) (lit "session.error")) eqn:E3.
  { destruct (of_other_session (properties e) sid) eqn:Eo.
    - apply (Hstep e); [done|done|by left|by rewrite Hm, app_nil_r].
    - cbn [always]. change (oc_cancelled [mk_event (OcCommon IsCancelled) false]) with false. cbv iota. cbn [until_end].
      unfold is_event. rewrite Eo, E3. done. }
  destruct (str_eqb (event_type e) (lit "session.idle")) eqn:E4.
  2:{ apply (Hstep e); [done|done|by right|by rewrite Hm, app_nil_r]. }
  destruct (of_other_session (properties e) sid) eqn:Eo.
  { apply (Hstep e); [done|done|by left|by rewrite Hm, app_nil_r]. }
  cbn [until_end]. unfold is_event. rewrite Eo, E3, E4. cbn [negb andb fst snd].
  assert (Hend : forall so, (last_id sid before = None -> so = None) ->
    session_result sid before [] SessionIdle chunks (r ← build_result_chunk sid (last_info sid before) so; Ret (Ok (chunks ++ [ResultMsg r])))).
  { intros so Hso. exists so. rewrite app_nil_r. by split. }
  unfold read_structured_output, state_after. cbn [last_assistant_message_id latest_assistant_info].
  destruct (last_id sid before) as [id|] eqn:Ei.
  - intros r. cbn [mbind proc_bind].
    set (so := match json_or_error r with Ok _ => _ | Err _ => _ end). specialize (Hend so).
    destruct (build_result_chunk sid _ so) as [rc|]; apply Hend; done.
  - cbn [mbind proc_bind]. specialize (Hend None). destruct (build_result_chunk sid _ None) as [rc|]; by apply Hend.
Qed.

(** C33: A session, read from whatever events its server sends: if it is found cancelled it is
    aborted, last of all, and says so; if the stream ends, fails, or has an error of the
    session, that is the error; and when the session is idle, what was read is what its
    own events say, in order, and the one result after them, with the last information on
    the answer, and structured output only if an answer has an identifier.  Each call of a
    tool is announced once, by the first event about it, and its output told once, by the
    first that ends it; what events say of other sessions is passed over. *)
Theorem session_reads (sid : str) (items : list item) :
  let es := fst (until_end sid items) in
  let chunks := session_messages sid es in
  always (session_loop client sid [] fresh_session items) (fun tr o =>
    if oc_cancelled tr then o = Ret (Err (lit "aborted")) /\ aborts sid tr
    else session_result sid [] es (snd (until_end sid items)) [] o)
  /\ NoDup (announced chunks) /\ NoDup (told chunks)
  /\ (forall id, id ∈ announced chunks <-> id ∈ omap (call_of sid) es)
  /\ (forall id, id ∈ told chunks <-> id ∈ omap (ended_call sid) es).
Proof.
  intros es chunks. split; [apply (loop_reads sid items [] [])|].
  destruct (news_once (call_of sid) announced sid) with (es := es) (before := @nil SseEvent) as [Ha Hb];
    [intros; apply omap_app|done|intros; apply event_news|].
  destruct (news_once (ended_call sid) told sid) with (es := es) (before := @nil SseEvent) as [Hc Hd];
    [intros; apply omap_app|done|intros; apply event_news|].
  assert (forall id, id ∉ @nil str) as Hnil by (intros id; apply not_elem_of_nil).
  split_and!; [exact Ha|exact Hc| |]; intros id; specialize (Hnil id).
  - specialize (Hb id). unfold chunks, session_messages. tauto.
  - specialize (Hd id). unfold chunks, session_messages. tauto.
Qed.
End Loop.

(** ** Concrete events *)

Definition idle_event : object := [key "type" (String (lit "session.idle")); key "properties" (Object [key "sessionID" (String (lit "s1"))])].
Definition part_event (text : str) : object :=
  [key "type" (String (lit "message.part.updated"));
   key "properties" (Object [key "part" (Object [key "sessionID" (String (lit "s1")); key "type" (String (lit "text"));
                                                 key "text" (String text)])])].
Program Definition events_json : SerdeJson := {|
  from_str := fun s => if is_empty s then None else assoc_get s [(lit "{i}", Object idle_event); (lit "{é}", Object (part_event (lit "é")))];
  to_string := fun v =>
    match v with
    | Null => lit "null"
    | Object o => if bool_decide (obj_str "type" o = Some (lit "session.idle")) then lit "{i}" else lit "{é}"
    | _ => []
    end;
  number_to_string := fun _ => [];
|}.
Solve Obligations with done.
Definition events_errors : JsonErrors := {| parse_message := fun _ => lit "bad"; str_debug := fun s => s |}.

Lemma event_ok_sample (o : object) :
  o ∈ [idle_event; part_event (lit "é")] -> @event_ok events_json o.
Proof.
  rewrite !elem_of_cons, elem_of_nil. intros [->|[->|[]]]; (split; [split; [by vm_compute|split; [|by_compute]]|by_compute]);
    apply plain_text; by_compute.
Qed.
(** A frame is cut in two, and two frames come together. *)
Lemma events_round_trip_witness :
  @sse_events events_json events_errors
    (map (fun c => Ok (as_bytes c)) [lit "data: {"; lit "é}" ++ [10%N]; [10%N] ++ lit "data: {i}" ++ frame_end])
  = [Ok (sse_event_of (part_event (lit "é"))); Ok (sse_event_of idle_event)].
Proof.
  apply (@events_round_trip events_json events_errors [part_event (lit "é"); idle_event]); [|by_compute].
  apply Forall_forall. intros o Ho. apply event_ok_sample. set_solver.
Defined.

(** A character that is cut in two is lost, and the event with it. *)
Example cut_character :
  @sse_events events_json events_errors
    [Ok (as_bytes (lit "data: {") ++ [195%N]); Ok ([169%N] ++ as_bytes (lit "}" ++ frame_end))]
  = [Err (SseParse (lit "bad: {" ++ replacement ++ replacement ++ lit "}"))].
Proof. by_compute. Qed.
(** Frames that end with carriage returns are never seen, nor the last one without its end;
    a field needs its space. *)
Example unseen_frames :
  @sse_events events_json events_errors [Ok (as_bytes (lit "data: {i}" ++ [13; 10; 13; 10]%N))] = []
  /\ @sse_events events_json events_errors [Ok (as_bytes (lit "data: {i}" ++ [10%N]))] = []
  /\ @sse_events events_json events_errors [Ok (as_bytes (lit "data:{i}" ++ frame_end))] = [].
Proof. split_and!; by_compute. Qed.
Example removed_type :
  swap_remove (lit "b") [key "a" Null; key "b" Null; key "c" Null; key "d" Null] = [key "a" Null; key "d" Null; key "c" Null].
Proof. by_compute. Qed.

(** Two sessions on one server: the first reads what is its own. *)
Definition tool_event (sid id status : string) : SseEvent :=
  mk_SseEvent (lit "message.part.updated")
    [key "part" (Object [key "sessionID" (String (lit sid)); key "type" (String (lit "tool")); key "callID" (String (lit id));
       key "tool" (String (lit "read"));
       key "state" (Object [key "status" (String (lit status)); key "output" (String (lit "text"))])])].
Definition sample_items : list item :=
  [Ok (tool_event "s1" "c1" "running"); Ok (tool_event "s2" "c2" "completed");
   Ok (mk_SseEvent (lit "session.idle") [key "sessionID" (String (lit "s2"))]);
   Ok (tool_event "s1" "c1" "completed"); Ok (tool_event "s1" "c1" "completed"); Ok (sse_event_of (part_event (lit "done")));
   Ok (sse_event_of idle_event); Ok (sse_event_of (part_event (lit "late")))].
Example two_sessions :
  session_messages (lit "s1") (fst (until_end (lit "s1") sample_items))
  = [Tool (lit "read") None (Some (lit "c1")); ToolResult (lit "read") (lit "text") (Some (lit "c1")); Assistant (lit "done") None]
  /\ snd (until_end (lit "s1") sample_items) = SessionIdle.
Proof. split; by_compute. Qed.
