(* ===== verification/OpencodeProvider.v ===== *)
(** * The OpenCode provider

    [runtime.rs] and [provider.rs] of [har-provider/src/opencode]: the server that queries
    share, started at need and counted; and a query, from its options to its last message,
    in at most three attempts.

    The cell of the runtime is locked from [GetRuntime] to the end of the function, so that
    no other query comes between; the directory for the configuration lives as long as the
    runtime.  The pipes of the server are always there.  The commands for a process on a
    port are those of Unix. *)
From S2P Require Import Prelude StdModel Float64 Json Regex Paths Provider CliStream AgentProc CopilotSession.
From S2P Require Import JsonRpc StructuredOutput OpencodeParts OpencodeSession.

Definition OPENCODE_START_TIMEOUT_MS : N := 5000.
Definition OPENCODE_START_MAX_RETRIES : nat := 3.

(** ** The runtime ([runtime.rs]) *)

Inductive RuntimeError : Type :=
| RtAborted
| SpawnFailed (e : str)
| StartupTimeout (ms : N)
| PortConflict
| ProcessExited (e : str)
| UrlParseFailed (url : str)
| MaxRetriesExceeded.
Definition RuntimeError_display (e : RuntimeError) : str :=
  match e with
  | RtAborted => lit "OpenCode runtime startup aborted"
  | SpawnFailed e => lit "Failed to spawn opencode binary: " ++ e
  | StartupTimeout ms => lit "OpenCode server startup timed out after " ++ show_N ms ++ lit "ms"
  | PortConflict => lit "Port conflict, retry needed"
  | ProcessExited e => lit "OpenCode process exited unexpectedly: " ++ e
  | UrlParseFailed url => lit "Failed to parse server URL: " ++ url
  | MaxRetriesExceeded => lit "Max retries exceeded starting OpenCode"
  end.

Definition hex_encode (bs : bytes) : str := flat_map hex_byte bs.
Definition build_embedded_server_config (startup_port : N) (password : bytes) : object :=
  [key "server" (Object [key "hostname" (String (lit "127.0.0.1")); key "port" (Number (PosInt startup_port));
                         key "password" (String (hex_encode password))])].

(** [on\s+(https?://\S+)] *)
Definition not_whitespace (c : char) : bool := negb (is_whitespace c).
Definition LISTEN_URL_RE : regex :=
  RSeqs [RStr (lit "on"); RPlus (RClass is_whitespace);
         RGroup 1 (RSeqs [RStr (lit "http"); ROpt (RChar 115); RStr (lit "://"); RPlus (RClass not_whitespace)])].
Definition no_slashes (s : str) : str := StructuredOutput.trim_end_matches (N.eqb 47) s.

(** The variables of the process that the server is given. *)
Definition var_or_empty (k : string) : oc str := v ← act (GetVar (lit k)); Done (default [] v).
Definition stderr_text (lines : list str) : str := flat_map (fun l => l ++ [10%N]) lines.
Definition parse_u32 (s : str) : option N := n ← parse_u64 s; if (n <=? u32_max)%N then Some n else None.

Section Runtime.
Context `{RegexEngine} `{UnicodeCase} `{SerdeJson} `{UrlCrate}.

Definition is_port_bind_conflict (message : str) : bool :=
  let lower := to_lowercase message in
  contains (lit "eaddrinuse") lower || contains (lit "address already in use") lower
  || contains (lit "failed to start server on port") lower || contains (lit "port 4096") lower.

(** The URL in a line of the server. *)
Definition line_url (line : str) : option str :=
  if contains (lit "opencode server listening") line then
    match captures LISTEN_URL_RE line with
    | Some m => Some (no_slashes (default [] (group 1 m)))
    | None => no_slashes <$> List.find (starts_with (lit "http")) (split_whitespace line)
    end
  else None.
Definition listening_url (lines : list str) : option str := head (omap line_url lines).

Definition serve_args (port : N) : list str :=
  [lit "serve"; lit "--hostname=127.0.0.1"; lit "--port=" ++ show_N port].
Definition start_failure (stderr : str) : RuntimeError :=
  if is_port_bind_conflict stderr then PortConflict
  else ProcessExited (if is_empty stderr then lit "stdout closed before server ready" else stderr).

(** From the start of the server to its URL, in at most so many attempts. *)
Fixpoint start_runtime (attempts : nat) (last_err : RuntimeError) : oc (result RuntimeError str) :=
  match attempts with
  | O => Done (Err last_err)
  | S attempts =>
      port ← act RandomPort;
      password ← act RandomPassword;
      tempdir ← (act NewTempDir : oc (result io.Error str));
      match tempdir with
      | Err e => start_runtime attempts (SpawnFailed (lit "tempdir: " ++ io.text e))
      | Ok tempdir =>
          path ← var_or_empty "PATH";
          home ← var_or_empty "HOME";
          spawned ← (act (Serve (serve_args port)
                       [(lit "PATH", path); (lit "HOME", home);
                        (lit "OPENCODE_CONFIG_CONTENT", to_string (Object (build_embedded_server_config port password)));
                        (lit "XDG_CONFIG_HOME", tempdir)]) : oc (result io.Error unit));
          match spawned with
          | Err e =>
              if io.is_not_found e then Done (Err (SpawnFailed (lit "opencode binary not found on PATH: " ++ io.text e)))
              else start_runtime attempts (SpawnFailed (io.text e))
          | Ok _ =>
              out ← act (ServeLines OPENCODE_START_TIMEOUT_MS);
              match listening_url (serve_lines out) with
              | Some url =>
                  if bool_decide (url_port url = None) && negb (starts_with (lit "http") url) then
                    _ ← act KillServe;
                    start_runtime attempts (UrlParseFailed url)
                  else
                    _ ← act (SetRuntime (Some (mk_EmbeddedRuntime url 1)));
                    Done (Ok url)
              | None =>
                  if serve_elapsed out then
                    _ ← act KillServe;
                    start_runtime attempts (StartupTimeout OPENCODE_START_TIMEOUT_MS)
                  else
                    stderr ← act (ServeStderr 200);
                    _ ← act KillServe;
                    start_runtime attempts (start_failure (stderr_text stderr))
              end
          end
      end
  end.

(** The URL of the server. *)
Definition acquire_embedded_runtime (aborted : bool) : oc (result RuntimeError str) :=
  if aborted then Done (Err RtAborted)
  else
    current ← act GetRuntime;
    match current with
    | Some (mk_EmbeddedRuntime url (Npos n)) =>
        if (Npos n <? u32_max)%N then
          _ ← act (SetRuntime (Some (mk_EmbeddedRuntime url (Npos n + 1)%N)));
          Done (Ok url)
        else Halt
    | _ => start_runtime OPENCODE_START_MAX_RETRIES MaxRetriesExceeded
    end.

Definition find_process_by_port (port : N) : oc (option N) :=
  output ← act (PidOnPort port); Done (s ← output; parse_u32 (trim s)).
Definition release_embedded_runtime_for_url (url : str) : oc unit :=
  current ← act GetRuntime;
  match current with
  | None => Done tt
  | Some state =>
      let count := if str_eqb (server_url state) url && (0 <? ref_count state)%N then (ref_count state - 1)%N else ref_count state in
      if (count =? 0)%N then
        _ ← act KillServe;
        _ ← match url_port url with
            | None => Done tt
            | Some port =>
                found ← find_process_by_port port;
                match found with Some pid => act (KillPid pid) | None => Done tt end
            end;
        act (SetRuntime None)
      else act (SetRuntime (Some (mk_EmbeddedRuntime (server_url state) count)))
  end.
Definition reset_embedded_runtime : oc unit := act (SetRuntime None).
End Runtime.

(** ** The query ([provider.rs]) *)

Definition MAX_RETRIES : nat := 3.
Definition OC_RETRY_BASE_DELAY_MS : N := 2000.

Definition oc_error_in (sid : option str) (subtype error : str) : MessageChunk :=
  ResultMsg (mk_ResultChunk sid None None (Some true) (Some subtype) (Some [error]) None None None None).
Definition oc_error : str -> str -> MessageChunk := oc_error_in None.
Definition oc_say (chunks : list MessageChunk) : oc unit := oc_common (yield_all chunks).
Definition is_cancelled : oc bool := act (OcCommon IsCancelled).
(** The pause doubles; a product of more than 64 bits panics. *)
Definition oc_pause (base : N) (attempt : nat) : oc unit :=
  if (delay base attempt <=? u64_max)%N then act (OcCommon (SleepMs (delay base attempt))) else Halt.

Definition invalid_model_ref (mref : str) : str :=
  lit "Invalid OpenCode model ref: '" ++ mref
  ++ lit "'. Expected format '<provider>/<model>' (for example 'anthropic/claude-3-5-sonnet').".
Definition model_required : str :=
  lit "OpenCode requires a model to be specified. Set model in assistants config (e.g., model: anthropic/claude-3-5-sonnet).".
Definition external_base_url : str :=
  lit "OpenCode external baseUrl mode is no longer supported. Archon now requires managed embedded OpenCode runtime for fully controlled agent lifecycle.".
Definition not_resumed_warning : MessageChunk :=
  System (lit "Could not resume previous session; starting a new session.").

(** How an attempt ends: the query is over, or there may be another one, after an error. *)
Inductive attempt_end : Type := Finished | Again (last_error : str) (recovered_agent_not_found : bool).

Section Query.
Context `{RegexEngine} `{HashMapOrder} `{UnicodeCase} `{SerdeJson} `{JsonErrors} `{UrlCrate}.
Context (base_delay : N).

Definition retried (c : RetryableErrorClass) : bool := match c with OcRateLimit | OcCrash => true | _ => false end.
(** The class of an error, once it is known whether the query is cancelled. *)
Definition classified (e : str) : oc RetryableErrorClass :=
  aborted ← is_cancelled; Done (classify_opencode_error (build_error_combined e) aborted).

Section Attempts.
Context (prompt : str) (model : ProviderModel) (resume_session_id : option str) (options : option SendQueryOptions)
  (session_cwd : str).

Definition node_agents : option (gmap str InlineAgentDefinition) := o ← options; nc ← so_node_config o; nc_agents nc.
Definition has_agent_config : bool :=
  negb (is_empty (get_ordered_agents (o ← options; so_node_config o))).

(** The agents of the node, and a server that reads them again. *)
Definition prepare_agents (client : OpenCodeClient) : oc unit :=
  if has_agent_config then
    _ ← match node_agents with
        | Some agents => _ ← on_files (materialize_agents session_cwd agents); Done tt
        | None => Done tt
        end;
    _ ← dispose_instance client;
    Done tt
  else Done tt.

(** After an error that another attempt may mend; the last one is not paused for. *)
Definition mend (attempt : nat) (retry : bool) (e : str) (c : RetryableErrorClass) (recovered : bool) : oc attempt_end :=
  let enriched := enrich_opencode_error e c in
  if negb retry || Nat.leb (MAX_RETRIES - 1) attempt then
    _ ← oc_say [oc_error (RetryableErrorClass_display c) enriched];
    Done Finished
  else
    _ ← oc_pause base_delay attempt;
    Done (Again enriched recovered).

Definition converse (client : OpenCodeClient) (attempt : nat) (recovered : bool) (sid : str) : oc attempt_end :=
  match create_session_prompt_body prompt model options None with
  | Err e => _ ← oc_say [oc_error (lit "prompt_build_failed") e]; Done Finished
  | Ok body =>
      r ← stream_opencode_session client sid body;
      match r with
      | Ok session_chunks => _ ← oc_say session_chunks; Done Finished
      | Err e =>
          if str_eqb e (lit "aborted") then
            _ ← oc_say [oc_error_in (Some sid) (lit "aborted") (lit "OpenCode query aborted")];
            Done Finished
          else
            c ← classified e;
            let agent_not_found := bool_decide (c = OcAgentNotFound) in
            mend attempt (retried c || agent_not_found && has_agent_config && negb recovered) e c (recovered || agent_not_found)
      end
  end.

Definition with_server (attempt : nat) (recovered : bool) (url : str) : oc attempt_end :=
  let client := client_for url session_cwd in
  _ ← prepare_agents client;
  r ← resolve_session_id client resume_session_id;
  match r with
  | Err e => c ← classified e; mend attempt (retried c) e c recovered
  | Ok session =>
      _ ← oc_say (if bool_decide (resume_session_id <> None) && negb (resumed session) then [not_resumed_warning] else []);
      converse client attempt recovered (session_id session)
  end.

Definition one_attempt (attempt : nat) (recovered : bool) : oc attempt_end :=
  cancelled ← is_cancelled;
  if cancelled : bool then _ ← oc_say [oc_error (lit "aborted") (lit "OpenCode query aborted")]; Done Finished
  else
    cancelled ← is_cancelled;
    runtime ← acquire_embedded_runtime cancelled;
    match runtime with
    | Err RtAborted => _ ← oc_say [oc_error (lit "aborted") (lit "OpenCode runtime startup aborted")]; Done Finished
    | Err (SpawnFailed msg) =>
        _ ← oc_say [oc_error (lit "opencode_binary_not_found") (lit "Failed to start OpenCode: " ++ msg)]; Done Finished
    | Err PortConflict => Done (Again (lit "Port conflict") recovered)
    | Err e => _ ← oc_say [oc_error (lit "runtime_start_failed") (RuntimeError_display e)]; Done Finished
    | Ok url => with_server attempt recovered url
    end.

Definition retries_exhausted (last_error : option str) : str :=
  default (lit "OpenCode query failed after " ++ show_nat MAX_RETRIES ++ lit " retries") last_error.
Fixpoint run_attempts (n attempt : nat) (last_error : option str) (recovered : bool) : oc unit :=
  match n with
  | O => oc_say [oc_error (lit "retries_exhausted") (retries_exhausted last_error)]
  | S n =>
      r ← one_attempt attempt recovered;
      match r with
      | Finished => Done tt
      | Again e recovered => run_attempts n (S attempt) (Some e) recovered
      end
  end.
End Attempts.

(** Where a query works: in a directory of its node when that has agents. *)
Definition session_cwd_of (cwd : str) (options : option SendQueryOptions) : str :=
  match (o ← options; nc ← so_node_config o; nc_node_id nc) with
  | Some nid => if has_agent_config options then path_join (path_join cwd (lit ".archon-opencode")) nid else cwd
  | None => cwd
  end.

Definition oc_send_query (prompt cwd : str) (resume_session_id : option str) (options : option SendQueryOptions) : oc unit :=
  let config := parse_opencode_config (default ∅ (options ≫= so_assistant_config)) in
  match (match options ≫= so_model with Some m => Some m | None => oc_model config end) with
  | None => oc_say [oc_error (lit "model_required") model_required]
  | Some mref =>
      match parse_model_ref mref with
      | None => oc_say [oc_error (lit "invalid_model_ref") (invalid_model_ref mref)]
      | Some model =>
          match oc_base_url config with
          | Some _ => oc_say [oc_error (lit "external_base_url_unsupported") external_base_url]
          | None => run_attempts prompt model resume_session_id options (session_cwd_of cwd options) MAX_RETRIES 0 None false
          end
      end
  end.
End Query.

(** * What a query to OpenCode guarantees *)

(** ** The steps of a query *)

Inductive oc_life : Type :=
| Said (chunk : MessageChunk)
| Paused (ms : N)
| Started (args : list str)
| Subscribed
| Posted (url : str) (body : value).

Definition oc_life_of (e : event oc_call) : option oc_life :=
  match e with
  | mk_event c r =>
      match c return response c -> option oc_life with
      | OcCommon (Yield chunk) => fun _ => Some (Said chunk)
      | OcCommon (SleepMs ms) => fun _ => Some (Paused ms)
      | Serve args _ => fun _ => Some (Started args)
      | OpenEvents _ => fun _ => Some Subscribed
      | HttpPost url (Some body) => fun _ => Some (Posted url body)
      | _ => fun _ => None
      end r
  end.
Abbreviation shows := (Process.shows oc_life_of).
Abbreviation hidden := (Process.hidden oc_life_of).

Definition is_start (l : oc_life) : bool := match l with Started _ => true | _ => false end.
Definition is_result (l : oc_life) : bool := match l with Said (ResultMsg _) => true | _ => false end.

(** What an attempt may do on its way, in this order: start servers, at most three; make a
    session; say that the old one could not be resumed; subscribe to the events; and only
    then send the prompt, once. *)
Inductive on_the_way (resume : bool) (body : option object) : list oc_life -> Prop :=
| way starts make warn talk client :
    forallb is_start starts = true -> length starts <= OPENCODE_START_MAX_RETRIES ->
    make ∈ [[]; [Posted client (Object [])]] ->
    warn = [] \/ resume = true /\ warn = [Said not_resumed_warning] ->
    talk = [] \/ talk = [Subscribed] \/ (exists url b, body = Some b /\ talk = [Subscribed; Posted url (Object b)]) ->
    on_the_way resume body (starts ++ make ++ warn ++ talk).

(** From an attempt on: it ends with its messages, of which the last is the result; or with
    a panic; or there is another one, after a pause, or at once when no server could be
    started; after the last there is one result. *)
Inductive attempts_life (resume : bool) (body : option object) (base : N) : nat -> list oc_life -> outcome unit -> Prop :=
| al_result a t cs r : a < MAX_RETRIES -> on_the_way resume body t -> existsb is_result (map Said cs) = false ->
    attempts_life resume body base a (t ++ map Said cs ++ [Said (ResultMsg r)]) (Ret tt)
| al_panic a t : a < MAX_RETRIES -> on_the_way resume body t -> attempts_life resume body base a t Panic
| al_again a t l o : S a < MAX_RETRIES -> on_the_way resume body t -> attempts_life resume body base (S a) l o ->
    attempts_life resume body base a (t ++ [Paused (delay base a)] ++ l) o
| al_no_port a t l o : a < MAX_RETRIES -> forallb is_start t = true -> length t <= OPENCODE_START_MAX_RETRIES ->
    attempts_life resume body base (S a) l o -> attempts_life resume body base a (t ++ l) o
| al_exhausted r : attempts_life resume body base MAX_RETRIES [Said (ResultMsg r)] (Ret tt).

(** ** The parts *)

Lemma oc_say_shows chunks : shows (oc_say chunks) (fun l o => l = map Said chunks /\ o = Ret tt).
Proof.
  unfold oc_say, oc_common. induction chunks as [|c chunks IH]; [by apply shows_done|]. intros r.
  eapply always_mono, IH. intros tr o [E ->]. unfold observed in *. cbn. by rewrite E.
Qed.
Lemma shows_oc_say {B} chunks (f : unit -> oc B) (R : list oc_life -> outcome B -> Prop) :
  shows (f tt) (fun l o => R (map Said chunks ++ l) o) -> shows (oc_say chunks ≫= f) R.
Proof.
  intros Hf. eapply shows_bind; [apply oc_say_shows|by intros k [_ ?]|]. intros k [] [-> _]. exact Hf.
Qed.

Lemma hidden_act c : (forall r, oc_life_of (mk_event c r) = None) -> hidden (act c).
Proof. apply hidden_ask. Qed.
Lemma hidden_files {A} (p : files A) : gives p (fun _ => True) -> hidden (on_files p).
Proof.
  intros Hg. apply always_lift. eapply always_mono, Hg. intros tr o (a & -> & _) tr' Htr. split; [|done].
  unfold observed. induction Htr as [|e e' tr tr' (c & r & -> & ->) _ IH]; [done|]. exact IH.
Qed.
Lemma materialize_gives `{HashMapOrder} `{UnicodeCase} `{SerdeJson} cwd agents : gives (materialize_agents cwd agents) (fun _ => True).
Proof.
  assert (forall paths, gives (remove_files paths) (fun _ => True)) as Hr.
  { induction paths as [|p paths IH]; [by apply gives_done|]. apply gives_then; [by intros r0; exists r0|by intros]. }
  assert (forall fs, gives (write_files fs) (fun _ => True)) as Hw.
  { induction fs as [|[p t] fs IH]; [by apply gives_done|]. apply gives_then; [by intros r0; exists r0|].
    intros r. apply gives_then; [exact IH|]. intros rest. by apply gives_done. }
  unfold materialize_agents, try. apply gives_then; [by intros r0; exists r0|]. intros [[]|e]; [|by apply gives_done].
  apply gives_then; [|intros [[]|e]; [apply Hw|by apply gives_done]].
  unfold remove_stale. apply gives_then; [by intros r0; exists r0|]. intros [entries|e]; [|by apply gives_done].
  destruct (read_entries entries); [|by apply gives_done]. apply gives_then; [apply Hr|]. intros. by apply gives_done.
Qed.

Section Parts.
Context `{RegexEngine} `{HashMapOrder} `{UnicodeCase} `{SerdeJson} `{JsonErrors} `{UrlCrate}.

Lemma hidden_var k : hidden (var_or_empty k).
Proof. apply hidden_bind; [by apply hidden_act|]. intros. apply hidden_done. Qed.

(** Servers are started, at most so many. *)
Definition starting {A} (n : nat) (p : oc A) : Prop :=
  shows p (fun l o => forallb is_start l = true /\ length l <= n).
Lemma starting_hidden {A B} n (p : oc A) (f : A -> oc B) :
  hidden p -> (forall a, starting n (f a)) -> starting n (p ≫= f).
Proof. apply shows_hidden. Qed.
Lemma start_starting n err : starting n (start_runtime n err).
Proof.
  revert err. induction n as [|n IH]; intros err; [by apply shows_done|]. cbn [start_runtime].
  assert (IH' : forall err, starting (S n) (start_runtime n err)).
  { intros e. eapply shows_mono, IH. intros l o [? ?]. split; [done|lia]. }
  apply starting_hidden; [by apply hidden_act|]. intros port. apply starting_hidden; [by apply hidden_act|]. intros password.
  apply starting_hidden; [by apply (hidden_act NewTempDir)|]. intros [dir|e]; [|apply IH'].
  apply starting_hidden; [apply hidden_var|]. intros path. apply starting_hidden; [apply hidden_var|]. intros home.
  refine (shows_call oc_life_of (Serve _ _) _ _ _). intros spawned. cbn [oc_life_of option_list app].
  eapply shows_mono with (R := fun l o => forallb is_start l = true /\ length l <= n).
  { intros l o [? ?]. split; [done|]. change (S (length l) <= S n). lia. }
  destruct spawned as [[]|e]; [|destruct (io.is_not_found e); [apply shows_done; split; [done|cbn [length]; lia]|apply IH]].
  apply starting_hidden; [by apply hidden_act|]. intros out. destruct (listening_url _) as [url|].
  - destruct (bool_decide _ && _); (apply starting_hidden; [by apply hidden_act|]); intros []; [apply IH|].
    apply shows_done. split; [done|]. cbn [length]. lia.
  - destruct (serve_elapsed out).
    + apply starting_hidden; [by apply hidden_act|]. intros []. apply IH.
    + apply starting_hidden; [by apply hidden_act|]. intros stderr. apply starting_hidden; [by apply hidden_act|]. intros []. apply IH.
Qed.
Lemma acquire_starting aborted : starting OPENCODE_START_MAX_RETRIES (acquire_embedded_runtime aborted).
Proof.
  unfold acquire_embedded_runtime. destruct aborted; [apply shows_done; split; [done|apply Nat.le_0_l]|].
  apply starting_hidden; [by apply hidden_act|]. intros [[url [|n]]|]; [apply start_starting| |apply start_starting].
  destruct (_ <? _)%N; [|split; [done|apply Nat.le_0_l]]. apply starting_hidden; [by apply hidden_act|].
  intros []. apply shows_done. split; [done|apply Nat.le_0_l].
Qed.

Lemma prepare_hidden options cwd client : hidden (prepare_agents options cwd client).
Proof.
  unfold prepare_agents. destruct (has_agent_config options); [|apply hidden_done]. apply hidden_bind.
  - destruct (node_agents options) as [agents|]; [|apply hidden_done]. apply hidden_bind; [|intros; apply hidden_done].
    apply hidden_files, materialize_gives.
  - intros []. apply hidden_bind; [|intros; apply hidden_done]. apply hidden_bind; [|intros; apply hidden_done].
    by apply (hidden_act (HttpPost _ None)).
Qed.

Lemma resolve_shows client resume :
  shows (resolve_session_id client resume) (fun l o => (exists url, l ∈ [[]; [Posted url (Object [])]]) /\ o <> Panic).
Proof.
  assert (shows (created_session client) (fun l o => (exists url, l ∈ [[]; [Posted url (Object [])]]) /\ o <> Panic)) as Hc.
  { unfold created_session, create_session. intros r. split; [|done]. eexists. right. by left. }
  destruct resume as [id|]; [|exact Hc]. eapply shows_hidden; [apply hidden_bind; [by apply hidden_act|intros; apply hidden_done]|].
  intros [v|e]; [|exact Hc]. destruct (session_id_of v); [exact Hc|]. apply shows_done. split; [exists []; by left|done].
Qed.

(** The messages of a session: a result, last. *)
Lemma session_loop_shows client sid chunks st items :
  shows (session_loop client sid chunks st items)
    (fun l o => l = [] /\ forall cs, o = Ret (Ok cs) ->
       existsb is_result (map Said chunks) = false -> exists cs' r, cs = cs' ++ [ResultMsg r] /\ existsb is_result (map Said cs') = false).
Proof.
  revert chunks st. induction items as [|[e|e] items IH]; intros chunks st; cbn [session_loop];
    (eapply shows_hidden; [by apply hidden_act|]); (intros [|];
      [eapply shows_hidden; [apply hidden_bind; [by apply (hidden_act (HttpPost _ None))|intros; apply hidden_done]|]; intros; by apply shows_done|]);
    [by apply shows_done| |by apply shows_done].
  cbv zeta. destruct (str_eqb _ (lit "message.updated")); [apply IH|].
  destruct (str_eqb _ (lit "message.part.updated")).
  { destruct (process_message_part_updated _ _ _) as [new st'] eqn:Ep. eapply shows_mono, IH. intros l o [-> Ho]. split; [done|].
    intros cs E Hcs. apply (Ho cs E). rewrite map_app, existsb_app, Hcs. cbn [orb].
    unfold process_message_part_updated, process_tool in Ep. repeat case_match; simplify_eq; done. }
  destruct (str_eqb _ (lit "session.error")).
  { destruct (of_other_session _ _); [apply IH|by apply shows_done]. }
  destruct (str_eqb _ (lit "session.idle")); [|apply IH]. destruct (of_other_session _ _); [apply IH|].
  eapply shows_hidden.
  { unfold read_structured_output. destruct (last_assistant_message_id st); [|apply hidden_done].
    apply hidden_bind; [apply hidden_bind; [by apply hidden_act|intros; apply hidden_done]|intros; apply hidden_done]. }
  intros so. destruct (build_result_chunk _ _ _) as [r|]; [|by split]. split; [done|]. intros cs [= <-] Hcs. by exists chunks, r.
Qed.

Lemma stream_shows client sid body :
  shows (stream_opencode_session client sid body)
    (fun l o => (l = [Subscribed] \/ exists url, l = [Subscribed; Posted url (Object body)])
       /\ forall cs, o = Ret (Ok cs) -> exists cs' r, cs = cs' ++ [ResultMsg r] /\ existsb is_result (map Said cs') = false).
Proof.
  unfold stream_opencode_session, subscribe_events. apply shows_assoc. refine (shows_call oc_life_of (OpenEvents _) _ _ _).
  intros r. cbn [oc_life_of option_list app mbind proc_bind].
  match goal with |- Process.shows _ (match ?x with Ok _ => _ | Err _ => _ end) _ => destruct x as [items|e] end.
  2:{ apply shows_done. split; [by left|by intros]. }
  unfold prompt_async. apply shows_assoc. refine (shows_call oc_life_of (HttpPost _ (Some _)) _ _ _).
  intros resp. cbn [oc_life_of option_list app mbind proc_bind]. destruct (unit_or_error resp) as [[]|e].
  - eapply shows_mono, session_loop_shows. intros l o [-> Ho]. split; [right; by eexists|]. intros cs E. by apply (Ho cs E).
  - apply shows_done. split; [right; by eexists|by intros].
Qed.
End Parts.

(** ** Attempts *)

Section Attempts.
Context `{RegexEngine} `{HashMapOrder} `{UnicodeCase} `{SerdeJson} `{JsonErrors} `{UrlCrate}.
Context (base : N) (prompt : str) (model : ProviderModel) (resume : option str) (options : option SendQueryOptions) (cwd : str).

(** The body of every prompt, unless a model of an agent is invalid. *)
Definition query_body : option object := ok (create_session_prompt_body prompt model options None).
Definition resuming : bool := bool_decide (resume <> None).
Definition talk_ok (talk : list oc_life) : Prop :=
  talk = [] \/ talk = [Subscribed] \/ (exists url b, query_body = Some b /\ talk = [Subscribed; Posted url (Object b)]).
(** What follows once nothing more is asked for. *)
Definition attempt_ends (a : nat) (l : list oc_life) (o : outcome attempt_end) : Prop :=
  match o with
  | Panic => l = []
  | Ret Finished => exists cs r, l = map Said cs ++ [Said (ResultMsg r)] /\ existsb is_result (map Said cs) = false
  | Ret (Again _ _) => l = [Paused (delay base a)] /\ S a < MAX_RETRIES
  end.

Lemma finished_shows a chunks r :
  existsb is_result (map Said chunks) = false ->
  shows (_ ← oc_say (chunks ++ [ResultMsg r]); Done Finished) (attempt_ends a).
Proof.
  intros Hc. apply shows_oc_say, shows_done. exists chunks, r. split; [|done]. by rewrite app_nil_r, map_app.
Qed.
Lemma mend_shows a retry e c recovered : shows (mend base a retry e c recovered) (attempt_ends a).
Proof.
  unfold mend. destruct (negb retry || _) eqn:E; [by apply (finished_shows a [])|].
  apply orb_false_iff in E as [_ E%Nat.leb_gt]. unfold oc_pause. destruct (_ <=? _)%N; [|done].
  refine (shows_call oc_life_of (OcCommon (SleepMs _)) _ _ _). intros []. split; [done|]. unfold MAX_RETRIES in *. lia.
Qed.
Lemma classified_hidden e : hidden (classified e).
Proof. apply hidden_bind; [by apply hidden_act|]. intros. apply hidden_done. Qed.

Lemma converse_shows client a recovered sid :
  shows (converse base prompt model options client a recovered sid)
    (fun l o => exists talk l', l = talk ++ l' /\ talk_ok talk /\ attempt_ends a l' o).
Proof.
  unfold converse. pose proof (eq_refl query_body) as Hb. unfold query_body in Hb at 2.
  destruct (create_session_prompt_body _ _ _ _) as [body|e].
  2:{ eapply shows_mono, (finished_shows a []); [|done]. intros l o Hl. exists [], l. split_and!; [done|by left|done]. }
  eapply shows_bind; [apply stream_shows| |].
  - intros k [Hk _]. exists k, []. rewrite app_nil_r. split_and!; [done| |done].
    destruct Hk as [->|(url & ->)]; [right; by left|]. right. right. by exists url, body.
  - intros k r [Hk Hr]. assert (talk_ok k) as Ht.
    { destruct Hk as [->|(url & ->)]; [right; by left|]. right. right. by exists url, body. }
    enough (forall p, shows p (attempt_ends a) -> shows p (fun l o => exists talk l', k ++ l = talk ++ l' /\ talk_ok talk /\ attempt_ends a l' o)) as Hp.
    { apply Hp. destruct r as [cs|e].
      - destruct (Hr cs eq_refl) as (cs' & r & -> & Hc). by apply finished_shows.
      - destruct (str_eqb e (lit "aborted")); [by apply (finished_shows a [])|].
        eapply shows_hidden; [apply classified_hidden|]. intros c. apply mend_shows. }
    intros p. apply shows_mono. intros l o Hl. by exists k, l.
Qed.

Definition makes (make : list oc_life) : Prop := exists url, make ∈ [[]; [Posted url (Object [])]].
Definition warns (warn : list oc_life) : Prop := warn = [] \/ resuming = true /\ warn = [Said not_resumed_warning].
Lemma with_server_shows a recovered url :
  shows (with_server base prompt model resume options cwd a recovered url)
    (fun l o => exists make warn talk l', l = make ++ warn ++ talk ++ l' /\ makes make /\ warns warn /\ talk_ok talk /\ attempt_ends a l' o).
Proof.
  unfold with_server. cbv zeta. eapply shows_hidden; [apply prepare_hidden|]. intros [].
  eapply shows_bind; [apply resolve_shows|by intros k [_ ?]|]. intros make r [Hm _]. destruct r as [session|e].
  - apply shows_oc_say. eapply shows_mono, converse_shows. intros l o (talk & l' & -> & Ht & Ha).
    eexists make, _, talk, l'. split; [done|]. split; [done|]. split; [|done]. fold resuming. unfold warns.
    destruct resuming; [destruct (resumed session); [by left|by right]|by left].
  - eapply shows_hidden; [apply classified_hidden|]. intros c. eapply shows_mono, mend_shows. intros l o Ha.
    exists make, [], [], l. split_and!; [done|done|by left|by left|done].
Qed.

Lemma on_the_way_start starts : forallb is_start starts = true -> length starts <= OPENCODE_START_MAX_RETRIES ->
  on_the_way resuming query_body starts.
Proof.
  intros Hs Hn. replace starts with (starts ++ [] ++ [] ++ []) by by rewrite app_nil_r.
  eapply (way _ _ starts [] [] [] []); [done|done|by left|by left|by left].
Qed.
(** An attempt: on the way, and its end; or no port could be had. *)
Lemma one_attempt_shows a recovered :
  shows (one_attempt base prompt model resume options cwd a recovered)
    (fun l o => (exists t l', l = t ++ l' /\ on_the_way resuming query_body t /\ attempt_ends a l' o)
       \/ (exists e r, o = Ret (Again e r)) /\ forallb is_start l = true /\ length l <= OPENCODE_START_MAX_RETRIES).
Proof.
  unfold one_attempt. eapply shows_hidden; [by apply hidden_act|].
  assert (Hend : forall starts p, forallb is_start starts = true -> length starts <= OPENCODE_START_MAX_RETRIES ->
    shows p (attempt_ends a) -> shows p (fun l o => (exists t l', starts ++ l = t ++ l' /\ on_the_way resuming query_body t /\ attempt_ends a l' o)
       \/ (exists e r, o = Ret (Again e r)) /\ forallb is_start (starts ++ l) = true /\ length (starts ++ l) <= OPENCODE_START_MAX_RETRIES)).
  { intros starts p Hs Hn. apply shows_mono. intros l o Hl. left. exists starts, l. split_and!; [done|by apply on_the_way_start|done]. }
  intros [|]; [apply (Hend []); [done|apply Nat.le_0_l|by apply (finished_shows a [])]|].
  eapply shows_hidden; [by apply hidden_act|]. intros cancelled.
  eapply shows_bind; [apply acquire_starting| |].
  - intros k [Hk Hn]. left. exists k, []. rewrite app_nil_r. split_and!; [done|by apply on_the_way_start|done].
  - intros k r [Hk Hn]. destruct r as [url|[]]; try (apply Hend; [done..|by apply (finished_shows a [])]).
    + eapply shows_mono, with_server_shows. intros l o (make & warn & talk & l' & -> & (url' & Hm) & Hw & Ht & Ha). left.
      exists (k ++ make ++ warn ++ talk), l'. split; [by rewrite <- !app_assoc|]. split; [|done].
      by apply (way _ _ k make warn talk url').
    + apply shows_done. right. rewrite app_nil_r. split; [by eexists _, _|done].
Qed.

Lemma run_attempts_shows n a last_error recovered :
  a + n = MAX_RETRIES ->
  shows (run_attempts base prompt model resume options cwd n a last_error recovered)
    (attempts_life resuming query_body base a).
Proof.
  revert a last_error recovered. induction n as [|n IH]; intros a last_error recovered Ha; cbn [run_attempts].
  { eapply shows_mono, oc_say_shows. intros l o [-> ->]. replace a with MAX_RETRIES by lia. apply al_exhausted. }
  eapply shows_bind; [apply one_attempt_shows| |].
  - intros k [(t & l' & -> & Ht & ->)|[(e & r & [=]) _]]. rewrite app_nil_r. apply al_panic; [lia|done].
  - intros k r [(t & l' & -> & Ht & Hl)|[(e & r' & [= ->]) [Hk Hn]]].
    + destruct r as [|e r]; cbn [attempt_ends] in Hl.
      * destruct Hl as (cs & r & -> & Hc). apply shows_done. rewrite app_nil_r. apply al_result; [lia|done|done].
      * destruct Hl as [-> Hs]. eapply shows_mono, (IH (S a)); [|lia]. intros l o Hl. rewrite <- app_assoc. by apply al_again.
    + eapply shows_mono, (IH (S a)); [|lia]. intros l o Hl. apply al_no_port; [lia|done..].
Qed.

(** Whatever the attempts do, one result is said, last, unless the query panics: then none
    is. *)
Lemma way_no_result t : on_the_way resuming query_body t -> existsb is_result t = false.
Proof.
  intros [starts make warn talk client Hs _ Hm Hw Ht]. rewrite !existsb_app. repeat apply orb_false_intro.
  - clear -Hs. induction starts as [|[] starts IH]; try done. by apply IH.
  - rewrite !elem_of_cons, elem_of_nil in Hm. by destruct Hm as [->|[->|[]]].
  - by destruct Hw as [->|[_ ->]].
  - by destruct Ht as [->|[->|(url & b & _ & ->)]].
Qed.
Lemma starts_no_result t : forallb is_start t = true -> existsb is_result t = false.
Proof. induction t as [|[] t IH]; done. Qed.
Lemma attempts_one_result a l o :
  attempts_life resuming query_body base a l o ->
  match o with
  | Ret _ => exists pre r, l = pre ++ [Said (ResultMsg r)] /\ existsb is_result pre = false
  | Panic => existsb is_result l = false
  end.
Proof.
  induction 1 as [a t cs r Ha Ht Hc|a t Ha Ht|a t l o Ha Ht Hl IH|a t l o Ha Ht Hn Hl IH|r].
  - exists (t ++ map Said cs), r. rewrite <- app_assoc. split; [done|]. by rewrite existsb_app, way_no_result, Hc.
  - by apply way_no_result.
  - destruct o as [[]|].
    + destruct IH as (pre & r & -> & Hp). exists (t ++ [Paused (delay base a)] ++ pre), r. rewrite <- !app_assoc. split; [done|].
      rewrite !existsb_app, way_no_result by done. exact Hp.
    + rewrite !existsb_app, way_no_result by done. exact IH.
  - destruct o as [[]|].
    + destruct IH as (pre & r & -> & Hp). exists (t ++ pre), r. rewrite <- app_assoc. split; [done|].
      by rewrite existsb_app, starts_no_result, Hp.
    + by rewrite existsb_app, starts_no_result, IH.
  - by exists [], r.
Qed.

(** The subscriptions, of which each comes before at most one prompt. *)
Definition is_subscribed (l : oc_life) : bool := match l with Subscribed => true | _ => false end.
Definition subscriptions (l : list oc_life) : nat := length (List.filter is_subscribed l).
Lemma subscriptions_app a b : subscriptions (a ++ b) = subscriptions a + subscriptions b.
Proof. unfold subscriptions. by rewrite List.filter_app, length_app. Qed.
Lemma starts_subscriptions t : forallb is_start t = true -> subscriptions t = 0.
Proof. induction t as [|[] t IH]; done. Qed.
Lemma said_subscriptions cs : subscriptions (map Said cs) = 0.
Proof. by induction cs. Qed.
Lemma way_subscriptions t : on_the_way resuming query_body t -> subscriptions t <= 1.
Proof.
  intros [starts make warn talk client Hs _ Hm Hw Ht]. rewrite !subscriptions_app, starts_subscriptions by done.
  assert (subscriptions make = 0) as -> by (rewrite !elem_of_cons, elem_of_nil in Hm; by destruct Hm as [->|[->|[]]]).
  assert (subscriptions warn = 0) as -> by by destruct Hw as [->|[_ ->]].
  destruct Ht as [->|[->|(url & b & _ & ->)]]; unfold subscriptions; cbn; lia.
Qed.
Lemma attempts_subscriptions a l o :
  attempts_life resuming query_body base a l o -> subscriptions l <= MAX_RETRIES - a.
Proof.
  induction 1 as [a t cs r Ha Ht Hc|a t Ha Ht|a t l o Ha Ht Hl IH|a t l o Ha Ht Hn Hl IH|r];
    try (pose proof (way_subscriptions t Ht)); rewrite ?subscriptions_app, ?said_subscriptions.
  - change (subscriptions [Said (ResultMsg r)]) with 0. lia.
  - lia.
  - change (subscriptions [Paused (delay base a)]) with 0. lia.
  - rewrite starts_subscriptions by done. lia.
  - cbn. lia.
Qed.
End Attempts.

(** ** The query *)

Section Theorems.
Context `{RegexEngine} `{HashMapOrder} `{UnicodeCase} `{SerdeJson} `{JsonErrors} `{UrlCrate}.

Definition oc_refusals : list string := ["model_required"; "invalid_model_ref"; "external_base_url_unsupported"]%string.

(** C32: A query to OpenCode, from its options to its end, whatever is answered.  What is wrong
    with the options is the one result, and nothing is done.  Otherwise there are at most
    three attempts, each of which starts at most three servers, makes at most one session,
    and sends its prompt only after it has subscribed to the events, and the body it sends
    is that of the options.  An attempt that is mended is paused for, twice as long each
    time.  The query subscribes at most three times; when it returns it has said one
    result, last; when it panics, none. *)
Theorem opencode_query (base : N) (prompt cwd : str) (resume : option str) (options : option SendQueryOptions) :
  shows (oc_send_query base prompt cwd resume options)
    (fun l o =>
       ((exists subtype e, subtype ∈ oc_refusals /\ l = [Said (oc_error (lit subtype) e)] /\ o = Ret tt)
        \/ exists model, attempts_life (bool_decide (resume <> None)) (query_body prompt model options) base 0 l o)
       /\ subscriptions l <= MAX_RETRIES
       /\ match o with
          | Ret _ => exists pre r, l = pre ++ [Said (ResultMsg r)] /\ existsb is_result pre = false
          | Panic => existsb is_result l = false
          end).
Proof.
  assert (Hrefuse : forall subtype e, subtype ∈ oc_refusals ->
    shows (oc_say [oc_error (lit subtype) e]) (fun l o =>
       ((exists subtype e, subtype ∈ oc_refusals /\ l = [Said (oc_error (lit subtype) e)] /\ o = Ret tt)
        \/ exists model, attempts_life (bool_decide (resume <> None)) (query_body prompt model options) base 0 l o)
       /\ subscriptions l <= MAX_RETRIES
       /\ match o with
          | Ret _ => exists pre r, l = pre ++ [Said (ResultMsg r)] /\ existsb is_result pre = false
          | Panic => existsb is_result l = false
          end)).
  { intros subtype e Hs. eapply shows_mono, oc_say_shows. intros l o [-> ->]. split; [left; by exists subtype, e|].
    split; [apply Nat.le_0_l|]. by eexists [], _. }
  unfold oc_send_query. cbv zeta. destruct (match options ≫= so_model with Some m => Some m | None => _ end) as [mref|].
  2:{ apply Hrefuse. set_solver. }
  destruct (parse_model_ref mref) as [model|]; [|apply Hrefuse; set_solver].
  destruct (oc_base_url _); [apply Hrefuse; set_solver|].
  eapply shows_mono; [|apply (run_attempts_shows base prompt model resume options _ MAX_RETRIES 0); done].
  intros l o Hl. split; [right; by exists model|]. split; [exact (attempts_subscriptions base prompt model resume options 0 l o Hl)|].
  exact (attempts_one_result base prompt model resume options 0 l o Hl).
Qed.
End Theorems.

(** ** The server outlives its queries *)

(** Calls that stop the server of the runtime, or forget it. *)
Definition keeps_runtime (c : oc_call) : Prop :=
  match c with SetRuntime None | PidOnPort _ | KillPid _ => False | _ => True end.
Lemma keeps_say chunks : only_calls keeps_runtime (oc_say chunks).
Proof. apply (only_lift _ _ (fun _ => True)); [done|]. apply always_any. intros. by apply Forall_true. Qed.
Lemma keeps_files {A} (p : files A) : only_calls keeps_runtime (on_files p).
Proof. apply (only_lift _ _ (fun _ => True)); [done|]. apply always_any. intros. by apply Forall_true. Qed.
Lemma keeps_halt {A} : only_calls keeps_runtime (@Halt oc_call _ A).
Proof. constructor. Qed.
(** Every call of a process in turn. *)
Ltac keeps :=
  repeat first
    [ apply keeps_say | apply keeps_files | apply keeps_halt | apply only_done | apply only_pure
    | match goal with
      | |- only_calls _ (act ?c) => exact (only_ask keeps_runtime c I)
      | |- only_calls _ is_cancelled => exact (only_ask keeps_runtime (OcCommon IsCancelled) I)
      end
    | apply only_bind; [|intros ?] | case_match ].

Section Outlives.
Context `{RegexEngine} `{HashMapOrder} `{UnicodeCase} `{SerdeJson} `{JsonErrors} `{UrlCrate}.

Lemma start_keeps n err : only_calls keeps_runtime (start_runtime n err).
Proof.
  revert err. induction n as [|n IH]; intros err; cbn [start_runtime]; unfold var_or_empty;
    repeat first [apply IH | progress keeps].
Qed.
Lemma session_keeps client sid chunks st items : only_calls keeps_runtime (session_loop client sid chunks st items).
Proof.
  revert chunks st. induction items as [|[e|e] items IH]; intros chunks st; cbn [session_loop]; cbv zeta;
    unfold abort_session, read_structured_output, get_message; repeat first [apply IH | progress keeps].
Qed.
Lemma mend_keeps base a retry e c r : only_calls keeps_runtime (mend base a retry e c r).
Proof. unfold mend, oc_pause. keeps. Qed.
Lemma classified_keeps e : only_calls keeps_runtime (classified e).
Proof. unfold classified, is_cancelled. keeps. Qed.
Lemma attempt_keeps base prompt model resume options cwd a recovered :
  only_calls keeps_runtime (one_attempt base prompt model resume options cwd a recovered).
Proof.
  unfold one_attempt, is_cancelled, acquire_embedded_runtime, with_server, prepare_agents, dispose_instance,
    resolve_session_id, created_session, create_session, get_session, converse, stream_opencode_session, subscribe_events, prompt_async.
  cbv zeta. repeat first [apply start_keeps | apply session_keeps | apply mend_keeps | apply classified_keeps | progress keeps].
Qed.

(** No query stops the server or gives it back: the count of its users only grows, and a
    server that has died is handed out again. *)
Lemma opencode_keeps_runtime base prompt cwd resume options :
  only_calls keeps_runtime (oc_send_query base prompt cwd resume options).
Proof.
  assert (forall model cwd n a e r, only_calls keeps_runtime (run_attempts base prompt model resume options cwd n a e r)) as Hn.
  { induction n as [|n IH]; intros a e r; cbn [run_attempts]; [apply keeps_say|].
    apply only_bind; [apply attempt_keeps|intros [|]; [apply only_done|apply IH]]. }
  unfold oc_send_query. cbv zeta. repeat case_match; first [apply keeps_say|apply Hn].
Qed.
End Outlives.

(** ** Concrete queries *)

Definition oc_urls : UrlCrate := {| byte_serialize := fun bs => bs; url_port := fun _ => Some 21000%N |}.
Definition oc_made : value := Object [key "id" (String (lit "s1"))].
Program Definition oc_json : SerdeJson := {|
  from_str := fun s =>
    if is_empty s then None
    else assoc_get s [(lit "{i}", Object idle_event); (lit "{t}", Object (part_event (lit "Hello"))); (lit "{s}", oc_made)];
  to_string := fun v => match v with Null => lit "null" | _ => lit "{}" end;
  number_to_string := fun _ => [];
|}.
Solve Obligations with done.
Definition answered (text : str) : result str HttpResponse := Ok (mk_HttpResponse 200 (Ok text)).
(** The runtime is what was last set. *)
Definition kept_runtime (past : oc_trace) : option EmbeddedRuntime :=
  fold_left (fun cur e => match ev_call e with SetRuntime r => r | _ => cur end) past None.
Definition oc_world (sent : list (result str bytes)) : Process.world oc_call := fun past c =>
  match c with
  | OcCommon c => plain_answer c
  | Files c => files_world [] c
  | HttpGet _ | HttpPost _ _ => answered (lit "{s}")
  | OpenEvents _ => Ok (mk_EventsResponse (mk_HttpResponse 200 (Ok [])) sent)
  | GetVar _ => None
  | RandomPort => 21000%N
  | RandomPassword => []
  | NewTempDir => Ok (lit "/tmp/x")
  | Serve _ _ => Ok tt
  | ServeLines _ => mk_ServeOutput [lit "starting"; lit "opencode server listening on http://127.0.0.1:21000/"] false
  | ServeStderr _ => []
  | PidOnPort _ => Some (lit "77" ++ [10%N])
  | KillServe | KillPid _ | SetRuntime _ => tt
  | GetRuntime => kept_runtime past
  end.
Definition oc_sample_options : SendQueryOptions :=
  mk_SendQueryOptions (Some (lit "anthropic/claude")) None None None None None None None None None None.
Definition oc_sample_query (resume : option str) : oc unit :=
  @oc_send_query backtracking_engine canonical_order ascii_case oc_json events_errors oc_urls 2000 (lit "hi") (lit "/w") resume
    (Some oc_sample_options).
Definition oc_sent : list (result str bytes) := [Ok (as_bytes (lit "data: {t}" ++ frame_end ++ lit "data: {i}" ++ frame_end))].
Definition oc_url (path : string) : str := lit "http://127.0.0.1:21000" ++ lit path ++ lit "?directory=/w".

Example oc_good_query :
  observed oc_life_of (fst (Process.exec (oc_world oc_sent) [] (oc_sample_query None)))
  = [Started (serve_args 21000); Posted (oc_url "/session") (Object []); Subscribed;
     Posted (oc_url "/session/s1/prompt_async")
       (Object [key "parts" (Array [Object [key "type" (String (lit "text")); key "text" (String (lit "hi"))]]);
                key "model" (model_value (mk_ProviderModel (lit "anthropic") (lit "claude")))]);
     Said (Assistant (lit "Hello") None);
     Said (ResultMsg (mk_ResultChunk (Some (lit "s1")) None None None None None None None None None))].
Proof. by_compute. Qed.
(** The messages of a session that does not become idle are lost. *)
Example oc_lost_messages :
  observed oc_life_of (fst (Process.exec (oc_world [Ok (as_bytes (lit "data: {t}" ++ frame_end))]) [] (oc_sample_query (Some (lit "s1")))))
  = [Started (serve_args 21000); Subscribed;
     Posted (oc_url "/session/s1/prompt_async")
       (Object [key "parts" (Array [Object [key "type" (String (lit "text")); key "text" (String (lit "hi"))]]);
                key "model" (model_value (mk_ProviderModel (lit "anthropic") (lit "claude")))]);
     Said (oc_error (lit "unknown") (lit "OpenCode unknown: SSE stream ended without session.idle"))].
Proof. by_compute. Qed.
(** Two queries start one server, and leave it with two users; to give it back twice stops it. *)
Definition two_queries : oc unit := _ ← oc_sample_query None; oc_sample_query None.
Definition give_back : oc unit :=
  @release_embedded_runtime_for_url oc_urls (lit "http://127.0.0.1:21000").
Example oc_server_stays :
  let tr := fst (Process.exec (oc_world oc_sent) [] two_queries) in
  kept_runtime tr = Some (mk_EmbeddedRuntime (lit "http://127.0.0.1:21000") 2)
  /\ length (List.filter is_start (observed oc_life_of tr)) = 1
  /\ map ev_call (fst (Process.exec (oc_world oc_sent) tr (_ ← give_back; give_back)))
     = [GetRuntime; SetRuntime (Some (mk_EmbeddedRuntime (lit "http://127.0.0.1:21000") 1));
        GetRuntime; KillServe; PidOnPort 21000; KillPid 77; SetRuntime None].
Proof. split_and!; by_compute. Qed.
(** Any digits of an error decide its class: here those of a session. *)
Example oc_class_of_digits :
  classify_opencode_error (lit "failed to create session: server error 500: session 4290 is gone") false = OcRateLimit.
Proof. by_compute. Qed.
